(* ===== verification/_CoqProject ===== *)
-Q . S2P
Prelude.v
GasPriceV1.v
TxTypes.v
TxPoolSpent.v
TxPoolExtracted.v
TxPoolTypes.v
TxPoolCollision.v
TxPoolGraph.v
TxPoolGraphFacts.v
TxPoolGraphSpec.v
TxPoolSelection.v
TxPoolSelectionFacts.v
TxPoolPool.v
TxPoolPoolFacts.v
TxPoolInsertFacts.v
TxPoolSpec.v
TxPoolPending.v
TxPoolPendingFacts.v
TxPoolWorker.v
TxPoolWorkerFacts.v
StorageTx.v
SyncState.v
SyncCache.v
HistoricalDb.v
HistoricalDbFacts.v
Database.v
DatabaseFacts.v
CombinedDb.v
Blocks.v
Tables.v
BlockStore.v
ChainFacts.v
Verifier.v
Producer.v
Importer.v
ImporterFacts.v
ImporterInv.v
Programs.v
PoaService.v
PoaWp.v
ProducerFacts.v
SampleChain.v
ImporterSpec.v
Node.v
RedisNode.v
SampleRedis.v
RedisNodeFacts.v
LeaderLease.v
LeaderVotes.v
LeaderFacts.v
Cluster.v
ClusterFacts.v
SampleCluster.v
ClusterSpec.v
ExecTypes.v
VmStorage.v
Executor.v
ExecutorMonad.v
ExecutorReplay.v
ExecutorBlock.v
ExecutorProduce.v
ExecutorEffects.v
ExecutorAccounts.v
ExecutorGas.v
SampleVm.v
ExecutorSpec.v
Iteration.v
OffChain.v
OffChainFacts.v
OffChainQuery.v
OffChainWorker.v
OffChainWorkerFacts.v
OffChainBlockFacts.v
OffChainCommit.v
CoinSelection.v
OffChainQueryFacts.v
OffChainSample.v
OffChainSpec.v
