(* ===== verification/Prelude.v ===== *)
(** * fuel-core: a verification development

    fuel-core is the node of the Fuel network.  Clients and peers send
    transactions to the transaction pool.  The PoA task decides when to produce a
    block; the producer builds its header and has the executor run transactions of
    the pool, at a gas price the gas price algorithm computes; the task seals the
    block and gives it to the importer.  Blocks of other producers reach the importer
    through the synchronisation with peers, which checks and executes them first.  The
    importer commits blocks to the database, which keeps a history for views of and
    rollbacks to earlier heights, and tells the pool, which also follows the
    preconfirmations of the block producer, and the off-chain worker, which indexes
    each block in a second database for the queries of clients.  This library models these parts of the
    node as executable definitions and proves them correct, alone and together.

    ** Conventions

    A machine integer is a [Z]; the operations write out what the source does at
    the bounds of its width (saturation, checked failure).  A fallible function
    returns a [result]; an [option] around it stands for a panic ([None]), so a
    theorem that a function returns [Some _] says that no [expect], index or
    unreachable branch fails.  The model follows the release build, in which a
    [debug_assert!] does nothing.  The one that a legitimate block makes fail, in the
    promotion of [process_committed_transactions], is [promotes_stored], and
    [committed_leave_pool] says exactly when it fails.  Methods on [&mut self] take and return the state.  Clocks and
    database views are arguments.  Third-party code is a type class with the calls
    the source makes and a second class with the documented laws; each has a
    concrete instance, so that the witnesses evaluate: [StableDiGraph] (petgraph),
    [LruCache] (lru), [HashOrder] (the iteration order of a [HashSet], any
    permutation of its elements), [Postcard] and the other codecs (what is encoded
    decodes to the same value), [ChainCrypto] (hashes, Merkle roots, signatures),
    [MerkleTree] (the tree in the database).  Messages sent on channels are lists in
    the state or in the result; a channel that is full loses messages, which is not
    modelled.  Asynchronous code is a state machine whose steps are the stretches
    between two [await]s ([Importer], [Node]), or a program over requests to its
    environment ([PoaService], [LeaderLease]).

    ** The files

    - [Prelude]: results, machine integers, sums over lists and maps, the tactics.

    Gas price
    - [GasPriceV1]: fuel-gas-price-algorithm/src/v1.rs.  The updater
      ([AlgorithmUpdaterV1]), its activity tracker and the trait [UnrecordedBlocks].
      Theorems: fields stay at their width and prices in their band, the change per
      block is limited, the reaction to activity and profit, the bytes of
      unrecorded blocks are exact, the costs after a DA recording.

    Transaction pool
    - [TxTypes]: types/src/services/txpool.rs, coins and messages.
      Transactions with the fields the pool reads.
    - [TxPoolTypes]: error.rs, config.rs, ports.rs and storage/mod.rs of txpool_v2.
    - [TxPoolSpent]: spent_inputs.rs.  While its capacity suffices the LRU record
      of spent inputs refines a set; the life cycle of an extracted input.
    - [TxPoolExtracted]: extracted_outputs.rs.  The coins of extracted transactions.
    - [TxPoolCollision]: collision_manager/basic.rs.  The collisions found are
      exactly the conflicts.
    - [TxPoolGraph], [TxPoolGraphFacts], [TxPoolGraphSpec]: storage/graph.rs.  The
      invariant [gs_ok] (no cycles, no diamonds, exact cumulative sums, exact
      caches) is kept by storing and removing; the sums kept incrementally are
      those of the subtree; input validation is exact.
    - [TxPoolSelection], [TxPoolSelectionFacts]: selection_algorithms.  The
      transactions gathered for a block respect its constraints, and none that is
      allowed still fits.
    - [TxPoolPool], [TxPoolPoolFacts], [TxPoolInsertFacts], [TxPoolSpec]: pool.rs and pool/collisions.rs.  The pool composes the parts
      above; [pool_ok] says that they describe the same transactions.  The pool is
      a state machine over its public operations, and [TxPoolSpec] has the theorems
      on every state that operations under the conditions of [op_ok] reach.
    - [TxPoolPending], [TxPoolPendingFacts]: pending_pool.rs.  Transactions that
      wait for their inputs: indexes and totals agree, release and expiry are exact.
    - [TxPoolWorker], [TxPoolWorkerFacts]: pool_worker.rs.  The worker that runs
      every request on both pools; preconfirmations and their reconciliation with
      imported blocks.

    Storage
    - [StorageTx]: storage/src/transactional.rs.  A transaction over a storage, with
      its conflict policies; through any reads and writes a transaction behaves as the
      view of the storage below with its changes.
    - [HistoricalDb], [HistoricalDbFacts]: state/historical_rocksdb.rs and the parts
      of rocks_db.rs it uses.  Commits that record the reverse changes of each
      height in a second column, views at a height and rollbacks.
    - [Database], [DatabaseFacts]: database.rs.  The database checks heights and
      keeps its metadata; over any commits and rollbacks it behaves as a stack of
      versions.
    - [CombinedDb]: combined_database.rs.  The rollback of the databases of a node
      to a height: that it ends, with every database at the target, or what it reports.
    - [Tables]: blueprint/plain.rs and merklized.rs.  The operations of the tables of a
      storage.
    - [BlockStore], [ChainFacts]: the tables of blocks, transactions and seals, and the
      reads and writes of the importer, the producer and the PoA service
      (importer/src/ports.rs, service/adapters).  [chain_held] says that a storage
      holds a list of sealed blocks, and nothing else, in these tables.

    Synchronisation with peers
    - [SyncState]: sync/src/state.rs.  The heights to import, as a range.
    - [SyncCache]: sync/src/import/cache.rs.  The chunks served from the cache and
      those to ask for cover the range.

    Blocks
    - [Blocks]: types/src/blockchain.  Headers, blocks and seals, their hashes.
    - [Verifier]: consensus_module/src/block_verifier.rs and poa/src/verifier.rs.
      [extends] is the specification of a block that extends a chain.
    - [Producer], [ProducerFacts]: producer/src/block_producer.rs.  The header of a
      new block extends the chain of the view; the DA height is the highest that fits.
    - [Importer], [ImporterFacts], [ImporterInv], [ImporterSpec]: importer/src.  The
      calls, the queue of the inner task, its permits and guard.  Whatever calls
      overlap, time out or are dropped, the database holds the chain of the
      announced blocks, a call hears [Ok] exactly if its block was committed, the
      checks accept exactly the blocks that extend the chain, and calls return.
    - [Programs]: programs over requests, and their weakest preconditions in a world
      that also changes by itself.
    - [PoaService], [PoaWp]: poa/src/service.rs.  The production task as a
      program, its rules over a chain that grows, and [links], what a block has to
      satisfy to be handed to the importer.
    - [Node]: the production task with the producer and the importer, while the
      network imports blocks.  The node only ever adds blocks that extend its chain.
    - [SampleChain]: concrete instances of the interfaces above, for the witnesses.

    Leader lock
    - [RedisNode], [RedisNodeFacts]: the six scripts of
      redis_leader_lease_adapter_scripts on one Redis node.  Whatever calls it gets, a
      node takes at most one block of a height.
    - [LeaderLease], [LeaderVotes], [LeaderFacts]: the adapter in
      adapters/consensus_module/poa.rs: the lease with its quorum and epochs, the
      publication of a block, the votes of a height and the repair of a block that is
      not on a quorum.
    - [Cluster], [ClusterFacts], [ClusterSpec]: any number of production tasks with
      their adapters and the nodes; a request is executed late, twice by a retry or
      never, and a lease ends at any time.  Two blocks of a height that were handed to
      importers are the same.
    - [SampleRedis], [SampleCluster]: a concrete Redis server and cluster.

    Execution
    - [ExecTypes]: the data of the executor (types/src/services/executor.rs, entities,
      executor/src/ports.rs) and the tables of the state.
    - [VmStorage]: storage/src/vm_storage.rs, with the recorder of reads and the hashes
      of executor/src/storage_access_recorder.rs and contract_state_hash.rs.  The
      virtual machine is a program of calls to this storage.
    - [Executor]: executor/src/executor.rs.  Production, dry run and validation of a
      block, in a monad of execution data and storage in which what was changed before
      an error stays.
    - [ExecutorMonad], [ExecutorReplay], [ExecutorBlock], [ExecutorProduce]: what computations leave behind, the laws of the virtual
      machine, and that the transactions of a produced block can be executed again with
      the same result.
    - [ExecutorEffects], [ExecutorAccounts], [ExecutorGas]: what an executed transaction
      does to the tables and the execution data, the invariant [accounted] of a block,
      and the gas it uses.
    - [ExecutorSpec]: a produced block is valid; a valid block has its mint transaction
      at the end, with all fees if it names a contract, and new transactions only; its
      events tell how the tables of coins and messages change; production within the
      gas limit ends; what a transaction that overflows the block leaves behind.
    - [SampleVm]: a concrete virtual machine and a database.

    Off-chain database and queries
    - [Iteration]: the iterators of state/rocks_db.rs and storage/src/iter.rs over the
      ordered keys of a column.
    - [OffChain]: the tables of graphql_api/storage, the indexes of balances, coins to
      spend and assets (graphql_api/indexation), and what worker_service.rs writes for a
      block, in a monad over a transaction of the storage.
    - [OffChainFacts], [OffChainBlockFacts], [OffChainCommit]: a [Ledger] has the coins
      and messages on chain; [indexed] says that tables are its indexes, and the events
      of a block lead from the indexes of one ledger to those of the next, with the
      statuses, owners, contracts and supplies of the block, in one version of the
      database.
    - [OffChainWorker], [OffChainWorkerFacts]: the task of
      worker_service.rs (the catch-up with the chain, the loop that follows the
      importer, errors and shutdown) as a step relation that is interleaved with the
      commits and broadcasts of the importer, over any processor of blocks
      ([BlockProcessor]); the processor of imported blocks is an instance.
    - [OffChainQuery], [CoinSelection], [OffChainQueryFacts]: coins_query.rs,
      query/balance, the adapters and the request of schema/coins.rs.  The balance of an
      owner, and the selection of coins to spend with and without the index; both are
      compared with the ledger.
    - [OffChainSample], [OffChainSpec]: the off-chain database of a concrete ledger, and
      the theorems: a valid block becomes one version with the indexes of the state it
      leaves, the worker processes the chain in order and catches up with it, balances
      and selections are those of the ledger, keys are of their types, iteration is
      exact; and where the code departs from this.

    ** Fuel

    Six loops are not structural.  The breadth first removal of a subtree and the
    recursion that reduces the cumulative sums take the number of nodes of the
    graph as fuel: no node is removed twice, and no path visits a node twice.  The
    search for all dependencies takes [max_txs_chain_count + 1], as it fails once it
    has met that many, and the rounds of [gather_best_txs] take [maximum_txs + 1],
    as every round but the last selects a transaction.  The theorems
    [graph_remove_subtree], [can_store_answers], [gather_keeps_pool_consistent] and
    [pool_never_breaks] state that the result is there.  The loops of
    the combined rollback take the greatest distance of a database from the target plus
    one, as every round goes back by one height; [rollback_reaches_target] states it.
    The batches of a production and its rounds depend on the source and the waiter,
    which may go on forever; from a list of transactions one batch per transaction and
    one round are enough ([production_ends]).

    ** What is assumed of callers

    The operations of the pool assume that amounts are unsigned and that totals fit
    in 64 bits; that a block commits with a transaction those it depends on in the
    pool; that a preconfirmation comes after those of the transactions it depends
    on ([op_ok], [event_ok]).  The code checks none of these.  A block that has another
    creator of a contract than the pooled one, and a pooled transaction that uses the
    contract, breaks the second: the cumulative sums of the pooled creator are then too
    high ([unclosed_commit_stale]), while the rest of the pool stays consistent
    ([committed_leave_pool]).  The pending pool assumes that a transaction is not submitted again while it
    waits: [resubmission_leaks] shows what happens otherwise.

    The theorems on the database are about keys none of which is a prefix of another
    in the same table, and values below the history columns.  Those on the importer and
    the node assume that the changes of an execution are within the tables of the state
    and not in those of blocks ([ImporterPortsLaws], [BlockExecutorLaws]), that the
    producer's blocks have the header they were asked for, and that the node starts
    with a chain.  Of a predefined block [node_only_extends_chain] says less than of
    others, because nothing compares its time and DA height with those of its parent.

    The producers of a leader lock use the same list of Redis nodes, keys and stream
    length; a node keeps its data, and its numbers stay below 2^53, where Lua is exact.
    The index of a node keeps twice the length of the stream and 256 more heights: below
    a full index nothing is promised.

    Of fuel-tx and fuel-vm the executor relies on [FuelVmLaws]: identifiers, checks and
    the run of a transaction depend on the part that its signers fix, which the run
    keeps; the gas used is within the maximal gas; stored blobs stay.  The source of a
    production is trusted with the checks it marks a transaction with
    ([honest_source]), and the bound on the gas of a block assumes that no checked
    transaction carries less than the maximal gas the parameters of the block give it
    ([claims_max_gas]).  The events of a block are exact unless a forced transaction
    failed in its execution, where coins that do not exist are forbidden and messages
    are stored by their nonces.  The replay of a produced block is stated unless a skipped
    transaction overflowed the size or gas of the block: [skipped_fee_spoils_block]
    says what happens then.

    The off-chain theorems start from tables that are the indexes of the ledger.  A
    block is new to them: its transactions have no status yet and a message is imported
    once.  Identifiers have 32 bytes, a coin is one of the first 256 outputs, and the
    ledger has at most 2^64 entries, so that no sum of amounts leaves its width; the
    supplies of the assets allow the receipts of a block.  The selection of coins is
    exact on both paths, which differ for a limit of zero ([zero_limit_answers]), for
    coins that are worth nothing, and where a key of the index is in the way of the
    iteration backward ([gap_free], [reverse_iteration_misses]).

    The bytes of unrecorded blocks are exact as long as the calls of the trait succeed
    and heights and bytes stay within their widths.

    ** What is not modelled

    Metrics, logs and the texts of errors; the asynchronous services around the
    other models; floating point ([worst_case] of the gas price); code of third parties
    (the virtual machine, Merkle trees, codecs, databases, network).  The replay of
    storage reads of a dry run, the compression registry, the status manager, the
    relayer, the network, the list of all balances, message proofs, the assembly of
    transactions and the other resolvers of the GraphQL interface have no model. *)

From stdpp Require Import prelude gmap list strings.
From Stdlib Require Import ZArith Lia.

Declare Scope fuel_scope.
Delimit Scope fuel_scope with fuel.
Local Open Scope Z_scope.

(** ** Fallible code

    [Result<A, E>] of the source.  Methods that take [&mut self] and can fail
    return the state next to the result, because an early return with [?] keeps
    the mutations made before it. *)

Inductive result (A E : Type) : Type :=
| Ok (a : A)
| Err (e : E).
Arguments Ok {A E} a.
Arguments Err {A E} e.

Definition result_bind {A B E} (r : result A E) (k : A → result B E) : result B E :=
  match r with Ok a => k a | Err e => Err e end.

Definition map_err {A E F} (f : E → F) (r : result A E) : result A F :=
  match r with Ok a => Ok a | Err e => Err (f e) end.

Definition ok_or {A E} (o : option A) (e : E) : result A E :=
  match o with Some a => Ok a | None => Err e end.

Definition is_ok {A E} (r : result A E) : bool :=
  match r with Ok _ => true | Err _ => false end.

Definition unwrap_or {A} (o : option A) (d : A) : A :=
  match o with Some a => a | None => d end.

(** [let? x := e in k] is [let x = e?; k]. *)
Notation "'let?' x := e 'in' k" := (result_bind e (fun x => k))
  (at level 10, x pattern, e at level 200, k at level 200)
  : fuel_scope.

(** Early-return loops: [for x in l { acc = body(acc, x)?; }]. *)
Fixpoint try_fold {A S E} (f : S → A → result S E) (s : S) (l : list A) : result S E :=
  match l with
  | [] => Ok s
  | x :: l => result_bind (f s x) (λ s', try_fold f s' l)
  end.

(** ** Machine integers

    An unsigned machine integer is a [Z]; each width is named by its greatest
    value, the source's [uN::MAX].  The arithmetic of the source is explicit
    about overflow, so every operation writes out what happens there. *)

Definition U8 : Z := 255.
Definition U16 : Z := 65535.
Definition U32 : Z := 4294967295.
Definition U64 : Z := 18446744073709551615.
Definition U128 : Z := 340282366920938463463374607431768211455.
Definition I128_MAX : Z := 170141183460469231731687303715884105727.
Definition I128_MIN : Z := -170141183460469231731687303715884105728.

Definition in_uint (m x : Z) : Prop := 0 ≤ x ≤ m.
Definition in_i128 (x : Z) : Prop := I128_MIN ≤ x ≤ I128_MAX.

Definition sat_add (m x y : Z) : Z := Z.min m (x + y).
Definition sat_sub (x y : Z) : Z := Z.max 0 (x - y).
Definition sat_mul (m x y : Z) : Z := Z.min m (x * y).

(** [checked_div] on unsigned integers. *)
Definition checked_udiv (x y : Z) : option Z :=
  if decide (y = 0) then None else Some (x / y).

(** [u64::div_ceil]. *)
Definition div_ceil (x y : Z) : Z := (x + y - 1) / y.

(** Signed 128-bit arithmetic: saturation clamps to both ends, division
    truncates towards zero and fails on zero and on [i128::MIN / -1]. *)
Definition i128_clamp (x : Z) : Z := Z.max I128_MIN (Z.min I128_MAX x).
Definition i128_sat_add (x y : Z) : Z := i128_clamp (x + y).
Definition i128_sat_sub (x y : Z) : Z := i128_clamp (x - y).
Definition i128_sat_mul (x y : Z) : Z := i128_clamp (x * y).
Definition i128_sat_abs (x : Z) : Z := i128_clamp (Z.abs x).
Definition i128_checked_add (x y : Z) : option Z :=
  if decide (I128_MIN ≤ x + y ≤ I128_MAX) then Some (x + y) else None.
Definition i128_checked_div (x y : Z) : option Z :=
  if decide (y = 0) then None
  else if decide (x = I128_MIN ∧ y = -1) then None
  else Some (Z.quot x y).

(** [uN::try_from]. *)
Definition try_uint (m x : Z) : option Z :=
  if decide (0 ≤ x ≤ m) then Some x else None.

#[global] Instance in_uint_dec m x : Decision (in_uint m x).
Proof. unfold in_uint. apply _. Defined.
#[global] Instance in_i128_dec x : Decision (in_i128 x).
Proof. unfold in_i128. apply _. Defined.

Create HintDb ints.

Ltac unfold_ints :=
  unfold in_uint, in_i128, sat_add, sat_sub, sat_mul, i128_sat_add, i128_sat_sub,
    i128_sat_mul, i128_sat_abs, i128_clamp, U8, U16, U32, U64, U128, I128_MAX,
    I128_MIN in *.

(** Bounds goals: open the machine-integer layer and call [lia]. *)
Ltac int_lia := unfold_ints; lia.
Ltac int_nia := unfold_ints; nia.

Section int_bounds.
Context (m : Z) (Hm : 0 ≤ m).

Lemma sat_add_range x y : in_uint m x → in_uint m y → in_uint m (sat_add m x y).
Proof using Hm. int_lia. Qed.

Lemma sat_sub_range x y : in_uint m x → 0 ≤ y → in_uint m (sat_sub x y).
Proof using Hm. int_lia. Qed.

Lemma sat_mul_range x y : 0 ≤ x → 0 ≤ y → in_uint m (sat_mul m x y).
Proof using Hm. int_nia. Qed.

Lemma div_range x y : in_uint m x → 0 ≤ y → in_uint m (x / y).
Proof using Hm.
  intros [Hx Hxm] Hy. destruct (decide (y = 0)) as [->|]; [rewrite Z.div_0_r; int_lia|].
  split; [apply Z.div_pos; lia|]. apply Z.div_le_upper_bound; [lia|nia].
Qed.
End int_bounds.

Lemma i128_clamp_range x : in_i128 (i128_clamp x).
Proof. int_lia. Qed.

Lemma i128_clamp_id x : in_i128 x → i128_clamp x = x.
Proof. int_lia. Qed.

Lemma quot_abs_le x y : y ≠ 0 → Z.abs (Z.quot x y) ≤ Z.abs x.
Proof.
  intros Hy. rewrite <- Z.quot_abs by done.
  destruct (decide (Z.abs y = 1)) as [->|]; [by rewrite Z.quot_1_r|].
  rewrite Z.quot_div_nonneg by lia. apply Z.div_le_upper_bound; nia.
Qed.

#[export] Hint Resolve sat_add_range sat_sub_range sat_mul_range div_range
  i128_clamp_range : ints.
#[export] Hint Extern 5 (_ ≤ _) => int_lia : ints.
#[export] Hint Extern 5 (_ < _) => int_lia : ints.
#[export] Hint Extern 6 (in_uint _ _) => int_lia : ints.
#[export] Hint Extern 6 (in_i128 _) => int_lia : ints.

(** ** Case analysis on fallible code *)

Lemma result_bind_ok {A B E} (r : result A E) (k : A → result B E) b :
  result_bind r k = Ok b ↔ ∃ a, r = Ok a ∧ k a = Ok b.
Proof.
  destruct r as [a|e]; simpl; split; [by eauto|by intros (? & [= <-] & ?)|done|by intros (? & ? & ?)].
Qed.

Lemma ok_or_ok {A E} (o : option A) (e : E) a : ok_or o e = Ok a ↔ o = Some a.
Proof. destruct o; naive_solver. Qed.

Lemma map_err_ok {A E F} (f : E → F) (r : result A E) a :
  map_err f r = Ok a ↔ r = Ok a.
Proof. destruct r; naive_solver. Qed.

Lemma try_fold_app {A S E} (f : S → A → result S E) s l k :
  try_fold f s (l ++ k) = result_bind (try_fold f s l) (λ s', try_fold f s' k).
Proof.
  revert s. induction l as [|x l IH]; intros s; simpl; [done|].
  destruct (f s x); simpl; auto.
Qed.

(** An invariant of the loop body is an invariant of the loop. *)
Lemma try_fold_inv {A S E} (I : S → Prop) (f : S → A → result S E) s l s' :
  I s → (∀ s x s', x ∈ l → I s → f s x = Ok s' → I s') →
  try_fold f s l = Ok s' → I s'.
Proof.
  revert s. induction l as [|x l IH]; intros s Hs Hf Heq; simpl in Heq; [by simplify_eq|].
  apply result_bind_ok in Heq as (s1 & H1 & H2).
  eapply IH, H2; [eapply Hf; eauto; set_solver|].
  intros. eapply Hf; eauto. set_solver.
Qed.

(** Open every [result] bind and option in the hypotheses. *)
Ltac result_inv :=
  repeat match goal with
  | H : result_bind _ _ = Ok _ |- _ =>
      let a := fresh "a" in let H1 := fresh "Hr" in let H2 := fresh "Hk" in
      apply result_bind_ok in H as (a & H1 & H2)
  | H : ok_or _ _ = Ok _ |- _ => apply ok_or_ok in H
  | H : map_err _ _ = Ok _ |- _ => apply map_err_ok in H
  | H : Ok _ = Ok _ |- _ => injection H as H
  | H : Err _ = Ok _ |- _ => discriminate H
  | H : Ok _ = Err _ |- _ => discriminate H
  | H : (if ?b then Err _ else _) = Ok _ |- _ => destruct b eqn:?; [discriminate H|]
  | H : (if ?b then _ else Err _) = Ok _ |- _ => destruct b eqn:?; [|discriminate H]
  end.

(** ** Sums over lists and maps *)

Definition sum_Z (l : list Z) : Z := foldr Z.add 0 l.

Lemma sum_Z_app l k : sum_Z (l ++ k) = sum_Z l + sum_Z k.
Proof. induction l; simpl; lia. Qed.

Lemma sum_Z_nonneg l : Forall (λ x, 0 ≤ x) l → 0 ≤ sum_Z l.
Proof. induction 1; simpl; lia. Qed.

#[global] Instance sum_Z_perm : Proper ((≡ₚ) ==> (=)) sum_Z.
Proof. intros l k H. induction H; simpl; lia. Qed.

(** Sums of a function over a list, and how often an element occurs. *)
Definition lsum {A} (f : A → Z) (l : list A) : Z := sum_Z (f <$> l).
Definition occ `{EqDecision A} (a : A) (l : list A) : Z :=
  lsum (λ b, if decide (a = b) then 1 else 0) l.

#[global] Instance lsum_perm {A} (f : A → Z) : Proper ((≡ₚ) ==> (=)) (lsum f).
Proof. intros l k Hp. unfold lsum. by rewrite Hp. Qed.
#[global] Instance occ_perm `{EqDecision A} (a : A) : Proper ((≡ₚ) ==> (=)) (occ a).
Proof. intros l k Hp. unfold occ. by rewrite Hp. Qed.

Lemma lsum_nil {A} (f : A → Z) : lsum f [] = 0.
Proof. done. Qed.
Lemma lsum_cons {A} (f : A → Z) x l : lsum f (x :: l) = f x + lsum f l.
Proof. done. Qed.
Lemma lsum_app {A} (f : A → Z) l k : lsum f (l ++ k) = lsum f l + lsum f k.
Proof. unfold lsum. by rewrite fmap_app, sum_Z_app. Qed.
Lemma lsum_zero {A} (l : list A) : lsum (λ _, 0) l = 0.
Proof. induction l as [|x l IH]; [done|]. unfold lsum in *. csimpl. lia. Qed.

Lemma lsum_add {A} (f g : A → Z) l : lsum (λ x, f x + g x) l = lsum f l + lsum g l.
Proof. induction l as [|x l IH]; [done|]. unfold lsum in *. csimpl. lia. Qed.

Section lsum.
Context {A : Type}.
Implicit Types (f g : A → Z) (l k : list A).

Lemma lsum_ext f g l : (∀ x, x ∈ l → f x = g x) → lsum f l = lsum g l.
Proof.
  induction l as [|x l IH]; intros Hfg; [done|].
  rewrite !lsum_cons, Hfg, IH; set_solver.
Qed.
Lemma lsum_scale c f l : lsum (λ x, c * f x) l = c * lsum f l.
Proof. induction l as [|x l IH]; rewrite ?lsum_cons, ?lsum_nil; lia. Qed.
Lemma lsum_nonneg f l : (∀ x, x ∈ l → 0 ≤ f x) → 0 ≤ lsum f l.
Proof.
  induction l as [|x l IH]; intros Hf; rewrite ?lsum_cons, ?lsum_nil; [done|].
  assert (0 ≤ f x) by (apply Hf; set_solver).
  assert (0 ≤ lsum f l) by (apply IH; set_solver). lia.
Qed.
Lemma lsum_swap {B} (h : A → B → Z) l (k : list B) :
  lsum (λ x, lsum (h x) k) l = lsum (λ y, lsum (λ x, h x y) l) k.
Proof.
  induction l as [|x l IH]; [symmetry; apply lsum_zero|].
  rewrite lsum_cons, IH, <- lsum_add. done.
Qed.
Lemma lsum_concat f (ls : list (list A)) : lsum f (concat ls) = lsum (lsum f) ls.
Proof.
  induction ls as [|l ls IH]; [done|]. cbn [concat]. by rewrite lsum_app, lsum_cons, IH.
Qed.
Lemma lsum_fmap {B} (g : B → A) f (k : list B) : lsum f (g <$> k) = lsum (λ y, f (g y)) k.
Proof. unfold lsum. by rewrite <- list_fmap_compose. Qed.
Lemma lsum_elem f l x : (∀ y, y ∈ l → 0 ≤ f y) → x ∈ l → f x ≤ lsum f l.
Proof.
  intros Hf (l1 & l2 & ->)%list_elem_of_split. rewrite lsum_app, lsum_cons.
  enough (0 ≤ lsum f l1 ∧ 0 ≤ lsum f l2) by lia.
  split; apply lsum_nonneg; set_solver.
Qed.
Lemma lsum_elem_2 f l x y :
  (∀ z, z ∈ l → 0 ≤ f z) → x ∈ l → y ∈ l → x ≠ y → f x + f y ≤ lsum f l.
Proof.
  intros Hf (l1 & l2 & ->)%list_elem_of_split Hy Hne. rewrite lsum_app, lsum_cons.
  assert (y ∈ l1 ++ l2) as Hy' by set_solver.
  apply (lsum_elem f) in Hy'; [|set_solver]. rewrite lsum_app in Hy'. lia.
Qed.

Context `{EqDecision A}.
Lemma occ_nil (a : A) : occ a [] = 0.
Proof. done. Qed.
Lemma occ_cons (a x : A) l : occ a (x :: l) = (if decide (a = x) then 1 else 0) + occ a l.
Proof. done. Qed.
Lemma occ_app (a : A) l k : occ a (l ++ k) = occ a l + occ a k.
Proof. apply lsum_app. Qed.
Lemma occ_nonneg (a : A) l : 0 ≤ occ a l.
Proof. apply lsum_nonneg. intros; case_decide; lia. Qed.
Lemma occ_not_in (a : A) l : a ∉ l → occ a l = 0.
Proof.
  intros Ha. unfold occ. etrans; [|apply (lsum_zero l)]. apply lsum_ext. intros x Hx.
  rewrite decide_False; [done|by intros ->].
Qed.
Lemma occ_in (a : A) l : a ∈ l → 1 ≤ occ a l.
Proof.
  intros Ha. etrans; [|apply (lsum_elem _ _ a); [|done]]; simpl; [by rewrite decide_True|].
  intros; case_decide; lia.
Qed.
Lemma occ_NoDup (a : A) l : NoDup l → occ a l = if decide (a ∈ l) then 1 else 0.
Proof.
  induction 1 as [|x l Hx Hl IH]; [done|]. unfold occ. rewrite lsum_cons. fold (occ a l).
  rewrite IH. repeat case_decide; first [lia|set_solver].
Qed.
Lemma NoDup_occ l : (∀ a : A, occ a l ≤ 1) → NoDup l.
Proof.
  induction l as [|x l IH]; intros Hl; constructor.
  - intros Hx%occ_in. specialize (Hl x). unfold occ in *. rewrite lsum_cons in Hl.
    rewrite decide_True in Hl by done. lia.
  - apply IH. intros a. specialize (Hl a). unfold occ in *. rewrite lsum_cons in Hl.
    case_decide; lia.
Qed.
(** Reading [lsum f l] off at the occurrences of one element that changes. *)
Lemma lsum_update f (a : A) v l :
  lsum (λ x, if decide (a = x) then v else f x) l = lsum f l + (v - f a) * occ a l.
Proof.
  unfold occ. rewrite <- lsum_scale, <- lsum_add. apply lsum_ext.
  intros x _. case_decide; subst; lia.
Qed.
End lsum.

Section map_sum.
Context `{Countable K} {A : Type} (w : A → Z).

Definition map_sum (m : gmap K A) : Z := map_fold (λ _ x acc, w x + acc) 0 m.

Lemma map_sum_empty : map_sum ∅ = 0.
Proof. apply map_fold_empty. Qed.

Lemma map_sum_insert m i x :
  m !! i = None → map_sum (<[i:=x]> m) = w x + map_sum m.
Proof.
  intros Hi. unfold map_sum. rewrite map_fold_insert_L; [done| |done].
  intros; lia.
Qed.

Lemma map_sum_delete m i x :
  m !! i = Some x → map_sum m = w x + map_sum (delete i m).
Proof.
  intros Hi. rewrite <- (insert_delete_id m i x) at 1 by done.
  apply map_sum_insert, lookup_delete_eq.
Qed.

Lemma map_sum_nonneg m : (∀ i x, m !! i = Some x → 0 ≤ w x) → 0 ≤ map_sum m.
Proof.
  induction m as [|i x m Hi IH] using map_ind; intros Hw; [by rewrite map_sum_empty|].
  rewrite map_sum_insert by done.
  specialize (Hw i x) as Hx. rewrite lookup_insert_eq in Hx. specialize (Hx eq_refl).
  enough (0 ≤ map_sum m) by lia. apply IH. intros j y Hj. apply (Hw j).
  rewrite lookup_insert_ne; congruence.
Qed.

Lemma map_sum_mono m' m :
  (∀ i x, m !! i = Some x → 0 ≤ w x) → (∀ i x, m' !! i = Some x → m !! i = Some x) →
  map_sum m' ≤ map_sum m.
Proof.
  revert m. induction m' as [|i x m' Hi IH] using map_ind; intros m Hw Hsub.
  { rewrite map_sum_empty. by apply map_sum_nonneg. }
  assert (m !! i = Some x) as Hm by (apply Hsub, lookup_insert_eq).
  rewrite map_sum_insert, (map_sum_delete m i x) by done.
  enough (map_sum m' ≤ map_sum (delete i m)) by lia. apply IH.
  - intros j y [_ Hj]%lookup_delete_Some. eauto.
  - intros j y Hj. assert (i ≠ j) by congruence.
    rewrite lookup_delete_ne by done. apply Hsub. by rewrite lookup_insert_ne.
Qed.

(** Summing over distinct keys stays below the sum over the map. *)
Lemma lsum_le_map_sum m (l : list K) :
  (∀ i x, m !! i = Some x → 0 ≤ w x) → NoDup l →
  lsum (λ i, from_option w 0 (m !! i)) l ≤ map_sum m.
Proof.
  intros Hw Hl. revert m Hw. induction Hl as [|i l Hi Hl IH]; intros m Hw.
  { rewrite lsum_nil. by apply map_sum_nonneg. }
  rewrite lsum_cons. destruct (m !! i) as [x|] eqn:Hx; simpl; [|by apply IH].
  rewrite (map_sum_delete m i x Hx).
  rewrite (lsum_ext _ (λ j, from_option w 0 (delete i m !! j))).
  - enough (lsum (λ j, from_option w 0 (delete i m !! j)) l ≤ map_sum (delete i m)) by lia.
    apply IH. intros j y [_ Hj]%lookup_delete_Some. eauto.
  - intros j Hj. rewrite lookup_delete_ne; [done|]. by intros ->.
Qed.
End map_sum.

(** ** Loops that delete keys *)

Lemma lookup_foldl_delete `{Countable K} {A} (l : list K) (m : gmap K A) i :
  foldl (λ m k, delete k m) m l !! i = if decide (i ∈ l) then None else m !! i.
Proof.
  revert m. induction l as [|k l IH]; intros m; cbn [foldl].
  { rewrite decide_False; [done|apply not_elem_of_nil]. }
  rewrite IH, lookup_delete. repeat case_decide; set_solver.
Qed.

(** ** Iteration orders *)

(** The iteration order of a [HashSet]. *)
Class HashOrder (K : Type) `{Countable K} := {
  hs_iter : gset K → list K;
  hs_iter_perm X : hs_iter X ≡ₚ elements X;
}.

#[global, refine] Instance elements_order (K : Type) `{Countable K} : HashOrder K := {
  hs_iter X := elements X;
}.
Proof. done. Defined.

Lemma hs_iter_NoDup `{HashOrder K} (X : gset K) : NoDup (hs_iter X).
Proof. rewrite hs_iter_perm. apply NoDup_elements. Qed.
Lemma hs_iter_in `{HashOrder K} (X : gset K) x : x ∈ hs_iter X ↔ x ∈ X.
Proof. by rewrite hs_iter_perm, elem_of_elements. Qed.
