(* ===== verification/GasPriceV1.v ===== *)
(** * The V1 gas price algorithm

    Model of [crates/fuel-gas-price-algorithm/src/v1.rs]: the L2 activity
    tracker, the updater's state [AlgorithmUpdaterV1], its two entry points
    [update_l2_block_data] and [update_da_record_data], and the
    [UnrecordedBlocks] trait they call.  Methods that take [&mut self] are state
    transformers; the two fallible entry points return the mutated state next to
    the result. *)

From stdpp Require Import prelude gmap list strings.
From Stdlib Require Import ZArith Lia.
From S2P Require Import Prelude.
Local Open Scope Z_scope.

Inductive Error : Type :=
| SkippedL2Block (expected got : Z)
| CouldNotCalculateCostPerByte (bytes cost : Z)
| FailedToIncludeL2BlockData (msg : string)
| L2BlockExpectedNotFound (height : Z)
| CouldNotInsertUnrecordedBlock (msg : string)
| CouldNotRemoveUnrecordedBlock (msg : string).

(** ** Percentages *)

Record ClampedPercentage := { value : Z }.

Definition ClampedPercentage_new (maybe_value : Z) : ClampedPercentage :=
  {| value := Z.min maybe_value 100 |}.

(** ** The activity tracker *)

Record L2ActivityTracker := {
  max_activity : Z;
  capped_activity_threshold : Z;
  decrease_activity_threshold : Z;
  chain_activity : Z;
  block_activity_threshold : ClampedPercentage;
}.

Inductive DAGasPriceSafetyMode := Normal | Capped | AlwaysDecrease.

Definition set_chain_activity (a : Z) (t : L2ActivityTracker) : L2ActivityTracker :=
  {| max_activity := max_activity t;
     capped_activity_threshold := capped_activity_threshold t;
     decrease_activity_threshold := decrease_activity_threshold t;
     chain_activity := a;
     block_activity_threshold := block_activity_threshold t |}.

Definition tracker_new_full (normal_range_size capped_range_size decrease_range_size : Z)
    (threshold : ClampedPercentage) : L2ActivityTracker :=
  let decrease := decrease_range_size in
  let capped := sat_add U16 decrease_range_size capped_range_size in
  let max := sat_add U16 capped normal_range_size in
  {| max_activity := max;
     capped_activity_threshold := capped;
     decrease_activity_threshold := decrease;
     chain_activity := max;
     block_activity_threshold := threshold |}.

Definition tracker_new (normal_range_size capped_range_size decrease_range_size activity : Z)
    (threshold : ClampedPercentage) : L2ActivityTracker :=
  let tracker :=
    tracker_new_full normal_range_size capped_range_size decrease_range_size threshold in
  set_chain_activity (Z.min activity (max_activity tracker)) tracker.

Definition tracker_new_always_normal : L2ActivityTracker :=
  tracker_new 100 0 0 100 (ClampedPercentage_new 0).

Definition safety_mode (t : L2ActivityTracker) : DAGasPriceSafetyMode :=
  if decide (capped_activity_threshold t ≤ chain_activity t) then Normal
  else if decide (decrease_activity_threshold t ≤ chain_activity t) then Capped
  else AlwaysDecrease.

Definition tracker_update (block_usage : ClampedPercentage) (t : L2ActivityTracker) :
    L2ActivityTracker :=
  if decide (value block_usage < value (block_activity_threshold t)) then
    set_chain_activity (sat_sub (chain_activity t) 1) t
  else
    set_chain_activity (Z.min (sat_add U16 (chain_activity t) 1) (max_activity t)) t.

(** ** Unrecorded blocks *)

(** The trait [UnrecordedBlocks]; both methods take [&mut self].  A [Bytes] is
    an [N], so that every implementation returns an unsigned number. *)
Class UnrecordedBlocks (U : Type) := {
  ub_insert : Z → N → U → U * result unit string;
  ub_remove : Z → U → U * result (option N) string;
}.

(** What an implementation of the trait promises: a finite map from heights to
    bytes; a call that fails leaves no promise about the contents. *)
Class UnrecordedBlocksSpec (U : Type) `{!UnrecordedBlocks U} := {
  ub_view : U → gmap Z N;
  ub_insert_view h b u u' : ub_insert h b u = (u', Ok ()) → ub_view u' = <[h:=b]> (ub_view u);
  ub_remove_view h u u' o :
    ub_remove h u = (u', Ok o) → o = ub_view u !! h ∧ ub_view u' = delete h (ub_view u);
}.

(** [impl UnrecordedBlocks for BTreeMap<Height, Bytes>]. *)
#[global] Instance BTreeMap_unrecorded : UnrecordedBlocks (gmap Z N) := {
  ub_insert h b m := (<[h:=b]> m, Ok ());
  ub_remove h m := (delete h m, Ok (m !! h));
}.

#[global, refine] Instance BTreeMap_unrecorded_spec : UnrecordedBlocksSpec (gmap Z N) := {
  ub_view m := m;
}.
Proof. all: intros; simpl in *; by simplify_eq. Defined.

(** ** The updater *)

Record AlgorithmUpdaterV1 := mk_updater {
  new_scaled_exec_price : Z;
  min_exec_gas_price : Z;
  exec_gas_price_change_percent : Z;
  l2_block_height : Z;
  l2_block_fullness_threshold_percent : ClampedPercentage;
  new_scaled_da_gas_price : Z;
  gas_price_factor : Z;
  min_da_gas_price : Z;
  max_da_gas_price : Z;
  max_da_gas_price_change_percent : Z;
  total_da_rewards : Z;
  latest_known_total_da_cost : Z;
  projected_total_da_cost : Z;
  da_p_component : Z;
  da_d_component : Z;
  last_profit : Z;
  second_to_last_profit : Z;
  latest_da_cost_per_byte : Z;
  l2_activity : L2ActivityTracker;
  unrecorded_blocks_bytes : Z;
}.

(** Field updates: [self.f = v]. *)
Definition set_exec_price (v : Z) (u : AlgorithmUpdaterV1) : AlgorithmUpdaterV1 :=
  let 'mk_updater _ b c d e f g h i j k l m n o p q r s t := u in
  mk_updater v b c d e f g h i j k l m n o p q r s t.
Definition set_l2_block_height (v : Z) (u : AlgorithmUpdaterV1) : AlgorithmUpdaterV1 :=
  let 'mk_updater a b c _ e f g h i j k l m n o p q r s t := u in
  mk_updater a b c v e f g h i j k l m n o p q r s t.
Definition set_da_gas_price (v : Z) (u : AlgorithmUpdaterV1) : AlgorithmUpdaterV1 :=
  let 'mk_updater a b c d e _ g h i j k l m n o p q r s t := u in
  mk_updater a b c d e v g h i j k l m n o p q r s t.
Definition set_total_da_rewards (v : Z) (u : AlgorithmUpdaterV1) : AlgorithmUpdaterV1 :=
  let 'mk_updater a b c d e f g h i j _ l m n o p q r s t := u in
  mk_updater a b c d e f g h i j v l m n o p q r s t.
Definition set_latest_known_total_da_cost (v : Z) (u : AlgorithmUpdaterV1) : AlgorithmUpdaterV1 :=
  let 'mk_updater a b c d e f g h i j k _ m n o p q r s t := u in
  mk_updater a b c d e f g h i j k v m n o p q r s t.
Definition set_projected_total_da_cost (v : Z) (u : AlgorithmUpdaterV1) : AlgorithmUpdaterV1 :=
  let 'mk_updater a b c d e f g h i j k l _ n o p q r s t := u in
  mk_updater a b c d e f g h i j k l v n o p q r s t.
Definition set_profits (last second : Z) (u : AlgorithmUpdaterV1) : AlgorithmUpdaterV1 :=
  let 'mk_updater a b c d e f g h i j k l m n o _ _ r s t := u in
  mk_updater a b c d e f g h i j k l m n o last second r s t.
Definition set_latest_da_cost_per_byte (v : Z) (u : AlgorithmUpdaterV1) : AlgorithmUpdaterV1 :=
  let 'mk_updater a b c d e f g h i j k l m n o p q _ s t := u in
  mk_updater a b c d e f g h i j k l m n o p q v s t.
Definition set_l2_activity (v : L2ActivityTracker) (u : AlgorithmUpdaterV1) : AlgorithmUpdaterV1 :=
  let 'mk_updater a b c d e f g h i j k l m n o p q r _ t := u in
  mk_updater a b c d e f g h i j k l m n o p q r v t.
Definition set_unrecorded_blocks_bytes (v : Z) (u : AlgorithmUpdaterV1) : AlgorithmUpdaterV1 :=
  let 'mk_updater a b c d e f g h i j k l m n o p q r s _ := u in
  mk_updater a b c d e f g h i j k l m n o p q r s v.

Definition descaled_exec_price (u : AlgorithmUpdaterV1) : Z :=
  new_scaled_exec_price u / gas_price_factor u.
Definition descaled_da_price (u : AlgorithmUpdaterV1) : Z :=
  new_scaled_da_gas_price u / gas_price_factor u.

Definition min_scaled_exec_gas_price (u : AlgorithmUpdaterV1) : Z :=
  sat_mul U64 (min_exec_gas_price u) (gas_price_factor u).
Definition min_scaled_da_gas_price (u : AlgorithmUpdaterV1) : Z :=
  sat_mul U64 (min_da_gas_price u) (gas_price_factor u).
Definition max_scaled_da_gas_price (u : AlgorithmUpdaterV1) : Z :=
  sat_mul U64 (Z.max (max_da_gas_price u) (min_da_gas_price u)) (gas_price_factor u).

Definition da_portion_of_fee (u : AlgorithmUpdaterV1) (fee_wei : Z) : Z :=
  let numerator := sat_mul U128 fee_wei (descaled_da_price u) in
  let denominator := sat_add U128 (descaled_exec_price u) (descaled_da_price u) in
  if decide (denominator = 0) then 0 else div_ceil numerator denominator.

Definition update_da_rewards (fee_wei : Z) (u : AlgorithmUpdaterV1) : AlgorithmUpdaterV1 :=
  let block_da_reward := da_portion_of_fee u fee_wei in
  set_total_da_rewards (sat_add U128 (total_da_rewards u) block_da_reward) u.

Definition update_projected_da_cost (block_bytes : Z) (u : AlgorithmUpdaterV1) :
    AlgorithmUpdaterV1 :=
  let block_projected_da_cost := sat_mul U128 block_bytes (latest_da_cost_per_byte u) in
  set_projected_total_da_cost
    (sat_add U128 (projected_total_da_cost u) block_projected_da_cost) u.

(** [i128::try_from(x).unwrap_or(i128::MAX)] on an unsigned [x]. *)
Definition u128_to_i128_clamped (x : Z) : Z := unwrap_or (try_uint I128_MAX x) I128_MAX.

Definition clamped_projected_cost_as_i128 (u : AlgorithmUpdaterV1) : Z :=
  u128_to_i128_clamped (projected_total_da_cost u).
Definition clamped_rewards_as_i128 (u : AlgorithmUpdaterV1) : Z :=
  u128_to_i128_clamped (total_da_rewards u).

Definition update_last_profit (new_profit : Z) (u : AlgorithmUpdaterV1) : AlgorithmUpdaterV1 :=
  set_profits new_profit (last_profit u) u.

Definition update_activity (used capacity : Z) (u : AlgorithmUpdaterV1) : AlgorithmUpdaterV1 :=
  let block_activity := sat_mul U64 used 100 / capacity in
  let usage := ClampedPercentage_new (unwrap_or (try_uint U8 block_activity) 100) in
  set_l2_activity (tracker_update usage (l2_activity u)) u.

Definition exec_change (u : AlgorithmUpdaterV1) (principle : Z) : Z :=
  sat_mul U64 principle (exec_gas_price_change_percent u) / 100.

Definition update_exec_gas_price (used capacity : Z) (u : AlgorithmUpdaterV1) :
    AlgorithmUpdaterV1 :=
  let threshold := value (l2_block_fullness_threshold_percent u) in
  let scaled_exec_gas_price := new_scaled_exec_price u in
  let fullness_percent :=
    unwrap_or (checked_udiv (sat_mul U64 used 100) capacity) threshold in
  let change_amount := exec_change u scaled_exec_gas_price in
  let scaled_exec_gas_price :=
    match fullness_percent ?= threshold with
    | Gt | Eq => sat_add U64 scaled_exec_gas_price change_amount
    | Lt => sat_sub scaled_exec_gas_price change_amount
    end in
  set_exec_price (Z.max (min_scaled_exec_gas_price u) scaled_exec_gas_price) u.

Definition p (u : AlgorithmUpdaterV1) : Z :=
  let checked_p := i128_checked_div (last_profit u) (da_p_component u) in
  i128_sat_mul (unwrap_or checked_p 0) (-1).

Definition d (u : AlgorithmUpdaterV1) : Z :=
  let slope := i128_sat_sub (last_profit u) (second_to_last_profit u) in
  let checked_d := i128_checked_div slope (da_d_component u) in
  i128_sat_mul (unwrap_or checked_d 0) (-1).

Definition max_change (u : AlgorithmUpdaterV1) : Z :=
  sat_mul U64 (new_scaled_da_gas_price u) (max_da_gas_price_change_percent u) / 100.

Definition da_change (u : AlgorithmUpdaterV1) (p d : Z) : Z :=
  let scaled_pd_change := i128_sat_mul (i128_sat_add p d) (gas_price_factor u) in
  let clamped_change := Z.min (i128_sat_abs scaled_pd_change) (max_change u) in
  i128_sat_mul (Z.sgn scaled_pd_change) clamped_change.

Definition da_change_accounting_for_activity (u : AlgorithmUpdaterV1) (maybe_da_change : Z) : Z :=
  if decide (0 < maybe_da_change) then
    match safety_mode (l2_activity u) with
    | Normal => maybe_da_change
    | Capped => 0
    | AlwaysDecrease => i128_sat_mul (max_change u) (-1)
    end
  else maybe_da_change.

Definition update_da_gas_price (u : AlgorithmUpdaterV1) : AlgorithmUpdaterV1 :=
  let scaled_da_change := da_change_accounting_for_activity u (da_change u (p u) (d u)) in
  let maybe_new_scaled_da_gas_price :=
    unwrap_or
      (i128_checked_add (new_scaled_da_gas_price u) scaled_da_change ≫= try_uint U64)
      (if decide (0 < scaled_da_change) then U64 else 0) in
  set_da_gas_price
    (Z.min (Z.max (min_scaled_da_gas_price u) maybe_new_scaled_da_gas_price)
           (max_scaled_da_gas_price u)) u.

Definition recalculate_projected_cost (u : AlgorithmUpdaterV1) : AlgorithmUpdaterV1 :=
  let projection_portion :=
    sat_mul U128 (unrecorded_blocks_bytes u) (latest_da_cost_per_byte u) in
  set_projected_total_da_cost
    (sat_add U128 (latest_known_total_da_cost u) projection_portion) u.

Section updates.
Context {U : Type} `{!UnrecordedBlocks U}.

(** The loop of [update_unrecorded_block_bytes]: removes each height, adding up
    the bytes found, and stops at the first failing removal. *)
Fixpoint remove_heights (heights : list Z) (total : Z) (ub : U) : U * result Z Error :=
  match heights with
  | [] => (ub, Ok total)
  | expected_height :: heights =>
      match ub_remove expected_height ub with
      | (ub, Err e) => (ub, Err (CouldNotRemoveUnrecordedBlock e))
      | (ub, Ok (Some bytes)) => remove_heights heights (sat_add U128 total (Z.of_N bytes)) ub
      | (ub, Ok None) => remove_heights heights total ub
      end
  end.

(** The heights of a [RangeInclusive<u32>]. *)
Definition range_heights (heights : Z * Z) : list Z :=
  seqZ heights.1 (heights.2 - heights.1 + 1).

Definition update_unrecorded_block_bytes (heights : Z * Z) (u : AlgorithmUpdaterV1) (ub : U) :
    AlgorithmUpdaterV1 * U * result unit Error :=
  match remove_heights (range_heights heights) 0 ub with
  | (ub, Err e) => (u, ub, Err e)
  | (ub, Ok total) =>
      (set_unrecorded_blocks_bytes (sat_sub (unrecorded_blocks_bytes u) total) u, ub, Ok ())
  end.

Definition da_block_update (heights : Z * Z) (recorded_bytes recording_cost : Z)
    (u : AlgorithmUpdaterV1) (ub : U) : AlgorithmUpdaterV1 * U * result unit Error :=
  match update_unrecorded_block_bytes heights u ub with
  | (u, ub, Err e) => (u, ub, Err e)
  | (u, ub, Ok _) =>
      let new_da_block_cost := sat_add U128 (latest_known_total_da_cost u) recording_cost in
      let u := set_latest_known_total_da_cost new_da_block_cost u in
      match checked_udiv recording_cost recorded_bytes with
      | None => (u, ub, Err (CouldNotCalculateCostPerByte recorded_bytes recording_cost))
      | Some compressed_cost_per_bytes =>
          (set_latest_da_cost_per_byte compressed_cost_per_bytes u, ub, Ok ())
      end
  end.

Definition update_da_record_data (heights : Z * Z) (recorded_bytes recording_cost : Z)
    (u : AlgorithmUpdaterV1) (ub : U) : AlgorithmUpdaterV1 * U * result unit Error :=
  if decide (heights.1 ≤ heights.2) then
    match da_block_update heights recorded_bytes recording_cost u ub with
    | (u, ub, Err e) => (u, ub, Err e)
    | (u, ub, Ok _) => (update_da_gas_price (recalculate_projected_cost u), ub, Ok ())
    end
  else (u, ub, Ok ()).

(** The updates of [update_l2_block_data] on [self] before the insertion. *)
Definition l2_block_state (height used capacity : Z) (block_bytes : N) (fee_wei : Z)
    (u : AlgorithmUpdaterV1) : AlgorithmUpdaterV1 :=
  let u := set_l2_block_height height u in
  let u := update_da_rewards fee_wei u in
  let rewards := clamped_rewards_as_i128 u in
  let u := update_projected_da_cost (Z.of_N block_bytes) u in
  let projected_total_da_cost := clamped_projected_cost_as_i128 u in
  let last_profit := i128_sat_sub rewards projected_total_da_cost in
  let u := update_last_profit last_profit u in
  let u := update_activity used capacity u in
  let u := update_exec_gas_price used capacity u in
  update_da_gas_price u.

Definition update_l2_block_data (height used capacity : Z) (block_bytes : N) (fee_wei : Z)
    (u : AlgorithmUpdaterV1) (ub : U) : AlgorithmUpdaterV1 * U * result unit Error :=
  let expected := sat_add U32 (l2_block_height u) 1 in
  if decide (height ≠ expected) then (u, ub, Err (SkippedL2Block expected height))
  else
    let u := l2_block_state height used capacity block_bytes fee_wei u in
    match ub_insert height block_bytes ub with
    | (ub, Err e) => (u, ub, Err (CouldNotInsertUnrecordedBlock e))
    | (ub, Ok _) =>
        (set_unrecorded_blocks_bytes
           (sat_add U128 (unrecorded_blocks_bytes u) (Z.of_N block_bytes)) u, ub, Ok ())
    end.
End updates.

(** ** The published algorithm *)

Record AlgorithmV1 := {
  new_exec_price : Z;
  exec_price_percentage : Z;
  new_da_gas_price : Z;
  da_gas_price_percentage : Z;
  for_height : Z;
}.

Definition algorithm (u : AlgorithmUpdaterV1) : AlgorithmV1 :=
  {| new_exec_price := descaled_exec_price u;
     exec_price_percentage := exec_gas_price_change_percent u;
     new_da_gas_price := descaled_da_price u;
     da_gas_price_percentage := max_da_gas_price_change_percent u;
     for_height := l2_block_height u |}.

Definition calculate (a : AlgorithmV1) : Z :=
  sat_add U64 (new_exec_price a) (new_da_gas_price a).

(** ** Sequences of updates *)

(** The two calls the gas price service makes, in the order they happen. *)
Inductive Event :=
| L2Block (height used capacity : Z) (block_bytes : N) (fee_wei : Z)
| DaRecord (heights : Z * Z) (recorded_bytes recording_cost : Z).

Section runs.
Context {U : Type} `{!UnrecordedBlocks U}.

Definition apply_event (ev : Event) (s : AlgorithmUpdaterV1 * U) :
    AlgorithmUpdaterV1 * U * result unit Error :=
  match ev with
  | L2Block height used capacity block_bytes fee_wei =>
      update_l2_block_data height used capacity block_bytes fee_wei s.1 s.2
  | DaRecord heights recorded_bytes recording_cost =>
      update_da_record_data heights recorded_bytes recording_cost s.1 s.2
  end.

(** Errors are reported to the caller and the state is kept as mutated. *)
Definition run (evs : list Event) (s : AlgorithmUpdaterV1 * U) : AlgorithmUpdaterV1 * U :=
  foldl (λ s ev, (apply_event ev s).1) s evs.
End runs.

(** ** Well-formed states: every field at its machine width *)

Definition I64_MIN : Z := -9223372036854775808.
Definition I64_MAX : Z := 9223372036854775807.

Definition percentage_wf (c : ClampedPercentage) : Prop := 0 ≤ value c ≤ 100.

Record tracker_wf (t : L2ActivityTracker) : Prop := {
  tw_decrease : 0 ≤ decrease_activity_threshold t;
  tw_capped : decrease_activity_threshold t ≤ capped_activity_threshold t;
  tw_max : capped_activity_threshold t ≤ max_activity t ≤ U16;
  tw_chain : 0 ≤ chain_activity t ≤ max_activity t;
  tw_threshold : percentage_wf (block_activity_threshold t);
}.

Record updater_wf (u : AlgorithmUpdaterV1) : Prop := {
  uw_exec : in_uint U64 (new_scaled_exec_price u);
  uw_min_exec : in_uint U64 (min_exec_gas_price u);
  uw_exec_percent : in_uint U16 (exec_gas_price_change_percent u);
  uw_height : in_uint U32 (l2_block_height u);
  uw_fullness : percentage_wf (l2_block_fullness_threshold_percent u);
  uw_da : in_uint U64 (new_scaled_da_gas_price u);
  uw_factor : 1 ≤ gas_price_factor u ≤ U64;
  uw_min_da : in_uint U64 (min_da_gas_price u);
  uw_max_da : in_uint U64 (max_da_gas_price u);
  uw_da_percent : in_uint U16 (max_da_gas_price_change_percent u);
  uw_rewards : in_uint U128 (total_da_rewards u);
  uw_known_cost : in_uint U128 (latest_known_total_da_cost u);
  uw_projected : in_uint U128 (projected_total_da_cost u);
  uw_p : I64_MIN ≤ da_p_component u ≤ I64_MAX;
  uw_d : I64_MIN ≤ da_d_component u ≤ I64_MAX;
  uw_profit : in_i128 (last_profit u);
  uw_profit2 : in_i128 (second_to_last_profit u);
  uw_per_byte : in_uint U128 (latest_da_cost_per_byte u);
  uw_activity : tracker_wf (l2_activity u);
  uw_unrecorded : in_uint U128 (unrecorded_blocks_bytes u);
}.

(** The band the configuration prescribes for the two prices. *)
Definition in_band (u : AlgorithmUpdaterV1) : Prop :=
  min_scaled_exec_gas_price u ≤ new_scaled_exec_price u ∧
  min_scaled_da_gas_price u ≤ new_scaled_da_gas_price u ≤ max_scaled_da_gas_price u.

(** Arguments at the width of their types; [capacity] is a [NonZeroU64]. *)
Definition event_wf (ev : Event) : Prop :=
  match ev with
  | L2Block height used capacity block_bytes fee_wei =>
      in_uint U32 height ∧ in_uint U64 used ∧ 1 ≤ capacity ≤ U64 ∧
      in_uint U64 (Z.of_N block_bytes) ∧ in_uint U128 fee_wei
  | DaRecord heights recorded_bytes recording_cost =>
      in_uint U32 heights.1 ∧ in_uint U32 heights.2 ∧
      in_uint U32 recorded_bytes ∧ in_uint U128 recording_cost
  end.

(** *** Lemmas on the parts *)

Lemma tracker_new_full_wf n c dc th :
  in_uint U16 n → in_uint U16 c → in_uint U16 dc → percentage_wf th →
  tracker_wf (tracker_new_full n c dc th).
Proof. intros. constructor; simpl; unfold percentage_wf in *; int_lia. Qed.

Lemma tracker_update_wf usage t :
  tracker_wf t → tracker_wf (tracker_update usage t).
Proof.
  intros []. unfold tracker_update. case_decide; constructor; simpl; auto; int_lia.
Qed.

Lemma descaled_range u :
  updater_wf u → in_uint U64 (descaled_exec_price u) ∧ in_uint U64 (descaled_da_price u).
Proof. intros []. split; apply div_range; int_lia. Qed.

Lemma div_ceil_range m x y : in_uint m x → 0 < y → in_uint m (div_ceil x y).
Proof.
  unfold div_ceil. intros [? ?] ?. split; [apply Z.div_pos; lia|].
  enough ((x + y - 1) / y < m + 1) by lia. apply Z.div_lt_upper_bound; nia.
Qed.

Lemma da_portion_range u fee :
  updater_wf u → in_uint U128 fee → in_uint U128 (da_portion_of_fee u fee).
Proof.
  intros Hu [? ?]. destruct (descaled_range u Hu) as [[? ?] [? ?]].
  unfold da_portion_of_fee. case_decide; [int_lia|].
  apply div_ceil_range; [apply sat_mul_range; int_lia|]. int_lia.
Qed.

Lemma max_change_range u : updater_wf u → in_uint U64 (max_change u).
Proof. intros []. apply div_range; [int_lia|apply sat_mul_range; int_lia|lia]. Qed.

Lemma exec_change_range u :
  updater_wf u → in_uint U64 (exec_change u (new_scaled_exec_price u)).
Proof. intros []. apply div_range; [int_lia|apply sat_mul_range; int_lia|lia]. Qed.

(** The signed change never exceeds the allowed percentage in either direction. *)
Lemma da_change_bound u x y :
  updater_wf u → - max_change u ≤ da_change u x y ≤ max_change u.
Proof.
  intros Hu. destruct (max_change_range u Hu). unfold da_change.
  set (s := i128_sat_mul (i128_sat_add x y) _).
  assert (in_i128 s) by apply i128_clamp_range.
  destruct (Z.sgn_spec s) as [[? ->]|[[? ->]|[? ->]]]; int_lia.
Qed.

(** With saturation opened, the change is the proportional-derivative term cut
    at [max_change], with the term's sign. *)
Lemma da_change_sign u x y :
  updater_wf u →
  let s := i128_sat_mul (i128_sat_add x y) (gas_price_factor u) in
  (0 < da_change u x y ↔ 0 < s ∧ 0 < max_change u).
Proof.
  intros Hu. destruct (max_change_range u Hu). unfold da_change.
  set (s := i128_sat_mul (i128_sat_add x y) _). cbv zeta.
  assert (in_i128 s) by apply i128_clamp_range.
  destruct (Z.sgn_spec s) as [[? ->]|[[? ->]|[? ->]]]; int_lia.
Qed.

Lemma da_change_activity_bound u x y :
  updater_wf u →
  - max_change u ≤ da_change_accounting_for_activity u (da_change u x y) ≤ max_change u.
Proof.
  intros Hu. destruct (max_change_range u Hu). pose proof (da_change_bound u x y Hu).
  unfold da_change_accounting_for_activity.
  case_decide; [destruct (safety_mode _)|]; int_lia.
Qed.

Lemma scaled_band u : updater_wf u →
  in_uint U64 (min_scaled_exec_gas_price u) ∧ in_uint U64 (min_scaled_da_gas_price u) ∧
  in_uint U64 (max_scaled_da_gas_price u) ∧
  min_scaled_da_gas_price u ≤ max_scaled_da_gas_price u.
Proof.
  intros []. unfold min_scaled_exec_gas_price, min_scaled_da_gas_price, max_scaled_da_gas_price.
  repeat split; try (apply sat_mul_range; int_lia).
  unfold sat_mul. apply Z.min_le_compat_l. int_nia.
Qed.

(** The new DA price: the old one plus the change, clamped to the band. *)
Lemma update_da_gas_price_eq u :
  updater_wf u →
  new_scaled_da_gas_price (update_da_gas_price u) =
  Z.min (Z.max (min_scaled_da_gas_price u)
           (new_scaled_da_gas_price u +
              da_change_accounting_for_activity u (da_change u (p u) (d u))))
        (max_scaled_da_gas_price u).
Proof.
  intros Hu. destruct (scaled_band u Hu) as (_ & [??] & [??] & ?).
  destruct (uw_da u Hu). destruct (max_change_range u Hu).
  pose proof (da_change_activity_bound u (p u) (d u) Hu).
  unfold update_da_gas_price.
  set (c := da_change_accounting_for_activity _ _) in *.
  assert (∀ v, new_scaled_da_gas_price (set_da_gas_price v u) = v) as -> by by destruct u.
  unfold i128_checked_add. rewrite decide_True by int_lia. simpl.
  unfold try_uint. case_decide; simpl; [done|]. case_decide; int_lia.
Qed.

(** *** Each assignment keeps the state well formed *)

Ltac solve_set_wf u := intros [] ?; destruct u; constructor; simpl in *; auto.

Section set_wf.
Context (u : AlgorithmUpdaterV1).

Lemma set_exec_price_wf v : updater_wf u → in_uint U64 v → updater_wf (set_exec_price v u).
Proof. solve_set_wf u. Qed.
Lemma set_l2_block_height_wf v :
  updater_wf u → in_uint U32 v → updater_wf (set_l2_block_height v u).
Proof. solve_set_wf u. Qed.
Lemma set_da_gas_price_wf v : updater_wf u → in_uint U64 v → updater_wf (set_da_gas_price v u).
Proof. solve_set_wf u. Qed.
Lemma set_total_da_rewards_wf v :
  updater_wf u → in_uint U128 v → updater_wf (set_total_da_rewards v u).
Proof. solve_set_wf u. Qed.
Lemma set_latest_known_total_da_cost_wf v :
  updater_wf u → in_uint U128 v → updater_wf (set_latest_known_total_da_cost v u).
Proof. solve_set_wf u. Qed.
Lemma set_projected_total_da_cost_wf v :
  updater_wf u → in_uint U128 v → updater_wf (set_projected_total_da_cost v u).
Proof. solve_set_wf u. Qed.
Lemma set_profits_wf v w :
  updater_wf u → in_i128 v ∧ in_i128 w → updater_wf (set_profits v w u).
Proof. intros [] []; destruct u; constructor; simpl in *; auto. Qed.
Lemma set_latest_da_cost_per_byte_wf v :
  updater_wf u → in_uint U128 v → updater_wf (set_latest_da_cost_per_byte v u).
Proof. solve_set_wf u. Qed.
Lemma set_l2_activity_wf v :
  updater_wf u → tracker_wf v → updater_wf (set_l2_activity v u).
Proof. solve_set_wf u. Qed.
Lemma set_unrecorded_blocks_bytes_wf v :
  updater_wf u → in_uint U128 v → updater_wf (set_unrecorded_blocks_bytes v u).
Proof. solve_set_wf u. Qed.
End set_wf.

Create HintDb gas.
#[local] Hint Resolve set_exec_price_wf set_l2_block_height_wf set_da_gas_price_wf
  set_total_da_rewards_wf set_latest_known_total_da_cost_wf set_projected_total_da_cost_wf
  set_profits_wf set_latest_da_cost_per_byte_wf set_l2_activity_wf
  set_unrecorded_blocks_bytes_wf tracker_update_wf uw_exec uw_height uw_da uw_rewards
  uw_known_cost uw_projected uw_profit uw_profit2 uw_per_byte uw_activity uw_unrecorded : gas.

Lemma update_da_rewards_wf fee u :
  updater_wf u → in_uint U128 fee → updater_wf (update_da_rewards fee u).
Proof.
  intros Hu Hf. apply set_total_da_rewards_wf; [done|].
  apply sat_add_range; [int_lia|auto with gas|by apply da_portion_range].
Qed.

Lemma update_projected_da_cost_wf bytes u :
  updater_wf u → in_uint U64 bytes → updater_wf (update_projected_da_cost bytes u).
Proof.
  intros Hu []. destruct (uw_per_byte u Hu). apply set_projected_total_da_cost_wf; [done|].
  apply sat_add_range; [int_lia|auto with gas|apply sat_mul_range; int_lia].
Qed.

Lemma update_last_profit_wf v u :
  updater_wf u → in_i128 v → updater_wf (update_last_profit v u).
Proof. unfold update_last_profit. auto with gas. Qed.

Lemma update_activity_wf used capacity u :
  updater_wf u → updater_wf (update_activity used capacity u).
Proof. unfold update_activity. auto with gas. Qed.

Lemma update_exec_gas_price_wf used capacity u :
  updater_wf u → updater_wf (update_exec_gas_price used capacity u).
Proof.
  intros Hu. destruct (uw_exec u Hu), (exec_change_range u Hu).
  destruct (scaled_band u Hu) as ([??] & _).
  apply set_exec_price_wf; [done|]. destruct (_ ?= _); int_lia.
Qed.

Lemma update_da_gas_price_wf u : updater_wf u → updater_wf (update_da_gas_price u).
Proof.
  intros Hu. pose proof (update_da_gas_price_eq u Hu) as Heq.
  destruct (scaled_band u Hu) as (_ & [??] & [??] & ?).
  unfold update_da_gas_price in *. apply set_da_gas_price_wf; [done|].
  destruct u; simpl in *. rewrite Heq. int_lia.
Qed.

Lemma recalculate_projected_cost_wf u :
  updater_wf u → updater_wf (recalculate_projected_cost u).
Proof.
  intros Hu. destruct (uw_per_byte u Hu), (uw_unrecorded u Hu).
  apply set_projected_total_da_cost_wf; [done|].
  apply sat_add_range; [int_lia|auto with gas|apply sat_mul_range; int_lia].
Qed.

Lemma l2_block_state_wf height used capacity bytes fee u :
  updater_wf u → in_uint U32 height → in_uint U64 (Z.of_N bytes) → in_uint U128 fee →
  updater_wf (l2_block_state height used capacity bytes fee u).
Proof.
  intros. unfold l2_block_state.
  apply update_da_gas_price_wf, update_exec_gas_price_wf, update_activity_wf,
    update_last_profit_wf; [|apply i128_clamp_range].
  apply update_projected_da_cost_wf, H1. apply update_da_rewards_wf; auto with gas.
Qed.

(** *** The band *)

(** The parameters of the band and of the change limits. *)
Definition price_config (u : AlgorithmUpdaterV1) :=
  (min_exec_gas_price u, exec_gas_price_change_percent u, gas_price_factor u,
   (min_da_gas_price u, max_da_gas_price u, max_da_gas_price_change_percent u)).

Lemma da_update_in_band u :
  updater_wf u → min_scaled_exec_gas_price u ≤ new_scaled_exec_price u →
  in_band (update_da_gas_price u).
Proof.
  intros Hu He. pose proof (update_da_gas_price_eq u Hu) as Heq.
  destruct (scaled_band u Hu) as (_ & _ & _ & ?).
  split; [by destruct u|]. rewrite Heq.
  assert (min_scaled_da_gas_price (update_da_gas_price u) = min_scaled_da_gas_price u) as ->
    by by destruct u.
  assert (max_scaled_da_gas_price (update_da_gas_price u) = max_scaled_da_gas_price u) as ->
    by by destruct u.
  lia.
Qed.

Lemma exec_update_in_band used capacity u :
  min_scaled_exec_gas_price (update_exec_gas_price used capacity u) ≤
  new_scaled_exec_price (update_exec_gas_price used capacity u).
Proof. destruct u. apply Z.le_max_l. Qed.

(** What [l2_block_state] leaves for the two price updates. *)
Definition before_prices (height used capacity : Z) (block_bytes : N) (fee_wei : Z)
    (u : AlgorithmUpdaterV1) : AlgorithmUpdaterV1 :=
  let u := set_l2_block_height height u in
  let u := update_da_rewards fee_wei u in
  let rewards := clamped_rewards_as_i128 u in
  let u := update_projected_da_cost (Z.of_N block_bytes) u in
  let last_profit := i128_sat_sub rewards (clamped_projected_cost_as_i128 u) in
  update_activity used capacity (update_last_profit last_profit u).

Lemma l2_block_state_split height used capacity bytes fee u :
  l2_block_state height used capacity bytes fee u =
  update_da_gas_price
    (update_exec_gas_price used capacity (before_prices height used capacity bytes fee u)).
Proof. done. Qed.

Lemma before_prices_same height used capacity bytes fee u :
  let u' := before_prices height used capacity bytes fee u in
  price_config u' = price_config u ∧ new_scaled_exec_price u' = new_scaled_exec_price u ∧
  new_scaled_da_gas_price u' = new_scaled_da_gas_price u ∧
  l2_block_fullness_threshold_percent u' = l2_block_fullness_threshold_percent u.
Proof. by destruct u. Qed.

Lemma before_prices_wf height used capacity bytes fee u :
  updater_wf u → in_uint U32 height → in_uint U64 (Z.of_N bytes) → in_uint U128 fee →
  updater_wf (before_prices height used capacity bytes fee u).
Proof.
  intros. unfold before_prices.
  apply update_activity_wf, update_last_profit_wf; [|apply i128_clamp_range].
  apply update_projected_da_cost_wf, H1. apply update_da_rewards_wf; auto with gas.
Qed.

Section entry_points.
Context {U : Type} `{!UnrecordedBlocks U}.
Implicit Types (u : AlgorithmUpdaterV1) (ub : U).

Lemma l2_update_wf height used capacity bytes fee u ub :
  updater_wf u → event_wf (L2Block height used capacity bytes fee) →
  updater_wf (update_l2_block_data height used capacity bytes fee u ub).1.1.
Proof.
  intros Hu (? & ? & ? & [??] & ?). unfold update_l2_block_data. case_decide; [done|].
  assert (updater_wf (l2_block_state height used capacity bytes fee u))
    by by apply l2_block_state_wf.
  destruct (ub_insert _ _ _) as [? []]; simpl; [|done].
  apply set_unrecorded_blocks_bytes_wf; [done|].
  apply sat_add_range; [int_lia|auto with gas|int_lia].
Qed.

Lemma remove_heights_nonneg hs total ub ub' t :
  0 ≤ total → remove_heights hs total ub = (ub', Ok t) → 0 ≤ t.
Proof.
  revert total ub. induction hs as [|h hs IH]; intros total ub Ht; simpl.
  { intros. by simplify_eq. }
  destruct (ub_remove h ub) as [ub1 [[b|]|]]; [|by apply IH|done].
  apply IH. int_lia.
Qed.

(** Only a failing removal stops the loop. *)
Lemma remove_heights_err hs total ub ub' e :
  remove_heights hs total ub = (ub', Err e) → ∃ msg, e = CouldNotRemoveUnrecordedBlock msg.
Proof.
  revert total ub. induction hs as [|h hs IH]; intros total ub; [done|]. simpl.
  destruct (ub_remove h ub) as [? [[]|]]; [by apply IH..|]. intros; simplify_eq; eauto.
Qed.

Lemma da_block_update_wf heights bytes cost u ub :
  updater_wf u → in_uint U128 cost → 0 ≤ bytes →
  updater_wf (da_block_update heights bytes cost u ub).1.1.
Proof.
  intros Hu Hc Hb. unfold da_block_update, update_unrecorded_block_bytes.
  destruct (remove_heights _ _ _) as [ub' [t|]] eqn:Hr; [|done].
  apply remove_heights_nonneg in Hr; [|lia]. simpl.
  set (u1 := set_unrecorded_blocks_bytes _ u).
  assert (updater_wf u1).
  { destruct (uw_unrecorded u Hu).
    apply set_unrecorded_blocks_bytes_wf; [done|]. by apply sat_sub_range; [int_lia..|]. }
  assert (updater_wf (set_latest_known_total_da_cost
            (sat_add U128 (latest_known_total_da_cost u1) cost) u1)).
  { apply set_latest_known_total_da_cost_wf; [done|].
    apply sat_add_range; [int_lia|auto with gas|done]. }
  unfold checked_udiv. case_decide; simpl; [done|].
  apply set_latest_da_cost_per_byte_wf; [done|]. by apply div_range; [int_lia|..].
Qed.

Lemma da_update_wf heights bytes cost u ub :
  updater_wf u → event_wf (DaRecord heights bytes cost) →
  updater_wf (update_da_record_data heights bytes cost u ub).1.1.
Proof.
  intros Hu (_ & _ & [??] & ?). unfold update_da_record_data. case_decide; [|done].
  pose proof (da_block_update_wf heights bytes cost u ub Hu) as Hd.
  destruct (da_block_update _ _ _ _ _) as [[u' ub'] []]; simpl in *; auto.
  by apply update_da_gas_price_wf, recalculate_projected_cost_wf, Hd.
Qed.

Lemma apply_event_wf ev (s : AlgorithmUpdaterV1 * U) :
  updater_wf s.1 → event_wf ev → updater_wf (apply_event ev s).1.1.
Proof. destruct ev; [apply l2_update_wf|apply da_update_wf]. Qed.

Lemma l2_state_band height used capacity bytes fee u :
  updater_wf u → event_wf (L2Block height used capacity bytes fee) →
  in_band (l2_block_state height used capacity bytes fee u).
Proof.
  intros Hu (? & ? & ? & ? & ?). rewrite l2_block_state_split.
  apply da_update_in_band, exec_update_in_band.
  by apply update_exec_gas_price_wf, before_prices_wf.
Qed.

Lemma da_block_update_same heights bytes cost u ub :
  let u' := (da_block_update heights bytes cost u ub).1.1 in
  price_config u' = price_config u ∧ new_scaled_exec_price u' = new_scaled_exec_price u ∧
  new_scaled_da_gas_price u' = new_scaled_da_gas_price u.
Proof.
  unfold da_block_update, update_unrecorded_block_bytes.
  destruct (remove_heights _ _ _) as [? []]; [|done].
  unfold checked_udiv. case_decide; by destruct u.
Qed.

Lemma in_band_same u u' :
  price_config u' = price_config u → new_scaled_exec_price u' = new_scaled_exec_price u →
  new_scaled_da_gas_price u' = new_scaled_da_gas_price u → in_band u → in_band u'.
Proof.
  destruct u, u'. unfold in_band, price_config, min_scaled_exec_gas_price,
    min_scaled_da_gas_price, max_scaled_da_gas_price. simpl. intros. by simplify_eq.
Qed.

Lemma apply_event_band ev (s : AlgorithmUpdaterV1 * U) :
  updater_wf s.1 → event_wf ev → in_band s.1 → in_band (apply_event ev s).1.1.
Proof.
  intros Hu Hev Hband. destruct ev as [height used capacity bytes fee|heights bytes cost]; simpl.
  - pose proof (l2_state_band height used capacity bytes fee _ Hu Hev).
    unfold update_l2_block_data. case_decide; [done|].
    destruct (ub_insert _ _ _) as [? []]; simpl; [|done].
    eapply in_band_same; [..|done]; by destruct (l2_block_state _ _ _ _ _ _).
  - unfold update_da_record_data. case_decide; [|done].
    pose proof (da_block_update_same heights bytes cost s.1 s.2) as (? & ? & ?).
    destruct Hev as (_ & _ & [??] & ?).
    pose proof (da_block_update_wf heights bytes cost s.1 s.2 Hu) as Hd.
    assert (in_band (da_block_update heights bytes cost s.1 s.2).1.1) as Hb
      by by eapply in_band_same.
    destruct (da_block_update _ _ _ _ _) as [[u' ub'] []]; simpl in *; [|done].
    apply da_update_in_band; [by apply recalculate_projected_cost_wf, Hd|].
    destruct Hb as [? _]. by destruct u'.
Qed.
End entry_points.

(** A state used by the witnesses: factor 100, band [10, 1000] on the DA price. *)
Definition example_updater (height : Z) (activity : Z) : AlgorithmUpdaterV1 :=
  mk_updater 2000 10 20 height (ClampedPercentage_new 50) 2000 100 10 1000 10
    0 0 0 5 5 0 0 3 (tracker_new 10 10 10 activity (ClampedPercentage_new 10)) 0.

Lemma example_updater_wf height activity :
  in_uint U32 height → 0 ≤ activity → updater_wf (example_updater height activity).
Proof.
  intros. assert (tracker_wf (tracker_new 10 10 10 activity (ClampedPercentage_new 10)))
    by (constructor; unfold percentage_wf; simpl; int_lia).
  constructor; unfold percentage_wf, I64_MIN, I64_MAX; simpl; (done || int_lia).
Qed.

(** C33: whatever sequence of L2 blocks and DA recordings the updater sees, and
    whether the calls succeed or fail, every field stays within its machine
    width and both prices stay inside the configured band: the execution price
    never under [min_exec_gas_price] and the DA price between [min_da_gas_price]
    and [max_da_gas_price] (all scaled). *)
Theorem prices_stay_in_band {U} `{!UnrecordedBlocks U} (evs : list Event)
    (u : AlgorithmUpdaterV1) (ub : U) :
  updater_wf u → in_band u → Forall event_wf evs →
  updater_wf (run evs (u, ub)).1 ∧ in_band (run evs (u, ub)).1.
Proof.
  intros Hu Hb Hevs. revert u ub Hu Hb. unfold run.
  induction Hevs as [|ev evs Hev _ IH]; intros u ub Hu Hb; [done|]. simpl.
  pose proof (apply_event_wf ev (u, ub) Hu Hev). pose proof (apply_event_band ev (u, ub) Hu Hev Hb).
  destruct (apply_event ev (u, ub)) as [[u' ub'] r]. by apply IH.
Qed.

Lemma prices_stay_in_band_witness :
  in_band (run [L2Block 8 100 100 50 900; L2Block 9 0 100 10 5; DaRecord (8, 9) 30 100]
             (example_updater 7 30, (∅ : gmap Z N))).1.
Proof.
  apply (prices_stay_in_band
    [L2Block 8 100 100 50 900; L2Block 9 0 100 10 5; DaRecord (8, 9) 30 100]
    (example_updater 7 30) (∅ : gmap Z N)).
  - by apply example_updater_wf.
  - by vm_compute.
  - by repeat constructor.
Defined.

(** *** Per-block change limits *)

Lemma percent_change_le x pct : 0 ≤ x → 0 ≤ pct → sat_mul U64 x pct / 100 ≤ x * pct / 100.
Proof. intros. apply Z.div_le_mono; int_lia. Qed.

Lemma exec_price_step used capacity u :
  updater_wf u → min_scaled_exec_gas_price u ≤ new_scaled_exec_price u →
  Z.abs (new_scaled_exec_price (update_exec_gas_price used capacity u) - new_scaled_exec_price u)
  ≤ new_scaled_exec_price u * exec_gas_price_change_percent u / 100.
Proof.
  intros Hu Hmin. destruct (exec_change_range u Hu) as [??].
  assert (exec_change u (new_scaled_exec_price u) ≤
          new_scaled_exec_price u * exec_gas_price_change_percent u / 100).
  { destruct (uw_exec u Hu), (uw_exec_percent u Hu). by apply percent_change_le. }
  destruct (uw_exec u Hu). unfold update_exec_gas_price.
  assert (∀ v, new_scaled_exec_price (set_exec_price v u) = v) as -> by by destruct u.
  destruct (_ ?= _); int_lia.
Qed.

Lemma da_price_step u :
  updater_wf u →
  min_scaled_da_gas_price u ≤ new_scaled_da_gas_price u ≤ max_scaled_da_gas_price u →
  Z.abs (new_scaled_da_gas_price (update_da_gas_price u) - new_scaled_da_gas_price u)
  ≤ new_scaled_da_gas_price u * max_da_gas_price_change_percent u / 100.
Proof.
  intros Hu Hb. rewrite update_da_gas_price_eq by done.
  pose proof (da_change_activity_bound u (p u) (d u) Hu).
  assert (max_change u ≤ new_scaled_da_gas_price u * max_da_gas_price_change_percent u / 100).
  { destruct (uw_da u Hu), (uw_da_percent u Hu). by apply percent_change_le. }
  lia.
Qed.

Lemma l2_ok_state {U} `{!UnrecordedBlocks U} height used capacity bytes fee u (ub ub' : U) u' :
  update_l2_block_data height used capacity bytes fee u ub = (u', ub', Ok ()) →
  u' = set_unrecorded_blocks_bytes
         (sat_add U128 (unrecorded_blocks_bytes u) (Z.of_N bytes))
         (l2_block_state height used capacity bytes fee u) ∧
  height = sat_add U32 (l2_block_height u) 1 ∧ ub_insert height bytes ub = (ub', Ok ()).
Proof.
  unfold update_l2_block_data. case_decide; [done|].
  destruct (ub_insert _ _ _) as [? [[]|]]; [|done]. intros; simplify_eq.
  split_and!; [by destruct u|lia|done].
Qed.

(** One L2 block moves the execution price by at most
    [exec_gas_price_change_percent] percent of its old value, and the DA price by
    at most [max_da_gas_price_change_percent] percent of its old value, in
    either direction, when the prices start inside the band. *)
Theorem l2_block_price_change_limited {U} `{!UnrecordedBlocks U}
    height used capacity bytes fee (u u' : AlgorithmUpdaterV1) (ub ub' : U) :
  updater_wf u → in_band u → event_wf (L2Block height used capacity bytes fee) →
  update_l2_block_data height used capacity bytes fee u ub = (u', ub', Ok ()) →
  Z.abs (new_scaled_exec_price u' - new_scaled_exec_price u)
    ≤ new_scaled_exec_price u * exec_gas_price_change_percent u / 100 ∧
  Z.abs (new_scaled_da_gas_price u' - new_scaled_da_gas_price u)
    ≤ new_scaled_da_gas_price u * max_da_gas_price_change_percent u / 100.
Proof.
  intros Hu [Hbe Hbd] (? & ? & ? & ? & ?) (-> & -> & _)%l2_ok_state.
  set (h := sat_add U32 _ _) in *. rewrite l2_block_state_split. split.
  - etrans; [|by apply (exec_price_step used capacity)].
    apply Z.eq_le_incl. by destruct u.
  - set (w := update_exec_gas_price _ _ _).
    assert (updater_wf w) as Hw by by apply update_exec_gas_price_wf, before_prices_wf.
    etrans; [|etrans; [apply (da_price_step w Hw); by destruct u|by destruct u]].
    apply Z.eq_le_incl. by destruct u.
Qed.

Lemma l2_block_price_change_limited_witness :
  ∃ u' ub', update_l2_block_data 8 100 100 50 900 (example_updater 7 30) (∅ : gmap Z N)
            = (u', ub', Ok ()) ∧
  Z.abs (new_scaled_exec_price u' - 2000) ≤ 400 ∧ Z.abs (new_scaled_da_gas_price u' - 2000) ≤ 200.
Proof.
  eexists _, _. split; [by vm_compute|].
  apply (l2_block_price_change_limited 8 100 100 50 900 (example_updater 7 30) _
           (∅ : gmap Z N) {[8 := 50%N]}); [by apply example_updater_wf|by vm_compute..].
Defined.

(** *** Activity and the direction of the DA price *)

(** The DA price reacts to the activity of the chain: a positive change is
    applied only in [Normal] mode; in [Capped] mode the price is held and in
    [AlwaysDecrease] mode it drops by the full allowed step (down to the
    minimum); a non-positive change is applied in every mode. *)
Theorem da_price_follows_activity (u : AlgorithmUpdaterV1) :
  updater_wf u →
  min_scaled_da_gas_price u ≤ new_scaled_da_gas_price u ≤ max_scaled_da_gas_price u →
  let change := da_change u (p u) (d u) in
  new_scaled_da_gas_price (update_da_gas_price u) =
    if decide (0 < change) then
      match safety_mode (l2_activity u) with
      | Normal => Z.min (new_scaled_da_gas_price u + change) (max_scaled_da_gas_price u)
      | Capped => new_scaled_da_gas_price u
      | AlwaysDecrease =>
          Z.max (min_scaled_da_gas_price u) (new_scaled_da_gas_price u - max_change u)
      end
    else Z.max (min_scaled_da_gas_price u) (new_scaled_da_gas_price u + change).
Proof.
  intros Hu Hb change. rewrite update_da_gas_price_eq by done. subst change.
  destruct (max_change_range u Hu). unfold da_change_accounting_for_activity.
  repeat case_decide; [|lia]. destruct (safety_mode _); int_lia.
Qed.

Lemma da_price_follows_activity_witness :
  let u := update_last_profit (-1000) (example_updater 7 15) in
  new_scaled_da_gas_price (update_da_gas_price u) = 2000 ∧ safety_mode (l2_activity u) = Capped.
Proof.
  intros u. split; [|by vm_compute].
  rewrite (da_price_follows_activity u); [by vm_compute| |by vm_compute].
  apply update_last_profit_wf; [by apply example_updater_wf|int_lia].
Defined.

Lemma quot_sign x y : 0 < y → (0 ≤ x → 0 ≤ Z.quot x y) ∧ (x ≤ 0 → Z.quot x y ≤ 0).
Proof.
  intros Hy. split; intros Hx; [by apply Z.quot_pos; lia|].
  replace x with (- (- x)) by lia. rewrite Z.quot_opp_l by lia.
  pose proof (Z.quot_pos (- x) y). lia.
Qed.

Lemma pd_term_sign u v w :
  updater_wf u → 0 < v → in_i128 w →
  let t := i128_sat_mul (unwrap_or (i128_checked_div w v) 0) (-1) in
  (0 ≤ w → t ≤ 0) ∧ (w ≤ 0 → 0 ≤ t).
Proof.
  intros Hu Hv Hw t. subst t. unfold i128_checked_div.
  rewrite decide_False by lia. rewrite decide_False by lia. simpl.
  destruct (quot_sign w v Hv). int_lia.
Qed.

Lemma da_change_monotone_sign u x y :
  updater_wf u → (x ≤ 0 → y ≤ 0 → da_change u x y ≤ 0) ∧ (0 ≤ x → 0 ≤ y → 0 ≤ da_change u x y).
Proof.
  intros Hu. destruct (max_change_range u Hu), (uw_factor u Hu). unfold da_change.
  set (s := i128_sat_mul (i128_sat_add x y) _).
  assert (in_i128 s) by apply i128_clamp_range.
  assert ((x + y ≤ 0 → s ≤ 0) ∧ (0 ≤ x + y → 0 ≤ s)).
  { subst s. set (a := i128_sat_add x y).
    assert ((x + y ≤ 0 → a ≤ 0) ∧ (0 ≤ x + y → 0 ≤ a)) as [??] by (subst a; int_lia).
    assert ((a ≤ 0 → a * gas_price_factor u ≤ 0) ∧ (0 ≤ a → 0 ≤ a * gas_price_factor u)) by nia.
    unfold i128_sat_mul. int_lia. }
  destruct (Z.sgn_spec s) as [[? ->]|[[? ->]|[? ->]]]; int_lia.
Qed.

(** With positive [P] and [D] components the controller moves the DA price in
    the direction the doc comment promises: a non-negative and non-decreasing
    profit never raises it, and in [Normal] mode a non-positive and
    non-increasing profit never lowers it. *)
Theorem da_price_direction (u : AlgorithmUpdaterV1) :
  updater_wf u →
  min_scaled_da_gas_price u ≤ new_scaled_da_gas_price u ≤ max_scaled_da_gas_price u →
  0 < da_p_component u → 0 < da_d_component u →
  (0 ≤ last_profit u → second_to_last_profit u ≤ last_profit u →
     new_scaled_da_gas_price (update_da_gas_price u) ≤ new_scaled_da_gas_price u) ∧
  (last_profit u ≤ 0 → last_profit u ≤ second_to_last_profit u →
     safety_mode (l2_activity u) = Normal →
     new_scaled_da_gas_price u ≤ new_scaled_da_gas_price (update_da_gas_price u)).
Proof.
  intros Hu Hb Hp Hd. rewrite update_da_gas_price_eq by done.
  destruct (pd_term_sign u _ _ Hu Hp (uw_profit u Hu)).
  destruct (pd_term_sign u _ (i128_sat_sub (last_profit u) (second_to_last_profit u)) Hu Hd
              (i128_clamp_range _)).
  destruct (da_change_monotone_sign u (p u) (d u) Hu) as [Hneg Hpos].
  unfold da_change_accounting_for_activity.
  split; intros.
  - enough (da_change u (p u) (d u) ≤ 0) by (case_decide; lia).
    apply Hneg; [unfold p; auto|]. unfold d. apply H1. unfold_ints; lia.
  - rewrite H5. enough (0 ≤ da_change u (p u) (d u)) by (case_decide; lia).
    apply Hpos; [unfold p; auto|]. unfold d. apply H2. unfold_ints; lia.
Qed.

Lemma da_price_direction_witness :
  let u := update_last_profit 1000 (example_updater 7 30) in
  new_scaled_da_gas_price (update_da_gas_price u) ≤ 2000.
Proof.
  intros u. apply (da_price_direction u); by vm_compute.
Defined.

(** *** Unrecorded blocks *)

Section unrecorded.
Context {U : Type} `{!UnrecordedBlocks U, !UnrecordedBlocksSpec U}.
Implicit Types (u : AlgorithmUpdaterV1) (ub : U).

(** The running total equals the bytes of the blocks still in the map, and the
    map only holds blocks up to the current height. *)
Definition unrecorded_ok u ub : Prop :=
  unrecorded_blocks_bytes u = map_sum Z.of_N (ub_view ub) ∧
  map_Forall (λ h _, h ≤ l2_block_height u) (ub_view ub).

Lemma map_sum_bytes_nonneg (m : gmap Z N) : 0 ≤ map_sum Z.of_N m.
Proof. apply map_sum_nonneg. lia. Qed.

(** The loop removes from the map exactly what it adds to the total. *)
Lemma remove_heights_sum hs total ub ub' t :
  0 ≤ total → total + map_sum Z.of_N (ub_view ub) ≤ U128 →
  remove_heights hs total ub = (ub', Ok t) →
  t + map_sum Z.of_N (ub_view ub') = total + map_sum Z.of_N (ub_view ub) ∧
  ub_view ub' ⊆ ub_view ub.
Proof.
  revert total ub. induction hs as [|h hs IH]; intros total ub Ht Hsum; simpl.
  { intros; by simplify_eq. }
  destruct (ub_remove h ub) as [ub1 [[b|]|]] eqn:Hr; [| |done];
    apply ub_remove_view in Hr as [Hb Hv]; intros Hk.
  - symmetry in Hb. pose proof (map_sum_delete Z.of_N _ _ _ Hb) as Hs.
    pose proof (map_sum_bytes_nonneg (delete h (ub_view ub))).
    rewrite <- Hv in *. apply IH in Hk as [? Hsub]; [|int_lia..].
    split; [int_lia|]. etrans; [done|]. rewrite Hv. apply delete_subseteq.
  - symmetry in Hb. rewrite delete_id in Hv by done. rewrite <- Hv in *. by apply IH in Hk.
Qed.

Lemma l2_unrecorded_ok height used capacity bytes fee u u' ub ub' r :
  unrecorded_ok u ub → l2_block_height u < U32 →
  map_sum Z.of_N (ub_view ub) + Z.of_N bytes ≤ U128 →
  update_l2_block_data height used capacity bytes fee u ub = (u', ub', r) →
  (∀ e, r ≠ Err (CouldNotInsertUnrecordedBlock e)) → unrecorded_ok u' ub'.
Proof.
  intros [Hsum Hdom] Hh Hb Hup Hr.
  assert (r = Ok () ∨ (u' = u ∧ ub' = ub)) as [->|[-> ->]]; [|clear Hr|done].
  { revert Hup Hr. unfold update_l2_block_data. case_decide; [intros; simplify_eq; by right|].
    destruct (ub_insert _ _ _) as [? [[]|e]]; intros; simplify_eq; [by left|].
    by destruct (Hr e). }
  apply l2_ok_state in Hup as (-> & -> & Hins).
  apply ub_insert_view in Hins.
  assert (ub_view ub !! sat_add U32 (l2_block_height u) 1 = None) as Hfresh.
  { apply eq_None_not_Some. intros [b Hl]. apply Hdom in Hl. simpl in Hl. int_lia. }
  split.
  - rewrite Hins, map_sum_insert by done. destruct u; simpl in *. int_lia.
  - rewrite Hins. apply map_Forall_insert_2; [by destruct u; simpl in *; int_lia|].
    eapply map_Forall_impl; [done|]. destruct u; simpl in *. intros; int_lia.
Qed.

Lemma da_unrecorded_ok heights bytes cost u u' ub ub' r :
  unrecorded_ok u ub → map_sum Z.of_N (ub_view ub) ≤ U128 →
  update_da_record_data heights bytes cost u ub = (u', ub', r) →
  (∀ e, r ≠ Err (CouldNotRemoveUnrecordedBlock e)) → unrecorded_ok u' ub'.
Proof.
  intros [Hsum Hdom] Hov. unfold update_da_record_data, da_block_update,
    update_unrecorded_block_bytes. case_decide; [|intros; by simplify_eq].
  destruct (remove_heights _ _ _) as [ub1 [t|]] eqn:Hr.
  2:{ apply remove_heights_err in Hr as [msg ->]. intros; simplify_eq. naive_solver. }
  apply remove_heights_sum in Hr as [Ht Hsub]; [|lia..].
  pose proof (map_sum_bytes_nonneg (ub_view ub1)).
  assert (unrecorded_ok (set_unrecorded_blocks_bytes (sat_sub (unrecorded_blocks_bytes u) t) u) ub1).
  { split; [destruct u; simpl in *; int_lia|]. destruct u; simpl in *.
    intros h b Hl. apply (Hdom h b). by eapply lookup_weaken. }
  unfold checked_udiv. case_decide; intros; simplify_eq; by destruct u.
Qed.
End unrecorded.

(** Bytes that an event adds to the unrecorded blocks. *)
Definition event_bytes (ev : Event) : Z :=
  match ev with L2Block _ _ _ bytes _ => Z.of_N bytes | DaRecord _ _ _ => 0 end.

(** The trait's own failures, as opposed to the updater's. *)
Definition is_trait_failure (r : result unit Error) : bool :=
  match r with
  | Err (CouldNotInsertUnrecordedBlock _) | Err (CouldNotRemoveUnrecordedBlock _) => true
  | _ => false
  end.

Section bytes.
Context {U : Type} `{!UnrecordedBlocks U, !UnrecordedBlocksSpec U}.
Implicit Types (u : AlgorithmUpdaterV1) (ub : U).

(** What the calls of a run return. *)
Fixpoint run_results (evs : list Event) (s : AlgorithmUpdaterV1 * U) : list (result unit Error) :=
  match evs with
  | [] => []
  | ev :: evs => let '(s, r) := apply_event ev s in r :: run_results evs s
  end.

Lemma event_unrecorded_ok ev u u' ub ub' r :
  unrecorded_ok u ub → l2_block_height u < U32 → map_sum Z.of_N (ub_view ub) + event_bytes ev ≤ U128 →
  apply_event ev (u, ub) = (u', ub', r) → is_trait_failure r = false → unrecorded_ok u' ub'.
Proof.
  intros Hok Hh Hb Hev Hf. destruct ev as [h us c b f|hs b c]; simpl in *.
  - eapply l2_unrecorded_ok; eauto. intros e ->. done.
  - eapply da_unrecorded_ok; eauto; [lia|]. intros e ->. done.
Qed.

(** An event adds its bytes at most, and one height. *)
Lemma event_growth ev u u' ub ub' r :
  0 ≤ unrecorded_blocks_bytes u → apply_event ev (u, ub) = (u', ub', r) →
  unrecorded_blocks_bytes u' ≤ unrecorded_blocks_bytes u + event_bytes ev ∧ l2_block_height u' ≤ l2_block_height u + 1.
Proof using Type.
  intros Hu Hev. destruct ev as [h us c b f|hs b c]; simpl in *; revert Hev.
  - unfold update_l2_block_data. case_decide; [intros; simplify_eq; lia|].
    destruct (ub_insert _ _ _) as [? [[]|e]]; intros; simplify_eq; destruct u; simpl in *; int_lia.
  - unfold update_da_record_data, da_block_update, update_unrecorded_block_bytes. case_decide; [|intros; simplify_eq; lia].
    destruct (remove_heights _ _ _) as [ub1 [t|]] eqn:Hr; [|intros; simplify_eq; lia]. apply remove_heights_nonneg in Hr; [|lia].
    unfold checked_udiv. case_decide; intros; simplify_eq; destruct u; simpl in *; int_lia.
Qed.

(** C34: let an implementation of [UnrecordedBlocks] behave like a map as long as its calls
    succeed. Through any sequence of L2 blocks and DA recordings in which they do,
    [unrecorded_blocks_bytes] stays equal to the sum of the bytes of the blocks not yet
    recorded, also when a block is refused for its height and when a DA recording reports
    [CouldNotCalculateCostPerByte] or covers heights that are not in the map, provided that
    the heights of the blocks do not come to [u32::MAX] and their bytes not to [u128::MAX]. *)
Theorem unrecorded_bytes_exact (evs : list Event) u ub :
  unrecorded_ok u ub → l2_block_height u + Z.of_nat (length evs) ≤ U32 →
  map_sum Z.of_N (ub_view ub) + lsum event_bytes evs ≤ U128 →
  Forall (λ r, is_trait_failure r = false) (run_results evs (u, ub)) →
  let '(u', ub') := run evs (u, ub) in unrecorded_ok u' ub'.
Proof.
  revert u ub. unfold run. induction evs as [|ev evs IH]; intros u ub Hok Hh Hb Hf; [done|].
  cbn [foldl run_results length] in *. rewrite lsum_cons in Hb. destruct (apply_event ev (u, ub)) as [[u' ub'] r] eqn:Hev.
  apply Forall_cons in Hf as [Hr Hf]. assert (0 ≤ lsum event_bytes evs) as Hpos by (apply lsum_nonneg; intros [] _; simpl; lia).
  assert (unrecorded_ok u' ub') as Hok' by (eapply event_unrecorded_ok; eauto; lia).
  pose proof (map_sum_bytes_nonneg (ub_view ub)). destruct Hok as [Hs _]. pose proof Hok' as [Hs' _].
  destruct (event_growth ev u u' ub ub' r ltac:(lia) Hev). apply IH; [done|lia|lia|done].
Qed.
End bytes.

Lemma unrecorded_bytes_exact_witness :
  let u := set_unrecorded_blocks_bytes 70 (example_updater 7 30) in
  let ub : gmap Z N := {[6 := 40%N; 7 := 30%N]} in
  let evs := [L2Block 8 5 10 20 3; DaRecord (6, 6) 0 100; L2Block 30 1 1 1 1] in
  let '(u', ub') := run evs (u, ub) in
  unrecorded_ok u' ub' ∧ unrecorded_blocks_bytes u' = 50 ∧
  run_results evs (u, ub) = [Ok (); Err (CouldNotCalculateCostPerByte 0 100); Err (SkippedL2Block 9 30)].
Proof.
  intros u ub evs. pose proof (unrecorded_bytes_exact evs u ub) as Hx. destruct (run evs (u, ub)) as [u' ub'] eqn:Hr.
  split; [apply Hx|split].
  - split; [by vm_compute|]. apply (bool_decide_unpack _). by vm_compute.
  - by vm_compute.
  - by vm_compute.
  - apply (bool_decide_unpack _). by vm_compute.
  - replace u' with (run evs (u, ub)).1 by (by rewrite Hr). by vm_compute.
  - by vm_compute.
Defined.

(** *** DA recordings, branch by branch *)

(** What a DA recording of a non-empty range does to the costs.  When it
    succeeds, the known total grows by the recording cost, the cost per byte is
    the quotient, and the projection is the known total plus the unrecorded
    bytes at that rate; when [recorded_bytes] is zero it reports
    [CouldNotCalculateCostPerByte] after having already added the cost and
    removed the blocks, leaving rate, projection and prices as they were. *)
Theorem da_record_costs {U} `{!UnrecordedBlocks U}
    heights bytes cost (u u' : AlgorithmUpdaterV1) (ub ub' : U) r :
  heights.1 ≤ heights.2 →
  update_da_record_data heights bytes cost u ub = (u', ub', r) →
  is_trait_failure r = false →
  latest_known_total_da_cost u' = sat_add U128 (latest_known_total_da_cost u) cost ∧
  (bytes ≠ 0 → r = Ok () ∧
     latest_da_cost_per_byte u' = cost / bytes ∧
     projected_total_da_cost u' =
       sat_add U128 (latest_known_total_da_cost u')
         (sat_mul U128 (unrecorded_blocks_bytes u') (cost / bytes))) ∧
  (bytes = 0 → r = Err (CouldNotCalculateCostPerByte 0 cost) ∧
     latest_da_cost_per_byte u' = latest_da_cost_per_byte u ∧
     projected_total_da_cost u' = projected_total_da_cost u ∧
     new_scaled_da_gas_price u' = new_scaled_da_gas_price u ∧
     new_scaled_exec_price u' = new_scaled_exec_price u).
Proof.
  intros Hne. unfold update_da_record_data. rewrite decide_True by done.
  unfold da_block_update, update_unrecorded_block_bytes.
  destruct (remove_heights _ _ _) as [ub1 [t|e]] eqn:Hr.
  2:{ apply remove_heights_err in Hr as [msg ->]. intros; by simplify_eq. }
  unfold checked_udiv. case_decide; intros; simplify_eq; destruct u; simpl in *; naive_solver.
Qed.

Lemma da_record_costs_witness :
  let s := update_da_record_data (8, 8) 10 250 (example_updater 7 30) ({[8 := 40%N]} : gmap Z N) in
  latest_known_total_da_cost s.1.1 = 250 ∧ latest_da_cost_per_byte s.1.1 = 25.
Proof.
  intros s.
  destruct (da_record_costs (8, 8) 10 250 (example_updater 7 30) s.1.1
    ({[8 := 40%N]} : gmap Z N) s.1.2 s.2) as (-> & Hs & _); [by vm_compute..|].
  split; [by vm_compute|]. by destruct Hs as (_ & -> & _).
Defined.
