(* ===== verification/TxTypes.v ===== *)
(** * Transactions, inputs and outputs as the services see them

    The pool works on [PoolTransaction] (crates/types/src/services/txpool.rs),
    whose [Checked<_>] payloads, [Input] and [Output] come from the [fuel-tx]
    and [fuel-vm] crates; of those the model keeps the constructors and the
    fields the services read.  Identifiers are 32-byte arrays compared
    lexicographically; they are modelled by the number their bytes spell, most
    significant byte first. *)

From stdpp Require Import prelude gmap list strings.
From Stdlib Require Import ZArith Lia.
From S2P Require Import Prelude.
Local Open Scope Z_scope.

Abbreviation TxId := Z (only parsing).
Abbreviation ContractId := Z (only parsing).
Abbreviation BlobId := Z (only parsing).
Abbreviation Nonce := Z (only parsing).
Abbreviation Address := Z (only parsing).
Abbreviation AssetId := Z (only parsing).
(** A transaction id and an output index. *)
Abbreviation UtxoId := (Z * Z)%type (only parsing).

(** ** Inputs and outputs *)

Record CoinInput := {
  in_utxo_id : UtxoId;
  in_owner : Address;
  in_amount : Z;
  in_asset_id : AssetId;
}.

Record MessageInput := {
  in_sender : Address;
  in_recipient : Address;
  in_nonce : Nonce;
  in_msg_amount : Z;
}.

Inductive Input :=
| CoinSigned (c : CoinInput)
| CoinPredicate (c : CoinInput)
| InputContract (contract_id : ContractId)
| MessageCoinSigned (m : MessageInput)
| MessageCoinPredicate (m : MessageInput)
| MessageDataSigned (m : MessageInput) (data : list Z)
| MessageDataPredicate (m : MessageInput) (data : list Z).

Inductive Output :=
| OutputCoin (to : Address) (amount : Z) (asset_id : AssetId)
| OutputContract
| OutputChange (to : Address) (amount : Z) (asset_id : AssetId)
| OutputVariable (to : Address) (amount : Z) (asset_id : AssetId)
| OutputContractCreated (contract_id : ContractId).

(** [Input::utxo_id], [is_coin], [nonce], [is_message] as the services use them. *)
Definition input_coin (i : Input) : option CoinInput :=
  match i with CoinSigned c | CoinPredicate c => Some c | _ => None end.
Definition input_message (i : Input) : option MessageInput :=
  match i with
  | MessageCoinSigned m | MessageCoinPredicate m
  | MessageDataSigned m _ | MessageDataPredicate m _ => Some m
  | _ => None
  end.
Definition input_contract (i : Input) : option ContractId :=
  match i with InputContract c => Some c | _ => None end.
(** [Input::input_data]. *)
Definition input_data (i : Input) : option (list Z) :=
  match i with MessageDataSigned _ d | MessageDataPredicate _ d => Some d | _ => None end.

(** ** Pool transactions *)

(** The metadata of [services/txpool.rs]; [size] is set by [Metadata::new]. *)
Record Metadata := {
  md_version : Z;
  md_size : option Z;
  md_max_gas_price : Z;
}.

Definition Metadata_new (version size max_gas_price : Z) : Metadata :=
  {| md_version := version; md_size := Some size; md_max_gas_price := max_gas_price |}.

(** What the pool reads of a [Checked<Tx>]. *)
Record Checked := {
  ck_id : TxId;
  ck_max_gas : Z;
  ck_tip : Z;
  ck_metered_bytes_size : Z;
  ck_expiration : Z;
  ck_inputs : list Input;
  ck_outputs : list Output;
}.

Inductive PoolTransaction :=
| Script (tx : Checked) (script_gas_limit : Z) (m : Metadata)
| Create (tx : Checked) (m : Metadata)
| Upgrade (tx : Checked) (m : Metadata)
| Upload (tx : Checked) (m : Metadata)
| Blob (tx : Checked) (blob_id : BlobId) (m : Metadata).

Definition checked (t : PoolTransaction) : Checked :=
  match t with
  | Script tx _ _ | Create tx _ | Upgrade tx _ | Upload tx _ | Blob tx _ _ => tx
  end.

Definition metadata_inner (t : PoolTransaction) : Metadata :=
  match t with
  | Script _ _ m | Create _ m | Upgrade _ m | Upload _ m | Blob _ _ m => m
  end.

Definition used_consensus_parameters_version (t : PoolTransaction) : Z :=
  md_version (metadata_inner t).

Definition metered_bytes_size (t : PoolTransaction) : Z :=
  match md_size (metadata_inner t) with
  | Some size => size
  | None =>
      match t with
      | Script tx _ _ => ck_metered_bytes_size tx
      | Create tx _ => ck_metered_bytes_size tx
      | Upgrade tx _ => ck_metered_bytes_size tx
      | Upload tx _ => ck_metered_bytes_size tx
      | Blob tx _ _ => ck_metered_bytes_size tx
      end
  end.

Definition max_gas_price (t : PoolTransaction) : Z :=
  match t with
  | Script _ _ m => md_max_gas_price m
  | Create _ m => md_max_gas_price m
  | Upgrade _ m => md_max_gas_price m
  | Upload _ m => md_max_gas_price m
  | Blob _ _ m => md_max_gas_price m
  end.

Definition tx_id (t : PoolTransaction) : TxId := ck_id (checked t).
Definition max_gas (t : PoolTransaction) : Z := ck_max_gas (checked t).
Definition tip (t : PoolTransaction) : Z := ck_tip (checked t).
Definition expiration (t : PoolTransaction) : Z := ck_expiration (checked t).
Definition inputs (t : PoolTransaction) : list Input := ck_inputs (checked t).
Definition outputs (t : PoolTransaction) : list Output := ck_outputs (checked t).

Definition is_blob (t : PoolTransaction) : bool :=
  match t with Blob _ _ _ => true | _ => false end.
Definition pool_blob_id (t : PoolTransaction) : option BlobId :=
  match t with Blob _ b _ => Some b | _ => None end.

(** [utxo_ids_with_outputs]: outputs with the UTXO ids they create; an index
    past [u16::MAX] is dropped. *)
Definition utxo_ids_with_outputs (outs : list Output) (id : TxId) : list (UtxoId * Output) :=
  omap (λ p : nat * Output,
          i ← try_uint U16 (Z.of_nat p.1); Some ((id, i), p.2)) (imap pair outs).

(** ** Coins and messages in the database *)

(** [CompressedCoin::V1]. *)
Record CompressedCoin := {
  coin_owner : Address;
  coin_amount : Z;
  coin_asset_id : AssetId;
}.

Definition coin_matches_input (coin : CompressedCoin) (i : Input) : option bool :=
  match i with
  | CoinSigned c | CoinPredicate c =>
      Some (bool_decide (in_owner c = coin_owner coin) &&
            bool_decide (in_amount c = coin_amount coin) &&
            bool_decide (in_asset_id c = coin_asset_id coin))
  | _ => None
  end.

(** [Message::V1]. *)
Record Message := {
  msg_sender : Address;
  msg_recipient : Address;
  msg_nonce : Nonce;
  msg_amount : Z;
  msg_data : list Z;
  msg_da_height : Z;
}.

Definition message_matches_input (msg : Message) (i : Input) : option bool :=
  match i with
  | MessageDataSigned m _ | MessageDataPredicate m _
  | MessageCoinSigned m | MessageCoinPredicate m =>
      let expected_data := if decide (msg_data msg = []) then None else Some (msg_data msg) in
      Some (bool_decide (msg_sender msg = in_sender m) &&
            bool_decide (msg_recipient msg = in_recipient m) &&
            bool_decide (msg_nonce msg = in_nonce m) &&
            bool_decide (msg_amount msg = in_msg_amount m) &&
            bool_decide (expected_data = input_data i))
  | _ => None
  end.

(** ** Resources a transaction uses *)

Definition coin_ids (l : list Input) : list UtxoId := in_utxo_id <$> omap input_coin l.
Definition message_ids (l : list Input) : list Nonce := in_nonce <$> omap input_message l.
Definition contract_ids (l : list Input) : list ContractId := omap input_contract l.
Definition created_contracts (l : list Output) : list ContractId :=
  omap (λ o, match o with OutputContractCreated c => Some c | _ => None end) l.

#[global] Instance CoinInput_eq_dec : EqDecision CoinInput.
Proof. solve_decision. Defined.
#[global] Instance MessageInput_eq_dec : EqDecision MessageInput.
Proof. solve_decision. Defined.
#[global] Instance Input_eq_dec : EqDecision Input.
Proof. solve_decision. Defined.
#[global] Instance Output_eq_dec : EqDecision Output.
Proof. solve_decision. Defined.

(** ** A sample transaction, for evaluation *)

Definition sample_coin (u : UtxoId) : Input :=
  CoinSigned {| in_utxo_id := u; in_owner := 7; in_amount := 100; in_asset_id := 0 |}.
Definition sample_tx (id tip : Z) (ins : list Input) (outs : list Output) : PoolTransaction :=
  Script {| ck_id := id; ck_max_gas := 10; ck_tip := tip; ck_metered_bytes_size := 20;
            ck_expiration := U32; ck_inputs := ins; ck_outputs := outs |} 5
         (Metadata_new 0 20 1).
