(* ===== verification/TxPoolSpent.v ===== *)
(** * Spent inputs of the transaction pool

    Model of [SpentInputs] (txpool_v2/src/spent_inputs.rs).  The cache type
    [LruCache] of the [lru] crate is a parameter, described by the class
    [LruCacheSpec]; [ListLru] shows the class can be implemented. *)

From stdpp Require Import prelude gmap list strings.
From Stdlib Require Import ZArith Lia.
From S2P Require Import Prelude.
From S2P Require Import TxTypes.
Local Open Scope Z_scope.

Inductive InputKey :=
| KeyTx (id : TxId)
| KeyUtxo (id : UtxoId)
| KeyMessage (id : Nonce).

#[global] Instance InputKey_eq_dec : EqDecision InputKey.
Proof. solve_decision. Defined.
#[global] Instance InputKey_countable : Countable InputKey.
Proof.
  refine (inj_countable'
    (λ k, match k with KeyTx i => inl i | KeyUtxo u => inr (inl u) | KeyMessage n => inr (inr n) end)
    (λ s, match s with inl i => KeyTx i | inr (inl u) => KeyUtxo u | inr (inr n) => KeyMessage n end)
    _); by intros [].
Defined.

(** ** The LRU cache *)

(** The calls the pool makes to [lru::LruCache<InputKey, ()>]. *)
Class LruCache (C : Type) := {
  lru_new : nat → C;
  lru_put : InputKey → C → C;
  lru_pop : InputKey → C → C;
  lru_contains : InputKey → C → bool;
}.

(** Documented behaviour of the crate: the keys from the most to the least
    recently put, [put] moving its key to the front and dropping the last key
    beyond the capacity. *)
Class LruCacheSpec (C : Type) `{!LruCache C} := {
  lru_keys : C → list InputKey;
  lru_cap : C → nat;
  lru_new_keys n : lru_keys (lru_new n) = [] ∧ lru_cap (lru_new n) = n;
  lru_put_keys k c :
    lru_keys (lru_put k c) = take (lru_cap c) (k :: filter (λ k', k' ≠ k) (lru_keys c)) ∧
    lru_cap (lru_put k c) = lru_cap c;
  lru_pop_keys k c :
    lru_keys (lru_pop k c) = filter (λ k', k' ≠ k) (lru_keys c) ∧
    lru_cap (lru_pop k c) = lru_cap c;
  lru_contains_keys k c : lru_contains k c = bool_decide (k ∈ lru_keys c);
}.

Record ListLru := { ll_cap : nat; ll_keys : list InputKey }.

#[global] Instance ListLru_lru : LruCache ListLru := {
  lru_new n := {| ll_cap := n; ll_keys := [] |};
  lru_put k c := {| ll_cap := ll_cap c;
                    ll_keys := take (ll_cap c) (k :: filter (λ k', k' ≠ k) (ll_keys c)) |};
  lru_pop k c := {| ll_cap := ll_cap c; ll_keys := filter (λ k', k' ≠ k) (ll_keys c) |};
  lru_contains k c := bool_decide (k ∈ ll_keys c);
}.

#[global, refine] Instance ListLru_spec : LruCacheSpec ListLru := {
  lru_keys := ll_keys;
  lru_cap := ll_cap;
}.
Proof. all: done. Defined.

(** ** The state and its operations *)

Record SpentInputs (C : Type) := {
  spent_inputs : C;
  spender_of_inputs : gmap TxId (list InputKey);
  tentative_spent : gmap TxId (list InputKey);
}.
Arguments spent_inputs {C} _.
Arguments spender_of_inputs {C} _.
Arguments tentative_spent {C} _.
Arguments Build_SpentInputs {C} _ _ _.

(** The [filter_map] the operations share: coins and messages are tracked,
    contracts are not. *)
Definition input_keys (ins : list Input) : list InputKey :=
  omap (λ i, match input_coin i with
             | Some c => Some (KeyUtxo (in_utxo_id c))
             | None => KeyMessage ∘ in_nonce <$> input_message i
             end) ins.

Section operations.
Context {C : Type} `{!LruCache C}.
Implicit Types (s : SpentInputs C) (id : TxId).

Definition put_all (keys : list InputKey) (c : C) : C := foldl (λ c k, lru_put k c) c keys.
Definition pop_all (keys : list InputKey) (c : C) : C := foldl (λ c k, lru_pop k c) c keys.

Definition SpentInputs_new (capacity : nat) : SpentInputs C :=
  Build_SpentInputs (lru_new capacity) ∅ ∅.

Definition maybe_spend_inputs (id : TxId) (ins : list Input) (s : SpentInputs C) : SpentInputs C :=
  let keys := input_keys ins in
  Build_SpentInputs
    (lru_put (KeyTx id) (put_all keys (spent_inputs s)))
    (<[id := keys]> (spender_of_inputs s)) (tentative_spent s).

Definition spend_inputs_by_tx_id (id : TxId) (s : SpentInputs C) : SpentInputs C :=
  let c := lru_put (KeyTx id) (spent_inputs s) in
  let c := match spender_of_inputs s !! id with
           | Some keys => put_all keys c
           | None => c
           end in
  Build_SpentInputs c (delete id (spender_of_inputs s)) (tentative_spent s).

Definition spend_inputs (id : TxId) (ins : list Input) (s : SpentInputs C) : SpentInputs C :=
  spend_inputs_by_tx_id id
    (Build_SpentInputs (put_all (input_keys ins) (spent_inputs s))
       (spender_of_inputs s) (tentative_spent s)).

Definition move_spender_to_tentative (id : TxId) (s : SpentInputs C) : SpentInputs C :=
  match spender_of_inputs s !! id with
  | Some keys =>
      Build_SpentInputs (spent_inputs s) (spender_of_inputs s) (<[id := keys]> (tentative_spent s))
  | None => s
  end.

Definition unspend_inputs (id : TxId) (s : SpentInputs C) : SpentInputs C :=
  let c := lru_pop (KeyTx id) (spent_inputs s) in
  let c := match spender_of_inputs s !! id with
           | Some keys => pop_all keys c
           | None => c
           end in
  Build_SpentInputs c (delete id (spender_of_inputs s)) (tentative_spent s).

Definition is_spent_utxo (u : UtxoId) (s : SpentInputs C) : bool :=
  lru_contains (KeyUtxo u) (spent_inputs s).
Definition is_spent_message (n : Nonce) (s : SpentInputs C) : bool :=
  lru_contains (KeyMessage n) (spent_inputs s).
Definition is_spent_tx (id : TxId) (s : SpentInputs C) : bool :=
  lru_contains (KeyTx id) (spent_inputs s).

Definition record_tentative_spend (id : TxId) (ins : list Input) (s : SpentInputs C) :
    SpentInputs C :=
  Build_SpentInputs (spent_inputs s) (spender_of_inputs s)
    (<[id := input_keys ins]> (tentative_spent s)).

Definition confirm_tentative_spend (id : TxId) (s : SpentInputs C) : SpentInputs C :=
  Build_SpentInputs (spent_inputs s) (spender_of_inputs s) (delete id (tentative_spent s)).

Definition unspend_preconfirmed (id : TxId) (s : SpentInputs C) : SpentInputs C :=
  let c := lru_pop (KeyTx id) (spent_inputs s) in
  let c := match tentative_spent s !! id with
           | Some keys => pop_all keys c
           | None => c
           end in
  Build_SpentInputs c (spender_of_inputs s) (delete id (tentative_spent s)).

(** The keys the cache reports as spent. *)
Definition is_spent (k : InputKey) (s : SpentInputs C) : bool :=
  lru_contains k (spent_inputs s).

(** The calls of the pool, as a language of operations. *)
Inductive SpentOp :=
| OpMaybeSpend (id : TxId) (ins : list Input)
| OpSpend (id : TxId) (ins : list Input)
| OpSpendById (id : TxId)
| OpMoveToTentative (id : TxId)
| OpUnspend (id : TxId)
| OpRecordTentative (id : TxId) (ins : list Input)
| OpConfirm (id : TxId)
| OpUnspendPreconfirmed (id : TxId).

Definition spent_step (op : SpentOp) (s : SpentInputs C) : SpentInputs C :=
  match op with
  | OpMaybeSpend id ins => maybe_spend_inputs id ins s
  | OpSpend id ins => spend_inputs id ins s
  | OpSpendById id => spend_inputs_by_tx_id id s
  | OpMoveToTentative id => move_spender_to_tentative id s
  | OpUnspend id => unspend_inputs id s
  | OpRecordTentative id ins => record_tentative_spend id ins s
  | OpConfirm id => confirm_tentative_spend id s
  | OpUnspendPreconfirmed id => unspend_preconfirmed id s
  end.
End operations.

(** ** The abstract specification: a set of spent keys *)

Definition set_put (k : InputKey) (X : gset InputKey) : gset InputKey := {[k]} ∪ X.
Definition set_pop (k : InputKey) (X : gset InputKey) : gset InputKey := X ∖ {[k]}.

(** The same operations on a set that never forgets. *)
#[global] Instance gset_lru : LruCache (gset InputKey) := {
  lru_new _ := ∅;
  lru_put := set_put;
  lru_pop := set_pop;
  lru_contains k X := bool_decide (k ∈ X);
}.

(** ** Lemmas on caches *)

Section cache_lemmas.
Context {C : Type} `{!LruCache C, !LruCacheSpec C}.
Implicit Types (c : C) (k : InputKey) (X : gset InputKey).

(** The cache holds exactly the keys of the set [X], without repetition. *)
Definition cache_is (c : C) (X : gset InputKey) : Prop :=
  NoDup (lru_keys c) ∧ ∀ k, k ∈ lru_keys c ↔ k ∈ X.

Lemma cache_is_contains c X k : cache_is c X → lru_contains k c = lru_contains k X.
Proof. intros [_ H]. rewrite lru_contains_keys. simpl. by apply bool_decide_ext. Qed.

Lemma cache_is_pop c X k : cache_is c X → cache_is (lru_pop k c) (lru_pop k X).
Proof.
  intros [Hnd Hin]. destruct (lru_pop_keys k c) as [Hk _]. unfold cache_is. rewrite Hk.
  split; [by apply NoDup_filter|]. intros k'. rewrite list_elem_of_filter, Hin.
  simpl. unfold set_pop. set_solver.
Qed.

(** Without eviction the cache behaves as a set. *)
Lemma cache_is_put c X Ks k :
  cache_is c X → X ⊆ Ks → k ∈ Ks → (size Ks ≤ lru_cap c)%nat →
  cache_is (lru_put k c) (lru_put k X).
Proof.
  intros [Hnd Hin] HX Hk Hcap. unfold cache_is. destruct (lru_put_keys k c) as [-> _].
  assert (NoDup (k :: filter (λ k', k' ≠ k) (lru_keys c))) as Hnd'.
  { constructor; [|by apply NoDup_filter]. rewrite list_elem_of_filter. tauto. }
  rewrite take_ge; [split; [done|]|].
  - intros k'. rewrite elem_of_cons, list_elem_of_filter, Hin. simpl. unfold set_put.
    destruct (decide (k' = k)); set_solver.
  - etrans; [|exact Hcap]. rewrite <- (size_list_to_set _ Hnd' (C:=gset InputKey)).
    apply subseteq_size. intros k' Hk'.
    rewrite elem_of_list_to_set, elem_of_cons, list_elem_of_filter, Hin in Hk'. set_solver.
Qed.

Lemma lru_cap_put k c : lru_cap (lru_put k c) = lru_cap c.
Proof. apply lru_put_keys. Qed.
Lemma lru_cap_pop k c : lru_cap (lru_pop k c) = lru_cap c.
Proof. apply lru_pop_keys. Qed.

Lemma cache_is_put_all keys c X Ks :
  cache_is c X → X ⊆ Ks → list_to_set keys ⊆ Ks → (size Ks ≤ lru_cap c)%nat →
  cache_is (put_all keys c) (put_all keys X) ∧ put_all keys X ⊆ Ks ∧
  lru_cap (put_all keys c) = lru_cap c.
Proof.
  unfold put_all. revert c X. induction keys as [|k keys IH]; intros c X Hc HX Hks Hcap; simpl; [done|].
  destruct (IH (lru_put k c) (set_put k X)) as (? & ? & Hcap').
  - eapply cache_is_put; eauto. set_solver.
  - unfold set_put. set_solver.
  - set_solver.
  - by rewrite lru_cap_put.
  - rewrite lru_cap_put in Hcap'. done.
Qed.

Lemma cache_is_pop_all keys c X Ks :
  cache_is c X → X ⊆ Ks →
  cache_is (pop_all keys c) (pop_all keys X) ∧ pop_all keys X ⊆ Ks ∧
  lru_cap (pop_all keys c) = lru_cap c.
Proof.
  unfold pop_all. revert c X. induction keys as [|k keys IH]; intros c X Hc HX; simpl; [done|].
  destruct (IH (lru_pop k c) (set_pop k X)) as (? & ? & Hcap').
  - by apply cache_is_pop.
  - unfold set_pop. set_solver.
  - rewrite lru_cap_pop in Hcap'. done.
Qed.

Lemma lru_contains_pop k k' c :
  lru_contains k (lru_pop k' c) = bool_decide (k ≠ k') && lru_contains k c.
Proof.
  rewrite !lru_contains_keys. destruct (lru_pop_keys k' c) as [-> _].
  rewrite <- bool_decide_and. apply bool_decide_ext. by rewrite list_elem_of_filter.
Qed.

Lemma lru_contains_pop_all k keys c :
  lru_contains k (pop_all keys c) = bool_decide (k ∉ keys) && lru_contains k c.
Proof.
  unfold pop_all. revert c. induction keys as [|k' keys IH]; intros c.
  { rewrite (bool_decide_true (k ∉ [])); [done|]. set_solver. }
  cbn [foldl].
  rewrite IH, lru_contains_pop. rewrite andb_assoc, <- bool_decide_and. f_equal.
  apply bool_decide_ext. set_solver.
Qed.
End cache_lemmas.

(** ** Refinement *)

Definition op_keys (op : SpentOp) : gset InputKey :=
  match op with
  | OpMaybeSpend id ins | OpSpend id ins | OpRecordTentative id ins =>
      {[KeyTx id]} ∪ list_to_set (input_keys ins)
  | OpSpendById id | OpMoveToTentative id | OpUnspend id | OpConfirm id
  | OpUnspendPreconfirmed id => {[KeyTx id]}
  end.

Definition spent_run {C} `{!LruCache C} (ops : list SpentOp) (s : SpentInputs C) : SpentInputs C :=
  foldl (λ s op, spent_step op s) s ops.

Section refinement.
Context {C : Type} `{!LruCache C, !LruCacheSpec C} (Ks : gset InputKey).
Implicit Types (s : SpentInputs C) (a : SpentInputs (gset InputKey)).

Record spent_sim (s : SpentInputs C) (a : SpentInputs (gset InputKey)) : Prop := {
  sim_cache : cache_is (spent_inputs s) (spent_inputs a);
  sim_cap : (size Ks ≤ lru_cap (spent_inputs s))%nat;
  sim_spent : spent_inputs a ⊆ Ks;
  sim_spender : spender_of_inputs s = spender_of_inputs a;
  sim_tentative : tentative_spent s = tentative_spent a;
  sim_spender_keys id keys : spender_of_inputs a !! id = Some keys → list_to_set keys ⊆ Ks;
}.

Lemma sim_spend_by_id id s a :
  spent_sim s a → KeyTx id ∈ Ks →
  spent_sim (spend_inputs_by_tx_id id s) (spend_inputs_by_tx_id id a).
Proof.
  intros [Hc Hcap Hs Hsp Ht Hk] Hid. unfold spend_inputs_by_tx_id. rewrite Hsp, Ht.
  assert (cache_is (lru_put (KeyTx id) (spent_inputs s)) (set_put (KeyTx id) (spent_inputs a)))
    by by eapply cache_is_put.
  assert (set_put (KeyTx id) (spent_inputs a) ⊆ Ks) by (unfold set_put; set_solver).
  assert (∀ id' keys, delete id (spender_of_inputs a) !! id' = Some keys → list_to_set keys ⊆ Ks).
  { intros id' keys [_ ?]%lookup_delete_Some. by eapply Hk. }
  destruct (spender_of_inputs a !! id) as [keys|] eqn:Hl.
  - destruct (cache_is_put_all keys (lru_put (KeyTx id) (spent_inputs s)) _ Ks
      ltac:(eassumption) ltac:(eassumption) (Hk _ _ Hl)) as (? & ? & Hcap');
      rewrite ?lru_cap_put in *; [done|].
    constructor; simpl; try done. by rewrite Hcap'.
  - constructor; simpl; try done. by rewrite lru_cap_put.
Qed.

Lemma sim_spend id ins s a :
  spent_sim s a → op_keys (OpSpend id ins) ⊆ Ks →
  spent_sim (spend_inputs id ins s) (spend_inputs id ins a).
Proof.
  simpl. intros [Hc Hcap Hs Hsp Ht Hk] Hid. apply sim_spend_by_id; [|set_solver].
  destruct (cache_is_put_all (input_keys ins) _ _ Ks Hc Hs) as (? & ? & Hcap'); [set_solver|done|].
  constructor; simpl; try done. by rewrite Hcap'.
Qed.

Lemma sim_maybe_spend id ins s a :
  spent_sim s a → op_keys (OpMaybeSpend id ins) ⊆ Ks →
  spent_sim (maybe_spend_inputs id ins s) (maybe_spend_inputs id ins a).
Proof.
  simpl. intros [Hc Hcap Hs Hsp Ht Hk] Hid.
  destruct (cache_is_put_all (input_keys ins) _ _ Ks Hc Hs) as (? & ? & Hcap'); [set_solver|done|].
  constructor; simpl; try done.
  - eapply cache_is_put; eauto; [set_solver|by rewrite Hcap'].
  - by rewrite lru_cap_put, Hcap'.
  - unfold set_put. set_solver.
  - by rewrite Hsp.
  - intros id' keys. rewrite lookup_insert. case_decide; [intros; simplify_eq; set_solver|apply Hk].
Qed.

(** Popping, with or without a recorded list of keys. *)
Lemma sim_pop id (o : option (list InputKey)) s a c' m :
  spent_sim s a →
  c' = (match o with Some keys => pop_all keys (lru_pop (KeyTx id) (spent_inputs s))
        | None => lru_pop (KeyTx id) (spent_inputs s) end) →
  spent_sim (Build_SpentInputs c' (delete id (spender_of_inputs s)) m)
    (Build_SpentInputs (match o with Some keys => pop_all keys (set_pop (KeyTx id) (spent_inputs a))
        | None => set_pop (KeyTx id) (spent_inputs a) end) (delete id (spender_of_inputs a)) m) ∧
  spent_sim (Build_SpentInputs c' (spender_of_inputs s) m)
    (Build_SpentInputs (match o with Some keys => pop_all keys (set_pop (KeyTx id) (spent_inputs a))
        | None => set_pop (KeyTx id) (spent_inputs a) end) (spender_of_inputs a) m).
Proof.
  intros [Hc Hcap Hs Hsp Ht Hk] ->.
  assert (cache_is (lru_pop (KeyTx id) (spent_inputs s)) (set_pop (KeyTx id) (spent_inputs a))) as Hc1
    by by apply cache_is_pop.
  assert (set_pop (KeyTx id) (spent_inputs a) ⊆ Ks) as Hs1 by (unfold set_pop; set_solver).
  assert (∀ id' keys, delete id (spender_of_inputs a) !! id' = Some keys → list_to_set keys ⊆ Ks).
  { intros id' keys [_ ?]%lookup_delete_Some. by eapply Hk. }
  destruct o as [keys|].
  - destruct (cache_is_pop_all keys _ _ Ks Hc1 Hs1) as (? & ? & Hcap').
    split; constructor; simpl; try done; try congruence; by rewrite Hcap', lru_cap_pop.
  - split; constructor; simpl; try done; try congruence; by rewrite lru_cap_pop.
Qed.

Lemma sim_step op s a :
  spent_sim s a → op_keys op ⊆ Ks → spent_sim (spent_step op s) (spent_step op a).
Proof.
  intros Hsim Hop. pose proof Hsim as [Hc Hcap Hs Hsp Ht Hk].
  destruct op; simpl in *.
  - by apply sim_maybe_spend.
  - by apply sim_spend.
  - apply sim_spend_by_id; [done|set_solver].
  - unfold move_spender_to_tentative. rewrite Hsp. destruct (spender_of_inputs a !! id); [|done].
    constructor; simpl; try done. by rewrite Ht.
  - unfold unspend_inputs. rewrite Hsp, Ht.
    destruct (sim_pop id (spender_of_inputs a !! id) s a _ (tentative_spent a) Hsim eq_refl)
      as [Hp _]. rewrite Hsp in Hp. exact Hp.
  - constructor; simpl; try done. by rewrite Ht.
  - constructor; simpl; try done. by rewrite Ht.
  - unfold unspend_preconfirmed. rewrite Ht.
    destruct (sim_pop id (tentative_spent a !! id) s a _ (delete id (tentative_spent a)) Hsim eq_refl)
      as [_ Hp]. exact Hp.
Qed.
End refinement.

(** While no more distinct keys are in play than the cache can hold, the
    LRU-backed [SpentInputs] answers every query exactly as a set of spent keys
    that never forgets would, through any interleaving of extraction, commit,
    skip, preconfirmation and rollback. *)
Theorem spent_inputs_refine_set {C} `{!LruCache C, !LruCacheSpec C}
    (capacity : nat) (ops : list SpentOp) (k : InputKey) :
  (size (⋃ (op_keys <$> ops)) ≤ capacity)%nat →
  is_spent k (spent_run ops (SpentInputs_new (C:=C) capacity)) =
  is_spent k (spent_run ops (SpentInputs_new (C:=gset InputKey) capacity)).
Proof.
  intros Hsize. set (Ks := ⋃ (op_keys <$> ops)) in *.
  assert (∀ op, op ∈ ops → op_keys op ⊆ Ks) as Hops.
  { intros op Hop k' Hk'. apply elem_of_union_list. exists (op_keys op).
    split; [by apply list_elem_of_fmap_2|done]. }
  assert (spent_sim Ks (SpentInputs_new (C:=C) capacity) (SpentInputs_new (C:=gset InputKey) capacity))
    as Hsim.
  { destruct (lru_new_keys (C:=C) capacity) as [Hk Hcap].
    constructor; simpl; [split; rewrite Hk; [constructor|set_solver]|lia|set_solver|done..]. }
  clearbody Ks. revert Hsim Hops. unfold spent_run.
  generalize (SpentInputs_new (C:=C) capacity) as s, (SpentInputs_new (C:=gset InputKey) capacity) as a.
  induction ops as [|op ops IH]; intros s a Hsim Hops; simpl.
  - apply cache_is_contains. by destruct Hsim.
  - apply IH; [|set_solver]. apply sim_step; set_solver.
Qed.

Definition example_coin : Input :=
  CoinSigned {| in_utxo_id := (7, 0); in_owner := 1; in_amount := 10; in_asset_id := 0 |}.

Lemma spent_inputs_refine_set_witness :
  is_spent (KeyUtxo (7, 0))
    (spent_run [OpMaybeSpend 1 [example_coin]; OpSpendById 1; OpUnspend 1]
       (SpentInputs_new (C:=ListLru) 5)) = true.
Proof.
  rewrite (spent_inputs_refine_set 5 [OpMaybeSpend 1 [example_coin]; OpSpendById 1; OpUnspend 1]);
    by vm_compute; lia.
Defined.

(** The life cycle of an extracted transaction.  A skipped transaction
    releases itself and all its inputs; once the spend is final, skipping
    releases nothing but the transaction id; a rolled back preconfirmation
    releases the inputs it had recorded; a confirmed one keeps them. *)
Theorem spent_inputs_life_cycle {C} `{!LruCache C, !LruCacheSpec C}
    (id : TxId) (ins : list Input) (s : SpentInputs C) (k : InputKey) :
  (k ∈ KeyTx id :: input_keys ins →
     is_spent k (unspend_inputs id (maybe_spend_inputs id ins s)) = false) ∧
  (k ≠ KeyTx id →
     is_spent k (unspend_inputs id (spend_inputs_by_tx_id id s)) =
     is_spent k (spend_inputs_by_tx_id id s)) ∧
  (k ∈ KeyTx id :: input_keys ins →
     is_spent k (unspend_preconfirmed id (spend_inputs id ins (record_tentative_spend id ins s)))
     = false) ∧
  (k ≠ KeyTx id →
     is_spent k (unspend_preconfirmed id (confirm_tentative_spend id s)) = is_spent k s).
Proof.
  unfold is_spent. repeat split; intros Hk; simpl.
  - rewrite lookup_insert_eq, lru_contains_pop_all, lru_contains_pop.
    apply elem_of_cons in Hk as [->|Hk]; [by rewrite (bool_decide_false (_ ≠ _)), andb_false_r by naive_solver|].
    by rewrite bool_decide_false by naive_solver.
  - rewrite lookup_delete_eq, lru_contains_pop. by rewrite bool_decide_true.
  - rewrite lookup_insert_eq, lru_contains_pop_all, lru_contains_pop.
    apply elem_of_cons in Hk as [->|Hk]; [by rewrite (bool_decide_false (_ ≠ _)), andb_false_r by naive_solver|].
    by rewrite bool_decide_false by naive_solver.
  - rewrite lookup_delete_eq, lru_contains_pop. by rewrite bool_decide_true.
Qed.

Lemma spent_inputs_life_cycle_witness :
  is_spent (KeyUtxo (7, 0))
    (unspend_inputs 1 (maybe_spend_inputs 1 [example_coin] (SpentInputs_new (C:=ListLru) 5))) = false.
Proof. apply (spent_inputs_life_cycle 1 [example_coin]). vm_compute. right. left. Defined.
