(* ===== verification/TxPoolExtracted.v ===== *)
(** * Outputs of extracted transactions

    Model of [ExtractedOutputs] (txpool_v2/src/extracted_outputs.rs): the coins
    and contracts created by transactions that left the pool for a block and are
    not settled in the database yet. *)

From stdpp Require Import prelude gmap list strings.
From Stdlib Require Import ZArith Lia.
From S2P Require Import Prelude.
From S2P Require Import TxTypes.
Local Open Scope Z_scope.

Record ExtractedOutputs := {
  contract_created : gmap ContractId TxId;
  contract_created_by_tx : gmap TxId (list ContractId);
  coins_created : gmap TxId (gmap Z (Address * Z * AssetId));
}.

Definition ExtractedOutputs_new : ExtractedOutputs :=
  {| contract_created := ∅; contract_created_by_tx := ∅; coins_created := ∅ |}.

(** [contract_created.insert(c, id)] and the push to the reverse mapping. *)
Definition add_contract (id : TxId) (c : ContractId) (eo : ExtractedOutputs) : ExtractedOutputs :=
  {| contract_created := <[c := id]> (contract_created eo);
     contract_created_by_tx :=
       <[id := unwrap_or (contract_created_by_tx eo !! id) [] ++ [c]]> (contract_created_by_tx eo);
     coins_created := coins_created eo |}.

(** [coins_created.entry(id).or_default().insert(index, coin)]. *)
Definition add_coin (id : TxId) (index : Z) (coin : Address * Z * AssetId)
    (eo : ExtractedOutputs) : ExtractedOutputs :=
  {| contract_created := contract_created eo;
     contract_created_by_tx := contract_created_by_tx eo;
     coins_created :=
       <[id := <[index := coin]> (unwrap_or (coins_created eo !! id) ∅)]> (coins_created eo) |}.

(** [coins_created.entry(id).and_modify(|coins| coins.remove(index))]. *)
Definition remove_coin (u : UtxoId) (eo : ExtractedOutputs) : ExtractedOutputs :=
  {| contract_created := contract_created eo;
     contract_created_by_tx := contract_created_by_tx eo;
     coins_created := alter (delete u.2) u.1 (coins_created eo) |}.

Definition new_extracted_output (eo : ExtractedOutputs) (p : UtxoId * Output) : ExtractedOutputs :=
  let '(utxo_id, output) := p in
  match output with
  | OutputContractCreated contract_id => add_contract utxo_id.1 contract_id eo
  | OutputCoin to amount asset_id
  | OutputChange to amount asset_id
  | OutputVariable to amount asset_id => add_coin utxo_id.1 utxo_id.2 (to, amount, asset_id) eo
  | OutputContract => eo
  end.

Definition new_extracted_outputs (outs : list (UtxoId * Output)) (eo : ExtractedOutputs) :
    ExtractedOutputs :=
  foldl new_extracted_output eo outs.

(** One output of [new_extracted_transaction]: change and variable outputs are
    not known before execution. *)
Definition extract_output (id : TxId) (eo : ExtractedOutputs) (p : nat * Output) :
    ExtractedOutputs :=
  match p.2 with
  | OutputContractCreated contract_id => add_contract id contract_id eo
  | OutputCoin to amount asset_id => add_coin id (Z.of_nat p.1) (to, amount, asset_id) eo
  | OutputContract | OutputChange _ _ _ | OutputVariable _ _ _ => eo
  end.

Definition extract_input (eo : ExtractedOutputs) (i : Input) : ExtractedOutputs :=
  match i with
  | CoinSigned c | CoinPredicate c => remove_coin (in_utxo_id c) eo
  | InputContract _ | MessageCoinPredicate _ | MessageCoinSigned _
  | MessageDataPredicate _ _ | MessageDataSigned _ _ => eo
  end.

Definition new_extracted_transaction (tx : PoolTransaction) (eo : ExtractedOutputs) :
    ExtractedOutputs :=
  let eo := foldl (extract_output (tx_id tx)) eo (imap pair (outputs tx)) in
  foldl extract_input eo (inputs tx).

Definition contracts_created_by (id : TxId) (eo : ExtractedOutputs) : list ContractId :=
  unwrap_or (contract_created_by_tx eo !! id) [].

Definition new_executed_transaction (id : TxId) (eo : ExtractedOutputs) : ExtractedOutputs :=
  {| contract_created :=
       foldl (λ m c, delete c m) (contract_created eo) (contracts_created_by id eo);
     contract_created_by_tx := delete id (contract_created_by_tx eo);
     coins_created := delete id (coins_created eo) |}.

Definition new_skipped_transaction (id : TxId) (eo : ExtractedOutputs) : ExtractedOutputs :=
  new_executed_transaction id eo.

Definition contract_exists (c : ContractId) (eo : ExtractedOutputs) : bool :=
  bool_decide (is_Some (contract_created eo !! c)).

Definition coin_exists (u : UtxoId) (owner : Address) (amount : Z) (asset_id : AssetId)
    (eo : ExtractedOutputs) : bool :=
  match coins_created eo !! u.1 with
  | Some coins =>
      match coins !! u.2 with
      | Some (a, am, asid) =>
          bool_decide (a = owner) && bool_decide (am = amount) && bool_decide (asid = asset_id)
      | None => false
      end
  | None => false
  end.

(** ** The coins as one map from UTXO ids *)

Definition coin_at (eo : ExtractedOutputs) (u : UtxoId) : option (Address * Z * AssetId) :=
  coins_created eo !! u.1 ≫= lookup u.2.

Lemma coin_exists_at u owner amount asset_id eo :
  coin_exists u owner amount asset_id eo = true ↔ coin_at eo u = Some (owner, amount, asset_id).
Proof.
  unfold coin_exists, coin_at. destruct (coins_created eo !! u.1) as [m|]; simpl; [|done].
  destruct (m !! u.2) as [[[]]|]; [|done].
  rewrite !andb_true_iff, !bool_decide_eq_true. naive_solver.
Qed.

Lemma coin_at_add id i x eo u :
  coin_at (add_coin id i x eo) u = if decide (u = (id, i)) then Some x else coin_at eo u.
Proof.
  destruct u as [uid ui]. unfold coin_at. simpl.
  destruct (decide (uid = id)) as [->|].
  - rewrite lookup_insert_eq. simpl. destruct (decide (ui = i)) as [->|].
    + rewrite decide_True by done. by rewrite lookup_insert_eq.
    + rewrite decide_False by congruence. rewrite lookup_insert_ne by done.
      by destruct (coins_created eo !! id).
  - rewrite lookup_insert_ne by done. by rewrite decide_False by congruence.
Qed.

Lemma coin_at_remove v eo u :
  coin_at (remove_coin v eo) u = if decide (u = v) then None else coin_at eo u.
Proof.
  destruct u as [uid ui], v as [vid vi]. unfold coin_at. simpl. rewrite lookup_alter.
  destruct (decide (vid = uid)) as [->|]; [|by rewrite decide_False by congruence].
  destruct (coins_created eo !! uid) as [m|]; simpl; [|by case_decide].
  rewrite lookup_delete. repeat case_decide; congruence.
Qed.

Lemma coin_at_contract id c eo u : coin_at (add_contract id c eo) u = coin_at eo u.
Proof. done. Qed.

(** The coin outputs of a transaction, by UTXO id. *)
Definition output_coin (o : Output) : option (Address * Z * AssetId) :=
  match o with OutputCoin to amount asset_id => Some (to, amount, asset_id) | _ => None end.

Definition tx_coin_at (outs : list Output) (id : TxId) (u : UtxoId) :
    option (Address * Z * AssetId) :=
  if decide (u.1 = id ∧ 0 ≤ u.2) then outs !! Z.to_nat u.2 ≫= output_coin else None.

Lemma coin_at_extract_output id eo n o u :
  coin_at (extract_output id eo (n, o)) u =
  if decide (u = (id, Z.of_nat n)) then
    match output_coin o with Some x => Some x | None => coin_at eo u end
  else coin_at eo u.
Proof.
  unfold extract_output; simpl. destruct o; simpl; try by case_decide.
  by rewrite coin_at_add.
Qed.

Lemma coin_at_extract_outputs id outs eo u n :
  coin_at (foldl (extract_output id) eo (imap (λ i o, ((n + i)%nat, o)) outs)) u =
  match (if decide (u.1 = id ∧ Z.of_nat n ≤ u.2)
         then outs !! (Z.to_nat u.2 - n)%nat ≫= output_coin else None) with
  | Some x => Some x
  | None => coin_at eo u
  end.
Proof.
  revert eo n. induction outs as [|o outs IH]; intros eo n; simpl.
  { by case_decide. }
  rewrite Nat.add_0_r.
  rewrite (imap_ext _ (λ i o, ((S n + i)%nat, o))) by (intros; simpl; f_equal; lia).
  rewrite IH, coin_at_extract_output. destruct u as [uid ui]; simpl.
  destruct (decide (uid = id)) as [->|].
  2:{ rewrite !decide_False by naive_solver. done. }
  destruct (decide (ui = Z.of_nat n)) as [->|].
  - rewrite (decide_True (P:=(id, _) = _)) by done. rewrite decide_False by lia.
    rewrite decide_True by lia. by rewrite Nat2Z.id, Nat.sub_diag.
  - rewrite (decide_False (P:=(id, ui) = _)) by congruence.
    destruct (decide (Z.of_nat n ≤ ui)).
    + rewrite !decide_True by lia.
      by replace (Z.to_nat ui - n)%nat with (S (Z.to_nat ui - S n)) by lia.
    + by rewrite !decide_False by lia.
Qed.

Lemma coin_at_extract_inputs ins eo u :
  coin_at (foldl extract_input eo ins) u =
  if decide (u ∈ coin_ids ins) then None else coin_at eo u.
Proof.
  revert eo. induction ins as [|i ins IH]; intros eo.
  { rewrite decide_False; [done|]. unfold coin_ids. set_solver. }
  cbn [foldl]. rewrite IH.
  destruct i; simpl; rewrite ?coin_at_remove; unfold coin_ids; cbn;
    repeat case_decide; set_solver.
Qed.

(** A coin is offered to later transactions exactly when it is a coin
    output of the extracted transaction, or was offered before, and the
    transaction itself does not spend it; when the transaction is settled or
    skipped, all coins and contracts it created are withdrawn and the coins of
    the others are kept. *)
Theorem extracted_coins_exact (tx : PoolTransaction) (eo : ExtractedOutputs) (u : UtxoId)
    (owner : Address) (amount : Z) (asset_id : AssetId) :
  (coin_exists u owner amount asset_id (new_extracted_transaction tx eo) = true ↔
     u ∉ coin_ids (inputs tx) ∧
     match tx_coin_at (outputs tx) (tx_id tx) u with
     | Some coin => coin = (owner, amount, asset_id)
     | None => coin_exists u owner amount asset_id eo = true
     end) ∧
  (∀ id, coin_exists u owner amount asset_id (new_executed_transaction id eo) = true ↔
     u.1 ≠ id ∧ coin_exists u owner amount asset_id eo = true) ∧
  (∀ id c, c ∈ contracts_created_by id eo →
     contract_exists c (new_executed_transaction id eo) = false).
Proof.
  split; [|split].
  - rewrite !coin_exists_at. unfold new_extracted_transaction.
    rewrite coin_at_extract_inputs, (coin_at_extract_outputs _ _ _ _ 0).
    unfold tx_coin_at. rewrite Nat.sub_0_r. change (Z.of_nat 0) with 0.
    destruct (decide (u ∈ coin_ids (inputs tx))) as [?|?]; [naive_solver|].
    destruct (if decide (u.1 = tx_id tx ∧ 0 ≤ u.2) then _ else None);
      [|rewrite coin_exists_at]; naive_solver.
  - intros id. rewrite !coin_exists_at. unfold coin_at; simpl. rewrite lookup_delete.
    case_decide; naive_solver.
  - intros id c Hc. unfold contract_exists. apply bool_decide_eq_false_2.
    simpl. rewrite lookup_foldl_delete, decide_True by done. apply is_Some_None.
Qed.
