(* ===== verification/TxPoolTypes.v ===== *)
(** * Errors, configuration and stored data of the transaction pool

    Model of txpool_v2/src/error.rs, config.rs, storage/mod.rs and of the
    [MissingInput] type of pending_pool.rs.  Error messages that only carry
    formatted text are strings. *)

From stdpp Require Import prelude gmap list strings.
From Stdlib Require Import ZArith Lia.
From S2P Require Import Prelude.
From S2P Require Import TxTypes.
Local Open Scope Z_scope.

(** ** Errors *)

Inductive RemovedReason := LessWorth (id : TxId) | Ttl.

Inductive BlacklistedError :=
| BlacklistedUTXO (u : UtxoId)
| BlacklistedOwner (a : Address)
| BlacklistedContract (c : ContractId)
| BlacklistedMessage (n : Nonce).

Inductive DependencyError :=
| NotInsertedCollisionIsDependency
| NotInsertedChainDependencyTooBig
| DependentTransactionIsADiamondDeath
| NotInsertedDependentOnBlob.

Inductive InputValidationError :=
| NotInsertedIoWrongOwner
| NotInsertedIoWrongAmount
| NotInsertedIoWrongAssetId
| NotInsertedIoMessageMismatch
| NotInsertedIoContractOutput
| NotInsertedInputMessageUnknown (n : Nonce)
| NotInsertedInputDependentOnChangeOrVariable
| NotInsertedInputContractDoesNotExist (c : ContractId)
| NotInsertedBlobIdAlreadyTaken (b : BlobId)
| NotInsertedIoCoinMismatch
| WrongOutputNumber (msg : string)
| UtxoNotFound (u : UtxoId)
| MaxGasZero
| DuplicateTxId (id : TxId).

Inductive CollisionReason :=
| CollisionUtxo (u : UtxoId)
| CollisionContractCreation (c : ContractId)
| CollisionBlob (b : BlobId)
| CollisionMessage (n : Nonce)
| CollisionUnknown
| MultipleCollisions.

Inductive Error :=
| ErrDatabase (msg : string)
| ErrStorage (msg : string)
| ErrBlacklisted (e : BlacklistedError)
| ErrCollided (r : CollisionReason)
| ErrInputValidation (e : InputValidationError)
| ErrDependency (e : DependencyError)
| ErrConsensusValidity (msg : string)
| ErrWasmValidity (msg : string)
| MintIsDisallowed
| NotInsertedLimitHit
| ErrRemoved (r : RemovedReason)
| SkippedTransaction (msg : string)
| TooManyQueuedTransactions
| ServiceCommunicationFailed
| ServiceQueueFull
| InsufficientMaxFee (max_gas_price_from_fee minimal_gas_price : Z)
| MessageInputWasAlreadySpent (n : Nonce)
| UtxoInputWasAlreadySpent (u : UtxoId).

Inductive MissingInput :=
| MissingUtxo (u : UtxoId)
| MissingContract (c : ContractId).

#[global] Instance MissingInput_eq_dec : EqDecision MissingInput.
Proof. solve_decision. Defined.
#[global] Instance MissingInput_countable : Countable MissingInput.
Proof.
  refine (inj_countable'
    (λ k, match k with MissingUtxo u => inl u | MissingContract c => inr c end)
    (λ s, match s with inl u => MissingUtxo u | inr c => MissingContract c end) _); by intros [].
Defined.

Definition missing_input_error (m : MissingInput) : Error :=
  match m with
  | MissingUtxo utxo => ErrInputValidation (UtxoNotFound utxo)
  | MissingContract contract => ErrInputValidation (NotInsertedInputContractDoesNotExist contract)
  end.

Inductive InputValidationErrorType :=
| Inconsistency (e : Error)
| ValidationMissingInputs (l : list MissingInput).

Inductive InsertionErrorType :=
| InsertionError (e : Error)
| InsertionMissingInputs (l : list MissingInput).

(** [From<InputValidationErrorType> for InsertionErrorType]. *)
Definition insertion_error_of (e : InputValidationErrorType) : InsertionErrorType :=
  match e with
  | Inconsistency e => InsertionError e
  | ValidationMissingInputs e => InsertionMissingInputs e
  end.

(** ** Configuration *)

Record BlackList := {
  bl_owners : gset Address;
  bl_coins : gset UtxoId;
  bl_messages : gset Nonce;
  bl_contracts : gset ContractId;
}.

Definition BlackList_new (owners : list Address) (utxo_ids : list UtxoId)
    (messages : list Nonce) (contracts : list ContractId) : BlackList :=
  {| bl_owners := list_to_set owners; bl_coins := list_to_set utxo_ids;
     bl_messages := list_to_set messages; bl_contracts := list_to_set contracts |}.

(** The body of the loop of [check_blacklisting]. *)
Definition check_input_blacklisting (bl : BlackList) (i : Input) : result unit BlacklistedError :=
  match i with
  | CoinSigned c | CoinPredicate c =>
      if decide (in_utxo_id c ∈ bl_coins bl) then Err (BlacklistedUTXO (in_utxo_id c))
      else if decide (in_owner c ∈ bl_owners bl) then Err (BlacklistedOwner (in_owner c))
      else Ok ()
  | InputContract contract_id =>
      if decide (contract_id ∈ bl_contracts bl) then Err (BlacklistedContract contract_id)
      else Ok ()
  | MessageCoinSigned m | MessageCoinPredicate m
  | MessageDataSigned m _ | MessageDataPredicate m _ =>
      if decide (in_nonce m ∈ bl_messages bl) then Err (BlacklistedMessage (in_nonce m))
      else if decide (in_sender m ∈ bl_owners bl) then Err (BlacklistedOwner (in_sender m))
      else if decide (in_recipient m ∈ bl_owners bl) then Err (BlacklistedOwner (in_recipient m))
      else Ok ()
  end.

Definition check_blacklisting (bl : BlackList) (tx : PoolTransaction) :
    result unit BlacklistedError :=
  try_fold (λ _ i, check_input_blacklisting bl i) () (inputs tx).

Record PoolLimits := {
  max_txs : Z;
  limit_max_gas : Z;
  max_bytes_size : Z;
}.

(** The fields of [Config] that [Pool] reads. *)
Record PoolConfig := {
  utxo_validation : bool;
  max_txs_chain_count : Z;
  pool_limits : PoolLimits;
  black_list : BlackList;
  pending_pool_tx_ttl : Z;
  max_pending_pool_size_percentage : Z;
}.

(** ** Stored transactions *)

Record StorageData := {
  transaction : PoolTransaction;
  dependents_cumulative_tip : Z;
  dependents_cumulative_gas : Z;
  dependents_cumulative_bytes_size : Z;
  number_dependents_in_chain : Z;
  creation_instant : Z;
}.

(** The reads of the database the pool makes ([TxPoolPersistentStorage] of
    txpool_v2/src/ports.rs); every one can fail with a storage error. *)
Record TxPoolPersistentStorage := {
  ps_contains_tx : TxId → result bool string;
  ps_utxo : UtxoId → result (option CompressedCoin) string;
  ps_contract_exist : ContractId → result bool string;
  ps_blob_exist : BlobId → result bool string;
  ps_message : Nonce → result (option Message) string;
}.

(** A transaction is accepted by the blacklist when none of its inputs is. *)
Lemma check_blacklisting_ok bl tx :
  check_blacklisting bl tx = Ok () ↔
  Forall (λ i, check_input_blacklisting bl i = Ok ()) (inputs tx).
Proof.
  unfold check_blacklisting. induction (inputs tx) as [|i l IH]; simpl; [done|].
  rewrite Forall_cons. destruct (check_input_blacklisting bl i) as [[]|]; simpl; naive_solver.
Qed.
