(* ===== verification/TxPoolCollision.v ===== *)
(** * Collisions between pool transactions

    Model of [BasicCollisionManager] (txpool_v2/src/collision_manager/basic.rs):
    who spends each coin and message, who creates each contract and blob, and
    which transactions use each contract.  The storage index is any countable
    type with decidable equality. *)

From stdpp Require Import prelude gmap list strings sorting.
From Stdlib Require Import ZArith Lia.
From S2P Require Import Prelude.
From S2P Require Import TxTypes.
From S2P Require Import TxPoolTypes.
Local Open Scope Z_scope.

(** Key order among the coins of one creator. *)
Definition output_index_le {A} (x y : UtxoId * A) : Prop := x.1.2 ≤ y.1.2.
#[global] Instance output_index_le_dec {A} : RelDecision (output_index_le (A:=A)).
Proof. intros x y. unfold output_index_le. apply _. Defined.

Section collision.
Context {Idx : Type} `{Countable Idx}.

Record BasicCollisionManager := {
  messages_spenders : gmap Nonce Idx;
  coins_spenders : gmap UtxoId Idx;
  contracts_creators : gmap ContractId Idx;
  contract_users : gmap ContractId (list TxId);
  blobs_users : gmap BlobId Idx;
}.

Definition CollisionManager_new : BasicCollisionManager :=
  {| messages_spenders := ∅; coins_spenders := ∅; contracts_creators := ∅;
     contract_users := ∅; blobs_users := ∅ |}.

(** ** Queries *)

(** [coins_spenders.range((id, 0)..(id, u16::MAX))], in key order. *)
Definition get_coins_spenders (cm : BasicCollisionManager) (creator : TxId) : list Idx :=
  let in_range := filter (λ p : UtxoId * Idx, p.1.1 = creator ∧ 0 ≤ p.1.2 < U16)
                    (map_to_list (coins_spenders cm)) in
  snd <$> merge_sort output_index_le in_range.

Definition get_contract_users (cm : BasicCollisionManager) (c : ContractId) : list TxId :=
  unwrap_or (contract_users cm !! c) [].

Definition contract_created_in_pool (cm : BasicCollisionManager) (c : ContractId) : bool :=
  bool_decide (is_Some (contracts_creators cm !! c)).

(** [collisions.entry(id).or_default().push(reason)] when the resource is taken. *)
Definition push_collision (o : option Idx) (r : CollisionReason)
    (cols : gmap Idx (list CollisionReason)) : gmap Idx (list CollisionReason) :=
  match o with
  | Some storage_id => <[storage_id := unwrap_or (cols !! storage_id) [] ++ [r]]> cols
  | None => cols
  end.

Definition collide_input (cm : BasicCollisionManager)
    (cols : gmap Idx (list CollisionReason)) (i : Input) : gmap Idx (list CollisionReason) :=
  match i with
  | CoinSigned c | CoinPredicate c =>
      push_collision (coins_spenders cm !! in_utxo_id c) (CollisionUtxo (in_utxo_id c)) cols
  | MessageCoinSigned m | MessageCoinPredicate m
  | MessageDataSigned m _ | MessageDataPredicate m _ =>
      push_collision (messages_spenders cm !! in_nonce m) (CollisionMessage (in_nonce m)) cols
  | InputContract _ => cols
  end.

Definition collide_output (cm : BasicCollisionManager) (id : TxId)
    (cols : gmap Idx (list CollisionReason)) (p : nat * Output) :
    result (gmap Idx (list CollisionReason)) Error :=
  match p.2 with
  | OutputContractCreated contract_id =>
      Ok (push_collision (contracts_creators cm !! contract_id)
            (CollisionContractCreation contract_id) cols)
  | OutputCoin _ _ _ | OutputChange _ _ _ | OutputVariable _ _ _ =>
      if decide (is_Some (coins_spenders cm !! (id, Z.of_nat p.1)))
      then Err (ErrInputValidation (DuplicateTxId id))
      else Ok cols
  | OutputContract => Ok cols
  end.

Definition find_collisions (cm : BasicCollisionManager) (tx : PoolTransaction) :
    result (gmap Idx (list CollisionReason)) Error :=
  let cols :=
    match pool_blob_id tx with
    | Some blob_id =>
        match blobs_users cm !! blob_id with
        | Some state => {[state := [CollisionBlob blob_id]]}
        | None => ∅
        end
    | None => ∅
    end in
  let cols := foldl (collide_input cm) cols (inputs tx) in
  try_fold (collide_output cm (tx_id tx)) cols (imap pair (outputs tx)).

(** ** Updates *)

Definition set_coins_spenders (m : gmap UtxoId Idx) (cm : BasicCollisionManager) :=
  {| messages_spenders := messages_spenders cm; coins_spenders := m;
     contracts_creators := contracts_creators cm; contract_users := contract_users cm;
     blobs_users := blobs_users cm |}.
Definition set_messages_spenders (m : gmap Nonce Idx) (cm : BasicCollisionManager) :=
  {| messages_spenders := m; coins_spenders := coins_spenders cm;
     contracts_creators := contracts_creators cm; contract_users := contract_users cm;
     blobs_users := blobs_users cm |}.
Definition set_contracts_creators (m : gmap ContractId Idx) (cm : BasicCollisionManager) :=
  {| messages_spenders := messages_spenders cm; coins_spenders := coins_spenders cm;
     contracts_creators := m; contract_users := contract_users cm;
     blobs_users := blobs_users cm |}.
Definition set_contract_users (m : gmap ContractId (list TxId)) (cm : BasicCollisionManager) :=
  {| messages_spenders := messages_spenders cm; coins_spenders := coins_spenders cm;
     contracts_creators := contracts_creators cm; contract_users := m;
     blobs_users := blobs_users cm |}.
Definition set_blobs_users (m : gmap BlobId Idx) (cm : BasicCollisionManager) :=
  {| messages_spenders := messages_spenders cm; coins_spenders := coins_spenders cm;
     contracts_creators := contracts_creators cm; contract_users := contract_users cm;
     blobs_users := m |}.

Definition store_input (storage_id : Idx) (id : TxId) (cm : BasicCollisionManager) (i : Input) :
    BasicCollisionManager :=
  match i with
  | CoinSigned c | CoinPredicate c =>
      set_coins_spenders (<[in_utxo_id c := storage_id]> (coins_spenders cm)) cm
  | MessageCoinSigned m | MessageCoinPredicate m
  | MessageDataSigned m _ | MessageDataPredicate m _ =>
      set_messages_spenders (<[in_nonce m := storage_id]> (messages_spenders cm)) cm
  | InputContract contract_id =>
      set_contract_users
        (<[contract_id := get_contract_users cm contract_id ++ [id]]> (contract_users cm)) cm
  end.

Definition store_output (storage_id : Idx) (cm : BasicCollisionManager) (o : Output) :
    BasicCollisionManager :=
  match o with
  | OutputCoin _ _ _ | OutputChange _ _ _ | OutputVariable _ _ _ | OutputContract => cm
  | OutputContractCreated contract_id =>
      set_contracts_creators (<[contract_id := storage_id]> (contracts_creators cm)) cm
  end.

Definition on_stored_transaction (storage_id : Idx) (store_entry : StorageData)
    (cm : BasicCollisionManager) : BasicCollisionManager :=
  let tx := transaction store_entry in
  let cm := match pool_blob_id tx with
            | Some blob_id => set_blobs_users (<[blob_id := storage_id]> (blobs_users cm)) cm
            | None => cm
            end in
  let cm := foldl (store_input storage_id (tx_id tx)) cm (inputs tx) in
  foldl (store_output storage_id) cm (outputs tx).

Definition remove_input (id : TxId) (cm : BasicCollisionManager) (i : Input) :
    BasicCollisionManager :=
  match i with
  | CoinSigned c | CoinPredicate c =>
      set_coins_spenders (delete (in_utxo_id c) (coins_spenders cm)) cm
  | MessageCoinSigned m | MessageCoinPredicate m
  | MessageDataSigned m _ | MessageDataPredicate m _ =>
      set_messages_spenders (delete (in_nonce m) (messages_spenders cm)) cm
  | InputContract contract_id =>
      match contract_users cm !! contract_id with
      | Some users =>
          let users := filter (λ user, user ≠ id) users in
          if decide (users = [])
          then set_contract_users (delete contract_id (contract_users cm)) cm
          else set_contract_users (<[contract_id := users]> (contract_users cm)) cm
      | None => cm
      end
  end.

Definition remove_output (cm : BasicCollisionManager) (o : Output) : BasicCollisionManager :=
  match o with
  | OutputCoin _ _ _ | OutputChange _ _ _ | OutputVariable _ _ _ | OutputContract => cm
  | OutputContractCreated contract_id =>
      set_contracts_creators (delete contract_id (contracts_creators cm)) cm
  end.

Definition on_removed_transaction (tx : PoolTransaction) (cm : BasicCollisionManager) :
    BasicCollisionManager :=
  let cm := match pool_blob_id tx with
            | Some blob_id => set_blobs_users (delete blob_id (blobs_users cm)) cm
            | None => cm
            end in
  let cm := foldl (remove_input (tx_id tx)) cm (inputs tx) in
  foldl remove_output cm (outputs tx).
End collision.
Arguments BasicCollisionManager : clear implicits.

(** [Collisions<StorageIndex>] of collision_manager/mod.rs. *)
Abbreviation Collisions Idx := (gmap Idx (list CollisionReason)) (only parsing).

(** ** Integrity: the manager mirrors the transactions in the pool *)

(** Two transactions that cannot both be in the pool. *)
Definition conflicts (tx tx' : PoolTransaction) : Prop :=
  (∃ u, u ∈ coin_ids (inputs tx) ∧ u ∈ coin_ids (inputs tx')) ∨
  (∃ n, n ∈ message_ids (inputs tx) ∧ n ∈ message_ids (inputs tx')) ∨
  (∃ c, c ∈ created_contracts (outputs tx) ∧ c ∈ created_contracts (outputs tx')) ∨
  (∃ b, pool_blob_id tx = Some b ∧ pool_blob_id tx' = Some b).

Section integrity.
Context {Idx : Type} `{Countable Idx}.
Implicit Types (cm : BasicCollisionManager Idx) (txs : gmap Idx PoolTransaction).

Record cm_ok (cm : BasicCollisionManager Idx) (txs : gmap Idx PoolTransaction) : Prop := {
  cm_coins u i : coins_spenders cm !! u = Some i ↔
    ∃ tx, txs !! i = Some tx ∧ u ∈ coin_ids (inputs tx);
  cm_messages n i : messages_spenders cm !! n = Some i ↔
    ∃ tx, txs !! i = Some tx ∧ n ∈ message_ids (inputs tx);
  cm_contracts c i : contracts_creators cm !! c = Some i ↔
    ∃ tx, txs !! i = Some tx ∧ c ∈ created_contracts (outputs tx);
  cm_blobs b i : blobs_users cm !! b = Some i ↔
    ∃ tx, txs !! i = Some tx ∧ pool_blob_id tx = Some b;
  cm_users c x : x ∈ get_contract_users cm c ↔
    ∃ i tx, txs !! i = Some tx ∧ tx_id tx = x ∧ c ∈ contract_ids (inputs tx);
  cm_users_ne c : contract_users cm !! c ≠ Some [];
}.

(** Transaction ids identify the entries. *)
Definition ids_unique txs : Prop :=
  ∀ i j tx tx', txs !! i = Some tx → txs !! j = Some tx' → tx_id tx = tx_id tx' → i = j.

(** *** The loops, projection by projection *)

Lemma store_inputs_coins sid id ins cm u :
  coins_spenders (foldl (store_input sid id) cm ins) !! u =
  if decide (u ∈ coin_ids ins) then Some sid else coins_spenders cm !! u.
Proof.
  revert cm. induction ins as [|i ins IH]; intros cm.
  { rewrite decide_False; [done|]. unfold coin_ids. set_solver. }
  cbn [foldl]. rewrite IH. destruct i; unfold coin_ids; cbn; rewrite ?lookup_insert;
    repeat case_decide; set_solver.
Qed.

Lemma store_inputs_messages sid id ins cm n :
  messages_spenders (foldl (store_input sid id) cm ins) !! n =
  if decide (n ∈ message_ids ins) then Some sid else messages_spenders cm !! n.
Proof.
  revert cm. induction ins as [|i ins IH]; intros cm.
  { rewrite decide_False; [done|]. unfold message_ids. set_solver. }
  cbn [foldl]. rewrite IH. destruct i; unfold message_ids; cbn; rewrite ?lookup_insert;
    repeat case_decide; set_solver.
Qed.

Lemma store_inputs_other sid id ins cm :
  contracts_creators (foldl (store_input sid id) cm ins) = contracts_creators cm ∧
  blobs_users (foldl (store_input sid id) cm ins) = blobs_users cm.
Proof.
  revert cm. induction ins as [|i ins IH]; intros cm; [done|].
  cbn [foldl]. destruct (IH (store_input sid id cm i)) as [-> ->]. by destruct i.
Qed.

Lemma users_insert m c' l c cm :
  contract_users cm = <[c' := l]> m →
  get_contract_users cm c = if decide (c = c') then l else unwrap_or (m !! c) [].
Proof.
  unfold get_contract_users. intros ->. rewrite lookup_insert.
  repeat case_decide; by simplify_eq.
Qed.

Lemma store_inputs_users sid id ins cm c x :
  x ∈ get_contract_users (foldl (store_input sid id) cm ins) c ↔
  x ∈ get_contract_users cm c ∨ (x = id ∧ c ∈ contract_ids ins).
Proof.
  revert cm. induction ins as [|i ins IH]; intros cm.
  { unfold contract_ids. set_solver. }
  cbn [foldl]. rewrite IH. destruct i; unfold contract_ids; cbn; try done.
  rewrite (users_insert (contract_users cm) contract_id _ c) by done.
  case_decide; [subst|]; rewrite ?elem_of_app; set_solver.
Qed.

Lemma store_inputs_users_ne sid id ins cm c :
  (∀ c, contract_users cm !! c ≠ Some []) →
  contract_users (foldl (store_input sid id) cm ins) !! c ≠ Some [].
Proof.
  revert cm c. induction ins as [|i ins IH]; intros cm c Hne; [apply Hne|].
  cbn [foldl]. apply IH. intros c'. destruct i; try apply Hne. cbn.
  rewrite lookup_insert. case_decide; [|apply Hne]. intros [= []%app_nil]; done.
Qed.

Lemma store_outputs_all sid outs cm :
  let cm' := foldl (store_output sid) cm outs in
  (∀ c, contracts_creators cm' !! c =
     if decide (c ∈ created_contracts outs) then Some sid else contracts_creators cm !! c) ∧
  coins_spenders cm' = coins_spenders cm ∧ messages_spenders cm' = messages_spenders cm ∧
  contract_users cm' = contract_users cm ∧ blobs_users cm' = blobs_users cm.
Proof.
  revert cm. induction outs as [|o outs IH]; intros cm cm'; subst cm'.
  { split; [|done]. intros c. rewrite decide_False; [done|]. set_solver. }
  cbn [foldl]. destruct (IH (store_output sid cm o)) as (Hc & -> & -> & -> & ->).
  split; [|by destruct o]. intros c. rewrite Hc.
  destruct o; cbn; rewrite ?lookup_insert; repeat case_decide; set_solver.
Qed.

Lemma remove_inputs_coins id ins cm u :
  coins_spenders (foldl (remove_input id) cm ins) !! u =
  if decide (u ∈ coin_ids ins) then None else coins_spenders cm !! u.
Proof.
  revert cm. induction ins as [|i ins IH]; intros cm.
  { rewrite decide_False; [done|]. unfold coin_ids. set_solver. }
  cbn [foldl]. rewrite IH.
  destruct i; unfold coin_ids; cbn; rewrite ?lookup_delete;
    [..|destruct (contract_users cm !! _); [case_decide|]| | | |];
    repeat case_decide; set_solver.
Qed.

Lemma remove_inputs_messages id ins cm n :
  messages_spenders (foldl (remove_input id) cm ins) !! n =
  if decide (n ∈ message_ids ins) then None else messages_spenders cm !! n.
Proof.
  revert cm. induction ins as [|i ins IH]; intros cm.
  { rewrite decide_False; [done|]. unfold message_ids. set_solver. }
  cbn [foldl]. rewrite IH.
  destruct i; unfold message_ids; cbn; rewrite ?lookup_delete;
    [..|destruct (contract_users cm !! _); [case_decide|]| | | |];
    repeat case_decide; set_solver.
Qed.

Lemma remove_inputs_other id ins cm :
  contracts_creators (foldl (remove_input id) cm ins) = contracts_creators cm ∧
  blobs_users (foldl (remove_input id) cm ins) = blobs_users cm.
Proof.
  revert cm. induction ins as [|i ins IH]; intros cm; [done|].
  cbn [foldl]. destruct (IH (remove_input id cm i)) as [-> ->].
  destruct i; try done. cbn. destruct (contract_users cm !! _); [case_decide|]; done.
Qed.

Lemma remove_input_users id i cm c x :
  x ∈ get_contract_users (remove_input id cm i) c ↔
  x ∈ get_contract_users cm c ∧ ¬ (x = id ∧ input_contract i = Some c).
Proof.
  destruct i as [| |c'| | | |]; cbn; try naive_solver.
  destruct (decide (c = c')) as [->|Hne].
  - unfold get_contract_users. destruct (contract_users cm !! c') as [us|] eqn:Hc; cbn.
    + case_decide as Hnil; cbn.
      * rewrite lookup_delete_eq. cbn. assert (x ∉ filter (λ u, u ≠ id) us) as Hx
          by (rewrite Hnil; apply not_elem_of_nil).
        rewrite list_elem_of_filter in Hx.
        split; [by intros ?%not_elem_of_nil|]. destruct (decide (x = id)); naive_solver.
      * rewrite lookup_insert_eq. cbn. rewrite list_elem_of_filter. naive_solver.
    + rewrite Hc. cbn. split; [by intros ?%not_elem_of_nil|tauto].
  - unfold get_contract_users. destruct (contract_users cm !! c') as [us|]; [|naive_solver].
    case_decide; cbn; [rewrite lookup_delete_ne by done|rewrite lookup_insert_ne by done];
      naive_solver.
Qed.

Lemma remove_inputs_users id ins cm c x :
  x ∈ get_contract_users (foldl (remove_input id) cm ins) c ↔
  x ∈ get_contract_users cm c ∧ ¬ (x = id ∧ c ∈ contract_ids ins).
Proof.
  revert cm. induction ins as [|i ins IH]; intros cm; [unfold contract_ids; set_solver|].
  cbn [foldl]. rewrite IH, remove_input_users. unfold contract_ids; cbn.
  destruct (input_contract i) eqn:Hi; cbn; [rewrite elem_of_cons|]; naive_solver.
Qed.

Lemma remove_inputs_users_ne id ins cm c :
  (∀ c, contract_users cm !! c ≠ Some []) →
  contract_users (foldl (remove_input id) cm ins) !! c ≠ Some [].
Proof.
  revert cm c. induction ins as [|i ins IH]; intros cm c Hne; [apply Hne|].
  cbn [foldl]. apply IH. intros c'. destruct i; try apply Hne. cbn.
  destruct (contract_users cm !! contract_id); [|apply Hne]. case_decide; cbn.
  - rewrite lookup_delete. case_decide; [done|apply Hne].
  - rewrite lookup_insert. case_decide; [congruence|apply Hne].
Qed.

Lemma remove_outputs_all outs cm :
  let cm' := foldl remove_output cm outs in
  (∀ c, contracts_creators cm' !! c =
     if decide (c ∈ created_contracts outs) then None else contracts_creators cm !! c) ∧
  coins_spenders cm' = coins_spenders cm ∧ messages_spenders cm' = messages_spenders cm ∧
  contract_users cm' = contract_users cm ∧ blobs_users cm' = blobs_users cm.
Proof.
  revert cm. induction outs as [|o outs IH]; intros cm cm'; subst cm'.
  { split; [|done]. intros c. rewrite decide_False; [done|]. set_solver. }
  cbn [foldl]. destruct (IH (remove_output cm o)) as (Hc & -> & -> & -> & ->).
  split; [|by destruct o]. intros c. rewrite Hc.
  destruct o; cbn; rewrite ?lookup_delete; repeat case_decide; set_solver.
Qed.
End integrity.

Section integrity_theorems.
Context {Idx : Type} `{Countable Idx}.
Implicit Types (cm : BasicCollisionManager Idx) (txs : gmap Idx PoolTransaction).

(** Looking up a resource map after an update of the pool contents. *)
Lemma resource_stored (P : PoolTransaction → Prop) (o o' : option Idx) txs sid tx
    `{!Decision (P tx)} i :
  (P tx → o' = Some sid) → (¬ P tx → o' = o) → txs !! sid = None →
  (∀ j tx', txs !! j = Some tx' → P tx' → ¬ P tx) →
  (∀ i, o = Some i ↔ ∃ tx', txs !! i = Some tx' ∧ P tx') →
  o' = Some i ↔ ∃ tx', <[sid := tx]> txs !! i = Some tx' ∧ P tx'.
Proof.
  intros H1 H2 Hfresh Hno Ho. destruct (decide (P tx)) as [HP|HP].
  - rewrite H1 by done. rewrite lookup_insert. destruct (decide (sid = i)) as [->|]; naive_solver.
  - rewrite H2 by done. rewrite Ho, lookup_insert.
    destruct (decide (sid = i)) as [->|]; naive_solver.
Qed.

Lemma resource_removed (P : PoolTransaction → Prop) (o o' : option Idx) txs sid tx
    `{!Decision (P tx)} i :
  (P tx → o' = None) → (¬ P tx → o' = o) → txs !! sid = Some tx →
  (∀ i, o = Some i ↔ ∃ tx', txs !! i = Some tx' ∧ P tx') →
  o' = Some i ↔ ∃ tx', delete sid txs !! i = Some tx' ∧ P tx'.
Proof.
  intros H1 H2 Hin Ho. destruct (decide (P tx)) as [HP|HP].
  - rewrite H1 by done. split; [done|]. intros (tx' & [Hne Hi]%lookup_delete_Some & HP').
    assert (o = Some i) by (apply Ho; eauto). assert (o = Some sid) by (apply Ho; eauto).
    congruence.
  - rewrite H2 by done. rewrite Ho. setoid_rewrite lookup_delete_Some. naive_solver.
Qed.

(** Close the two defining hypotheses of the lemmas above. *)
Ltac by_decide := intros ?; first [by rewrite decide_True|by rewrite decide_False].

Lemma on_stored_ok sid entry cm txs :
  cm_ok cm txs → txs !! sid = None →
  (∀ j tx', txs !! j = Some tx' → ¬ conflicts (transaction entry) tx') →
  cm_ok (on_stored_transaction sid entry cm) (<[sid := transaction entry]> txs).
Proof.
  intros [Hco Hme Hct Hbl Hus Hne] Hfresh Hno. set (tx := transaction entry) in *.
  unfold on_stored_transaction. fold tx.
  set (cm1 := match pool_blob_id tx with Some _ => _ | None => cm end).
  assert (coins_spenders cm1 = coins_spenders cm ∧ messages_spenders cm1 = messages_spenders cm ∧
    contracts_creators cm1 = contracts_creators cm ∧ contract_users cm1 = contract_users cm ∧
    ∀ b, blobs_users cm1 !! b =
      if decide (pool_blob_id tx = Some b) then Some sid else blobs_users cm !! b)
    as (E1 & E2 & E3 & E4 & E5).
  { subst cm1. destruct (pool_blob_id tx) as [b'|]; repeat split; intros b.
    cbn. rewrite lookup_insert. repeat case_decide; congruence. }
  destruct (store_outputs_all sid (outputs tx) (foldl (store_input sid (tx_id tx)) cm1 (inputs tx)))
    as (Hc & Hco' & Hme' & Hus' & Hbl').
  destruct (store_inputs_other sid (tx_id tx) (inputs tx) cm1) as [Hc1 Hb1].
  constructor.
  - intros u i. rewrite Hco', store_inputs_coins, E1.
    apply (resource_stored (λ t, u ∈ coin_ids (inputs t)) (coins_spenders cm !! u)); [apply _|by_decide..|done| |done].
    intros j tx' Hj ? ?. eapply (Hno _ _ Hj). left. eauto.
  - intros n i. rewrite Hme', store_inputs_messages, E2.
    apply (resource_stored (λ t, n ∈ message_ids (inputs t)) (messages_spenders cm !! n)); [apply _|by_decide..|done| |done].
    intros j tx' Hj ? ?. eapply (Hno _ _ Hj). right; left. eauto.
  - intros c i. rewrite Hc, Hc1, E3.
    apply (resource_stored (λ t, c ∈ created_contracts (outputs t)) (contracts_creators cm !! c)); [apply _|by_decide..|done| |done].
    intros j tx' Hj ? ?. eapply (Hno _ _ Hj). right; right; left. eauto.
  - intros b i. rewrite Hbl', Hb1, E5.
    apply (resource_stored (λ t, pool_blob_id t = Some b) (blobs_users cm !! b)); [apply _|by_decide..|done| |done].
    intros j tx' Hj ? ?. eapply (Hno _ _ Hj). right; right; right. eauto.
  - intros c x. unfold get_contract_users. rewrite Hus'. fold (get_contract_users
      (foldl (store_input sid (tx_id tx)) cm1 (inputs tx)) c).
    rewrite store_inputs_users. unfold get_contract_users. rewrite E4.
    fold (get_contract_users cm c). rewrite Hus. split.
    + intros [(i & t & Hi & ?)|[-> ?]]; [|exists sid, tx; by rewrite lookup_insert_eq].
      exists i, t. rewrite lookup_insert_ne by congruence. done.
    + intros (i & t & Hi & ? & ?). rewrite lookup_insert in Hi. case_decide; naive_solver.
  - intros c. rewrite Hus'. apply store_inputs_users_ne. intros c'. rewrite E4. apply Hne.
Qed.

Lemma on_removed_ok sid tx cm txs :
  cm_ok cm txs → ids_unique txs → txs !! sid = Some tx →
  cm_ok (on_removed_transaction tx cm) (delete sid txs).
Proof.
  intros [Hco Hme Hct Hbl Hus Hne] Hids Hin. unfold on_removed_transaction.
  set (cm1 := match pool_blob_id tx with Some _ => _ | None => cm end).
  assert (coins_spenders cm1 = coins_spenders cm ∧ messages_spenders cm1 = messages_spenders cm ∧
    contracts_creators cm1 = contracts_creators cm ∧ contract_users cm1 = contract_users cm ∧
    ∀ b, blobs_users cm1 !! b =
      if decide (pool_blob_id tx = Some b) then None else blobs_users cm !! b)
    as (E1 & E2 & E3 & E4 & E5).
  { subst cm1. destruct (pool_blob_id tx) as [b'|]; repeat split; intros b.
    cbn. rewrite lookup_delete. repeat case_decide; congruence. }
  destruct (remove_outputs_all (outputs tx) (foldl (remove_input (tx_id tx)) cm1 (inputs tx)))
    as (Hc & Hco' & Hme' & Hus' & Hbl').
  destruct (remove_inputs_other (tx_id tx) (inputs tx) cm1) as [Hc1 Hb1].
  constructor.
  - intros u i. rewrite Hco', remove_inputs_coins, E1.
    apply (resource_removed (λ t, u ∈ coin_ids (inputs t)) (coins_spenders cm !! u) _ txs sid tx); [by_decide..|done|done].
  - intros n i. rewrite Hme', remove_inputs_messages, E2.
    apply (resource_removed (λ t, n ∈ message_ids (inputs t)) (messages_spenders cm !! n) _ txs sid tx); [by_decide..|done|done].
  - intros c i. rewrite Hc, Hc1, E3.
    apply (resource_removed (λ t, c ∈ created_contracts (outputs t)) (contracts_creators cm !! c) _ txs sid tx); [by_decide..|done|done].
  - intros b i. rewrite Hbl', Hb1, E5.
    apply (resource_removed (λ t, pool_blob_id t = Some b) (blobs_users cm !! b) _ txs sid tx); [by_decide..|done|done].
  - intros c x. unfold get_contract_users. rewrite Hus'. fold (get_contract_users
      (foldl (remove_input (tx_id tx)) cm1 (inputs tx)) c).
    rewrite remove_inputs_users. unfold get_contract_users. rewrite E4.
    fold (get_contract_users cm c). rewrite Hus. split.
    + intros [(i & t & Hi & <- & Hc') Hn]. exists i, t.
      rewrite lookup_delete_ne; [done|]. intros ->. simplify_eq. naive_solver.
    + intros (i & t & [Hi1 Hi]%lookup_delete_Some & <- & Hc'). split; [eauto 10|].
      intros [Heq _]. apply Hi1. by eapply Hids.
  - intros c. rewrite Hus'. apply remove_inputs_users_ne. intros c'. rewrite E4. apply Hne.
Qed.

Lemma cm_ok_new : cm_ok CollisionManager_new (∅ : gmap Idx PoolTransaction).
Proof.
  split; try done; intros x y; split.
  all: try by (cbn; rewrite lookup_empty).
  all: try by (intros (t & Ht & _); rewrite lookup_empty in Ht).
  - unfold get_contract_users. cbn. rewrite lookup_empty. intros []%not_elem_of_nil.
  - intros (i & t & Ht & _). by rewrite lookup_empty in Ht.
Qed.

(** *** What [find_collisions] reports *)

Lemma push_collision_dom o r (cols : gmap Idx (list CollisionReason)) i :
  i ∈ dom (push_collision o r cols) ↔ i ∈ dom cols ∨ o = Some i.
Proof. destruct o; cbn; [rewrite dom_insert|]; set_solver. Qed.

Lemma collide_inputs_dom cm ins (cols : gmap Idx (list CollisionReason)) i :
  i ∈ dom (foldl (collide_input cm) cols ins) ↔
  i ∈ dom cols ∨ (∃ u, u ∈ coin_ids ins ∧ coins_spenders cm !! u = Some i) ∨
  (∃ n, n ∈ message_ids ins ∧ messages_spenders cm !! n = Some i).
Proof.
  revert cols. induction ins as [|a ins IH]; intros cols.
  { unfold coin_ids, message_ids. set_solver. }
  cbn [foldl]. rewrite IH. unfold coin_ids, message_ids.
  destruct a; cbn; rewrite ?push_collision_dom; set_solver.
Qed.

Lemma collide_outputs_dom cm id outs (cols cols' : gmap Idx (list CollisionReason)) i n :
  try_fold (collide_output cm id) cols (imap (λ k o, ((n + k)%nat, o)) outs) = Ok cols' →
  i ∈ dom cols' ↔
  i ∈ dom cols ∨ ∃ c, c ∈ created_contracts outs ∧ contracts_creators cm !! c = Some i.
Proof.
  revert cols n. induction outs as [|o outs IH]; intros cols n; cbn.
  { intros [= ->]. set_solver. }
  rewrite (imap_ext _ (λ k o, ((S n + k)%nat, o))) by (intros; simpl; f_equal; lia).
  intros (cols1 & H1 & H2)%result_bind_ok. rewrite (IH _ _ H2).
  destruct o; cbn in H1 |- *; try (case_decide; [done|]); simplify_eq; try done.
  rewrite push_collision_dom. set_solver.
Qed.

Lemma find_collisions_spec cm txs (tx : PoolTransaction) (cols : Collisions Idx) (i : Idx) :
  cm_ok cm txs → find_collisions cm tx = Ok cols →
  i ∈ dom cols ↔ ∃ tx', txs !! i = Some tx' ∧ conflicts tx tx'.
Proof.
  intros [Hco Hme Hct Hbl _ _] Hf. unfold find_collisions in Hf.
  rewrite (collide_outputs_dom _ _ _ _ _ _ 0 Hf), collide_inputs_dom.
  assert (i ∈ dom (match pool_blob_id tx with
    | Some b => match blobs_users cm !! b with
                | Some s => {[s := [CollisionBlob b]]} : Collisions Idx | None => ∅ end
    | None => ∅ end) ↔ ∃ b, pool_blob_id tx = Some b ∧ blobs_users cm !! b = Some i) as ->.
  { destruct (pool_blob_id tx) as [b|]; [destruct (blobs_users cm !! b) eqn:Hb|];
      rewrite ?dom_singleton, ?dom_empty; set_solver. }
  unfold conflicts. setoid_rewrite Hco. setoid_rewrite Hme. setoid_rewrite Hct.
  setoid_rewrite Hbl. naive_solver.
Qed.

(** [find_collisions] is exact.  When it answers, the transactions it lists
    are precisely those in the pool that spend a coin or message, create a
    contract or use a blob of the new transaction. *)
Theorem find_collisions_exact cm txs (tx : PoolTransaction) (cols : Collisions Idx) (i : Idx) :
  cm_ok cm txs → find_collisions cm tx = Ok cols →
  i ∈ dom cols ↔ ∃ tx', txs !! i = Some tx' ∧ conflicts tx tx'.
Proof. apply find_collisions_spec. Qed.
End integrity_theorems.

(** Two transactions that spend the same coin. *)
Lemma find_collisions_exact_witness :
  let tx' := sample_tx 1 3 [sample_coin (9, 0)] [] in
  let entry := {| transaction := tx'; dependents_cumulative_tip := 3;
    dependents_cumulative_gas := 10; dependents_cumulative_bytes_size := 20;
    number_dependents_in_chain := 1; creation_instant := 0 |} in
  let cm := on_stored_transaction 0%nat entry CollisionManager_new in
  0%nat ∈ dom (match find_collisions cm (sample_tx 2 8 [sample_coin (9, 0)] []) with
               | Ok cols => cols | Err _ => ∅ end).
Proof.
  intros tx' entry cm.
  assert (cm_ok cm {[0%nat := tx']}) as Hok.
  { apply (on_stored_ok 0%nat entry CollisionManager_new ∅); [apply cm_ok_new|done|].
    intros j t. by rewrite lookup_empty. }
  apply (find_collisions_exact cm {[0%nat := tx']} (sample_tx 2 8 [sample_coin (9, 0)] []) _ 0%nat Hok).
  - vm_compute. reflexivity.
  - exists tx'. split; [by apply lookup_singleton_eq|]. left. exists (9, 0).
    split; apply list_elem_of_here.
Defined.
