(* ===== verification/TxPoolGraph.v ===== *)
(** * The dependency graph of the transaction pool

    Model of [GraphStorage] (txpool_v2/src/storage/graph.rs).  The graph type
    [StableDiGraph] of the [petgraph] crate is a parameter described by
    [StableDiGraphSpec]; the order in which the standard library's [HashSet]
    iterates is a parameter too ([HashOrder]), so nothing proved depends on it.
    A Rust panic ([expect], indexing out of range) is the value [None]. *)

From stdpp Require Import prelude gmap list strings.
From Stdlib Require Import ZArith Lia.
From S2P Require Import Prelude.
From S2P Require Import TxTypes.
From S2P Require Import TxPoolTypes.
From S2P Require Import TxPoolSpent.
From S2P Require Import TxPoolExtracted.
Local Open Scope Z_scope.

(** ** The graph library *)

Class StableDiGraph (G Idx : Type) := {
  g_new : G;
  g_add_node : StorageData → G → Idx * G;
  g_add_edge : Idx → Idx → G → G;
  g_remove_node : Idx → G → option StorageData * G;
  g_node_weight : G → Idx → option StorageData;
  (** an assignment through [node_weight_mut] *)
  g_set_weight : Idx → StorageData → G → G;
  (** [neighbors_directed(_, Outgoing)] and [neighbors_directed(_, Incoming)] *)
  g_outgoing : G → Idx → list Idx;
  g_incoming : G → Idx → list Idx;
  g_node_count : G → nat;
}.

Section graph_storage.
Context {G Idx : Type} `{Countable Idx} `{!StableDiGraph G Idx} `{!HashOrder Idx}.

Record GraphStorage := {
  gs_max_txs_chain_count : Z;
  graph : G;
  coins_creators : gmap UtxoId Idx;
  contracts_creators : gmap ContractId Idx;
}.

Definition GraphStorage_new (max_chain : Z) : GraphStorage :=
  {| gs_max_txs_chain_count := max_chain; graph := g_new;
     coins_creators := ∅; contracts_creators := ∅ |}.

Definition set_graph (g : G) (gs : GraphStorage) : GraphStorage :=
  {| gs_max_txs_chain_count := gs_max_txs_chain_count gs; graph := g;
     coins_creators := coins_creators gs; contracts_creators := contracts_creators gs |}.
Definition set_caches (coins : gmap UtxoId Idx) (contracts : gmap ContractId Idx)
    (gs : GraphStorage) : GraphStorage :=
  {| gs_max_txs_chain_count := gs_max_txs_chain_count gs; graph := graph gs;
     coins_creators := coins; contracts_creators := contracts |}.

Definition get (gs : GraphStorage) (i : Idx) : option StorageData := g_node_weight (graph gs) i.
Definition get_direct_dependents (gs : GraphStorage) (i : Idx) : list Idx :=
  g_outgoing (graph gs) i.
Definition get_direct_dependencies (gs : GraphStorage) (i : Idx) : list Idx :=
  g_incoming (graph gs) i.
Definition has_dependencies (gs : GraphStorage) (i : Idx) : bool :=
  match get_direct_dependencies gs i with [] => false | _ => true end.
Definition has_dependent (gs : GraphStorage) (i : Idx) : bool :=
  match get_direct_dependents gs i with [] => false | _ => true end.

(** *** Removing a subtree *)

Definition reduced_node (root removed_node : StorageData) : StorageData :=
  {| transaction := transaction root;
     dependents_cumulative_tip :=
       sat_sub (dependents_cumulative_tip root) (dependents_cumulative_tip removed_node);
     dependents_cumulative_gas :=
       sat_sub (dependents_cumulative_gas root) (dependents_cumulative_gas removed_node);
     dependents_cumulative_bytes_size :=
       sat_sub (dependents_cumulative_bytes_size root)
         (dependents_cumulative_bytes_size removed_node);
     number_dependents_in_chain :=
       sat_sub (number_dependents_in_chain root) (number_dependents_in_chain removed_node);
     creation_instant := creation_instant root |}.

(** The recursion follows the dependencies upwards; its depth is bounded by the
    number of nodes of an acyclic graph. *)
Fixpoint reduce_dependencies (fuel : nat) (removed_node : StorageData) (gs : GraphStorage)
    (root_id : Idx) : GraphStorage :=
  match fuel with
  | O => gs
  | S fuel =>
      match get gs root_id with
      | None => gs
      | Some root =>
          let gs := set_graph (g_set_weight root_id (reduced_node root removed_node) (graph gs)) gs in
          foldl (reduce_dependencies fuel removed_node) gs (get_direct_dependencies gs root_id)
      end
  end.

Definition reduce_dependencies_cumulative_gas_tip_and_chain_count (root_id : Idx)
    (removed_node : StorageData) (gs : GraphStorage) : GraphStorage :=
  reduce_dependencies (g_node_count (graph gs)) removed_node gs root_id.

(** The caches, output by output; [Checked] transactions have fewer than 2^16
    outputs, so the index conversion does not fail. *)
Definition clear_cache_output (id : TxId) (gs : GraphStorage) (p : nat * Output) : GraphStorage :=
  match p.2 with
  | OutputCoin _ _ _ =>
      set_caches (delete (id, Z.of_nat p.1) (coins_creators gs)) (contracts_creators gs) gs
  | OutputContractCreated contract_id =>
      set_caches (coins_creators gs) (delete contract_id (contracts_creators gs)) gs
  | _ => gs
  end.

Definition clear_cache (storage_entry : StorageData) (gs : GraphStorage) : GraphStorage :=
  let tx := transaction storage_entry in
  foldl (clear_cache_output (tx_id tx)) gs (imap pair (outputs tx)).

Definition cache_output (id : TxId) (node_id : Idx) (gs : GraphStorage) (p : nat * Output) :
    GraphStorage :=
  match p.2 with
  | OutputCoin _ _ _ =>
      set_caches (<[(id, Z.of_nat p.1) := node_id]> (coins_creators gs)) (contracts_creators gs) gs
  | OutputContractCreated contract_id =>
      set_caches (coins_creators gs) (<[contract_id := node_id]> (contracts_creators gs)) gs
  | _ => gs
  end.

Definition cache_tx_infos (tx : PoolTransaction) (node_id : Idx) (gs : GraphStorage) :
    GraphStorage :=
  foldl (cache_output (tx_id tx) node_id) gs (imap pair (outputs tx)).

(** One iteration of the loop of [bfs]: [None] when the node is missing. *)
Definition bfs_step (remove : Idx) (gs : GraphStorage) :
    option (list Idx * StorageData * GraphStorage) :=
  let dependents := get_direct_dependents gs remove in
  let dependencies := get_direct_dependencies gs remove in
  match g_remove_node remove (graph gs) with
  | (None, _) => None
  | (Some entry, g) =>
      let gs := clear_cache entry (set_graph g gs) in
      let gs := foldl (λ gs dependency,
                  reduce_dependencies_cumulative_gas_tip_and_chain_count dependency entry gs)
                  gs dependencies in
      Some (dependents, entry, gs)
  end.

Fixpoint bfs_loop (fuel : nat) (queue : list Idx) (res : list StorageData) (gs : GraphStorage) :
    option (list StorageData * GraphStorage) :=
  match queue with
  | [] => Some (res, gs)
  | remove :: queue =>
      match fuel with
      | O => None
      | S fuel =>
          '(dependents, entry, gs) ← bfs_step remove gs;
          bfs_loop fuel (queue ++ dependents) (res ++ [entry]) gs
      end
  end.

Definition bfs (root : Idx) (gs : GraphStorage) : option (list StorageData * GraphStorage) :=
  match get gs root with
  | None => Some ([], gs)
  | Some _ => bfs_loop (g_node_count (graph gs)) [root] [] gs
  end.

Definition remove_transaction_and_dependents_subtree (i : Idx) (gs : GraphStorage) :
    option (list StorageData * GraphStorage) :=
  bfs i gs.

(** *** Removing one transaction *)

Definition remove_transaction (i : Idx) (gs : GraphStorage) : option StorageData * GraphStorage :=
  match g_remove_node i (graph gs) with
  | (Some entry, g) => (Some entry, clear_cache entry (set_graph g gs))
  | (None, g) => (None, set_graph g gs)
  end.

(** *** Checking and storing *)

Definition insert_dependency (max_chain : Z) (o : option Idx) (deps : gset Idx) :
    result (gset Idx) Error :=
  match o with
  | Some node_id =>
      let deps := {[node_id]} ∪ deps in
      if decide (max_chain ≤ Z.of_nat (size deps))
      then Err (ErrDependency NotInsertedChainDependencyTooBig) else Ok deps
  | None => Ok deps
  end.

Definition collect_dependency (gs : GraphStorage) (deps : gset Idx) (input : Input) :
    result (gset Idx) Error :=
  match input with
  | CoinSigned c | CoinPredicate c =>
      insert_dependency (gs_max_txs_chain_count gs) (coins_creators gs !! in_utxo_id c) deps
  | MessageCoinSigned _ | MessageCoinPredicate _
  | MessageDataSigned _ _ | MessageDataPredicate _ _ => Ok deps
  | InputContract contract_id =>
      insert_dependency (gs_max_txs_chain_count gs) (contracts_creators gs !! contract_id) deps
  end.

Definition collect_transaction_direct_dependencies (gs : GraphStorage) (tx : PoolTransaction) :
    result (gset Idx) Error :=
  try_fold (collect_dependency gs) ∅ (inputs tx).

Record CheckedTransaction := {
  ct_tx : PoolTransaction;
  ct_direct_dependencies : gset Idx;
  ct_all_dependencies : gset Idx;
}.

(** The loop of [can_store_transaction]; the stack is popped from the end, so
    [to_check] keeps its top first.  [None]: out of fuel. *)
Fixpoint collect_all_dependencies (fuel : nat) (gs : GraphStorage) (to_check : list Idx)
    (all_deps : gset Idx) : option (result (gset Idx) Error) :=
  match to_check with
  | [] => Some (Ok all_deps)
  | node_id :: to_check =>
      match fuel with
      | O => None
      | S fuel =>
          if decide (node_id ∈ all_deps)
          then Some (Err (ErrDependency DependentTransactionIsADiamondDeath))
          else
            let all_deps := {[node_id]} ∪ all_deps in
            if decide (gs_max_txs_chain_count gs ≤ Z.of_nat (size all_deps))
            then Some (Err (ErrDependency NotInsertedChainDependencyTooBig))
            else
              match get gs node_id with
              | None => collect_all_dependencies fuel gs to_check all_deps
              | Some dependency_node =>
                  if decide (gs_max_txs_chain_count gs ≤ number_dependents_in_chain dependency_node)
                  then Some (Err (ErrDependency NotInsertedChainDependencyTooBig))
                  else if is_blob (transaction dependency_node)
                  then Some (Err (ErrDependency NotInsertedDependentOnBlob))
                  else collect_all_dependencies fuel gs
                         (reverse (get_direct_dependencies gs node_id) ++ to_check) all_deps
              end
      end
  end.

Definition can_store_transaction (gs : GraphStorage) (tx : PoolTransaction) :
    option (result CheckedTransaction Error) :=
  match collect_transaction_direct_dependencies gs tx with
  | Err e => Some (Err e)
  | Ok direct =>
      r ← collect_all_dependencies (S (Z.to_nat (gs_max_txs_chain_count gs))) gs
            (reverse (hs_iter direct)) ∅;
      Some (result_bind r (λ all,
        Ok {| ct_tx := tx; ct_direct_dependencies := direct; ct_all_dependencies := all |}))
  end.

Definition increased_node (node : StorageData) (tx : PoolTransaction) : StorageData :=
  {| transaction := transaction node;
     dependents_cumulative_tip := sat_add U64 (dependents_cumulative_tip node) (tip tx);
     dependents_cumulative_gas := sat_add U64 (dependents_cumulative_gas node) (max_gas tx);
     dependents_cumulative_bytes_size :=
       sat_add U64 (dependents_cumulative_bytes_size node) (metered_bytes_size tx);
     number_dependents_in_chain := sat_add U64 (number_dependents_in_chain node) 1;
     creation_instant := creation_instant node |}.

Definition increase_dependency (tx : PoolTransaction) (g : G) (node_id : Idx) : G :=
  match g_node_weight g node_id with
  | None => g
  | Some node => g_set_weight node_id (increased_node node tx) g
  end.

Definition new_node (tx : PoolTransaction) (instant : Z) : StorageData :=
  {| transaction := tx;
     dependents_cumulative_tip := tip tx;
     dependents_cumulative_gas := max_gas tx;
     dependents_cumulative_bytes_size := metered_bytes_size tx;
     number_dependents_in_chain := 1;
     creation_instant := instant |}.

Definition store_transaction (ct : CheckedTransaction) (instant : Z) (gs : GraphStorage) :
    Idx * GraphStorage :=
  let tx := ct_tx ct in
  let g := foldl (increase_dependency tx) (graph gs) (hs_iter (ct_all_dependencies ct)) in
  let '(node_id, g) := g_add_node (new_node tx instant) g in
  let g := foldl (λ g dependency, g_add_edge dependency node_id g) g
             (hs_iter (ct_direct_dependencies ct)) in
  (node_id, cache_tx_infos tx node_id (set_graph g gs)).

(** *** Validating inputs *)

Definition check_if_coin_input_can_spend_output (output : Output) (input : Input) :
    result unit Error :=
  match input with
  | CoinSigned c | CoinPredicate c =>
      match output with
      | OutputCoin to amount asset_id =>
          if decide (to ≠ in_owner c) then Err (ErrInputValidation NotInsertedIoWrongOwner)
          else if decide (amount ≠ in_amount c)
          then Err (ErrInputValidation NotInsertedIoWrongAmount)
          else if decide (asset_id ≠ in_asset_id c)
          then Err (ErrInputValidation NotInsertedIoWrongAssetId)
          else Ok ()
      | OutputContract => Err (ErrInputValidation NotInsertedIoContractOutput)
      | OutputChange _ _ _ => Err (ErrInputValidation NotInsertedInputDependentOnChangeOrVariable)
      | OutputVariable _ _ _ => Err (ErrInputValidation NotInsertedInputDependentOnChangeOrVariable)
      | OutputContractCreated _ => Err (ErrInputValidation NotInsertedIoContractOutput)
      end
  | _ => Ok ()
  end.

Context {C : Type} `{!LruCache C}.

(** One input: [None] is the index panic, otherwise the inputs found missing so
    far or the error that ends the validation. *)
Definition validate_input (gs : GraphStorage) (ps : TxPoolPersistentStorage)
    (eo : ExtractedOutputs) (si : SpentInputs C) (utxo_validation : bool)
    (missing : list MissingInput) (input : Input) :
    option (result (list MissingInput) InputValidationErrorType) :=
  match input with
  | CoinSigned c | CoinPredicate c =>
      let utxo_id := in_utxo_id c in
      match coins_creators gs !! utxo_id with
      | Some node_id =>
          match get gs node_id with
          | None => Some (Err (Inconsistency (ErrStorage "Node not found")))
          | Some node =>
              output ← outputs (transaction node) !! Z.to_nat utxo_id.2;
              match check_if_coin_input_can_spend_output output input with
              | Err e => Some (Err (Inconsistency e))
              | Ok _ => Some (Ok missing)
              end
          end
      | None =>
          if utxo_validation then
            if is_spent_utxo utxo_id si
            then Some (Err (Inconsistency (UtxoInputWasAlreadySpent utxo_id)))
            else
              match ps_utxo ps utxo_id with
              | Ok (Some coin) =>
                  if unwrap_or (coin_matches_input coin input) false then Some (Ok missing)
                  else Some (Err (Inconsistency (ErrInputValidation NotInsertedIoCoinMismatch)))
              | Ok None =>
                  if coin_exists utxo_id (in_owner c) (in_amount c) (in_asset_id c) eo
                  then Some (Ok missing)
                  else Some (Ok (missing ++ [MissingUtxo utxo_id]))
              | Err e => Some (Err (Inconsistency (ErrDatabase e)))
              end
          else Some (Ok missing)
      end
  | MessageCoinSigned m | MessageCoinPredicate m
  | MessageDataSigned m _ | MessageDataPredicate m _ =>
      if utxo_validation then
        if is_spent_message (in_nonce m) si
        then Some (Err (Inconsistency (MessageInputWasAlreadySpent (in_nonce m))))
        else
          match ps_message ps (in_nonce m) with
          | Ok (Some db_message) =>
              if unwrap_or (message_matches_input db_message input) false then Some (Ok missing)
              else Some (Err (Inconsistency (ErrInputValidation NotInsertedIoMessageMismatch)))
          | Ok None =>
              Some (Err (Inconsistency
                (ErrInputValidation (NotInsertedInputMessageUnknown (in_nonce m)))))
          | Err e => Some (Err (Inconsistency (ErrDatabase e)))
          end
      else Some (Ok missing)
  | InputContract contract_id =>
      match contracts_creators gs !! contract_id with
      | Some _ => Some (Ok missing)
      | None =>
          match ps_contract_exist ps contract_id with
          | Ok true => Some (Ok missing)
          | Ok false =>
              if contract_exists contract_id eo then Some (Ok missing)
              else Some (Ok (missing ++ [MissingContract contract_id]))
          | Err e => Some (Err (Inconsistency (ErrDatabase e)))
          end
      end
  end.

Fixpoint validate_inputs_loop (gs : GraphStorage) (ps : TxPoolPersistentStorage)
    (eo : ExtractedOutputs) (si : SpentInputs C) (utxo_validation : bool)
    (missing : list MissingInput) (ins : list Input) :
    option (result (list MissingInput) InputValidationErrorType) :=
  match ins with
  | [] => Some (Ok missing)
  | input :: ins =>
      r ← validate_input gs ps eo si utxo_validation missing input;
      match r with
      | Err e => Some (Err e)
      | Ok missing => validate_inputs_loop gs ps eo si utxo_validation missing ins
      end
  end.

Definition validate_inputs (gs : GraphStorage) (tx : PoolTransaction)
    (ps : TxPoolPersistentStorage) (eo : ExtractedOutputs) (si : SpentInputs C)
    (utxo_validation : bool) : option (result unit InputValidationErrorType) :=
  r ← validate_inputs_loop gs ps eo si utxo_validation [] (inputs tx);
  Some (result_bind r (λ missing,
    if decide (missing = []) then Ok () else Err (ValidationMissingInputs missing))).
End graph_storage.
Arguments GraphStorage : clear implicits.
Arguments GraphStorage G Idx : assert.
Arguments CheckedTransaction Idx {_ _}.
