(* ===== verification/TxPoolGraphFacts.v ===== *)
(** * Correctness of the dependency graph of the pool

    The laws of the graph library, the invariant of [GraphStorage] and the
    lemmas on its operations: the cumulative tip, gas, size and count of a node
    are those of the node and of everything that depends on it, the graph has no
    cycle and no diamond, and the creator caches name exactly the outputs of the
    stored transactions. *)

From stdpp Require Import prelude gmap list strings relations.
From Stdlib Require Import ZArith Lia.
From S2P Require Import Prelude.
From S2P Require Import TxTypes.
From S2P Require Import TxPoolTypes.
From S2P Require Import TxPoolSpent.
From S2P Require Import TxPoolExtracted.
From S2P Require Import TxPoolGraph.
Local Open Scope Z_scope.

(** ** Edges *)

Section edges.
Context {Idx : Type} `{Countable Idx}.
Implicit Types (E : list (Idx * Idx)) (a b x : Idx).

Definition outs E a : list Idx := (filter (λ e, e.1 = a) E).*2.
Definition ins E b : list Idx := (filter (λ e, e.2 = b) E).*1.
Definition without x E : list (Idx * Idx) := filter (λ e, e.1 ≠ x ∧ e.2 ≠ x) E.

#[global] Instance outs_perm : Proper ((≡ₚ) ==> (=) ==> (≡ₚ)) outs.
Proof. intros E E' HE a _ <-. unfold outs. by rewrite HE. Qed.
#[global] Instance ins_perm : Proper ((≡ₚ) ==> (=) ==> (≡ₚ)) ins.
Proof. intros E E' HE a _ <-. unfold ins. by rewrite HE. Qed.

Lemma elem_of_outs E a b : b ∈ outs E a ↔ (a, b) ∈ E.
Proof.
  unfold outs. rewrite list_elem_of_fmap. setoid_rewrite list_elem_of_filter. split.
  - by intros ([? ?] & -> & <- & ?).
  - intros ?. by exists (a, b).
Qed.
Lemma elem_of_ins E a b : a ∈ ins E b ↔ (a, b) ∈ E.
Proof.
  unfold ins. rewrite list_elem_of_fmap. setoid_rewrite list_elem_of_filter. split.
  - by intros ([? ?] & -> & <- & ?).
  - intros ?. by exists (a, b).
Qed.
Lemma elem_of_without E x a b : (a, b) ∈ without x E ↔ (a, b) ∈ E ∧ a ≠ x ∧ b ≠ x.
Proof. unfold without. rewrite list_elem_of_filter. naive_solver. Qed.

(** The edge [(a, b)] counts as often from both of its ends. *)
Lemma occ_dual E a b : occ b (outs E a) = occ a (ins E b).
Proof.
  unfold outs, ins. induction E as [|[p q] E IH]; [done|].
  rewrite !filter_cons. simpl. unfold occ in *.
  repeat case_decide; subst; csimpl; rewrite ?lsum_cons; repeat case_decide; simplify_eq; lia.
Qed.

Lemma lsum_outs_without E x a (f : Idx → Z) :
  a ≠ x → lsum f (outs E a) = lsum f (outs (without x E) a) + occ a (ins E x) * f x.
Proof.
  intros Hax. unfold outs, ins, without. induction E as [|[p q] E IH]; [done|].
  rewrite !filter_cons. simpl. unfold occ in *.
  repeat (case_decide; simplify_eq/=); rewrite ?filter_cons; simpl;
    repeat (case_decide; simplify_eq/=); rewrite ?lsum_cons; repeat case_decide;
    simplify_eq; first [lia|naive_solver lia].
Qed.

Lemma outs_without_self E x : outs (without x E) x = [].
Proof.
  destruct (outs (without x E) x) as [|b l] eqn:Hb; [done|].
  assert (b ∈ outs (without x E) x) as Hin by (rewrite Hb; set_solver).
  apply elem_of_outs, elem_of_without in Hin. naive_solver.
Qed.

Lemma NoDup_ins E b : NoDup E → NoDup (ins E b).
Proof.
  intros HE. unfold ins. apply NoDup_fmap_2_strong; [|by apply NoDup_filter].
  intros [? ?] [? ?] [? _]%list_elem_of_filter [? _]%list_elem_of_filter ?. naive_solver.
Qed.
Lemma NoDup_outs E a : NoDup E → NoDup (outs E a).
Proof.
  intros HE. unfold outs. apply NoDup_fmap_2_strong; [|by apply NoDup_filter].
  intros [? ?] [? ?] [? _]%list_elem_of_filter [? _]%list_elem_of_filter ?. naive_solver.
Qed.

(** The edges into one node. *)
Lemma outs_star n l a :
  NoDup l → outs ((λ p, (p, n)) <$> l) a = if decide (a ∈ l) then [n] else [].
Proof.
  unfold outs. induction 1 as [|x l Hx Hl IH].
  { rewrite decide_False; [done|apply not_elem_of_nil]. }
  csimpl. rewrite filter_cons. simpl. destruct (decide (x = a)) as [->|Hne]; csimpl; rewrite IH.
  - rewrite decide_False, decide_True; [done|set_solver|done].
  - apply decide_ext. set_solver.
Qed.
End edges.

(** ** The laws of the graph library *)

Class StableDiGraphSpec (G Idx : Type) `{Countable Idx} `{!StableDiGraph G Idx} := {
  g_nodes : G → gmap Idx StorageData;
  g_edges : G → list (Idx * Idx);
  g_weight_spec g i : g_node_weight g i = g_nodes g !! i;
  g_outgoing_spec g a : g_outgoing g a ≡ₚ outs (g_edges g) a;
  g_incoming_spec g b : g_incoming g b ≡ₚ ins (g_edges g) b;
  g_count_spec g : g_node_count g = size (g_nodes g);
  g_edges_nodes g a b : (a, b) ∈ g_edges g → is_Some (g_nodes g !! a) ∧ is_Some (g_nodes g !! b);
  g_new_spec : g_nodes g_new = ∅ ∧ g_edges g_new = [];
  g_add_node_spec w g i g' : g_add_node w g = (i, g') →
    g_nodes g !! i = None ∧ g_nodes g' = <[i := w]> (g_nodes g) ∧ g_edges g' ≡ₚ g_edges g;
  g_add_edge_spec a b g : is_Some (g_nodes g !! a) → is_Some (g_nodes g !! b) →
    g_nodes (g_add_edge a b g) = g_nodes g ∧ g_edges (g_add_edge a b g) ≡ₚ (a, b) :: g_edges g;
  g_remove_node_spec i g : g_remove_node i g = (g_nodes g !! i, (g_remove_node i g).2) ∧
    g_nodes (g_remove_node i g).2 = delete i (g_nodes g) ∧
    g_edges (g_remove_node i g).2 ≡ₚ without i (g_edges g);
  g_set_weight_spec i w g : is_Some (g_nodes g !! i) →
    g_nodes (g_set_weight i w g) = <[i := w]> (g_nodes g) ∧
    g_edges (g_set_weight i w g) ≡ₚ g_edges g;
}.

(** ** Cumulative resources *)

Inductive resource := RTip | RGas | RBytes | RCount.

Definition cum (k : resource) (d : StorageData) : Z :=
  match k with
  | RTip => dependents_cumulative_tip d
  | RGas => dependents_cumulative_gas d
  | RBytes => dependents_cumulative_bytes_size d
  | RCount => number_dependents_in_chain d
  end.

Definition own (k : resource) (tx : PoolTransaction) : Z :=
  match k with
  | RTip => tip tx | RGas => max_gas tx | RBytes => metered_bytes_size tx | RCount => 1
  end.

Definition txinfo (d : StorageData) : PoolTransaction * Z := (transaction d, creation_instant d).

Lemma cum_reduced k d r : cum k (reduced_node d r) = sat_sub (cum k d) (cum k r).
Proof. by destruct k. Qed.
Lemma cum_increased k d tx : cum k (increased_node d tx) = sat_add U64 (cum k d) (own k tx).
Proof. by destruct k. Qed.
Lemma cum_new k tx t : cum k (new_node tx t) = own k tx.
Proof. by destruct k. Qed.

Section graph_facts.
Context {G Idx : Type} `{Countable Idx} `{!StableDiGraph G Idx} `{!StableDiGraphSpec G Idx}.
Context `{!HashOrder Idx}.
Implicit Types (gs : GraphStorage G Idx) (X : resource → Idx → Z).

Definition nodes gs : gmap Idx StorageData := g_nodes (graph gs).
Definition edges gs : list (Idx * Idx) := g_edges (graph gs).
Definition cumN (k : resource) gs (c : Idx) : Z := from_option (cum k) 0 (nodes gs !! c).

(** Every node accounts for itself and its direct dependents, up to an excess
    [X] that is still to be subtracted. *)
Definition owes gs X : Prop :=
  ∀ k a d, nodes gs !! a = Some d →
    cum k d = own k (transaction d) + lsum (cumN k gs) (outs (edges gs) a) + X k a.

Definition nonneg gs : Prop :=
  ∀ k a d, nodes gs !! a = Some d → 0 ≤ cum k d ∧ 0 ≤ own k (transaction d).

(** [gs'] is [gs] up to cumulative resources. *)
Record same_shape gs gs' : Prop := {
  ss_edges : edges gs' ≡ₚ edges gs;
  ss_nodes i : txinfo <$> nodes gs' !! i = txinfo <$> nodes gs !! i;
  ss_coins : coins_creators gs' = coins_creators gs;
  ss_contracts : contracts_creators gs' = contracts_creators gs;
  ss_max : gs_max_txs_chain_count gs' = gs_max_txs_chain_count gs;
}.

#[global] Instance same_shape_preorder : PreOrder same_shape.
Proof.
  split; [by split|]. intros x y z [] []. split; etrans; eauto.
Qed.

(** An injective numbering of the nodes below their count, increasing along the
    edges: the graph is acyclic and its paths are shorter than its node count. *)
Definition ranking gs (f : Idx → nat) : Prop :=
  (∀ a b, (a, b) ∈ edges gs → (f a < f b)%nat) ∧
  (∀ a, a ∈ dom (nodes gs) → (f a < size (nodes gs))%nat) ∧
  (∀ a b, a ∈ dom (nodes gs) → b ∈ dom (nodes gs) → f a = f b → a = b).

Lemma same_shape_dom gs gs' : same_shape gs gs' → dom (nodes gs') = dom (nodes gs).
Proof.
  intros Hs. apply set_eq. intros i. rewrite !elem_of_dom.
  pose proof (ss_nodes _ _ Hs i) as Hi.
  destruct (nodes gs' !! i), (nodes gs !! i); naive_solver.
Qed.

Lemma same_shape_size gs gs' : same_shape gs gs' → size (nodes gs') = size (nodes gs).
Proof. intros Hs. by rewrite <- !size_dom, (same_shape_dom _ _ Hs). Qed.

Lemma same_shape_ranking gs gs' f : same_shape gs gs' → ranking gs f → ranking gs' f.
Proof.
  intros Hs (Hlt & Hb & Hi). unfold ranking.
  rewrite (same_shape_dom _ _ Hs), (same_shape_size _ _ Hs).
  split; [|done]. intros a b Hab. apply Hlt. by rewrite <- (ss_edges _ _ Hs).
Qed.

Lemma nodes_set_graph g gs : nodes (set_graph g gs) = g_nodes g.
Proof. done. Qed.
Lemma edges_set_graph g gs : edges (set_graph g gs) = g_edges g.
Proof. done. Qed.

(** The excess after paying [r] once at every element of [l]. *)
Definition paid (r : StorageData) (l : list Idx) X : resource → Idx → Z :=
  λ k a, X k a - occ a l * cum k r.

(** [set_weight] of the reduced node moves the excess of [x] to the nodes [x]
    depends on. *)
Lemma reduce_here gs X x d r :
  owes gs X → nonneg gs → nodes gs !! x = Some d →
  (∀ k, 0 ≤ cum k r ≤ X k x) → x ∉ outs (edges gs) x →
  let gs' := set_graph (g_set_weight x (reduced_node d r) (graph gs)) gs in
  same_shape gs gs' ∧ nonneg gs' ∧
  owes gs' (λ k a, X k a - (if decide (a = x) then cum k r else 0)
                   + occ a (ins (edges gs) x) * cum k r).
Proof.
  intros Ho Hn Hx Hr Hself gs'.
  destruct (g_set_weight_spec x (reduced_node d r) (graph gs)) as [Hnodes Hedges]; [by eauto|].
  assert (nodes gs' = <[x := reduced_node d r]> (nodes gs)) as Hng by done.
  assert (edges gs' ≡ₚ edges gs) as Heg by done.
  assert (∀ k, cum k r ≤ cum k d) as Hle.
  { intros k. rewrite (Ho k x d Hx). destruct (Hn k x d Hx), (Hr k).
    assert (0 ≤ lsum (cumN k gs) (outs (edges gs) x)); [|lia].
    apply lsum_nonneg. intros c _. unfold cumN. destruct (nodes gs !! c) eqn:Hc; simpl; [|lia].
    by apply (Hn k c). }
  assert (∀ k, cum k (reduced_node d r) = cum k d - cum k r) as Hred.
  { intros k. rewrite cum_reduced. specialize (Hle k). int_lia. }
  assert (∀ k c, cumN k gs' c = if decide (x = c) then cum k d - cum k r else cumN k gs c) as HcN.
  { intros k c. unfold cumN. rewrite Hng, lookup_insert. case_decide; [|done]. simpl. by rewrite Hred. }
  split; [|split].
  - split; try done. intros i. rewrite Hng, lookup_insert. case_decide; [|done]. subst. by rewrite Hx.
  - intros k a da. rewrite Hng, lookup_insert. case_decide; [|apply Hn].
    intros [= <-]. subst. rewrite Hred. specialize (Hle k). destruct (Hn k _ d Hx). split; [lia|done].
  - intros k a da Ha. rewrite Heg.
    assert (lsum (cumN k gs') (outs (edges gs) a) =
            lsum (cumN k gs) (outs (edges gs) a) - cum k r * occ a (ins (edges gs) x)) as ->.
    { erewrite lsum_ext by (intros c _; apply HcN). rewrite lsum_update.
      replace (cumN k gs x) with (cum k d) by (unfold cumN; by rewrite Hx).
      rewrite occ_dual. lia. }
    rewrite Hng, lookup_insert in Ha. repeat case_decide; simplify_eq.
    + rewrite Hred. pose proof (Ho k _ d Hx). simpl. lia.
    + pose proof (Ho k a da Ha). lia.
Qed.

Lemma owes_ext gs X X' :
  owes gs X → (∀ k a, a ∈ dom (nodes gs) → X k a = X' k a) → owes gs X'.
Proof.
  intros Ho HX k a d Ha. rewrite (Ho k a d Ha), (HX k a); [done|]. apply elem_of_dom; eauto.
Qed.

(** Paying a whole list, given how one element is paid. *)
Lemma pay_list gs X r l (step : GraphStorage G Idx → Idx → GraphStorage G Idx) :
  (∀ gs1 X1 x, same_shape gs gs1 → x ∈ l → owes gs1 X1 → nonneg gs1 → (∀ k a, 0 ≤ X1 k a) →
     (∀ k, cum k r ≤ X1 k x) →
     same_shape gs1 (step gs1 x) ∧ nonneg (step gs1 x) ∧ owes (step gs1 x) (paid r [x] X1)) →
  owes gs X → nonneg gs → (∀ k, 0 ≤ cum k r) → (∀ k a, occ a l * cum k r ≤ X k a) →
  let gs' := foldl step gs l in
  same_shape gs gs' ∧ nonneg gs' ∧ owes gs' (paid r l X).
Proof.
  intros Hstep Ho Hn Hr HX. 
  assert (∀ gs1 X1 l1, same_shape gs gs1 → (∀ x, x ∈ l1 → x ∈ l) → owes gs1 X1 → nonneg gs1 →
    (∀ k a, occ a l1 * cum k r ≤ X1 k a) →
    let gs' := foldl step gs1 l1 in
    same_shape gs gs' ∧ nonneg gs' ∧ owes gs' (paid r l1 X1)) as Hgen; [|by apply Hgen].
  clear Ho Hn HX. intros gs1 X1 l1. revert gs1 X1.
  induction l1 as [|x l1 IH]; intros gs1 X1 Hs Hl Ho Hn HX; cbn [foldl].
  { split_and!; [done..|]. eapply owes_ext; [done|]. intros k a _. unfold paid.
    rewrite occ_nil. lia. }
  assert (∀ k a, occ a (x :: l1) * cum k r = (if decide (a = x) then cum k r else 0)
                 + occ a l1 * cum k r) as Hocc.
  { intros k a. rewrite occ_cons. case_decide; lia. }
  assert (∀ k a, 0 ≤ occ a l1 * cum k r) as Hpos.
  { intros k a. specialize (Hr k). pose proof (occ_nonneg a l1). nia. }
  destruct (Hstep gs1 X1 x) as (Hs1 & Hn1 & Ho1); [done|set_solver|done|done| | |].
  { intros k a. specialize (HX k a). rewrite Hocc in HX. specialize (Hpos k a).
    specialize (Hr k). case_decide; lia. }
  { intros k. specialize (HX k x). rewrite Hocc, decide_True in HX by done. specialize (Hpos k x). lia. }
  edestruct (IH (step gs1 x)) as (Hs2 & Hn2 & Ho2); [by etrans|set_solver|done|done| |].
  { intros k a. specialize (HX k a). rewrite Hocc in HX. unfold paid.
    rewrite occ_cons, occ_nil. case_decide; lia. }
  split_and!; [done..|]. eapply owes_ext; [done|]. intros k a _. unfold paid. rewrite Hocc.
  rewrite occ_cons, occ_nil. case_decide; lia.
Qed.

Lemma edge_dom gs a b : (a, b) ∈ edges gs → a ∈ dom (nodes gs) ∧ b ∈ dom (nodes gs).
Proof. rewrite !elem_of_dom. apply g_edges_nodes. Qed.

Lemma ranking_irrefl gs f x : ranking gs f → x ∉ outs (edges gs) x.
Proof. intros (Hlt & _) Hx%elem_of_outs%Hlt. lia. Qed.

(** The recursive subtraction pays the excess of its root and nothing else. *)
Lemma reduce_spec fuel gs X x f r :
  owes gs X → nonneg gs → (∀ k a, 0 ≤ X k a) → x ∈ dom (nodes gs) → ranking gs f →
  (f x < fuel)%nat → (∀ k, 0 ≤ cum k r ≤ X k x) →
  let gs' := reduce_dependencies fuel r gs x in
  same_shape gs gs' ∧ nonneg gs' ∧ owes gs' (paid r [x] X).
Proof.
  revert gs X x. induction fuel as [|fuel IH]; intros gs X x Ho Hn HX Hx Hf Hlt Hr; [lia|].
  apply elem_of_dom in Hx as [d Hd].
  assert (get gs x = Some d) as Hget by (unfold get; by rewrite g_weight_spec).
  simpl. rewrite Hget.
  destruct (reduce_here gs X x d r) as (Hs1 & Hn1 & Ho1); [by eauto using ranking_irrefl..|].
  set (gs1 := set_graph _ gs) in *.
  assert (get_direct_dependencies gs1 x ≡ₚ ins (edges gs) x) as Hdeps.
  { unfold get_direct_dependencies. rewrite g_incoming_spec. by rewrite <- (ss_edges _ _ Hs1). }
  match type of Ho1 with owes _ ?X1 =>
    destruct (pay_list gs1 X1 r (get_direct_dependencies gs1 x) (reduce_dependencies fuel r))
      as (Hs2 & Hn2 & Ho2); [|done|done|apply Hr| |]
  end.
  - intros gs2 X2 p Hs2 Hp Ho2 Hn2 HX2 Hr2.
    rewrite Hdeps in Hp. apply elem_of_ins in Hp.
    assert (same_shape gs gs2) as Hs by (by etrans).
    apply IH; [done..| | | |].
    + rewrite (same_shape_dom _ _ Hs). by apply edge_dom in Hp as [??].
    + by eapply same_shape_ranking.
    + destruct Hf as (Hf & _). apply Hf in Hp. lia.
    + intros k. split; [apply Hr|apply Hr2].
  - intros k a. rewrite Hdeps. specialize (HX k a). specialize (Hr k).
    case_decide; subst; lia.
  - split_and!; [by etrans|done|]. eapply owes_ext; [exact Ho2|]. intros k a _.
    unfold paid. rewrite Hdeps, occ_cons, occ_nil. case_decide; lia.
Qed.

(** Removing a node from the numbering. *)
Lemma ranking_remove gs gs' f x :
  ranking gs f → x ∈ dom (nodes gs) → nodes gs' = delete x (nodes gs) →
  edges gs' ≡ₚ without x (edges gs) → ∃ f', ranking gs' f'.
Proof.
  intros (Hlt & Hb & Hi) Hx Hn He.
  assert (size (nodes gs) = S (size (nodes gs'))) as Hsize.
  { rewrite Hn. apply elem_of_dom in Hx as [d Hd].
    rewrite <- (insert_delete_id (nodes gs) x d) at 1 by done.
    by rewrite map_size_insert_None by apply lookup_delete_eq. }
  assert (∀ a, a ∈ dom (nodes gs') → a ∈ dom (nodes gs) ∧ f a ≠ f x) as Hdom.
  { intros a. rewrite Hn, dom_delete_L, elem_of_difference, elem_of_singleton.
    intros [Ha Hax]. split; [done|]. intros ?. by apply Hax, Hi. }
  exists (λ a, if decide (f x < f a)%nat then (f a - 1)%nat else f a). split_and!.
  - intros a b Hab. apply edge_dom in Hab as Hd. destruct Hd as [Ha%Hdom Hbd%Hdom].
    rewrite He in Hab. apply elem_of_without in Hab as (Hab%Hlt & _).
    repeat case_decide; lia.
  - intros a Ha%Hdom. destruct Ha as [Ha Hne]. specialize (Hb a Ha) as Hba.
    specialize (Hb x Hx). case_decide; lia.
  - intros a b Ha%Hdom Hbd%Hdom Heq. apply Hi; [naive_solver..|]. repeat case_decide; lia.
Qed.

(** ** The creator caches *)

Definition coin_slot (id : TxId) (u : UtxoId) (p : nat * Output) : bool :=
  match p.2 with
  | OutputCoin _ _ _ => bool_decide (u = (id, Z.of_nat p.1))
  | _ => false
  end.
Definition contract_slot (c : ContractId) (p : nat * Output) : bool :=
  match p.2 with OutputContractCreated c' => bool_decide (c = c') | _ => false end.

Definition creates_coin (tx : PoolTransaction) (u : UtxoId) : bool :=
  existsb (coin_slot (tx_id tx) u) (imap pair (outputs tx)).
Definition creates_contract (tx : PoolTransaction) (c : ContractId) : bool :=
  existsb (contract_slot c) (imap pair (outputs tx)).

Definition caches_ok gs : Prop :=
  (∀ u i, coins_creators gs !! u = Some i ↔
     ∃ d, nodes gs !! i = Some d ∧ creates_coin (transaction d) u) ∧
  (∀ c i, contracts_creators gs !! c = Some i ↔
     ∃ d, nodes gs !! i = Some d ∧ creates_contract (transaction d) c).

Lemma clear_cache_spec d gs :
  let gs' := clear_cache d gs in
  graph gs' = graph gs ∧ gs_max_txs_chain_count gs' = gs_max_txs_chain_count gs ∧
  (∀ u, coins_creators gs' !! u =
     if creates_coin (transaction d) u then None else coins_creators gs !! u) ∧
  (∀ c, contracts_creators gs' !! c =
     if creates_contract (transaction d) c then None else contracts_creators gs !! c).
Proof.
  unfold clear_cache, creates_coin, creates_contract.
  generalize (imap pair (outputs (transaction d))) (tx_id (transaction d)). clear d.
  intros l id. revert gs. induction l as [|[i o] l IH]; intros gs; cbn [foldl existsb]; [done|].
  edestruct (IH (clear_cache_output id gs (i, o))) as (Hg & Hm & Hc & Hk). rewrite Hg, Hm.
  split_and!; [by destruct o..| |]; intros x.
  - rewrite Hc. unfold coin_slot, clear_cache_output. destruct o; simpl; try done.
    rewrite lookup_delete. destruct (existsb _ l); [by rewrite orb_true_r|].
    repeat case_decide; repeat case_bool_decide; simplify_eq; done.
  - rewrite Hk. unfold contract_slot, clear_cache_output. destruct o; simpl; try done.
    rewrite lookup_delete. destruct (existsb _ l); [by rewrite orb_true_r|].
    repeat case_decide; repeat case_bool_decide; simplify_eq; done.
Qed.

Lemma cache_tx_infos_spec tx n gs :
  let gs' := cache_tx_infos tx n gs in
  graph gs' = graph gs ∧ gs_max_txs_chain_count gs' = gs_max_txs_chain_count gs ∧
  (∀ u, coins_creators gs' !! u =
     if creates_coin tx u then Some n else coins_creators gs !! u) ∧
  (∀ c, contracts_creators gs' !! c =
     if creates_contract tx c then Some n else contracts_creators gs !! c).
Proof.
  unfold cache_tx_infos, creates_coin, creates_contract.
  generalize (imap pair (outputs tx)) (tx_id tx). clear tx.
  intros l id. revert gs. induction l as [|[i o] l IH]; intros gs; cbn [foldl existsb]; [done|].
  edestruct (IH (cache_output id n gs (i, o))) as (Hg & Hm & Hc & Hk). rewrite Hg, Hm.
  split_and!; [by destruct o..| |]; intros x.
  - rewrite Hc. unfold coin_slot, cache_output. destruct o; simpl; try done.
    rewrite lookup_insert. destruct (existsb _ l); [by rewrite orb_true_r|].
    repeat case_decide; repeat case_bool_decide; simplify_eq; done.
  - rewrite Hk. unfold contract_slot, cache_output. destruct o; simpl; try done.
    rewrite lookup_insert. destruct (existsb _ l); [by rewrite orb_true_r|].
    repeat case_decide; repeat case_bool_decide; simplify_eq; done.
Qed.

(** The caches only depend on the transactions of the nodes. *)
Lemma caches_ok_shape gs gs' : same_shape gs gs' → caches_ok gs → caches_ok gs'.
Proof.
  intros Hs [Hc Hk].
  assert (∀ (P : PoolTransaction → Prop) i,
    (∃ d, nodes gs' !! i = Some d ∧ P (transaction d)) ↔
    (∃ d, nodes gs !! i = Some d ∧ P (transaction d))) as Hex.
  { intros P i. pose proof (ss_nodes _ _ Hs i) as Hi.
    destruct (nodes gs' !! i), (nodes gs !! i); simplify_eq/=; [|naive_solver].
    unfold txinfo in *. naive_solver congruence. }
  split; intros u i.
  - rewrite (ss_coins _ _ Hs), Hc. symmetry. apply (Hex (λ t, creates_coin t u)).
  - rewrite (ss_contracts _ _ Hs), Hk. symmetry. apply (Hex (λ t, creates_contract t u)).
Qed.

Lemma caches_ok_remove gs g x d :
  caches_ok gs → nodes gs !! x = Some d → g_nodes g = delete x (nodes gs) →
  caches_ok (clear_cache d (set_graph g gs)).
Proof.
  intros [Hc Hk] Hx Hg.
  destruct (clear_cache_spec d (set_graph g gs)) as (Hgr & _ & Hcc & Hck).
  unfold caches_ok, nodes. rewrite Hgr. simpl. rewrite Hg.
  split; intros u i; setoid_rewrite lookup_delete_Some.
  - rewrite Hcc. simpl. destruct (creates_coin (transaction d) u) eqn:Hu.
    + split; [done|]. intros (d' & [Hne Hi] & Hu').
      assert (coins_creators gs !! u = Some x) by (apply Hc; naive_solver).
      assert (coins_creators gs !! u = Some i) by (apply Hc; naive_solver). naive_solver.
    + rewrite Hc. split; [|naive_solver]. intros (d' & Hi & Hu'). exists d'. split; [|done].
      split; [|done]. intros ->. unfold nodes in *. simplify_eq. by rewrite Hu in Hu'.
  - rewrite Hck. simpl. destruct (creates_contract (transaction d) u) eqn:Hu.
    + split; [done|]. intros (d' & [Hne Hi] & Hu').
      assert (contracts_creators gs !! u = Some x) by (apply Hk; naive_solver).
      assert (contracts_creators gs !! u = Some i) by (apply Hk; naive_solver). naive_solver.
    + rewrite Hk. split; [|naive_solver]. intros (d' & Hi & Hu'). exists d'. split; [|done].
      split; [|done]. intros ->. unfold nodes in *. simplify_eq. by rewrite Hu in Hu'.
Qed.

(** ** The invariant *)

Definition dep gs (a b : Idx) : Prop := (a, b) ∈ edges gs.
Definition reach gs : Idx → Idx → Prop := rtc (dep gs).

(** Two dependents of one node have no common dependent. *)
Definition no_diamond gs : Prop :=
  ∀ x c1 c2 d, dep gs x c1 → dep gs x c2 → reach gs c1 d → reach gs c2 d → c1 = c2.

Record gs_ok gs : Prop := {
  ok_rank : ∃ f, ranking gs f;
  ok_nodup : NoDup (edges gs);
  ok_diamond : no_diamond gs;
  ok_owes : owes gs (λ _ _, 0);
  ok_nonneg : nonneg gs;
  ok_caches : caches_ok gs;
}.

Lemma reach_mono gs gs' a b :
  (∀ a b, dep gs' a b → dep gs a b) → reach gs' a b → reach gs a b.
Proof. intros Hd. unfold reach. induction 1; [done|]. econstructor; eauto. Qed.

Lemma no_diamond_mono gs gs' :
  (∀ a b, dep gs' a b → dep gs a b) → no_diamond gs → no_diamond gs'.
Proof. intros Hd Hnd x c1 c2 d H1 H2 H3 H4. eapply Hnd; eauto using reach_mono. Qed.

(** Removing a node leaves its cumulative resources owed by the nodes it
    depends on. *)
Lemma owes_remove gs g x d :
  owes gs (λ _ _, 0) → nodes gs !! x = Some d →
  g_nodes g = delete x (nodes gs) → g_edges g ≡ₚ without x (edges gs) →
  owes (clear_cache d (set_graph g gs)) (λ k a, occ a (ins (edges gs) x) * cum k d).
Proof.
  intros Ho Hx Hg He k a da.
  destruct (clear_cache_spec d (set_graph g gs)) as (Hgr & _).
  unfold nodes, edges. rewrite Hgr. simpl. rewrite Hg, He, lookup_delete_Some.
  intros [Hne Ha]. rewrite (Ho k a da Ha), (lsum_outs_without _ x a) by done.
  assert (cumN k gs x = cum k d) as -> by (unfold cumN; by rewrite Hx).
  enough (lsum (cumN k (clear_cache d (set_graph g gs))) (outs (without x (edges gs)) a) =
          lsum (cumN k gs) (outs (without x (edges gs)) a)) by (unfold edges in *; lia).
  apply lsum_ext. intros c (_ & _ & Hc)%elem_of_outs%elem_of_without.
  unfold cumN, nodes. rewrite Hgr. simpl. rewrite Hg. by rewrite lookup_delete_ne.
Qed.

Lemma remove_node_split gs x d :
  nodes gs !! x = Some d →
  ∃ g, g_remove_node x (graph gs) = (Some d, g) ∧
    g_nodes g = delete x (nodes gs) ∧ g_edges g ≡ₚ without x (edges gs).
Proof.
  intros Hx. destruct (g_remove_node_spec x (graph gs)) as (Heq & Hn & He).
  exists (g_remove_node x (graph gs)).2. rewrite Heq at 1. unfold nodes in Hx. by rewrite Hx.
Qed.

Lemma bfs_step_spec gs x d :
  gs_ok gs → nodes gs !! x = Some d →
  ∃ gs', bfs_step x gs = Some (get_direct_dependents gs x, d, gs') ∧ gs_ok gs' ∧
    (∀ i, txinfo <$> nodes gs' !! i = txinfo <$> delete x (nodes gs) !! i) ∧
    edges gs' ≡ₚ without x (edges gs) ∧
    gs_max_txs_chain_count gs' = gs_max_txs_chain_count gs.
Proof.
  intros Hok Hx. destruct (remove_node_split gs x d Hx) as (g & Hrm & Hg & He).
  unfold bfs_step. rewrite Hrm.
  destruct (clear_cache_spec d (set_graph g gs)) as (Hgr & Hmax & _).
  set (gs1 := clear_cache d (set_graph g gs)) in *.
  assert (nodes gs1 = delete x (nodes gs)) as Hn1 by (unfold nodes; by rewrite Hgr).
  assert (edges gs1 ≡ₚ without x (edges gs)) as He1 by (unfold edges; by rewrite Hgr).
  destruct (ok_rank _ Hok) as [f Hf].
  destruct (ranking_remove gs gs1 f x) as [f1 Hf1]; [done|by apply elem_of_dom|done..|].
  assert (get_direct_dependencies gs x ≡ₚ ins (edges gs) x) as Hdeps by apply g_incoming_spec.
  assert (∀ k, 0 ≤ cum k d) as Hd by (intros k; by destruct (ok_nonneg _ Hok k x d)).
  destruct (pay_list gs1 (λ k a, occ a (ins (edges gs) x) * cum k d) d
    (get_direct_dependencies gs x)
    (λ gs p, reduce_dependencies_cumulative_gas_tip_and_chain_count p d gs))
    as (Hs & Hn2 & Ho2).
  - intros gs2 X2 p Hs Hp Ho2 Hn2 HX2 Hr2. rewrite Hdeps, elem_of_ins in Hp.
    assert (p ∈ dom (nodes gs2)) as Hpd.
    { rewrite (same_shape_dom _ _ Hs), Hn1, dom_delete_L, elem_of_difference, elem_of_singleton.
      split; [by apply edge_dom in Hp as []|]. intros ->.
      by apply elem_of_outs, (ranking_irrefl gs f x Hf) in Hp. }
    apply (same_shape_ranking _ _ f1 Hs) in Hf1. apply reduce_spec with f1; try done.
    rewrite g_count_spec. by apply Hf1.
  - apply owes_remove; try done. apply Hok.
  - intros k a da. rewrite Hn1, lookup_delete_Some. intros [_ Ha]. exact (ok_nonneg _ Hok k a da Ha).
  - done.
  - intros k a. by rewrite Hdeps.
  - eexists. split; [done|]. split_and!.
    + assert (∀ a b, dep gs1 a b → dep gs a b) as Hsub.
      { intros a b. unfold dep. rewrite He1, elem_of_without. naive_solver. }
      split; [by eauto using same_shape_ranking| | | |done|].
      * rewrite (ss_edges _ _ Hs), He1. apply NoDup_filter, Hok.
      * eapply no_diamond_mono; [|apply Hok]. intros a b Hab. apply Hsub.
        unfold dep in *. by rewrite <- (ss_edges _ _ Hs).
      * eapply owes_ext; [exact Ho2|]. intros k a _. unfold paid. rewrite Hdeps. lia.
      * eapply caches_ok_shape; [done|]. apply caches_ok_remove with x; try done. apply Hok.
    + intros i. by rewrite (ss_nodes _ _ Hs), Hn1.
    + by rewrite (ss_edges _ _ Hs).
    + by rewrite (ss_max _ _ Hs), Hmax.
Qed.

(** ** Removing a subtree *)

Lemma ranking_reach gs f a b : ranking gs f → reach gs a b → a = b ∨ (f a < f b)%nat.
Proof.
  intros (Hlt & _). unfold reach. induction 1 as [|a c b Hac _ IH]; [by left|right].
  apply Hlt in Hac. destruct IH as [->|]; lia.
Qed.

Lemma reach_without gs gs' x a b :
  edges gs' ≡ₚ without x (edges gs) → ¬ reach gs a x → reach gs a b → reach gs' a b.
Proof.
  intros He Hx Hab. unfold reach in *. induction Hab as [a|a c b Hac Hcb IH]; [done|].
  assert (¬ rtc (dep gs) c x) as Hcx by (intros Hcx; apply Hx; by econstructor).
  econstructor; [|by apply IH]. unfold dep. rewrite He, elem_of_without.
  split_and!; [done|intros ->; by apply Hx|intros ->; by apply Hcx].
Qed.

(** What is reachable from a queue once its head has been removed and replaced
    by its dependents. *)
Lemma reach_step gs gs' f x queue i :
  ranking gs f → edges gs' ≡ₚ without x (edges gs) → x ∉ queue →
  (∀ q, q ∈ queue → ¬ reach gs q x) →
  (∃ q, q ∈ x :: queue ∧ reach gs q i) ↔
  i = x ∨ ∃ q, q ∈ queue ++ get_direct_dependents gs x ∧ reach gs' q i.
Proof.
  intros Hf He Hxq Hq.
  assert (∀ a b, dep gs' a b → dep gs a b) as Hsub.
  { intros a b. unfold dep. rewrite He, elem_of_without. naive_solver. }
  assert (∀ c, c ∈ get_direct_dependents gs x ↔ dep gs x c) as Hc.
  { intros c. unfold get_direct_dependents. by rewrite g_outgoing_spec, elem_of_outs. }
  setoid_rewrite elem_of_app. setoid_rewrite Hc. split.
  - intros (q & [->|Hin]%elem_of_cons & Hr).
    + apply rtc_inv in Hr as [->|(c & Hxc & Hr)]; [by left|right].
      exists c. split; [by right|]. apply (reach_without gs gs' x); [done| |done].
      intros Hcx. destruct (ranking_reach gs f c x) as [->|]; [done..| |];
        destruct Hf as (Hf & _); apply Hf in Hxc; lia.
    + right. exists q. split; [by left|]. apply (reach_without gs gs' x); auto.
  - intros [->|(q & [Hin|Hxc] & Hr)].
    + exists x. split; [set_solver|]. apply rtc_refl.
    + exists q. split; [set_solver|]. by eapply reach_mono.
    + exists x. split; [set_solver|]. eapply rtc_l; [done|]. by eapply reach_mono.
Qed.

Definition disjoint_below gs (queue : list Idx) : Prop :=
  ∀ q1 q2 d, q1 ∈ queue → q2 ∈ queue → reach gs q1 d → reach gs q2 d → q1 = q2.

(** The outcome of removing the nodes [ids]. *)
Record removed_from gs (ids : list Idx) (res : list StorageData) gs' : Prop := {
  rf_nodup : NoDup ids;
  rf_res : Forall2 (λ i d, txinfo <$> nodes gs !! i = Some (txinfo d)) ids res;
  rf_nodes i : txinfo <$> nodes gs' !! i =
    if decide (i ∈ ids) then None else txinfo <$> nodes gs !! i;
  rf_dep a b : dep gs' a b ↔ dep gs a b ∧ a ∉ ids ∧ b ∉ ids;
  rf_max : gs_max_txs_chain_count gs' = gs_max_txs_chain_count gs;
}.

Lemma disjoint_below_step gs gs' f x queue :
  gs_ok gs → ranking gs f → edges gs' ≡ₚ without x (edges gs) →
  NoDup (x :: queue) → disjoint_below gs (x :: queue) →
  NoDup (queue ++ get_direct_dependents gs x) ∧
  disjoint_below gs' (queue ++ get_direct_dependents gs x).
Proof.
  intros Hok Hf He [Hxq Hnd]%NoDup_cons Hdis.
  assert (∀ a b, reach gs' a b → reach gs a b) as Hsub.
  { intros a b. apply reach_mono. intros c d. unfold dep. rewrite He, elem_of_without. naive_solver. }
  assert (∀ c, c ∈ get_direct_dependents gs x ↔ dep gs x c) as Hc.
  { intros c. unfold get_direct_dependents. by rewrite g_outgoing_spec, elem_of_outs. }
  assert (∀ q c d, q ∈ queue → dep gs x c → reach gs c d → reach gs q d → False) as Hqc.
  { intros q c d Hq Hxc Hcd Hqd. apply Hxq.
    rewrite <- (Hdis q x d); [done|set_solver..|done|by econstructor]. }
  split.
  - apply NoDup_app. split_and!; [done| |].
    + intros q Hq Hqx%Hc. eapply Hqc; [done..|apply rtc_refl|apply rtc_refl].
    + unfold get_direct_dependents. rewrite g_outgoing_spec. apply NoDup_outs, Hok.
  - intros q1 q2 d [H1|H1%Hc]%elem_of_app [H2|H2%Hc]%elem_of_app Hr1%Hsub Hr2%Hsub.
    + eapply Hdis; [set_solver..|done|done].
    + exfalso. eauto.
    + exfalso. eauto.
    + eapply (ok_diamond _ Hok); eauto.
Qed.

Lemma removed_from_cons gs gs1 gs' x d ids res :
  nodes gs !! x = Some d →
  (∀ i, txinfo <$> nodes gs1 !! i = txinfo <$> delete x (nodes gs) !! i) →
  edges gs1 ≡ₚ without x (edges gs) →
  gs_max_txs_chain_count gs1 = gs_max_txs_chain_count gs →
  removed_from gs1 ids res gs' → removed_from gs (x :: ids) (d :: res) gs'.
Proof.
  intros Hx Hn He Hm [Hnd Hres Hnodes Hdep Hmax].
  assert (x ∉ ids) as Hxi.
  { intros Hin. apply list_elem_of_lookup in Hin as [j Hj].
    destruct (Forall2_lookup_l _ _ _ _ _ Hres Hj) as (d' & _ & Hd').
    rewrite Hn, lookup_delete_eq in Hd'. done. }
  assert (∀ i, i ≠ x → txinfo <$> nodes gs1 !! i = txinfo <$> nodes gs !! i) as Hne.
  { intros i Hi. by rewrite Hn, lookup_delete_ne. }
  split.
  - by constructor.
  - constructor; [by rewrite Hx|]. eapply Forall2_impl; [exact Hres|].
    intros i d'. cbv beta. rewrite Hn, lookup_delete. by case_decide.
  - intros i. rewrite Hnodes, Hn, lookup_delete.
    repeat case_decide; set_solver.
  - intros a b. rewrite Hdep. unfold dep. rewrite He, elem_of_without. set_solver.
  - by rewrite Hmax.
Qed.

(** The loop of [bfs] removes exactly what its queue reaches; it neither panics
    nor runs longer than there are nodes. *)
Lemma bfs_loop_spec fuel queue res gs :
  gs_ok gs → NoDup queue → (∀ q, q ∈ queue → q ∈ dom (nodes gs)) → disjoint_below gs queue →
  (size (nodes gs) ≤ fuel)%nat →
  ∃ ids removed gs', bfs_loop fuel queue res gs = Some (res ++ removed, gs') ∧ gs_ok gs' ∧
    removed_from gs ids removed gs' ∧
    (∀ i, i ∈ ids ↔ ∃ q, q ∈ queue ∧ reach gs q i).
Proof.
  revert queue res gs. induction fuel as [|fuel IH]; intros [|x queue] res gs Hok Hnd Hin Hdis Hsz.
  1,3: exists [], [], gs; rewrite app_nil_r; split_and!; [done..| |set_solver];
       split; [constructor|constructor|done|set_solver|done].
  all: destruct (proj1 (elem_of_dom _ _) (Hin x (list_elem_of_here _ _))) as [d Hd].
  { apply Nat.le_0_r, map_size_empty_inv in Hsz. by rewrite Hsz in Hd. }
  destruct (bfs_step_spec gs x d Hok Hd) as (gs1 & Hstep & Hok1 & Hn1 & He1 & Hm1).
  simpl. rewrite Hstep. simpl. destruct (ok_rank _ Hok) as [f Hf].
  destruct (disjoint_below_step gs gs1 f x queue) as [Hnd1 Hdis1]; [done..|].
  assert (dom (nodes gs1) = dom (nodes gs) ∖ {[x]}) as Hdom.
  { apply set_eq. intros i. specialize (Hn1 i). rewrite lookup_delete in Hn1.
    rewrite elem_of_difference, !elem_of_dom, elem_of_singleton.
    destruct (nodes gs1 !! i), (nodes gs !! i); case_decide; naive_solver. }
  apply NoDup_cons in Hnd as [Hxq Hnd].
  destruct (IH (queue ++ get_direct_dependents gs x) (res ++ [d]) gs1)
    as (ids & removed & gs' & Hloop & Hok' & Hrm & Hids); [done..| |done| |].
  - intros q. rewrite Hdom, elem_of_app, elem_of_difference, elem_of_singleton.
    intros [Hq|Hq].
    + split; [apply Hin; set_solver|by intros ->].
    + unfold get_direct_dependents in Hq. rewrite g_outgoing_spec, elem_of_outs in Hq.
      split; [by apply edge_dom in Hq as []|]. intros ->.
      by apply elem_of_outs, (ranking_irrefl gs f x Hf) in Hq.
  - rewrite <- !size_dom, Hdom in *. rewrite size_difference, size_singleton; [lia|].
    apply singleton_subseteq_l, elem_of_dom. by eauto.
  - exists (x :: ids), (d :: removed), gs'. rewrite Hloop, <- app_assoc. split_and!; [done..| |].
    + by eapply removed_from_cons.
    + intros i. rewrite (reach_step gs gs1 f x queue i Hf He1 Hxq), elem_of_cons, Hids; [done|].
      intros q Hq Hqx. apply Hxq. rewrite <- (Hdis q x x); [done|set_solver..|done|apply rtc_refl].
Qed.

Lemma remove_subtree_spec gs x :
  gs_ok gs →
  ∃ ids removed gs', remove_transaction_and_dependents_subtree x gs = Some (removed, gs') ∧
    gs_ok gs' ∧ removed_from gs ids removed gs' ∧
    (∀ i, i ∈ ids ↔ x ∈ dom (nodes gs) ∧ reach gs x i).
Proof.
  intros Hok. unfold remove_transaction_and_dependents_subtree, bfs, get. rewrite g_weight_spec.
  fold (nodes gs). destruct (nodes gs !! x) as [d|] eqn:Hd.
  - destruct (bfs_loop_spec (g_node_count (graph gs)) [x] [] gs)
      as (ids & removed & gs' & Hl & Hok' & Hrm & Hids); [done|apply NoDup_singleton|..].
    + intros q ->%list_elem_of_singleton. apply elem_of_dom. eauto.
    + intros q1 q2 e ->%list_elem_of_singleton ->%list_elem_of_singleton. done.
    + by rewrite g_count_spec.
    + exists ids, removed, gs'. split_and!; [done..|]. intros i. rewrite Hids, elem_of_dom, Hd.
      set_solver.
  - exists [], [], gs. split_and!; [done..| |].
    + split; [constructor|constructor|done|set_solver|done].
    + intros i. rewrite elem_of_dom, Hd. split; [set_solver|]. by intros [[? ?] _].
Qed.

(** ** Collecting the dependencies of a new transaction *)

(** [all] has every node the [direct] ones depend on, and each of them is
    reached in one way only. *)
Definition tree_above gs (direct : list Idx) (all : gset Idx) : Prop :=
  ∃ L, NoDup L ∧ all = list_to_set L ∧ L ≡ₚ direct ++ concat (ins (edges gs) <$> L).

(** What [can_store_transaction] lets a new transaction depend on. *)
Definition chain_ok gs (all : gset Idx) : Prop :=
  (all = ∅ ∨ Z.of_nat (size all) < gs_max_txs_chain_count gs) ∧
  ∀ i d, i ∈ all → nodes gs !! i = Some d →
    is_blob (transaction d) = false ∧ number_dependents_in_chain d < gs_max_txs_chain_count gs.

Definition dependency_error (e : Error) : Prop :=
  e = ErrDependency DependentTransactionIsADiamondDeath ∨
  e = ErrDependency NotInsertedChainDependencyTooBig ∨
  e = ErrDependency NotInsertedDependentOnBlob.

Lemma collect_all_loop fuel gs D L to_check :
  NoDup L → L ++ to_check ≡ₚ D ++ concat (ins (edges gs) <$> L) →
  chain_ok gs (list_to_set L) →
  gs_max_txs_chain_count gs - Z.of_nat (length L) < Z.of_nat fuel → (0 < fuel)%nat →
  ∃ r, collect_all_dependencies fuel gs to_check (list_to_set L) = Some r ∧
    match r with
    | Ok all => tree_above gs D all ∧ chain_ok gs all
    | Err e => dependency_error e
    end.
Proof.
  revert L to_check.
  induction fuel as [|fuel IH]; intros L to_check Hnd Hperm Hch Hf Hpos; [lia|].
  destruct to_check as [|x to_check]; cbn [collect_all_dependencies].
  { exists (Ok (list_to_set L)). split_and!; [done| |done]. exists L.
    rewrite app_nil_r in Hperm. done. }
  case_decide as Hx; [eexists; split; [done|by left]|]. rewrite elem_of_list_to_set in Hx.
  assert (NoDup (x :: L)) as Hnd' by (by constructor).
  change ({[x]} ∪ list_to_set L) with (list_to_set (x :: L) : gset Idx).
  rewrite size_list_to_set by done.
  case_decide as Hmax; [eexists; split; [done|by right; left]|].
  assert (∀ k, k ≡ₚ ins (edges gs) x → (x :: L) ++ (k ++ to_check) ≡ₚ
    D ++ concat (ins (edges gs) <$> (x :: L))) as Hstep.
  { intros k ->. csimpl. rewrite (Permutation_app_swap_app D), <- Hperm.
    rewrite (Permutation_app_swap_app L). by rewrite <- !Permutation_middle. }
  assert ((∀ d, nodes gs !! x = Some d → is_blob (transaction d) = false ∧
      number_dependents_in_chain d < gs_max_txs_chain_count gs) →
    chain_ok gs (list_to_set (x :: L))) as Hch'.
  { intros Hd. split; [right; rewrite size_list_to_set by done; lia|].
    intros i d. rewrite elem_of_list_to_set, elem_of_cons. intros [->|Hi]; [apply Hd|].
    apply Hch. by apply elem_of_list_to_set. }
  unfold get. rewrite g_weight_spec. fold (nodes gs).
  destruct (nodes gs !! x) as [d|] eqn:Hd.
  - case_decide; [eexists; split; [done|by right; left]|].
    destruct (is_blob (transaction d)) eqn:Hb; [eexists; split; [done|by right; right]|].
    apply IH; [done| | |simpl in *; lia..].
    + apply Hstep. rewrite reverse_Permutation. apply g_incoming_spec.
    + apply Hch'. intros d' [= <-]. split; [done|lia].
  - apply IH; [done| |by apply Hch'|simpl in *; lia..]. apply (Hstep []).
    destruct (ins (edges gs) x) as [|p l] eqn:Hp; [done|].
    assert (p ∈ ins (edges gs) x) as Hin by (rewrite Hp; set_solver).
    apply elem_of_ins, edge_dom in Hin as [_ Hin%elem_of_dom]. rewrite Hd in Hin. by destruct Hin.
Qed.

Lemma collect_direct_err gs tx e :
  collect_transaction_direct_dependencies gs tx = Err e →
  e = ErrDependency NotInsertedChainDependencyTooBig.
Proof.
  unfold collect_transaction_direct_dependencies. generalize (∅ : gset Idx).
  induction (inputs tx) as [|i l IH]; intros deps; [done|]. cbn [try_fold].
  destruct (collect_dependency gs deps i) as [deps'|e'] eqn:Hi; [apply IH|].
  intros [= <-]. destruct i; simpl in Hi; try done;
    unfold insert_dependency in Hi; repeat case_match; congruence.
Qed.

(** [can_store_transaction] always returns within its bound. *)
Lemma can_store_total gs tx :
  ∃ r, can_store_transaction gs tx = Some r ∧
    match r with
    | Ok ct =>
        ct_tx ct = tx ∧
        collect_transaction_direct_dependencies gs tx = Ok (ct_direct_dependencies ct) ∧
        tree_above gs (elements (ct_direct_dependencies ct)) (ct_all_dependencies ct) ∧
        chain_ok gs (ct_all_dependencies ct) ∧
        (ct_direct_dependencies ct = ∅ → ct_all_dependencies ct = ∅)
    | Err e => dependency_error e
    end.
Proof.
  unfold can_store_transaction.
  destruct (collect_transaction_direct_dependencies gs tx) as [direct|e] eqn:He.
  2: { eexists. split; [done|]. apply collect_direct_err in He as ->. by right; left. }
  destruct (collect_all_loop (S (Z.to_nat (gs_max_txs_chain_count gs))) gs (elements direct) []
    (reverse (hs_iter direct))) as (r & Heq & Hr); [constructor| | |simpl; lia|lia|].
  - csimpl. rewrite app_nil_r, reverse_Permutation. apply hs_iter_perm.
  - split; [by left|set_solver].
  - change (list_to_set []) with (∅ : gset Idx) in Heq. rewrite Heq.
    destruct r as [all|e]; eexists; (split; [done|]); [|done]. simpl.
    split_and!; [naive_solver..|]. intros ->. pose proof (hs_iter_perm (∅ : gset Idx)) as Hp.
    rewrite elements_empty in Hp. apply Permutation_nil_r in Hp. rewrite Hp in Heq.
    by injection Heq as <-.
Qed.

(** Counting the ways [a] is above the new transaction. *)
Lemma tree_above_count gs (direct all : gset Idx) a :
  tree_above gs (elements direct) all →
  (if decide (a ∈ all) then 1 else 0) =
  (if decide (a ∈ direct) then 1 else 0) +
  lsum (λ c, if decide (c ∈ all) then 1 else 0) (outs (edges gs) a).
Proof.
  intros (L & Hnd & -> & Hperm).
  assert (occ a L = occ a (elements direct) + lsum (λ c, occ c L) (outs (edges gs) a)) as Hc.
  { rewrite Hperm at 1. rewrite occ_app. f_equal.
    etrans; [apply lsum_concat|]. rewrite lsum_fmap. fold (occ a).
    rewrite (lsum_ext _ (λ c, occ c (outs (edges gs) a))) by (intros; symmetry; apply occ_dual).
    unfold occ. rewrite lsum_swap. apply lsum_ext. intros c _. apply lsum_ext.
    intros b _. repeat case_decide; congruence. }
  rewrite !occ_NoDup in Hc by (done || apply NoDup_elements).
  erewrite (lsum_ext (λ c, occ c L)) in Hc by (intros c _; by apply occ_NoDup).
  erewrite (lsum_ext (λ c, if decide (c ∈ list_to_set L) then 1 else 0)).
  - rewrite (decide_ext (a ∈ list_to_set L) (a ∈ L)) by apply elem_of_list_to_set.
    rewrite (decide_ext (a ∈ direct) (a ∈ elements direct)) by (by rewrite elem_of_elements).
    exact Hc.
  - intros c _. apply decide_ext, elem_of_list_to_set.
Qed.

(** Everything a member of the tree depends on is in the tree. *)
Lemma tree_above_up gs (direct all : gset Idx) c a :
  tree_above gs (elements direct) all → a ∈ all → reach gs c a → c ∈ all.
Proof.
  intros Ht Ha Hr. unfold reach in Hr. induction Hr as [c|c c' a Hcc' _ IH]; [done|].
  specialize (IH Ha). pose proof (tree_above_count gs direct all c Ht) as Hc.
  assert (1 ≤ lsum (λ c, if decide (c ∈ all) then 1 else 0) (outs (edges gs) c)).
  { etrans; [|apply (lsum_elem _ _ c')]; [by simpl; rewrite decide_True| |by apply elem_of_outs].
    intros x _. by destruct (decide (x ∈ all)). }
  repeat case_decide; first [done|lia].
Qed.

Lemma tree_above_direct gs (direct all : gset Idx) :
  tree_above gs (elements direct) all → direct ⊆ all.
Proof.
  intros (L & _ & -> & Hp) p Hd. rewrite elem_of_list_to_set, Hp, elem_of_app. left.
  by apply elem_of_elements.
Qed.

Lemma tree_above_closed gs (direct all : gset Idx) c p :
  tree_above gs (elements direct) all → p ∈ direct → reach gs c p → c ∈ all.
Proof. intros Ht Hp. apply (tree_above_up gs direct all); [done|]. by apply (tree_above_direct gs direct). Qed.

(** Removing what does not lie above the new transaction keeps the tree above
    it. *)
Lemma tree_above_removed gs gs' x ids removed (direct all : gset Idx) :
  gs_ok gs → gs_ok gs' → tree_above gs (elements direct) all → direct ⊆ dom (nodes gs) →
  removed_from gs ids removed gs' → (∀ i, i ∈ ids ↔ x ∈ dom (nodes gs) ∧ reach gs x i) →
  x ∉ all →
  tree_above gs' (elements direct) all ∧ direct ⊆ dom (nodes gs').
Proof.
  intros Hok Hok' Htree Hdir Hrf Hids Hx.
  assert (∀ a, a ∈ all → a ∉ ids) as Hno.
  { intros a Ha [_ Hr]%Hids. by eapply Hx, tree_above_up. }
  split.
  - pose proof (tree_above_up gs direct all) as Hup. destruct Htree as (L & Hnd & -> & Hp).
    exists L. split_and!; [done..|]. rewrite Hp at 1. f_equiv.
    assert (∀ c, c ∈ L → ins (edges gs') c ≡ₚ ins (edges gs) c) as Hins.
    { intros c Hc. apply NoDup_Permutation.
      - apply NoDup_ins, Hok'.
      - apply NoDup_ins, Hok.
      - intros a. rewrite !elem_of_ins. fold (dep gs' a c) (dep gs a c).
        rewrite (rf_dep _ _ _ _ Hrf). split; [naive_solver|]. intros Hac.
        assert (c ∈ (list_to_set L : gset Idx)) as Hc' by (by apply elem_of_list_to_set).
        split_and!; [done| |by apply Hno]. apply Hno. apply (Hup a c); [by exists L|done|].
        by apply rtc_once. }
    clear -Hins. induction L as [|c L IH]; [done|]. csimpl.
    rewrite (Hins c) by set_solver. rewrite IH; [done|]. intros; apply Hins; set_solver.
  - intros p Hpd. specialize (Hdir p Hpd). apply elem_of_dom. rewrite elem_of_dom in Hdir.
    pose proof (rf_nodes _ _ _ _ Hrf p) as Hn.
    rewrite decide_False in Hn by (by eapply Hno, tree_above_direct).
    destruct (nodes gs' !! p), (nodes gs !! p); naive_solver.
Qed.

(** ** Storing *)

Lemma increase_fold tx l g :
  NoDup l →
  let g' := foldl (increase_dependency tx) g l in
  g_edges g' ≡ₚ g_edges g ∧
  ∀ i, g_nodes g' !! i =
    (λ d, if decide (i ∈ l) then increased_node d tx else d) <$> g_nodes g !! i.
Proof.
  intros Hnd. revert g. induction Hnd as [|x l Hx Hnd IH]; intros g; cbn [foldl].
  { split; [done|]. intros i. destruct (g_nodes g !! i); [|done].
    cbn [fmap option_fmap option_map]. rewrite decide_False; [done|apply not_elem_of_nil]. }
  destruct (IH (increase_dependency tx g x)) as [He Hn]. unfold increase_dependency in *.
  rewrite g_weight_spec in *. destruct (g_nodes g !! x) as [d|] eqn:Hd.
  - destruct (g_set_weight_spec x (increased_node d tx) g) as [Hn1 He1]; [by eauto|].
    split; [by rewrite He|]. intros i. rewrite Hn, Hn1, lookup_insert.
    destruct (decide (x = i)) as [<-|Hi]; cbn [fmap option_fmap option_map].
    + rewrite Hd. cbn [fmap option_fmap option_map]. rewrite decide_False, decide_True; [done|set_solver|done].
    + destruct (g_nodes g !! i); [|done]. cbn [fmap option_fmap option_map]. f_equal.
      apply decide_ext. set_solver.
  - split; [done|]. intros i. rewrite Hn. destruct (g_nodes g !! i) eqn:Hi; [|done].
    cbn [fmap option_fmap option_map]. f_equal.
    apply decide_ext. rewrite elem_of_cons. naive_solver.
Qed.

Lemma add_edges_fold n l g :
  (∀ p, p ∈ l → is_Some (g_nodes g !! p)) → is_Some (g_nodes g !! n) →
  let g' := foldl (λ g p, g_add_edge p n g) g l in
  g_nodes g' = g_nodes g ∧ g_edges g' ≡ₚ ((λ p, (p, n)) <$> l) ++ g_edges g.
Proof.
  revert g. induction l as [|x l IH]; intros g Hl Hn; cbn [foldl]; [done|].
  destruct (g_add_edge_spec x n g) as [Hn1 He1]; [apply Hl; set_solver|done|].
  destruct (IH (g_add_edge x n g)) as [-> ->]; [|by rewrite Hn1|].
  { intros p Hp. rewrite Hn1. apply Hl. set_solver. }
  split; [done|]. rewrite He1. csimpl. by rewrite <- Permutation_middle.
Qed.

(** What [store_transaction] does to nodes, edges and caches. *)
Record stored gs (ct : CheckedTransaction Idx) (instant : Z) (n : Idx) gs' : Prop := {
  st_fresh : n ∉ dom (nodes gs);
  st_nodes i : nodes gs' !! i = <[n := new_node (ct_tx ct) instant]>
     (map_imap (λ i d, Some (if decide (i ∈ ct_all_dependencies ct)
                             then increased_node d (ct_tx ct) else d)) (nodes gs)) !! i;
  st_edges : edges gs' ≡ₚ
    ((λ p, (p, n)) <$> elements (ct_direct_dependencies ct)) ++ edges gs;
  st_max : gs_max_txs_chain_count gs' = gs_max_txs_chain_count gs;
  st_coins u : coins_creators gs' !! u =
     if creates_coin (ct_tx ct) u then Some n else coins_creators gs !! u;
  st_contracts c : contracts_creators gs' !! c =
     if creates_contract (ct_tx ct) c then Some n else contracts_creators gs !! c;
}.

Lemma store_shape gs ct instant n gs' :
  ct_direct_dependencies ct ⊆ dom (nodes gs) →
  store_transaction ct instant gs = (n, gs') → stored gs ct instant n gs'.
Proof.
  intros Hdir Hst. unfold store_transaction in Hst.
  destruct (increase_fold (ct_tx ct) (hs_iter (ct_all_dependencies ct)) (graph gs)) as [He1 Hn1].
  { rewrite hs_iter_perm. apply NoDup_elements. }
  destruct (g_add_node _ _) as [n' g2] eqn:Hadd.
  apply g_add_node_spec in Hadd as (Hnew & Hn2 & He2).
  assert (∀ i, is_Some (nodes gs !! i) → is_Some (g_nodes g2 !! i)) as Hsub.
  { intros i. rewrite Hn2, lookup_insert, Hn1. destruct (decide (n' = i)); [by eauto|]. by rewrite fmap_is_Some. }
  destruct (add_edges_fold n' (hs_iter (ct_direct_dependencies ct)) g2) as [Hn3 He3].
  { intros p. rewrite hs_iter_perm, elem_of_elements. intros Hp. apply Hsub, elem_of_dom. set_solver. }
  { rewrite Hn2, lookup_insert_eq. eauto. }
  set (g3 := foldl _ g2 _) in *.
  destruct (cache_tx_infos_spec (ct_tx ct) n' (set_graph g3 gs)) as (Hgr & Hm & Hc & Hk).
  injection Hst as <- <-. split; unfold nodes, edges; rewrite ?Hgr; simpl.
  - rewrite Hn1, fmap_None in Hnew. by rewrite not_elem_of_dom.
  - intros i. rewrite Hn3, Hn2, !lookup_insert. destruct (decide (n' = i)); [done|].
    rewrite Hn1, map_lookup_imap. unfold nodes. destruct (g_nodes (graph gs) !! i); [|done]. simpl.
    f_equal. apply decide_ext. by rewrite hs_iter_perm, elem_of_elements.
  - by rewrite He3, He2, He1, hs_iter_perm.
  - done.
  - done.
  - done.
Qed.

Section stored.
Context (gs gs' : GraphStorage G Idx) (ct : CheckedTransaction Idx) (instant : Z) (n : Idx).
Context (Hst : stored gs ct instant n gs') (Hok : gs_ok gs).
Context (Hdir : ct_direct_dependencies ct ⊆ dom (nodes gs)).
Context (Htree : tree_above gs (elements (ct_direct_dependencies ct)) (ct_all_dependencies ct)).
Abbreviation tx := (ct_tx ct).
Abbreviation above i := (if decide (i ∈ ct_all_dependencies ct) then 1 else 0).

Lemma stored_lookup i :
  nodes gs' !! i = if decide (i = n) then Some (new_node tx instant)
    else (λ d, if decide (i ∈ ct_all_dependencies ct) then increased_node d tx else d)
           <$> nodes gs !! i.
Proof.
  rewrite (st_nodes _ _ _ _ _ Hst), lookup_insert.
  destruct (decide (n = i)) as [->|]; [by rewrite decide_True|].
  rewrite (decide_False (P := i = n)) by done. rewrite map_lookup_imap.
  by destruct (nodes gs !! i).
Qed.

Lemma stored_dep a b :
  dep gs' a b ↔ dep gs a b ∨ a ∈ ct_direct_dependencies ct ∧ b = n.
Proof.
  unfold dep. rewrite (st_edges _ _ _ _ _ Hst), elem_of_app, list_elem_of_fmap.
  setoid_rewrite elem_of_elements. naive_solver.
Qed.

Lemma not_dep_new a : ¬ dep gs a n ∧ ¬ dep gs n a.
Proof. pose proof (st_fresh _ _ _ _ _ Hst). split; intros []%edge_dom; done. Qed.

Lemma stored_ranking : ∃ f, ranking gs' f.
Proof.
  destruct (ok_rank _ Hok) as (f & Hlt & Hb & Hi).
  pose proof (st_fresh _ _ _ _ _ Hst) as Hn.
  assert (dom (nodes gs') = {[n]} ∪ dom (nodes gs)) as Hdom.
  { apply set_eq. intros i. rewrite elem_of_union, elem_of_singleton, !elem_of_dom, stored_lookup.
    destruct (decide (i = n)); [naive_solver|]. rewrite fmap_is_Some. naive_solver. }
  assert (size (nodes gs') = S (size (nodes gs))) as Hsz.
  { rewrite <- !size_dom, Hdom, size_union, size_singleton by set_solver. lia. }
  exists (λ a, if decide (a = n) then size (nodes gs) else f a).
  unfold ranking. rewrite Hdom, Hsz. split_and!.
  - intros a b [Hab|[Ha ->]]%stored_dep.
    + apply edge_dom in Hab as Hd. rewrite !decide_False by set_solver. by apply Hlt.
    + rewrite decide_False, decide_True by set_solver. apply Hb. set_solver.
  - intros a Ha. case_decide; [lia|]. specialize (Hb a). set_solver by lia.
  - intros a b Ha Hbd.
    assert (∀ c, c ≠ n → c ∈ {[n]} ∪ dom (nodes gs) → c ∈ dom (nodes gs)) as Hc by set_solver.
    destruct (decide (a = n)) as [->|Han], (decide (b = n)) as [->|Hbn]; [done|..]; intros Heq.
    + specialize (Hb b (Hc b Hbn Hbd)). lia.
    + specialize (Hb a (Hc a Han Ha)). lia.
    + by apply Hi; [apply Hc..|].
Qed.

(** A path to the new node passes a direct dependency. *)
Lemma stored_reach c d :
  reach gs' c d →
  reach gs c d ∨ d = n ∧ (c = n ∨ ∃ p, p ∈ ct_direct_dependencies ct ∧ reach gs c p).
Proof.
  intros Hr. unfold reach in *. induction Hr as [c|c c' d Hcc' _ IH]; [by left|].
  apply stored_dep in Hcc' as [Hcc'|[Hc ->]].
  - destruct IH as [Hr|(-> & [->|(p & Hp & Hr)])].
    + left. by econstructor.
    + by apply not_dep_new in Hcc'.
    + right. split; [done|]. right. exists p. split; [done|]. by econstructor.
  - right. split; [|right; exists c; split; [done|apply rtc_refl]].
    destruct IH as [Hr|[]]; [|done].
    apply rtc_inv in Hr as [?|(b & Hb & _)]; [done|by apply not_dep_new in Hb].
Qed.

Lemma stored_no_diamond : no_diamond gs'.
Proof.
  pose proof (st_fresh _ _ _ _ _ Hst) as Hn.
  assert (∀ x c, dep gs x c → reach gs' c n → c ∈ ct_all_dependencies ct) as Habove.
  { intros x c Hxc [Hr|(_ & [->|(p & Hp & Hr)])]%stored_reach.
    - apply rtc_inv_r in Hr as [->|(b & _ & Hb)]; [by apply not_dep_new in Hxc|].
      by apply not_dep_new in Hb.
    - by apply not_dep_new in Hxc.
    - by eapply tree_above_closed. }
  assert (∀ d, reach gs' n d → d = n) as Hleaf.
  { intros d [Hr|[? _]]%stored_reach; [|done].
    apply rtc_inv in Hr as [?|(b & Hb & _)]; [done|by apply not_dep_new in Hb]. }
  assert (∀ i, 0 ≤ above i) as Hpos by (intros i; by case_decide).
  intros x c1 c2 d H1 H2 Hr1 Hr2. destruct (decide (c1 = c2)) as [|Hne]; [done|exfalso].
  pose proof (tree_above_count gs _ _ x Htree) as Hcount.
  assert (∀ c, dep gs x c → c ∈ ct_all_dependencies ct → 
    1 ≤ lsum (λ c, above c) (outs (edges gs) x)) as Hone.
  { intros c Hc Hca. etrans; [|apply (lsum_elem _ _ c)]; [by simpl; rewrite decide_True|done|].
    by apply elem_of_outs. }
  apply stored_dep in H1 as [H1|[H1 ->]], H2 as [H2|[H2 ->]]; [|..|done].
  - destruct (decide (d = n)) as [->|Hdn].
    + pose proof (lsum_elem_2 (λ c, above c) (outs (edges gs) x) c1 c2) as Htwo.
      rewrite !elem_of_outs in Htwo. specialize (Htwo (λ z _, Hpos z) H1 H2 Hne). simpl in Htwo.
      rewrite (decide_True (P := c1 ∈ _)), (decide_True (P := c2 ∈ _)) in Htwo by eauto.
      repeat case_decide; lia.
    + apply stored_reach in Hr1 as [Hr1|[? _]], Hr2 as [Hr2|[? _]]; try done.
      by apply Hne, (ok_diamond _ Hok x c1 c2 d).
  - apply Hleaf in Hr2 as ->. specialize (Hone c1 H1 (Habove _ _ H1 Hr1)).
    rewrite (decide_True (P := x ∈ ct_direct_dependencies ct)) in Hcount by done.
    case_decide; lia.
  - apply Hleaf in Hr1 as ->. specialize (Hone c2 H2 (Habove _ _ H2 Hr2)).
    rewrite (decide_True (P := x ∈ ct_direct_dependencies ct)) in Hcount by done.
    case_decide; lia.
Qed.

Context (Hown : ∀ k, 0 ≤ own k tx).
Context (Hfit : ∀ k a d, a ∈ ct_all_dependencies ct → nodes gs !! a = Some d →
  cum k d + own k tx ≤ U64).

Lemma stored_cumN k i : i ≠ n → is_Some (nodes gs !! i) →
  cumN k gs' i = cumN k gs i + own k tx * above i.
Proof.
  intros Hi [d Hd]. unfold cumN. rewrite stored_lookup, decide_False, Hd by done.
  cbn [fmap option_fmap option_map from_option]. case_decide as Hi'; [|lia].
  rewrite cum_increased. specialize (Hfit k i d Hi' Hd). int_lia.
Qed.

Lemma stored_outs a : a ≠ n →
  outs (edges gs') a ≡ₚ
  (if decide (a ∈ ct_direct_dependencies ct) then [n] else []) ++ outs (edges gs) a.
Proof.
  intros Ha. unfold outs. rewrite (st_edges _ _ _ _ _ Hst), filter_app, fmap_app. f_equiv.
  fold (outs ((λ p, (p, n)) <$> elements (ct_direct_dependencies ct)) a).
  rewrite outs_star by apply NoDup_elements. case_decide as Hin; rewrite elem_of_elements in Hin;
    [by rewrite decide_True|by rewrite decide_False].
Qed.

Lemma stored_owes : owes gs' (λ _ _, 0).
Proof.
  intros k a d. rewrite stored_lookup. destruct (decide (a = n)) as [->|Han].
  - intros [= <-]. rewrite cum_new. simpl.
    destruct (outs (edges gs') n) as [|b l] eqn:Hb; [rewrite lsum_nil; lia|].
    assert (dep gs' n b) as [Hd|[Hd _]]%stored_dep.
    { apply elem_of_outs. rewrite Hb. set_solver. }
    + by apply not_dep_new in Hd.
    + pose proof (st_fresh _ _ _ _ _ Hst). set_solver.
  - destruct (nodes gs !! a) as [d0|] eqn:Hd0; [|done].
    cbn [fmap option_fmap option_map]. intros [= <-].
    assert (cum k (if decide (a ∈ ct_all_dependencies ct) then increased_node d0 tx else d0) =
      cum k d0 + own k tx * above a) as ->.
    { case_decide as Ha'; [|lia]. rewrite cum_increased. specialize (Hfit k a d0 Ha' Hd0). int_lia. }
    assert (transaction (if decide (a ∈ ct_all_dependencies ct) then increased_node d0 tx else d0)
      = transaction d0) as -> by (by case_decide).
    rewrite (ok_owes _ Hok k a d0 Hd0), (stored_outs a Han), lsum_app.
    rewrite (lsum_ext (cumN k gs') (λ c, cumN k gs c + own k tx * above c) (outs (edges gs) a)).
    2: { intros c Hc%elem_of_outs. apply stored_cumN.
         - intros ->. by apply not_dep_new in Hc.
         - apply edge_dom in Hc as [_ Hc]. by apply elem_of_dom. }
    rewrite lsum_add, lsum_scale, (tree_above_count gs _ _ a Htree).
    case_decide; rewrite ?lsum_cons, lsum_nil; [|lia].
    assert (cumN k gs' n = own k tx) as ->; [|lia].
    unfold cumN. rewrite stored_lookup, decide_True by done. apply cum_new.
Qed.

Lemma stored_nonneg : nonneg gs'.
Proof.
  intros k a d. rewrite stored_lookup. destruct (decide (a = n)) as [->|Han].
  - intros [= <-]. rewrite cum_new. simpl. auto.
  - destruct (nodes gs !! a) as [d0|] eqn:Hd0; [|done].
    destruct (ok_nonneg _ Hok k a d0 Hd0) as [Hc Ho].
    cbn [fmap option_fmap option_map]. intros [= <-]. case_decide; [|done].
    rewrite cum_increased. specialize (Hown k). split; [int_lia|done].
Qed.

Lemma stored_nodup : NoDup (edges gs').
Proof.
  rewrite (st_edges _ _ _ _ _ Hst). apply NoDup_app. split_and!; [| |apply Hok].
  - apply NoDup_fmap_2; [by intros ?? [= ->]|apply NoDup_elements].
  - intros e (p & -> & _)%list_elem_of_fmap Hd. by apply not_dep_new in Hd.
Qed.

Lemma stored_caches :
  (∀ u, creates_coin tx u → coins_creators gs !! u = None) →
  (∀ c, creates_contract tx c → contracts_creators gs !! c = None) →
  caches_ok gs'.
Proof.
  intros Hu Hc. destruct (ok_caches _ Hok) as [Hcoins Hcontracts].
  assert (∀ (P : PoolTransaction → bool) (o : option Idx) i,
    (∀ i, o = Some i ↔ ∃ d, nodes gs !! i = Some d ∧ P (transaction d)) →
    (P tx → o = None) →
    (if P tx then Some n else o) = Some i ↔
    ∃ d, nodes gs' !! i = Some d ∧ P (transaction d)) as Hgen.
  { intros P o i Ho Hnew. rewrite stored_lookup.
    pose proof (st_fresh _ _ _ _ _ Hst) as Hn. rewrite not_elem_of_dom in Hn.
    destruct (decide (i = n)) as [->|Hin].
    - transitivity (P tx : Prop).
      + destruct (P tx); [by split|]. rewrite Ho, Hn. split; [naive_solver|done].
      + split; [intros; by eexists|]. by intros (d & [= <-] & ?).
    - transitivity (∃ d, nodes gs !! i = Some d ∧ P (transaction d)).
      + rewrite <- Ho. destruct (P tx); [|done]. rewrite Hnew by done. naive_solver.
      + destruct (nodes gs !! i) as [d|]; [|naive_solver].
        cbn [fmap option_fmap option_map]. destruct (decide (i ∈ ct_all_dependencies ct)).
        all: split; intros (d' & [= <-] & ?); by eexists. }
  split; intros x i.
  - rewrite (st_coins _ _ _ _ _ Hst). apply (Hgen (λ t, creates_coin t x)); auto.
  - rewrite (st_contracts _ _ _ _ _ Hst). apply (Hgen (λ t, creates_contract t x)); auto.
Qed.

Lemma stored_ok :
  (∀ u, creates_coin tx u → coins_creators gs !! u = None) →
  (∀ c, creates_contract tx c → contracts_creators gs !! c = None) →
  gs_ok gs'.
Proof.
  intros Hu Hc. split; auto using stored_ranking, stored_nodup, stored_no_diamond, stored_owes,
    stored_nonneg, stored_caches.
Qed.
End stored.

(** ** Direct dependencies *)

(** [i] created something the transaction takes as input. *)
Definition creator_of gs (input : Input) (i : Idx) : Prop :=
  match input with
  | CoinSigned c | CoinPredicate c =>
      ∃ d, nodes gs !! i = Some d ∧ creates_coin (transaction d) (in_utxo_id c)
  | InputContract contract_id =>
      ∃ d, nodes gs !! i = Some d ∧ creates_contract (transaction d) contract_id
  | _ => False
  end.

Lemma collect_direct_spec gs tx direct :
  caches_ok gs → collect_transaction_direct_dependencies gs tx = Ok direct →
  ∀ i, i ∈ direct ↔ ∃ input, input ∈ inputs tx ∧ creator_of gs input i.
Proof.
  intros [Hc Hk]. unfold collect_transaction_direct_dependencies.
  assert (∀ m (o : option Idx) deps deps', insert_dependency m o deps = Ok deps' →
    ∀ i, i ∈ deps' ↔ i ∈ deps ∨ o = Some i) as Hins.
  { intros m [j|] deps deps'; simpl; [case_decide|]; intros; simplify_eq; set_solver. }
  assert (∀ l deps, try_fold (collect_dependency gs) deps l = Ok direct →
    ∀ i, i ∈ direct ↔ i ∈ deps ∨ ∃ input, input ∈ l ∧ creator_of gs input i) as Hgen.
  2: { intros Hf i. rewrite (Hgen _ _ Hf i). set_solver. }
  induction l as [|input l IH]; intros deps Hf i; simpl in Hf; [set_solver|].
  apply result_bind_ok in Hf as (deps1 & H1 & H2). rewrite (IH deps1 H2 i).
  assert (i ∈ deps1 ↔ i ∈ deps ∨ creator_of gs input i) as ->; [|set_solver].
  destruct input; simpl; try (injection H1 as <-; set_solver);
    rewrite (Hins _ _ _ _ H1 i), ?Hc, ?Hk; done.
Qed.

Lemma creator_of_dom gs input i : creator_of gs input i → i ∈ dom (nodes gs).
Proof. rewrite elem_of_dom. destruct input; naive_solver. Qed.

(** ** Removing one executable transaction *)

Lemma remove_transaction_spec gs x d :
  gs_ok gs → nodes gs !! x = Some d → has_dependencies gs x = false →
  ∃ gs', remove_transaction x gs = (Some d, gs') ∧ gs_ok gs' ∧
    nodes gs' = delete x (nodes gs) ∧ edges gs' ≡ₚ without x (edges gs) ∧
    gs_max_txs_chain_count gs' = gs_max_txs_chain_count gs.
Proof.
  intros Hok Hx Hdeps. destruct (bfs_step_spec gs x d Hok Hx) as (gs' & Hb & Hok' & _ & He & Hm).
  destruct (remove_node_split gs x d Hx) as (g & Hrm & Hg & _).
  unfold remove_transaction, bfs_step, has_dependencies in *. rewrite Hrm in *.
  destruct (get_direct_dependencies gs x) as [|]; [|done]. simpl in Hb. injection Hb as <-.
  eexists. split_and!; [done..| |done|done].
  destruct (clear_cache_spec d (set_graph g gs)) as (Hgr & _). unfold nodes. by rewrite Hgr.
Qed.

(** ** Removing one transaction of many

    While the transactions of a block leave one by one, in any order, the
    cumulative resources are exact for the transactions [K] that stay. *)
Record gs_ok_on (K : StorageData → Prop) gs : Prop := {
  oko_rank : ∃ f, ranking gs f;
  oko_nodup : NoDup (edges gs);
  oko_diamond : no_diamond gs;
  oko_owes k a d : nodes gs !! a = Some d → K d →
    cum k d = own k (transaction d) + lsum (cumN k gs) (outs (edges gs) a);
  oko_nonneg : nonneg gs;
  oko_caches : caches_ok gs;
}.

Lemma gs_ok_on_weaken K gs : gs_ok gs → gs_ok_on K gs.
Proof.
  intros [Hr Hn Hd Ho Hp Hc]. split; try done. intros k a d Ha _. rewrite (Ho k a d Ha). lia.
Qed.

Lemma gs_ok_on_full K gs :
  gs_ok_on K gs → (∀ i d, nodes gs !! i = Some d → K d) → gs_ok gs.
Proof.
  intros [Hr Hn Hd Ho Hp Hc] HK. split; try done. intros k a d Ha.
  rewrite (Ho k a d Ha (HK a d Ha)). lia.
Qed.

Lemma remove_transaction_on K gs x d :
  gs_ok_on K gs → nodes gs !! x = Some d →
  (∀ a da, dep gs a x → nodes gs !! a = Some da → ¬ K da) →
  ∃ gs', remove_transaction x gs = (Some d, gs') ∧ gs_ok_on K gs' ∧
    nodes gs' = delete x (nodes gs) ∧ (∀ a b, dep gs' a b ↔ dep gs a b ∧ a ≠ x ∧ b ≠ x).
Proof.
  intros [[f Hf] Hnd Hdia Ho Hnn Hc] Hx Habove.
  destruct (remove_node_split gs x d Hx) as (g & Hrm & Hg & He).
  unfold remove_transaction. rewrite Hrm.
  destruct (clear_cache_spec d (set_graph g gs)) as (Hgr & _).
  set (gs1 := clear_cache d (set_graph g gs)) in *.
  assert (nodes gs1 = delete x (nodes gs)) as Hn1 by (unfold nodes; by rewrite Hgr).
  assert (edges gs1 ≡ₚ without x (edges gs)) as He1 by (unfold edges; by rewrite Hgr).
  assert (∀ a b, dep gs1 a b ↔ dep gs a b ∧ a ≠ x ∧ b ≠ x) as Hdep.
  { intros a b. unfold dep. by rewrite He1, elem_of_without. }
  exists gs1. split_and!; [done| |done|done]. split.
  - by apply (ranking_remove gs gs1 f x); [|apply elem_of_dom| |].
  - rewrite He1. by apply NoDup_filter.
  - eapply no_diamond_mono; [|done]. intros a b Hab%Hdep. naive_solver.
  - intros k a da. rewrite Hn1, lookup_delete_Some. intros [Hax Ha] HK.
    rewrite (Ho k a da Ha HK), (lsum_outs_without _ x a), He1 by done.
    rewrite (occ_not_in a (ins (edges gs) x)).
    2: { intros Hin%elem_of_ins. by apply (Habove a da). }
    enough (lsum (cumN k gs1) (outs (without x (edges gs)) a) =
            lsum (cumN k gs) (outs (without x (edges gs)) a)) by lia.
    apply lsum_ext. intros c (_ & _ & Hcx)%elem_of_outs%elem_of_without.
    unfold cumN. by rewrite Hn1, lookup_delete_ne.
  - intros k a da. rewrite Hn1, lookup_delete_Some. intros [_ Ha]. exact (Hnn k a da Ha).
  - by apply caches_ok_remove with x.
Qed.

(** ** What the cumulative resources are *)

Definition ownN (k : resource) gs (i : Idx) : Z :=
  from_option (λ d, own k (transaction d)) 0 (nodes gs !! i).

(** [S] lists, without repetition, everything reached from [cs]. *)
Definition lists_below gs (cs S : list Idx) : Prop :=
  NoDup S ∧ ∀ i, i ∈ S ↔ ∃ c, c ∈ cs ∧ reach gs c i.

Lemma lists_below_children gs cs :
  NoDup cs → disjoint_below gs cs →
  (∀ c, c ∈ cs → ∃ S, lists_below gs [c] S ∧ ∀ k, cumN k gs c = lsum (ownN k gs) S) →
  ∃ S, lists_below gs cs S ∧ ∀ k, lsum (cumN k gs) cs = lsum (ownN k gs) S.
Proof.
  induction 1 as [|c cs Hc Hnd IH]; intros Hdis Hex.
  { exists []. split; [|done]. split; [constructor|set_solver]. }
  destruct IH as (S & [HS HSi] & Hsum).
  { intros q1 q2 d H1 H2. apply Hdis; set_solver. }
  { intros c' Hc'. apply Hex. set_solver. }
  destruct (Hex c) as (S1 & [HS1 HS1i] & Hsum1); [set_solver|].
  exists (S1 ++ S). split.
  - split.
    + apply NoDup_app. split_and!; [done| |done].
      intros i (c1 & ->%list_elem_of_singleton & Hr)%HS1i (c2 & Hc2 & Hr2)%HSi.
      apply Hc. by rewrite (Hdis c c2 i) by (done || set_solver).
    + intros i. rewrite elem_of_app, HS1i, HSi. set_solver.
  - intros k. by rewrite lsum_cons, lsum_app, Hsum, Hsum1.
Qed.

Lemma cumulative_below gs f a :
  gs_ok gs → ranking gs f → a ∈ dom (nodes gs) →
  ∃ S, lists_below gs [a] S ∧ ∀ k, cumN k gs a = lsum (ownN k gs) S.
Proof.
  intros Hok Hf. remember (size (nodes gs) - f a)%nat as m eqn:Hm. revert a Hm.
  induction m as [m IH] using lt_wf_ind. intros a Hm Ha.
  apply elem_of_dom in Ha as [d Hd].
  destruct (lists_below_children gs (outs (edges gs) a)) as (S & [HS HSi] & Hsum).
  - apply NoDup_outs, Hok.
  - intros c1 c2 e H1%elem_of_outs H2%elem_of_outs. apply (ok_diamond _ Hok a c1 c2 e H1 H2).
  - intros c Hc%elem_of_outs. apply edge_dom in Hc as Hcd. destruct Hcd as [Had Hcd].
    destruct Hf as (Hlt & Hb & _). apply Hlt in Hc. specialize (Hb c Hcd) as Hbc.
    eapply IH; [|done|done]. lia.
  - exists (a :: S). split.
    + split.
      * constructor; [|done]. intros (c & Hc%elem_of_outs & Hr)%HSi.
        destruct (ranking_reach gs f c a Hf Hr) as [->|]; destruct Hf as (Hlt & _);
          apply Hlt in Hc; lia.
      * intros i. rewrite elem_of_cons, HSi. setoid_rewrite elem_of_outs.
        setoid_rewrite list_elem_of_singleton. split.
        -- intros [->|(c & Hc & Hr)]; exists a; (split; [done|]); [apply rtc_refl|by econstructor].
        -- intros (? & -> & Hr). apply rtc_inv in Hr as [->|(c & ? & ?)]; eauto.
    + intros k. rewrite lsum_cons, <- Hsum. unfold cumN at 1, ownN. rewrite Hd. simpl.
      rewrite (ok_owes _ Hok k a d Hd). lia.
Qed.
End graph_facts.

(** ** A graph that satisfies the laws *)

Module ListGraph.

Record t := { lg_nodes : gmap nat StorageData; lg_raw : list (nat * nat) }.

Definition edges_of (g : t) : list (nat * nat) :=
  filter (λ e, is_Some (lg_nodes g !! e.1) ∧ is_Some (lg_nodes g !! e.2)) (lg_raw g).
Definition next (m : gmap nat StorageData) : nat := S (map_fold (λ i _ n, Nat.max i n) 0%nat m).

#[global] Instance list_graph : StableDiGraph t nat := {
  g_new := {| lg_nodes := ∅; lg_raw := [] |};
  g_add_node w g :=
    (next (lg_nodes g),
     {| lg_nodes := <[next (lg_nodes g) := w]> (lg_nodes g); lg_raw := edges_of g |});
  g_add_edge a b g := {| lg_nodes := lg_nodes g; lg_raw := (a, b) :: lg_raw g |};
  g_remove_node i g :=
    (lg_nodes g !! i,
     {| lg_nodes := delete i (lg_nodes g); lg_raw := lg_raw g |});
  g_node_weight g i := lg_nodes g !! i;
  g_set_weight i w g :=
    if decide (is_Some (lg_nodes g !! i))
    then {| lg_nodes := <[i := w]> (lg_nodes g); lg_raw := lg_raw g |} else g;
  g_outgoing g a := outs (edges_of g) a;
  g_incoming g b := ins (edges_of g) b;
  g_node_count g := size (lg_nodes g);
}.

Lemma next_fresh m : m !! next m = None.
Proof.
  assert (∀ i, is_Some (m !! i) → (i < next m)%nat) as Hlt.
  { unfold next. induction m as [|j d m Hj IH] using map_ind; intros i.
    - rewrite lookup_empty. by intros [].
    - rewrite map_fold_insert_L; [|intros; lia|done]. rewrite lookup_insert_is_Some.
      intros [->|[_ Hi%IH]]; lia. }
  destruct (m !! next m) eqn:Hn; [|done]. specialize (Hlt (next m)). rewrite Hn in Hlt.
  specialize (Hlt (mk_is_Some _ _ eq_refl)). lia.
Qed.

#[global, refine] Instance list_graph_spec : StableDiGraphSpec t nat := {
  g_nodes := lg_nodes; g_edges := edges_of;
}.
Proof.
  - done.
  - done.
  - done.
  - done.
  - intros g a b. unfold edges_of. rewrite list_elem_of_filter. by intros [? _].
  - done.
  - intros w g i g' [= <- <-]. split_and!; [apply next_fresh|done|]. unfold edges_of. simpl.
    rewrite list_filter_filter. erewrite list_filter_iff; [done|]. intros [a b]. simpl.
    rewrite !lookup_insert_is_Some'. naive_solver.
  - intros a b g Ha Hb. split; [done|]. unfold edges_of. simpl. by rewrite filter_cons_True.
  - intros i g. split_and!; [done..|]. unfold without, edges_of. simpl.
    rewrite list_filter_filter. erewrite list_filter_iff; [done|]. intros [a b]. simpl.
    rewrite !lookup_delete_is_Some. naive_solver.
  - intros i w g Hi. simpl. rewrite decide_True by done. split; [done|]. unfold edges_of. simpl.
    erewrite list_filter_iff; [done|]. intros [a b]. simpl.
    rewrite !lookup_insert_is_Some'. naive_solver.
Defined.
End ListGraph.
