(* ===== verification/TxPoolGraphSpec.v ===== *)
(** * What the dependency graph of the pool guarantees

    The properties of [GraphStorage]: storing a transaction and removing a
    subtree keep the graph consistent, the cumulative values of a node are those
    of its whole subtree, the admission check always answers, and input
    validation accepts exactly the inputs that can be spent. *)

From stdpp Require Import prelude gmap list strings relations.
From Stdlib Require Import ZArith Lia.
From S2P Require Import Prelude.
From S2P Require Import TxTypes.
From S2P Require Import TxPoolTypes.
From S2P Require Import TxPoolSpent.
From S2P Require Import TxPoolExtracted.
From S2P Require Import TxPoolGraph.
From S2P Require Import TxPoolGraphFacts.
Local Open Scope Z_scope.

Section graph_properties.
Context {G Idx : Type} `{Countable Idx} `{!StableDiGraph G Idx} `{!StableDiGraphSpec G Idx}.
Context `{!HashOrder Idx}.
Implicit Types (gs : GraphStorage G Idx).

Lemma creates_coin_id tx u : creates_coin tx u → u.1 = tx_id tx.
Proof.
  intros Hc. apply Is_true_true, existsb_exists in Hc as ([i o] & _ & Ho).
  unfold coin_slot in Ho. simpl in Ho. destruct o; try done. case_bool_decide; naive_solver.
Qed.

Lemma gs_ok_new max_chain : gs_ok (GraphStorage_new (G:=G) max_chain).
Proof.
  destruct (g_new_spec (G:=G)) as [Hn He].
  assert (nodes (GraphStorage_new (G:=G) max_chain) = ∅) as Hn' by done.
  assert (edges (GraphStorage_new (G:=G) max_chain) = []) as He' by done.
  split.
  - exists (λ _, 0%nat). unfold ranking. rewrite Hn', He'. set_solver.
  - rewrite He'. constructor.
  - intros x c1 c2 d Hx. unfold dep in Hx. rewrite He' in Hx. set_solver.
  - intros k a d. by rewrite Hn', lookup_empty.
  - intros k a d. by rewrite Hn', lookup_empty.
  - split; intros u i; rewrite Hn'; simpl; rewrite lookup_empty.
    all: split; [done|]. all: intros (d & Hd & _); by rewrite lookup_empty in Hd.
Qed.

(** No stored transaction has the id of [tx] or creates one of its contracts. *)
Definition new_to gs (tx : PoolTransaction) : Prop :=
  ∀ i d, nodes gs !! i = Some d →
    tx_id (transaction d) ≠ tx_id tx ∧
    ∀ c, creates_contract tx c → ¬ creates_contract (transaction d) c.

Lemma new_to_caches gs tx :
  caches_ok gs → new_to gs tx →
  (∀ u, creates_coin tx u → coins_creators gs !! u = None) ∧
  (∀ c, creates_contract tx c → contracts_creators gs !! c = None).
Proof.
  intros [Hc Hk] Hnew. split.
  - intros u Hu. destruct (coins_creators gs !! u) as [i|] eqn:Hi; [|done].
    apply Hc in Hi as (d & Hd & Hu'). apply creates_coin_id in Hu, Hu'.
    destruct (Hnew i d Hd). congruence.
  - intros c Hcr. destruct (contracts_creators gs !! c) as [i|] eqn:Hi; [|done].
    apply Hk in Hi as (d & Hd & Hu'). destruct (Hnew i d Hd) as [_ Hn]. by destruct (Hn c).
Qed.

Lemma stored_txinfo gs ct instant n gs' i :
  stored gs ct instant n gs' →
  txinfo <$> nodes gs' !! i =
  (if decide (i = n) then Some (ct_tx ct, instant) else txinfo <$> nodes gs !! i).
Proof.
  intros Hst. rewrite (stored_lookup _ _ _ _ _ Hst). destruct (decide (i = n)); [done|].
  destruct (nodes gs !! i); [|done]. cbn [fmap option_fmap option_map]. by case_decide.
Qed.

Lemma store_ok gs tx ct instant n gs' :
  gs_ok gs → can_store_transaction gs tx = Some (Ok ct) →
  store_transaction ct instant gs = (n, gs') →
  (∀ k, 0 ≤ own k tx) → new_to gs tx →
  (∀ k i d, nodes gs !! i = Some d → cum k d + own k tx ≤ U64) →
  gs_ok gs' ∧ stored gs ct instant n gs' ∧ ct_tx ct = tx ∧
  (∀ i, i ∈ ct_direct_dependencies ct ↔ ∃ input, input ∈ inputs tx ∧ creator_of gs input i).
Proof.
  intros Hok Hcan Hst Hown Hnew Hfit.
  destruct (can_store_total gs tx) as (r & Hr & Hspec). rewrite Hcan in Hr. injection Hr as <-.
  destruct Hspec as (Htx & Hdir & Htree & _ & _).
  pose proof (collect_direct_spec gs tx _ (ok_caches _ Hok) Hdir) as Hcre.
  assert (ct_direct_dependencies ct ⊆ dom (nodes gs)) as Hsub.
  { intros i (input & _ & Hi)%Hcre. by eapply creator_of_dom. }
  apply store_shape in Hst; [|done].
  destruct (new_to_caches gs tx (ok_caches _ Hok) Hnew) as [Hu Hc].
  rewrite <- Htx in *. split_and!; try done. eapply stored_ok; eauto.
Qed.

(** C21: Admission keeps the pool graph consistent.  When [can_store_transaction]
    accepts a transaction that is new to the pool and whose resources fit in
    64 bits on top of the cumulative ones, [store_transaction] adds exactly that
    transaction, makes it depend on exactly the creators of its inputs, and the
    graph keeps its invariant: acyclic, free of diamonds, cumulative values equal
    to a node plus its dependents, exact creator caches. *)
Theorem graph_store_integrity gs tx ct instant n gs' :
  gs_ok gs → can_store_transaction gs tx = Some (Ok ct) →
  store_transaction ct instant gs = (n, gs') →
  (∀ k, 0 ≤ own k tx) → new_to gs tx →
  (∀ k i d, nodes gs !! i = Some d → cum k d + own k tx ≤ U64) →
  gs_ok gs' ∧ nodes gs !! n = None ∧
  (∀ i, txinfo <$> nodes gs' !! i =
     if decide (i = n) then Some (tx, instant) else txinfo <$> nodes gs !! i) ∧
  (∀ a b, dep gs' a b ↔
     dep gs a b ∨ b = n ∧ ∃ input, input ∈ inputs tx ∧ creator_of gs input a).
Proof.
  intros Hok Hcan Hst Hown Hnew Hfit.
  destruct (store_ok gs tx ct instant n gs') as (Hok' & Hs & <- & Hdir); [done..|].
  split_and!; [done| | |].
  - apply not_elem_of_dom, (st_fresh _ _ _ _ _ Hs).
  - intros i. by apply stored_txinfo.
  - intros a b. rewrite (stored_dep _ _ _ _ _ Hs), Hdir. naive_solver.
Qed.

(** Removing a transaction with its dependents.  On a consistent graph the
    breadth-first removal never hits its [expect]: it removes the node and
    everything that depends on it, each once, returns their entries, leaves every
    other transaction and dependency in place, and the graph stays consistent. *)
Theorem graph_remove_subtree gs x :
  gs_ok gs →
  ∃ ids removed gs', remove_transaction_and_dependents_subtree x gs = Some (removed, gs') ∧
    gs_ok gs' ∧ NoDup ids ∧
    (∀ i, i ∈ ids ↔ is_Some (nodes gs !! x) ∧ reach gs x i) ∧
    Forall2 (λ i d, txinfo <$> nodes gs !! i = Some (txinfo d)) ids removed ∧
    (∀ i, txinfo <$> nodes gs' !! i = if decide (i ∈ ids) then None else txinfo <$> nodes gs !! i) ∧
    (∀ a b, dep gs' a b ↔ dep gs a b ∧ a ∉ ids ∧ b ∉ ids).
Proof.
  intros Hok. destruct (remove_subtree_spec gs x Hok) as (ids & removed & gs' & Hr & Hok' & Hrm & Hi).
  setoid_rewrite elem_of_dom in Hi. destruct Hrm. by exists ids, removed, gs'.
Qed.

(** The cumulative tip, gas, size and count of a node are the sums over the
    node and all its transitive dependents, each counted once. *)
Theorem cumulative_is_subtree_sum gs a d :
  gs_ok gs → nodes gs !! a = Some d →
  ∃ S, NoDup S ∧ (∀ i, i ∈ S ↔ reach gs a i) ∧ ∀ k, cum k d = lsum (ownN k gs) S.
Proof.
  intros Hok Hd. destruct (ok_rank _ Hok) as [f Hf].
  destruct (cumulative_below gs f a) as (S & [Hnd HS] & Hsum); [done..|by apply elem_of_dom|].
  exists S. split_and!; [done| |].
  - intros i. rewrite HS. setoid_rewrite list_elem_of_singleton. naive_solver.
  - intros k. rewrite <- Hsum. unfold cumN. by rewrite Hd.
Qed.

(** [can_store_transaction] always answers: its loop ends within
    [max_txs_chain_count] + 1 iterations on any graph.  An accepted transaction
    depends on fewer transactions than the limit, none of them a blob and none
    with a full chain; a refused one gets one of the three dependency errors. *)
Theorem can_store_answers gs tx :
  ∃ r, can_store_transaction gs tx = Some r ∧
    match r with
    | Ok ct => ct_tx ct = tx ∧ chain_ok gs (ct_all_dependencies ct)
    | Err e => dependency_error e
    end.
Proof.
  destruct (can_store_total gs tx) as (r & Hr & Hs). exists r. split; [done|].
  destruct r; naive_solver.
Qed.

(** Removing one executable transaction (selected for a block, or committed)
    keeps the graph consistent and touches no other node. *)
Theorem graph_remove_executable gs x d :
  gs_ok gs → nodes gs !! x = Some d → has_dependencies gs x = false →
  ∃ gs', remove_transaction x gs = (Some d, gs') ∧ gs_ok gs' ∧
    nodes gs' = delete x (nodes gs).
Proof.
  intros Hok Hx Hdeps. destruct (remove_transaction_spec gs x d) as (gs' & ?); naive_solver.
Qed.

(** *** Input validation *)

Context {C : Type} `{!LruCache C}.
Context (ps : TxPoolPersistentStorage) (eo : ExtractedOutputs) (si : SpentInputs C).

Definition made_in_pool gs (u : UtxoId) : Prop :=
  ∃ i d, nodes gs !! i = Some d ∧ creates_coin (transaction d) u.

(** A coin input is spendable when a pooled transaction makes exactly that coin,
    or, outside the pool, when it is unspent and either in the database with the
    same data or among the outputs of transactions already extracted. *)
Definition coin_spendable gs (utxo_validation : bool) (c : CoinInput) (input : Input) : Prop :=
  (∃ i d, nodes gs !! i = Some d ∧ creates_coin (transaction d) (in_utxo_id c) ∧
     outputs (transaction d) !! Z.to_nat (in_utxo_id c).2 =
       Some (OutputCoin (in_owner c) (in_amount c) (in_asset_id c))) ∨
  (¬ made_in_pool gs (in_utxo_id c) ∧
   (utxo_validation = true →
      is_spent_utxo (in_utxo_id c) si = false ∧
      ((∃ coin, ps_utxo ps (in_utxo_id c) = Ok (Some coin) ∧
         coin_matches_input coin input = Some true) ∨
       (ps_utxo ps (in_utxo_id c) = Ok None ∧
        coin_exists (in_utxo_id c) (in_owner c) (in_amount c) (in_asset_id c) eo = true)))).

Definition input_spendable gs (utxo_validation : bool) (input : Input) : Prop :=
  match input with
  | CoinSigned c | CoinPredicate c => coin_spendable gs utxo_validation c input
  | MessageCoinSigned m | MessageCoinPredicate m
  | MessageDataSigned m _ | MessageDataPredicate m _ =>
      utxo_validation = true →
      is_spent_message (in_nonce m) si = false ∧
      ∃ msg, ps_message ps (in_nonce m) = Ok (Some msg) ∧
        message_matches_input msg input = Some true
  | InputContract c =>
      (∃ i d, nodes gs !! i = Some d ∧ creates_contract (transaction d) c) ∨
      ps_contract_exist ps c = Ok true ∨
      (ps_contract_exist ps c = Ok false ∧ contract_exists c eo = true)
  end.

(** The slot of a coin made in the pool is an output of its creator. *)
Lemma creates_coin_output tx u :
  creates_coin tx u → ∃ to amount asset, outputs tx !! Z.to_nat u.2 = Some (OutputCoin to amount asset).
Proof.
  intros Hc. apply Is_true_true, existsb_exists in Hc as ([i o] & Hin & Ho).
  apply list_elem_of_In, elem_of_lookup_imap_1 in Hin as (j & o' & [= -> ->] & Hl).
  unfold coin_slot in Ho. simpl in Ho. destruct o'; try done.
  case_bool_decide as Hu; [|done]. rewrite Hu. simpl. rewrite Nat2Z.id. eauto.
Qed.

Lemma check_spend_spec output c input :
  input = CoinSigned c ∨ input = CoinPredicate c →
  is_ok (check_if_coin_input_can_spend_output output input) = true ↔
  output = OutputCoin (in_owner c) (in_amount c) (in_asset_id c).
Proof.
  intros [-> | ->]; destruct output; simpl; try done; repeat case_decide; naive_solver.
Qed.

(** The outcome of validating one input: accepted, recorded as missing, or an
    error. *)
Definition input_verdict gs v missing input
    (r : result (list MissingInput) InputValidationErrorType) : Prop :=
  match r with
  | Ok missing' =>
      (missing' = missing ∧ input_spendable gs v input) ∨
      ((∃ m, missing' = missing ++ [m]) ∧ ¬ input_spendable gs v input)
  | Err _ => ¬ input_spendable gs v input
  end.

Ltac verdict :=
  intros Hsp; eexists; (split; [done|]); unfold input_verdict; rewrite Hsp; naive_solver.

Lemma validate_coin gs v missing c input :
  caches_ok gs → input = CoinSigned c ∨ input = CoinPredicate c →
  ∃ r, validate_input gs ps eo si v missing input = Some r ∧ input_verdict gs v missing input r.
Proof.
  intros Hcaches Hin. destruct (coins_creators gs !! in_utxo_id c) as [i|] eqn:Hi.
  - destruct (proj1 Hcaches (in_utxo_id c) i) as [Hc _]. destruct (Hc Hi) as (d & Hd & Hu).
    destruct (creates_coin_output _ _ Hu) as (to & amount & asset & Hout).
    assert (input_spendable gs v input ↔ is_ok (check_if_coin_input_can_spend_output
      (OutputCoin to amount asset) input) = true) as Hsp.
    { rewrite (check_spend_spec _ c input Hin).
      transitivity (coin_spendable gs v c input); [by destruct Hin as [-> | ->]|].
      unfold coin_spendable, made_in_pool. split.
      - intros [(j & d' & Hd' & Hu' & Ho)|[Hno _]]; [|destruct Hno; eauto].
        assert (coins_creators gs !! in_utxo_id c = Some j) by (apply Hcaches; eauto).
        simplify_eq. done.
      - intros Ho. left. exists i, d. by rewrite Hout, Ho. }
    assert (validate_input gs ps eo si v missing input =
      Some (match check_if_coin_input_can_spend_output (OutputCoin to amount asset) input with
            | Err e => Err (Inconsistency e) | Ok _ => Ok missing end)) as ->.
    { destruct Hin as [-> | ->]; cbn [validate_input]; rewrite Hi; unfold get;
        rewrite g_weight_spec; fold (nodes gs); rewrite Hd; cbn -[check_if_coin_input_can_spend_output];
        rewrite Hout; cbn -[check_if_coin_input_can_spend_output];
        by destruct (check_if_coin_input_can_spend_output _ _). }
    eexists. split; [done|]. unfold input_verdict.
    destruct (check_if_coin_input_can_spend_output _ _); simpl in *; rewrite Hsp; naive_solver.
  - assert (input_spendable gs v input ↔ (v = true → is_spent_utxo (in_utxo_id c) si = false ∧
      ((∃ coin, ps_utxo ps (in_utxo_id c) = Ok (Some coin) ∧
         coin_matches_input coin input = Some true) ∨
       (ps_utxo ps (in_utxo_id c) = Ok None ∧
        coin_exists (in_utxo_id c) (in_owner c) (in_amount c) (in_asset_id c) eo = true)))) as Hsp.
    { assert (¬ made_in_pool gs (in_utxo_id c)) as Hno.
      { intros (j & Hj). apply (proj1 Hcaches) in Hj. congruence. }
      transitivity (coin_spendable gs v c input); [by destruct Hin as [-> | ->]|].
      unfold coin_spendable. unfold made_in_pool in *. naive_solver. }
    assert (validate_input gs ps eo si v missing input =
      if v then
        if is_spent_utxo (in_utxo_id c) si
        then Some (Err (Inconsistency (UtxoInputWasAlreadySpent (in_utxo_id c))))
        else match ps_utxo ps (in_utxo_id c) with
             | Ok (Some coin) =>
                 if unwrap_or (coin_matches_input coin input) false then Some (Ok missing)
                 else Some (Err (Inconsistency (ErrInputValidation NotInsertedIoCoinMismatch)))
             | Ok None =>
                 if coin_exists (in_utxo_id c) (in_owner c) (in_amount c) (in_asset_id c) eo
                 then Some (Ok missing) else Some (Ok (missing ++ [MissingUtxo (in_utxo_id c)]))
             | Err e => Some (Err (Inconsistency (ErrDatabase e)))
             end
      else Some (Ok missing)) as -> by (destruct Hin as [-> | ->]; cbn [validate_input]; by rewrite Hi).
    revert Hsp.
    destruct v; [|verdict].
    destruct (is_spent_utxo _ _); [verdict|].
    destruct (ps_utxo _ _) as [[coin|]|e]; [|destruct (coin_exists _ _ _ _ _); verdict|verdict].
    destruct (coin_matches_input coin input) as [[]|] eqn:Hm; simpl; intros Hsp;
      (eexists; split; [done|]); unfold input_verdict; rewrite Hsp.
    { left. eauto 10. }
    all: intros Hx; destruct (Hx eq_refl) as (_ & [(? & [= <-] & ?)|[? _]]); congruence.
Qed.

Lemma validate_input_spec gs v missing input :
  caches_ok gs →
  ∃ r, validate_input gs ps eo si v missing input = Some r ∧ input_verdict gs v missing input r.
Proof.
  intros Hcaches.
  assert (∀ m input, input_message input = Some m →
    ∃ r, validate_input gs ps eo si v missing input = Some r ∧ input_verdict gs v missing input r)
    as Hmsg.
  { clear input. intros m input Hm.
    assert (input_spendable gs v input ↔ (v = true → is_spent_message (in_nonce m) si = false ∧
      ∃ msg, ps_message ps (in_nonce m) = Ok (Some msg) ∧
        message_matches_input msg input = Some true)) as Hsp by (by destruct input; simplify_eq/=).
    assert (validate_input gs ps eo si v missing input =
      if v then
        if is_spent_message (in_nonce m) si
        then Some (Err (Inconsistency (MessageInputWasAlreadySpent (in_nonce m))))
        else match ps_message ps (in_nonce m) with
             | Ok (Some msg) =>
                 if unwrap_or (message_matches_input msg input) false then Some (Ok missing)
                 else Some (Err (Inconsistency (ErrInputValidation NotInsertedIoMessageMismatch)))
             | Ok None => Some (Err (Inconsistency
                 (ErrInputValidation (NotInsertedInputMessageUnknown (in_nonce m)))))
             | Err e => Some (Err (Inconsistency (ErrDatabase e)))
             end
      else Some (Ok missing)) as -> by (by destruct input; simplify_eq/=).
    revert Hsp. destruct v; [|verdict].
    destruct (is_spent_message _ _); [verdict|].
    destruct (ps_message _ _) as [[msg|]|e]; [|verdict|verdict].
    destruct (message_matches_input msg input) as [[]|] eqn:Hmm; simpl; intros Hsp;
      (eexists; split; [done|]); unfold input_verdict; rewrite Hsp.
    { left. eauto 10. }
    all: intros Hx; destruct (Hx eq_refl) as (_ & ? & [= <-] & ?); congruence. }
  destruct input as [c|c|c|m|m|m data|m data]; [by eapply validate_coin; eauto..| | | | |].
  2-5: by eapply Hmsg.
  assert (contracts_creators gs !! c = None →
    ¬ ∃ i d, nodes gs !! i = Some d ∧ creates_contract (transaction d) c) as Hno.
  { intros Hn (i & Hi). apply (proj2 Hcaches) in Hi. congruence. }
  cbn [validate_input]. destruct (contracts_creators gs !! c) as [i|] eqn:Hi.
  { apply (proj2 Hcaches) in Hi. eexists. split; [done|]. left. split; [done|]. left. eauto. }
  specialize (Hno eq_refl). unfold input_verdict, input_spendable.
  destruct (ps_contract_exist ps c) as [[]|e]; [| |];
    [|destruct (contract_exists c eo)|]; eexists; (split; [done|]); naive_solver.
Qed.

Lemma validate_loop_spec gs v missing l :
  caches_ok gs →
  ∃ r, validate_inputs_loop gs ps eo si v missing l = Some r ∧
    match r with
    | Ok missing' => ∃ extra, missing' = missing ++ extra ∧
        (extra = [] ↔ Forall (input_spendable gs v) l)
    | Err _ => ¬ Forall (input_spendable gs v) l
    end.
Proof.
  intros Hc. revert missing. induction l as [|input l IH]; intros missing; cbn [validate_inputs_loop].
  { eexists. split; [done|]. exists []. by rewrite app_nil_r. }
  destruct (validate_input_spec gs v missing input Hc) as (r & -> & Hr). simpl.
  destruct r as [missing1|e]; [|eexists; split; [done|]; cbn; rewrite Forall_cons; naive_solver].
  destruct (IH missing1) as (r & -> & Hr2). eexists. split; [done|].
  destruct r as [missing2|e]; [|cbn; rewrite Forall_cons; naive_solver].
  destruct Hr2 as (extra & -> & Hex). setoid_rewrite Forall_cons.
  destruct Hr as [[-> Hsp]|[[m ->] Hsp]].
  - exists extra. naive_solver.
  - exists (m :: extra). rewrite <- app_assoc. naive_solver.
Qed.

Lemma validate_inputs_spec gs tx v :
  caches_ok gs →
  ∃ r, validate_inputs gs tx ps eo si v = Some r ∧
    (r = Ok () ↔ Forall (input_spendable gs v) (inputs tx)).
Proof.
  intros Hc. unfold validate_inputs.
  destruct (validate_loop_spec gs v [] (inputs tx) Hc) as (r & -> & Hr). simpl.
  eexists. split; [done|]. destruct r as [missing|e]; simpl; [|naive_solver].
  destruct Hr as (extra & -> & Hex). simpl. case_decide; naive_solver.
Qed.

(** Input validation is exact.  On consistent caches [validate_inputs]
    always answers (its output index is never out of range) and accepts exactly
    the transactions all of whose inputs are spendable. *)
Theorem validate_inputs_exact gs tx v :
  caches_ok gs →
  ∃ r, validate_inputs gs tx ps eo si v = Some r ∧
    (r = Ok () ↔ Forall (input_spendable gs v) (inputs tx)).
Proof. apply validate_inputs_spec. Qed.
End graph_properties.

(** ** A parent and its child *)

Module Sample.
Abbreviation graph_store := (GraphStorage ListGraph.t nat).

Definition parent : PoolTransaction := sample_tx 1 3 [sample_coin (9, 0)] [OutputCoin 7 100 0].
Definition child : PoolTransaction := sample_tx 2 5 [sample_coin (1, 0)] [].

Definition checked_of (gs : graph_store) (tx : PoolTransaction) : CheckedTransaction nat :=
  match can_store_transaction gs tx with
  | Some (Ok ct) => ct
  | _ => {| ct_tx := tx; ct_direct_dependencies := ∅; ct_all_dependencies := ∅ |}
  end.
Definition gs0 : graph_store := GraphStorage_new 10.
Definition gs1 : graph_store := (store_transaction (checked_of gs0 parent) 0 gs0).2.
Definition gs2 : graph_store := (store_transaction (checked_of gs1 child) 1 gs1).2.

Lemma sample_own tx : tx = parent ∨ tx = child → ∀ k, 0 ≤ own k tx.
Proof. intros [-> | ->] []; vm_compute; discriminate. Qed.

Lemma gs1_nodes i d : nodes gs1 !! i = Some d → i = 1%nat ∧ d = new_node parent 0.
Proof.
  assert (nodes gs1 = {[1%nat := new_node parent 0]}) as -> by (vm_compute; reflexivity).
  rewrite lookup_singleton_Some. naive_solver.
Qed.
Lemma gs1_fits k i d : nodes gs1 !! i = Some d → cum k d + own k child ≤ U64.
Proof. intros [_ ->]%gs1_nodes. destruct k; vm_compute; discriminate. Qed.
Lemma gs1_new : new_to gs1 child.
Proof. intros i d [_ ->]%gs1_nodes. split; [vm_compute; lia|]. by intros c []. Qed.

Lemma gs1_ok : gs_ok gs1.
Proof.
  refine (proj1 (store_ok gs0 parent (checked_of gs0 parent) 0 1%nat gs1 (gs_ok_new 10)
    _ _ (sample_own _ (or_introl eq_refl)) _ _)).
  - vm_compute. reflexivity.
  - vm_compute. reflexivity.
  - intros i d. unfold nodes. simpl. by rewrite lookup_empty.
  - intros k i d. unfold nodes. simpl. by rewrite lookup_empty.
Qed.

Lemma gs2_ok : gs_ok gs2.
Proof.
  refine (proj1 (store_ok gs1 child (checked_of gs1 child) 1 2%nat gs2 gs1_ok
    _ _ (sample_own _ (or_intror eq_refl)) gs1_new gs1_fits)); vm_compute; reflexivity.
Qed.
End Sample.

Lemma graph_store_integrity_witness :
  gs_ok Sample.gs2 ∧ dep Sample.gs2 1%nat 2%nat.
Proof.
  destruct (graph_store_integrity Sample.gs1 Sample.child (Sample.checked_of Sample.gs1 Sample.child)
    1 2%nat Sample.gs2 Sample.gs1_ok) as (Hok & _ & _ & Hdep).
  - vm_compute. reflexivity.
  - vm_compute. reflexivity.
  - apply Sample.sample_own. by right.
  - apply Sample.gs1_new.
  - apply Sample.gs1_fits.
  - split; [done|]. apply Hdep. right. split; [done|]. exists (sample_coin (1, 0)).
    split; [apply list_elem_of_here|]. exists (new_node Sample.parent 0).
    split; vm_compute; done.
Defined.

Lemma graph_remove_subtree_witness :
  ∃ removed gs', remove_transaction_and_dependents_subtree 1%nat Sample.gs2 = Some (removed, gs') ∧
    gs_ok gs' ∧ length removed = 2%nat.
Proof.
  destruct (graph_remove_subtree Sample.gs2 1%nat Sample.gs2_ok)
    as (ids & removed & gs' & Hr & Hok & _).
  exists removed, gs'. split; [done|]. split; [done|].
  assert (length <$> (fst <$> remove_transaction_and_dependents_subtree 1%nat Sample.gs2)
    = Some 2%nat) as Hl by (vm_compute; reflexivity).
  rewrite Hr in Hl. by injection Hl.
Defined.

Lemma cumulative_is_subtree_sum_witness :
  ∃ d S, nodes Sample.gs2 !! 1%nat = Some d ∧ cum RTip d = 8 ∧
    cum RTip d = lsum (ownN RTip Sample.gs2) S.
Proof.
  destruct (nodes Sample.gs2 !! 1%nat) as [d|] eqn:Hd; [|vm_compute in Hd; discriminate].
  destruct (cumulative_is_subtree_sum Sample.gs2 1%nat d Sample.gs2_ok Hd) as (S & _ & _ & Hsum).
  exists d, S. split; [done|]. split; [|apply Hsum]. vm_compute in Hd. by injection Hd as <-.
Defined.

Lemma graph_remove_executable_witness :
  ∃ d gs', remove_transaction 1%nat Sample.gs2 = (Some d, gs') ∧ gs_ok gs'.
Proof.
  destruct (nodes Sample.gs2 !! 1%nat) as [d|] eqn:Hd; [|vm_compute in Hd; discriminate].
  destruct (graph_remove_executable Sample.gs2 1%nat d Sample.gs2_ok Hd) as (gs' & Hr & Hok & _).
  - vm_compute. reflexivity.
  - by exists d, gs'.
Defined.

(** The child spends the output of its parent in the pool. *)
Lemma validate_inputs_exact_witness :
  let ps := {| ps_contains_tx _ := Ok false; ps_utxo _ := Ok None; ps_message _ := Ok None;
               ps_contract_exist _ := Ok false;
               ps_blob_exist _ := Ok false |} in
  Forall (input_spendable ps ExtractedOutputs_new (SpentInputs_new (C:=ListLru) 5) Sample.gs1 true)
    (inputs Sample.child).
Proof.
  intros ps.
  destruct (validate_inputs_exact ps ExtractedOutputs_new (SpentInputs_new (C:=ListLru) 5)
    Sample.gs1 Sample.child true (ok_caches _ Sample.gs1_ok)) as (r & Hr & Hspec).
  apply Hspec. vm_compute in Hr. by injection Hr as <-.
Defined.
