(* ===== verification/TxPoolSelection.v ===== *)
(** * Selecting transactions for a block

    Model of [RatioTipGasSelection] (txpool_v2/src/selection_algorithms).  The
    [BTreeMap<Reverse<Key>, _>] is the list of its entries in iteration order;
    the storage is any instance of the trait
    [RatioTipGasSelectionAlgorithmStorage].  [None] is a panic. *)

From stdpp Require Import prelude gmap list strings.
From Stdlib Require Import ZArith Lia Sorted.
From S2P Require Import Prelude.
From S2P Require Import TxTypes.
From S2P Require Import TxPoolTypes.
From S2P Require Import TxPoolGraph.
Local Open Scope Z_scope.

(** ** The order *)

(** [Ratio<u64>] is kept as numerator and denominator: its comparison is that of
    the fractions, whatever their reduced form. *)
Record Key := {
  k_num : Z;
  k_den : Z;
  k_creation_instant : Z;
  k_tx_id : TxId;
}.

Definition ratio_cmp (a b : Key) : comparison := Z.compare (k_num a * k_den b) (k_num b * k_den a).

Definition key_cmp (self other : Key) : comparison :=
  match ratio_cmp self other with
  | Eq =>
      match Z.compare (k_creation_instant other) (k_creation_instant self) with
      | Eq => Z.compare (k_tx_id self) (k_tx_id other)
      | instant_cmp => instant_cmp
      end
  | cmp => cmp
  end.

Definition key (store_entry : StorageData) : Key :=
  {| k_num := sat_add U64 (tip (transaction store_entry)) 1;
     k_den := max_gas (transaction store_entry);
     k_creation_instant := creation_instant store_entry;
     k_tx_id := tx_id (transaction store_entry) |}.

(** ** The sorted map *)

Section btree.
Context {Idx : Type}.

(** [BTreeMap::insert]: on an equal key the value is replaced. *)
Fixpoint bt_insert (k : Key) (v : Idx) (l : list (Key * Idx)) : list (Key * Idx) :=
  match l with
  | [] => [(k, v)]
  | (k', v') :: l' =>
      match key_cmp k k' with
      | Gt => (k, v) :: l
      | Eq => (k', v) :: l'
      | Lt => (k', v') :: bt_insert k v l'
      end
  end.

Fixpoint bt_remove (k : Key) (l : list (Key * Idx)) : list (Key * Idx) :=
  match l with
  | [] => []
  | (k', v') :: l' =>
      match key_cmp k k' with
      | Gt => l
      | Eq => l'
      | Lt => (k', v') :: bt_remove k l'
      end
  end.
End btree.

(** ** The storage the algorithm works on *)

Class SelectionStorage (S Idx : Type) := {
  ss_get : S → Idx → option StorageData;
  ss_get_dependents : S → Idx → list Idx;
  ss_has_dependencies : S → Idx → bool;
  ss_remove : Idx → S → option StorageData * S;
}.

#[global] Instance graph_selection_storage {G Idx} `{Countable Idx, !StableDiGraph G Idx} :
    SelectionStorage (GraphStorage G Idx) Idx := {
  ss_get := get;
  ss_get_dependents := get_direct_dependents;
  ss_has_dependencies := has_dependencies;
  ss_remove := remove_transaction;
}.

Record Constraints := {
  minimal_gas_price : Z;
  c_max_gas : Z;
  maximum_txs : Z;
  maximum_block_size : Z;
  excluded_contracts : gset ContractId;
}.

Section selection.
Context {S Idx : Type} `{!SelectionStorage S Idx}.

Record RatioTipGasSelection := {
  executable_transactions_sorted_tip_gas_ratio : list (Key * Idx);
}.

Definition RatioTipGasSelection_new : RatioTipGasSelection :=
  {| executable_transactions_sorted_tip_gas_ratio := [] |}.

Definition on_removed_transaction_inner (k : Key) (sel : RatioTipGasSelection) :
    RatioTipGasSelection :=
  {| executable_transactions_sorted_tip_gas_ratio :=
       bt_remove k (executable_transactions_sorted_tip_gas_ratio sel) |}.

Definition new_executable_transaction (storage_id : Idx) (store_entry : StorageData)
    (sel : RatioTipGasSelection) : RatioTipGasSelection :=
  {| executable_transactions_sorted_tip_gas_ratio :=
       bt_insert (key store_entry) storage_id
         (executable_transactions_sorted_tip_gas_ratio sel) |}.

Definition on_removed_executable (storage_entry : StorageData) (sel : RatioTipGasSelection) :
    RatioTipGasSelection :=
  on_removed_transaction_inner (key storage_entry) sel.

Definition get_less_worth_txs (sel : RatioTipGasSelection) : list Idx :=
  reverse (executable_transactions_sorted_tip_gas_ratio sel).*2.

Definition number_of_executable_transactions (sel : RatioTipGasSelection) : Z :=
  Z.of_nat (length (executable_transactions_sorted_tip_gas_ratio sel)).

(** ** Gathering *)

(** The local variables of [gather_best_txs] during one pass. *)
Record Gather := {
  gas_left : Z;
  space_left : Z;
  nb_left : Z;
  g_result : list StorageData;
  g_storage : S;
  clean_up_list : list Key;
  transactions_to_remove : list Key;
  transactions_to_promote : list Idx;
}.

Definition uses_excluded (c : Constraints) (tx : PoolTransaction) : bool :=
  existsb (λ input, match input with
                    | InputContract contract_id => bool_decide (contract_id ∈ excluded_contracts c)
                    | _ => false
                    end) (inputs tx).

(** The body of the inner loop once the transaction has been selected. *)
Definition select_tx (k : Key) (storage_id : Idx) (tx : PoolTransaction) (g : Gather) :
    option Gather :=
  let dependents := ss_get_dependents (g_storage g) storage_id in
  match ss_remove storage_id (g_storage g) with
  | (None, _) => None
  | (Some removed, storage) =>
      Some {| gas_left := sat_sub (gas_left g) (max_gas tx);
              space_left := sat_sub (space_left g) (metered_bytes_size tx);
              nb_left := sat_sub (nb_left g) 1;
              g_result := g_result g ++ [removed];
              g_storage := storage;
              clean_up_list := clean_up_list g ++ [k];
              transactions_to_remove := transactions_to_remove g;
              transactions_to_promote := transactions_to_promote g ++
                filter (λ d, ss_has_dependencies storage d = false) dependents |}
  end.

Definition note_missing (k : Key) (g : Gather) : Gather :=
  {| gas_left := gas_left g; space_left := space_left g; nb_left := nb_left g;
     g_result := g_result g; g_storage := g_storage g; clean_up_list := clean_up_list g;
     transactions_to_remove := transactions_to_remove g ++ [k];
     transactions_to_promote := transactions_to_promote g |}.

(** The loop over the executable transactions. *)
Fixpoint gather_pass (c : Constraints) (entries : list (Key * Idx)) (g : Gather) : option Gather :=
  match entries with
  | [] => Some g
  | (k, storage_id) :: entries =>
      if decide (nb_left g = 0 ∨ gas_left g = 0 ∨ space_left g = 0) then Some g
      else
        match ss_get (g_storage g) storage_id with
        | None => gather_pass c entries (note_missing k g)
        | Some stored_transaction =>
            let tx := transaction stored_transaction in
            if uses_excluded c tx then gather_pass c entries g
            else if decide (max_gas_price tx < minimal_gas_price c) then gather_pass c entries g
            else if decide (max_gas tx > gas_left g ∨ metered_bytes_size tx > space_left g)
            then gather_pass c entries g
            else g ← select_tx k storage_id tx g; gather_pass c entries g
        end
  end.

Definition start_pass (g : Gather) : Gather :=
  {| gas_left := gas_left g; space_left := space_left g; nb_left := nb_left g;
     g_result := g_result g; g_storage := g_storage g; clean_up_list := [];
     transactions_to_remove := []; transactions_to_promote := [] |}.

(** [new_executable_transaction] for each promoted transaction. *)
Fixpoint promote_all (storage : S) (l : list Idx) (sel : RatioTipGasSelection) :
    option RatioTipGasSelection :=
  match l with
  | [] => Some sel
  | promote :: l =>
      d ← ss_get storage promote;
      promote_all storage l (new_executable_transaction promote d sel)
  end.

(** The outer loop; every round that goes on has selected a transaction, so
    [nb_left] bounds the number of rounds.  The result has the flag that tells
    whether subscribers are notified. *)
Fixpoint gather_loop (fuel : nat) (c : Constraints) (sel : RatioTipGasSelection) (g : Gather)
    (add_new_executable : bool) : option (RatioTipGasSelection * Gather * bool) :=
  if decide (gas_left g > 0 ∧ nb_left g > 0 ∧ space_left g > 0 ∧
             executable_transactions_sorted_tip_gas_ratio sel ≠ [])
  then
    match fuel with
    | O => None
    | Datatypes.S fuel =>
        g ← gather_pass c (executable_transactions_sorted_tip_gas_ratio sel) (start_pass g);
        let sel := foldl (λ sel k, on_removed_transaction_inner k sel) sel
                     (transactions_to_remove g) in
        match clean_up_list g, transactions_to_promote g with
        | [], [] => Some (sel, g, add_new_executable)
        | cleaned, promoted =>
            let sel := foldl (λ sel k, on_removed_transaction_inner k sel) sel cleaned in
            match promoted with
            | [] => gather_loop fuel c sel g add_new_executable
            | _ =>
                sel ← promote_all (g_storage g) promoted sel;
                gather_loop fuel c sel g true
            end
        end
    end
  else Some (sel, g, add_new_executable).

Definition gather_best_txs (c : Constraints) (sel : RatioTipGasSelection) (storage : S) :
    option (RatioTipGasSelection * list StorageData * S * bool) :=
  r ← gather_loop (Datatypes.S (Z.to_nat (maximum_txs c))) c sel
        {| gas_left := c_max_gas c; space_left := maximum_block_size c;
           nb_left := maximum_txs c; g_result := []; g_storage := storage;
           clean_up_list := []; transactions_to_remove := [];
           transactions_to_promote := [] |} false;
  let '(sel, g, notify) := r in
  Some (sel, g_result g, g_storage g, notify).
End selection.
Arguments RatioTipGasSelection : clear implicits.
Arguments RatioTipGasSelection Idx : assert.
Arguments Gather : clear implicits.
