(* ===== verification/TxPoolSelectionFacts.v ===== *)
(** * Correctness of the selection of transactions

    The key order is total, the sorted map keeps its entries sorted and exact,
    what is gathered respects the constraints of the block for any storage, and
    on the dependency graph the gathering never panics, takes a transaction only
    after everything it depends on and leaves the pool consistent. *)

From stdpp Require Import prelude gmap list strings relations.
From Stdlib Require Import ZArith Lia Sorted.
From S2P Require Import Prelude.
From S2P Require Import TxTypes.
From S2P Require Import TxPoolTypes.
From S2P Require Import TxPoolGraph.
From S2P Require Import TxPoolGraphFacts.
From S2P Require Import TxPoolGraphSpec.
From S2P Require Import TxPoolSelection.
Local Open Scope Z_scope.

(** ** The key order *)

Definition key_gt (a b : Key) : Prop := key_cmp a b = Gt.

Lemma key_cmp_antisym a b : key_cmp a b = CompOpp (key_cmp b a).
Proof.
  unfold key_cmp, ratio_cmp. rewrite (Z.compare_antisym (k_num b * k_den a)).
  destruct (k_num b * k_den a ?= k_num a * k_den b); simpl; [|done..].
  rewrite (Z.compare_antisym (k_creation_instant a) (k_creation_instant b)).
  destruct (k_creation_instant a ?= k_creation_instant b); simpl; [|done..].
  apply Z.compare_antisym.
Qed.

Lemma key_cmp_spec a b :
  match key_cmp a b with
  | Gt => k_num a * k_den b > k_num b * k_den a ∨
          (k_num a * k_den b = k_num b * k_den a ∧
           (k_creation_instant a < k_creation_instant b ∨
            (k_creation_instant a = k_creation_instant b ∧ k_tx_id a > k_tx_id b)))
  | Eq => k_num a * k_den b = k_num b * k_den a ∧
          k_creation_instant a = k_creation_instant b ∧ k_tx_id a = k_tx_id b
  | Lt => k_num a * k_den b < k_num b * k_den a ∨
          (k_num a * k_den b = k_num b * k_den a ∧
           (k_creation_instant a > k_creation_instant b ∨
            (k_creation_instant a = k_creation_instant b ∧ k_tx_id a < k_tx_id b)))
  end.
Proof.
  unfold key_cmp, ratio_cmp.
  destruct (Z.compare_spec (k_num a * k_den b) (k_num b * k_den a)); [|lia..].
  destruct (Z.compare_spec (k_creation_instant b) (k_creation_instant a)); [|lia..].
  destruct (Z.compare_spec (k_tx_id a) (k_tx_id b)); lia.
Qed.

Lemma key_gt_trans a b c :
  0 < k_den a → 0 < k_den b → 0 < k_den c → key_gt a b → key_gt b c → key_gt a c.
Proof.
  unfold key_gt. intros Ha Hb Hc Hab Hbc.
  pose proof (key_cmp_spec a b) as H1. pose proof (key_cmp_spec b c) as H2.
  pose proof (key_cmp_spec a c) as H3. rewrite Hab in H1. rewrite Hbc in H2.
  assert (k_num b * k_den a ≤ k_num a * k_den b) as G1 by lia.
  assert (k_num c * k_den b ≤ k_num b * k_den c) as G2 by lia.
  assert (k_num c * k_den a ≤ k_num a * k_den c) as G3.
  { apply (Z.mul_le_mono_pos_r _ _ (k_den b)); [done|]. nia. }
  assert (k_num a * k_den c = k_num c * k_den a →
    k_num a * k_den b = k_num b * k_den a ∧ k_num b * k_den c = k_num c * k_den b) as G4.
  { intros Heq. assert (k_num a * k_den c * k_den b = k_num c * k_den a * k_den b) by (by rewrite Heq).
    assert (k_num b * k_den a * k_den c ≤ k_num a * k_den b * k_den c) by nia.
    assert (k_num c * k_den b * k_den a ≤ k_num b * k_den c * k_den a) by nia.
    split; [apply (Z.mul_cancel_r _ _ (k_den c))|apply (Z.mul_cancel_r _ _ (k_den a))]; lia. }
  destruct (key_cmp a c); [exfalso|exfalso|done]; lia.
Qed.

(** Equal keys compare alike. *)
Lemma key_cmp_eq_l a b c :
  0 < k_den a → 0 < k_den b → key_cmp a b = Eq → key_cmp a c = key_cmp b c.
Proof.
  intros Ha Hb Hab. pose proof (key_cmp_spec a b) as H1. rewrite Hab in H1.
  destruct H1 as (Hr & Hi & Ht). unfold key_cmp, ratio_cmp. rewrite Hi, Ht.
  enough ((k_num a * k_den c ?= k_num c * k_den a) = (k_num b * k_den c ?= k_num c * k_den b))
    as -> by done.
  rewrite (Zmult_compare_compat_r _ _ (k_den b)) by lia.
  rewrite (Zmult_compare_compat_r (k_num b * k_den c) _ (k_den a)) by lia.
  f_equal; [|lia]. transitivity (k_num a * k_den b * k_den c); [lia|]. rewrite Hr. lia.
Qed.

Lemma key_gt_irrefl a b : key_gt a b → key_cmp a b ≠ Eq ∧ key_cmp b a = Lt.
Proof. unfold key_gt. rewrite (key_cmp_antisym b a). by intros ->. Qed.

(** ** The sorted map *)

Section btree_facts.
Context {Idx : Type}.
Implicit Types (l : list (Key * Idx)).

(** Entries in strictly decreasing key order. *)
Definition bt_sorted l : Prop :=
  StronglySorted (λ e e', key_gt e.1 e'.1) l ∧ Forall (λ e, 0 < k_den e.1) l.

Lemma bt_sorted_cons k v l :
  bt_sorted ((k, v) :: l) ↔
  bt_sorted l ∧ 0 < k_den k ∧ ∀ k' v', (k', v') ∈ l → key_gt k k'.
Proof.
  unfold bt_sorted. rewrite Forall_cons. split.
  - intros (Hs & Hk & Hl). apply StronglySorted_inv in Hs as [Hs Hf]. split_and!; [done..|].
    intros k' v' Hin. by apply (proj1 (Forall_forall _ _) Hf (k', v')).
  - intros ([Hs Hl] & Hk & Hgt). split_and!; [|done..]. constructor; [done|].
    apply Forall_forall. intros [k' v'] Hin. by eapply Hgt.
Qed.

Lemma bt_remove_elem k l k' v' :
  bt_sorted l → 0 < k_den k →
  (k', v') ∈ bt_remove k l ↔ (k', v') ∈ l ∧ key_cmp k k' ≠ Eq.
Proof.
  intros Hs Hk. induction l as [|[k1 v1] l IH]; cbn [bt_remove]; [set_solver|].
  apply bt_sorted_cons in Hs as (Hs & Hk1 & Hgt). specialize (IH Hs).
  destruct (key_cmp k k1) eqn:Hc.
  - rewrite elem_of_cons. split.
    + intros Hin. split; [by right|]. rewrite (key_cmp_eq_l k k1 k') by done.
      by apply key_gt_irrefl, (Hgt _ v').
    + intros [[[= -> ->]|Hin] Hne]; [by rewrite Hc in Hne|done].
  - rewrite !elem_of_cons, IH. split; [|naive_solver].
    intros [[= -> ->]|[? ?]]; [|naive_solver]. rewrite Hc. naive_solver.
  - split; [|naive_solver]. intros [[= -> ->]|Hin]%elem_of_cons.
    + split; [set_solver|by rewrite Hc].
    + split; [set_solver|]. apply key_gt_irrefl, (key_gt_trans k k1 k'); eauto.
      by apply (proj1 (Forall_forall _ _) (proj2 Hs) (k', v')).
Qed.

Lemma bt_remove_sorted k l : bt_sorted l → 0 < k_den k → bt_sorted (bt_remove k l).
Proof.
  intros Hs Hk. induction l as [|[k1 v1] l IH]; cbn [bt_remove]; [done|].
  apply bt_sorted_cons in Hs as Hs'. destruct Hs' as (Hs1 & Hk1 & Hgt).
  destruct (key_cmp k k1); [done| |done]. apply bt_sorted_cons. split_and!; [by apply IH|done|].
  intros k' v' [Hin _]%bt_remove_elem; eauto.
Qed.

Lemma bt_insert_elem k v l k' v' :
  (∀ k1 v1, (k1, v1) ∈ l → key_cmp k k1 ≠ Eq) →
  (k', v') ∈ bt_insert k v l ↔ (k', v') = (k, v) ∨ (k', v') ∈ l.
Proof.
  induction l as [|[k1 v1] l IH]; intros Hne; cbn [bt_insert]; [set_solver|].
  destruct (key_cmp k k1) eqn:Hc.
  - exfalso. apply (Hne k1 v1); [set_solver|done].
  - rewrite !elem_of_cons, IH; [naive_solver|]. intros k2 v2 Hin. apply (Hne k2 v2). set_solver.
  - by rewrite elem_of_cons.
Qed.

Lemma bt_insert_sorted k v l :
  bt_sorted l → 0 < k_den k → (∀ k1 v1, (k1, v1) ∈ l → key_cmp k k1 ≠ Eq) →
  bt_sorted (bt_insert k v l).
Proof.
  intros Hs Hk. induction l as [|[k1 v1] l IH]; intros Hne; cbn [bt_insert].
  { apply bt_sorted_cons. set_solver. }
  apply bt_sorted_cons in Hs as Hs'. destruct Hs' as (Hs1 & Hk1 & Hgt).
  assert (∀ k2 v2, (k2, v2) ∈ l → key_cmp k k2 ≠ Eq) as Hne'.
  { intros k2 v2 Hin. apply (Hne k2 v2). set_solver. }
  destruct (key_cmp k k1) eqn:Hc; [by apply (Hne k1 v1) in Hc; [|set_solver]| |].
  - apply bt_sorted_cons. split_and!; [by apply IH|done|]. intros k' v'.
    rewrite bt_insert_elem by done. intros [[= -> ->]|Hin]; [|by eapply Hgt].
    unfold key_gt. by rewrite key_cmp_antisym, Hc.
  - apply bt_sorted_cons. split_and!; [done..|]. intros k' v' [[= -> ->]|Hin]%elem_of_cons; [done|].
    apply (key_gt_trans k k1 k'); eauto. by apply (proj1 (Forall_forall _ _) (proj2 Hs1) (k', v')).
Qed.

(** Entries with equal keys are the same entry. *)
Lemma bt_sorted_eq l k v k' v' :
  bt_sorted l → (k, v) ∈ l → (k', v') ∈ l → key_cmp k k' = Eq → k = k' ∧ v = v'.
Proof.
  induction l as [|[k1 v1] l IH]; [set_solver|].
  intros (Hs & Hk1 & Hgt)%bt_sorted_cons [[= -> ->]|H1]%elem_of_cons [[= -> ->]|H2]%elem_of_cons He.
  - done.
  - apply Hgt, key_gt_irrefl in H2 as [? _]. done.
  - apply Hgt, key_gt_irrefl in H1 as [_ H1]. congruence.
  - by apply IH.
Qed.
End btree_facts.

(** ** The constraints of a block, for any storage *)

(** [remove] hands out what [get] showed. *)
Class SelectionStorageLaws (S Idx : Type) `{!SelectionStorage S Idx} := {
  ss_remove_get (s : S) (i : Idx) d : ss_get s i = Some d → (ss_remove i s).1 = Some d;
}.

Definition gas_of (d : StorageData) : Z := max_gas (transaction d).
Definition size_of (d : StorageData) : Z := metered_bytes_size (transaction d).

Section constraints.
Context {S Idx : Type} `{!SelectionStorage S Idx} `{!SelectionStorageLaws S Idx}.
Context (c : Constraints).
Implicit Types (g : Gather S Idx).

Definition admissible (d : StorageData) : Prop :=
  minimal_gas_price c ≤ max_gas_price (transaction d) ∧
  ∀ contract_id, InputContract contract_id ∈ inputs (transaction d) →
    contract_id ∉ excluded_contracts c.

(** What has been taken plus what is left is what was allowed. *)
Record within g : Prop := {
  wi_gas : 0 ≤ gas_left g ∧ gas_left g + lsum gas_of (g_result g) = c_max_gas c;
  wi_space : 0 ≤ space_left g ∧ space_left g + lsum size_of (g_result g) = maximum_block_size c;
  wi_nb : 0 ≤ nb_left g ∧ nb_left g + Z.of_nat (length (g_result g)) = maximum_txs c;
  wi_txs : Forall admissible (g_result g);
}.

Lemma uses_excluded_false tx :
  uses_excluded c tx = false →
  ∀ contract_id, InputContract contract_id ∈ inputs tx → contract_id ∉ excluded_contracts c.
Proof.
  intros Hu contract_id Hin Hex. unfold uses_excluded in Hu.
  apply Bool.not_true_iff_false in Hu. apply Hu, existsb_exists.
  exists (InputContract contract_id). split; [by apply list_elem_of_In|by case_bool_decide].
Qed.

Lemma select_tx_within g k i d g' :
  within g → nb_left g ≠ 0 → ss_get (g_storage g) i = Some d →
  uses_excluded c (transaction d) = false →
  ¬ max_gas_price (transaction d) < minimal_gas_price c →
  ¬ (max_gas (transaction d) > gas_left g ∨ metered_bytes_size (transaction d) > space_left g) →
  select_tx k i (transaction d) g = Some g' →
  within g' ∧ nb_left g' < nb_left g ∧ clean_up_list g' = clean_up_list g ++ [k].
Proof.
  intros [Hgas Hsp Hnb Htx] Hnz Hget Hex Hpr Hfit Hsel. unfold select_tx in Hsel.
  pose proof (ss_remove_get _ _ _ Hget) as Hrm.
  destruct (ss_remove i (g_storage g)) as [o s]. simpl in Hrm. subst o. injection Hsel as <-.
  split_and!; [|simpl; int_lia|done].
  split; simpl; rewrite ?lsum_app, ?lsum_cons, ?lsum_nil, ?length_app; simpl.
  - unfold gas_of at 2. int_lia.
  - unfold size_of at 2. int_lia.
  - int_lia.
  - apply Forall_app. split; [done|]. apply Forall_singleton. split; [lia|].
    by apply uses_excluded_false.
Qed.

Lemma gather_pass_within entries g g' :
  within g → gather_pass c entries g = Some g' →
  within g' ∧ nb_left g' ≤ nb_left g ∧
  (clean_up_list g' = clean_up_list g ∨ nb_left g' < nb_left g).
Proof.
  revert g. induction entries as [|[k i] entries IH]; intros g Hw; cbn [gather_pass].
  { intros [= <-]. auto using Z.le_refl. }
  case_decide as Hz; [intros [= <-]; auto using Z.le_refl|].
  destruct (ss_get (g_storage g) i) as [d|] eqn:Hget; [|].
  2: { intros Hp. apply IH in Hp; [done|]. destruct Hw. by split. }
  destruct (uses_excluded c (transaction d)) eqn:Hex; [by apply IH|].
  case_decide; [by apply IH|]. case_decide; [by apply IH|].
  intros (g1 & Hsel & Hp)%bind_Some. apply (select_tx_within _ _ _ d) in Hsel; [|naive_solver..].
  destruct Hsel as (Hw1 & Hlt & _). apply IH in Hp as (Hw' & Hle & _); [|done].
  split_and!; [done|lia|right; lia].
Qed.

Lemma gather_loop_within fuel sel g b sel' g' b' :
  within g → gather_loop fuel c sel g b = Some (sel', g', b') → within g'.
Proof.
  revert sel g b. induction fuel as [|fuel IH]; intros sel g b Hw; cbn [gather_loop];
    (case_decide; [|by intros [= <- <- <-]]); [done|].
  intros (g1 & Hp & Hrest)%bind_Some. apply gather_pass_within in Hp as (Hw1 & _ & _).
  2: { destruct Hw. by split. }
  destruct (clean_up_list g1), (transactions_to_promote g1); try (by injection Hrest as <- <- <-).
  - apply bind_Some in Hrest as (? & _ & Hrest). by eapply IH.
  - by eapply IH.
  - apply bind_Some in Hrest as (? & _ & Hrest). by eapply IH.
Qed.

Lemma gather_within sel storage sel' res storage' notify :
  0 ≤ c_max_gas c → 0 ≤ maximum_block_size c → 0 ≤ maximum_txs c →
  gather_best_txs c sel storage = Some (sel', res, storage', notify) →
  lsum gas_of res ≤ c_max_gas c ∧ lsum size_of res ≤ maximum_block_size c ∧
  Z.of_nat (length res) ≤ maximum_txs c ∧ Forall admissible res.
Proof.
  intros Hg Hs Hn Hgather. unfold gather_best_txs in Hgather.
  apply bind_Some in Hgather as ([[sel1 g1] b] & Hl & [= <- <- <- <-]).
  apply gather_loop_within in Hl as [? ? ? ?]; [split_and!; [lia..|done]|].
  split; simpl; rewrite ?lsum_nil; try lia. constructor.
Qed.

(** What [gather_best_txs] returns fits in the block: for any storage, the
    selected transactions together stay within the gas limit, the size limit and
    the number limit, and each of them pays the minimal gas price and uses none
    of the excluded contracts. *)
Theorem gather_respects_constraints sel storage sel' res storage' notify :
  0 ≤ c_max_gas c → 0 ≤ maximum_block_size c → 0 ≤ maximum_txs c →
  gather_best_txs c sel storage = Some (sel', res, storage', notify) →
  lsum gas_of res ≤ c_max_gas c ∧ lsum size_of res ≤ maximum_block_size c ∧
  Z.of_nat (length res) ≤ maximum_txs c ∧ Forall admissible res.
Proof. apply gather_within. Qed.
End constraints.

(** ** Gathering from the dependency graph *)

Section graph_selection.
Context {G Idx : Type} `{Countable Idx} `{!StableDiGraph G Idx} `{!StableDiGraphSpec G Idx}.
Implicit Types (gs : GraphStorage G Idx) (E : list (Key * Idx)).

#[export] Instance graph_selection_laws : SelectionStorageLaws (GraphStorage G Idx) Idx.
Proof.
  split. intros gs i d. simpl. unfold get, remove_transaction. rewrite g_weight_spec.
  destruct (g_remove_node_spec i (graph gs)) as (Heq & _). rewrite Heq.
  intros ->. done.
Qed.

Definition executable gs (i : Idx) (d : StorageData) : Prop :=
  nodes gs !! i = Some d ∧ has_dependencies gs i = false.

(** Transactions have distinct ids and use gas. *)
Definition pool_txs_ok gs : Prop :=
  (∀ i d, nodes gs !! i = Some d → 0 < max_gas (transaction d)) ∧
  (∀ i j d d', nodes gs !! i = Some d → nodes gs !! j = Some d' →
     tx_id (transaction d) = tx_id (transaction d') → i = j).

(** The sorted map has exactly the executable transactions. *)
Definition entries_ok E gs : Prop :=
  bt_sorted E ∧ ∀ k i, (k, i) ∈ E ↔ ∃ d, executable gs i d ∧ k = key d.
Definition sel_ok (sel : RatioTipGasSelection Idx) gs : Prop :=
  entries_ok (executable_transactions_sorted_tip_gas_ratio sel) gs.

Lemma has_dependencies_false gs i : has_dependencies gs i = false ↔ ∀ p, ¬ dep gs p i.
Proof.
  unfold has_dependencies, get_direct_dependencies, dep. setoid_rewrite <- elem_of_ins.
  pose proof (g_incoming_spec (graph gs) i) as Hp.
  destruct (g_incoming (graph gs) i) as [|q l]; split; try done.
  - intros _ p Hin. unfold edges in Hin. rewrite <- Hp in Hin. by apply not_elem_of_nil in Hin.
  - intros Hno. destruct (Hno q). unfold edges. rewrite <- Hp. apply list_elem_of_here.
Qed.

Lemma key_same_node gs i j d d' :
  pool_txs_ok gs → nodes gs !! i = Some d → nodes gs !! j = Some d' →
  key_cmp (key d) (key d') = Eq → i = j ∧ d = d'.
Proof.
  intros [_ Hu] Hi Hj He. pose proof (key_cmp_spec (key d) (key d')) as Hs. rewrite He in Hs.
  assert (i = j) as <- by (apply (Hu i j d d'); naive_solver). naive_solver.
Qed.

Lemma key_cmp_refl k : key_cmp k k = Eq.
Proof. unfold key_cmp, ratio_cmp. by rewrite !Z.compare_refl. Qed.

(** *** Bookkeeping of the sorted map after a pass *)

Lemma remove_keys_elem clean E :
  bt_sorted E → Forall (λ k, 0 < k_den k) clean →
  let E' := executable_transactions_sorted_tip_gas_ratio
    (foldl (λ sel k, on_removed_transaction_inner k sel)
       {| executable_transactions_sorted_tip_gas_ratio := E |} clean) in
  bt_sorted E' ∧
  ∀ k i, (k, i) ∈ E' ↔ (k, i) ∈ E ∧ ∀ k', k' ∈ clean → key_cmp k' k ≠ Eq.
Proof.
  intros Hs Hf. revert E Hs. induction Hf as [|k1 clean Hk1 Hf IH]; intros E Hs; cbn [foldl].
  { split; [done|]. simpl. set_solver. }
  destruct (IH (bt_remove k1 E)) as [Hs' Hel]; [by apply bt_remove_sorted|].
  split; [exact Hs'|]. intros k i. unfold on_removed_transaction_inner at 2. simpl.
  rewrite Hel, bt_remove_elem by done. set_solver.
Qed.

Lemma promote_all_spec gs l (sel : RatioTipGasSelection Idx) :
  let E := executable_transactions_sorted_tip_gas_ratio sel in
  pool_txs_ok gs → bt_sorted E → NoDup l →
  (∀ i, i ∈ l → is_Some (nodes gs !! i)) →
  (∀ k i, (k, i) ∈ E → i ∉ l ∧ ∃ d, nodes gs !! i = Some d ∧ k = key d) →
  ∃ sel', promote_all gs l sel = Some sel' ∧
    let E' := executable_transactions_sorted_tip_gas_ratio sel' in
    bt_sorted E' ∧
    ∀ k i, (k, i) ∈ E' ↔ (k, i) ∈ E ∨ i ∈ l ∧ ∃ d, nodes gs !! i = Some d ∧ k = key d.
Proof.
  intros E Hp Hs Hnd. revert sel E Hs. induction Hnd as [|i l Hi Hnd IH];
    intros sel E Hs Hl HE; cbn [promote_all].
  { exists sel. split_and!; [done..|]. set_solver. }
  destruct (Hl i) as [d Hd]; [set_solver|].
  assert (ss_get gs i = Some d) as Hget by (simpl; unfold get; by rewrite g_weight_spec).
  assert (∀ k1 v1, (k1, v1) ∈ E → key_cmp (key d) k1 ≠ Eq) as Hne.
  { intros k1 v1 Hin He. destruct (HE _ _ Hin) as (Hv & d1 & Hd1 & ->).
    destruct (key_same_node gs i v1 d d1) as [<- _]; [done..|]. apply Hv. set_solver. }
  assert (0 < k_den (key d)) as Hden by (by apply (proj1 Hp i d)).
  rewrite Hget. cbn [mbind option_bind].
  destruct (IH (new_executable_transaction i d sel)) as (sel' & Hsel' & Hs' & Hel).
  - by apply bt_insert_sorted.
  - set_solver.
  - intros k j. simpl. rewrite bt_insert_elem by done. intros [[= -> ->]|Hin]; [by eauto|].
    destruct (HE _ _ Hin) as [? ?]. set_solver.
  - exists sel'. split_and!; [done..|]. intros k j. rewrite Hel. simpl. rewrite bt_insert_elem by done.
    rewrite elem_of_cons. split.
    + intros [[[= -> ->]|?]|[? ?]]; [right; eauto|by left|by right; eauto].
    + intros [?|[[->|?] (d' & Hd' & ->)]]; [by left; right| |by right; eauto].
      left; left. unfold nodes in *. congruence.
Qed.

(** *** What has been taken from the initial graph [gs0] *)

Record taken gs0 (ids : list Idx) (g : Gather (GraphStorage G Idx) Idx) : Prop := {
  tk_ok : gs_ok (g_storage g);
  tk_res : Forall2 (λ i d, nodes gs0 !! i = Some d) ids (g_result g);
  tk_nodup : NoDup ids;
  tk_nodes i : nodes (g_storage g) !! i = if decide (i ∈ ids) then None else nodes gs0 !! i;
  tk_dep a b : dep (g_storage g) a b ↔ dep gs0 a b ∧ a ∉ ids ∧ b ∉ ids;
  tk_order l1 i l2 : ids = l1 ++ i :: l2 → ∀ p, dep gs0 p i → p ∈ l1;
}.

Lemma taken_sub gs0 ids g i d :
  taken gs0 ids g → nodes (g_storage g) !! i = Some d → nodes gs0 !! i = Some d ∧ i ∉ ids.
Proof. intros Ht. rewrite (tk_nodes _ _ _ Ht). by case_decide. Qed.

Lemma taken_txs_ok gs0 ids g : taken gs0 ids g → pool_txs_ok gs0 → pool_txs_ok (g_storage g).
Proof.
  intros Ht [Hg Hu]. split.
  - intros i d [Hi _]%(taken_sub _ _ _ _ _ Ht). eauto.
  - intros i j d d' [Hi _]%(taken_sub _ _ _ _ _ Ht) [Hj _]%(taken_sub _ _ _ _ _ Ht). eauto.
Qed.

(** Removing one executable node. *)
Lemma select_graph g k x d :
  gs_ok (g_storage g) → executable (g_storage g) x d →
  ∃ gs', select_tx k x (transaction d) g =
    Some {| gas_left := sat_sub (gas_left g) (gas_of d);
            space_left := sat_sub (space_left g) (size_of d);
            nb_left := sat_sub (nb_left g) 1;
            g_result := g_result g ++ [d]; g_storage := gs';
            clean_up_list := clean_up_list g ++ [k];
            transactions_to_remove := transactions_to_remove g;
            transactions_to_promote := transactions_to_promote g ++
              filter (λ j, has_dependencies gs' j = false)
                (get_direct_dependents (g_storage g) x) |} ∧
    gs_ok gs' ∧ nodes gs' = delete x (nodes (g_storage g)) ∧
    (∀ a b, dep gs' a b ↔ dep (g_storage g) a b ∧ a ≠ x ∧ b ≠ x).
Proof.
  intros Hok [Hx Hd]. destruct (remove_transaction_spec _ x d Hok Hx Hd) as (gs' & Hr & Hok' & Hn & He & _).
  exists gs'. unfold select_tx. simpl. rewrite Hr. split_and!; [done..|].
  intros a b. unfold dep. by rewrite He, elem_of_without.
Qed.

Lemma executable_after gs gs' x j d :
  nodes gs' = delete x (nodes gs) → (∀ a b, dep gs' a b ↔ dep gs a b ∧ a ≠ x ∧ b ≠ x) →
  executable gs' j d ↔
  j ≠ x ∧ (executable gs j d ∨ nodes gs !! j = Some d ∧ dep gs x j ∧ has_dependencies gs' j = false).
Proof.
  intros Hn Hd. unfold executable. rewrite Hn, lookup_delete_Some, !has_dependencies_false.
  setoid_rewrite Hd. split.
  - intros [[Hjx Hj] Hno]. split; [done|]. destruct (decide ((x, j) ∈ edges gs)) as [Hxj|Hxj].
    + right. done.
    + left. split; [done|]. intros p Hp. apply (Hno p). split_and!; [done| |done]. by intros ->.
  - intros [Hjx [[Hj Hno]|(Hj & _ & Hno)]]; (split; [done|]); [|done]. naive_solver.
Qed.

Lemma taken_step gs0 ids g k x d g' :
  taken gs0 ids g → executable (g_storage g) x d → select_tx k x (transaction d) g = Some g' →
  taken gs0 (ids ++ [x]) g'.
Proof.
  intros Ht Hx Hsel. destruct (select_graph g k x d (tk_ok _ _ _ Ht) Hx)
    as (gs' & Heq & Hok' & Hn & Hdep). rewrite Hsel in Heq. injection Heq as ->.
  destruct Hx as [Hx Hno]. destruct (taken_sub _ _ _ _ _ Ht Hx) as [Hx0 Hxi].
  rewrite has_dependencies_false in Hno. destruct Ht as [_ Hres Hnd Hnodes Hd Hord].
  split; simpl.
  - done.
  - apply Forall2_app; [done|]. by repeat constructor.
  - apply NoDup_app. split_and!; [done| |apply NoDup_singleton]. set_solver.
  - intros i. rewrite Hn, lookup_delete, Hnodes. repeat case_decide; set_solver.
  - intros a b. rewrite Hdep, Hd. set_solver.
  - intros l1 i l2 Hl p Hp. destruct l2 as [|y l2 _] using rev_ind.
    + apply app_inj_tail in Hl as [-> ->]. destruct (decide (p ∈ l1)) as [|Hpi]; [done|].
      destruct (Hno p). by apply Hd.
    + rewrite app_comm_cons, app_assoc in Hl. apply app_inj_tail in Hl as [-> ->]. by eapply Hord.
Qed.

(** *** One pass over the entries [E] of the graph [gs1] *)

Record pass_inv gs1 E (rest : list (Key * Idx)) (g : Gather (GraphStorage G Idx) Idx) : Prop := {
  pv_rest k i : (k, i) ∈ rest → (k, i) ∈ E ∧ k ∉ clean_up_list g;
  pv_sorted : bt_sorted rest;
  pv_missing : transactions_to_remove g = [];
  pv_dep a b : dep (g_storage g) a b → dep gs1 a b;
  pv_nodes i d : nodes (g_storage g) !! i = Some d → nodes gs1 !! i = Some d;
  pv_keep k i : (k, i) ∈ E → k ∉ clean_up_list g →
    ∃ d, executable (g_storage g) i d ∧ k = key d;
  pv_exec i d : executable (g_storage g) i d →
    ((key d, i) ∈ E ∧ key d ∉ clean_up_list g) ∨ i ∈ transactions_to_promote g;
  pv_nodup : NoDup (transactions_to_promote g);
  pv_promote i : i ∈ transactions_to_promote g →
    (∃ d, executable (g_storage g) i d) ∧ ∀ k, (k, i) ∉ E;
  pv_clean k : k ∈ clean_up_list g → ∃ i, (k, i) ∈ E;
}.

Lemma pass_inv_skip gs1 E e rest g : pass_inv gs1 E (e :: rest) g → pass_inv gs1 E rest g.
Proof.
  intros []. split; try done; [set_solver|]. destruct e. by apply bt_sorted_cons in pv_sorted0 as [].
Qed.

Lemma pass_inv_end gs1 E rest g : pass_inv gs1 E rest g → pass_inv gs1 E [] g.
Proof. induction rest; eauto using pass_inv_skip. Qed.

Lemma pass_inv_select gs1 E k x rest g d g' :
  entries_ok E gs1 → pool_txs_ok gs1 → gs_ok (g_storage g) →
  pass_inv gs1 E ((k, x) :: rest) g → executable (g_storage g) x d → k = key d →
  select_tx k x (transaction d) g = Some g' → pass_inv gs1 E rest g'.
Proof.
  intros [Hs HE] Htx Hok Hpv Hx Hk Hsel.
  destruct (select_graph g k x d Hok Hx) as (gs' & Heq & Hok' & Hn & Hdep).
  rewrite Hsel in Heq. injection Heq as ->.
  pose proof (executable_after (g_storage g) gs' x) as Hafter.
  specialize (λ j e, Hafter j e Hn Hdep).
  destruct Hpv as [Hrest Hsorted Hmiss Hsub Hnodes Hkeep Hexec Hnd Hprom Hclean].
  apply bt_sorted_cons in Hsorted as (Hsorted & Hden & Hgt).
  destruct (Hrest k x) as [HxE Hxc]; [set_solver|].
  assert (∀ j e, executable (g_storage g) j e → key e = k → j = x) as Huniq.
  { intros j e [Hj _] He. destruct Hx as [Hx _].
    destruct (key_same_node gs1 j x e d) as [? _]; eauto. rewrite He, Hk. apply key_cmp_refl. }
  assert (∀ j, j ∈ filter (λ j, has_dependencies gs' j = false)
      (get_direct_dependents (g_storage g) x) ↔
      dep (g_storage g) x j ∧ has_dependencies gs' j = false) as Hnew.
  { intros j. rewrite list_elem_of_filter. unfold get_direct_dependents.
    rewrite g_outgoing_spec, elem_of_outs. naive_solver. }
  split; cbn [g_storage clean_up_list transactions_to_remove transactions_to_promote].
  - intros k' i Hin. destruct (Hrest k' i) as [? ?]; [set_solver|]. split; [done|].
    rewrite not_elem_of_app, list_elem_of_singleton. split; [done|]. intros ->.
    apply Hgt in Hin. apply key_gt_irrefl in Hin as [Hin _]. by rewrite key_cmp_refl in Hin.
  - done.
  - done.
  - intros a b Hab%Hdep. apply Hsub. naive_solver.
  - intros i e. rewrite Hn, lookup_delete_Some. intros [_ ?]. eauto.
  - intros k' i Hin. rewrite not_elem_of_app, list_elem_of_singleton. intros [Hc Hkk].
    destruct (Hkeep k' i Hin Hc) as (e & He & ->). exists e. split; [|done].
    apply Hafter. split; [|by left]. intros ->. apply Hkk. rewrite Hk. f_equal.
    destruct He as [He _], Hx as [Hx _]. congruence.
  - intros j e [Hjx Hj]%Hafter. rewrite (elem_of_app (transactions_to_promote g)), Hnew.
    destruct Hj as [Hj|(Hj & Hxj & Hno)]; [|by right; right].
    destruct (Hexec j e Hj) as [[? ?]|?]; [|by right; left]. left. split; [done|].
    rewrite not_elem_of_app, list_elem_of_singleton. split; [done|]. intros Hkk. by eapply Hjx, Huniq.
  - apply NoDup_app. split_and!; [done| |].
    + intros j Hj [Hxj _]%Hnew. destruct (Hprom j Hj) as [(e & _ & Hno) _].
      rewrite has_dependencies_false in Hno. by apply (Hno x).
    + apply NoDup_filter. unfold get_direct_dependents. rewrite g_outgoing_spec.
      apply NoDup_outs, Hok.
  - intros j. rewrite elem_of_app, Hnew. intros [Hj|[Hxj Hno]].
    + destruct (Hprom j Hj) as [(e & He) HjE]. split; [|done]. exists e. apply Hafter.
      split; [|by left]. intros ->. by apply (HjE k).
    + apply edge_dom in Hxj as Hjd. destruct Hjd as [_ [e He]%elem_of_dom]. split.
      * exists e. apply Hafter. split; [|by right]. intros ->.
        destruct Hx as [_ Hx]. rewrite has_dependencies_false in Hx. by apply (Hx x).
      * intros k' (e' & [_ Hj] & _)%HE. rewrite has_dependencies_false in Hj. by eapply Hj, Hsub.
  - intros k' [?|Hk']%elem_of_app; [eauto|]. apply list_elem_of_singleton in Hk' as ->. eauto.
Qed.

(** A pass: what it takes, and why it leaves the rest. *)
Definition rejected (c : Constraints) (g : Gather (GraphStorage G Idx) Idx) (d : StorageData) : Prop :=
  nb_left g = 0 ∨ gas_left g = 0 ∨ space_left g = 0 ∨
  uses_excluded c (transaction d) = true ∨ max_gas_price (transaction d) < minimal_gas_price c ∨
  gas_of d > gas_left g ∨ size_of d > space_left g.

Lemma gather_pass_graph c gs0 gs1 E rest ids g :
  entries_ok E gs1 → pool_txs_ok gs1 → taken gs0 ids g → pass_inv gs1 E rest g →
  ∃ ids' g', gather_pass c rest g = Some g' ∧ taken gs0 ids' g' ∧ pass_inv gs1 E [] g' ∧
    (clean_up_list g' = [] → g' = g ∧
       ∀ k i d, (k, i) ∈ rest → nodes (g_storage g) !! i = Some d → rejected c g d).
Proof.
  intros HE Htx. revert ids g. induction rest as [|[k x] rest IH]; intros ids g Ht Hpv.
  { exists ids, g. split_and!; [done..|]. intros _. split; [done|]. set_solver. }
  cbn [gather_pass]. case_decide as Hz.
  { exists ids, g. split_and!; [done..| |].
    - by eapply pass_inv_end.
    - intros _. split; [done|]. unfold rejected. naive_solver. }
  destruct (pv_rest _ _ _ _ Hpv k x) as [HxE Hxc]; [set_solver|].
  destruct (pv_keep _ _ _ _ Hpv k x HxE Hxc) as (d & Hx & Hk).
  assert (ss_get (g_storage g) x = Some d) as -> by
    (simpl; unfold get; rewrite g_weight_spec; apply Hx).
  assert (rejected c g d →
    ∃ ids' g', gather_pass c rest g = Some g' ∧ taken gs0 ids' g' ∧ pass_inv gs1 E [] g' ∧
      (clean_up_list g' = [] → g' = g ∧
       ∀ k' i e, (k', i) ∈ (k, x) :: rest → nodes (g_storage g) !! i = Some e → rejected c g e))
    as Hskip.
  { intros Hrej. destruct (IH ids g Ht) as (ids' & g' & Hp & Ht' & Hpv' & Hcl);
      [by eapply pass_inv_skip|].
    exists ids', g'. split_and!; [done..|]. intros Hc. destruct (Hcl Hc) as [-> Hall].
    split; [done|]. intros k' i e [[= -> ->]|Hin]%elem_of_cons Hi; [|by eauto].
    destruct Hx as [Hx _]. by simplify_eq. }
  unfold rejected in Hskip.
  destruct (uses_excluded c (transaction d)) eqn:Hex; [apply Hskip; naive_solver|].
  case_decide; [apply Hskip; naive_solver|]. case_decide; [apply Hskip; naive_solver|].
  destruct (select_graph g k x d (tk_ok _ _ _ Ht) Hx) as (gs' & Heq & _).
  rewrite Heq. cbn [mbind option_bind]. set (g1 := Build_Gather _ _ _ _ _ _ _ _) in *.
  destruct (IH (ids ++ [x]) g1) as (ids' & g' & Hp & Ht' & Hpv' & Hcl).
  - by eapply taken_step.
  - eapply pass_inv_select; eauto using tk_ok.
  - exists ids', g'. split_and!; [done..|]. intros Hc. destruct (Hcl Hc) as [-> _].
    exfalso. simpl in Hc. by destruct (clean_up_list g).
Qed.

Lemma pass_end gs1 E g :
  entries_ok E gs1 → pool_txs_ok gs1 → pool_txs_ok (g_storage g) → pass_inv gs1 E [] g →
  let sel1 := foldl (λ sel k, on_removed_transaction_inner k sel)
    {| executable_transactions_sorted_tip_gas_ratio := E |} (clean_up_list g) in
  ∃ sel2, promote_all (g_storage g) (transactions_to_promote g) sel1 = Some sel2 ∧
    sel_ok sel2 (g_storage g).
Proof.
  intros [Hs HE] Htx1 Htx [_ _ _ _ Hnodes Hkeep Hexec Hnd Hprom Hclean] sel1.
  assert (Forall (λ k, 0 < k_den k) (clean_up_list g)) as Hden.
  { apply Forall_forall. intros k [i Hi]%Hclean.
    by apply (proj1 (Forall_forall _ _) (proj2 Hs) (k, i)). }
  destruct (remove_keys_elem (clean_up_list g) E Hs Hden) as [Hs1 Hel1]. fold sel1 in Hs1, Hel1.
  assert (∀ k i, (k, i) ∈ executable_transactions_sorted_tip_gas_ratio sel1 ↔
    (k, i) ∈ E ∧ k ∉ clean_up_list g) as Hel.
  { intros k i. rewrite Hel1. split; intros [Hin Hne]; (split; [done|]).
    - intros Hk. apply (Hne k Hk), key_cmp_refl.
    - intros k' Hk' Heq. destruct (Hclean k' Hk') as [j Hj].
      destruct (bt_sorted_eq E k' j k i) as [-> _]; done. }
  destruct (promote_all_spec (g_storage g) (transactions_to_promote g) sel1)
    as (sel2 & Hp & Hs2 & Hel2); [done..| | |].
  - intros i Hi. destruct (Hprom i Hi) as [(d & Hd & _) _]. eauto.
  - intros k i [Hin Hc]%Hel. split; [intros Hi; by eapply Hprom|].
    destruct (Hkeep k i Hin Hc) as (d & [Hd _] & ->). eauto.
  - exists sel2. split; [done|]. split; [done|]. intros k i. rewrite Hel2, Hel. split.
    + intros [[Hin Hc]|(Hi & d & Hd & ->)]; [by apply Hkeep|].
      destruct (Hprom i Hi) as [(e & He) _]. exists e. split; [done|]. destruct He. by simplify_eq.
    + intros (d & Hd & ->). destruct (Hexec i d Hd) as [?|Hi]; [by left|]. right. split; [done|].
      exists d. split; [apply Hd|done].
Qed.

Lemma start_pass_inv E g : entries_ok E (g_storage g) → pass_inv (g_storage g) E E (start_pass g).
Proof.
  intros [Hs HE]. split; simpl; try done.
  - intros k i Hi. split; [done|apply not_elem_of_nil].
  - intros k i Hi%HE _. done.
  - intros i d Hd. left. split; [apply HE; eauto|apply not_elem_of_nil].
  - constructor.
  - intros i []%not_elem_of_nil.
  - intros i []%not_elem_of_nil.
Qed.

Lemma gather_loop_graph c gs0 fuel sel ids g b :
  pool_txs_ok gs0 → within c g → taken gs0 ids g → sel_ok sel (g_storage g) →
  nb_left g < Z.of_nat fuel →
  ∃ sel' ids' g' b', gather_loop fuel c sel g b = Some (sel', g', b') ∧ taken gs0 ids' g' ∧
    sel_ok sel' (g_storage g') ∧
    ∀ i d, executable (g_storage g') i d → rejected c g' d.
Proof.
  intros Htx. revert sel ids g b.
  induction fuel as [|fuel IH]; intros sel ids g b Hw Ht Hsel Hf; cbn [gather_loop].
  { destruct Hw. lia. }
  case_decide as Hgo.
  2: { exists sel, ids, g, b. split_and!; [done..|]. intros i d Hd. destruct Hw. unfold rejected.
       destruct (decide (gas_left g > 0 ∧ nb_left g > 0 ∧ space_left g > 0)) as [Hz|Hz]; [|lia].
       exfalso. apply Hgo. split_and!; [naive_solver..|]. intros Hnil.
       assert ((key d, i) ∈ executable_transactions_sorted_tip_gas_ratio sel) as Hin
         by (apply Hsel; eauto). rewrite Hnil in Hin. by apply not_elem_of_nil in Hin. }
  pose proof (taken_txs_ok _ _ _ Ht Htx) as Htx1.
  destruct (gather_pass_graph c gs0 (g_storage g)
    (executable_transactions_sorted_tip_gas_ratio sel)
    (executable_transactions_sorted_tip_gas_ratio sel) ids (start_pass g))
    as (ids1 & g1 & Hp & Ht1 & Hpv & Hstop); [done..|by destruct Ht|by apply start_pass_inv|].
  assert (within c (start_pass g)) as Hws by (by destruct Hw).
  destruct (gather_pass_within c _ _ _ Hws Hp) as (Hw1 & Hle & Hdec).
  rewrite Hp. cbn [mbind option_bind]. rewrite (pv_missing _ _ _ _ Hpv). cbn [foldl].
  pose proof (taken_txs_ok _ _ _ Ht1 Htx) as Htx2.
  destruct (pass_end _ _ _ Hsel Htx1 Htx2 Hpv) as (sel2 & Hprom & Hsel2).
  simpl in Hle, Hdec. destruct sel as [E].
  cbn [executable_transactions_sorted_tip_gas_ratio] in *.
  destruct (clean_up_list g1) as [|k1 clean] eqn:Hclean.
  - destruct (Hstop eq_refl) as [-> Hrej]. simpl in *. injection Hprom as <-.
    exists {| executable_transactions_sorted_tip_gas_ratio := E |}, ids, (start_pass g), b.
    split_and!; [done|by destruct Ht|done|]. intros i d Hd.
    apply (Hrej (key d) i d); [apply Hsel; eauto|apply Hd].
  - destruct Hdec as [|Hlt]; [done|]. cbn [foldl] in Hprom.
    destruct (transactions_to_promote g1) as [|p1 promoted] eqn:Hpr.
    + injection Hprom as <-. eapply IH; [done..|lia].
    + rewrite Hprom. cbn [mbind option_bind]. eapply IH; [done..|lia].
Qed.

Lemma gather_best_graph c sel gs :
  0 ≤ c_max_gas c → 0 ≤ maximum_block_size c → 0 ≤ maximum_txs c →
  gs_ok gs → pool_txs_ok gs → sel_ok sel gs →
  ∃ sel' ids res gs' notify, gather_best_txs c sel gs = Some (sel', res, gs', notify) ∧
    gs_ok gs' ∧ sel_ok sel' gs' ∧
    Forall2 (λ i d, nodes gs !! i = Some d) ids res ∧ NoDup ids ∧
    (∀ i, nodes gs' !! i = if decide (i ∈ ids) then None else nodes gs !! i) ∧
    (∀ l1 i l2, ids = l1 ++ i :: l2 → ∀ p, dep gs p i → p ∈ l1).
Proof.
  intros Hg Hs Hn Hok Htx Hsel. unfold gather_best_txs.
  edestruct (gather_loop_graph c gs (Datatypes.S (Z.to_nat (maximum_txs c))) sel [])
    as (sel' & ids & g' & b & Hl & Ht & Hsel' & _); [done| | | | |].
  5: { rewrite Hl. simpl. destruct Ht. eauto 20. }
  - split; simpl; rewrite ?lsum_nil; try lia. constructor.
  - split; simpl; [done|constructor|constructor|set_solver|set_solver|].
    intros l1 i l2 Hl. by destruct l1.
  - done.
  - simpl. lia.
Qed.

(** Gathering keeps the pool consistent.  On a consistent graph whose
    executable transactions are exactly the sorted entries, [gather_best_txs]
    always returns (no [expect] fires, the loop ends), hands out stored
    transactions, each after everything it depends on, removes exactly those from
    the graph, and leaves the graph consistent and the sorted entries exact. *)
Theorem gather_keeps_pool_consistent c sel gs :
  0 ≤ c_max_gas c → 0 ≤ maximum_block_size c → 0 ≤ maximum_txs c →
  gs_ok gs → pool_txs_ok gs → sel_ok sel gs →
  ∃ sel' ids res gs' notify, gather_best_txs c sel gs = Some (sel', res, gs', notify) ∧
    gs_ok gs' ∧ sel_ok sel' gs' ∧
    Forall2 (λ i d, nodes gs !! i = Some d) ids res ∧ NoDup ids ∧
    (∀ i, nodes gs' !! i = if decide (i ∈ ids) then None else nodes gs !! i) ∧
    (∀ l1 i l2, ids = l1 ++ i :: l2 → ∀ p, dep gs p i → p ∈ l1).
Proof. apply gather_best_graph. Qed.

(** Gathering is maximal.  When [gather_best_txs] stops, every transaction
    left executable is refused for a reason: a limit of the block is used up, it
    does not fit in what is left of the gas or size limit, it pays less than the
    minimal gas price, or it uses an excluded contract. *)
Theorem gather_is_maximal c sel gs sel' res gs' notify i d :
  0 ≤ c_max_gas c → 0 ≤ maximum_block_size c → 0 ≤ maximum_txs c →
  gs_ok gs → pool_txs_ok gs → sel_ok sel gs →
  gather_best_txs c sel gs = Some (sel', res, gs', notify) →
  executable gs' i d →
  Z.of_nat (length res) = maximum_txs c ∨ lsum gas_of res = c_max_gas c ∨
  lsum size_of res = maximum_block_size c ∨
  uses_excluded c (transaction d) = true ∨ max_gas_price (transaction d) < minimal_gas_price c ∨
  lsum gas_of res + gas_of d > c_max_gas c ∨ lsum size_of res + size_of d > maximum_block_size c.
Proof.
  intros Hg Hs Hn Hok Htx Hsel Hgather Hd. unfold gather_best_txs in Hgather.
  apply bind_Some in Hgather as ([[sel1 g1] b] & Hl & [= <- <- <- <-]).
  set (g0 := Build_Gather _ _ _ _ _ _ _ _) in Hl.
  assert (within c g0) as Hw.
  { split; simpl; rewrite ?lsum_nil; try lia. constructor. }
  pose proof (gather_loop_within c _ _ _ _ _ _ _ Hw Hl) as Hw1.
  destruct (gather_loop_graph c gs (Datatypes.S (Z.to_nat (maximum_txs c))) sel [] g0 false)
    as (sel2 & ids & g2 & b2 & Hl2 & _ & _ & Hrej); [done..| |done| |].
  - split; simpl; [done|constructor|constructor|set_solver|set_solver|].
    intros l1 j l2 Hnil. by destruct l1.
  - simpl. lia.
  - rewrite Hl in Hl2. injection Hl2 as <- <- <-. specialize (Hrej i d Hd).
    destruct Hw1 as [[_ Hgas] [_ Hsize] [_ Hnb] _].
    destruct Hrej as [Hr|[Hr|[Hr|[Hr|[Hr|[Hr|Hr]]]]]].
    all: try (left; lia); try (right; left; lia); try (do 2 right; left; lia).
    all: do 3 right; first [by left|right; by left|do 2 right; left; lia|do 3 right; lia].
Qed.
End graph_selection.

(** ** The parent and child of the graph, selected *)

Module SampleSelection.
Import Sample.

Definition block : Constraints :=
  {| minimal_gas_price := 0; c_max_gas := 100; maximum_txs := 10; maximum_block_size := 1000;
     excluded_contracts := ∅ |}.
Definition parent_entry : StorageData := increased_node (new_node parent 0) child.
Definition sel2 : RatioTipGasSelection nat :=
  new_executable_transaction 1%nat parent_entry RatioTipGasSelection_new.

Lemma gs2_nodes i d :
  nodes gs2 !! i = Some d ↔ (i = 1%nat ∧ d = parent_entry) ∨ (i = 2%nat ∧ d = new_node child 1).
Proof.
  assert (nodes gs2 = {[1%nat := parent_entry; 2%nat := new_node child 1]}) as ->
    by (vm_compute; reflexivity).
  rewrite lookup_insert_Some, lookup_singleton_Some. naive_solver.
Qed.

Lemma gs2_txs_ok : pool_txs_ok gs2.
Proof.
  split.
  - intros i d [[_ ->]|[_ ->]]%gs2_nodes; vm_compute; done.
  - intros i j d d' [[-> ->]|[-> ->]]%gs2_nodes [[-> ->]|[-> ->]]%gs2_nodes; try done.
Qed.

Lemma sel2_ok : sel_ok sel2 gs2.
Proof.
  split.
  - split; [repeat constructor|]. repeat constructor; vm_compute; done.
  - intros k i. unfold executable. setoid_rewrite gs2_nodes.
    change (executable_transactions_sorted_tip_gas_ratio sel2) with [(key parent_entry, 1%nat)].
    rewrite list_elem_of_singleton. split.
    + intros [= -> ->]. exists parent_entry. split; [|done]. split; [by left|]. vm_compute. done.
    + intros (d & [[[-> ->]|[-> ->]] Hd] & ->); [done|]. vm_compute in Hd. done.
Qed.
End SampleSelection.

Lemma gather_respects_constraints_witness :
  match gather_best_txs SampleSelection.block SampleSelection.sel2 Sample.gs2 with
  | Some (_, res, _, _) => length res = 2%nat ∧ lsum gas_of res ≤ 100
  | None => False
  end.
Proof.
  destruct (gather_best_txs SampleSelection.block SampleSelection.sel2 Sample.gs2)
    as [[[[sel' res] gs'] b]|] eqn:Hg; [|vm_compute in Hg; discriminate].
  split; [vm_compute in Hg; by injection Hg as <- <- <- <-|].
  apply (gather_respects_constraints SampleSelection.block _ _ _ _ _ _) in Hg as (Hgas & _);
    [exact Hgas|vm_compute; discriminate..].
Defined.

Lemma gather_keeps_pool_consistent_witness :
  ∃ sel' res gs' notify,
    gather_best_txs SampleSelection.block SampleSelection.sel2 Sample.gs2 =
      Some (sel', res, gs', notify) ∧ gs_ok gs'.
Proof.
  destruct (gather_keeps_pool_consistent SampleSelection.block SampleSelection.sel2 Sample.gs2)
    as (sel' & ids & res & gs' & b & Hg & Hok & _); [vm_compute; discriminate..| | | |].
  - apply Sample.gs2_ok.
  - apply SampleSelection.gs2_txs_ok.
  - apply SampleSelection.sel2_ok.
  - by exists sel', res, gs', b.
Defined.

(** With room for one transaction the parent is taken and the child, now
    executable, is left because the number limit is used up. *)
Lemma gather_is_maximal_witness :
  let c := {| minimal_gas_price := 0; c_max_gas := 100; maximum_txs := 1;
              maximum_block_size := 1000; excluded_contracts := ∅ |} in
  ∃ sel' res gs' notify d,
    gather_best_txs c SampleSelection.sel2 Sample.gs2 = Some (sel', res, gs', notify) ∧
    executable gs' 2%nat d ∧
    (Z.of_nat (length res) = 1 ∨ lsum gas_of res = 100 ∨ lsum size_of res = 1000 ∨
     uses_excluded c (transaction d) = true ∨ max_gas_price (transaction d) < 0 ∨
     lsum gas_of res + gas_of d > 100 ∨ lsum size_of res + size_of d > 1000).
Proof.
  intros c. destruct (gather_best_txs c SampleSelection.sel2 Sample.gs2)
    as [[[[sel' res] gs'] b]|] eqn:Hg; [|vm_compute in Hg; discriminate].
  assert (executable gs' 2%nat (new_node Sample.child 1)) as Hd.
  { vm_compute in Hg. injection Hg as <- <- <- <-. split; vm_compute; done. }
  exists sel', res, gs', b, (new_node Sample.child 1). split; [done|]. split; [done|].
  apply (gather_is_maximal c SampleSelection.sel2 Sample.gs2 sel' res gs' b 2%nat);
    [vm_compute; discriminate..|apply Sample.gs2_ok|apply SampleSelection.gs2_txs_ok
    |apply SampleSelection.sel2_ok|exact Hg|exact Hd].
Defined.
