(* ===== verification/TxPoolPool.v ===== *)
(** * The transaction pool

    Model of [Pool] (txpool_v2/src/pool.rs) and of the collision rules
    (pool/collisions.rs), instantiated as the service does: graph storage, basic
    collision manager, tip/gas selection.  What the pool tells the rest of the
    node (statuses, notifications, statistics) is the list of events it emits, in
    order; metrics are left out.  [None] is a panic. *)

From stdpp Require Import prelude gmap list strings.
From Stdlib Require Import ZArith Lia.
From S2P Require Import Prelude.
From S2P Require Import TxTypes.
From S2P Require Import TxPoolTypes.
From S2P Require Import TxPoolSpent.
From S2P Require Import TxPoolExtracted.
From S2P Require Import TxPoolCollision.
From S2P Require Import TxPoolGraph.
From S2P Require Import TxPoolSelection.
Local Open Scope Z_scope.

Record TxPoolStats := { tx_count_stat : Z; total_size : Z; total_gas : Z }.

(** Calls to the status manager and to the two watch channels. *)
Inductive PoolEvent :=
| Submitted (id : TxId) (at_instant : Z)
| SqueezedOut (txs : list TxId) (reason : Error)
| NewExecutable
| Stats (s : TxPoolStats).

(** [Ratio::new(n1, d1) > Ratio::new(n2, d2)]; the denominators are gas amounts,
    positive because zero-gas transactions are refused. *)
Definition ratio_gt (n1 d1 n2 d2 : Z) : bool := bool_decide (n1 * d2 > n2 * d1).

Section pool.
Context {G Idx C : Type} `{Countable Idx} `{!StableDiGraph G Idx} `{!HashOrder Idx} `{!LruCache C}.

Record Pool := {
  config : PoolConfig;
  storage : GraphStorage G Idx;
  collision_manager : BasicCollisionManager Idx;
  selection_algorithm : RatioTipGasSelection Idx;
  tx_id_to_storage_id : gmap TxId Idx;
  extracted_outputs : ExtractedOutputs;
  spent_inputs : SpentInputs C;
  current_gas : Z;
  current_bytes_size : Z;
  events : list PoolEvent;
}.

Definition Pool_new (cfg : PoolConfig) : Pool :=
  {| config := cfg; storage := GraphStorage_new (max_txs_chain_count cfg);
     collision_manager := CollisionManager_new;
     selection_algorithm := RatioTipGasSelection_new;
     tx_id_to_storage_id := ∅; extracted_outputs := ExtractedOutputs_new;
     spent_inputs := SpentInputs_new (Z.to_nat (max_txs (pool_limits cfg)) + 1);
     current_gas := 0; current_bytes_size := 0; events := [] |}.

Definition tx_count (p : Pool) : Z := Z.of_nat (size (tx_id_to_storage_id p)).

(** Field updates. *)
Definition set_storage (s : GraphStorage G Idx) (p : Pool) : Pool :=
  {| config := config p; storage := s; collision_manager := collision_manager p;
     selection_algorithm := selection_algorithm p; tx_id_to_storage_id := tx_id_to_storage_id p;
     extracted_outputs := extracted_outputs p; spent_inputs := spent_inputs p;
     current_gas := current_gas p; current_bytes_size := current_bytes_size p;
     events := events p |}.
Definition set_selection (sel : RatioTipGasSelection Idx) (p : Pool) : Pool :=
  {| config := config p; storage := storage p; collision_manager := collision_manager p;
     selection_algorithm := sel; tx_id_to_storage_id := tx_id_to_storage_id p;
     extracted_outputs := extracted_outputs p; spent_inputs := spent_inputs p;
     current_gas := current_gas p; current_bytes_size := current_bytes_size p;
     events := events p |}.
Definition set_tx_ids (m : gmap TxId Idx) (p : Pool) : Pool :=
  {| config := config p; storage := storage p; collision_manager := collision_manager p;
     selection_algorithm := selection_algorithm p; tx_id_to_storage_id := m;
     extracted_outputs := extracted_outputs p; spent_inputs := spent_inputs p;
     current_gas := current_gas p; current_bytes_size := current_bytes_size p;
     events := events p |}.
Definition set_outputs_inputs (eo : ExtractedOutputs) (si : SpentInputs C) (p : Pool) : Pool :=
  {| config := config p; storage := storage p; collision_manager := collision_manager p;
     selection_algorithm := selection_algorithm p; tx_id_to_storage_id := tx_id_to_storage_id p;
     extracted_outputs := eo; spent_inputs := si;
     current_gas := current_gas p; current_bytes_size := current_bytes_size p;
     events := events p |}.
Definition emit (e : PoolEvent) (p : Pool) : Pool :=
  {| config := config p; storage := storage p; collision_manager := collision_manager p;
     selection_algorithm := selection_algorithm p; tx_id_to_storage_id := tx_id_to_storage_id p;
     extracted_outputs := extracted_outputs p; spent_inputs := spent_inputs p;
     current_gas := current_gas p; current_bytes_size := current_bytes_size p;
     events := events p ++ [e] |}.

Definition update_stats (p : Pool) : Pool :=
  emit (Stats {| tx_count_stat := tx_count p; total_size := current_bytes_size p;
                 total_gas := current_gas p |}) p.

(** ** Removals *)

Definition on_removal (p : Pool) (storage_entry : StorageData) : Pool :=
  let tx := transaction storage_entry in
  {| config := config p; storage := storage p;
     collision_manager := on_removed_transaction tx (collision_manager p);
     selection_algorithm := on_removed_executable storage_entry (selection_algorithm p);
     tx_id_to_storage_id := delete (tx_id tx) (tx_id_to_storage_id p);
     extracted_outputs := extracted_outputs p; spent_inputs := spent_inputs p;
     current_gas := sat_sub (current_gas p) (max_gas tx);
     current_bytes_size := sat_sub (current_bytes_size p) (metered_bytes_size tx);
     events := events p |}.

Definition update_components_and_caches_on_removal (removed : list StorageData) (p : Pool) : Pool :=
  foldl on_removal p removed.

(** [remove_transaction_and_dependents_subtree] followed by the update of the
    other components, as every caller does. *)
Definition remove_subtree (p : Pool) (storage_id : Idx) : option (list StorageData * Pool) :=
  '(removed, s) ← remove_transaction_and_dependents_subtree storage_id (storage p);
  Some (removed, update_components_and_caches_on_removal removed (set_storage s p)).

Fixpoint remove_subtrees (ids : list Idx) (removed : list StorageData) (p : Pool) :
    option (list StorageData * Pool) :=
  match ids with
  | [] => Some (removed, p)
  | i :: ids =>
      '(r, p) ← remove_subtree p i;
      remove_subtrees ids (removed ++ r) p
  end.

Definition removed_ids (removed : list StorageData) : list TxId :=
  (λ d, tx_id (transaction d)) <$> removed.

Definition squeeze_out (removed : list StorageData) (reason : Error) (p : Pool) : Pool :=
  match removed with [] => p | _ => emit (SqueezedOut (removed_ids removed) reason) p end.

Fixpoint remove_txs_loop (ids : list TxId) (removed : list StorageData) (p : Pool) :
    option (list StorageData * Pool) :=
  match ids with
  | [] => Some (removed, p)
  | id :: ids =>
      match tx_id_to_storage_id p !! id with
      | Some storage_id =>
          '(r, p) ← remove_subtree (set_tx_ids (delete id (tx_id_to_storage_id p)) p) storage_id;
          remove_txs_loop ids (removed ++ r) p
      | None => remove_txs_loop ids removed p
      end
  end.

Definition remove_transactions_and_dependents (ids : list TxId) (error : Error) (p : Pool) :
    option Pool :=
  '(removed, p) ← remove_txs_loop ids [] p;
  Some (update_stats (squeeze_out removed error p)).

(** The loop over [coin_dependents] or over contract users: each removed subtree
    is reported at once. *)
Fixpoint evict_all (ids : list Idx) (reason : Error) (p : Pool) : option Pool :=
  match ids with
  | [] => Some p
  | i :: ids =>
      '(removed, p) ← remove_subtree p i;
      evict_all ids reason (squeeze_out removed reason p)
  end.

(** ** Insertion *)

Definition check_blob_does_not_exist (tx : PoolTransaction) (ps : TxPoolPersistentStorage) :
    result unit Error :=
  match tx with
  | Blob _ blob_id _ =>
      match ps_blob_exist ps blob_id with
      | Err e => Err (ErrDatabase e)
      | Ok true => Err (ErrInputValidation (NotInsertedBlobIdAlreadyTaken blob_id))
      | Ok false => Ok ()
      end
  | _ => Ok ()
  end.

Definition is_better_than_collision (tx : PoolTransaction) (collision : Idx)
    (s : GraphStorage G Idx) : result bool CollisionReason :=
  match get s collision with
  | None => Err CollisionUnknown
  | Some colliding_tx =>
      Ok (ratio_gt (tip tx) (max_gas tx)
            (dependents_cumulative_tip colliding_tx) (dependents_cumulative_gas colliding_tx))
  end.

Definition check_collision_requirements (cols : gmap Idx (list CollisionReason))
    (tx : PoolTransaction) (has_deps : bool) (s : GraphStorage G Idx) :
    result unit CollisionReason :=
  if has_deps && bool_decide (1 < Z.of_nat (size cols)) then Err MultipleCollisions
  else
    try_fold (λ _ collision,
      match is_better_than_collision tx collision s with
      | Err e => Err e
      | Ok true => Ok ()
      | Ok false =>
          match unwrap_or (cols !! collision) [] with
          | reason :: _ => Err reason
          | [] => Err CollisionUnknown
          end
      end) () (hs_iter (dom cols)).

Record NotEnoughSpace := { ne_gas_left : Z; ne_bytes_left : Z; ne_txs_left : Z }.
Inductive SpaceCheckResult := EnoughSpace | NotEnough (space : NotEnoughSpace).

Definition over_limits (limits : PoolLimits) (gas bytes txs : Z) : bool :=
  bool_decide (gas > limit_max_gas limits ∨ bytes > max_bytes_size limits ∨ txs > max_txs limits).

Definition can_fit_into_pool (p : Pool) (ct : CheckedTransaction Idx) :
    result SpaceCheckResult Error :=
  let tx := ct_tx ct in
  let gas_left := sat_add U64 (current_gas p) (max_gas tx) in
  let bytes_left := sat_add U64 (current_bytes_size p) (metered_bytes_size tx) in
  let txs_left := sat_add U64 (tx_count p) 1 in
  if negb (over_limits (pool_limits (config p)) gas_left bytes_left txs_left)
  then Ok EnoughSpace
  else if decide (ct_all_dependencies ct = ∅)
  then Ok (NotEnough {| ne_gas_left := gas_left; ne_bytes_left := bytes_left;
                        ne_txs_left := txs_left |})
  else Err NotInsertedLimitHit.

(** The loop of [find_free_space] over the less worth transactions. *)
Fixpoint find_free_space_loop (p : Pool) (ct : CheckedTransaction Idx) (gas bytes txs : Z)
    (sorted_txs to_remove : list Idx) : result (list Idx) Error :=
  if over_limits (pool_limits (config p)) gas bytes txs then
    match sorted_txs with
    | [] => Err NotInsertedLimitHit
    | storage_id :: sorted_txs =>
        if decide (storage_id ∈ ct_all_dependencies ct)
        then find_free_space_loop p ct gas bytes txs sorted_txs to_remove
        else
          match get (storage p) storage_id with
          | None => find_free_space_loop p ct gas bytes txs sorted_txs to_remove
          | Some d =>
              if ratio_gt (dependents_cumulative_tip d) (dependents_cumulative_gas d)
                   (tip (ct_tx ct)) (max_gas (ct_tx ct))
              then Err NotInsertedLimitHit
              else
                find_free_space_loop p ct
                  (sat_sub gas (dependents_cumulative_gas d))
                  (sat_sub bytes (dependents_cumulative_bytes_size d))
                  (sat_sub txs (number_dependents_in_chain d))
                  sorted_txs (to_remove ++ [storage_id])
          end
    end
  else Ok to_remove.

Definition find_free_space (p : Pool) (space : NotEnoughSpace) (ct : CheckedTransaction Idx) :
    result (list Idx) Error :=
  find_free_space_loop p ct (ne_gas_left space) (ne_bytes_left space) (ne_txs_left space)
    (get_less_worth_txs (selection_algorithm p)) [].

Record CanStoreTransaction := {
  checked_transaction : CheckedTransaction Idx;
  transactions_to_evict : list Idx;
  collisions : gmap Idx (list CollisionReason);
}.

Definition can_insert_transaction (p : Pool) (tx : PoolTransaction) (ps : TxPoolPersistentStorage) :
    option (result CanStoreTransaction InsertionErrorType) :=
  if decide (max_gas tx = 0) then Some (Err (InsertionError (ErrInputValidation MaxGasZero)))
  else if decide (is_Some (tx_id_to_storage_id p !! tx_id tx))
  then Some (Err (InsertionError (ErrInputValidation (DuplicateTxId (tx_id tx)))))
  else
  match check_blacklisting (black_list (config p)) tx with
  | Err e => Some (Err (InsertionError (ErrBlacklisted e)))
  | Ok _ =>
  match check_blob_does_not_exist tx ps with
  | Err e => Some (Err (InsertionError e))
  | Ok _ =>
  v ← validate_inputs (storage p) tx ps (extracted_outputs p) (spent_inputs p)
        (utxo_validation (config p));
  match v with
  | Err e => Some (Err (insertion_error_of e))
  | Ok _ =>
  match find_collisions (collision_manager p) tx with
  | Err e => Some (Err (InsertionError e))
  | Ok cols =>
  c ← can_store_transaction (storage p) tx;
  match c with
  | Err e => Some (Err (InsertionError e))
  | Ok ct =>
  if decide (dom cols ∩ ct_all_dependencies ct ≠ ∅)
  then Some (Err (InsertionError (ErrDependency NotInsertedCollisionIsDependency)))
  else
  match check_collision_requirements cols (ct_tx ct) (bool_decide (ct_all_dependencies ct ≠ ∅))
          (storage p) with
  | Err e => Some (Err (InsertionError (ErrCollided e)))
  | Ok _ =>
  match can_fit_into_pool p ct with
  | Err e => Some (Err (InsertionError e))
  | Ok EnoughSpace =>
      Some (Ok {| checked_transaction := ct; transactions_to_evict := []; collisions := cols |})
  | Ok (NotEnough space) =>
      match find_free_space p space ct with
      | Err e => Some (Err (InsertionError e))
      | Ok to_remove =>
          Some (Ok {| checked_transaction := ct; transactions_to_evict := to_remove;
                      collisions := cols |})
      end
  end end end end end end end.

(** Storing the checked transaction and telling the other components. *)
Definition store_checked (ct : CheckedTransaction Idx) (now : Z) (p : Pool) : option Pool :=
  let tx := ct_tx ct in
  let '(storage_id, s) := store_transaction ct now (storage p) in
  data ← get s storage_id;
  let p :=
    {| config := config p; storage := s;
       collision_manager := on_stored_transaction storage_id data (collision_manager p);
       selection_algorithm := selection_algorithm p;
       tx_id_to_storage_id := <[tx_id tx := storage_id]> (tx_id_to_storage_id p);
       extracted_outputs := extracted_outputs p; spent_inputs := spent_inputs p;
       current_gas := sat_add U64 (current_gas p) (max_gas tx);
       current_bytes_size := sat_add U64 (current_bytes_size p) (metered_bytes_size tx);
       events := events p ++ [Submitted (tx_id tx) now] |} in
  if decide (ct_all_dependencies ct = ∅)
  then Some (emit NewExecutable
              (set_selection (new_executable_transaction storage_id data (selection_algorithm p)) p))
  else Some p.

Definition insert_inner (tx : PoolTransaction) (ps : TxPoolPersistentStorage) (now : Z) (p : Pool) :
    option (Pool * result unit InsertionErrorType) :=
  c ← can_insert_transaction p tx ps;
  match c with
  | Err e => Some (p, Err e)
  | Ok can =>
      '(removed1, p) ← remove_subtrees (transactions_to_evict can) [] p;
      '(removed, p) ← remove_subtrees (hs_iter (dom (collisions can))) removed1 p;
      p ← store_checked (checked_transaction can) now p;
      Some (update_stats (squeeze_out removed (ErrRemoved (LessWorth (tx_id tx))) p), Ok ())
  end.

Definition insert (tx : PoolTransaction) (ps : TxPoolPersistentStorage) (now : Z) (p : Pool) :
    option (Pool * result unit InsertionErrorType) :=
  let duplicate := Err (InsertionError (ErrInputValidation (DuplicateTxId (tx_id tx)))) in
  if is_spent_tx (tx_id tx) (spent_inputs p) then Some (p, duplicate)
  else
    match ps_contains_tx ps (tx_id tx) with
    | Err e => Some (p, Err (InsertionError (ErrDatabase e)))
    | Ok true => Some (p, duplicate)
    | Ok false => insert_inner tx ps now p
    end.

(** ** Extraction *)

Definition extract_one (p : Pool) (storage_entry : StorageData) : Pool :=
  let tx := transaction storage_entry in
  on_removal
    (set_outputs_inputs (new_extracted_transaction tx (extracted_outputs p))
       (maybe_spend_inputs (tx_id tx) (inputs tx) (spent_inputs p)) p)
    storage_entry.

Definition extract_transactions_for_block (c : Constraints) (p : Pool) :
    option (list PoolTransaction * Pool) :=
  '(sel, best_txs, s, notify) ← gather_best_txs c (selection_algorithm p) (storage p);
  let p := set_storage s (set_selection sel p) in
  let p := if (notify : bool) then emit NewExecutable p else p in
  let p := foldl extract_one p best_txs in
  Some (transaction <$> best_txs, update_stats p).

Definition pool_get (p : Pool) (id : TxId) : option StorageData :=
  storage_id ← tx_id_to_storage_id p !! id; get (storage p) storage_id.

Definition contains (p : Pool) (id : TxId) : bool :=
  bool_decide (is_Some (tx_id_to_storage_id p !! id)).

(** ** Blocks and preconfirmations *)

(** [new_executable_transaction] for those of [l] that are stored and have no
    dependencies left. *)
Definition promote_ready (p : Pool) (l : list Idx) : Pool * bool :=
  foldl (λ '(p, found) dependent,
    if has_dependencies (storage p) dependent then (p, found)
    else match get (storage p) dependent with
         | None => (p, found)
         | Some d =>
             (set_selection (new_executable_transaction dependent d (selection_algorithm p)) p, true)
         end) (p, false) l.

Definition notify_if (b : bool) (p : Pool) : Pool := if b then emit NewExecutable p else p.

Definition process_preconfirmed_committed_transaction (id : TxId) (p : Pool) : Pool :=
  let si := if decide (is_Some (tx_id_to_storage_id p !! id)) then spent_inputs p
            else move_spender_to_tentative id (spent_inputs p) in
  let p := set_outputs_inputs (extracted_outputs p) (spend_inputs_by_tx_id id si) p in
  match tx_id_to_storage_id p !! id with
  | None => update_stats p
  | Some storage_id =>
      let p := set_tx_ids (delete id (tx_id_to_storage_id p)) p in
      let dependents := get_direct_dependents (storage p) storage_id in
      match remove_transaction storage_id (storage p) with
      | (None, s) => set_storage s p
      | (Some entry, s) =>
          let tx := transaction entry in
          let p := set_outputs_inputs (new_extracted_transaction tx (extracted_outputs p))
            (spend_inputs id (inputs tx)
              (record_tentative_spend id (inputs tx) (spent_inputs p))) (set_storage s p) in
          let p := on_removal p entry in
          let '(p, found) := promote_ready p dependents in
          update_stats (notify_if found p)
      end
  end.

(** One transaction of a committed block; the accumulator has the transactions
    to promote. *)
Definition commit_one (acc : Pool * list Idx) (id : TxId) : Pool * list Idx :=
  let '(p, to_promote) := acc in
  let p := set_outputs_inputs (extracted_outputs p)
             (spend_inputs_by_tx_id id (spent_inputs p)) p in
  match tx_id_to_storage_id p !! id with
  | None => (p, to_promote)
  | Some storage_id =>
      let p := set_tx_ids (delete id (tx_id_to_storage_id p)) p in
      let dependents := get_direct_dependents (storage p) storage_id in
      match remove_transaction storage_id (storage p) with
      | (None, s) => (set_storage s p, to_promote)
      | (Some entry, s) =>
          let tx := transaction entry in
          let p := set_outputs_inputs (new_extracted_transaction tx (extracted_outputs p))
                     (spend_inputs id (inputs tx) (spent_inputs p)) (set_storage s p) in
          let p := on_removal p entry in
          (p, to_promote ++ filter (λ d, has_dependencies (storage p) d = false) dependents)
      end
  end.

(** Promotion as builds without debug assertions do it: an entry that is not stored
    any more is skipped.  [promotes_stored] is the assertion on that branch. *)
Definition promote_stored (p : Pool) (l : list Idx) : Pool * bool :=
  foldl (λ '(p, found) promote,
    match get (storage p) promote with
    | None => (p, found)
    | Some d =>
        (set_selection (new_executable_transaction promote d (selection_algorithm p)) p, true)
    end) (p, false) l.

Definition process_committed_transactions (ids : list TxId) (p : Pool) : Pool :=
  let '(p, to_promote) := foldl commit_one (p, []) ids in
  let '(p, found) := promote_stored p to_promote in
  update_stats (notify_if found p).

(** The debug assertion of the promotion: what is promoted is still stored.  A
    build with debug assertions panics when it is not; the others log and go on. *)
Definition promotes_stored (ids : list TxId) (p : Pool) : bool :=
  let '(p, to_promote) := foldl commit_one (p, []) ids in
  forallb (λ promote, bool_decide (is_Some (get (storage p) promote))) to_promote.

Definition remove_skipped_transaction (id : TxId) (reason : string) (p : Pool) : option Pool :=
  p ← (if decide (is_Some (tx_id_to_storage_id p !! id))
       then remove_transactions_and_dependents [id] (SkippedTransaction reason) p
       else Some p);
  let p := set_outputs_inputs (new_skipped_transaction id (extracted_outputs p))
             (unspend_inputs id (spent_inputs p)) p in
  p ← evict_all (get_coins_spenders (collision_manager p) id)
        (SkippedTransaction ("Parent transaction was removed because of: " ++ reason)) p;
  Some (update_stats p).

(** The users of one contract the rolled back transaction created. *)
Fixpoint evict_users (ids : list TxId) (reason : Error) (p : Pool) : option Pool :=
  match ids with
  | [] => Some p
  | id :: ids =>
      match tx_id_to_storage_id p !! id with
      | None => evict_users ids reason p
      | Some storage_id =>
          '(removed, p) ← remove_subtree p storage_id;
          evict_users ids reason (squeeze_out removed reason p)
      end
  end.

Fixpoint evict_contracts (contracts : list ContractId) (reason : Error) (p : Pool) : option Pool :=
  match contracts with
  | [] => Some p
  | c :: contracts =>
      if contract_created_in_pool (collision_manager p) c then evict_contracts contracts reason p
      else
        p ← evict_users (get_contract_users (collision_manager p) c) reason p;
        evict_contracts contracts reason p
  end.

Definition rollback_preconfirmed_transaction (id : TxId) (p : Pool) : option Pool :=
  let created := contracts_created_by id (extracted_outputs p) in
  let p := set_outputs_inputs (new_skipped_transaction id (extracted_outputs p))
             (unspend_preconfirmed id (spent_inputs p)) p in
  let reason := SkippedTransaction
    "Preconfirmed parent transaction was not included in the canonical block" in
  p ← evict_all (get_coins_spenders (collision_manager p) id) reason p;
  p ← evict_contracts created reason p;
  Some (update_stats p).
End pool.
Arguments Pool : clear implicits.
Arguments Pool G Idx C : assert.
