(* ===== verification/TxPoolPoolFacts.v ===== *)
(** * The components of the pool agree

    The invariant [pool_ok] of [Pool]: graph, collision manager, sorted
    executables, id map and totals all describe the same set of transactions.
    Lemmas show that removals, storing, extraction and commits preserve it. *)

From stdpp Require Import prelude gmap list strings relations.
From Stdlib Require Import ZArith Lia.
From S2P Require Import Prelude.
From S2P Require Import TxTypes.
From S2P Require Import TxPoolTypes.
From S2P Require Import TxPoolSpent.
From S2P Require Import TxPoolExtracted.
From S2P Require Import TxPoolCollision.
From S2P Require Import TxPoolGraph.
From S2P Require Import TxPoolGraphFacts.
From S2P Require Import TxPoolGraphSpec.
From S2P Require Import TxPoolSelection.
From S2P Require Import TxPoolSelectionFacts.
From S2P Require Import TxPoolPool.
Local Open Scope Z_scope.

Section pool_facts.
Context {G Idx C : Type} `{Countable Idx} `{!StableDiGraph G Idx} `{!StableDiGraphSpec G Idx}.
Context `{!HashOrder Idx} `{!LruCache C}.
Implicit Types (p : Pool G Idx C) (gs : GraphStorage G Idx).
Implicit Types (M : gmap Idx (PoolTransaction * Z)) (X : Idx → Prop).

(** The transactions of a graph with their creation instants. *)
Definition info gs : gmap Idx (PoolTransaction * Z) := txinfo <$> nodes gs.

Definition key_info (t : PoolTransaction * Z) : Key :=
  {| k_num := sat_add U64 (tip t.1) 1; k_den := max_gas t.1;
     k_creation_instant := t.2; k_tx_id := tx_id t.1 |}.

Definition entries_of p : list (Key * Idx) :=
  executable_transactions_sorted_tip_gas_ratio (selection_algorithm p).

(** Every component but the graph describes the transactions [M], of which those
    with [X] are executable. *)
Record comp_ok p M X : Prop := {
  co_cm : cm_ok (collision_manager p) (fst <$> M);
  co_ids id i : tx_id_to_storage_id p !! id = Some i ↔ ∃ t, M !! i = Some t ∧ tx_id t.1 = id;
  co_gas : current_gas p = map_sum (λ t, max_gas t.1) M;
  co_bytes : current_bytes_size p = map_sum (λ t, metered_bytes_size t.1) M;
  co_sorted : bt_sorted (entries_of p);
  co_entries k i : (k, i) ∈ entries_of p ↔ ∃ t, M !! i = Some t ∧ X i ∧ k = key_info t;
  co_pos i t : M !! i = Some t → 0 < max_gas t.1 ∧ 0 ≤ metered_bytes_size t.1;
}.

Lemma co_unique p M X i j t t' :
  comp_ok p M X → M !! i = Some t → M !! j = Some t' → tx_id t.1 = tx_id t'.1 → i = j.
Proof.
  intros Hc Hi Hj Heq.
  assert (tx_id_to_storage_id p !! tx_id t.1 = Some i) by (apply (co_ids _ _ _ Hc); eauto).
  assert (tx_id_to_storage_id p !! tx_id t.1 = Some j) by (apply (co_ids _ _ _ Hc); eauto).
  congruence.
Qed.

Lemma co_ids_unique p M X : comp_ok p M X → ids_unique (fst <$> M).
Proof.
  intros Hc i j tx tx'. rewrite !lookup_fmap, !fmap_Some.
  intros (t & Hi & ->) (t' & Hj & ->). by eapply co_unique.
Qed.

Lemma comp_ok_ext p M X X' :
  comp_ok p M X → (∀ i, is_Some (M !! i) → X i ↔ X' i) → comp_ok p M X'.
Proof.
  intros [Hcm Hids Hg Hb Hs He Hp] HX. split; try done. intros k i. rewrite He.
  split; intros (t & Hi & Hx & ->); exists t; (split; [done|]); (split; [|done]); apply HX; eauto.
Qed.

Lemma key_info_eq p M X i j t t' :
  comp_ok p M X → M !! i = Some t → M !! j = Some t' →
  key_cmp (key_info t) (key_info t') = Eq → i = j.
Proof.
  intros Hc Hi Hj He. pose proof (key_cmp_spec (key_info t) (key_info t')) as Hs. rewrite He in Hs.
  eapply co_unique; eauto. naive_solver.
Qed.

(** *** Forgetting one transaction *)

Lemma on_removal_ok p M X i d :
  comp_ok p M X → M !! i = Some (txinfo d) → comp_ok (on_removal p d) (delete i M) X.
Proof.
  intros Hc Hi. destruct (co_pos _ _ _ Hc _ _ Hi) as [Hgas Hsize]. simpl in Hgas, Hsize.
  assert (∀ w : PoolTransaction * Z → Z, (∀ j t, M !! j = Some t → 0 ≤ w t) →
    0 ≤ map_sum w (delete i M)) as Hnn.
  { intros w Hw. apply map_sum_nonneg. intros j t [_ Hj]%lookup_delete_Some. eauto. }
  split; simpl.
  - rewrite fmap_delete. apply on_removed_ok; [apply Hc|by eapply co_ids_unique|].
    by rewrite lookup_fmap, Hi.
  - intros id j. rewrite lookup_delete_Some, (co_ids _ _ _ Hc).
    setoid_rewrite lookup_delete_Some. split.
    + intros (Hne & t & Hj & <-). exists t. split_and!; [|done..]. intros ->. by simplify_eq.
    + intros (t & [Hne Hj] & <-). split; [|by eauto]. intros Heq. apply Hne.
      by eapply (co_unique p M X i j _ _ Hc Hi Hj).
  - rewrite (co_gas _ _ _ Hc), (map_sum_delete _ _ _ _ Hi).
    specialize (Hnn (λ t, max_gas t.1)). unfold sat_sub.
    assert (0 ≤ map_sum (λ t : PoolTransaction * Z, max_gas t.1) (delete i M)); [|simpl; lia].
    apply Hnn. intros j t Hj. destruct (co_pos _ _ _ Hc _ _ Hj). lia.
  - rewrite (co_bytes _ _ _ Hc), (map_sum_delete _ _ _ _ Hi).
    specialize (Hnn (λ t, metered_bytes_size t.1)). unfold sat_sub.
    assert (0 ≤ map_sum (λ t : PoolTransaction * Z, metered_bytes_size t.1) (delete i M));
      [|simpl; lia].
    apply Hnn. intros j t Hj. by destruct (co_pos _ _ _ Hc _ _ Hj).
  - apply bt_remove_sorted; [apply Hc|done].
  - intros k j. unfold entries_of. simpl. rewrite bt_remove_elem by (done || apply Hc).
    fold (entries_of p). rewrite (co_entries _ _ _ Hc). setoid_rewrite lookup_delete_Some. split.
    + intros [(t & Hj & Hx & ->) Hne]. exists t. split_and!; [|done..]. intros ->. simplify_eq.
      apply Hne, key_cmp_refl.
    + intros (t & [Hne Hj] & Hx & ->). split; [by eauto|]. intros Heq. apply Hne.
      by eapply (key_info_eq p M X i j _ _ Hc Hi Hj).
  - intros j t [_ Hj]%lookup_delete_Some. by eapply Hc.
Qed.

Lemma update_components_ok p M X ids removed :
  comp_ok p M X → NoDup ids → Forall2 (λ i d, M !! i = Some (txinfo d)) ids removed →
  comp_ok (update_components_and_caches_on_removal removed p)
    (foldl (λ m i, delete i m) M ids) X.
Proof.
  intros Hc Hnd. revert p M removed Hc. induction Hnd as [|i ids Hni Hnd IH];
    intros p M removed Hc Hf; [by apply Forall2_nil_inv_l in Hf as ->|].
  apply Forall2_cons_inv_l in Hf as (d & removed' & Hi & Hf & ->). cbn [foldl].
  change (update_components_and_caches_on_removal (d :: removed') p) with
    (update_components_and_caches_on_removal removed' (on_removal p d)).
  apply IH; [by apply on_removal_ok|].
  apply Forall2_same_length_lookup_2; [by eapply Forall2_length|].
  intros n j e Hj He. rewrite lookup_delete_ne; [by eapply Forall2_lookup_lr in Hf|].
  intros ->. apply Hni. by eapply list_elem_of_lookup_2.
Qed.

(** ** The invariant *)

Definition ready gs (i : Idx) : Prop := has_dependencies gs i = false.

Record pool_ok p : Prop := {
  po_graph : gs_ok (storage p);
  po_comp : comp_ok p (info (storage p)) (ready (storage p));
}.

Lemma info_lookup gs i t :
  info gs !! i = Some t ↔ ∃ d, nodes gs !! i = Some d ∧ t = txinfo d.
Proof. unfold info. rewrite lookup_fmap, fmap_Some. naive_solver. Qed.

Lemma pool_txs p M X : comp_ok p M X → M = info (storage p) → pool_txs_ok (storage p).
Proof.
  intros Hc ->. split.
  - intros i d Hd. apply (co_pos _ _ _ Hc i (txinfo d)), info_lookup. eauto.
  - intros i j d d' Hi Hj Heq. eapply (co_unique _ _ _ i j (txinfo d) (txinfo d') Hc); [..|done].
    all: apply info_lookup; eauto.
Qed.

Lemma pool_sel p : pool_ok p → sel_ok (selection_algorithm p) (storage p).
Proof.
  intros [_ Hc]. split; [apply Hc|]. intros k i. fold (entries_of p).
  rewrite (co_entries _ _ _ Hc). unfold executable, ready. setoid_rewrite info_lookup.
  split; [intros (t & (d & Hd & ->) & Hr & ->)|intros (d & [Hd Hr] & ->)]; eauto 10.
Qed.

(** The id map, caches and totals depend only on the components they name. *)
Lemma comp_ok_frame p p' M X :
  collision_manager p' = collision_manager p → tx_id_to_storage_id p' = tx_id_to_storage_id p →
  current_gas p' = current_gas p → current_bytes_size p' = current_bytes_size p →
  selection_algorithm p' = selection_algorithm p →
  comp_ok p M X → comp_ok p' M X.
Proof.
  intros E1 E2 E3 E4 E5 [Hcm Hids Hg Hb Hs He Hp].
  assert (entries_of p' = entries_of p) as Ee by (unfold entries_of; by rewrite E5).
  split; rewrite ?E1, ?E2, ?E3, ?E4, ?Ee; done.
Qed.

Lemma pool_ok_frame p p' :
  storage p' = storage p →
  collision_manager p' = collision_manager p → tx_id_to_storage_id p' = tx_id_to_storage_id p →
  current_gas p' = current_gas p → current_bytes_size p' = current_bytes_size p →
  selection_algorithm p' = selection_algorithm p →
  pool_ok p → pool_ok p'.
Proof.
  intros Es ? ? ? ? ? [Hg Hc]. split; rewrite Es; [done|]. by eapply comp_ok_frame.
Qed.

(** ** Removing a subtree *)

(** No survivor of a subtree removal becomes executable. *)
Lemma removed_ready gs x ids removed gs' i :
  removed_from gs ids removed gs' → (∀ i, i ∈ ids ↔ x ∈ dom (nodes gs) ∧ reach gs x i) →
  i ∉ ids → ready gs i ↔ ready gs' i.
Proof.
  intros Hr Hids Hi. unfold ready. rewrite !has_dependencies_false.
  setoid_rewrite (rf_dep _ _ _ _ Hr). split; [naive_solver|].
  intros Hno q Hq. apply (Hno q). split_and!; [done| |done].
  intros [Hx Hr']%Hids. apply Hi, Hids. split; [done|]. eapply rtc_r; eauto.
Qed.

Lemma info_removed gs ids removed gs' :
  removed_from gs ids removed gs' → info gs' = foldl (λ m i, delete i m) (info gs) ids.
Proof.
  intros Hr. apply map_eq. intros i. unfold info.
  rewrite lookup_foldl_delete, !lookup_fmap, (rf_nodes _ _ _ _ Hr). done.
Qed.

Lemma on_removal_frame removed p :
  let p' := update_components_and_caches_on_removal removed p in
  storage p' = storage p ∧ config p' = config p ∧ extracted_outputs p' = extracted_outputs p ∧
  spent_inputs p' = spent_inputs p ∧ events p' = events p.
Proof.
  revert p. induction removed as [|d removed IH]; intros p; [done|].
  destruct (IH (on_removal p d)) as (? & ? & ? & ? & ?). simpl. split_and!; done.
Qed.

Lemma remove_subtree_ok p x :
  pool_ok p →
  ∃ ids removed p', remove_subtree p x = Some (removed, p') ∧ pool_ok p' ∧
    removed_from (storage p) ids removed (storage p') ∧
    (∀ i, i ∈ ids ↔ x ∈ dom (nodes (storage p)) ∧ reach (storage p) x i) ∧
    config p' = config p ∧ extracted_outputs p' = extracted_outputs p ∧
    spent_inputs p' = spent_inputs p ∧ events p' = events p.
Proof.
  intros [Hg Hc]. destruct (remove_subtree_spec (storage p) x Hg)
    as (ids & removed & gs' & Hrm & Hg' & Hrf & Hids).
  unfold remove_subtree. rewrite Hrm. cbn [mbind option_bind].
  destruct (on_removal_frame removed (set_storage gs' p)) as (Hst & Hcf & He & Hs & Hev).
  exists ids, removed. eexists. split_and!; [done| |by rewrite Hst|done..].
  split; rewrite Hst; simpl; [done|]. rewrite (info_removed _ _ _ _ Hrf).
  eapply comp_ok_ext; [apply update_components_ok; [|apply Hrf|]|].
  - by eapply comp_ok_frame, Hc.
  - eapply Forall2_impl; [apply Hrf|]. intros i d. cbv beta. unfold info. by rewrite lookup_fmap.
  - intros i. rewrite lookup_foldl_delete. case_decide; [by intros []|]. intros _.
    by eapply removed_ready.
Qed.

(** *** The loops over subtrees *)

(** [p'] is a later state of [p] from which transactions were only removed. *)
Record shrunk p p' : Prop := {
  sh_ok : pool_ok p';
  sh_info i t : info (storage p') !! i = Some t → info (storage p) !! i = Some t;
  sh_config : config p' = config p;
}.

Lemma shrunk_refl p : pool_ok p → shrunk p p.
Proof. by split. Qed.
Lemma shrunk_trans p1 p2 p3 : shrunk p1 p2 → shrunk p2 p3 → shrunk p1 p3.
Proof. intros [_ Hi Hc] [Hok Hi' Hc']. split; [done|eauto|congruence]. Qed.

Lemma shrunk_removed p p' ids removed :
  pool_ok p' → removed_from (storage p) ids removed (storage p') → config p' = config p →
  shrunk p p'.
Proof.
  intros Hok Hr Hc. split; [done| |done]. intros i t. rewrite (info_removed _ _ _ _ Hr).
  rewrite lookup_foldl_delete. by case_decide.
Qed.

Lemma pool_ok_emit p e : pool_ok p → pool_ok (emit e p).
Proof. by apply pool_ok_frame. Qed.
Lemma pool_ok_squeeze p l r : pool_ok p → pool_ok (squeeze_out l r p).
Proof. destruct l; [done|apply pool_ok_emit]. Qed.
Lemma pool_ok_outputs p eo si : pool_ok p → pool_ok (set_outputs_inputs eo si p).
Proof. by apply pool_ok_frame. Qed.
Lemma shrunk_squeeze p p' l r : shrunk p p' → shrunk p (squeeze_out l r p').
Proof. intros [Hok Hi Hc]. split; [by apply pool_ok_squeeze|by destruct l..]. Qed.

Lemma evict_all_ok l r p : pool_ok p → ∃ p', evict_all l r p = Some p' ∧ shrunk p p'.
Proof.
  revert p. induction l as [|x l IH]; intros p Hok; cbn [evict_all].
  { exists p. split; [done|by apply shrunk_refl]. }
  destruct (remove_subtree_ok p x Hok) as (ids & removed & p1 & -> & Hok1 & Hr & _ & Hcf & _).
  cbn [mbind option_bind]. destruct (IH (squeeze_out removed r p1)) as (p' & -> & Hs);
    [by apply pool_ok_squeeze|].
  exists p'. split; [done|]. eapply shrunk_trans; [|done]. apply shrunk_squeeze.
  by eapply shrunk_removed.
Qed.

Lemma evict_users_ok l r p : pool_ok p → ∃ p', evict_users l r p = Some p' ∧ shrunk p p'.
Proof.
  revert p. induction l as [|id l IH]; intros p Hok; cbn [evict_users].
  { exists p. split; [done|by apply shrunk_refl]. }
  destruct (tx_id_to_storage_id p !! id) as [x|]; [|by apply IH].
  destruct (remove_subtree_ok p x Hok) as (ids & removed & p1 & -> & Hok1 & Hr & _ & Hcf & _).
  cbn [mbind option_bind]. destruct (IH (squeeze_out removed r p1)) as (p' & -> & Hs);
    [by apply pool_ok_squeeze|].
  exists p'. split; [done|]. eapply shrunk_trans; [|done]. apply shrunk_squeeze.
  by eapply shrunk_removed.
Qed.

Lemma evict_contracts_ok l r p : pool_ok p → ∃ p', evict_contracts l r p = Some p' ∧ shrunk p p'.
Proof.
  revert p. induction l as [|c l IH]; intros p Hok; cbn [evict_contracts].
  { exists p. split; [done|by apply shrunk_refl]. }
  destruct (contract_created_in_pool _ _); [by apply IH|].
  destruct (evict_users_ok (get_contract_users (collision_manager p) c) r p Hok) as (p1 & -> & Hs1).
  cbn [mbind option_bind]. destruct (IH p1 (sh_ok _ _ Hs1)) as (p' & -> & Hs).
  exists p'. split; [done|]. by eapply shrunk_trans.
Qed.

Lemma update_components_tx_ids removed m p :
  update_components_and_caches_on_removal removed (set_tx_ids m p) =
  set_tx_ids (foldl (λ m d, delete d m) m (removed_ids removed))
    (update_components_and_caches_on_removal removed p).
Proof.
  revert m p. induction removed as [|d removed IH]; intros m p.
  { by destruct p. }
  apply (IH (delete (tx_id (transaction d)) m) (on_removal p d)).
Qed.

Lemma set_tx_ids_id p : set_tx_ids (tx_id_to_storage_id p) p = p.
Proof. by destruct p. Qed.

(** Deleting the id first, as [remove_transactions_and_dependents] does, makes no
    difference. *)
Lemma remove_subtree_deleted p id x :
  pool_ok p → tx_id_to_storage_id p !! id = Some x →
  remove_subtree (set_tx_ids (delete id (tx_id_to_storage_id p)) p) x = remove_subtree p x.
Proof.
  intros [Hg Hc] Hid. apply (co_ids _ _ _ Hc) in Hid as (t & (d & Hd & ->)%info_lookup & Ht).
  destruct (remove_subtree_spec (storage p) x Hg) as (ids & removed & gs' & Hrm & _ & Hrf & Hids).
  unfold remove_subtree. simpl. rewrite Hrm. cbn [mbind option_bind]. do 2 f_equal.
  change (set_storage gs' (set_tx_ids (delete id (tx_id_to_storage_id p)) p)) with
    (set_tx_ids (delete id (tx_id_to_storage_id p)) (set_storage gs' p)).
  rewrite update_components_tx_ids.
  rewrite <- (set_tx_ids_id (set_storage gs' p)) at 2. rewrite update_components_tx_ids.
  f_equal. apply map_eq. intros id'. rewrite !lookup_foldl_delete, lookup_delete. simpl.
  destruct (decide (id' ∈ removed_ids removed)) as [|Hno]; [done|].
  destruct (decide (id = id')) as [<-|]; [exfalso|done]. apply Hno.
  assert (x ∈ ids) as [n Hn]%list_elem_of_lookup.
  { apply Hids. split; [apply elem_of_dom; eauto|apply rtc_refl]. }
  destruct (Forall2_lookup_l _ _ _ _ _ (rf_res _ _ _ _ Hrf) Hn) as (e & He & Hx).
  rewrite Hd in Hx. injection Hx as Hx. unfold removed_ids.
  apply list_elem_of_fmap. exists e. split; [|by eapply list_elem_of_lookup_2].
  rewrite <- Ht. simpl. unfold txinfo in Hx. congruence.
Qed.

Lemma remove_txs_loop_ok l acc p :
  pool_ok p → ∃ removed p', remove_txs_loop l acc p = Some (removed, p') ∧ shrunk p p'.
Proof.
  revert acc p. induction l as [|id l IH]; intros acc p Hok; cbn [remove_txs_loop].
  { exists acc, p. split; [done|by apply shrunk_refl]. }
  destruct (tx_id_to_storage_id p !! id) as [x|] eqn:Hid; [|by apply IH].
  rewrite remove_subtree_deleted by done.
  destruct (remove_subtree_ok p x Hok) as (ids & removed & p1 & -> & Hok1 & Hr & _ & Hcf & _).
  cbn [mbind option_bind]. destruct (IH (acc ++ removed) p1 Hok1) as (res & p' & -> & Hs).
  exists res, p'. split; [done|]. eapply shrunk_trans; [by eapply shrunk_removed|done].
Qed.

(** ** Extraction *)

Lemma extract_fold_ok p M X ids removed :
  comp_ok p M X → NoDup ids → Forall2 (λ i d, M !! i = Some (txinfo d)) ids removed →
  let p' := foldl extract_one p removed in
  comp_ok p' (foldl (λ m i, delete i m) M ids) X ∧ storage p' = storage p.
Proof.
  intros Hc Hnd. revert p M removed Hc. induction Hnd as [|i ids Hni Hnd IH];
    intros p M removed Hc Hf; [by apply Forall2_nil_inv_l in Hf as ->|].
  apply Forall2_cons_inv_l in Hf as (d & removed' & Hi & Hf & ->). cbn [foldl].
  destruct (IH (extract_one p d) (delete i M) removed') as [Hc' Hs'].
  - apply on_removal_ok; [|done]. by eapply comp_ok_frame, Hc.
  - apply Forall2_same_length_lookup_2; [by eapply Forall2_length|].
    intros n j e Hj He. rewrite lookup_delete_ne; [by eapply Forall2_lookup_lr in Hf|].
    intros ->. apply Hni. by eapply list_elem_of_lookup_2.
  - split; [exact Hc'|exact Hs'].
Qed.

Lemma extract_ok c p :
  0 ≤ c_max_gas c → 0 ≤ maximum_block_size c → 0 ≤ maximum_txs c → pool_ok p →
  ∃ ids txs p', extract_transactions_for_block c p = Some (txs, p') ∧ pool_ok p' ∧
    NoDup ids ∧
    Forall2 (λ i tx, ∃ d, nodes (storage p) !! i = Some d ∧ transaction d = tx) ids txs ∧
    (∀ i, nodes (storage p') !! i = if decide (i ∈ ids) then None else nodes (storage p) !! i) ∧
    (∀ l1 i l2, ids = l1 ++ i :: l2 → ∀ q, dep (storage p) q i → q ∈ l1).
Proof.
  intros Hg Hs Hn Hok. destruct Hok as [Hgs Hc] eqn:Heq. clear Heq.
  destruct (gather_best_graph c (selection_algorithm p) (storage p))
    as (sel' & ids & res & gs' & b & Hga & Hgs' & [Hsort Hsel'] & Hres & Hnd & Hnodes & Hord);
    [done..|by eapply pool_txs|by apply pool_sel|].
  unfold extract_transactions_for_block. rewrite Hga. cbn [mbind option_bind].
  set (p1 := set_storage gs' (set_selection sel' p)).
  set (p2 := if b then emit NewExecutable p1 else p1).
  destruct (extract_fold_ok p2 (info (storage p)) (λ i, i ∉ ids ∧ ready gs' i) ids res)
    as [Hc' Hst]; [|done| |].
  - eapply (comp_ok_frame p1); [by destruct b..|].
    destruct Hc as [Hcm Hids Hgas Hb Hso He Hp].
    split; [exact Hcm|exact Hids|exact Hgas|exact Hb|exact Hsort| |exact Hp]. intros k i.
    unfold entries_of, p1. simpl. rewrite Hsel'. unfold executable, ready.
    setoid_rewrite info_lookup. setoid_rewrite Hnodes. split.
    + intros (d & [Hd Hr] & ->). destruct (decide (i ∈ ids)); [done|]. eauto 10.
    + intros (t & (d & Hd & ->) & [Hi Hr] & ->). exists d. by rewrite decide_False.
  - eapply Forall2_impl; [exact Hres|]. intros i d Hd. cbv beta in *. apply info_lookup. eauto.
  - assert (storage p2 = gs') as Hp2 by (by destruct b). rewrite Hp2 in Hst.
    exists ids, (transaction <$> res). eexists. split_and!; [done| |done| | |done].
    + apply pool_ok_emit. split; rewrite Hst; [done|].
      assert (info gs' = foldl (λ m i, delete i m) (info (storage p)) ids) as ->.
      { apply map_eq. intros i. rewrite lookup_foldl_delete. unfold info.
        rewrite !lookup_fmap, Hnodes. by case_decide. }
      eapply comp_ok_ext; [exact Hc'|]. intros i. rewrite lookup_foldl_delete.
      case_decide; [by intros []|]. naive_solver.
    + apply Forall2_fmap_r. eapply Forall2_impl; [exact Hres|]. intros i d Hd. cbv beta in *. eauto.
    + intros i. simpl. rewrite Hst. apply Hnodes.
Qed.
End pool_facts.
