(* ===== verification/TxPoolInsertFacts.v ===== *)
(** * Inserting into the pool

    [can_insert_transaction] always answers and what it accepts satisfies the
    conditions the rest of [insert] relies on; carrying out an accepted insertion
    keeps the components of the pool in agreement, and so do preconfirmations and
    committed blocks. *)

From stdpp Require Import prelude gmap list strings relations.
From Stdlib Require Import ZArith Lia.
From S2P Require Import Prelude.
From S2P Require Import TxTypes.
From S2P Require Import TxPoolSpent.
From S2P Require Import TxPoolExtracted.
From S2P Require Import TxPoolTypes.
From S2P Require Import TxPoolCollision.
From S2P Require Import TxPoolGraph.
From S2P Require Import TxPoolGraphFacts.
From S2P Require Import TxPoolGraphSpec.
From S2P Require Import TxPoolSelection.
From S2P Require Import TxPoolSelectionFacts.
From S2P Require Import TxPoolPool.
From S2P Require Import TxPoolPoolFacts.
Local Open Scope Z_scope.

Section insert_facts.
Context {G Idx C : Type} `{Countable Idx} `{!StableDiGraph G Idx} `{!StableDiGraphSpec G Idx}.
Context `{!HashOrder Idx} `{!LruCache C}.
Implicit Types (p : Pool G Idx C) (gs : GraphStorage G Idx) (ct : CheckedTransaction Idx).

Lemma hs_iter_elem (Y : gset Idx) i : i ∈ hs_iter Y ↔ i ∈ Y.
Proof. by rewrite hs_iter_perm, elem_of_elements. Qed.

(** A collision is outbid when the new transaction pays more per gas than the
    colliding transaction with everything that depends on it. *)
Definition outbids (tx : PoolTransaction) (d : StorageData) : Prop :=
  tip tx * dependents_cumulative_gas d > dependents_cumulative_tip d * max_gas tx.

Lemma collision_requirements_ok cols tx has_deps gs i d :
  check_collision_requirements cols tx has_deps gs = Ok () →
  i ∈ dom cols → nodes gs !! i = Some d → outbids tx d.
Proof.
  unfold check_collision_requirements. destruct (_ && _); [done|]. intros Hf Hi Hd.
  apply hs_iter_elem in Hi. revert Hf Hi. induction (hs_iter (dom cols)) as [|j l IH]; [set_solver|].
  cbn [try_fold]. intros (u & Hj & Hl)%result_bind_ok [->|Hi]%elem_of_cons; [|by destruct u; apply IH].
  unfold is_better_than_collision, get in Hj. rewrite g_weight_spec in Hj.
  fold (nodes gs) in Hj. rewrite Hd in Hj. unfold ratio_gt in Hj.
  case_bool_decide; [done|]. by destruct (unwrap_or _ _).
Qed.

(** What [find_free_space] marks: executable transactions that do not pay more per
    gas than the new one, none of them a dependency of it. *)
Lemma find_free_space_ok p ct gas bytes txs sorted acc res :
  find_free_space_loop p ct gas bytes txs sorted acc = Ok res →
  ∀ i, i ∈ res → i ∈ acc ∨
    (i ∈ sorted ∧ i ∉ ct_all_dependencies ct ∧
     ∃ d, nodes (storage p) !! i = Some d ∧
       dependents_cumulative_tip d * max_gas (ct_tx ct) ≤
       tip (ct_tx ct) * dependents_cumulative_gas d).
Proof.
  revert gas bytes txs acc. induction sorted as [|x sorted IH]; intros gas bytes txs acc;
    cbn [find_free_space_loop]; (destruct (over_limits _ _ _ _); [|intros [= ->]; by left]); [done|].
  case_decide as Hx; [intros Hf i Hi; destruct (IH _ _ _ _ Hf i Hi); set_solver|].
  unfold get. rewrite g_weight_spec. fold (nodes (storage p)).
  destruct (nodes (storage p) !! x) as [d|] eqn:Hd;
    [|intros Hf i Hi; destruct (IH _ _ _ _ Hf i Hi); set_solver].
  unfold ratio_gt. case_bool_decide as Hr; [done|]. intros Hf i Hi.
  destruct (IH _ _ _ _ Hf i Hi) as [[Ha|Ha]%elem_of_app|(Hs & ?)]; [by left| |by right; set_solver].
  apply list_elem_of_singleton in Ha as ->. right. split_and!; [set_solver|done|].
  exists d. split; [done|lia].
Qed.

(** *** The conditions an accepted transaction satisfies *)

Record insertable p (tx : PoolTransaction) (ps : TxPoolPersistentStorage)
    (can : CanStoreTransaction (Idx:=Idx)) : Prop := {
  in_gas : max_gas tx ≠ 0;
  in_new : tx_id_to_storage_id p !! tx_id tx = None;
  in_tx : ct_tx (checked_transaction can) = tx;
  in_direct i : i ∈ ct_direct_dependencies (checked_transaction can) ↔
    ∃ input, input ∈ inputs tx ∧ creator_of (storage p) input i;
  in_tree : tree_above (storage p)
    (elements (ct_direct_dependencies (checked_transaction can)))
    (ct_all_dependencies (checked_transaction can));
  in_free : ct_direct_dependencies (checked_transaction can) = ∅ →
    ct_all_dependencies (checked_transaction can) = ∅;
  in_evict i : i ∈ transactions_to_evict can →
    i ∉ ct_all_dependencies (checked_transaction can);
  in_collisions i : i ∈ dom (collisions can) →
    i ∉ ct_all_dependencies (checked_transaction can);
  in_conflicts i : i ∈ dom (collisions can) ↔
    ∃ tx', (fst <$> info (storage p)) !! i = Some tx' ∧ conflicts tx tx';
  in_outbids i d : i ∈ dom (collisions can) → nodes (storage p) !! i = Some d → outbids tx d;
  in_valid : Forall (input_spendable ps (extracted_outputs p) (spent_inputs p) (storage p)
    (utxo_validation (config p))) (inputs tx);
  in_blacklist : check_blacklisting (black_list (config p)) tx = Ok ();
}.

Lemma can_insert_spec p tx ps :
  pool_ok p →
  ∃ r, can_insert_transaction p tx ps = Some r ∧ ∀ can, r = Ok can → insertable p tx ps can.
Proof.
  intros [Hg Hc]. unfold can_insert_transaction.
  case_decide as Hgas; [by eexists|]. case_decide as Hdup; [by eexists|].
  destruct (check_blacklisting _ _) as [[]|] eqn:Hbl; [|by eexists].
  destruct (check_blob_does_not_exist _ _); [|by eexists].
  destruct (validate_inputs_spec ps (extracted_outputs p) (spent_inputs p) (storage p) tx
    (utxo_validation (config p)) (ok_caches _ Hg)) as (v & -> & Hv). cbn [mbind option_bind].
  destruct v as [[]|]; [|by eexists].
  destruct (find_collisions (collision_manager p) tx) as [cols|] eqn:Hcols; [|by eexists].
  destruct (can_store_total (storage p) tx) as (r & -> & Hr). cbn [mbind option_bind].
  destruct r as [ct|]; [|by eexists].
  destruct Hr as (Htx & Hdir & Htree & _ & Hfree).
  case_decide as Hdis; [by eexists|].
  destruct (check_collision_requirements _ _ _ _) as [[]|] eqn:Hreq; [|by eexists].
  assert (∀ i, i ∈ dom cols → i ∉ ct_all_dependencies ct) as Hcd by set_solver.
  assert (∀ evict, (∀ i, i ∈ evict → i ∉ ct_all_dependencies ct) →
    insertable p tx ps {| checked_transaction := ct; transactions_to_evict := evict;
                       collisions := cols |}) as Hins.
  { intros evict Hev. split; simpl; try done.
    - destruct (tx_id_to_storage_id p !! tx_id tx); [|done]. destruct Hdup. eauto.
    - apply collect_direct_spec; [apply Hg|done].
    - intros i. apply (find_collisions_spec _ _ tx cols i (co_cm _ _ _ Hc) Hcols).
    - intros i d Hi Hd. rewrite <- Htx. by eapply collision_requirements_ok.
    - by apply Hv. }
  destruct (can_fit_into_pool p ct) as [[|space]|]; [|destruct (find_free_space p space ct)
    as [evict|] eqn:Hev|]; eexists; (split; [done|]); intros can [= <-]; apply Hins; [set_solver|].
  intros i Hi. destruct (find_free_space_ok _ _ _ _ _ _ _ _ Hev i Hi) as [|(_ & ? & _)]; set_solver.
Qed.

(** *** Making room *)

(** What storing needs, kept while other transactions are removed. *)
Record room p ct p' : Prop := {
  rm_shrunk : shrunk p p';
  rm_tree : tree_above (storage p') (elements (ct_direct_dependencies ct)) (ct_all_dependencies ct);
  rm_direct : ct_direct_dependencies ct ⊆ dom (nodes (storage p'));
}.

Lemma remove_subtrees_room p ct l acc p1 :
  (∀ i, i ∈ l → i ∉ ct_all_dependencies ct) → room p ct p1 →
  ∃ removed p', remove_subtrees l acc p1 = Some (removed, p') ∧ room p ct p' ∧ shrunk p1 p' ∧
    ∀ i, i ∈ l → i ∉ dom (nodes (storage p')).
Proof.
  revert acc p1. induction l as [|x l IH]; intros acc p1 Hl Hr; cbn [remove_subtrees].
  { exists acc, p1. split_and!; [done..|apply shrunk_refl, Hr|set_solver]. }
  destruct Hr as [Hs Ht Hd]. pose proof (sh_ok _ _ Hs) as Hok1.
  destruct (remove_subtree_ok p1 x Hok1)
    as (ids & removed & p2 & -> & Hok2 & Hrf & Hids & Hcf & _). cbn [mbind option_bind].
  assert (shrunk p1 p2) as Hs2 by (by eapply shrunk_removed).
  destruct (tree_above_removed (storage p1) (storage p2) x ids removed
    (ct_direct_dependencies ct) (ct_all_dependencies ct)) as [Ht2 Hd2];
    [apply Hok1|apply Hok2|done..|apply Hl; set_solver|].
  destruct (IH (acc ++ removed) p2) as (res & p' & -> & Hroom & Hs' & Hgone).
  - set_solver.
  - split; [by eapply shrunk_trans|done..].
  - exists res, p'. split_and!; [done..|by eapply shrunk_trans|].
    intros i [->|Hi]%elem_of_cons; [|by apply Hgone]. intros [d Hd']%elem_of_dom.
    assert (info (storage p2) !! x = Some (txinfo d)) as Hx2.
    { apply (sh_info _ _ Hs'). apply info_lookup. eauto. }
    rewrite (info_removed _ _ _ _ Hrf), lookup_foldl_delete in Hx2.
    destruct (decide (x ∈ ids)) as [|Hno]; [done|]. apply Hno, Hids. split; [|apply rtc_refl].
    apply info_lookup in Hx2 as (e & He & _). apply elem_of_dom. eauto.
Qed.

(** *** Storing *)

Definition total (k : resource) gs : Z := map_sum (λ t, own k t.1) (info gs).

(** No node accounts for more than the whole pool. *)
Lemma cum_le_total gs k i d : gs_ok gs → nodes gs !! i = Some d → cum k d ≤ total k gs.
Proof.
  intros Hok Hd. destruct (ok_rank _ Hok) as [f Hf].
  destruct (cumulative_below gs f i) as (S & [Hnd _] & Hsum); [done..|by apply elem_of_dom|].
  specialize (Hsum k). unfold cumN in Hsum. rewrite Hd in Hsum. simpl in Hsum. rewrite Hsum.
  unfold total. rewrite (lsum_ext _ (λ j, from_option (λ t, own k t.1) 0 (info gs !! j))).
  - apply lsum_le_map_sum; [|done]. intros j t (e & He & ->)%info_lookup.
    by destruct (ok_nonneg _ Hok k j e He).
  - intros j _. unfold ownN, info. rewrite lookup_fmap. by destruct (nodes gs !! j).
Qed.

Lemma creates_contract_created tx c : creates_contract tx c → c ∈ created_contracts (outputs tx).
Proof.
  intros Hc. apply Is_true_true, existsb_exists in Hc as ([i o] & Hin & Ho).
  apply list_elem_of_In, elem_of_lookup_imap_1 in Hin as (j & o' & [= -> ->] & Hl).
  unfold contract_slot in Ho. simpl in Ho. destruct o'; try done. case_bool_decide; [subst|done].
  apply list_elem_of_omap. eexists. split; [by eapply list_elem_of_lookup_2|done].
Qed.

Lemma no_conflict_new_to p tx :
  pool_ok p → tx_id_to_storage_id p !! tx_id tx = None →
  (∀ j tx', (fst <$> info (storage p)) !! j = Some tx' → ¬ conflicts tx tx') →
  new_to (storage p) tx.
Proof.
  intros [_ Hc] Hid Hno i d Hd.
  assert (info (storage p) !! i = Some (txinfo d)) as Hi by (apply info_lookup; eauto). split.
  - intros Heq. assert (tx_id_to_storage_id p !! tx_id tx = Some i) as Hs; [|by rewrite Hid in Hs].
    apply (co_ids _ _ _ Hc). by eexists.
  - intros c Hcr Hcr'. apply (Hno i (transaction d)); [by rewrite lookup_fmap, Hi|].
    right. right. left. exists c. by split; apply creates_contract_created.
Qed.

Lemma stored_info gs ct now n gs' :
  stored gs ct now n gs' → info gs' = <[n := (ct_tx ct, now)]> (info gs).
Proof.
  intros Hst. apply map_eq. intros i. unfold info. rewrite lookup_fmap, lookup_insert, lookup_fmap.
  rewrite (stored_txinfo _ _ _ _ _ _ Hst). by repeat case_decide.
Qed.

Lemma stored_ready gs ct now n gs' i :
  stored gs ct now n gs' → i ≠ n → ready gs' i ↔ ready gs i.
Proof.
  intros Hst Hi. unfold ready. rewrite !has_dependencies_false.
  setoid_rewrite (stored_dep _ _ _ _ _ Hst). naive_solver.
Qed.

Lemma stored_ready_new gs ct now n gs' :
  stored gs ct now n gs' → ready gs' n ↔ ct_direct_dependencies ct = ∅.
Proof.
  intros Hst. unfold ready. rewrite has_dependencies_false.
  setoid_rewrite (stored_dep _ _ _ _ _ Hst). split.
  - intros Hno. apply set_eq. intros i. split; [|set_solver]. intros Hi. exfalso. apply (Hno i). by right.
  - intros He q [Hq|[Hq _]]; [by apply (not_dep_new _ _ _ _ _ Hst) in Hq|]. set_solver.
Qed.

Section store_checked.
Context p ct (now : Z) (n : Idx) (gs' : GraphStorage G Idx).
Context (Hok : pool_ok p) (Hst : stored (storage p) ct now n gs').
Context (Hid : tx_id_to_storage_id p !! tx_id (ct_tx ct) = None).
Context (Hno : ∀ j tx', (fst <$> info (storage p)) !! j = Some tx' → ¬ conflicts (ct_tx ct) tx').
Context (Hgas : 0 < max_gas (ct_tx ct)) (Hsize : 0 ≤ metered_bytes_size (ct_tx ct)).
Context (Hfit : ∀ k, total k (storage p) + own k (ct_tx ct) ≤ U64).

Lemma stored_fresh : info (storage p) !! n = None.
Proof.
  unfold info. rewrite lookup_fmap. pose proof (st_fresh _ _ _ _ _ Hst) as Hn.
  apply not_elem_of_dom in Hn. by rewrite Hn.
Qed.

(** Every component but the selection, with the new transaction. *)
Lemma stored_components p' :
  let t := (ct_tx ct, now) in
  collision_manager p' =
    on_stored_transaction n (new_node (ct_tx ct) now) (collision_manager p) →
  tx_id_to_storage_id p' = <[tx_id (ct_tx ct) := n]> (tx_id_to_storage_id p) →
  current_gas p' = sat_add U64 (current_gas p) (max_gas (ct_tx ct)) →
  current_bytes_size p' = sat_add U64 (current_bytes_size p) (metered_bytes_size (ct_tx ct)) →
  bt_sorted (entries_of p') →
  (∀ k i, (k, i) ∈ entries_of p' ↔ (k, i) ∈ entries_of p ∨ ready gs' n ∧ k = key_info t ∧ i = n) →
  comp_ok p' (info gs') (ready gs').
Proof.
  intros t E1 E2 E3 E4 Hs' He'. pose proof stored_fresh as Hn.
  destruct Hok as [Hg [Hcm Hids Hga Hby Hs He Hpos]]. rewrite (stored_info _ _ _ _ _ Hst).
  assert (∀ i u, info (storage p) !! i = Some u → i ≠ n) as Hne by congruence.
  split.
  - rewrite E1, fmap_insert. apply on_stored_ok; [done|by rewrite lookup_fmap, Hn|done].
  - intros id i. rewrite E2, lookup_insert_Some, Hids. setoid_rewrite lookup_insert_Some. split.
    + intros [[<- <-]|(Hne' & u & Hu & <-)]; [exists t; naive_solver|].
      exists u. split; [|done]. right. split; [|done]. intros <-. by eapply Hne.
    + intros (u & [[<- <-]|[Hni Hu]] & <-); [by left|]. right. split; [|by eauto].
      intros Heq. assert (tx_id_to_storage_id p !! tx_id (ct_tx ct) = Some i) as Hx; [|congruence].
      apply Hids. eauto.
  - rewrite E3, map_sum_insert by done. rewrite Hga. specialize (Hfit RGas). unfold total in Hfit.
    simpl in *. unfold sat_add. lia.
  - rewrite E4, map_sum_insert by done. rewrite Hby. specialize (Hfit RBytes). unfold total in Hfit.
    simpl in *. unfold sat_add. lia.
  - done.
  - intros k i. rewrite He', He. setoid_rewrite lookup_insert_Some. split.
    + intros [(u & Hu & Hr & ->)|(Hr & -> & ->)]; [|exists t; naive_solver].
      exists u. assert (i ≠ n) by (by eapply Hne). split_and!; [by right|by apply (stored_ready _ _ _ _ _ _ Hst)|done].
    + intros (u & [[<- <-]|[Hni Hu]] & Hr & ->); [by right|]. left. exists u.
      split_and!; [done| |done]. by apply (stored_ready _ _ _ _ _ _ Hst).
  - intros i u [[<- <-]|[_ Hu]]%lookup_insert_Some; [done|by eapply Hpos].
Qed.
End store_checked.

Lemma store_checked_ok p ct now :
  pool_ok p →
  tree_above (storage p) (elements (ct_direct_dependencies ct)) (ct_all_dependencies ct) →
  ct_direct_dependencies ct ⊆ dom (nodes (storage p)) →
  (ct_direct_dependencies ct = ∅ → ct_all_dependencies ct = ∅) →
  tx_id_to_storage_id p !! tx_id (ct_tx ct) = None →
  (∀ j tx', (fst <$> info (storage p)) !! j = Some tx' → ¬ conflicts (ct_tx ct) tx') →
  max_gas (ct_tx ct) ≠ 0 → (∀ k, 0 ≤ own k (ct_tx ct)) →
  (∀ k, total k (storage p) + own k (ct_tx ct) ≤ U64) →
  ∃ n p', store_checked ct now p = Some p' ∧ pool_ok p' ∧ config p' = config p ∧
    stored (storage p) ct now n (storage p').
Proof.
  intros Hok Htree Hdir Hfree Hid Hno Hgas Hown Hfit.
  destruct (store_transaction ct now (storage p)) as [n gs'] eqn:Hs.
  apply store_shape in Hs as Hst; [|done].
  destruct (new_to_caches _ _ (ok_caches _ (po_graph _ Hok)) (no_conflict_new_to _ _ Hok Hid Hno))
    as [Hcoins Hcontracts].
  assert (gs_ok gs') as Hgs'.
  { eapply stored_ok; eauto using po_graph. intros k a d _ Hd. specialize (Hfit k).
    pose proof (cum_le_total _ k _ _ (po_graph _ Hok) Hd). lia. }
  assert (get gs' n = Some (new_node (ct_tx ct) now)) as Hget.
  { unfold get. rewrite g_weight_spec. fold (nodes gs').
    by rewrite (stored_lookup _ _ _ _ _ Hst), decide_True. }
  assert (∀ p', storage p' = gs' → comp_ok p' (info gs') (ready gs') → pool_ok p') as Hfinish.
  { intros p' <- ?. by split. }
  assert (ready gs' n ↔ ct_all_dependencies ct = ∅) as Hready.
  { rewrite (stored_ready_new _ _ _ _ _ Hst). split; [done|]. intros He.
    apply tree_above_direct in Htree. set_solver. }
  assert (0 < max_gas (ct_tx ct)) as Hpos by (specialize (Hown RGas); simpl in Hown; lia).
  assert (∀ k i, (k, i) ∈ entries_of p → key_cmp (key (new_node (ct_tx ct) now)) k ≠ Eq) as Hfresh.
  { intros k i (u & Hu & _ & ->)%(co_entries _ _ _ (po_comp _ Hok)) Heq.
    pose proof (key_cmp_spec (key (new_node (ct_tx ct) now)) (key_info u)) as Hk. rewrite Heq in Hk.
    assert (tx_id_to_storage_id p !! tx_id (ct_tx ct) = Some i) as Hx; [|congruence].
    apply (co_ids _ _ _ (po_comp _ Hok)). exists u. split; [done|]. naive_solver. }
  unfold store_checked. rewrite Hs. rewrite Hget. cbn [mbind option_bind].
  destruct (decide (ct_all_dependencies ct = ∅)) as [He|He]; eexists n, _;
    (split; [done|]); (split; [|done]); apply Hfinish; [done| |done|];
    (eapply (stored_components p ct now n gs');
      [done..|apply (Hown RBytes)|done|done|done|done|done| |]).
  - apply bt_insert_sorted; [apply Hok|done|exact Hfresh].
  - intros k i. unfold entries_of at 1. simpl. rewrite bt_insert_elem by exact Hfresh.
    fold (entries_of p). split.
    + intros [[= -> ->]|?]; [right|by left]. split_and!; [by apply Hready|done|done].
    + intros [?|(_ & -> & ->)]; [by right|by left].
  - apply Hok.
  - intros k i. split; [by left|]. intros [?|(Hr & _)]; [done|]. by apply Hready in Hr.
Qed.

(** ** The whole insertion *)

(** The transaction is typed and the totals of the pool with it fit in 64 bits. *)
Definition fits p (tx : PoolTransaction) : Prop :=
  (∀ k, 0 ≤ own k tx) ∧ ∀ k, total k (storage p) + own k tx ≤ U64.

Lemma shrunk_total p p' k : pool_ok p → shrunk p p' → total k (storage p') ≤ total k (storage p).
Proof.
  intros Hok Hs. apply map_sum_mono; [|apply Hs]. intros i t (d & Hd & ->)%info_lookup.
  by destruct (ok_nonneg _ (po_graph _ Hok) k i d Hd).
Qed.

Lemma insertable_room p tx ps can :
  pool_ok p → insertable p tx ps can → room p (checked_transaction can) p.
Proof.
  intros Hok Hin. split; [by apply shrunk_refl|apply Hin|].
  intros i (input & _ & Hi)%(in_direct _ _ _ _ Hin). by eapply creator_of_dom.
Qed.

(** Once evicted and collided transactions are gone, nothing in the pool conflicts
    with the new transaction or has its id. *)
Lemma make_room_ok p tx ps can :
  pool_ok p → insertable p tx ps can →
  ∃ removed1 p1 removed p2,
    remove_subtrees (transactions_to_evict can) [] p = Some (removed1, p1) ∧
    remove_subtrees (hs_iter (dom (collisions can))) removed1 p1 = Some (removed, p2) ∧
    room p (checked_transaction can) p2 ∧
    (∀ j tx', (fst <$> info (storage p2)) !! j = Some tx' → ¬ conflicts tx tx') ∧
    tx_id_to_storage_id p2 !! tx_id tx = None.
Proof.
  intros Hok Hin.
  destruct (remove_subtrees_room p (checked_transaction can) (transactions_to_evict can) [] p)
    as (removed1 & p1 & Hr1 & Hroom1 & _ & _); [apply Hin|by eapply insertable_room|].
  destruct (remove_subtrees_room p (checked_transaction can) (hs_iter (dom (collisions can)))
    removed1 p1) as (removed & p2 & Hr2 & Hroom & _ & Hgone); [|done|].
  { intros i Hi%hs_iter_elem. by apply (in_collisions _ _ _ _ Hin). }
  exists removed1, p1, removed, p2. split_and!; [done..| |].
  - intros j tx'. rewrite lookup_fmap, fmap_Some. intros (t & Hj & ->) Hcf.
    assert (j ∈ dom (collisions can)) as Hjc.
    { apply (in_conflicts _ _ _ _ Hin). exists t.1. split; [|done].
      by rewrite lookup_fmap, (sh_info _ _ (rm_shrunk _ _ _ Hroom) _ _ Hj). }
    apply (Hgone j); [by apply hs_iter_elem|].
    apply info_lookup in Hj as (d & Hd & _). apply elem_of_dom. eauto.
  - pose proof (rm_shrunk _ _ _ Hroom) as Hs2.
    destruct (tx_id_to_storage_id p2 !! tx_id tx) as [i|] eqn:Hi; [|done].
    apply (co_ids _ _ _ (po_comp _ (sh_ok _ _ Hs2))) in Hi as (t & Ht & Heq).
    apply (sh_info _ _ Hs2) in Ht. pose proof (in_new _ _ _ _ Hin) as Hnew.
    assert (tx_id_to_storage_id p !! tx_id tx = Some i) as Hx; [|congruence].
    apply (co_ids _ _ _ (po_comp _ Hok)). eauto.
Qed.

(** After a successful insertion: the new transaction, and of the old ones those
    that neither conflict with it nor had to make room. *)
Record inserted p (tx : PoolTransaction) (now : Z) p' : Prop := {
  ins_ok : pool_ok p';
  ins_config : config p' = config p;
  ins_present : ∃ n, info (storage p') !! n = Some (tx, now);
  ins_others i t : info (storage p') !! i = Some t →
    t = (tx, now) ∨ info (storage p) !! i = Some t ∧ ¬ conflicts tx t.1;
}.

Lemma insert_inner_ok tx ps now p :
  pool_ok p → fits p tx →
  ∃ p' r, insert_inner tx ps now p = Some (p', r) ∧
    match r with
    | Ok _ => inserted p tx now p' ∧ ∃ can, can_insert_transaction p tx ps = Some (Ok can)
    | Err e => p' = p ∧ can_insert_transaction p tx ps = Some (Err e)
    end.
Proof.
  intros Hok [Hown Hfit]. unfold insert_inner.
  destruct (can_insert_spec p tx ps Hok) as (r & -> & Hr). cbn [mbind option_bind].
  destruct r as [can|e]; [|by exists p, (Err e)]. specialize (Hr can eq_refl).
  destruct (make_room_ok p tx ps can Hok Hr)
    as (removed1 & p1 & removed & p2 & -> & Hr2 & [Hs2 Ht2 Hd2] & Hno & Hid).
  cbn [mbind option_bind]. rewrite Hr2. cbn [mbind option_bind].
  pose proof (in_tx _ _ _ _ Hr) as Htx.
  destruct (store_checked_ok p2 (checked_transaction can) now (sh_ok _ _ Hs2) Ht2 Hd2
    (in_free _ _ _ _ Hr)) as (n & p3 & -> & Hok3 & Hcf & Hst); rewrite ?Htx; try done.
  { apply (in_gas _ _ _ _ Hr). }
  { intros k. specialize (Hfit k). pose proof (shrunk_total p p2 k Hok Hs2). lia. }
  cbn [mbind option_bind]. eexists _, (Ok ()). split; [done|]. split; [|by exists can].
  pose proof (stored_info _ _ _ _ _ Hst) as Hinfo. rewrite Htx in Hinfo.
  assert (∀ l r, storage (update_stats (squeeze_out l r p3)) = storage p3) as Hsame
    by (by intros [] r).
  split; rewrite ?Hsame, ?Hinfo.
  - apply pool_ok_emit. by apply pool_ok_squeeze.
  - transitivity (config p3); [by destruct removed|]. rewrite Hcf. apply Hs2.
  - exists n. apply lookup_insert_eq.
  - intros i t [[<- <-]|[_ Hi]]%lookup_insert_Some; [by left|]. right.
    split; [by apply (sh_info _ _ Hs2)|]. apply (Hno i). by rewrite lookup_fmap, Hi.
Qed.

Lemma insert_ok tx ps now p :
  pool_ok p → fits p tx →
  ∃ p' r, insert tx ps now p = Some (p', r) ∧
    match r with Ok _ => inserted p tx now p' | Err _ => p' = p end.
Proof.
  intros Hok Hfit. unfold insert.
  destruct (is_spent_tx _ _); [by eexists _, (Err _)|].
  destruct (ps_contains_tx ps (tx_id tx)) as [[]|e]; [by eexists _, (Err _)| |by eexists _, (Err _)].
  destruct (insert_inner_ok tx ps now p Hok Hfit) as (p' & r & -> & Hr).
  exists p', r. split; [done|]. destruct r; naive_solver.
Qed.
End insert_facts.

(** * Blocks and preconfirmations in the pool

    Committed transactions leave the pool and what depended on them becomes
    executable; the components of the pool stay in agreement. *)

Section commit_facts.
Context {G Idx C : Type} `{Countable Idx} `{!StableDiGraph G Idx} `{!StableDiGraphSpec G Idx}.
Context `{!HashOrder Idx} `{!LruCache C}.
Implicit Types (p : Pool G Idx C) (gs : GraphStorage G Idx) (pend : list Idx).

(** A pool whose graph is exact for the transactions [K] and whose sorted entries
    lack the executable transactions [pend]. *)
Record lacking (K : StorageData → Prop) p pend : Prop := {
  lk_graph : gs_ok_on K (storage p);
  lk_comp : comp_ok p (info (storage p)) (λ i, ready (storage p) i ∧ i ∉ pend);
  lk_nodup : NoDup pend;
  lk_pend i : i ∈ pend → is_Some (nodes (storage p) !! i) → ready (storage p) i;
}.

Lemma pool_ok_lacking K p : pool_ok p → lacking K p [].
Proof.
  intros [Hg Hc]. split; [by apply gs_ok_on_weaken| |constructor|set_solver].
  eapply comp_ok_ext; [done|]. intros i _. split; [|naive_solver].
  intros ?. split; [done|apply not_elem_of_nil].
Qed.

Lemma lacking_pool_ok K p :
  lacking K p [] → (∀ i d, nodes (storage p) !! i = Some d → K d) → pool_ok p.
Proof.
  intros [Hg Hc _ _] HK. split; [by eapply gs_ok_on_full|]. eapply comp_ok_ext; [done|]. intros i _.
  split; [naive_solver|]. intros ?. split; [done|apply not_elem_of_nil].
Qed.

(** Deleting the id before [on_removal] deletes it makes no difference. *)
Lemma on_removal_deleted p d m :
  on_removal (set_tx_ids (delete (tx_id (transaction d)) m) p) d = on_removal (set_tx_ids m p) d.
Proof. unfold on_removal. simpl. by rewrite delete_delete_eq. Qed.

Lemma removed_one_ready gs gs' x i :
  nodes gs' = delete x (nodes gs) → (∀ a b, dep gs' a b ↔ dep gs a b ∧ a ≠ x ∧ b ≠ x) →
  i ≠ x → is_Some (nodes gs !! i) →
  ready gs' i ↔ ready gs i ∨ dep gs x i ∧ ready gs' i.
Proof.
  intros Hn Hd Hi [d Hnode]. pose proof (executable_after gs gs' x i d Hn Hd) as He.
  unfold executable, ready in *. rewrite Hn, lookup_delete_ne in He by done. naive_solver.
Qed.

(** One transaction leaves the pool. *)
Lemma leave_ok K p pend x d q :
  lacking K p pend → nodes (storage p) !! x = Some d →
  (∀ a da, dep (storage p) a x → nodes (storage p) !! a = Some da → ¬ K da) →
  ∃ gs', remove_transaction x (storage p) = (Some d, gs') ∧
    nodes gs' = delete x (nodes (storage p)) ∧
    (∀ a b, dep gs' a b ↔ dep (storage p) a b ∧ a ≠ x ∧ b ≠ x) ∧
    (storage q = gs' → collision_manager q = collision_manager p →
     tx_id_to_storage_id q = tx_id_to_storage_id p → current_gas q = current_gas p →
     current_bytes_size q = current_bytes_size p → selection_algorithm q = selection_algorithm p →
     lacking K (on_removal q d) (pend ++
       filter (λ i, has_dependencies gs' i = false) (get_direct_dependents (storage p) x))).
Proof.
  intros [Hg Hc Hnd Hp] Hx Hr.
  destruct (remove_transaction_on K _ x d Hg Hx Hr) as (gs' & Hrm & Hg' & Hn & Hdep).
  exists gs'. split_and!; [done..|]. intros Es E1 E2 E3 E4 E5.
  assert (∀ i, i ∈ filter (λ i, has_dependencies gs' i = false)
      (get_direct_dependents (storage p) x) ↔ dep (storage p) x i ∧ ready gs' i) as Hnew.
  { intros i. rewrite list_elem_of_filter. unfold get_direct_dependents.
    rewrite g_outgoing_spec, elem_of_outs. unfold ready, dep, edges. naive_solver. }
  assert (info gs' = delete x (info (storage p))) as Hinfo.
  { unfold info. by rewrite Hn, fmap_delete. }
  assert (∀ i, dep (storage p) x i → ¬ ready (storage p) i) as Hdr.
  { unfold ready. intros i Hi Hri. rewrite has_dependencies_false in Hri. by apply (Hri x). }
  split; cbn [storage on_removal]; rewrite ?Es; [done| | |].
  - rewrite Hinfo. eapply comp_ok_ext.
    + apply on_removal_ok; [|apply info_lookup; eauto]. by eapply comp_ok_frame, Hc.
    + intros i [t [Hix (e & Hi & _)%info_lookup]%lookup_delete_Some]. simpl.
      rewrite (removed_one_ready (storage p) gs' x i), not_elem_of_app, Hnew by eauto.
      split; [intros [Hri Hni]; split_and!; [by left|done|]; intros [Hxi _]; by eapply Hdr|].
      intros ([Hri|[Hxi Hri]] & Hni & Hno); [done|]. by destruct Hno.
  - apply NoDup_app. split_and!; [done| |].
    + intros i Hi [Hxi Hri]%Hnew. apply (Hdr i Hxi), Hp; [done|].
      apply edge_dom in Hxi as [_ ?]. by apply elem_of_dom.
    + apply NoDup_filter. unfold get_direct_dependents. rewrite g_outgoing_spec. apply NoDup_outs, (oko_nodup _ _ Hg).
  - intros i. rewrite elem_of_app, Hnew. intros [Hi|[_ ?]]; [|done].
    rewrite Hn, lookup_delete_is_Some. intros [Hix Hs].
    apply (removed_one_ready (storage p) gs' x i Hn Hdep); [done..|]. left. by apply Hp.
Qed.

(** Promoting [pend]. *)
Lemma promote_stored_lacking K p pend :
  lacking K p pend → lacking K (promote_stored p pend).1 [].
Proof.
  unfold promote_stored. generalize false. revert p.
  induction pend as [|i pend IH]; intros p b Hl; cbn [foldl]; [done|].
  destruct Hl as [Hg Hc [Hi Hnd]%NoDup_cons Hp].
  assert (get (storage p) i = nodes (storage p) !! i) as -> by apply g_weight_spec.
  destruct (nodes (storage p) !! i) as [d|] eqn:Hd.
  - assert (info (storage p) !! i = Some (txinfo d)) as Hinfo by (apply info_lookup; eauto).
    assert (∀ k j, (k, j) ∈ entries_of p → key_cmp (key d) k ≠ Eq) as Hfresh.
    { intros k j (u & Hu & [_ Hj] & ->)%(co_entries _ _ _ Hc) Heq. apply Hj.
      rewrite (key_info_eq p _ _ i j _ _ Hc Hinfo Hu Heq). apply list_elem_of_here. }
    apply IH. split; [done| |done|intros j Hj; apply Hp; set_solver]. simpl.
    destruct Hc as [Hcm Hids Hga Hby Hso He Hpos]. split; [done..| | |done].
    + apply bt_insert_sorted; [done|by apply (Hpos i (txinfo d))|done].
    + intros k j. unfold entries_of. simpl. rewrite bt_insert_elem by exact Hfresh.
      fold (entries_of p). rewrite He. split.
      * intros [[= -> ->]|(u & Hu & [Hr Hj] & ->)]; [|by exists u; set_solver].
        exists (txinfo d). split_and!; [done| |done|done]. apply Hp; [set_solver|eauto].
      * intros (u & Hu & [Hr Hj] & ->). destruct (decide (j = i)) as [->|Hji]; [left; by simplify_eq|].
        right. exists u. set_solver.
  - apply IH. split; [done| |done|intros j Hj; apply Hp; set_solver].
    eapply comp_ok_ext; [exact Hc|]. intros j [t (e & He & _)%info_lookup]. simpl.
    assert (j ≠ i) by congruence. set_solver.
Qed.

Lemma promote_stored_keeps l p :
  storage (promote_stored p l).1 = storage p ∧ config (promote_stored p l).1 = config p.
Proof.
  unfold promote_stored. generalize false. revert p.
  induction l as [|i l IH]; intros p b; cbn [foldl]; [done|].
  destruct (get (storage p) i) as [d|]; [|apply IH].
  destruct (IH (set_selection (new_executable_transaction i d (selection_algorithm p)) p) true)
    as [-> ->]. done.
Qed.

Lemma promote_stored_ok K p pend :
  lacking K p pend → (∀ i d, nodes (storage p) !! i = Some d → K d) →
  pool_ok (promote_stored p pend).1.
Proof.
  intros Hl HK. eapply lacking_pool_ok; [by apply promote_stored_lacking|].
  by rewrite (proj1 (promote_stored_keeps pend p)).
Qed.

Lemma promote_ready_stored p l :
  promote_ready p l =
  promote_stored p (filter (λ i, has_dependencies (storage p) i = false) l).
Proof.
  unfold promote_ready, promote_stored. generalize false at 1 2.
  revert p. induction l as [|i l IH]; intros p b; [done|]. cbn [foldl]. rewrite filter_cons.
  destruct (has_dependencies (storage p) i) eqn:Hi; [rewrite decide_False by done; apply IH|].
  rewrite decide_True by done. cbn [foldl].
  destruct (get (storage p) i); [|apply IH]. by rewrite IH.
Qed.

Lemma lacking_outputs K p pend eo si :
  lacking K p pend → lacking K (set_outputs_inputs eo si p) pend.
Proof. intros [Hg Hc Hn Hp]. split; try done. by eapply comp_ok_frame, Hc. Qed.

Lemma pool_ok_notify b p : pool_ok p → pool_ok (notify_if b p).
Proof. destruct b; [apply pool_ok_emit|done]. Qed.

(** The id is known exactly when a stored transaction has it. *)
Lemma lacking_lookup K p pend id x :
  lacking K p pend → tx_id_to_storage_id p !! id = Some x →
  ∃ d, nodes (storage p) !! x = Some d ∧ tx_id (transaction d) = id.
Proof. intros Hl (t & (d & Hd & ->)%info_lookup & Ht)%(co_ids _ _ _ (lk_comp _ _ _ Hl)). eauto. Qed.

(** *** Preconfirmations *)

Lemma preconfirmed_ok id p :
  pool_ok p →
  (∀ x, tx_id_to_storage_id p !! id = Some x → ready (storage p) x) →
  pool_ok (process_preconfirmed_committed_transaction id p) ∧
  config (process_preconfirmed_committed_transaction id p) = config p.
Proof.
  intros Hok Hready. unfold process_preconfirmed_committed_transaction.
  set (p0 := set_outputs_inputs _ _ p).
  assert (pool_ok p0) as Hok0 by (by apply pool_ok_outputs).
  change (tx_id_to_storage_id p0) with (tx_id_to_storage_id p).
  destruct (tx_id_to_storage_id p !! id) as [x|] eqn:Hx; [|split; [by apply pool_ok_emit|done]].
  specialize (Hready x eq_refl). pose proof (pool_ok_lacking (λ _, True) _ Hok0) as Hl.
  destruct (lacking_lookup _ p0 [] id x Hl Hx) as (d & Hd & Hid).
  set (eo := new_extracted_transaction (transaction d) (extracted_outputs p0)).
  set (si := spend_inputs id (inputs (transaction d))
    (record_tentative_spend id (inputs (transaction d)) (spent_inputs p0))).
  destruct (leave_ok _ p0 [] x d (set_outputs_inputs eo si
    (set_storage (remove_transaction x (storage p0)).2 p0)) Hl Hd)
    as (gs' & Hrm & _ & _ & Hleave).
  { intros a da Ha. unfold ready in Hready. rewrite has_dependencies_false in Hready.
    by destruct (Hready a). }
  cbn [storage set_tx_ids] in *. rewrite Hrm in *. cbv iota beta zeta. simpl in Hleave.
  specialize (Hleave eq_refl eq_refl eq_refl eq_refl eq_refl eq_refl).
  assert (on_removal (set_outputs_inputs eo si (set_storage gs'
      (set_tx_ids (delete id (tx_id_to_storage_id p)) p0))) d =
    on_removal (set_outputs_inputs eo si (set_storage gs' p0)) d) as Heq.
  { rewrite <- Hid. apply (on_removal_deleted (set_outputs_inputs eo si (set_storage gs' p0)) d). }
  unfold eo, si in *. cbn [extracted_outputs spent_inputs set_tx_ids] in *. rewrite Heq.
  rewrite promote_ready_stored.
  pose proof (promote_stored_ok _ _ _ Hleave (λ _ _ _, I)) as Hok'.
  match type of Hleave with lacking _ ?q ?l =>
    destruct (promote_stored_keeps l q) as [_ Hcf] end. simpl in Hcf.
  destruct (promote_stored _ _) as [p2 found]. simpl in *.
  split; [by apply pool_ok_emit, pool_ok_notify|]. by destruct found.
Qed.

(** *** Committed blocks *)

(** A block that commits a pooled transaction commits what it depends on. *)
Definition commit_closed gs (ids : list TxId) : Prop :=
  ∀ i d q e, nodes gs !! i = Some d → tx_id (transaction d) ∈ ids →
    dep gs q i → nodes gs !! q = Some e → tx_id (transaction e) ∈ ids.

Definition stays (ids : list TxId) (d : StorageData) : Prop := tx_id (transaction d) ∉ ids.

(** [i] is not in [l] and waits in the pool, for nothing but transactions of [l]. *)
Definition waits_for gs (l : list TxId) (i : Idx) (d : StorageData) : Prop :=
  nodes gs !! i = Some d ∧ tx_id (transaction d) ∉ l ∧ (∃ q, dep gs q i) ∧
  ∀ q e, dep gs q i → nodes gs !! q = Some e → tx_id (transaction e) ∈ l.

(** The transactions [processed] have left and the sums of those in [K] are right.
    To be promoted is what waited for a first part of [processed]. *)
Record committing K gs0 cfg (processed : list TxId) (acc : Pool G Idx C * list Idx) : Prop := {
  cg_lacking : lacking K acc.1 acc.2;
  cg_nodes i d : nodes (storage acc.1) !! i = Some d →
    nodes gs0 !! i = Some d ∧ tx_id (transaction d) ∉ processed;
  cg_kept i d : nodes gs0 !! i = Some d → tx_id (transaction d) ∉ processed →
    nodes (storage acc.1) !! i = Some d;
  cg_dep a b : dep (storage acc.1) a b ↔
    dep gs0 a b ∧ is_Some (nodes (storage acc.1) !! a) ∧ is_Some (nodes (storage acc.1) !! b);
  cg_pend i : i ∈ acc.2 ↔ ∃ l1 l2 d, processed = l1 ++ l2 ∧ waits_for gs0 l1 i d;
  cg_config : config acc.1 = cfg;
}.

(** No transaction in [K] has a dependent among [ids]. *)
Definition spares (K : StorageData → Prop) gs (ids : list TxId) : Prop :=
  ∀ i d q e, nodes gs !! i = Some d → tx_id (transaction d) ∈ ids →
    dep gs q i → nodes gs !! q = Some e → ¬ K e.

(** [commit_one] on a transaction the pool does not have. *)
Lemma commit_one_none p pend id :
  tx_id_to_storage_id p !! id = None →
  commit_one (p, pend) id =
    (set_outputs_inputs (extracted_outputs p) (spend_inputs_by_tx_id id (spent_inputs p)) p, pend).
Proof. intros Hx. unfold commit_one. simpl. by rewrite Hx. Qed.

(** [commit_one] on a stored transaction. *)
Lemma commit_one_eq p pend id x d gs' :
  tx_id_to_storage_id p !! id = Some x → remove_transaction x (storage p) = (Some d, gs') →
  tx_id (transaction d) = id →
  commit_one (p, pend) id =
    (on_removal (set_outputs_inputs
       (new_extracted_transaction (transaction d) (extracted_outputs p))
       (spend_inputs id (inputs (transaction d)) (spend_inputs_by_tx_id id (spent_inputs p)))
       (set_storage gs' p)) d,
     pend ++ filter (λ i, has_dependencies gs' i = false) (get_direct_dependents (storage p) x)).
Proof.
  intros Hx Hrm Hid. unfold commit_one. simpl. rewrite Hx, Hrm. f_equal.
  rewrite <- Hid. apply (on_removal_deleted (set_outputs_inputs
    (new_extracted_transaction (transaction d) (extracted_outputs p)) _ (set_storage gs' p)) d).
Qed.

Lemma has_dependencies_some gs i : has_dependencies gs i = true → ∃ a, dep gs a i.
Proof.
  unfold has_dependencies, get_direct_dependencies, dep. setoid_rewrite <- elem_of_ins.
  pose proof (g_incoming_spec (graph gs) i) as Hp.
  destruct (g_incoming (graph gs) i) as [|q l]; [done|]. exists q. unfold edges. rewrite <- Hp.
  apply list_elem_of_here.
Qed.

(** A block goes on with [id]: what waited for the part before, or for all of it. *)
Lemma waits_snoc gs0 processed id i :
  (∃ l1 l2 d, processed ++ [id] = l1 ++ l2 ∧ waits_for gs0 l1 i d) ↔
  (∃ l1 l2 d, processed = l1 ++ l2 ∧ waits_for gs0 l1 i d) ∨
  ∃ d, waits_for gs0 (processed ++ [id]) i d.
Proof.
  split.
  - intros (l1 & l2 & d & Heq & Hw). destruct l2 as [|id' l2 _] using rev_ind.
    + right. rewrite app_nil_r in Heq. rewrite Heq. eauto.
    + left. rewrite app_assoc in Heq. apply app_inj_2 in Heq as [Heq _]; [|done]. eauto 6.
  - intros [(l1 & l2 & d & -> & Hw)|[d Hw]].
    + exists l1, (l2 ++ [id]), d. by rewrite app_assoc.
    + exists (processed ++ [id]), [], d. by rewrite app_nil_r.
Qed.

(** [waits_for] one more transaction, which the pool does not have. *)
Lemma waits_absent gs0 processed id i d :
  (∀ j e, nodes gs0 !! j = Some e → tx_id (transaction e) = id → id ∈ processed) →
  waits_for gs0 (processed ++ [id]) i d ↔ waits_for gs0 processed i d.
Proof.
  intros Habs. assert (∀ j e, nodes gs0 !! j = Some e →
    tx_id (transaction e) ∈ processed ++ [id] ↔ tx_id (transaction e) ∈ processed) as Hin.
  { intros j e Hj. rewrite elem_of_app, list_elem_of_singleton. split; [|by left].
    intros [?|Heq]; [done|]. rewrite Heq. by eapply Habs. }
  unfold waits_for. split; intros (Hi & Hni & Hex & Hall).
  - split_and!; [done|by rewrite <- Hin|done|]. intros q e Hq He. rewrite <- (Hin q) by done. eauto.
  - split_and!; [done|by rewrite Hin|done|]. intros q e Hq He. rewrite (Hin q) by done. eauto.
Qed.

Section commit_step.
Context (K : StorageData → Prop) (gs0 : GraphStorage G Idx) (cfg : PoolConfig) (processed : list TxId).
Context (p : Pool G Idx C) (pend : list Idx) (id : TxId).
Hypothesis (Hacc : committing K gs0 cfg processed (p, pend)).

Lemma committing_node i d :
  nodes (storage p) !! i = Some d ↔ nodes gs0 !! i = Some d ∧ tx_id (transaction d) ∉ processed.
Proof using Hacc. destruct Hacc as [_ Hn Hk _ _ _]. split; [apply Hn|]. intros [? ?]. by apply Hk. Qed.

Lemma committing_absent :
  tx_id_to_storage_id p !! id = None →
  ∀ j e, nodes gs0 !! j = Some e → tx_id (transaction e) = id → id ∈ processed.
Proof using Hacc.
  intros Hx j e Hj He. destruct (decide (id ∈ processed)) as [|Hni]; [done|].
  assert (nodes (storage p) !! j = Some e) as Hp by (apply committing_node; by rewrite He).
  assert (tx_id_to_storage_id p !! id = Some j) as Hc; [|congruence].
  apply (co_ids _ _ _ (lk_comp _ _ _ (cg_lacking _ _ _ _ _ Hacc))).
  exists (txinfo e). split; [apply info_lookup; eauto|done].
Qed.

Lemma committing_other x d j e :
  nodes (storage p) !! x = Some d → tx_id (transaction d) = id →
  nodes gs0 !! j = Some e → tx_id (transaction e) ∉ processed →
  j ≠ x ↔ tx_id (transaction e) ≠ id.
Proof using Hacc.
  intros Hx Hid Hj Hne. assert (nodes (storage p) !! j = Some e) as Hp by by apply committing_node.
  split; intros Hjx Heq; apply Hjx; [|congruence].
  apply (co_unique _ _ _ j x (txinfo e) (txinfo d) (lk_comp _ _ _ (cg_lacking _ _ _ _ _ Hacc))).
  1,2: apply info_lookup; eauto. simpl. congruence.
Qed.

Lemma committing_irrefl x : ¬ dep (storage p) x x.
Proof using Hacc.
  destruct (lk_graph _ _ _ (cg_lacking _ _ _ _ _ Hacc)) as [[f Hf] _ _ _ _ _].
  intros Hx%elem_of_outs. by eapply ranking_irrefl.
Qed.

(** What starts to wait for nothing when [x] leaves. *)
Lemma committing_freed gs' x d i :
  nodes (storage p) !! x = Some d → tx_id (transaction d) = id →
  nodes gs' = delete x (nodes (storage p)) →
  (∀ a b, dep gs' a b ↔ dep (storage p) a b ∧ a ≠ x ∧ b ≠ x) →
  (i ∈ pend ∨ i ∈ filter (λ i, has_dependencies gs' i = false) (get_direct_dependents (storage p) x)) ↔
  (i ∈ pend ∨ ∃ e, waits_for gs0 (processed ++ [id]) i e).
Proof using Hacc.
  intros Hx Hid Hnodes Hdep. destruct Hacc as [Hl Hn Hk Hd Hpe _]. cbn [fst snd] in *.
  rewrite list_elem_of_filter. unfold get_direct_dependents.
  rewrite g_outgoing_spec, elem_of_outs, has_dependencies_false.
  split; (intros [Hi|Hw]; [by left|]).
  - destruct Hw as [Hr Hxi]. right. apply Hd in Hxi as Hxi0. destruct Hxi0 as (Hxi0 & _ & [e Hi]).
    assert (i ≠ x) as Hix by (intros ->; by eapply committing_irrefl).
    destruct (Hn _ _ Hi) as [Hi0 Hni]. exists e. unfold waits_for. split_and!; [done| |eauto|].
    + rewrite not_elem_of_app, list_elem_of_singleton. split; [done|].
      by apply (committing_other x d i e).
    + intros q f Hq Hf. rewrite elem_of_app, list_elem_of_singleton.
      destruct (decide (tx_id (transaction f) ∈ processed)) as [|Hnf]; [by left|]. right.
      destruct (decide (tx_id (transaction f) = id)) as [|Hne]; [done|]. exfalso. apply (Hr q).
      apply Hdep. split_and!; [apply Hd; split_and!; [done|eauto..]|by eapply committing_other|done].
  - destruct Hw as [e (Hi & Hni & [q0 Hq0] & Hall)].
    rewrite not_elem_of_app, list_elem_of_singleton in Hni. destruct Hni as [Hni Hne].
    assert (nodes (storage p) !! i = Some e) as Hip by by apply Hk.
    assert (∀ a, dep (storage p) a i → a = x) as Honly.
    { intros a (Ha & [f Hf] & _)%Hd. destruct (Hn _ _ Hf) as [Hf0 Hnf].
      specialize (Hall a f Ha Hf0). rewrite elem_of_app, list_elem_of_singleton in Hall.
      destruct Hall as [?|Heq]; [done|]. destruct (decide (a = x)) as [|Hax]; [done|].
      by apply (committing_other x d a f) in Hax. }
    destruct (has_dependencies (storage p) i) eqn:Hdi.
    + right. destruct (has_dependencies_some _ _ Hdi) as [a Ha]. rewrite (Honly a Ha) in Ha.
      split; [|done]. intros a' (Ha' & Hne' & _)%Hdep. by apply Hne', Honly.
    + left. apply Hpe. exists processed, [], e. rewrite app_nil_r. split; [done|].
      split_and!; [done..|eauto|]. intros q f Hq Hf.
      destruct (decide (tx_id (transaction f) ∈ processed)) as [|Hnf]; [done|].
      rewrite has_dependencies_false in Hdi. exfalso. apply (Hdi q), Hd. split_and!; eauto.
Qed.
End commit_step.

Lemma commit_one_ok K gs0 cfg ids processed acc id :
  spares K gs0 ids → id ∈ ids → committing K gs0 cfg processed acc →
  committing K gs0 cfg (processed ++ [id]) (commit_one acc id).
Proof.
  intros Hsp Hin. destruct acc as [p pend]. intros Hacc.
  pose proof Hacc as [Hl Hn Hk Hd Hpe Hcf]. cbn [fst snd] in *.
  destruct (tx_id_to_storage_id p !! id) as [x|] eqn:Hx; cycle 1.
  { rewrite commit_one_none by done. pose proof (committing_absent _ _ _ _ _ _ _ Hacc Hx) as Habs.
    split; cbn [fst snd storage set_outputs_inputs]; [by apply lacking_outputs| |set_solver|done| |done].
    - intros i d [Hi0 Hni]%Hn. split; [done|]. rewrite not_elem_of_app, list_elem_of_singleton.
      split; [done|]. intros Heq. apply Hni. rewrite Heq. by eapply Habs.
    - intros i. rewrite waits_snoc, Hpe. setoid_rewrite (waits_absent _ _ _ _ _ Habs).
      split; [by left|]. intros [?|[d ?]]; [done|]. exists processed, [], d. by rewrite app_nil_r. }
  destruct (lacking_lookup _ p pend id x Hl Hx) as (d & Hxd & Hid).
  assert (∀ a da, dep (storage p) a x → nodes (storage p) !! a = Some da → ¬ K da) as Habove.
  { intros a da Hax Ha. destruct (Hn _ _ Hxd) as [Hx0 _], (Hn _ _ Ha) as [Ha0 _].
    apply (Hsp x d a da); [done|by rewrite Hid|by apply Hd|done]. }
  destruct (leave_ok _ p pend x d (set_outputs_inputs
       (new_extracted_transaction (transaction d) (extracted_outputs p))
       (spend_inputs id (inputs (transaction d)) (spend_inputs_by_tx_id id (spent_inputs p)))
    (set_storage (remove_transaction x (storage p)).2 p)) Hl Hxd Habove)
    as (gs' & Hrm & Hnodes & Hdep & Hleave).
  rewrite (commit_one_eq _ _ _ _ _ _ Hx Hrm Hid). rewrite Hrm in Hleave. simpl in Hleave.
  specialize (Hleave eq_refl eq_refl eq_refl eq_refl eq_refl eq_refl).
  split; [exact Hleave|..]; simpl.
  - intros i e. rewrite Hnodes, lookup_delete_Some. intros [Hix [Hi0 Hni]%Hn].
    split; [done|]. rewrite not_elem_of_app, list_elem_of_singleton. split; [done|].
    by apply (committing_other K gs0 cfg processed p pend id Hacc x d i e).
  - intros i e Hi. rewrite not_elem_of_app, list_elem_of_singleton. intros [Hni Hne].
    rewrite Hnodes, lookup_delete_ne; [by apply Hk|]. apply not_eq_sym.
    by apply (committing_other K gs0 cfg processed p pend id Hacc x d i e).
  - intros a b. rewrite Hdep, Hd, Hnodes, !lookup_delete_is_Some. naive_solver.
  - intros i. rewrite waits_snoc, <- Hpe, elem_of_app. by eapply committing_freed.
  - done.
Qed.

Lemma committing_run K ids p :
  pool_ok p → spares K (storage p) ids →
  committing K (storage p) (config p) ids (foldl commit_one (p, []) ids).
Proof.
  intros Hok Hsp.
  assert (∀ rest processed acc, ids = processed ++ rest →
    committing K (storage p) (config p) processed acc →
    committing K (storage p) (config p) ids (foldl commit_one acc rest)) as Hfold.
  { induction rest as [|id rest IH]; intros processed acc Hids Hc.
    - rewrite app_nil_r in Hids. by rewrite <- Hids in Hc.
    - cbn [foldl]. apply (IH (processed ++ [id])); [by rewrite <- app_assoc|].
      apply (commit_one_ok _ _ _ ids); [done| |done]. rewrite Hids. set_solver. }
  apply (Hfold ids [] (p, []) eq_refl). split; simpl; [by apply pool_ok_lacking| |done| | |done].
  - intros i d Hi. split; [done|apply not_elem_of_nil].
  - intros a b. split; [|by intros [? _]]. intros Hab. split; [done|].
    apply edge_dom in Hab as [? ?]. by rewrite <- !elem_of_dom.
  - intros i. split; [by intros ?%not_elem_of_nil|]. intros (l1 & l2 & d & Heq & Hi & _ & [q Hq] & Hall).
    symmetry in Heq. apply app_nil in Heq as [-> _].
    destruct (edge_dom _ _ _ Hq) as [[e He]%elem_of_dom _].
    by destruct (not_elem_of_nil _ (Hall q e Hq He)).
Qed.

(** Nothing sums up over what is not in the pool: no condition on the block. *)
Lemma spares_none gs ids : spares (λ _, False) gs ids.
Proof. intros i d q e _ _ _ _ []. Qed.

Lemma spares_closed gs ids : commit_closed gs ids → spares (stays ids) gs ids.
Proof. intros Hcl i d q e Hi Hd Hq He Hst. by apply Hst, (Hcl i d q e). Qed.

Lemma committed_storage ids p :
  storage (process_committed_transactions ids p) = storage (foldl commit_one (p, []) ids).1 ∧
  config (process_committed_transactions ids p) = config (foldl commit_one (p, []) ids).1.
Proof.
  unfold process_committed_transactions. destruct (foldl commit_one (p, []) ids) as [p1 pend].
  destruct (promote_stored_keeps pend p1) as [Hs Hc].
  destruct (promote_stored p1 pend) as [p2 []]; done.
Qed.

(** Exactly the transactions of the block leave. *)
Lemma committed_nodes ids p i d :
  pool_ok p →
  nodes (storage (process_committed_transactions ids p)) !! i = Some d ↔
    nodes (storage p) !! i = Some d ∧ tx_id (transaction d) ∉ ids.
Proof.
  intros Hok. rewrite (proj1 (committed_storage ids p)).
  destruct (committing_run _ ids p Hok (spares_none _ _)) as [_ Hn Hk _ _ _].
  split; [apply Hn|]. intros [? ?]. by apply Hk.
Qed.

Lemma committed_comp ids p :
  pool_ok p →
  comp_ok (process_committed_transactions ids p)
    (info (storage (process_committed_transactions ids p)))
    (ready (storage (process_committed_transactions ids p))).
Proof.
  intros Hok. destruct (committing_run _ ids p Hok (spares_none _ _)) as [Hl _ _ _ _ _].
  unfold process_committed_transactions.
  destruct (foldl commit_one (p, []) ids) as [p1 pend]. simpl in *.
  apply promote_stored_lacking, lk_comp in Hl.
  destruct (promote_stored p1 pend) as [p2 found]. cbn [fst] in Hl.
  assert (storage (update_stats (notify_if found p2)) = storage p2) as -> by by destruct found.
  assert (comp_ok (notify_if found p2) (info (storage p2)) (λ i, ready (storage p2) i ∧ i ∉ [])) as Hc.
  { destruct found; [|done]. by eapply comp_ok_frame, Hl. }
  eapply comp_ok_ext; [by eapply comp_ok_frame, Hc|]. intros i _.
  split; [naive_solver|]. intros ?. split; [done|apply not_elem_of_nil].
Qed.

Lemma committed_ok ids p :
  pool_ok p → commit_closed (storage p) ids →
  pool_ok (process_committed_transactions ids p) ∧
  config (process_committed_transactions ids p) = config p.
Proof.
  intros Hok Hclosed. rewrite (proj2 (committed_storage ids p)).
  destruct (committing_run _ ids p Hok (spares_closed _ _ Hclosed)) as [Hl Hn _ _ _ Hcf].
  split; [|done]. unfold process_committed_transactions.
  destruct (foldl commit_one (p, []) ids) as [p1 pend]. simpl in *.
  pose proof (promote_stored_ok _ _ _ Hl (λ i d Hi, proj2 (Hn i d Hi))) as Hok'.
  destruct (promote_stored p1 pend) as [p2 found]. by apply pool_ok_emit, pool_ok_notify.
Qed.

(** The promotion meets a transaction that left exactly when the block has one
    after all it waited for. *)
Lemma promotes_stored_iff ids p :
  pool_ok p →
  promotes_stored ids p = false ↔
  ∃ l1 l2 i d, ids = l1 ++ l2 ∧ waits_for (storage p) l1 i d ∧ tx_id (transaction d) ∈ l2.
Proof.
  intros Hok. unfold promotes_stored.
  destruct (committing_run _ ids p Hok (spares_none _ _)) as [_ Hn Hk _ Hpe _].
  destruct (foldl commit_one (p, []) ids) as [p1 pend]. cbn [fst snd] in *.
  assert (∀ i, get (storage p1) i = nodes (storage p1) !! i) as Hget by (intros; apply g_weight_spec).
  rewrite <- not_true_iff_false, forallb_forall. split.
  - intros Hno. destruct (decide (Exists (λ i, get (storage p1) i = None) pend)) as [Hex|Hall].
    + apply Exists_exists in Hex as (i & (l1 & l2 & d & -> & Hw)%Hpe & Hi).
      exists l1, l2, i, d. split_and!; [done..|].
      destruct Hw as (Hi0 & Hni & _). destruct (decide (tx_id (transaction d) ∈ l1 ++ l2)) as [Hin|Hout].
      { rewrite elem_of_app in Hin. naive_solver. }
      specialize (Hk i d Hi0 Hout). by rewrite Hget, Hk in Hi.
    + destruct Hno. intros i Hi%list_elem_of_In. apply bool_decide_eq_true, not_eq_None_Some.
      intros Hg. apply Hall, Exists_exists. eauto.
  - intros (l1 & l2 & i & d & -> & Hw & Hin) Hall.
    assert (i ∈ pend) as Hi%list_elem_of_In%Hall%bool_decide_eq_true by (apply Hpe; eauto 6).
    destruct Hi as [e He]. rewrite Hget in He.
    destruct (Hn i e He) as [He0 Hne], Hw as (Hd & _). apply Hne. rewrite elem_of_app. right.
    congruence.
Qed.
End commit_facts.
