(* ===== verification/TxPoolSpec.v ===== *)
(** * What the transaction pool guarantees

    The pool as a state machine over its public operations: from the empty pool
    no sequence of operations under the conditions of [op_ok] makes it panic or
    lets its components disagree; insertion, extraction and block import do exactly
    what they promise.  The operations are those of a build without debug
    assertions; [promotes_stored] is the assertion a block can violate. *)

From stdpp Require Import prelude gmap list strings relations.
From Stdlib Require Import ZArith Lia.
From S2P Require Import Prelude.
From S2P Require Import TxTypes.
From S2P Require Import TxPoolTypes.
From S2P Require Import TxPoolSpent.
From S2P Require Import TxPoolExtracted.
From S2P Require Import TxPoolCollision.
From S2P Require Import TxPoolGraph.
From S2P Require Import TxPoolGraphFacts.
From S2P Require Import TxPoolGraphSpec.
From S2P Require Import TxPoolSelection.
From S2P Require Import TxPoolSelectionFacts.
From S2P Require Import TxPoolPool.
From S2P Require Import TxPoolPoolFacts.
From S2P Require Import TxPoolInsertFacts.
Local Open Scope Z_scope.

Section pool_spec.
Context {G Idx C : Type} `{Countable Idx} `{!StableDiGraph G Idx} `{!StableDiGraphSpec G Idx}.
Context `{!HashOrder Idx} `{!LruCache C}.
Implicit Types (p : Pool G Idx C).

(** ** The state machine *)

Inductive PoolOp :=
| OpInsert (tx : PoolTransaction) (ps : TxPoolPersistentStorage) (now : Z)
| OpExtract (c : Constraints)
| OpRemove (ids : list TxId) (error : Error)
| OpPreconfirmed (id : TxId)
| OpCommitted (ids : list TxId)
| OpSkipped (id : TxId) (reason : string)
| OpRollback (id : TxId).

Definition pool_step (op : PoolOp) p : option (Pool G Idx C) :=
  match op with
  | OpInsert tx ps now => fst <$> insert tx ps now p
  | OpExtract c => snd <$> extract_transactions_for_block c p
  | OpRemove ids error => remove_transactions_and_dependents ids error p
  | OpPreconfirmed id => Some (process_preconfirmed_committed_transaction id p)
  | OpCommitted ids => Some (process_committed_transactions ids p)
  | OpSkipped id reason => remove_skipped_transaction id reason p
  | OpRollback id => rollback_preconfirmed_transaction id p
  end.

(** The conditions on the operations: unsigned amounts whose totals fit in 64 bits;
    a preconfirmation comes after those of the pooled transactions it depends on;
    a block commits with a pooled transaction all the pooled transactions it depends
    on.  The ids of a block come in any order: the worker iterates a [HashSet].  The
    code does not check the last two.  A block with another creator of a contract
    than the pooled one, and with a pooled transaction that uses the contract,
    violates the condition, and the sums of the pooled creator then count a
    transaction that has left ([unclosed_commit_stale]). *)
Definition op_ok (op : PoolOp) p : Prop :=
  match op with
  | OpInsert tx _ _ => fits p tx
  | OpExtract c => 0 ≤ c_max_gas c ∧ 0 ≤ maximum_block_size c ∧ 0 ≤ maximum_txs c
  | OpPreconfirmed id =>
      ∀ x, tx_id_to_storage_id p !! id = Some x → has_dependencies (storage p) x = false
  | OpCommitted ids => commit_closed (storage p) ids
  | _ => True
  end.

Inductive reachable (cfg : PoolConfig) : Pool G Idx C → Prop :=
| reach_new : reachable cfg (Pool_new cfg)
| reach_step op p p' :
    reachable cfg p → op_ok op p → pool_step op p = Some p' → reachable cfg p'.

Lemma pool_ok_new cfg : pool_ok (Pool_new (G:=G) (Idx:=Idx) (C:=C) cfg).
Proof.
  assert (info (storage (Pool_new (G:=G) (Idx:=Idx) (C:=C) cfg)) = ∅) as Hinfo.
  { unfold info, nodes. simpl. destruct (g_new_spec (G:=G)) as [-> _]. apply fmap_empty. }
  split; [apply gs_ok_new|]. rewrite Hinfo. split; simpl.
  - rewrite fmap_empty. apply cm_ok_new.
  - intros id i. rewrite lookup_empty. split; [done|]. intros (t & Ht & _).
    by rewrite lookup_empty in Ht.
  - by rewrite map_sum_empty.
  - by rewrite map_sum_empty.
  - split; constructor.
  - intros k i. split; [intros []%not_elem_of_nil|]. intros (t & Ht & _).
    by rewrite lookup_empty in Ht.
  - intros i t. by rewrite lookup_empty.
Qed.

Lemma remove_transactions_ok ids e p :
  pool_ok p → ∃ p', remove_transactions_and_dependents ids e p = Some p' ∧ shrunk p p'.
Proof.
  intros Hok. unfold remove_transactions_and_dependents.
  destruct (remove_txs_loop_ok ids [] p Hok) as (removed & p1 & -> & Hs). cbn [mbind option_bind].
  eexists. split; [done|]. destruct (shrunk_squeeze p p1 removed e Hs) as [Hok1 Hi Hc].
  split; [by apply pool_ok_emit|exact Hi|exact Hc].
Qed.

Lemma skipped_ok id reason p :
  pool_ok p → ∃ p', remove_skipped_transaction id reason p = Some p' ∧ shrunk p p'.
Proof.
  intros Hok. unfold remove_skipped_transaction.
  assert (∃ p1, (if decide (is_Some (tx_id_to_storage_id p !! id))
    then remove_transactions_and_dependents [id] (SkippedTransaction reason) p else Some p) = Some p1
    ∧ shrunk p p1) as (p1 & -> & Hs1).
  { case_decide; [by apply remove_transactions_ok|]. exists p. split; [done|by apply shrunk_refl]. }
  cbn [mbind option_bind]. set (p2 := set_outputs_inputs _ _ p1).
  destruct (evict_all_ok (get_coins_spenders (collision_manager p2) id)
    (SkippedTransaction ("Parent transaction was removed because of: " ++ reason)) p2)
    as (p3 & -> & Hs3); [apply pool_ok_outputs, Hs1|].
  cbn [mbind option_bind]. eexists. split; [done|]. destruct Hs1 as [_ Hi1 Hc1], Hs3 as [Hok3 Hi3 Hc3].
  split; [by apply pool_ok_emit|intros i t Hi; apply Hi1, Hi3, Hi|]. simpl. by rewrite Hc3, <- Hc1.
Qed.

Lemma rollback_ok id p :
  pool_ok p → ∃ p', rollback_preconfirmed_transaction id p = Some p' ∧ shrunk p p'.
Proof.
  intros Hok. unfold rollback_preconfirmed_transaction. set (p1 := set_outputs_inputs _ _ p).
  set (reason := SkippedTransaction _).
  destruct (evict_all_ok (get_coins_spenders (collision_manager p1) id) reason p1)
    as (p2 & -> & Hs2); [by apply pool_ok_outputs|]. cbn [mbind option_bind].
  destruct (evict_contracts_ok (contracts_created_by id (extracted_outputs p)) reason p2)
    as (p3 & -> & Hs3); [apply Hs2|]. cbn [mbind option_bind].
  eexists. split; [done|]. destruct Hs2 as [_ Hi2 Hc2], Hs3 as [Hok3 Hi3 Hc3].
  split; [by apply pool_ok_emit|intros i t Hi; apply Hi2, Hi3, Hi|]. simpl. by rewrite Hc3, Hc2.
Qed.

Lemma pool_step_ok op p :
  pool_ok p → op_ok op p → ∃ p', pool_step op p = Some p' ∧ pool_ok p' ∧ config p' = config p.
Proof.
  intros Hok Hop. destruct op as [tx ps now|c|ids e|id|ids|id reason|id]; simpl in *.
  - destruct (insert_ok tx ps now p Hok Hop) as (p' & r & -> & Hr). exists p'. simpl.
    destruct r as [[]|e]; [destruct Hr|subst p']; done.
  - destruct Hop as (Hg & Hs & Hn).
    destruct (extract_ok c p Hg Hs Hn Hok) as (ids & txs & p' & Hx & Hok' & _).
    rewrite Hx. exists p'. split_and!; [done..|].
    unfold extract_transactions_for_block in Hx.
    apply bind_Some in Hx as ([[[sel best] s] notify] & _ & [= _ <-]). simpl.
    assert (∀ l (q : Pool G Idx C), config (foldl extract_one q l) = config q) as Hcf.
    { intros l. induction l as [|d l IH]; intros q; [done|]. simpl. by rewrite IH. }
    rewrite Hcf. by destruct notify.
  - destruct (remove_transactions_ok ids e p Hok) as (p' & -> & [? ? ?]). eauto.
  - exists (process_preconfirmed_committed_transaction id p).
    destruct (preconfirmed_ok id p Hok Hop). done.
  - exists (process_committed_transactions ids p).
    destruct (committed_ok ids p Hok Hop). done.
  - destruct (skipped_ok id reason p Hok) as (p' & -> & [? ? ?]). eauto.
  - destruct (rollback_ok id p Hok) as (p' & -> & [? ? ?]). eauto.
Qed.

Lemma reachable_ok cfg p : reachable cfg p → pool_ok p ∧ config p = cfg.
Proof.
  induction 1 as [|op p p' _ [Hok Hcf] Hop Hstep]; [split; [apply pool_ok_new|done]|].
  destruct (pool_step_ok op p Hok Hop) as (p1 & Hp1 & Hok1 & Hcf1).
  rewrite Hstep in Hp1. injection Hp1 as <-. split; [done|congruence].
Qed.

(** C7: The pool does not break under the conditions of [op_ok].  Take a sequence
    of insertions, extractions, removals, block imports, preconfirmations, skips
    and rollbacks from the empty pool to [p] in which the amounts of the pool fit in
    64 bits, a transaction is preconfirmed when it depends on nothing in the pool,
    and a block commits with a pooled transaction all the pooled transactions it
    depends on.  Then the graph with its sums, the collision manager, the sorted
    executables, the id map and the totals describe the same transactions, the
    configuration is unchanged, and every further such operation returns without a
    panic in a build without debug assertions. *)
Theorem pool_never_breaks cfg p :
  reachable cfg p →
  pool_ok p ∧ config p = cfg ∧ ∀ op, op_ok op p → ∃ p', pool_step op p = Some p' ∧ pool_ok p'.
Proof.
  intros [Hok Hcf]%reachable_ok. split_and!; [done..|]. intros op Hop.
  destruct (pool_step_ok op p Hok Hop) as (p' & ? & ? & _). eauto.
Qed.

(** C16: Insertion is atomic.  A refused transaction leaves the pool exactly as it
    was.  An accepted one is in the pool, next to transactions that were there
    before and do not conflict with it; its inputs were all spendable, it passed
    the blacklist, uses gas, and its id was new. *)
Theorem insert_outcome tx ps now p :
  pool_ok p → fits p tx →
  ∃ p' r, insert tx ps now p = Some (p', r) ∧
    match r with
    | Err _ => p' = p
    | Ok _ =>
        pool_ok p' ∧ config p' = config p ∧
        (∃ n, info (storage p') !! n = Some (tx, now)) ∧
        (∀ i t, info (storage p') !! i = Some t →
           t = (tx, now) ∨ info (storage p) !! i = Some t ∧ ¬ conflicts tx t.1) ∧
        Forall (input_spendable ps (extracted_outputs p) (spent_inputs p) (storage p)
          (utxo_validation (config p))) (inputs tx) ∧
        check_blacklisting (black_list (config p)) tx = Ok () ∧
        max_gas tx ≠ 0 ∧ contains p (tx_id tx) = false
    end.
Proof.
  intros Hok Hfit. unfold insert.
  destruct (is_spent_tx _ _); [by eexists _, (Err _)|].
  destruct (ps_contains_tx ps (tx_id tx)) as [[]|e]; [by eexists _, (Err _)| |by eexists _, (Err _)].
  destruct (insert_inner_ok tx ps now p Hok Hfit) as (p' & r & -> & Hr).
  exists p', r. split; [done|]. destruct r as [[]|e]; [|naive_solver].
  destruct Hr as [[Hok' Hcf Hpres Hoth] (can & Hcan)].
  destruct (can_insert_spec p tx ps Hok) as (r & Hr & Hins). rewrite Hcan in Hr. injection Hr as <-.
  destruct (Hins can eq_refl) as [Hgas Hnew _ _ _ _ _ _ _ _ Hvalid Hbl].
  split_and!; try done. unfold contains. rewrite Hnew. by case_bool_decide as Hs; [destruct Hs|].
Qed.

(** C18: Replacement by price.  An accepted transaction evicts every transaction
    it conflicts with, and it pays strictly more tip per gas than each of them
    together with everything that depended on it. *)
Theorem replacement_outbids tx ps now p p' i d :
  pool_ok p → fits p tx → insert tx ps now p = Some (p', Ok ()) →
  nodes (storage p) !! i = Some d → conflicts tx (transaction d) →
  tip tx * dependents_cumulative_gas d > dependents_cumulative_tip d * max_gas tx ∧
  ∀ j, info (storage p') !! j ≠ Some (txinfo d).
Proof.
  intros Hok Hfit Hins Hd Hcf. unfold insert in Hins.
  destruct (is_spent_tx _ _); [done|].
  destruct (ps_contains_tx ps (tx_id tx)) as [[]|e]; [done| |done].
  destruct (insert_inner_ok tx ps now p Hok Hfit) as (p1 & r & Hp1 & Hr).
  rewrite Hins in Hp1. injection Hp1 as <- <-. destruct Hr as [Hin (can & Hcan)].
  destruct (can_insert_spec p tx ps Hok) as (r & Hr & Hspec). rewrite Hcan in Hr. injection Hr as <-.
  specialize (Hspec can eq_refl).
  assert (info (storage p) !! i = Some (txinfo d)) as Hi by (apply info_lookup; eauto). split.
  - apply (in_outbids _ _ _ _ Hspec i d); [|done]. apply (in_conflicts _ _ _ _ Hspec).
    exists (transaction d). split; [|done]. by rewrite lookup_fmap, Hi.
  - intros j Hj. destruct (ins_others _ _ _ _ Hin j _ Hj) as [Heq|[_ Hno]]; [|done].
    pose proof (in_new _ _ _ _ Hspec) as Hnew.
    assert (tx_id_to_storage_id p !! tx_id tx = Some i) as Hc; [|congruence].
    apply (co_ids _ _ _ (po_comp _ Hok)). exists (txinfo d). split; [done|]. by rewrite Heq.
Qed.

(** C17: Extraction for a block.  The extracted transactions are distinct pool
    transactions, each listed after everything it depends on; together they
    respect the limits of the block and one by one its gas price and excluded
    contracts; they are exactly what leaves the pool, which stays consistent. *)
Theorem extract_for_block c p :
  0 ≤ c_max_gas c → 0 ≤ maximum_block_size c → 0 ≤ maximum_txs c → pool_ok p →
  ∃ ids txs p', extract_transactions_for_block c p = Some (txs, p') ∧ pool_ok p' ∧ NoDup ids ∧
    Forall2 (λ i tx, ∃ d, nodes (storage p) !! i = Some d ∧ transaction d = tx) ids txs ∧
    (∀ i, nodes (storage p') !! i = if decide (i ∈ ids) then None else nodes (storage p) !! i) ∧
    (∀ l1 i l2, ids = l1 ++ i :: l2 → ∀ q, dep (storage p) q i → q ∈ l1) ∧
    lsum max_gas txs ≤ c_max_gas c ∧ lsum metered_bytes_size txs ≤ maximum_block_size c ∧
    Z.of_nat (length txs) ≤ maximum_txs c ∧
    Forall (λ tx, minimal_gas_price c ≤ max_gas_price tx ∧
      ∀ contract_id, InputContract contract_id ∈ inputs tx →
        contract_id ∉ excluded_contracts c) txs.
Proof.
  intros Hg Hs Hn Hok.
  destruct (extract_ok c p Hg Hs Hn Hok) as (ids & txs & p' & Hx & Hok' & Hnd & Htxs & Hnodes & Hord).
  exists ids, txs, p'. pose proof Hx as Hx'. unfold extract_transactions_for_block in Hx'.
  apply bind_Some in Hx' as ([[[sel best] s] notify] & Hga & [= <- _]).
  apply gather_within in Hga as (Hgas & Hsize & Hlen & Hadm); [|done..].
  rewrite !lsum_fmap, length_fmap. split_and!; try done.
  apply Forall_fmap. eapply Forall_impl; [exact Hadm|]. intros d Hd. exact Hd.
Qed.

(** C19: Block import.  Committing a block removes from the pool exactly its
    transactions, whatever the order its ids come in, and the collision manager, the
    id map, the totals and the sorted executables describe what is left: what
    waited only for the block is executable.  When the block has with a pooled
    transaction all the pooled transactions it depends on, the sums of the graph
    are right too.  The debug assertion of the promotion fails exactly when the
    block has a pooled transaction after all the pooled transactions it depends on,
    of which there is one. *)
Theorem committed_leave_pool ids p :
  pool_ok p →
  let p' := process_committed_transactions ids p in
  (∀ i d, nodes (storage p') !! i = Some d ↔
    nodes (storage p) !! i = Some d ∧ tx_id (transaction d) ∉ ids) ∧
  comp_ok p' (info (storage p')) (ready (storage p')) ∧
  (commit_closed (storage p) ids → pool_ok p') ∧
  (promotes_stored ids p = false ↔
    ∃ l1 l2 i d, ids = l1 ++ l2 ∧ waits_for (storage p) l1 i d ∧ tx_id (transaction d) ∈ l2).
Proof.
  intros Hok. split_and!.
  - intros i d. by apply committed_nodes.
  - by apply committed_comp.
  - intros Hcl. by apply committed_ok.
  - by apply promotes_stored_iff.
Qed.

(** *** Totals *)

Lemma tx_count_size p M X : comp_ok p M X → tx_count p = Z.of_nat (size M).
Proof.
  intros Hc. unfold tx_count. f_equal.
  set (l := (λ e : Idx * (PoolTransaction * Z), tx_id e.2.1) <$> map_to_list M).
  assert (NoDup l) as Hnd.
  { apply NoDup_fmap_2_strong; [|apply NoDup_map_to_list].
    intros [i t] [j t'] Hi%elem_of_map_to_list Hj%elem_of_map_to_list Heq. simpl in Heq.
    assert (i = j) as <- by (by eapply co_unique). by simplify_eq. }
  assert (dom (tx_id_to_storage_id p) = list_to_set l) as Hdom.
  { apply set_eq. intros id. rewrite elem_of_dom, elem_of_list_to_set. unfold l.
    rewrite list_elem_of_fmap. unfold is_Some. setoid_rewrite (co_ids _ _ _ Hc). split.
    - intros (i & t & Hi & <-). exists (i, t). split; [done|]. by apply elem_of_map_to_list.
    - intros ([i t] & -> & Hi%elem_of_map_to_list). eauto. }
  rewrite <- size_dom, Hdom, size_list_to_set by done. unfold l.
  by rewrite length_fmap, length_map_to_list.
Qed.

(** The statistics are exact.  In every reachable state the transaction count,
    the gas and the size the pool reports are those of the stored transactions. *)
Theorem pool_totals_exact cfg p :
  reachable cfg p →
  tx_count p = Z.of_nat (size (nodes (storage p))) ∧
  current_gas p = map_sum (λ d, max_gas (transaction d)) (nodes (storage p)) ∧
  current_bytes_size p = map_sum (λ d, metered_bytes_size (transaction d)) (nodes (storage p)).
Proof.
  intros [[_ Hc] _]%reachable_ok.
  assert (∀ w : PoolTransaction * Z → Z, map_sum w (info (storage p)) =
    map_sum (λ d, w (txinfo d)) (nodes (storage p))) as Hsum.
  { intros w. unfold info. induction (nodes (storage p)) as [|i d m Hi IH] using map_ind.
    - by rewrite fmap_empty, !map_sum_empty.
    - rewrite fmap_insert, !map_sum_insert, IH by (done || by rewrite lookup_fmap, Hi). done. }
  split_and!.
  - rewrite (tx_count_size _ _ _ Hc). unfold info. by rewrite map_size_fmap.
  - rewrite (co_gas _ _ _ Hc). apply Hsum.
  - rewrite (co_bytes _ _ _ Hc). apply Hsum.
Qed.
End pool_spec.

(** ** A pool with a parent and its child *)

Module SamplePool.
Import Sample.
Abbreviation pool := (Pool ListGraph.t nat ListLru).

Definition cfg : PoolConfig :=
  {| utxo_validation := true; max_txs_chain_count := 10;
     pool_limits := {| max_txs := 100; limit_max_gas := 1000; max_bytes_size := 1000 |};
     black_list := BlackList_new [] [] [] [];
     pending_pool_tx_ttl := 3; max_pending_pool_size_percentage := 50 |}.

(** A database with the coin the parent spends. *)
Definition db : TxPoolPersistentStorage :=
  {| ps_contains_tx _ := Ok false;
     ps_utxo u := Ok (if decide (u = (9, 0))
                      then Some {| coin_owner := 7; coin_amount := 100; coin_asset_id := 0 |}
                      else None);
     ps_contract_exist _ := Ok false; ps_blob_exist _ := Ok false; ps_message _ := Ok None |}.

Definition run (op : PoolOp) (p : pool) : pool := default p (pool_step op p).
Definition p0 : pool := Pool_new cfg.
Definition p1 : pool := run (OpInsert parent db 0) p0.
Definition p2 : pool := run (OpInsert child db 1) p1.

(** A transaction that spends the coin of the parent with a higher tip. *)
Definition rival : PoolTransaction := sample_tx 3 50 [sample_coin (9, 0)] [].
Definition block : Constraints :=
  {| minimal_gas_price := 0; c_max_gas := 100; maximum_txs := 10; maximum_block_size := 1000;
     excluded_contracts := ∅ |}.

Lemma parent_fits : fits p0 parent.
Proof. split; intros []; vm_compute; discriminate. Qed.
Lemma child_fits : fits p1 child.
Proof. split; intros []; vm_compute; discriminate. Qed.
Lemma rival_fits : fits p2 rival.
Proof. split; intros []; vm_compute; discriminate. Qed.

Lemma p1_reachable : reachable cfg p1.
Proof.
  apply (reach_step cfg (OpInsert parent db 0) p0); [apply reach_new|apply parent_fits|].
  vm_compute. reflexivity.
Qed.
Lemma p2_reachable : reachable cfg p2.
Proof.
  apply (reach_step cfg (OpInsert child db 1) p1); [apply p1_reachable|apply child_fits|].
  vm_compute. reflexivity.
Qed.
Lemma p2_ok : pool_ok p2.
Proof. apply (reachable_ok cfg), p2_reachable. Qed.

Lemma p2_nodes i d :
  nodes (storage p2) !! i = Some d → tx_id (transaction d) = Z.of_nat i ∧ (i = 1%nat ∨ i = 2%nat).
Proof.
  assert (nodes (storage p2) = {[1%nat := increased_node (new_node parent 0) child;
    2%nat := new_node child 1]}) as -> by (vm_compute; reflexivity).
  rewrite lookup_insert_Some, lookup_singleton_Some.
  intros [[<- <-]|[_ [<- <-]]]; (split; [vm_compute; reflexivity|auto]).
Qed.

Lemma p2_closed : commit_closed (storage p2) [2; 1].
Proof.
  intros i d q e _ _ _ [-> [-> | ->]]%p2_nodes; set_solver.
Qed.
End SamplePool.

Lemma pool_never_breaks_witness :
  pool_ok SamplePool.p2 ∧
  ∃ p', pool_step (OpInsert SamplePool.rival SamplePool.db 2) SamplePool.p2 = Some p' ∧ pool_ok p'.
Proof.
  destruct (pool_never_breaks SamplePool.cfg SamplePool.p2 SamplePool.p2_reachable) as (Hok & _ & Hop).
  split; [exact Hok|]. apply Hop, SamplePool.rival_fits.
Defined.

Lemma insert_outcome_witness :
  ∃ p', insert SamplePool.rival SamplePool.db 2 SamplePool.p2 = Some (p', Ok ()) ∧ pool_ok p'.
Proof.
  destruct (insert_outcome SamplePool.rival SamplePool.db 2 SamplePool.p2 SamplePool.p2_ok
    SamplePool.rival_fits) as (p' & r & Hi & Hr).
  destruct r as [[]|e]; [exists p'; split; [done|apply Hr]|]. exfalso.
  assert (option_map (λ x, is_ok x.2) (insert SamplePool.rival SamplePool.db 2 SamplePool.p2)
    = Some true) as Hok by (vm_compute; reflexivity). by rewrite Hi in Hok.
Defined.

Lemma replacement_outbids_witness :
  ∃ p' d, insert SamplePool.rival SamplePool.db 2 SamplePool.p2 = Some (p', Ok ()) ∧
    nodes (storage SamplePool.p2) !! 1%nat = Some d ∧ dependents_cumulative_tip d = 8 ∧
    ∀ j, info (storage p') !! j ≠ Some (txinfo d).
Proof.
  destruct (insert SamplePool.rival SamplePool.db 2 SamplePool.p2) as [[p' [[]|e]]|] eqn:Hi;
    [|vm_compute in Hi; discriminate..].
  destruct (nodes (storage SamplePool.p2) !! 1%nat) as [d|] eqn:Hd; [|vm_compute in Hd; discriminate].
  exists p', d. split; [done|]. split; [done|].
  assert (dependents_cumulative_tip d = 8 ∧ conflicts SamplePool.rival (transaction d)) as [Ht Hc].
  { vm_compute in Hd. injection Hd as <-. split; [reflexivity|]. left. exists (9, 0).
    split; apply list_elem_of_here. }
  split; [done|].
  apply (replacement_outbids SamplePool.rival SamplePool.db 2 SamplePool.p2 p' 1%nat d
    SamplePool.p2_ok SamplePool.rival_fits Hi Hd Hc).
Defined.

Lemma extract_for_block_witness :
  ∃ txs p', extract_transactions_for_block SamplePool.block SamplePool.p2 = Some (txs, p') ∧
    pool_ok p' ∧ length txs = 2%nat.
Proof.
  destruct (extract_for_block SamplePool.block SamplePool.p2) as (ids & txs & p' & Hx & Hok & _);
    [vm_compute; discriminate..|apply SamplePool.p2_ok|].
  exists txs, p'. split; [done|]. split; [done|].
  assert (option_map (λ x, length x.1) (extract_transactions_for_block SamplePool.block SamplePool.p2)
    = Some 2%nat) as Hl by (vm_compute; reflexivity). rewrite Hx in Hl. by injection Hl.
Defined.

(** The child is committed before its parent, and after it. *)
Lemma committed_leave_pool_witness :
  pool_ok (process_committed_transactions [2; 1] SamplePool.p2) ∧
  nodes (storage (process_committed_transactions [2; 1] SamplePool.p2)) !! 1%nat = None ∧
  ∃ l1 l2 i d, [1; 2] = l1 ++ l2 ∧ waits_for (storage SamplePool.p2) l1 i d ∧
    tx_id (transaction d) ∈ l2.
Proof.
  split; [|split; [vm_compute; reflexivity|]].
  - apply (committed_leave_pool [2; 1] SamplePool.p2 SamplePool.p2_ok), SamplePool.p2_closed.
  - apply (committed_leave_pool [1; 2] SamplePool.p2 SamplePool.p2_ok). vm_compute. reflexivity.
Defined.

Lemma pool_totals_exact_witness :
  tx_count SamplePool.p2 = 2 ∧ current_gas SamplePool.p2 = 20.
Proof.
  destruct (pool_totals_exact SamplePool.cfg SamplePool.p2 SamplePool.p2_reachable)
    as (Hc & Hg & _).
  rewrite Hc, Hg. split; vm_compute; reflexivity.
Defined.

(** ** A block with a parent and its child

    When both are in the pool and the parent comes first, the child is queued for
    promotion and then committed itself; the lookup of the queued child then finds
    nothing, which the code treats as a violated invariant.  In the other order the
    assertion holds. *)
Example committed_child_is_queued :
  let '(p, to_promote) := foldl commit_one (SamplePool.p2, []) [1; 2] in
  to_promote = [2%nat] ∧ get (storage p) 2%nat = None ∧
  promotes_stored [1; 2] SamplePool.p2 = false ∧ promotes_stored [2; 1] SamplePool.p2 = true.
Proof. vm_compute. done. Qed.

(** ** A block with a child and not its parent

    The parent stays, alone, and its sums still count the child. *)
Example unclosed_commit_stale :
  let p := process_committed_transactions [2] SamplePool.p2 in
  size (nodes (storage p)) = 1%nat ∧
  (λ d, (max_gas (transaction d), dependents_cumulative_gas d, number_dependents_in_chain d))
    <$> get (storage p) 1%nat = Some (10, 20, 2).
Proof. vm_compute. done. Qed.
