(* ===== verification/TxPoolPending.v ===== *)
(** * Transactions waiting for their inputs

    Model of [PendingPool] (txpool_v2/src/pending_pool.rs).  The source of an
    insertion (a peer or a response channel) is a type parameter.  The clock is an
    argument, an integer without bound, so the [expect] on [checked_add] of
    [SystemTime] is not a branch.  The notifications [expire_transactions] tries to
    send are its result; that a full channel loses one is not modelled. *)

From stdpp Require Import prelude gmap list strings.
From Stdlib Require Import ZArith Lia.
From S2P Require Import Prelude.
From S2P Require Import TxTypes.
From S2P Require Import TxPoolTypes.
From S2P Require Import TxPoolGraph.
Local Open Scope Z_scope.

Section pending.
Context {Src : Type} `{!HashOrder TxId}.

Record PendingTx := {
  pending_tx : PoolTransaction;
  insertion_source : Src;
  missing_inputs : list MissingInput;
}.

Record PendingPool := {
  ttl : Z;
  pending_txs_by_inputs : gmap MissingInput (gset TxId);
  pending_inputs_by_tx : gmap TxId PendingTx;
  (** front first *)
  ttl_check : list (Z * TxId);
  current_bytes : Z;
  current_txs : Z;
  pending_gas : Z;
}.

Definition PendingPool_new (t : Z) : PendingPool :=
  {| ttl := t; pending_txs_by_inputs := ∅; pending_inputs_by_tx := ∅; ttl_check := [];
     current_bytes := 0; current_txs := 0; pending_gas := 0 |}.

Definition add_waiting (id : TxId) (m : gmap MissingInput (gset TxId)) (input : MissingInput) :
    gmap MissingInput (gset TxId) :=
  <[input := {[id]} ∪ default ∅ (m !! input)]> m.

Definition insert_transaction (tx : PoolTransaction) (source : Src) (missing : list MissingInput)
    (now : Z) (pp : PendingPool) : PendingPool :=
  {| ttl := ttl pp;
     pending_txs_by_inputs := foldl (add_waiting (tx_id tx)) (pending_txs_by_inputs pp) missing;
     pending_inputs_by_tx :=
       <[tx_id tx := {| pending_tx := tx; insertion_source := source;
                        missing_inputs := missing |}]> (pending_inputs_by_tx pp);
     ttl_check := (now + ttl pp, tx_id tx) :: ttl_check pp;
     current_bytes := sat_add U64 (current_bytes pp) (metered_bytes_size tx);
     current_txs := sat_add U64 (current_txs pp) 1;
     pending_gas := sat_add U64 (pending_gas pp) (max_gas tx) |}.

(** [entry.remove()] with [decrease_pool_size]. *)
Definition take_pending (id : TxId) (tx : PoolTransaction) (pp : PendingPool) : PendingPool :=
  {| ttl := ttl pp; pending_txs_by_inputs := pending_txs_by_inputs pp;
     pending_inputs_by_tx := delete id (pending_inputs_by_tx pp); ttl_check := ttl_check pp;
     current_bytes := sat_sub (current_bytes pp) (metered_bytes_size tx);
     current_txs := sat_sub (current_txs pp) 1;
     pending_gas := sat_sub (pending_gas pp) (max_gas tx) |}.

Definition set_pending (m : gmap TxId PendingTx) (pp : PendingPool) : PendingPool :=
  {| ttl := ttl pp; pending_txs_by_inputs := pending_txs_by_inputs pp;
     pending_inputs_by_tx := m; ttl_check := ttl_check pp; current_bytes := current_bytes pp;
     current_txs := current_txs pp; pending_gas := pending_gas pp |}.
Definition set_waiting (m : gmap MissingInput (gset TxId)) (pp : PendingPool) : PendingPool :=
  {| ttl := ttl pp; pending_txs_by_inputs := m;
     pending_inputs_by_tx := pending_inputs_by_tx pp; ttl_check := ttl_check pp;
     current_bytes := current_bytes pp; current_txs := current_txs pp;
     pending_gas := pending_gas pp |}.
Definition set_ttl_check (l : list (Z * TxId)) (pp : PendingPool) : PendingPool :=
  {| ttl := ttl pp; pending_txs_by_inputs := pending_txs_by_inputs pp;
     pending_inputs_by_tx := pending_inputs_by_tx pp; ttl_check := l;
     current_bytes := current_bytes pp; current_txs := current_txs pp;
     pending_gas := pending_gas pp |}.

(** ** Known inputs *)

Abbreviation resolved := (list (PoolTransaction * Src)).

Definition without_input (input : MissingInput) (l : list MissingInput) : list MissingInput :=
  filter (λ i, i ≠ input) l.

Definition resolve_one (input : MissingInput) (acc : PendingPool * resolved) (id : TxId) :
    PendingPool * resolved :=
  let '(pp, res) := acc in
  match pending_inputs_by_tx pp !! id with
  | None => (pp, res)
  | Some p =>
      let missing := without_input input (missing_inputs p) in
      match missing with
      | [] => (take_pending id (pending_tx p) pp, res ++ [(pending_tx p, insertion_source p)])
      | _ => (set_pending (<[id := {| pending_tx := pending_tx p;
                                      insertion_source := insertion_source p;
                                      missing_inputs := missing |}]>
                             (pending_inputs_by_tx pp)) pp, res)
      end
  end.

Definition known_input (input : MissingInput) (acc : PendingPool * resolved) :
    PendingPool * resolved :=
  let '(pp, res) := acc in
  match pending_txs_by_inputs pp !! input with
  | None => (pp, res)
  | Some ids =>
      foldl (resolve_one input)
        (set_waiting (delete input (pending_txs_by_inputs pp)) pp, res) (hs_iter ids)
  end.

Definition missing_of_output (p : UtxoId * Output) : option MissingInput :=
  match p.2 with
  | OutputCoin _ _ _ => Some (MissingUtxo p.1)
  | OutputContractCreated contract_id => Some (MissingContract contract_id)
  | OutputContract | OutputChange _ _ _ | OutputVariable _ _ _ => None
  end.

Definition new_known_input_from_output (acc : PendingPool * resolved) (p : UtxoId * Output) :
    PendingPool * resolved :=
  match missing_of_output p with
  | None => acc
  | Some input => known_input input acc
  end.

Definition new_known_tx_inner (outs : list (UtxoId * Output)) (acc : PendingPool * resolved) :
    PendingPool * resolved :=
  foldl new_known_input_from_output acc outs.

Definition new_known_tx (outs : list (UtxoId * Output)) (pp : PendingPool) :
    PendingPool * resolved :=
  new_known_tx_inner outs (pp, []).

Definition new_known_txs (txs : list (list Output * TxId)) (pp : PendingPool) :
    PendingPool * resolved :=
  foldl (λ acc '(outs, id), new_known_tx_inner (utxo_ids_with_outputs outs id) acc) (pp, []) txs.

(** ** Expiration *)

Definition drop_waiting (id : TxId) (m : gmap MissingInput (gset TxId)) (input : MissingInput) :
    gmap MissingInput (gset TxId) :=
  match m !! input with
  | None => m
  | Some ids =>
      let ids := ids ∖ {[id]} in
      if decide (ids = ∅) then delete input m else <[input := ids]> m
  end.

(** The notification an expired transaction causes. *)
Definition ErrorInsertion : Type := TxId * Error * Src.

Definition expire_one (id : TxId) (pp : PendingPool) : PendingPool * list ErrorInsertion :=
  match pending_inputs_by_tx pp !! id with
  | None => (pp, [])
  | Some p =>
      let pp := take_pending id (pending_tx p) pp in
      let pp := set_waiting
                  (foldl (drop_waiting id) (pending_txs_by_inputs pp) (missing_inputs p)) pp in
      (pp, match missing_inputs p with
           | missing_input :: _ =>
               [(tx_id (pending_tx p), missing_input_error missing_input, insertion_source p)]
           | [] => []
           end)
  end.

(** The loop looks at the back of the queue; [l] is the queue, back first. *)
Fixpoint expire_loop (now : Z) (l : list (Z * TxId)) (pp : PendingPool)
    (notes : list ErrorInsertion) : PendingPool * list ErrorInsertion :=
  match l with
  | [] => (set_ttl_check [] pp, notes)
  | (t, id) :: l' =>
      if decide (t > now) then (set_ttl_check (reverse l) pp, notes)
      else
        let '(pp, n) := expire_one id pp in
        expire_loop now l' pp (notes ++ n)
  end.

Definition expire_transactions (now : Z) (pp : PendingPool) : PendingPool * list ErrorInsertion :=
  expire_loop now (reverse (ttl_check pp)) pp [].
End pending.
Arguments PendingTx : clear implicits.
Arguments PendingPool : clear implicits.
