(* ===== verification/TxPoolPendingFacts.v ===== *)
(** * What the pending pool guarantees

    The two indexes agree, the totals are exact, a transaction leaves exactly when
    its last missing input becomes known or when its time is over. *)

From stdpp Require Import prelude gmap list strings sorting.
From Stdlib Require Import ZArith Lia.
From S2P Require Import Prelude.
From S2P Require Import TxTypes.
From S2P Require Import TxPoolTypes.
From S2P Require Import TxPoolGraph.
From S2P Require Import TxPoolPending.
Local Open Scope Z_scope.

Section pending_facts.
Context {Src : Type} `{!HashOrder TxId}.
Implicit Types (pp : PendingPool Src) (p : PendingTx Src).

(** ** Invariant *)

Definition waits pp (m : MissingInput) (id : TxId) : Prop :=
  ∃ ids, pending_txs_by_inputs pp !! m = Some ids ∧ id ∈ ids.

Definition bytes_of p : Z := metered_bytes_size (pending_tx p).
Definition gas_of p : Z := max_gas (pending_tx p).

Record totals_ok pp : Prop := {
  pt_keyed id p : pending_inputs_by_tx pp !! id = Some p →
    tx_id (pending_tx p) = id ∧ missing_inputs p ≠ [] ∧ 0 ≤ bytes_of p ∧ 0 ≤ gas_of p;
  pt_txs : current_txs pp = Z.of_nat (size (pending_inputs_by_tx pp));
  pt_bytes : current_bytes pp = map_sum bytes_of (pending_inputs_by_tx pp);
  pt_gas : pending_gas pp = map_sum gas_of (pending_inputs_by_tx pp);
}.

Record pending_ok pp : Prop := {
  po_totals : totals_ok pp;
  po_waits m id : waits pp m id ↔
    ∃ p, pending_inputs_by_tx pp !! id = Some p ∧ m ∈ missing_inputs p;
  po_used m ids : pending_txs_by_inputs pp !! m = Some ids → ids ≠ ∅;
  po_timed id : is_Some (pending_inputs_by_tx pp !! id) → id ∈ (ttl_check pp).*2;
  po_sorted : StronglySorted Z.ge (ttl_check pp).*1;
}.

Lemma pending_ok_new t : pending_ok (PendingPool_new t).
Proof.
  split; [split|..]; simpl.
  - intros id p. by rewrite lookup_empty.
  - by rewrite map_size_empty.
  - by rewrite map_sum_empty.
  - by rewrite map_sum_empty.
  - intros m id. split; [intros (ids & Hm & _)|intros (p & Hp & _)]; simpl in *;
      by rewrite lookup_empty in *.
  - intros m ids. by rewrite lookup_empty.
  - intros id [p Hp]. by rewrite lookup_empty in Hp.
  - constructor.
Qed.

(** ** Insertion *)

(** The caller's side: a transaction that is not pending yet, totals that fit in 64
    bits, and a clock that does not go back. *)
Record insert_pre (tx : PoolTransaction) (missing : list MissingInput) (now : Z) pp : Prop := {
  ip_fresh : pending_inputs_by_tx pp !! tx_id tx = None;
  ip_missing : missing ≠ [];
  ip_sizes : 0 ≤ metered_bytes_size tx ∧ 0 ≤ max_gas tx;
  ip_fits : current_bytes pp + metered_bytes_size tx ≤ U64 ∧
            pending_gas pp + max_gas tx ≤ U64 ∧ current_txs pp + 1 ≤ U64;
  ip_clock : Forall (Z.ge (now + ttl pp)) (ttl_check pp).*1;
}.

Lemma add_waiting_lookup id missing (w : gmap MissingInput (gset TxId)) m :
  foldl (add_waiting id) w missing !! m =
  if decide (m ∈ missing) then Some ({[id]} ∪ default ∅ (w !! m)) else w !! m.
Proof.
  revert w. induction missing as [|a l IH]; intros w; [done|]. simpl. rewrite IH.
  unfold add_waiting. destruct (decide (m = a)) as [->|Hne].
  - rewrite lookup_insert_eq, (decide_True (P:=a ∈ a :: l)) by set_solver.
    case_decide; [|done]. simpl. f_equal. set_solver.
  - rewrite lookup_insert_ne by done.
    destruct (decide (m ∈ l)); [rewrite decide_True by set_solver|rewrite decide_False by set_solver];
      done.
Qed.

Lemma insert_transaction_ok tx src missing now pp :
  pending_ok pp → insert_pre tx missing now pp →
  pending_ok (insert_transaction tx src missing now pp).
Proof.
  intros [[Hk Ht Hb Hg] Hw Hu Htm Hs] [Hf Hne [Hb0 Hg0] (Fb & Fg & Ft) Hc].
  assert (0 ≤ current_bytes pp) by (rewrite Hb; apply map_sum_nonneg; intros; by eapply Hk).
  assert (0 ≤ pending_gas pp) by (rewrite Hg; apply map_sum_nonneg; intros; by eapply Hk).
  split; [split|..]; simpl.
  - intros id p [[<- <-]|[_ Hp]]%lookup_insert_Some; [done|by apply Hk].
  - rewrite map_size_insert_None by done. unfold sat_add. lia.
  - rewrite map_sum_insert by done. unfold sat_add, bytes_of at 1. simpl. lia.
  - rewrite map_sum_insert by done. unfold sat_add, gas_of at 1. simpl. lia.
  - intros m id. unfold waits. simpl. setoid_rewrite add_waiting_lookup.
    destruct (decide (id = tx_id tx)) as [->|Hid].
    + rewrite lookup_insert_eq. split.
      * intros (ids & Hm & Hin). eexists. split; [done|]. simpl. case_decide; [done|].
        destruct (proj1 (Hw m (tx_id tx))) as (p & Hp & _); [by exists ids|congruence].
      * intros (p & [= <-] & Hin). simpl in Hin. rewrite decide_True by done.
        eexists. split; [done|set_solver].
    + rewrite lookup_insert_ne by done. rewrite <- Hw. unfold waits. case_decide; [|done].
      split; [intros (ids & [= <-] & Hin)|intros (ids & Hm & Hin)].
      * destruct (pending_txs_by_inputs pp !! m) as [ids|] eqn:Hm; simpl in Hin; [|set_solver].
        exists ids. set_solver.
      * rewrite Hm. eexists. split; [done|]. simpl. set_solver.
  - intros m ids. rewrite add_waiting_lookup. case_decide; [intros [= <-]; set_solver|apply Hu].
  - intros id [p Hp]. apply lookup_insert_Some in Hp as [[<- _]|[_ Hp]]; [set_solver|].
    apply elem_of_cons. right. apply Htm. eauto.
  - constructor; [done|exact Hc].
Qed.

(** ** Known inputs *)

Lemma filter_all {A} (P : A → Prop) `{∀ x, Decision (P x)} (l : list A) :
  (∀ x, x ∈ l → P x) → filter P l = l.
Proof.
  induction l as [|a l IH]; intros Hl; [done|].
  rewrite filter_cons_True, IH; [done|..]; set_solver.
Qed.

(** What is left of a pending transaction once the inputs [K] are known. *)
Definition after (K : list MissingInput) p : option (PendingTx Src) :=
  match filter (λ i, i ∉ K) (missing_inputs p) with
  | [] => None
  | l => Some {| pending_tx := pending_tx p; insertion_source := insertion_source p;
                 missing_inputs := l |}
  end.

Lemma after_Some K p q :
  after K p = Some q ↔
  q = {| pending_tx := pending_tx p; insertion_source := insertion_source p;
         missing_inputs := filter (λ i, i ∉ K) (missing_inputs p) |} ∧
  filter (λ i, i ∉ K) (missing_inputs p) ≠ [].
Proof. unfold after. destruct (filter _ _); naive_solver. Qed.

Lemma after_None K p : after K p = None ↔ ∀ m, m ∈ missing_inputs p → m ∈ K.
Proof.
  unfold after. split.
  - destruct (filter _ _) eqn:Hf; [|done]. intros _ m Hm. destruct (decide (m ∈ K)); [done|].
    assert (m ∈ filter (λ i, i ∉ K) (missing_inputs p)) as Hin by (by apply list_elem_of_filter).
    rewrite Hf in Hin. by apply not_elem_of_nil in Hin.
  - intros HK. destruct (filter _ _) as [|a l] eqn:Hf; [done|].
    assert (a ∈ filter (λ i, i ∉ K) (missing_inputs p)) as Hin by (rewrite Hf; left).
    apply list_elem_of_filter in Hin as [Ha Hin]. by destruct Ha; apply HK.
Qed.

Lemma after_cons m K p : after (m :: K) p = after K p ≫= after [m].
Proof.
  assert (filter (λ i, i ∉ m :: K) (missing_inputs p) =
          filter (λ i, i ∉ [m]) (filter (λ i, i ∉ K) (missing_inputs p))) as He.
  { rewrite list_filter_filter. apply list_filter_iff. intros i. set_solver. }
  unfold after. rewrite He. by destruct (filter (λ i, i ∉ K) (missing_inputs p)).
Qed.

Lemma after_absent m p : missing_inputs p ≠ [] → m ∉ missing_inputs p → after [m] p = Some p.
Proof.
  intros Hne Hm. apply after_Some.
  assert (filter (λ i, i ∉ [m]) (missing_inputs p) = missing_inputs p) as ->.
  { apply filter_all. intros i Hi. set_solver. }
  by destruct p.
Qed.

Lemma resolve_one_after m pp res id :
  resolve_one m (pp, res) id =
  match pending_inputs_by_tx pp !! id with
  | None => (pp, res)
  | Some p =>
      match after [m] p with
      | None => (take_pending id (pending_tx p) pp, res ++ [(pending_tx p, insertion_source p)])
      | Some q => (set_pending (<[id := q]> (pending_inputs_by_tx pp)) pp, res)
      end
  end.
Proof.
  unfold resolve_one, after, without_input. destruct (pending_inputs_by_tx pp !! id) as [p|]; [|done].
  rewrite (list_filter_iff (λ i, i ≠ m) (λ i, i ∉ [m])) by (intros; set_solver).
  by destruct (filter _ _).
Qed.

(** The progress of a call on the pool [pp0]: [K id] are the inputs handled so far
    for the transaction [id]. *)
Record progress pp0 (K : TxId → list MissingInput) (acc : PendingPool Src * list (PoolTransaction * Src)) :
    Prop := {
  pg_totals : totals_ok acc.1;
  pg_pending id : pending_inputs_by_tx acc.1 !! id = pending_inputs_by_tx pp0 !! id ≫= after (K id);
  pg_resolved t s : (t, s) ∈ acc.2 ↔
    ∃ p, pending_inputs_by_tx pp0 !! tx_id t = Some p ∧ pending_tx p = t ∧
         insertion_source p = s ∧ after (K (tx_id t)) p = None;
  pg_once : NoDup (tx_id <$> acc.2.*1);
  pg_timers : ttl acc.1 = ttl pp0 ∧ ttl_check acc.1 = ttl_check pp0;
}.

Lemma totals_take id p pp :
  totals_ok pp → pending_inputs_by_tx pp !! id = Some p →
  totals_ok (take_pending id (pending_tx p) pp).
Proof.
  intros [Hk Ht Hb Hg] Hp. split; simpl.
  - intros i q [_ Hq]%lookup_delete_Some. by apply Hk.
  - rewrite Ht, map_size_delete_Some by eauto. unfold sat_sub.
    assert (size (pending_inputs_by_tx pp) ≠ 0%nat).
    { intros Hz%map_size_empty_inv. by rewrite Hz, lookup_empty in Hp. }
    lia.
  - rewrite Hb, (map_sum_delete _ _ _ _ Hp). unfold sat_sub, bytes_of at 1.
    assert (0 ≤ map_sum bytes_of (delete id (pending_inputs_by_tx pp))); [|lia].
    apply map_sum_nonneg. intros i q [_ Hq]%lookup_delete_Some. by apply (Hk i).
  - rewrite Hg, (map_sum_delete _ _ _ _ Hp). unfold sat_sub, gas_of at 1.
    assert (0 ≤ map_sum gas_of (delete id (pending_inputs_by_tx pp))); [|lia].
    apply map_sum_nonneg. intros i q [_ Hq]%lookup_delete_Some. by apply (Hk i).
Qed.

Lemma totals_update m id p q pp :
  totals_ok pp → pending_inputs_by_tx pp !! id = Some p → after [m] p = Some q →
  totals_ok (set_pending (<[id := q]> (pending_inputs_by_tx pp)) pp).
Proof.
  intros [Hk Ht Hb Hg] Hp [-> Hne]%after_Some.
  assert (∀ w : PendingTx Src → Z, w {| pending_tx := pending_tx p;
      insertion_source := insertion_source p;
      missing_inputs := filter (λ i, i ∉ [m]) (missing_inputs p) |} = w p →
      map_sum w (<[id := {| pending_tx := pending_tx p; insertion_source := insertion_source p;
      missing_inputs := filter (λ i, i ∉ [m]) (missing_inputs p) |}]> (pending_inputs_by_tx pp))
      = map_sum w (pending_inputs_by_tx pp)) as Hsum.
  { intros w Hw. rewrite <- insert_delete_eq, map_sum_insert by apply lookup_delete_eq.
    by rewrite Hw, <- (map_sum_delete _ _ _ _ Hp). }
  split; simpl.
  - intros i r [[<- <-]|[_ Hr]]%lookup_insert_Some; [|by apply Hk].
    destruct (Hk id p Hp) as (? & _ & ? & ?). done.
  - by rewrite map_size_insert_Some by eauto.
  - rewrite Hb. symmetry. by apply Hsum.
  - rewrite Hg. symmetry. by apply Hsum.
Qed.

Lemma progress_ext pp0 K K' acc :
  (∀ id p, pending_inputs_by_tx pp0 !! id = Some p → after (K id) p = after (K' id) p) →
  progress pp0 K acc → progress pp0 K' acc.
Proof.
  intros HK [Ht Hp Hr Ho Htm]. split; [done| | |done..].
  - intros id. rewrite Hp. destruct (pending_inputs_by_tx pp0 !! id) eqn:Hi; [|done].
    cbn [mbind option_bind]. by apply HK.
  - intros t s. rewrite Hr. split; intros (p & Hi & ? & ? & ?); exists p;
      pose proof (HK _ _ Hi); split_and!; congruence.
Qed.

Lemma progress_step pp0 K m id acc :
  totals_ok pp0 → progress pp0 K acc →
  progress pp0 (λ i, if decide (i = id) then m :: K i else K i) (resolve_one m acc id).
Proof.
  intros [Hk0 _ _ _] Hpg. destruct acc as [pp res]. rewrite resolve_one_after.
  destruct Hpg as [Ht Hp Hr Ho Htm]. simpl in *.
  destruct (pending_inputs_by_tx pp !! id) as [p|] eqn:Hid; rewrite Hp in Hid.
  2: { apply (progress_ext _ K); [|by split]. intros i p0 Hi. case_decide as Hii; [subst i|done].
       rewrite Hi in Hid. cbn [mbind option_bind] in Hid. by rewrite after_cons, Hid. }
  apply bind_Some in Hid as (p0 & Hp0 & Hap).
  destruct (Hk0 _ _ Hp0) as (Hkey & _).
  assert (pending_tx p = pending_tx p0 ∧ insertion_source p = insertion_source p0) as [Htx Hsrc].
  { apply after_Some in Hap as [-> _]. done. }
  assert (after (m :: K id) p0 = after [m] p) as Hnext by (by rewrite after_cons, Hap).
  assert (pending_inputs_by_tx pp !! id = Some p) as Hcur by (by rewrite Hp, Hp0).
  destruct (after [m] p) as [q|] eqn:Hq.
  - split; simpl; [by eapply totals_update| | |done..].
    + intros i. destruct (decide (i = id)) as [->|Hne].
      * by rewrite lookup_insert_eq, Hp0.
      * rewrite lookup_insert_ne by done. apply Hp.
    + intros t s. rewrite Hr. apply exist_proper. intros r. case_decide as Hti; [|done].
      rewrite Hti, Hp0. split; intros ([= <-] & ? & ? & ?); congruence.
  - split; simpl; [by apply totals_take| | | |done].
    + intros i. destruct (decide (i = id)) as [->|Hne].
      * rewrite lookup_delete_eq, Hp0. done.
      * rewrite lookup_delete_ne by done. apply Hp.
    + intros t s. rewrite elem_of_app, list_elem_of_singleton, Hr. split.
      * intros [(r & Hi & ? & ? & Hn)|[= -> ->]].
        -- exists r. split_and!; try done. case_decide; [|done]. by rewrite after_cons, Hn.
        -- exists p0. rewrite Htx, Hkey, decide_True by done. done.
      * intros (r & Hi & <- & <- & Hn). destruct (Hk0 _ _ Hi) as (Hr0 & _).
        case_decide as Hti; [|left; by exists r].
        right. rewrite Hti in Hi. rewrite Hp0 in Hi. injection Hi as <-. by rewrite Htx, Hsrc.
    + rewrite !fmap_app. simpl. apply NoDup_app. split_and!; [done| |apply NoDup_singleton].
      intros i (t & -> & ([t' s] & -> & Hts)%list_elem_of_fmap)%list_elem_of_fmap
        Hin%list_elem_of_singleton. simpl in Hin.
      apply Hr in Hts as (r & Hi & _ & _ & Hn). rewrite Hin, Htx, Hkey, ?Hp0 in Hi, Hn. congruence.
Qed.

Lemma progress_fold pp0 K m l acc :
  totals_ok pp0 → NoDup l → progress pp0 K acc →
  progress pp0 (λ i, if decide (i ∈ l) then m :: K i else K i) (foldl (resolve_one m) acc l).
Proof.
  intros H0 Hl. revert K acc. induction Hl as [|id l Hid Hl IH]; intros K acc Hpg; simpl.
  { apply (progress_ext _ K); [|done]. done. }
  eapply progress_ext; [|apply IH, (progress_step _ K m id _ H0 Hpg)]. intros i p _. simpl.
  destruct (decide (i = id)) as [->|Hne].
  - rewrite (decide_False (P := id ∈ l)), (decide_True (P := id ∈ id :: l)) by set_solver. done.
  - destruct (decide (i ∈ l));
      [rewrite (decide_True (P := i ∈ id :: l))|rewrite (decide_False (P := i ∈ id :: l))];
      set_solver.
Qed.

Lemma fold_waiting m l (acc : PendingPool Src * list (PoolTransaction * Src)) :
  pending_txs_by_inputs (foldl (resolve_one m) acc l).1 = pending_txs_by_inputs acc.1.
Proof.
  revert acc. induction l as [|id l IH]; intros [pp res]; [done|]. cbn [foldl].
  rewrite IH, resolve_one_after. destruct (pending_inputs_by_tx pp !! id) as [p|]; [|done].
  by destruct (after [m] p).
Qed.

Record index_ok pp : Prop := {
  ix_waits m id : waits pp m id ↔
    ∃ p, pending_inputs_by_tx pp !! id = Some p ∧ m ∈ missing_inputs p;
  ix_used m ids : pending_txs_by_inputs pp !! m = Some ids → ids ≠ ∅;
}.

Lemma known_input_ok pp0 K m acc :
  totals_ok pp0 → progress pp0 (λ _, K) acc → index_ok acc.1 →
  progress pp0 (λ _, m :: K) (known_input m acc) ∧ index_ok (known_input m acc).1.
Proof.
  intros H0 Hpg [Hw Hu]. destruct acc as [pp res]. simpl in *.
  assert (∀ id p, pending_inputs_by_tx pp0 !! id = Some p → ¬ waits pp m id →
    after K p = after (m :: K) p) as Hskip.
  { intros id p Hp Hn. rewrite after_cons. destruct (after K p) as [q|] eqn:Hq; [|done].
    cbn [mbind option_bind]. assert (pending_inputs_by_tx pp !! id = Some q) as Hcur.
    { pose proof (pg_pending _ _ _ Hpg id) as E. simpl in E. by rewrite E, Hp. }
    symmetry. apply after_absent; [by eapply (pt_keyed _ (pg_totals _ _ _ Hpg))|].
    intros Hin. apply Hn, Hw. eauto. }
  destruct (pending_txs_by_inputs pp !! m) as [ids|] eqn:Hm.
  2: { split; [|by split]. apply (progress_ext _ (λ _, K)); [|done].
       intros id p Hp. apply (Hskip id); [done|]. intros (ids & Hm' & _). congruence. }
  assert (∀ i, i ∈ hs_iter ids ↔ waits pp m i) as Hids.
  { intros i. rewrite hs_iter_perm, elem_of_elements. unfold waits. rewrite Hm.
    split; [eauto|]. by intros (? & [= <-] & ?). }
  set (acc := foldl _ _ _). assert (progress pp0 (λ _, m :: K) acc) as Hpg'.
  { eapply progress_ext; [|apply (progress_fold pp0 (λ _, K) m (hs_iter ids)); [done| |]].
    - intros i p Hp. simpl. case_decide as Hi; [done|]. apply (Hskip i); [done|]. by rewrite <- Hids.
    - rewrite hs_iter_perm. apply NoDup_elements.
    - destruct Hpg as [[] ? ? ? ?]. split; [by split|done..]. }
  split; [done|].
  assert (pending_txs_by_inputs acc.1 = delete m (pending_txs_by_inputs pp)) as Hwt
    by apply fold_waiting.
  assert (∀ id, pending_inputs_by_tx acc.1 !! id = pending_inputs_by_tx pp !! id ≫= after [m]) as Hpd.
  { intros id. rewrite (pg_pending _ _ _ Hpg'), (pg_pending _ _ _ Hpg id : pending_inputs_by_tx pp !! id = _).
    destruct (pending_inputs_by_tx pp0 !! id); [|done]. apply after_cons. }
  split.
  - intros m' id. unfold waits. rewrite Hwt, Hpd.
    destruct (decide (m' = m)) as [->|Hne].
    + rewrite lookup_delete_eq. split; [by intros (? & ? & _)|].
      intros (q & (p & _ & [-> _]%after_Some)%bind_Some & Hin). simpl in Hin.
      apply list_elem_of_filter in Hin as [Hin _]. set_solver.
    + rewrite lookup_delete_ne by done. etrans; [apply Hw|]. split.
      * intros (p & Hp & Hin). rewrite Hp. cbn [mbind option_bind].
        assert (m' ∈ filter (λ i, i ∉ [m]) (missing_inputs p)) as Hf
          by (apply list_elem_of_filter; set_solver).
        eexists. rewrite after_Some. split; [split; [done|]|exact Hf].
        intros E. rewrite E in Hf. by apply not_elem_of_nil in Hf.
      * intros (q & (p & Hp & [-> _]%after_Some)%bind_Some & Hin). simpl in Hin.
        apply list_elem_of_filter in Hin as [_ Hin]. eauto.
  - intros m' i'. rewrite Hwt. intros [_ Hl]%lookup_delete_Some. by apply (Hu m').
Qed.

Definition known_of (outs : list (UtxoId * Output)) : list MissingInput :=
  omap missing_of_output outs.

Lemma new_known_inner_ok pp0 K outs acc :
  totals_ok pp0 → progress pp0 (λ _, K) acc → index_ok acc.1 →
  progress pp0 (λ _, reverse (known_of outs) ++ K) (new_known_tx_inner outs acc) ∧
  index_ok (new_known_tx_inner outs acc).1.
Proof.
  intros H0. unfold new_known_tx_inner. revert K acc.
  induction outs as [|o outs IH]; intros K acc Hpg Hix; [done|].
  cbn [foldl known_of omap list_omap]. unfold new_known_input_from_output at 2 4.
  destruct (missing_of_output o) as [m|]; [|by apply IH].
  destruct (known_input_ok pp0 K m acc H0 Hpg Hix) as [Hpg' Hix'].
  rewrite reverse_cons, <- app_assoc. by apply IH.
Qed.

Lemma progress_start pp : totals_ok pp → progress pp (λ _, []) (pp, []).
Proof.
  intros Ht. assert (∀ id p, pending_inputs_by_tx pp !! id = Some p → after [] p = Some p) as Ha.
  { intros id p Hp. destruct (pt_keyed _ Ht _ _ Hp) as (_ & Hne & _). apply after_Some.
    rewrite filter_all by set_solver. by destruct p. }
  split; simpl; [done|..|constructor|done].
  - intros id. destruct (pending_inputs_by_tx pp !! id) as [p|] eqn:Hp; [|done].
    cbn [mbind option_bind]. symmetry. by eapply Ha.
  - intros t s. split; [by intros ?%not_elem_of_nil|]. intros (p & Hp & _ & _ & Hn).
    rewrite (Ha _ _ Hp) in Hn. done.
Qed.

Lemma progress_ok pp K acc :
  pending_ok pp → progress pp (λ _, K) acc → index_ok acc.1 → pending_ok acc.1.
Proof.
  intros [_ _ _ Htm Hs] [Ht Hp _ _ [_ Hc]] [Hw Hu]. split; [done..| |by rewrite Hc].
  intros id [q Hq]. rewrite Hp in Hq. apply bind_Some in Hq as (p & Hi & _). rewrite Hc. eauto.
Qed.

Lemma new_known_tx_ok outs pp :
  pending_ok pp →
  progress pp (λ _, reverse (known_of outs) ++ []) (new_known_tx outs pp) ∧
  pending_ok (new_known_tx outs pp).1.
Proof.
  intros Hok. pose proof Hok as [Ht Hw Hu _ _].
  destruct (new_known_inner_ok pp [] outs (pp, []) Ht (progress_start pp Ht)) as [Hpg Hix];
    [by split|]. split; [done|]. by eapply progress_ok.
Qed.

Lemma new_known_txs_ok txs pp :
  pending_ok pp →
  ∃ K, progress pp (λ _, K) (new_known_txs txs pp) ∧ pending_ok (new_known_txs txs pp).1 ∧
    ∀ m, m ∈ K ↔ ∃ outs id, (outs, id) ∈ txs ∧ m ∈ known_of (utxo_ids_with_outputs outs id).
Proof.
  intros Hok. pose proof Hok as [Ht Hw Hu _ _]. unfold new_known_txs.
  assert (∀ K acc, progress pp (λ _, K) acc → index_ok acc.1 →
    let acc' := foldl (λ acc '(outs, id), new_known_tx_inner (utxo_ids_with_outputs outs id) acc)
                  acc txs in
    ∃ K', progress pp (λ _, K') acc' ∧ index_ok acc'.1 ∧ ∀ m, m ∈ K' ↔ m ∈ K ∨
      ∃ outs id, (outs, id) ∈ txs ∧ m ∈ known_of (utxo_ids_with_outputs outs id)) as Hgen.
  { clear Hok Hw Hu. induction txs as [|[outs id] txs IH]; intros K acc Hpg Hix; simpl.
    { exists K. split_and!; [done..|]. set_solver. }
    destruct (new_known_inner_ok pp K (utxo_ids_with_outputs outs id) acc Ht Hpg Hix) as [Hpg' Hix'].
    destruct (IH _ _ Hpg' Hix') as (K' & ? & ? & HK'). exists K'. split_and!; [done..|].
    intros m. rewrite HK', elem_of_app, elem_of_reverse. setoid_rewrite elem_of_cons. naive_solver. }
  destruct (Hgen [] (pp, [])) as (K & Hpg & Hix & HK); [by apply progress_start|by split|].
  exists K. split_and!; [done|by eapply progress_ok|]. intros m. rewrite HK. set_solver.
Qed.

(** ** Expiration *)

Lemma drop_waiting_lookup id missing (w : gmap MissingInput (gset TxId)) m i :
  (∃ ids, foldl (drop_waiting id) w missing !! m = Some ids ∧ i ∈ ids) ↔
  (∃ ids, w !! m = Some ids ∧ i ∈ ids) ∧ (i ≠ id ∨ m ∉ missing).
Proof.
  revert w. induction missing as [|a l IH]; intros w; [set_solver|]. cbn [foldl]. rewrite IH.
  assert ((∃ ids, drop_waiting id w a !! m = Some ids ∧ i ∈ ids) ↔
    (∃ ids, w !! m = Some ids ∧ i ∈ ids) ∧ (i ≠ id ∨ m ≠ a)) as ->.
  { unfold drop_waiting. destruct (decide (m = a)) as [->|Hne].
    - destruct (w !! a) as [ids|] eqn:Ha; [|rewrite Ha; naive_solver].
      cbv zeta. case_decide as He.
      + rewrite lookup_delete_eq. split; [naive_solver|]. intros [(? & [= <-] & ?) [?|?]]; set_solver.
      + rewrite lookup_insert_eq. split.
        * intros (? & [= <-] & [? Hi]%elem_of_difference). split; [eauto|].
          left. intros ->. by apply Hi, elem_of_singleton.
        * intros [(? & [= <-] & ?) [?|?]]; [|done]. eexists. split; [done|]. set_solver.
    - assert (∀ o : gmap MissingInput (gset TxId), o !! m = w !! m →
        (∃ ids, o !! m = Some ids ∧ i ∈ ids) ↔
        (∃ ids, w !! m = Some ids ∧ i ∈ ids) ∧ (i ≠ id ∨ m ≠ a)) as Hsame.
      { intros o ->. naive_solver. }
      apply Hsame. destruct (w !! a); [|done]. cbv zeta. case_decide;
        [by rewrite lookup_delete_ne|by rewrite lookup_insert_ne]. }
  rewrite not_elem_of_cons. tauto.
Qed.

Lemma drop_waiting_used id missing (w : gmap MissingInput (gset TxId)) :
  (∀ m ids, w !! m = Some ids → ids ≠ ∅) →
  ∀ m ids, foldl (drop_waiting id) w missing !! m = Some ids → ids ≠ ∅.
Proof.
  revert w. induction missing as [|a l IH]; intros w Hw; [done|]. cbn [foldl]. apply IH.
  intros m ids. unfold drop_waiting. destruct (w !! a) eqn:Ha; [|apply Hw]. cbv zeta.
  case_decide; [intros [_ ?]%lookup_delete_Some; by eapply Hw|].
  intros [[_ <-]|[_ ?]]%lookup_insert_Some; [done|by eapply Hw].
Qed.

(** One of the timers in [l] for [id] is over. *)
Definition due (now : Z) (l : list (Z * TxId)) (id : TxId) : Prop :=
  Exists (λ e, e.2 = id ∧ e.1 ≤ now) l.

#[global] Instance due_dec now l id : Decision (due now l id).
Proof. unfold due. apply _. Defined.

Definition core_ok pp : Prop := totals_ok pp ∧ index_ok pp.

Definition note_of p : option (ErrorInsertion (Src := Src)) :=
  m ← head (missing_inputs p);
  Some (tx_id (pending_tx p), missing_input_error m, insertion_source p).

Lemma expire_one_ok id pp :
  core_ok pp →
  core_ok (expire_one id pp).1 ∧
  pending_inputs_by_tx (expire_one id pp).1 = delete id (pending_inputs_by_tx pp) ∧
  ttl (expire_one id pp).1 = ttl pp ∧
  (expire_one id pp).2 = option_list (pending_inputs_by_tx pp !! id ≫= note_of).
Proof.
  intros [Ht [Hw Hu]]. unfold expire_one.
  destruct (pending_inputs_by_tx pp !! id) as [p|] eqn:Hp; simpl.
  2: { split_and!; [by split|by rewrite delete_id|done|done]. }
  assert (totals_ok (take_pending id (pending_tx p) pp)) as Ht' by (by apply totals_take).
  split_and!; [split; [by destruct Ht'; split|split]|done|done|].
  - intros m i. unfold waits. simpl. rewrite drop_waiting_lookup. fold (waits pp m i). rewrite Hw.
    destruct (decide (i = id)) as [->|Hne].
    + rewrite lookup_delete_eq, Hp. naive_solver.
    + rewrite lookup_delete_ne by done. naive_solver.
  - simpl. by apply drop_waiting_used.
  - unfold note_of. by destruct (missing_inputs p).
Qed.

Lemma core_set_ttl_check l pp : core_ok pp → core_ok (set_ttl_check l pp).
Proof. intros [[] []]. split; by split. Qed.

Lemma note_of_id pp id p n :
  totals_ok pp → pending_inputs_by_tx pp !! id = Some p → note_of p = Some n → n.1.1 = id.
Proof.
  intros Ht Hp (m & _ & [= <-])%bind_Some. by destruct (pt_keyed _ Ht _ _ Hp).
Qed.

Lemma not_due_later now l t :
  t > now → Forall (Z.le t) l.*1 → (∀ id, ¬ due now l id) ∧ filter (λ e, now < e.1) l = l.
Proof.
  intros Ht Hl. rewrite Forall_forall in Hl.
  assert (∀ e, e ∈ l → now < e.1) as He.
  { intros e Hin. specialize (Hl e.1 (list_elem_of_fmap_2 _ _ _ Hin)). lia. }
  split; [|by apply filter_all]. intros id (e & Hin & _ & Hle)%Exists_exists.
  specialize (He e Hin). lia.
Qed.

Lemma expire_loop_ok now l pp notes :
  core_ok pp → StronglySorted Z.le l.*1 →
  let '(pp', notes') := expire_loop now l pp notes in
  core_ok pp' ∧ ttl pp' = ttl pp ∧
  ttl_check pp' = reverse (filter (λ e, now < e.1) l) ∧
  (∀ id, pending_inputs_by_tx pp' !! id =
         if decide (due now l id) then None else pending_inputs_by_tx pp !! id) ∧
  ∃ new, notes' = notes ++ new ∧ NoDup new.*1.*1 ∧
    ∀ n, n ∈ new ↔ ∃ id p, pending_inputs_by_tx pp !! id = Some p ∧ due now l id ∧ note_of p = Some n.
Proof.
  revert pp notes. induction l as [|[t id] l IH]; intros pp notes Hok Hs; cbn [expire_loop].
  { split_and!; [by apply core_set_ttl_check|done|done| |].
    - intros id. rewrite decide_False; [done|]. by intros ?%Exists_nil.
    - exists []. rewrite app_nil_r. split_and!; [done|constructor|].
      intros n. split; [by intros ?%not_elem_of_nil|]. by intros (? & ? & _ & ?%Exists_nil & _). }
  simpl in Hs. apply StronglySorted_inv in Hs as [Hs Hall]. destruct (decide (t > now)) as [Ht|Ht].
  { destruct (not_due_later now ((t, id) :: l) t Ht) as [Hnd Hf]; [by constructor|].
    rewrite Hf. split_and!; [by apply core_set_ttl_check|done|done| |].
    - intros i. by rewrite decide_False.
    - exists []. rewrite app_nil_r. split_and!; [done|constructor|].
      intros n. split; [by intros ?%not_elem_of_nil|]. intros (? & ? & _ & Hd & _).
      by apply Hnd in Hd. }
  destruct (expire_one_ok id pp Hok) as (Hok1 & Hdel & Httl & Hn).
  destruct (expire_one id pp) as [pp1 n1]. cbn [fst snd] in *.
  specialize (IH pp1 (notes ++ n1) Hok1 Hs). destruct (expire_loop now l pp1 _) as [pp' notes'].
  destruct IH as (Hok' & Httl' & Hq & Hp' & new & -> & Hnd & Hnew).
  assert (∀ i, due now ((t, id) :: l) i ↔ i = id ∨ due now l i) as Hdue.
  { intros i. unfold due. rewrite Exists_cons. simpl. split; [naive_solver|].
    intros [->|?]; [left; split; [done|lia]|by right]. }
  split_and!; [done|congruence| | |].
  - rewrite filter_cons_False by (simpl; lia). done.
  - intros i. rewrite Hp', Hdel. destruct (decide (i = id)) as [->|Hne].
    + rewrite lookup_delete_eq, (decide_True (P := due now ((t, id) :: l) id)) by (apply Hdue; auto).
      by case_decide.
    + rewrite lookup_delete_ne by done. apply decide_ext. rewrite Hdue. naive_solver.
  - exists (n1 ++ new). rewrite app_assoc. split; [done|]. rewrite Hdel in Hnew.
    assert (∀ n, n ∈ n1 ↔ ∃ p, pending_inputs_by_tx pp !! id = Some p ∧ note_of p = Some n) as Hn1.
    { intros n. rewrite Hn. rewrite <- bind_Some.
      destruct (_ ≫= _); simpl; set_solver. }
    split.
    + rewrite !fmap_app. apply NoDup_app. split_and!; [|intros i|done].
      * rewrite Hn. destruct (_ ≫= _); [apply NoDup_singleton|constructor].
      * intros (x & -> & (n & -> & (p & Hp & Hno)%Hn1)%list_elem_of_fmap)%list_elem_of_fmap.
        intros (x & Hx & (n' & -> & (i & p' & Hi & _ & Hno')%Hnew)%list_elem_of_fmap)%list_elem_of_fmap.
        apply lookup_delete_Some in Hi as [Hne Hi].
        rewrite (note_of_id pp id p n), (note_of_id pp i p' n') in Hx by (done || apply Hok). done.
    + intros n. rewrite elem_of_app, Hn1, Hnew. setoid_rewrite Hdue. setoid_rewrite lookup_delete_Some.
      split; [naive_solver|]. intros (i & p & Hp & Hd & Hno).
      destruct (decide (i = id)) as [->|]; [left; eauto|right]. exists i, p. naive_solver.
Qed.

Lemma sorted_reverse (l : list Z) : StronglySorted Z.ge l → StronglySorted Z.le (reverse l).
Proof.
  induction 1 as [|x l Hl IH Hx]; [constructor|]. rewrite reverse_cons.
  apply StronglySorted_app. split_and!; [|done|repeat constructor].
  intros a b Ha ->%list_elem_of_singleton. rewrite elem_of_reverse in Ha.
  rewrite Forall_forall in Hx. specialize (Hx a Ha). lia.
Qed.

Lemma sorted_filter (P : Z * TxId → Prop) `{∀ x, Decision (P x)} l :
  StronglySorted Z.ge l.*1 → StronglySorted Z.ge (filter P l).*1.
Proof.
  induction l as [|x l IH]; [done|]. simpl. intros [Hl Hx]%StronglySorted_inv.
  rewrite filter_cons. case_decide; [|by apply IH]. simpl. constructor; [by apply IH|].
  rewrite Forall_forall in *. intros t (e & -> & [_ He]%list_elem_of_filter)%list_elem_of_fmap.
  by apply Hx, list_elem_of_fmap_2.
Qed.

Lemma filter_reverse {A} (P : A → Prop) `{∀ x, Decision (P x)} (l : list A) :
  filter P (reverse l) = reverse (filter P l).
Proof.
  induction l as [|x l IH]; [done|]. rewrite reverse_cons, filter_app, IH, !filter_cons, filter_nil.
  case_decide; [by rewrite reverse_cons|by rewrite app_nil_r].
Qed.

Lemma due_perm now l l' id : l ≡ₚ l' → due now l id ↔ due now l' id.
Proof. intros Hl. unfold due. by rewrite Hl. Qed.

Lemma expire_ok now pp :
  pending_ok pp →
  let '(pp', notes) := expire_transactions now pp in
  pending_ok pp' ∧
  (∀ id, pending_inputs_by_tx pp' !! id =
         if decide (due now (ttl_check pp) id) then None else pending_inputs_by_tx pp !! id) ∧
  NoDup notes.*1.*1 ∧
  ∀ n, n ∈ notes ↔ ∃ id p, pending_inputs_by_tx pp !! id = Some p ∧
                           due now (ttl_check pp) id ∧ note_of p = Some n.
Proof.
  intros [Ht Hw Hu Htm Hs]. unfold expire_transactions.
  assert (StronglySorted Z.le (reverse (ttl_check pp)).*1) as Hs'.
  { rewrite fmap_reverse. by apply sorted_reverse. }
  assert (core_ok pp) as Hc by (split; [done|by split]).
  pose proof (expire_loop_ok now _ pp [] Hc Hs') as He.
  destruct (expire_loop now _ pp []) as [pp' notes].
  destruct He as ([Ht' [Hw' Hu']] & _ & Hq & Hp & new & -> & Hnd & Hnew).
  assert (∀ id, due now (reverse (ttl_check pp)) id ↔ due now (ttl_check pp) id) as Hdue
    by (intros id; apply due_perm, reverse_Permutation).
  setoid_rewrite Hdue in Hnew.
  assert (∀ id, pending_inputs_by_tx pp' !! id =
    if decide (due now (ttl_check pp) id) then None else pending_inputs_by_tx pp !! id) as Hp'.
  { intros id. rewrite Hp. by apply decide_ext. }
  split_and!; [|done..].
  assert (ttl_check pp' = filter (λ e, now < e.1) (ttl_check pp)) as Hq'.
  { by rewrite Hq, filter_reverse, reverse_involutive. }
  split; [done..| |rewrite Hq'; by apply sorted_filter].
  intros id. rewrite Hp'. case_decide as Hd; [by intros [? ?]|]. intros Hi.
  apply Htm, list_elem_of_fmap in Hi as ([t i] & -> & He). rewrite Hq'.
  apply (list_elem_of_fmap_2 snd _ (t, i)), list_elem_of_filter. split; [|done]. simpl.
  destruct (decide (now < t)); [done|]. destruct Hd. apply Exists_exists.
  exists (t, i). split; [done|]. simpl. split; [done|lia].
Qed.

(** ** The state machine *)

Inductive PendingOp :=
| PendInsert (tx : PoolTransaction) (source : Src) (missing : list MissingInput) (now : Z)
| PendKnown (outs : list (UtxoId * Output))
| PendKnownBlock (txs : list (list Output * TxId))
| PendExpire (now : Z).

Definition pending_step (op : PendingOp) pp : PendingPool Src :=
  match op with
  | PendInsert tx source missing now => insert_transaction tx source missing now pp
  | PendKnown outs => (new_known_tx outs pp).1
  | PendKnownBlock txs => (new_known_txs txs pp).1
  | PendExpire now => (expire_transactions now pp).1
  end.

Inductive pending_reachable (t : Z) : PendingPool Src → Prop :=
| pending_reach_new : pending_reachable t (PendingPool_new t)
| pending_reach_step op pp :
    pending_reachable t pp →
    match op with PendInsert tx _ missing now => insert_pre tx missing now pp | _ => True end →
    pending_reachable t (pending_step op pp).

Lemma pending_reachable_ok t pp : pending_reachable t pp → pending_ok pp.
Proof.
  induction 1 as [|op pp _ Hok Hop]; [apply pending_ok_new|].
  destruct op as [tx src missing now|outs|txs|now]; simpl.
  - by apply insert_transaction_ok.
  - by apply new_known_tx_ok.
  - destruct (new_known_txs_ok txs pp Hok) as (K & _ & ? & _). done.
  - pose proof (expire_ok now pp Hok) as He. destruct (expire_transactions now pp).
    by destruct He.
Qed.

(** ** Claims *)

(** From the empty pending pool, after any sequence of insertions, known
    transactions, imported blocks and expirations: a transaction waits under an input
    exactly when it is pending with that input missing, no empty waiting list is kept,
    every pending transaction has a timer, and the counts of transactions, bytes and
    gas are those of the pending transactions. *)
Theorem pending_pool_consistent t pp :
  pending_reachable t pp →
  (∀ m id, waits pp m id ↔
     ∃ p, pending_inputs_by_tx pp !! id = Some p ∧ m ∈ missing_inputs p) ∧
  (∀ m ids, pending_txs_by_inputs pp !! m = Some ids → ids ≠ ∅) ∧
  (∀ id, is_Some (pending_inputs_by_tx pp !! id) → id ∈ (ttl_check pp).*2) ∧
  current_txs pp = Z.of_nat (size (pending_inputs_by_tx pp)) ∧
  current_bytes pp = map_sum (λ p, metered_bytes_size (pending_tx p)) (pending_inputs_by_tx pp) ∧
  pending_gas pp = map_sum (λ p, max_gas (pending_tx p)) (pending_inputs_by_tx pp).
Proof.
  intros Hr. destruct (pending_reachable_ok t pp Hr) as [[_ ? ? ?] ? ? ? _]. done.
Qed.

(** When outputs become known, the pending pool hands back exactly the
    transactions all of whose missing inputs are now known, each once and with the
    source it came from; of every other one it keeps exactly the inputs still
    missing. *)
Theorem known_outputs_release t outs pp :
  pending_reachable t pp →
  let '(pp', res) := new_known_tx outs pp in
  (∀ id, pending_inputs_by_tx pp' !! id = pending_inputs_by_tx pp !! id ≫= after (known_of outs)) ∧
  (∀ tx s, (tx, s) ∈ res ↔
     ∃ p, pending_inputs_by_tx pp !! tx_id tx = Some p ∧ pending_tx p = tx ∧
          insertion_source p = s ∧ ∀ m, m ∈ missing_inputs p → m ∈ known_of outs) ∧
  NoDup (tx_id <$> res.*1).
Proof.
  intros Hr%pending_reachable_ok. destruct (new_known_tx_ok outs pp Hr) as [Hpg _].
  apply (progress_ext _ _ (λ _, known_of outs)) in Hpg.
  - destruct (new_known_tx outs pp) as [pp' res]. destruct Hpg as [_ Hp Hres Ho _].
    split_and!; [done| |done]. intros tx s. rewrite Hres. by setoid_rewrite after_None.
  - intros id p _. unfold after. rewrite app_nil_r.
    rewrite (list_filter_iff _ (λ i, i ∉ known_of outs)); [done|]. intros i.
    by rewrite elem_of_reverse.
Qed.

(** The expiry pass removes exactly the pending transactions one of whose timers
    is over, leaves the others as they are, and reports each removed one once, to the
    source it came from and with its first missing input as the error. *)
Theorem expiry_exact t now pp :
  pending_reachable t pp →
  let '(pp', notes) := expire_transactions now pp in
  (∀ id, pending_inputs_by_tx pp' !! id =
         if decide (due now (ttl_check pp) id) then None else pending_inputs_by_tx pp !! id) ∧
  NoDup notes.*1.*1 ∧
  ∀ id e s, (id, e, s) ∈ notes ↔
    ∃ p m, pending_inputs_by_tx pp !! id = Some p ∧ due now (ttl_check pp) id ∧
           head (missing_inputs p) = Some m ∧ e = missing_input_error m ∧ s = insertion_source p.
Proof.
  intros Hr%pending_reachable_ok. pose proof (expire_ok now pp Hr) as He.
  destruct (expire_transactions now pp) as [pp' notes]. destruct He as (_ & Hp & Hnd & Hn).
  split_and!; [done..|]. intros id e s. rewrite Hn. split.
  - intros (i & p & Hi & Hd & (m & Hm & [= <- <- <-])%bind_Some).
    destruct (pt_keyed _ (po_totals _ Hr) _ _ Hi) as (-> & _). eauto 10.
  - intros (p & m & Hi & Hd & Hm & -> & ->). exists id, p. split_and!; [done..|].
    destruct (pt_keyed _ (po_totals _ Hr) _ _ Hi) as (Hk & _). unfold note_of.
    by rewrite Hm, <- Hk.
Qed.
End pending_facts.

Module SamplePending.

Definition waiting : PoolTransaction := sample_tx 2 5 [sample_coin (1, 0)] [].
Definition pool0 : PendingPool unit := PendingPool_new 10.
Definition pool1 : PendingPool unit :=
  pending_step (PendInsert waiting () [MissingUtxo (1, 0)] 100) pool0.

Lemma pool1_reachable : pending_reachable 10 pool1.
Proof.
  apply (pending_reach_step 10 (PendInsert waiting () [MissingUtxo (1, 0)] 100) pool0);
    [constructor|]. split; [done..| |constructor]. vm_compute. by repeat split.
Qed.

Lemma pending_pool_consistent_witness :
  pending_reachable 10 pool1 ∧ current_txs pool1 = Z.of_nat (size (pending_inputs_by_tx pool1)).
Proof.
  split; [exact pool1_reachable|].
  exact (proj1 (proj2 (proj2 (proj2 (pending_pool_consistent 10 pool1 pool1_reachable))))).
Defined.

Lemma known_outputs_release_witness :
  pending_reachable 10 pool1 ∧
  (new_known_tx [((1, 0), OutputCoin 7 100 0)] pool1).2 = [(waiting, ())] ∧
  pending_inputs_by_tx (new_known_tx [((1, 0), OutputCoin 7 100 0)] pool1).1 !! 2 =
    pending_inputs_by_tx pool1 !! 2 ≫= after (known_of [((1, 0), OutputCoin 7 100 0)]).
Proof.
  pose proof (known_outputs_release 10 [((1, 0), OutputCoin 7 100 0)] pool1 pool1_reachable) as T.
  split; [exact pool1_reachable|]. split; [by vm_compute|].
  destruct (new_known_tx _ pool1) as [pp' res]. exact (proj1 T 2).
Defined.

Lemma expiry_exact_witness :
  pending_reachable 10 pool1 ∧
  (expire_transactions 110 pool1).2 = [(2, missing_input_error (MissingUtxo (1, 0)), ())] ∧
  NoDup (expire_transactions 110 pool1).2.*1.*1.
Proof.
  pose proof (expiry_exact 10 110 pool1 pool1_reachable) as T.
  split; [exact pool1_reachable|]. split; [by vm_compute|].
  destruct (expire_transactions 110 pool1) as [pp' notes]. exact (proj1 (proj2 T)).
Defined.

(** Without the freshness the invariant asks of the caller, the totals drift: a
    transaction submitted twice while it waits is counted twice and released once, so
    the totals of the empty pool are no longer zero. *)
Example resubmission_leaks :
  let pp := (expire_transactions 1000
    (pending_step (PendInsert waiting () [MissingUtxo (1, 0)] 101) pool1)).1 in
  pending_inputs_by_tx pp = ∅ ∧ ttl_check pp = [] ∧
  current_txs pp = 1 ∧ current_bytes pp = 20 ∧ pending_gas pp = 10.
Proof. vm_compute. by repeat split. Qed.

End SamplePending.
