(* ===== verification/TxPoolWorker.v ===== *)
(** * The worker that owns the pools

    Model of [PoolWorker] (txpool_v2/src/pool_worker.rs): the thread that runs every
    request on the pool and on the pending pool.  What a request reads from the
    outside, the latest view of the database and the clock, is an argument; what it
    sends on a channel is appended to an output list.  A channel that is full loses
    what is sent to it; this is not modelled. *)

From stdpp Require Import prelude gmap list strings sorting.
From Stdlib Require Import ZArith Lia.
From S2P Require Import Prelude.
From S2P Require Import TxTypes.
From S2P Require Import TxPoolTypes.
From S2P Require Import TxPoolSpent.
From S2P Require Import TxPoolExtracted.
From S2P Require Import TxPoolCollision.
From S2P Require Import TxPoolGraph.
From S2P Require Import TxPoolSelection.
From S2P Require Import TxPoolPool.
From S2P Require Import TxPoolPending.
Local Open Scope Z_scope.

Section worker.
Context {G Idx C : Type} `{Countable Idx} `{!StableDiGraph G Idx} `{!HashOrder Idx} `{!LruCache C}.
(** The peer that gossiped a transaction and the channel that answers a request. *)
Context {Peer Chan : Type} `{!HashOrder TxId}.

Inductive InsertionSource :=
| P2P (from_peer_info : Peer)
| RPC (response_channel : option Chan).

Inductive ExtendedInsertionSource :=
| ExtP2P (from_peer_info : Peer)
| ExtRPC (tx : PoolTransaction) (response_channel : option Chan).

Inductive PoolNotification :=
| Inserted (id : TxId) (time : Z) (expiration : Z) (source : ExtendedInsertionSource)
| InsertionFailed (id : TxId) (error : Error) (source : InsertionSource).

Inductive PreConfirmationStatus :=
| PreconfSuccess (block_height : Z) (resolved_outputs : option (list (UtxoId * Output)))
| PreconfFailure (block_height : Z) (resolved_outputs : option (list (UtxoId * Output)))
| PreconfSqueezedOut (reason : string).

Record PoolWorker := {
  worker_pool : Pool G Idx C;
  pending_pool : PendingPool InsertionSource;
  tentative_preconfs : gmap Z (gset TxId);
  current_canonical_height : Z;
  (** sent on [notification_sender] *)
  notifications : list PoolNotification;
  (** sent on [tx_insert_from_pending_sender] *)
  insert_requests : list (PoolTransaction * InsertionSource);
}.

Definition PoolWorker_new (cfg : PoolConfig) (initial_block_height : Z) : PoolWorker :=
  {| worker_pool := Pool_new cfg; pending_pool := PendingPool_new (pending_pool_tx_ttl cfg);
     tentative_preconfs := ∅; current_canonical_height := initial_block_height;
     notifications := []; insert_requests := [] |}.

Definition set_pool (p : Pool G Idx C) (w : PoolWorker) : PoolWorker :=
  {| worker_pool := p; pending_pool := pending_pool w; tentative_preconfs := tentative_preconfs w;
     current_canonical_height := current_canonical_height w; notifications := notifications w;
     insert_requests := insert_requests w |}.
Definition set_pending_pool (pp : PendingPool InsertionSource) (w : PoolWorker) : PoolWorker :=
  {| worker_pool := worker_pool w; pending_pool := pp; tentative_preconfs := tentative_preconfs w;
     current_canonical_height := current_canonical_height w; notifications := notifications w;
     insert_requests := insert_requests w |}.
Definition set_tentative (m : gmap Z (gset TxId)) (w : PoolWorker) : PoolWorker :=
  {| worker_pool := worker_pool w; pending_pool := pending_pool w; tentative_preconfs := m;
     current_canonical_height := current_canonical_height w; notifications := notifications w;
     insert_requests := insert_requests w |}.
Definition set_height (h : Z) (w : PoolWorker) : PoolWorker :=
  {| worker_pool := worker_pool w; pending_pool := pending_pool w;
     tentative_preconfs := tentative_preconfs w; current_canonical_height := h;
     notifications := notifications w; insert_requests := insert_requests w |}.
Definition notify (l : list PoolNotification) (w : PoolWorker) : PoolWorker :=
  {| worker_pool := worker_pool w; pending_pool := pending_pool w;
     tentative_preconfs := tentative_preconfs w;
     current_canonical_height := current_canonical_height w;
     notifications := notifications w ++ l; insert_requests := insert_requests w |}.
Definition request_inserts (l : list (PoolTransaction * InsertionSource)) (w : PoolWorker) :
    PoolWorker :=
  {| worker_pool := worker_pool w; pending_pool := pending_pool w;
     tentative_preconfs := tentative_preconfs w;
     current_canonical_height := current_canonical_height w; notifications := notifications w;
     insert_requests := insert_requests w ++ l |}.

(** ** Insertion *)

Definition percentage (cfg : PoolConfig) (limit : Z) : Z :=
  sat_mul U64 limit (max_pending_pool_size_percentage cfg) / 100.

Definition has_enough_space_in_pools (tx : PoolTransaction) (w : PoolWorker) : bool :=
  let p := worker_pool w in
  let pp := pending_pool w in
  let limits := pool_limits (config p) in
  let tx_gas := max_gas tx in
  let bytes_size := metered_bytes_size tx in
  if bool_decide (sat_add U64 (current_gas p) tx_gas > limit_max_gas limits) ||
     bool_decide (sat_add U64 (current_bytes_size p) bytes_size > max_bytes_size limits) ||
     bool_decide (sat_add U64 (tx_count p) 1 > max_txs limits)
  then false
  else if bool_decide (sat_add U64 (pending_gas pp) tx_gas > percentage (config p) (limit_max_gas limits)) ||
     bool_decide (sat_add U64 (current_bytes pp) bytes_size > percentage (config p) (max_bytes_size limits)) ||
     bool_decide (sat_add U64 (current_txs pp) 1 > percentage (config p) (max_txs limits))
  then false
  else true.

(** What one insertion reads: [latest_view()] and the clock. *)
Record Env := { env_view : result TxPoolPersistentStorage string; env_now : Z }.

Definition extended_source (id : TxId) (source : InsertionSource) (p : Pool G Idx C) :
    option ExtendedInsertionSource :=
  match source with
  | P2P peer => Some (ExtP2P peer)
  | RPC chan => d ← pool_get p id; Some (ExtRPC (transaction d) chan)
  end.

Definition worker_insert (env : Env) (tx : PoolTransaction) (source : InsertionSource)
    (w : PoolWorker) : option PoolWorker :=
  match env_view env with
  | Err err => Some (notify [InsertionFailed (tx_id tx) (ErrDatabase err) source] w)
  | Ok view =>
      '(p, res) ← TxPoolPool.insert tx view (env_now env) (worker_pool w);
      let w := set_pool p w in
      match res with
      | Ok _ =>
          ext ← extended_source (tx_id tx) source p;
          let w := notify [Inserted (tx_id tx) (env_now env) (expiration tx) ext] w in
          let '(pp, resolved) :=
            new_known_tx (utxo_ids_with_outputs (outputs tx) (tx_id tx)) (pending_pool w) in
          Some (request_inserts resolved (set_pending_pool pp w))
      | Err (InsertionMissingInputs []) => Some w
      | Err (InsertionMissingInputs (missing :: _ as missing_inputs)) =>
          if has_enough_space_in_pools tx w
          then Some (set_pending_pool
                 (insert_transaction tx source missing_inputs (env_now env) (pending_pool w)) w)
          else Some (notify [InsertionFailed (tx_id tx) (missing_input_error missing) source] w)
      | Err (InsertionError error) => Some (notify [InsertionFailed (tx_id tx) error source] w)
      end
  end.

(** [for (tx, source) in resolved { self.insert(tx, source); }]; the insertion
    number [i] reads [env i]. *)
Fixpoint worker_inserts (env : nat → Env) (l : list (PoolTransaction * InsertionSource))
    (w : PoolWorker) : option PoolWorker :=
  match l with
  | [] => Some w
  | (tx, source) :: l =>
      w ← worker_insert (env 0%nat) tx source w;
      worker_inserts (env ∘ S) l w
  end.

(** ** Blocks *)

Record ImportResult := {
  ir_height : Z;
  (** the ids of [tx_status] *)
  ir_tx_ids : list TxId;
  (** the outputs of the transactions of the block *)
  ir_outputs : list (list Output);
}.

(** [tentative_preconfs.range(..=height)], in the order of the [BTreeMap]. *)
Definition stale_heights (height : Z) (m : gmap Z (gset TxId)) : list Z :=
  merge_sort Z.le (elements (filter (λ h, h ≤ height) (dom m))).

Definition reconcile_one (confirmed : gset TxId) (id : TxId) (w : PoolWorker) : option PoolWorker :=
  let p := worker_pool w in
  if decide (id ∈ confirmed)
  then Some (set_pool (set_outputs_inputs (extracted_outputs p)
                         (confirm_tentative_spend id (TxPoolPool.spent_inputs p)) p) w)
  else p ← rollback_preconfirmed_transaction id p; Some (set_pool p w).

Fixpoint reconcile_txs (confirmed : gset TxId) (ids : list TxId) (w : PoolWorker) :
    option PoolWorker :=
  match ids with
  | [] => Some w
  | id :: ids => w ← reconcile_one confirmed id w; reconcile_txs confirmed ids w
  end.

Fixpoint reconcile (confirmed : gset TxId) (heights : list Z) (w : PoolWorker) : option PoolWorker :=
  match heights with
  | [] => Some w
  | h :: heights =>
      match tentative_preconfs w !! h with
      | None => reconcile confirmed heights w
      | Some ids =>
          let w := set_tentative (delete h (tentative_preconfs w)) w in
          w ← reconcile_txs confirmed (hs_iter ids) w;
          reconcile confirmed heights w
      end
  end.

Definition execute_outputs (ids : list TxId) (p : Pool G Idx C) : Pool G Idx C :=
  set_outputs_inputs (foldl (λ eo id, new_executed_transaction id eo) (extracted_outputs p) ids)
    (TxPoolPool.spent_inputs p) p.

(** [process_block] up to the insertion of the resolved transactions. *)
Definition settle_block (block : ImportResult) (w : PoolWorker) :
    option (PoolWorker * list (PoolTransaction * InsertionSource)) :=
  let w := set_height (Z.max (current_canonical_height w) (ir_height block)) w in
  let confirmed : gset TxId := list_to_set (ir_tx_ids block) in
  let p := process_committed_transactions (hs_iter confirmed) (worker_pool w) in
  let w := set_pool (execute_outputs (ir_tx_ids block) p) w in
  w ← reconcile confirmed (stale_heights (ir_height block) (tentative_preconfs w)) w;
  let '(pp, resolved) :=
    new_known_txs (zip (ir_outputs block) (ir_tx_ids block)) (pending_pool w) in
  Some (set_pending_pool pp w, resolved).

Definition process_block (env : nat → Env) (block : ImportResult) (w : PoolWorker) :
    option PoolWorker :=
  '(w, resolved) ← settle_block block w;
  worker_inserts env resolved w.

(** ** Preconfirmations *)

Definition preconf_height (status : PreConfirmationStatus) : option Z :=
  match status with
  | PreconfSuccess h _ | PreconfFailure h _ => Some h
  | PreconfSqueezedOut _ => None
  end.

Definition track (height : Z) (id : TxId) (w : PoolWorker) : PoolWorker :=
  set_tentative (<[height := {[id]} ∪ default ∅ (tentative_preconfs w !! height)]>
                   (tentative_preconfs w)) w.

(** The part [Success] and [Failure] share, up to the insertion of the resolved
    transactions. *)
Definition apply_preconf (id : TxId) (height : Z)
    (resolved_outputs : option (list (UtxoId * Output))) (w : PoolWorker) :
    PoolWorker * list (PoolTransaction * InsertionSource) :=
  let w := set_pool (process_preconfirmed_committed_transaction id (worker_pool w)) w in
  let w := track height id w in
  match resolved_outputs with
  | None => (w, [])
  | Some outs =>
      let '(pp, resolved) := new_known_tx outs (pending_pool w) in
      let w := set_pending_pool pp w in
      let p := worker_pool w in
      (set_pool (set_outputs_inputs (new_extracted_outputs outs (extracted_outputs p))
                   (TxPoolPool.spent_inputs p) p) w, resolved)
  end.

Definition is_late (status : PreConfirmationStatus) (w : PoolWorker) : bool :=
  from_option (λ h, bool_decide (h ≤ current_canonical_height w)) false (preconf_height status).

Definition settle_preconf (id : TxId) (status : PreConfirmationStatus) (w : PoolWorker) :
    option (PoolWorker * list (PoolTransaction * InsertionSource)) :=
  if is_late status w then Some (w, [])
  else
    match status with
    | PreconfSuccess height outs => Some (apply_preconf id height outs w)
    | PreconfFailure height outs => Some (apply_preconf id height outs w)
    | PreconfSqueezedOut reason =>
        p ← remove_skipped_transaction id reason (worker_pool w); Some (set_pool p w, [])
    end.

Definition process_preconfirmed_transaction (env : nat → Env) (id : TxId)
    (status : PreConfirmationStatus) (w : PoolWorker) : option PoolWorker :=
  '(w, resolved) ← settle_preconf id status w;
  worker_inserts env resolved w.

(** ** The other requests *)

Definition extract_block_transactions (c : Constraints) (w : PoolWorker) :
    option (list PoolTransaction * PoolWorker) :=
  '(txs, p) ← extract_transactions_for_block c (worker_pool w); Some (txs, set_pool p w).

Definition remove_expired_transactions (ids : list TxId) (w : PoolWorker) : option PoolWorker :=
  p ← remove_transactions_and_dependents ids (ErrRemoved Ttl) (worker_pool w); Some (set_pool p w).

Definition get_txs (ids : list TxId) (w : PoolWorker) : list (option (PoolTransaction * Z)) :=
  (λ id, (λ d, (transaction d, creation_instant d)) <$> pool_get (worker_pool w) id) <$> ids.

Definition get_non_existing_txs (ids : list TxId) (w : PoolWorker) : list TxId :=
  filter (λ id, contains (worker_pool w) id = false) ids.

Definition expire_pending (now : Z) (w : PoolWorker) : PoolWorker :=
  let '(pp, notes) := expire_transactions now (pending_pool w) in
  notify ((λ '(id, error, source), InsertionFailed id error source) <$> notes)
    (set_pending_pool pp w).

(** One turn of [run]: the request [select!] took. *)
Inductive WorkerEvent :=
| EvExtract (c : Constraints)
| EvPreconf (env : nat → Env) (id : TxId) (status : PreConfirmationStatus)
| EvBlock (env : nat → Env) (block : ImportResult)
| EvExpired (ids : list TxId)
| EvInsert (env : Env) (tx : PoolTransaction) (source : InsertionSource)
| EvTick (now : Z).

Definition worker_step (e : WorkerEvent) (w : PoolWorker) : option PoolWorker :=
  match e with
  | EvExtract c => snd <$> extract_block_transactions c w
  | EvPreconf env id status => process_preconfirmed_transaction env id status w
  | EvBlock env block => process_block env block w
  | EvExpired ids => remove_expired_transactions ids w
  | EvInsert env tx source => worker_insert env tx source w
  | EvTick now => Some (expire_pending now w)
  end.
End worker.
Arguments PoolWorker : clear implicits.
Arguments PoolWorker G Idx C Peer Chan : assert.
