(* ===== verification/TxPoolWorkerFacts.v ===== *)
(** * What the worker guarantees

    Under the conditions of [event_ok] every request the worker takes keeps the pool
    consistent and returns; late
    preconfirmations are never tracked, and the import of a block settles every
    preconfirmation up to its height. *)

From stdpp Require Import prelude gmap list strings sorting.
From Stdlib Require Import ZArith Lia.
From S2P Require Import Prelude.
From S2P Require Import TxTypes.
From S2P Require Import TxPoolTypes.
From S2P Require Import TxPoolSpent.
From S2P Require Import TxPoolExtracted.
From S2P Require Import TxPoolCollision.
From S2P Require Import TxPoolGraph.
From S2P Require Import TxPoolGraphFacts.
From S2P Require Import TxPoolGraphSpec.
From S2P Require Import TxPoolSelection.
From S2P Require Import TxPoolSelectionFacts.
From S2P Require Import TxPoolPool.
From S2P Require Import TxPoolPoolFacts.
From S2P Require Import TxPoolInsertFacts.
From S2P Require Import TxPoolSpec.
From S2P Require Import TxPoolPending.
From S2P Require Import TxPoolWorker.
Local Open Scope Z_scope.

Section ledger.
Context {G Idx C : Type} `{Countable Idx} `{!StableDiGraph G Idx}.
Context `{!HashOrder Idx} `{!LruCache C}.
Implicit Types (p : Pool G Idx C).

(** ** The outputs and the spent inputs the pool remembers

    Removals and insertions of pool transactions do not touch them. *)

Definition ledger p : ExtractedOutputs * SpentInputs C :=
  (extracted_outputs p, TxPoolPool.spent_inputs p).

Lemma ledger_removed l p : ledger (update_components_and_caches_on_removal l p) = ledger p.
Proof.
  unfold update_components_and_caches_on_removal. revert p.
  induction l as [|d l IH]; intros p; [done|]. cbn [foldl]. by rewrite IH.
Qed.

Lemma ledger_squeeze l r p : ledger (squeeze_out l r p) = ledger p.
Proof. by destruct l. Qed.

Lemma ledger_subtree p i r p' : remove_subtree p i = Some (r, p') → ledger p' = ledger p.
Proof.
  unfold remove_subtree. intros ([removed s] & _ & [= <- <-])%bind_Some. by rewrite ledger_removed.
Qed.

Lemma ledger_subtrees ids acc p r p' :
  remove_subtrees ids acc p = Some (r, p') → ledger p' = ledger p.
Proof.
  revert acc p. induction ids as [|i ids IH]; intros acc p; cbn [remove_subtrees].
  { by intros [= <- <-]. }
  intros ([r1 p1] & Hr%ledger_subtree & Hrest%IH)%bind_Some. congruence.
Qed.

Lemma ledger_evict_all ids reason p p' : evict_all ids reason p = Some p' → ledger p' = ledger p.
Proof.
  revert p. induction ids as [|i ids IH]; intros p; cbn [evict_all]; [by intros [= <-]|].
  intros ([r1 p1] & Hr%ledger_subtree & Hrest%IH)%bind_Some. by rewrite Hrest, ledger_squeeze.
Qed.

Lemma ledger_evict_users ids reason p p' : evict_users ids reason p = Some p' → ledger p' = ledger p.
Proof.
  revert p. induction ids as [|i ids IH]; intros p; cbn [evict_users]; [by intros [= <-]|].
  destruct (tx_id_to_storage_id p !! i); [|apply IH].
  intros ([r1 p1] & Hr%ledger_subtree & Hrest%IH)%bind_Some. by rewrite Hrest, ledger_squeeze.
Qed.

Lemma ledger_evict_contracts cs reason p p' :
  evict_contracts cs reason p = Some p' → ledger p' = ledger p.
Proof.
  revert p. induction cs as [|c cs IH]; intros p; cbn [evict_contracts]; [by intros [= <-]|].
  destruct (contract_created_in_pool _ c); [apply IH|].
  intros (p1 & Hr%ledger_evict_users & Hrest%IH)%bind_Some. congruence.
Qed.

Lemma ledger_rollback id p p' :
  rollback_preconfirmed_transaction id p = Some p' →
  ledger p' = (new_skipped_transaction id (extracted_outputs p),
               unspend_preconfirmed id (TxPoolPool.spent_inputs p)).
Proof.
  unfold rollback_preconfirmed_transaction.
  intros (p1 & H1%ledger_evict_all & (p2 & H2%ledger_evict_contracts & [= <-])%bind_Some)%bind_Some.
  change (ledger (update_stats p2)) with (ledger p2). by rewrite H2, H1.
Qed.

Lemma ledger_insert tx ps now p p' r :
  TxPoolPool.insert tx ps now p = Some (p', r) → ledger p' = ledger p.
Proof.
  unfold TxPoolPool.insert. destruct (is_spent_tx _ _); [by intros [= <- <-]|].
  destruct (ps_contains_tx ps (tx_id tx)) as [[]|e]; [by intros [= <- <-]| |by intros [= <- <-]].
  unfold insert_inner. intros (c & _ & Hc)%bind_Some. destruct c as [can|e]; [|by injection Hc as <- <-].
  apply bind_Some in Hc as ([r1 p1] & H1%ledger_subtrees & Hc).
  apply bind_Some in Hc as ([r2 p2] & H2%ledger_subtrees & Hc).
  apply bind_Some in Hc as (p3 & H3 & [= <- <-]).
  change (ledger (update_stats ?q)) with (ledger q). rewrite ledger_squeeze, <- H1, <- H2.
  unfold store_checked in H3. destruct (store_transaction _ _ _) as [i s].
  apply bind_Some in H3 as (d & _ & H3). by case_decide; injection H3 as <-.
Qed.
End ledger.

Section worker_facts.
Context {G Idx C Peer Chan : Type} `{Countable Idx} `{!StableDiGraph G Idx} `{!StableDiGraphSpec G Idx}.
Context `{!HashOrder Idx} `{!LruCache C} `{!HashOrder TxId}.
Implicit Types (w : PoolWorker G Idx C Peer Chan) (p : Pool G Idx C).

(** ** Invariant *)

Record worker_ok (cfg : PoolConfig) w : Prop := {
  wo_pool : pool_ok (worker_pool w);
  wo_config : config (worker_pool w) = cfg;
  wo_heights h ids : tentative_preconfs w !! h = Some ids → current_canonical_height w < h;
}.

(** What a call that works on the pools leaves as it was. *)
Record same_chain w w' : Prop := {
  sc_tentative : tentative_preconfs w' = tentative_preconfs w;
  sc_height : current_canonical_height w' = current_canonical_height w;
}.

Lemma inserted_get p tx now p' : inserted p tx now p' → is_Some (pool_get p' (tx_id tx)).
Proof.
  intros [[_ Hc] _ [n Hn] _]. unfold pool_get.
  assert (tx_id_to_storage_id p' !! tx_id tx = Some n) as ->.
  { apply (co_ids _ _ _ Hc). by exists (tx, now). }
  cbn [mbind option_bind]. apply info_lookup in Hn as (d & Hd & _). unfold get.
  rewrite g_weight_spec. unfold nodes in Hd. by rewrite Hd.
Qed.

Lemma worker_insert_ok cfg env tx source w :
  worker_ok cfg w → fits (worker_pool w) tx →
  ∃ w', worker_insert env tx source w = Some w' ∧ worker_ok cfg w' ∧ same_chain w w' ∧
        ledger (worker_pool w') = ledger (worker_pool w).
Proof.
  intros [Hok Hcf Hh] Hfit. unfold worker_insert. destruct (env_view env) as [view|e].
  2: { eexists. split_and!; [done|by split..|done]. }
  destruct (insert_ok tx view (env_now env) (worker_pool w) Hok Hfit) as (p' & r & Hi & Hr).
  pose proof (ledger_insert _ _ _ _ _ _ Hi) as Hl.
  rewrite Hi. cbn [mbind option_bind].
  assert (pool_ok p' ∧ config p' = cfg) as [Hok' Hcf'].
  { destruct r; [destruct Hr; split; congruence|by subst p']. }
  destruct r as [[]|[err|[|m l]]].
  - destruct (inserted_get _ _ _ _ Hr) as [d Hd].
    assert (∃ ext, extended_source (tx_id tx) source p' = Some ext) as [ext ->].
    { destruct source; simpl; [eauto|]. rewrite Hd. simpl. eauto. }
    cbn [mbind option_bind]. destruct (new_known_tx _ _) as [pp res].
    eexists. split_and!; [done|by split..|done].
  - eexists. split_and!; [done|by split..|done].
  - eexists. split_and!; [done|by split..|done].
  - destruct (has_enough_space_in_pools _ _); eexists; (split_and!; [done|by split..|done]).
Qed.

(** Each of the transactions fits when its turn comes. *)
Fixpoint inserts_fit (env : nat → Env) (l : list (PoolTransaction * InsertionSource)) w : Prop :=
  match l with
  | [] => True
  | (tx, source) :: l =>
      fits (worker_pool w) tx ∧
      ∀ w', worker_insert (env 0%nat) tx source w = Some w' → inserts_fit (env ∘ S) l w'
  end.

Lemma worker_inserts_ok cfg env l w :
  worker_ok cfg w → inserts_fit env l w →
  ∃ w', worker_inserts env l w = Some w' ∧ worker_ok cfg w' ∧ same_chain w w' ∧
        ledger (worker_pool w') = ledger (worker_pool w).
Proof.
  revert env w. induction l as [|[tx source] l IH]; intros env w Hok Hfit; simpl.
  { exists w. split_and!; [done..|by split|done]. }
  destruct Hfit as [Hf Hrest].
  destruct (worker_insert_ok cfg (env 0%nat) tx source w Hok Hf) as (w1 & Hw1 & Hok1 & [Ht Hh] & Hl).
  rewrite Hw1. cbn [mbind option_bind]. destruct (IH (env ∘ S) w1 Hok1 (Hrest w1 Hw1))
    as (w' & Hw' & Hok' & [Ht' Hh'] & Hl').
  exists w'. split_and!; [done..|split; congruence|congruence].
Qed.

(** ** Reconciliation *)

(** The preconfirmation of [id] is settled: its spends are no longer tentative, and
    unless it is in the block nothing of it is remembered. *)
Definition settled (confirmed : gset TxId) (id : TxId) (l : ExtractedOutputs * SpentInputs C) : Prop :=
  tentative_spent l.2 !! id = None ∧
  (id ∉ confirmed → is_spent_tx id l.2 = false ∧ ∀ i, coin_at l.1 (id, i) = None).

Lemma reconcile_one_ok confirmed id w :
  pool_ok (worker_pool w) →
  ∃ w', reconcile_one confirmed id w = Some w' ∧ pool_ok (worker_pool w') ∧
    config (worker_pool w') = config (worker_pool w) ∧ same_chain w w' ∧
    ledger (worker_pool w') =
      if decide (id ∈ confirmed)
      then (extracted_outputs (worker_pool w),
            confirm_tentative_spend id (TxPoolPool.spent_inputs (worker_pool w)))
      else (new_skipped_transaction id (extracted_outputs (worker_pool w)),
            unspend_preconfirmed id (TxPoolPool.spent_inputs (worker_pool w))).
Proof.
  intros Hok. unfold reconcile_one. case_decide.
  - eexists. split_and!; [done|by apply pool_ok_outputs|done|by split|done].
  - destruct (rollback_ok id (worker_pool w) Hok) as (p' & Hp & [Hok' _ Hcf]). rewrite Hp.
    eexists. split_and!; [done|done|done|by split|by apply ledger_rollback].
Qed.

Context `{!LruCacheSpec C}.

Lemma settled_step confirmed id id' (l : ExtractedOutputs * SpentInputs C) :
  let l' := if decide (id' ∈ confirmed) then (l.1, confirm_tentative_spend id' l.2)
            else (new_skipped_transaction id' l.1, unspend_preconfirmed id' l.2) in
  id = id' ∨ settled confirmed id l → settled confirmed id l'.
Proof.
  destruct l as [eo si]. cbn [fst snd]. intros Hor. unfold settled in *.
  destruct (decide (id' ∈ confirmed)) as [Hin|Hin]; cbn [fst snd] in *.
  - unfold confirm_tentative_spend, is_spent_tx. simpl. split.
    + destruct Hor as [->|[Ht _]]; [apply lookup_delete_eq|]. apply lookup_delete_None. auto.
    + intros Hn. destruct Hor as [->|[_ Ht]]; [done|]. by apply Ht.
  - unfold unspend_preconfirmed, is_spent_tx. simpl. split.
    + destruct Hor as [->|[Ht _]]; [apply lookup_delete_eq|]. apply lookup_delete_None. auto.
    + intros Hn. split.
      * assert (lru_contains (KeyTx id) (lru_pop (KeyTx id') (TxPoolSpent.spent_inputs si)) = false) as Hp.
        { rewrite lru_contains_pop. destruct Hor as [->|[_ Ht]].
          - by rewrite bool_decide_false by tauto.
          - destruct (Ht Hn) as [Hs _]. unfold is_spent_tx in Hs. by rewrite Hs, andb_false_r. }
        destruct (tentative_spent si !! id'); [|done]. by rewrite lru_contains_pop_all, Hp, andb_false_r.
      * intros i. unfold coin_at. simpl. destruct (decide (id' = id)) as [->|Hne].
        { by rewrite lookup_delete_eq. }
        rewrite lookup_delete_ne by done. destruct Hor as [->|[_ Ht]]; [done|]. by apply (Ht Hn).
Qed.

Lemma reconcile_txs_ok confirmed ids w :
  pool_ok (worker_pool w) →
  ∃ w', reconcile_txs confirmed ids w = Some w' ∧ pool_ok (worker_pool w') ∧
    config (worker_pool w') = config (worker_pool w) ∧ same_chain w w' ∧
    ∀ id, id ∈ ids ∨ settled confirmed id (ledger (worker_pool w)) →
          settled confirmed id (ledger (worker_pool w')).
Proof.
  revert w. induction ids as [|id ids IH]; intros w Hok; cbn [reconcile_txs].
  { exists w. split_and!; [done..|by split|]. by intros id [?%not_elem_of_nil|]. }
  destruct (reconcile_one_ok confirmed id w Hok) as (w1 & -> & Hok1 & Hcf1 & [Ht1 Hh1] & Hl1).
  cbn [mbind option_bind]. destruct (IH w1 Hok1) as (w' & -> & Hok' & Hcf' & [Ht Hh] & Hs).
  exists w'. split_and!; [done|done|congruence|split; congruence|].
  intros i Hi. apply Hs. rewrite elem_of_cons in Hi.
  destruct (decide (i ∈ ids)) as [|Hn]; [by left|right]. rewrite Hl1.
  apply (settled_step confirmed i id (ledger (worker_pool w))). naive_solver.
Qed.

Lemma reconcile_ok confirmed hs w :
  NoDup hs → pool_ok (worker_pool w) →
  ∃ w', reconcile confirmed hs w = Some w' ∧ pool_ok (worker_pool w') ∧
    config (worker_pool w') = config (worker_pool w) ∧
    current_canonical_height w' = current_canonical_height w ∧
    (∀ h, tentative_preconfs w' !! h =
          if decide (h ∈ hs) then None else tentative_preconfs w !! h) ∧
    ∀ id, (∃ h ids, h ∈ hs ∧ tentative_preconfs w !! h = Some ids ∧ id ∈ ids) ∨
          settled confirmed id (ledger (worker_pool w)) →
          settled confirmed id (ledger (worker_pool w')).
Proof.
  intros Hnd. revert w. induction Hnd as [|h hs Hh Hnd IH]; intros w Hok; cbn [reconcile].
  { exists w. split_and!; try done. by intros id [(? & ? & ?%not_elem_of_nil & _)|]. }
  destruct (tentative_preconfs w !! h) as [ids|] eqn:Ht.
  - set (w0 := set_tentative _ w).
    destruct (reconcile_txs_ok confirmed (hs_iter ids) w0 Hok)
      as (w1 & -> & Hok1 & Hcf1 & [Ht1 Hh1] & Hs1).
    cbn [mbind option_bind]. destruct (IH w1 Hok1) as (w' & -> & Hok' & Hcf' & Hh' & Ht' & Hs').
    exists w'. split_and!; [done|done|by rewrite Hcf', Hcf1|by rewrite Hh', Hh1| |].
    + intros k. rewrite Ht', Ht1. simpl. destruct (decide (k = h)) as [->|Hne].
      * rewrite (decide_False (P := h ∈ hs)), (decide_True (P := h ∈ h :: hs)) by set_solver.
        apply lookup_delete_eq.
      * rewrite lookup_delete_ne by done. apply decide_ext. set_solver.
    + intros id Hid. apply Hs'. destruct Hid as [(k & X & Hk & HX & Hin)|Hset].
      * destruct (decide (k = h)) as [->|Hne].
        -- right. apply Hs1. left. rewrite hs_iter_perm, elem_of_elements. congruence.
        -- left. exists k, X. rewrite Ht1. simpl. rewrite lookup_delete_ne by done. set_solver.
      * right. apply Hs1. by right.
  - destruct (IH w Hok) as (w' & -> & Hok' & Hcf' & Hh' & Ht' & Hs').
    exists w'. split_and!; [done..| |].
    + intros k. rewrite Ht'. destruct (decide (k = h)) as [->|Hne].
      * rewrite (decide_False (P := h ∈ hs)), (decide_True (P := h ∈ h :: hs)) by set_solver. done.
      * apply decide_ext. set_solver.
    + intros id [(k & X & Hk & HX & Hin)|Hset]; apply Hs'; [left|by right].
      exists k, X. split_and!; [|done..]. apply elem_of_cons in Hk as [->|]; [congruence|done].
Qed.

Lemma stale_heights_spec h (m : gmap Z (gset TxId)) :
  NoDup (stale_heights h m) ∧ ∀ k, k ∈ stale_heights h m ↔ is_Some (m !! k) ∧ k ≤ h.
Proof.
  unfold stale_heights. split.
  - rewrite merge_sort_Permutation. apply NoDup_elements.
  - intros k. rewrite merge_sort_Permutation, elem_of_elements, elem_of_filter, elem_of_dom. tauto.
Qed.

(** ** Requests *)

Lemma settle_block_ok cfg block w :
  worker_ok cfg w →
  commit_closed (storage (worker_pool w)) (hs_iter (list_to_set (ir_tx_ids block) : gset TxId)) →
  ∃ w' resolved, settle_block block w = Some (w', resolved) ∧ worker_ok cfg w' ∧
    current_canonical_height w' = Z.max (current_canonical_height w) (ir_height block) ∧
    (∀ h, tentative_preconfs w' !! h =
          if decide (h ≤ ir_height block) then None else tentative_preconfs w !! h) ∧
    ∀ h ids id, tentative_preconfs w !! h = Some ids → h ≤ ir_height block → id ∈ ids →
      settled (list_to_set (ir_tx_ids block)) id (ledger (worker_pool w')).
Proof.
  intros [Hok Hcf Hh] Hcl. unfold settle_block.
  set (confirmed := list_to_set (ir_tx_ids block)) in *.
  destruct (committed_ok _ _ Hok Hcl) as (Hok1 & Hcf1).
  set (w1 := set_pool (execute_outputs _ _) _).
  destruct (stale_heights_spec (ir_height block) (tentative_preconfs w1)) as [Hnd Hst].
  destruct (reconcile_ok confirmed _ w1 Hnd) as (w2 & -> & Hok2 & Hcf2 & Hh2 & Ht2 & Hs2);
    [by apply pool_ok_outputs|].
  cbn [mbind option_bind]. destruct (new_known_txs _ _) as [pp resolved].
  assert (∀ h, tentative_preconfs w2 !! h =
    if decide (h ≤ ir_height block) then None else tentative_preconfs w !! h) as Ht.
  { intros h. rewrite Ht2. change (tentative_preconfs w1) with (tentative_preconfs w) in *.
    destruct (decide (h ≤ ir_height block)) as [Hle|Hgt].
    - destruct (decide (h ∈ _)) as [|Hn]; [done|]. rewrite Hst in Hn.
      destruct (tentative_preconfs w !! h) eqn:E; [|done]. destruct Hn. split; [eauto|done].
    - rewrite decide_False; [done|]. rewrite Hst. tauto. }
  eexists _, _. split; [done|]. split_and!.
  - split; simpl; [done|rewrite Hcf2; simpl; congruence|]. intros h ids. rewrite Ht, Hh2. simpl.
    case_decide; [done|]. intros Hi%Hh. lia.
  - done.
  - done.
  - intros h ids id Hi Hle Hin. apply Hs2. left. exists h, ids. split_and!; [|done..].
    apply Hst. simpl. eauto.
Qed.

Lemma track_ok cfg h id w : current_canonical_height w < h → worker_ok cfg w → worker_ok cfg (track h id w).
Proof.
  intros Hlt [Hok Hcf Hh]. split; [done..|]. simpl.
  intros k ids [[<- _]|[_ Hk]]%lookup_insert_Some; [done|by eapply Hh].
Qed.

Lemma apply_preconf_ok cfg id h outs w :
  worker_ok cfg w → current_canonical_height w < h →
  (∀ x, tx_id_to_storage_id (worker_pool w) !! id = Some x →
        has_dependencies (storage (worker_pool w)) x = false) →
  worker_ok cfg (apply_preconf id h outs w).1.
Proof.
  intros Hw Hlt Hready. pose proof Hw as [Hok Hcf Hh]. unfold apply_preconf.
  destruct (preconfirmed_ok id (worker_pool w) Hok Hready) as [Hok1 Hcf1].
  set (w1 := track _ _ _). assert (worker_ok cfg w1) as Hw1.
  { apply track_ok; [done|]. split; [done|by rewrite <- Hcf|done]. }
  destruct outs as [outs|]; [|done]. destruct (new_known_tx outs _) as [pp resolved].
  destruct Hw1 as [Hok2 Hcf2 Hh2]. split; simpl; [by apply pool_ok_outputs|done|done].
Qed.

(** The conditions on the requests, as in [op_ok]; those of the insertions also for
    the pending transactions a preconfirmation or a block resolves. *)
Definition event_ok (e : WorkerEvent (Peer:=Peer) (Chan:=Chan)) w : Prop :=
  let p := worker_pool w in
  match e with
  | EvExtract c => 0 ≤ c_max_gas c ∧ 0 ≤ maximum_block_size c ∧ 0 ≤ maximum_txs c
  | EvPreconf env id status =>
      (∀ x, tx_id_to_storage_id p !! id = Some x → has_dependencies (storage p) x = false) ∧
      ∀ w' resolved, settle_preconf id status w = Some (w', resolved) → inserts_fit env resolved w'
  | EvBlock env block =>
      commit_closed (storage p) (hs_iter (list_to_set (ir_tx_ids block) : gset TxId)) ∧
      ∀ w' resolved, settle_block block w = Some (w', resolved) → inserts_fit env resolved w'
  | EvExpired _ | EvTick _ => True
  | EvInsert _ tx _ => fits p tx
  end.

Lemma settle_preconf_ok cfg id status w :
  worker_ok cfg w →
  (∀ x, tx_id_to_storage_id (worker_pool w) !! id = Some x →
        has_dependencies (storage (worker_pool w)) x = false) →
  ∃ w' resolved, settle_preconf id status w = Some (w', resolved) ∧ worker_ok cfg w'.
Proof.
  intros Hw Hready. unfold settle_preconf. destruct (is_late status w) eqn:Hl; [eauto|].
  unfold is_late in Hl. destruct status as [h outs|h outs|reason]; simpl in Hl.
  1,2: apply bool_decide_eq_false in Hl;
    exists (apply_preconf id h outs w).1, (apply_preconf id h outs w).2;
    (split; [by destruct (apply_preconf _ _ _ _)|]); apply apply_preconf_ok; [done|lia|done].
  destruct Hw as [Hok Hcf Hh]. destruct (skipped_ok id reason _ Hok) as (p' & -> & [Hok' _ Hcf']).
  cbn [mbind option_bind]. eexists _, _. split; [done|]. split; simpl; [done|congruence|done].
Qed.

Lemma worker_step_ok cfg e w :
  worker_ok cfg w → event_ok e w → ∃ w', worker_step e w = Some w' ∧ worker_ok cfg w'.
Proof.
  intros Hw He. pose proof Hw as [Hok Hcf Hh].
  destruct e as [c|env id status|env block|ids|env tx source|now]; simpl in *.
  - destruct (pool_step_ok (OpExtract c) _ Hok He) as (p' & Hp & Hok' & Hcf'). simpl in Hp.
    unfold extract_block_transactions. destruct (extract_transactions_for_block c _) as [[txs q]|];
      [|done]. injection Hp as ->. eexists. split; [done|]. split; simpl; [done|congruence|done].
  - destruct He as [Hready Hfit].
    destruct (settle_preconf_ok cfg id status w Hw Hready) as (w1 & res & Hs & Hw1).
    unfold process_preconfirmed_transaction. rewrite Hs. cbn [mbind option_bind].
    destruct (worker_inserts_ok cfg env res w1 Hw1 (Hfit _ _ Hs)) as (w' & ? & ? & _). eauto.
  - destruct He as [Hcl Hfit].
    destruct (settle_block_ok cfg block w Hw Hcl) as (w1 & res & Hs & Hw1 & _).
    unfold process_block. rewrite Hs. cbn [mbind option_bind].
    destruct (worker_inserts_ok cfg env res w1 Hw1 (Hfit _ _ Hs)) as (w' & ? & ? & _). eauto.
  - unfold remove_expired_transactions.
    destruct (remove_transactions_ok ids (ErrRemoved Ttl) _ Hok) as (p' & -> & [Hok' _ Hcf']).
    eexists. split; [done|]. split; simpl; [done|congruence|done].
  - destruct (worker_insert_ok cfg env tx source w Hw He) as (w' & ? & ? & _). eauto.
  - eexists. split; [done|]. unfold expire_pending. destruct (expire_transactions _ _). by split.
Qed.

Inductive worker_reachable (cfg : PoolConfig) (h0 : Z) : PoolWorker G Idx C Peer Chan → Prop :=
| worker_reach_new : worker_reachable cfg h0 (PoolWorker_new cfg h0)
| worker_reach_step e w w' :
    worker_reachable cfg h0 w → event_ok e w → worker_step e w = Some w' →
    worker_reachable cfg h0 w'.

Lemma worker_reachable_ok cfg h0 w : worker_reachable cfg h0 w → worker_ok cfg w.
Proof.
  induction 1 as [|e w w' _ IH He Hs].
  - split; [apply pool_ok_new|done|]. intros h ids. simpl. by rewrite lookup_empty.
  - destruct (worker_step_ok cfg e w IH He) as (w1 & Hw1 & ?). congruence.
Qed.

(** ** Claims *)

(** C14: The worker does not break under the conditions of [event_ok].  Take a
    sequence of insertions, extractions, preconfirmations, blocks, expirations and
    ticks in which the amounts of the pool fit in 64 bits, a transaction is
    preconfirmed when it depends on nothing in the pool, and a block has with a
    pooled transaction all the pooled transactions it depends on.  Then the pool is
    consistent, every tracked preconfirmation is for a block above the canonical
    tip, and every further such request is served without a panic in a build without
    debug assertions; the [expect] that looks an accepted transaction up for the
    answer included. *)
Theorem worker_never_breaks cfg h0 w :
  worker_reachable cfg h0 w →
  pool_ok (worker_pool w) ∧
  (∀ h ids, tentative_preconfs w !! h = Some ids → current_canonical_height w < h) ∧
  ∀ e, event_ok e w → ∃ w', worker_step e w = Some w' ∧ pool_ok (worker_pool w').
Proof.
  intros Hr%worker_reachable_ok. split_and!; [apply Hr..|]. intros e He.
  destruct (worker_step_ok cfg e w Hr He) as (w' & ? & []). eauto.
Qed.

End worker_facts.

Module SampleWorker.
Import Sample.
Abbreviation worker := (PoolWorker ListGraph.t nat ListLru unit unit).

Definition env : Env := {| env_view := Ok SamplePool.db; env_now := 0 |}.
Definition w0 : worker := PoolWorker_new SamplePool.cfg 10.
(** The parent arrives, is preconfirmed for block 11, and block 11 omits it. *)
Definition w1 : worker := default w0 (worker_step (EvInsert env parent (RPC (Some ()))) w0).
Definition w2 : worker :=
  default w1 (worker_step (EvPreconf (λ _, env) 1 (PreconfSuccess 11 None)) w1).
Definition omitting : ImportResult := {| ir_height := 11; ir_tx_ids := []; ir_outputs := [] |}.

Lemma w1_reachable : worker_reachable SamplePool.cfg 10 w1.
Proof.
  apply (worker_reach_step _ _ (EvInsert env parent (RPC (Some ()))) w0).
  - apply worker_reach_new.
  - exact SamplePool.parent_fits.
  - vm_compute. reflexivity.
Qed.

Lemma w2_reachable : worker_reachable SamplePool.cfg 10 w2.
Proof.
  apply (worker_reach_step _ _ (EvPreconf (λ _, env) 1 (PreconfSuccess 11 None)) w1).
  - apply w1_reachable.
  - split.
    + intros x Hx. vm_compute in Hx. injection Hx as <-. vm_compute. reflexivity.
    + intros w' res Hs. assert (snd <$> settle_preconf 1 (PreconfSuccess 11 None) w1 = Some []) as E
        by (vm_compute; reflexivity). rewrite Hs in E. injection E as ->. exact I.
  - vm_compute. reflexivity.
Qed.

Lemma omitting_ok : event_ok (EvBlock (λ _, env) omitting) w2.
Proof.
  split.
  - intros i d q e Hd. vm_compute in Hd. done.
  - intros w' res Hs. assert (snd <$> settle_block omitting w2 = Some []) as E
      by (vm_compute; reflexivity). rewrite Hs in E. injection E as ->. exact I.
Qed.
End SampleWorker.

Lemma worker_never_breaks_witness :
  pool_ok (worker_pool SampleWorker.w2) ∧
  ∃ w', worker_step (EvBlock (λ _, SampleWorker.env) SampleWorker.omitting) SampleWorker.w2 = Some w' ∧
        pool_ok (worker_pool w').
Proof.
  destruct (worker_never_breaks SamplePool.cfg 10 SampleWorker.w2 SampleWorker.w2_reachable)
    as (Hok & _ & Hstep).
  split; [exact Hok|]. exact (Hstep _ SampleWorker.omitting_ok).
Defined.

