(* ===== verification/StorageTx.v ===== *)
(** * Storage transactions

    Model of the key-value traits (storage/src/kv_store.rs) and of
    [InMemoryTransaction] (storage/src/transactional.rs): changes accumulated in
    memory over any storage, another transaction included.  A column is its id, keys
    and values are lists of bytes.  [HashMap] columns and [BTreeMap] keys are visited
    in an order that is a parameter, so nothing proved depends on it. *)

From stdpp Require Import prelude gmap list strings.
From Stdlib Require Import ZArith Lia.
From S2P Require Import Prelude.
Local Open Scope Z_scope.

Abbreviation Key := (list Z).
Abbreviation Value := (list Z).
Abbreviation StorageError := string.

Inductive StorageReadError := KeyNotFound | OutOfBounds.

Inductive WriteOperation :=
| Insert (value : Value)
| Remove.

(** The result of a read into a buffer: the number the call returns or its error,
    and the buffer afterwards. *)
Abbreviation read_result := (result (result Z StorageReadError * list Z) StorageError).

Class KeyValueInspect (S : Type) := {
  kv_exists : S → Key → Z → result bool StorageError;
  kv_size_of_value : S → Key → Z → result (option Z) StorageError;
  kv_get : S → Key → Z → result (option Value) StorageError;
  kv_read_exact : S → Key → Z → Z → list Z → read_result;
  kv_read_zerofill : S → Key → Z → Z → list Z → read_result;
}.

(** ** The methods the trait derives from [get] *)

Section defaults.

Definition zlength (l : list Z) : Z := Z.of_nat (length l).

(** [value.get(a..b)]. *)
Definition slice (v : Value) (a b : Z) : option Value :=
  if decide (a ≤ b ∧ b ≤ zlength v)
  then Some (take (Z.to_nat (b - a)) (drop (Z.to_nat a) v)) else None.

Definition exact_from (v : Value) (offset : Z) (buf : list Z) : result Z StorageReadError * list Z :=
  match slice v offset (sat_add U64 offset (zlength buf)) with
  | None => (Err OutOfBounds, buf)
  | Some data => (Ok (zlength buf), data)
  end.

Definition zerofill_from (v : Value) (offset : Z) (buf : list Z) :
    result Z StorageReadError * list Z :=
  if decide (offset ≤ zlength v) then
    let rest := drop (Z.to_nat offset) v in
    let n := Nat.min (length buf) (length rest) in
    (Ok (zlength v), take n rest ++ replicate (length buf - n) 0)
  else (Err OutOfBounds, buf).

Context {S : Type} `{!KeyValueInspect S}.

Definition default_size_of_value (s : S) (key : Key) (column : Z) : result (option Z) StorageError :=
  result_bind (kv_get s key column) (λ value, Ok (zlength <$> value)).

Definition default_exists (s : S) (key : Key) (column : Z) : result bool StorageError :=
  result_bind (kv_size_of_value s key column) (λ size, Ok (bool_decide (is_Some size))).

Definition default_read_exact (s : S) (key : Key) (column offset : Z) (buf : list Z) : read_result :=
  result_bind (kv_get s key column) (λ value,
    match value with
    | None => Ok (Err KeyNotFound, buf)
    | Some v => Ok (exact_from v offset buf)
    end).

Definition default_read_zerofill (s : S) (key : Key) (column offset : Z) (buf : list Z) : read_result :=
  result_bind (kv_get s key column) (λ value,
    match value with
    | None => Ok (Err KeyNotFound, buf)
    | Some v => Ok (zerofill_from v offset buf)
    end).
End defaults.

(** A storage whose methods all report on the value [get] returns. *)
Class KeyValueLaws (S : Type) `{!KeyValueInspect S} := {
  kv_exists_law s k c : kv_exists s k c = default_exists s k c;
  kv_size_law s k c : kv_size_of_value s k c = default_size_of_value s k c;
  kv_exact_law s k c o b : kv_read_exact s k c o b = default_read_exact s k c o b;
  kv_zerofill_law s k c o b : kv_read_zerofill s k c o b = default_read_zerofill s k c o b;
}.

(** ** The transaction *)

Inductive ConflictPolicy := PolicyFail | PolicyOverwrite.

Abbreviation Column := (gmap Key WriteOperation).
Abbreviation Changes := (gmap Z Column).

Record InMemoryTransaction (S : Type) := {
  changes : Changes;
  policy : ConflictPolicy;
  storage : S;
}.
Arguments changes {S} _.
Arguments policy {S} _.
Arguments storage {S} _.
Arguments Build_InMemoryTransaction {S} _ _ _.

Section transaction.
Context {S : Type}.
Implicit Types t : InMemoryTransaction S.

Definition transaction (s : S) (p : ConflictPolicy) (ch : Changes) : InMemoryTransaction S :=
  Build_InMemoryTransaction ch p s.
Definition into_transaction (s : S) : InMemoryTransaction S := transaction s PolicyOverwrite ∅.
Definition with_policy (p : ConflictPolicy) t : InMemoryTransaction S :=
  Build_InMemoryTransaction (changes t) p (storage t).
Definition with_changes (ch : Changes) t : InMemoryTransaction S :=
  Build_InMemoryTransaction ch (policy t) (storage t).
Definition reset_changes t : InMemoryTransaction S := with_changes ∅ t.

Definition get_from_changes t (key : Key) (column : Z) : option WriteOperation :=
  changes t !! column ≫= lookup key.

Context `{!KeyValueInspect S}.

Definition tx_exists t (key : Key) (column : Z) : result bool StorageError :=
  match get_from_changes t key column with
  | Some (Insert _) => Ok true
  | Some Remove => Ok false
  | None => kv_exists (storage t) key column
  end.

Definition tx_size_of_value t (key : Key) (column : Z) : result (option Z) StorageError :=
  match get_from_changes t key column with
  | Some (Insert value) => Ok (Some (zlength value))
  | Some Remove => Ok None
  | None => kv_size_of_value (storage t) key column
  end.

Definition tx_get t (key : Key) (column : Z) : result (option Value) StorageError :=
  match get_from_changes t key column with
  | Some (Insert value) => Ok (Some value)
  | Some Remove => Ok None
  | None => kv_get (storage t) key column
  end.

Definition tx_read_exact t (key : Key) (column offset : Z) (buf : list Z) : read_result :=
  match get_from_changes t key column with
  | Some (Insert value) => Ok (exact_from value offset buf)
  | Some Remove => Ok (Err KeyNotFound, buf)
  | None => kv_read_exact (storage t) key column offset buf
  end.

Definition tx_read_zerofill t (key : Key) (column offset : Z) (buf : list Z) : read_result :=
  match get_from_changes t key column with
  | Some (Insert value) => Ok (zerofill_from value offset buf)
  | Some Remove => Ok (Err KeyNotFound, buf)
  | None => kv_read_zerofill (storage t) key column offset buf
  end.

#[global] Instance tx_inspect : KeyValueInspect (InMemoryTransaction S) := {
  kv_exists := tx_exists;
  kv_size_of_value := tx_size_of_value;
  kv_get := tx_get;
  kv_read_exact := tx_read_exact;
  kv_read_zerofill := tx_read_zerofill;
}.

(** ** Writes *)

(** [self.changes.entry(column).or_default().insert(key, op)]. *)
Definition record_change (key : Key) (column : Z) (op : WriteOperation) (ch : Changes) : Changes :=
  <[column := <[key := op]> (default ∅ (ch !! column))]> ch.

Definition record t (key : Key) (column : Z) (op : WriteOperation) : InMemoryTransaction S :=
  with_changes (record_change key column op (changes t)) t.

Definition put t (key : Key) (column : Z) (value : Value) :
    InMemoryTransaction S * result unit StorageError :=
  (record t key column (Insert value), Ok ()).

(** The old value: the change it replaces, or what the storage has. *)
Definition old_value t (key : Key) (column : Z) : result (option Value) StorageError :=
  match get_from_changes t key column with
  | Some (Insert value) => Ok (Some value)
  | Some Remove => Ok None
  | None => kv_get (storage t) key column
  end.

Definition replace t (key : Key) (column : Z) (value : Value) :
    InMemoryTransaction S * result (option Value) StorageError :=
  (record t key column (Insert value), old_value t key column).

Definition write t (key : Key) (column : Z) (buf : list Z) :
    InMemoryTransaction S * result Z StorageError :=
  (record t key column (Insert buf), Ok (zlength buf)).

Definition take_value t (key : Key) (column : Z) :
    InMemoryTransaction S * result (option Value) StorageError :=
  (record t key column Remove, old_value t key column).

Definition delete_key t (key : Key) (column : Z) : InMemoryTransaction S * result unit StorageError :=
  (record t key column Remove, Ok ()).

Definition batch_write t (column : Z) (entries : list (Key * WriteOperation)) :
    InMemoryTransaction S * result unit StorageError :=
  let btree := foldl (λ m '(key, op), <[key := op]> m) (default ∅ (changes t !! column)) entries in
  (with_changes (<[column := btree]> (changes t)) t, Ok ()).
End transaction.

(** ** Commits *)

Class Modifiable (S : Type) := {
  commit_changes : Changes → S → S * result unit StorageError;
}.

Section commit.
Context `{!HashOrder Z} `{!HashOrder Key} {S : Type}.

(** [for (k, v) in value] on a column that has changes already; an early return
    keeps what was inserted before it. *)
Fixpoint merge_entries (p : ConflictPolicy) (value : Column) (keys : list Key) (btree : Column) :
    Column * result unit StorageError :=
  match keys with
  | [] => (btree, Ok ())
  | k :: keys =>
      match value !! k with
      | None => merge_entries p value keys btree
      | Some v =>
          match p, btree !! k with
          | PolicyFail, Some _ => (btree, Err "Conflicting operation")
          | _, _ => merge_entries p value keys (<[k := v]> btree)
          end
      end
  end.

Fixpoint merge_columns (p : ConflictPolicy) (ch : Changes) (columns : list Z) (acc : Changes) :
    Changes * result unit StorageError :=
  match columns with
  | [] => (acc, Ok ())
  | column :: columns =>
      match ch !! column with
      | None => merge_columns p ch columns acc
      | Some value =>
          match acc !! column with
          | None => merge_columns p ch columns (<[column := value]> acc)
          | Some btree =>
              let '(btree, r) := merge_entries p value (hs_iter (dom value)) btree in
              let acc := <[column := btree]> acc in
              match r with
              | Ok _ => merge_columns p ch columns acc
              | Err e => (acc, Err e)
              end
          end
      end
  end.

Definition tx_commit_changes (ch : Changes) (t : InMemoryTransaction S) :
    InMemoryTransaction S * result unit StorageError :=
  let '(acc, r) := merge_columns (policy t) ch (hs_iter (dom ch)) (changes t) in
  (with_changes acc t, r).

#[global] Instance tx_modifiable : Modifiable (InMemoryTransaction S) := {
  commit_changes := tx_commit_changes;
}.

(** [StorageTransaction::commit]: the changes go into the storage below, which the
    caller gets back; on an error the transaction is dropped. *)
Definition commit `{!Modifiable S} (t : InMemoryTransaction S) : S * result unit StorageError :=
  commit_changes (changes t) (storage t).
End commit.

(** ** Facts *)

(** The changes as one map from column and key. *)
Definition change_at (ch : Changes) (k : Key) (c : Z) : option WriteOperation :=
  ch !! c ≫= lookup k.

Definition applied (o : option WriteOperation) (below : result (option Value) StorageError) :
    result (option Value) StorageError :=
  match o with
  | Some (Insert v) => Ok (Some v)
  | Some Remove => Ok None
  | None => below
  end.

Section facts.
Context {S : Type} `{!KeyValueInspect S}.
Implicit Types (t : InMemoryTransaction S) (ch : Changes).

Lemma tx_get_applied t k c :
  tx_get t k c = applied (change_at (changes t) k c) (kv_get (storage t) k c).
Proof. unfold tx_get, get_from_changes, change_at. by destruct (_ ≫= _) as [[]|]. Qed.

Lemma change_at_record key column op ch k c :
  change_at (record_change key column op ch) k c =
  if decide (k = key ∧ c = column) then Some op else change_at ch k c.
Proof.
  unfold change_at, record_change. destruct (decide (c = column)) as [->|Hc].
  - rewrite lookup_insert_eq. cbn [mbind option_bind]. destruct (decide (k = key)) as [->|Hk].
    + by rewrite lookup_insert_eq, decide_True.
    + rewrite lookup_insert_ne, decide_False by naive_solver.
      destruct (ch !! column); [done|]. apply lookup_empty.
  - rewrite lookup_insert_ne by done. by rewrite decide_False by naive_solver.
Qed.

Lemma change_at_batch column entries ch k c :
  change_at (<[column := foldl (λ m '(key, op), <[key := op]> m)
                           (default ∅ (ch !! column)) entries]> ch) k c =
  change_at (foldl (λ ch '(key, op), record_change key column op ch) ch entries) k c.
Proof.
  assert (∀ entries ch (m : Column), (∀ k, m !! k = change_at ch k column) →
    ∀ k, foldl (λ m '(key, op), <[key := op]> m) m entries !! k =
      change_at (foldl (λ ch '(key, op), record_change key column op ch) ch entries) k column) as Hin.
  { clear. induction entries as [|[key op] entries IH]; intros ch m Hm k; [apply Hm|].
    cbn [foldl]. apply IH. intros k'. rewrite change_at_record.
    destruct (decide (k' = key)) as [->|Hk].
    - by rewrite lookup_insert_eq, decide_True.
    - rewrite lookup_insert_ne, decide_False by naive_solver. apply Hm. }
  assert (∀ ch, c ≠ column →
    change_at (foldl (λ ch '(key, op), record_change key column op ch) ch entries) k c =
    change_at ch k c) as Hout.
  { intros ch' Hc. revert ch'. induction entries as [|[key op] entries IH]; intros ch'; [done|].
    cbn [foldl]. rewrite IH, change_at_record. by rewrite decide_False by naive_solver. }
  unfold change_at at 1. destruct (decide (c = column)) as [->|Hc].
  - rewrite lookup_insert_eq. cbn [mbind option_bind]. apply Hin. intros k'.
    unfold change_at. destruct (ch !! column); [done|]. apply lookup_empty.
  - rewrite lookup_insert_ne by done. by rewrite Hout.
Qed.

(** Reads of a transaction over a lawful storage are lawful. *)
#[global] Instance tx_laws `{!KeyValueLaws S} : KeyValueLaws (InMemoryTransaction S).
Proof.
  split; intros t k c; intros; simpl;
    unfold default_exists, default_size_of_value, default_read_exact, default_read_zerofill;
    simpl; unfold tx_exists, tx_size_of_value, tx_get, tx_read_exact, tx_read_zerofill;
    (destruct (get_from_changes t k c) as [[]|]; [done..|]).
  - apply kv_exists_law.
  - apply kv_size_law.
  - apply kv_exact_law.
  - apply kv_zerofill_law.
Qed.
End facts.

Section commit_facts.
Context `{!HashOrder Z} `{!HashOrder Key} {S : Type} `{!KeyValueInspect S}.
Implicit Types (t : InMemoryTransaction S) (ch acc : Changes).

(** Two sets of changes touch a common key. *)
Definition conflicting ch acc : Prop :=
  ∃ k c, is_Some (change_at ch k c) ∧ is_Some (change_at acc k c).

Lemma merge_entries_ok p value keys btree :
  NoDup keys →
  let '(btree', r) := merge_entries p value keys btree in
  match r with
  | Ok _ =>
      (p = PolicyFail → ∀ k, k ∈ keys → value !! k = None ∨ btree !! k = None) ∧
      ∀ k, btree' !! k = if decide (k ∈ keys)
                         then match value !! k with Some v => Some v | None => btree !! k end
                         else btree !! k
  | Err _ => p = PolicyFail ∧ ∃ k, k ∈ keys ∧ is_Some (value !! k) ∧ is_Some (btree !! k)
  end.
Proof.
  intros Hnd. revert btree. induction Hnd as [|k keys Hk Hnd IH]; intros btree; cbn [merge_entries].
  { split; [set_solver|]. intros k. rewrite decide_False by set_solver. done. }
  destruct (value !! k) as [v|] eqn:Hv.
  - assert (let '(btree', r) := merge_entries p value keys (<[k := v]> btree) in
      (p = PolicyFail → btree !! k = None) →
      match r with
      | Ok _ =>
          (p = PolicyFail → ∀ k', k' ∈ k :: keys → value !! k' = None ∨ btree !! k' = None) ∧
          ∀ k', btree' !! k' = if decide (k' ∈ k :: keys)
                then match value !! k' with Some v => Some v | None => btree !! k' end
                else btree !! k'
      | Err _ => p = PolicyFail ∧
          ∃ k', k' ∈ k :: keys ∧ is_Some (value !! k') ∧ is_Some (btree !! k')
      end) as Hstep.
    { specialize (IH (<[k := v]> btree)). destruct (merge_entries _ _ _ _) as [btree' [[]|e]]; intros Hfree.
      - destruct IH as [Hdis Hall]. split.
        + intros Hp k' [->|Hin]%elem_of_cons; [auto|]. destruct (Hdis Hp k' Hin) as [?|Hb]; [auto|].
          right. by rewrite lookup_insert_ne in Hb by set_solver.
        + intros k'. rewrite Hall. destruct (decide (k' = k)) as [->|Hne].
          * rewrite (decide_False (P := k ∈ keys)), (decide_True (P := k ∈ k :: keys)) by set_solver.
            by rewrite Hv, lookup_insert_eq.
          * rewrite lookup_insert_ne by done. apply decide_ext. set_solver.
      - destruct IH as (Hp & k' & Hin & Hk' & Hb). split; [done|]. exists k'.
        rewrite lookup_insert_ne in Hb by set_solver. set_solver. }
    destruct p; [destruct (btree !! k) eqn:Hb|].
    + split; [done|]. exists k. split_and!; [set_solver|by eauto..].
    + destruct (merge_entries _ _ _ _). by apply Hstep.
    + destruct (merge_entries _ _ _ _). by apply Hstep.
  - specialize (IH btree). destruct (merge_entries _ _ _ _) as [btree' [[]|e]].
    + destruct IH as [Hdis Hall]. split.
      * intros Hp k' [->|Hin]%elem_of_cons; [auto|by apply Hdis].
      * intros k'. rewrite Hall. destruct (decide (k' = k)) as [->|Hne].
        -- rewrite (decide_False (P := k ∈ keys)), (decide_True (P := k ∈ k :: keys)) by set_solver.
           by rewrite Hv.
        -- apply decide_ext. set_solver.
    + destruct IH as (Hp & k' & Hin & ?). split; [done|]. exists k'. set_solver.
Qed.

Definition over (o o' : option WriteOperation) : option WriteOperation :=
  match o with Some op => Some op | None => o' end.

(** What merging the columns [columns] of [ch] into [acc] leads to. *)
Definition merged (p : ConflictPolicy) ch (columns : list Z) acc
    (out : Changes * result unit StorageError) : Prop :=
  match out.2 with
  | Ok _ =>
      (p = PolicyFail → ∀ k c, c ∈ columns → change_at ch k c = None ∨ change_at acc k c = None) ∧
      ∀ k c, change_at out.1 k c = if decide (c ∈ columns)
                                   then over (change_at ch k c) (change_at acc k c)
                                   else change_at acc k c
  | Err _ =>
      p = PolicyFail ∧
      ∃ k c, c ∈ columns ∧ is_Some (change_at ch k c) ∧ is_Some (change_at acc k c)
  end.

(** The first column is done: [acc1] has it, and the rest is merged into [acc1]. *)
Lemma merged_cons p ch c columns acc acc1 out :
  c ∉ columns →
  (∀ k c', change_at acc1 k c' =
           if decide (c' = c) then over (change_at ch k c) (change_at acc k c) else change_at acc k c') →
  (p = PolicyFail → ∀ k, change_at ch k c = None ∨ change_at acc k c = None) →
  merged p ch columns acc1 out → merged p ch (c :: columns) acc out.
Proof.
  intros Hc Hacc1 Hdis. destruct out as [acc' [[]|e]]; unfold merged; cbn [fst snd].
  - intros [Hd Hall]. split.
    + intros Hp k c' [->|Hin]%elem_of_cons; [by apply Hdis|].
      specialize (Hd Hp k c' Hin). by rewrite Hacc1, decide_False in Hd by set_solver.
    + intros k c'. rewrite Hall, Hacc1. destruct (decide (c' = c)) as [->|Hcc].
      * by rewrite (decide_False (P := c ∈ columns)), (decide_True (P := c ∈ c :: columns))
          by set_solver.
      * apply decide_ext. set_solver.
  - intros (Hp & k & c' & Hin & Hch & Hacc). split; [done|]. exists k, c'.
    rewrite Hacc1, decide_False in Hacc by set_solver. set_solver.
Qed.

Lemma merge_columns_ok p ch columns acc :
  NoDup columns → merged p ch columns acc (merge_columns p ch columns acc).
Proof.
  intros Hnd. revert acc. induction Hnd as [|c columns Hc Hnd IH]; intros acc; cbn [merge_columns].
  { split; [set_solver|]. intros k c. rewrite decide_False by set_solver. done. }
  assert (∀ (new : Column) k c', (∀ k, new !! k = over (change_at ch k c) (change_at acc k c)) →
    change_at (<[c := new]> acc) k c' = if decide (c' = c)
      then over (change_at ch k c) (change_at acc k c) else change_at acc k c') as Hins.
  { intros new k c' Hnew. unfold change_at at 1. case_decide as Hcc.
    - subst c'. rewrite lookup_insert_eq. apply Hnew.
    - by rewrite lookup_insert_ne. }
  destruct (ch !! c) as [value|] eqn:Hv.
  2: { apply (merged_cons _ _ _ _ _ acc); [done| | |apply IH].
       - intros k c'. case_decide; [subst c'|done]. unfold change_at at 2. by rewrite Hv.
       - intros _ k. left. unfold change_at. by rewrite Hv. }
  destruct (acc !! c) as [btree|] eqn:Hb.
  2: { apply (merged_cons _ _ _ _ _ (<[c := value]> acc)); [done| | |apply IH].
       - intros k c'. apply Hins. intros k'. unfold change_at. rewrite Hv, Hb. simpl. by destruct (value !! k').
       - intros _ k. right. unfold change_at. by rewrite Hb. }
  pose proof (merge_entries_ok p value _ btree (hs_iter_NoDup (dom value))) as He.
  assert (∀ k, k ∈ hs_iter (dom value) ↔ is_Some (value !! k)) as Hdom.
  { intros k. by rewrite hs_iter_in, elem_of_dom. }
  destruct (merge_entries _ _ _ _) as [btree' r].
  destruct r as [[]|e].
  - destruct He as [Hd Hall]. apply (merged_cons _ _ _ _ _ (<[c := btree']> acc)); [done| | |apply IH].
    + intros k c'. apply Hins. intros k'. unfold change_at. rewrite Hv, Hb, Hall. simpl.
      case_decide as Hk; [by destruct (value !! k')|]. rewrite Hdom in Hk.
      destruct (value !! k'); [destruct Hk; eauto|done].
    + intros Hp k. unfold change_at. rewrite Hv, Hb. simpl.
      destruct (value !! k) eqn:Hk; [|by left]. rewrite <- Hk. apply (Hd Hp), Hdom. eauto.
  - destruct He as (Hp & k & _ & Hk1 & Hk2). split; [done|]. exists k, c.
    unfold change_at. rewrite Hv, Hb. set_solver.
Qed.

Lemma tx_commit_ok ch t :
  let '(t', r) := tx_commit_changes ch t in
  policy t' = policy t ∧ storage t' = storage t ∧
  match r with
  | Ok _ =>
      (policy t = PolicyFail → ¬ conflicting ch (changes t)) ∧
      ∀ k c, change_at (changes t') k c = over (change_at ch k c) (change_at (changes t) k c)
  | Err _ => policy t = PolicyFail ∧ conflicting ch (changes t)
  end.
Proof.
  unfold tx_commit_changes.
  pose proof (merge_columns_ok (policy t) ch _ (changes t) (hs_iter_NoDup (dom ch))) as Hm.
  destruct (merge_columns _ _ _ _) as [acc r]. split_and!; [done..|].
  assert (∀ k c, c ∉ hs_iter (dom ch) → change_at ch k c = None) as Hout.
  { intros k c Hc. rewrite hs_iter_in, not_elem_of_dom in Hc.
    unfold change_at. by rewrite Hc. }
  destruct r as [[]|e]; destruct Hm as [Hd Hall]; cbn [fst] in *.
  - split.
    + intros Hp (k & c & [o Ho] & [o' Ho']). destruct (decide (c ∈ hs_iter (dom ch))) as [Hc|Hc].
      * destruct (Hd Hp k c Hc); congruence.
      * rewrite Hout in Ho; done.
    + intros k c. simpl. rewrite Hall. case_decide as Hc; [done|]. by rewrite Hout.
  - split; [done|]. destruct Hall as (k & c & _ & ?). by exists k, c.
Qed.
End commit_facts.

(** ** The abstract view

    What a reader of the storage sees: a value, its absence or an error for every key
    of every column.  Writes change the view at one key. *)

Module View.

Definition t : Type := Key → Z → result (option Value) StorageError.

Definition set (key : Key) (column : Z) (value : option Value) (v : t) : t :=
  λ k c, if decide (k = key ∧ c = column) then Ok value else v k c.

Definition value_of (op : WriteOperation) : option Value :=
  match op with Insert v => Some v | Remove => None end.

(** A read of a part of a value into a buffer. *)
Definition read (from : Value → Z → list Z → result Z StorageReadError * list Z) (r : result (option Value) StorageError)
    (offset : Z) (buf : list Z) : read_result :=
  result_bind r (λ value, Ok match value with None => (Err KeyNotFound, buf) | Some x => from x offset buf end).

End View.

Inductive KvOp :=
| OpPut (key : Key) (column : Z) (value : Value)
| OpReplace (key : Key) (column : Z) (value : Value)
| OpWrite (key : Key) (column : Z) (buf : list Z)
| OpTake (key : Key) (column : Z)
| OpDelete (key : Key) (column : Z)
| OpBatch (column : Z) (entries : list (Key * WriteOperation))
| OpGet (key : Key) (column : Z)
| OpExists (key : Key) (column : Z)
| OpSizeOfValue (key : Key) (column : Z)
| OpReadExact (key : Key) (column offset : Z) (buf : list Z)
| OpReadZerofill (key : Key) (column offset : Z) (buf : list Z).

Inductive KvOut :=
| OutDone (r : result unit StorageError)
| OutExists (r : result bool StorageError)
| OutSizeOfValue (r : result (option Z) StorageError)
| OutRead (r : read_result)
| OutValue (r : result (option Value) StorageError)
| OutSize (r : result Z StorageError).

Definition view_step (v : View.t) (op : KvOp) : View.t * KvOut :=
  match op with
  | OpPut k c x => (View.set k c (Some x) v, OutDone (Ok ()))
  | OpReplace k c x => (View.set k c (Some x) v, OutValue (v k c))
  | OpWrite k c x => (View.set k c (Some x) v, OutSize (Ok (zlength x)))
  | OpTake k c => (View.set k c None v, OutValue (v k c))
  | OpDelete k c => (View.set k c None v, OutDone (Ok ()))
  | OpBatch c entries =>
      (foldl (λ v '(k, op), View.set k c (View.value_of op) v) v entries, OutDone (Ok ()))
  | OpGet k c => (v, OutValue (v k c))
  | OpExists k c => (v, OutExists (result_bind (v k c) (λ x, Ok (bool_decide (is_Some x)))))
  | OpSizeOfValue k c => (v, OutSizeOfValue (result_bind (v k c) (λ x, Ok (zlength <$> x))))
  | OpReadExact k c o buf => (v, OutRead (View.read exact_from (v k c) o buf))
  | OpReadZerofill k c o buf => (v, OutRead (View.read zerofill_from (v k c) o buf))
  end.

Fixpoint run_ops {X} (step : X → KvOp → X * KvOut) (x : X) (ops : list KvOp) : X * list KvOut :=
  match ops with
  | [] => (x, [])
  | op :: ops =>
      let '(x, out) := step x op in
      let '(x, outs) := run_ops step x ops in (x, out :: outs)
  end.

Section refinement.
Context {S : Type} `{!KeyValueInspect S}.
Implicit Types t : InMemoryTransaction S.

Definition tx_step t (op : KvOp) : InMemoryTransaction S * KvOut :=
  match op with
  | OpPut k c v => let '(t, r) := put t k c v in (t, OutDone r)
  | OpReplace k c v => let '(t, r) := replace t k c v in (t, OutValue r)
  | OpWrite k c b => let '(t, r) := write t k c b in (t, OutSize r)
  | OpTake k c => let '(t, r) := take_value t k c in (t, OutValue r)
  | OpDelete k c => let '(t, r) := delete_key t k c in (t, OutDone r)
  | OpBatch c entries => let '(t, r) := batch_write t c entries in (t, OutDone r)
  | OpGet k c => (t, OutValue (tx_get t k c))
  | OpExists k c => (t, OutExists (tx_exists t k c))
  | OpSizeOfValue k c => (t, OutSizeOfValue (tx_size_of_value t k c))
  | OpReadExact k c o buf => (t, OutRead (tx_read_exact t k c o buf))
  | OpReadZerofill k c o buf => (t, OutRead (tx_read_zerofill t k c o buf))
  end.

(** The transaction [t] shows the view [v]. *)
Definition shows t (v : View.t) : Prop := ∀ k c, tx_get t k c = v k c.

Lemma shows_record t v key column op :
  shows t v → shows (record t key column op) (View.set key column (View.value_of op) v).
Proof.
  intros Ht k c. rewrite tx_get_applied. simpl. rewrite change_at_record. unfold View.set.
  case_decide; [by destruct op|]. rewrite <- Ht. symmetry. apply tx_get_applied.
Qed.

Lemma shows_batch t v column entries :
  shows t v →
  shows (batch_write t column entries).1
    (foldl (λ v '(k, op), View.set k column (View.value_of op) v) v entries).
Proof.
  intros Ht.
  assert (shows (foldl (λ t '(k, op), record t k column op) t entries)
    (foldl (λ v '(k, op), View.set k column (View.value_of op) v) v entries)) as Hf.
  { revert t v Ht. induction entries as [|[k op] entries IH]; intros t v Ht; [done|].
    cbn [foldl]. apply IH, shows_record, Ht. }
  assert (∀ t, changes (foldl (λ t '(k, op), record t k column op) t entries) =
    foldl (λ ch '(key, op), record_change key column op ch) (changes t) entries ∧
    storage (foldl (λ t '(k, op), record t k column op) t entries) = storage t) as Hch.
  { clear. induction entries as [|[k op] entries IH]; intros t; [done|]. cbn [foldl].
    destruct (IH (record t k column op)) as [-> ->]. done. }
  intros k c. rewrite <- Hf, !tx_get_applied. destruct (Hch t) as [-> ->]. simpl.
  by rewrite change_at_batch.
Qed.

(** Reads return what the view has. *)
Lemma reads_shown `{!KeyValueLaws S} t v k c : shows t v →
  tx_exists t k c = result_bind (v k c) (λ x, Ok (bool_decide (is_Some x))) ∧
  tx_size_of_value t k c = result_bind (v k c) (λ x, Ok (zlength <$> x)) ∧
  (∀ o buf, tx_read_exact t k c o buf = View.read exact_from (v k c) o buf) ∧
  (∀ o buf, tx_read_zerofill t k c o buf = View.read zerofill_from (v k c) o buf).
Proof.
  intros Ht. pose proof (Ht k c) as Hk. split_and!; intros.
  - change (tx_exists t k c) with (kv_exists t k c). rewrite kv_exists_law. unfold default_exists. rewrite kv_size_law. unfold default_size_of_value.
    simpl. rewrite Hk. destruct (v k c) as [[x|]|e]; done.
  - change (tx_size_of_value t k c) with (kv_size_of_value t k c). rewrite kv_size_law. unfold default_size_of_value. simpl. by rewrite Hk.
  - change (tx_read_exact t k c o buf) with (kv_read_exact t k c o buf). rewrite kv_exact_law. unfold default_read_exact. simpl. rewrite Hk. by destruct (v k c) as [[]|].
  - change (tx_read_zerofill t k c o buf) with (kv_read_zerofill t k c o buf). rewrite kv_zerofill_law. unfold default_read_zerofill. simpl. rewrite Hk. by destruct (v k c) as [[]|].
Qed.

Lemma tx_step_shows `{!KeyValueLaws S} t v op :
  shows t v →
  shows (tx_step t op).1 (view_step v op).1 ∧ (tx_step t op).2 = (view_step v op).2 ∧
  storage (tx_step t op).1 = storage t.
Proof.
  intros Ht. destruct op as [k c x|k c x|k c x|k c|k c|c entries|k c|k c|k c|k c o b|k c o b]; simpl; split_and!; try done;
    try exact (shows_record t v _ _ (Insert _) Ht); try exact (shows_record t v _ _ Remove Ht);
    try (f_equal; apply (reads_shown t v k c Ht)); try (f_equal; apply Ht).
  by apply shows_batch.
Qed.

(** C35: A transaction is the storage below it with its writes applied.  Every sequence
    of reads (of a value, its presence, its size or a part of it) and writes returns what
    it would return on the view itself, errors of the storage below included, leaves a
    transaction that shows the view after these writes, and does not touch the storage
    below, if the methods of that one all report on the value that its [get] returns. *)
Theorem transaction_refines_view `{!KeyValueLaws S} ops t :
  let '(t', outs) := run_ops tx_step t ops in
  let '(v', outs') := run_ops view_step (kv_get t) ops in
  outs = outs' ∧ (∀ k c, kv_get t' k c = v' k c) ∧ storage t' = storage t.
Proof.
  assert (∀ ops t v, shows t v →
    (run_ops tx_step t ops).2 = (run_ops view_step v ops).2 ∧
    shows (run_ops tx_step t ops).1 (run_ops view_step v ops).1 ∧
    storage (run_ops tx_step t ops).1 = storage t) as Hrun.
  { clear -KeyValueLaws0. induction ops as [|op ops IH]; intros t v Ht; [done|]. cbn [run_ops].
    destruct (tx_step_shows t v op Ht) as (Hs & Ho & Hst).
    destruct (tx_step t op) as [t1 o1], (view_step v op) as [v1 o1']. cbn [fst snd] in *.
    destruct (IH t1 v1 Hs) as (Ho' & Hs' & Hst').
    destruct (run_ops tx_step t1 ops), (run_ops view_step v1 ops). cbn [fst snd] in *.
    split_and!; congruence || done. }
  destruct (Hrun ops t (kv_get t)) as (? & ? & ?); [done|].
  destruct (run_ops tx_step t ops), (run_ops view_step (kv_get t) ops). done.
Qed.
End refinement.

Section nested.
Context `{!HashOrder Z} `{!HashOrder Key} {S : Type} `{!KeyValueInspect S}.

(** Committing a transaction into the transaction below it either fails, exactly
    when that one refuses conflicts and both changed a common key, or leaves it with
    the view the upper transaction had; the storage further below is untouched. *)
Theorem nested_commit_outcome (t : InMemoryTransaction (InMemoryTransaction S)) :
  let '(parent, r) := commit t in
  storage parent = storage (storage t) ∧ policy parent = policy (storage t) ∧
  (is_ok r = false ↔
     policy (storage t) = PolicyFail ∧ conflicting (changes t) (changes (storage t))) ∧
  (is_ok r = true → ∀ k c, kv_get parent k c = kv_get t k c).
Proof.
  unfold commit. simpl. pose proof (tx_commit_ok (changes t) (storage t)) as Hc.
  destruct (tx_commit_changes _ _) as [parent r]. destruct Hc as (Hp & Hs & Hr).
  split_and!; [done..| |].
  - destruct r; simpl; [|done]. destruct Hr as [Hno _]. split; [done|]. intros [? ?]. by destruct Hno.
  - destruct r; [|done]. destruct Hr as [_ Hr]. intros _ k c.
    rewrite !tx_get_applied, Hr, Hs. simpl. rewrite tx_get_applied.
    by destruct (change_at (changes t) k c) as [[]|].
Qed.
End nested.

(** A storage that is read only, with one value. *)
Module SampleStorage.

Record Store := { entries : list (Key * Z * Value) }.

Definition lookup_entry (s : Store) (k : Key) (c : Z) : result (option Value) StorageError :=
  Ok (snd <$> (snd <$> list_find (λ e, e.1 = (k, c)) (entries s))).

#[global] Instance store_inspect : KeyValueInspect Store := {
  kv_exists s k c := result_bind (lookup_entry s k c) (λ x, Ok (bool_decide (is_Some x)));
  kv_size_of_value s k c := result_bind (lookup_entry s k c) (λ x, Ok (zlength <$> x));
  kv_get := lookup_entry;
  kv_read_exact s k c o buf := View.read exact_from (lookup_entry s k c) o buf;
  kv_read_zerofill s k c o buf := View.read zerofill_from (lookup_entry s k c) o buf;
}.

#[global] Instance store_laws : KeyValueLaws Store.
Proof.
  split; intros s k c; intros; unfold default_exists, default_size_of_value, default_read_exact, default_read_zerofill; simpl;
    unfold lookup_entry; by destruct (snd <$> (snd <$> _)).
Qed.

Definition store : Store := {| entries := [([1], 0, [7; 8])] |}.
Definition ops : list KvOp :=
  [OpExists [1] 0; OpTake [1] 0; OpExists [1] 0; OpPut [2] 0 [5]; OpSizeOfValue [2] 0; OpReadExact [2] 0 0 [0]; OpGet [1] 0].

Lemma transaction_refines_view_witness :
  (run_ops tx_step (into_transaction store) ops).2 =
    [OutExists (Ok true); OutValue (Ok (Some [7; 8])); OutExists (Ok false); OutDone (Ok ()); OutSizeOfValue (Ok (Some 1));
     OutRead (Ok (Ok 1, [5])); OutValue (Ok None)] ∧
  let '(t', outs) := run_ops tx_step (into_transaction store) ops in
  let '(v', outs') := run_ops view_step (kv_get (into_transaction store)) ops in
  outs = outs' ∧ (∀ k c, kv_get t' k c = v' k c) ∧ storage t' = store.
Proof. split; [vm_compute; reflexivity|]. exact (transaction_refines_view ops (into_transaction store)). Defined.
End SampleStorage.
