(* ===== verification/SyncState.v ===== *)
(** * The state of block synchronisation

    Model of services/sync/src/state.rs.  Heights are 32-bit integers; an inclusive
    range is its pair of bounds and may be empty. *)

From stdpp Require Import prelude list.
From Stdlib Require Import ZArith Lia.
From S2P Require Import Prelude.
Local Open Scope Z_scope.

(** [RangeInclusive<u32>]. *)
Record Range := { r_start : Z; r_end : Z }.

Definition is_empty (r : Range) : bool := bool_decide (r_end r < r_start r).
Definition contains (r : Range) (h : Z) : bool := bool_decide (r_start r ≤ h ≤ r_end r).

Inductive Status :=
| Uninitialized
| Processing (range : Range)
| Committed (height : Z).

(** [u32::checked_add] and [checked_sub] of one. *)
Definition checked_succ (h : Z) : option Z := if decide (h < U32) then Some (h + 1) else None.
Definition checked_pred (h : Z) : option Z := if decide (0 < h) then Some (h - 1) else None.

Definition State_new (committed observed : option Z) : Status :=
  match committed, observed with
  | Some committed, Some observed =>
      match checked_succ committed with
      | None => Committed committed
      | Some next =>
          let range := {| r_start := next; r_end := observed |} in
          if is_empty range then Committed committed else Processing range
      end
  | Some committed, None => Committed committed
  | None, Some observed => Processing {| r_start := 0; r_end := observed |}
  | None, None => Uninitialized
  end.

Definition process_range (s : Status) : option Range :=
  match s with Processing range => Some range | _ => None end.

Definition apply_status (s : Status) (status : option Status) : Status := default s status.

Definition commit (s : Status) (height : Z) : Status :=
  apply_status s
    match s with
    | Processing range =>
        if decide (height < r_start range) then None
        else
          match Z.compare height (r_end range) with
          | Lt => Some (Processing {| r_start := sat_add U32 height 1; r_end := r_end range |})
          | Eq | Gt => Some (Committed height)
          end
    | Uninitialized => Some (Committed height)
    | Committed existing =>
        match Z.compare height existing with
        | Lt | Eq => None
        | Gt => Some (Committed height)
        end
    end.

Definition observed_status (s : Status) (height : Z) : option Status :=
  match s with
  | Uninitialized => Some (Processing {| r_start := 0; r_end := height |})
  | Processing range =>
      match Z.compare (r_end range) height with
      | Lt => Some (Processing {| r_start := r_start range; r_end := height |})
      | Eq | Gt => None
      end
  | Committed committed =>
      next ← checked_succ committed;
      let r := {| r_start := next; r_end := height |} in
      if is_empty r then None else Some (Processing r)
  end.

Definition observe (s : Status) (height : Z) : Status * bool :=
  let new_status := observed_status s height in
  (apply_status s new_status, bool_decide (is_Some new_status)).

(** Back to the last committed height, or to nothing. *)
Definition reverted (processing : Range) : Status :=
  match checked_pred (r_start processing) with
  | None => Uninitialized
  | Some prev => Committed prev
  end.

Definition failed_status (s : Status) (range : Range) : option Status :=
  if is_empty range then None
  else
    match s with
    | Uninitialized | Committed _ => None
    | Processing processing =>
        if contains range (r_start processing) then Some (reverted processing)
        else if contains range (r_end processing) || contains processing (r_start range) then
          Some match checked_pred (r_start range) with
               | None => Uninitialized
               | Some prev => Processing {| r_start := r_start processing; r_end := prev |}
               end
        else if contains processing (r_end range) then Some (reverted processing)
        else None
    end.

Definition failed_to_process (s : Status) (range : Range) : Status :=
  apply_status s (failed_status s range).

(** ** The abstract state

    Two heights, -1 standing for none: what is committed and what is to be reached. *)

Record Progress := { p_committed : Z; p_target : Z }.

Definition abs (s : Status) : Progress :=
  match s with
  | Uninitialized => {| p_committed := -1; p_target := -1 |}
  | Processing range => {| p_committed := r_start range - 1; p_target := r_end range |}
  | Committed height => {| p_committed := height; p_target := height |}
  end.

(** The status is the one the two heights determine. *)
Definition status_of (p : Progress) : Status :=
  if decide (p_committed p < p_target p)
  then Processing {| r_start := p_committed p + 1; r_end := p_target p |}
  else if decide (p_committed p = -1) then Uninitialized else Committed (p_committed p).

Definition abs_commit (p : Progress) (height : Z) : Progress :=
  {| p_committed := Z.max (p_committed p) height; p_target := Z.max (p_target p) height |}.
Definition abs_observe (p : Progress) (height : Z) : Progress :=
  {| p_committed := p_committed p; p_target := Z.max (p_target p) height |}.
(** A failed range takes the target back below its first height that was still to be
    processed. *)
Definition abs_failed (p : Progress) (range : Range) : Progress :=
  let first := Z.max (p_committed p + 1) (r_start range) in
  if decide (first ≤ Z.min (p_target p) (r_end range))
  then {| p_committed := p_committed p; p_target := first - 1 |} else p.

Definition status_ok (s : Status) : Prop :=
  match s with
  | Uninitialized => True
  | Processing range => 0 ≤ r_start range ∧ r_start range ≤ r_end range ∧ r_end range ≤ U32
  | Committed height => in_uint U32 height
  end.

Lemma status_of_abs s : status_ok s → status_of (abs s) = s.
Proof.
  destruct s as [|[a b]|h]; unfold status_ok, status_of, in_uint; simpl; intros Hs.
  - done.
  - rewrite decide_True by lia. do 2 f_equal. lia.
  - rewrite decide_False, decide_False by lia. done.
Qed.

Lemma status_eq s s' : status_ok s → status_ok s' → abs s = abs s' → s = s'.
Proof. intros Hs Hs' Ha. by rewrite <- (status_of_abs s), <- (status_of_abs s'), Ha. Qed.

Lemma commit_ok s h :
  status_ok s → in_uint U32 h →
  status_ok (commit s h) ∧ abs (commit s h) = abs_commit (abs s) h.
Proof.
  unfold commit, apply_status, abs_commit, in_uint, sat_add.
  destruct s as [|[a b]|c]; simpl; intros Hs Hh.
  - unfold in_uint. split; [lia|]. f_equal; lia.
  - case_decide; simpl; [split; [lia|f_equal; lia]|].
    destruct (Z.compare_spec h b); simpl; unfold in_uint; (split; [lia|f_equal; lia]).
  - destruct (Z.compare_spec h c); simpl; unfold in_uint in *; (split; [lia|f_equal; lia]).
Qed.

Lemma observe_ok s h :
  status_ok s → in_uint U32 h →
  status_ok (observe s h).1 ∧ abs (observe s h).1 = abs_observe (abs s) h ∧
  ((observe s h).2 = true ↔ abs (observe s h).1 ≠ abs s).
Proof.
  unfold observe, apply_status, abs_observe, in_uint, observed_status, is_empty, checked_succ.
  destruct s as [|[a b]|c]; simpl; intros Hs Hh.
  - split; [lia|split; [f_equal; lia|]]. split; [|done]. intros _ [=]. lia.
  - destruct (Z.compare_spec b h); simpl; (split; [lia|split; [f_equal; lia|]]);
      (split; [done || (intros _ [=]; lia)|done]).
  - unfold in_uint in Hs. case_decide; simpl.
    + case_bool_decide; simpl; unfold in_uint; (split; [lia|split; [f_equal; lia|]]);
        (split; [done || (intros _ [=]; lia)|done]).
    + unfold in_uint. split; [lia|split; [f_equal; lia|done]].
Qed.

Lemma failed_ok s r :
  status_ok s → in_uint U32 (r_start r) → in_uint U32 (r_end r) →
  status_ok (failed_to_process s r) ∧ abs (failed_to_process s r) = abs_failed (abs s) r.
Proof.
  unfold failed_to_process, failed_status, apply_status, abs_failed, in_uint, is_empty, contains,
    reverted, checked_pred.
  destruct r as [x y], s as [|[a b]|c]; simpl; intros Hs Hx Hy; unfold in_uint in *;
    repeat (first [case_bool_decide | case_decide]; simpl in *); try lia;
    unfold in_uint; (split; [done || lia|]); done || (f_equal; lia).
Qed.

Lemma State_new_ok c o :
  (∀ h, c = Some h → in_uint U32 h) → (∀ h, o = Some h → in_uint U32 h) →
  status_ok (State_new c o) ∧
  abs (State_new c o) =
    {| p_committed := default (-1) c; p_target := Z.max (default (-1) c) (default (-1) o) |}.
Proof.
  intros Hc Ho. destruct c as [c|], o as [o|]; simpl; unfold checked_succ, is_empty;
    try specialize (Hc _ eq_refl); try specialize (Ho _ eq_refl); unfold in_uint in *.
  - case_decide; [case_bool_decide|]; simpl in *; unfold in_uint; (split; [lia|f_equal; lia]).
  - simpl. unfold in_uint. split; [lia|f_equal; lia].
  - split; [lia|f_equal; lia].
  - done.
Qed.

(** ** The state machine *)

Inductive SyncEvent :=
| EvCommit (height : Z)
| EvObserve (height : Z)
| EvFailed (range : Range).

Definition sync_step (s : Status) (e : SyncEvent) : Status :=
  match e with
  | EvCommit h => commit s h
  | EvObserve h => (observe s h).1
  | EvFailed r => failed_to_process s r
  end.

Definition abs_step (p : Progress) (e : SyncEvent) : Progress :=
  match e with
  | EvCommit h => abs_commit p h
  | EvObserve h => abs_observe p h
  | EvFailed r => abs_failed p r
  end.

Definition event_ok (e : SyncEvent) : Prop :=
  match e with
  | EvCommit h | EvObserve h => in_uint U32 h
  | EvFailed r => in_uint U32 (r_start r) ∧ in_uint U32 (r_end r)
  end.

Lemma sync_step_ok s e :
  status_ok s → event_ok e → status_ok (sync_step s e) ∧ abs (sync_step s e) = abs_step (abs s) e.
Proof.
  intros Hs He. destruct e as [h|h|r]; simpl.
  - by apply commit_ok.
  - by destruct (observe_ok s h Hs He) as (? & ? & _).
  - destruct He. by apply failed_ok.
Qed.

(** C36: The sync status is two heights.  After any sequence of commits, observations
    and failures the status is the one determined by the committed height and the
    target, where a commit raises both, an observation raises the target and a failure
    takes the target back to just before the failed blocks; so the range to process is
    exactly the heights above the committed one up to the target, and is not empty. *)
Theorem sync_status_refines_heights c o events :
  (∀ h, c = Some h → in_uint U32 h) → (∀ h, o = Some h → in_uint U32 h) → Forall event_ok events →
  let p := foldl abs_step {| p_committed := default (-1) c;
                             p_target := Z.max (default (-1) c) (default (-1) o) |} events in
  let s := foldl sync_step (State_new c o) events in
  s = status_of p ∧ p_committed p ≤ p_target p ∧
  process_range s =
    if decide (p_committed p < p_target p)
    then Some {| r_start := p_committed p + 1; r_end := p_target p |} else None.
Proof.
  intros Hc Ho He. destruct (State_new_ok c o Hc Ho) as [Hs Ha]. rewrite <- Ha.
  assert (∀ s, status_ok s → status_ok (foldl sync_step s events) ∧
    abs (foldl sync_step s events) = foldl abs_step (abs s) events) as Hrun.
  { clear -He. induction He as [|e events He _ IH]; intros s Hs; [done|]. cbn [foldl].
    destruct (sync_step_ok s e Hs He) as [Hs' <-]. by apply IH. }
  destruct (Hrun _ Hs) as [Hs' <-]. cbv zeta. set (s := foldl sync_step _ _) in *.
  split; [by rewrite status_of_abs|]. clearbody s. clear -Hs'.
  destruct s as [|[a b]|h]; simpl in *; unfold in_uint in *.
  - done.
  - split; [lia|]. rewrite decide_True by lia. do 2 f_equal. lia.
  - split; [lia|]. by rewrite decide_False by lia.
Qed.

(** Height 5 is committed, 9 observed, 6 committed, 8 and 9 fail. *)
Lemma sync_status_refines_heights_witness :
  process_range (foldl sync_step (State_new (Some 5) None)
    [EvObserve 9; EvCommit 6; EvFailed {| r_start := 8; r_end := 9 |}]) =
  Some {| r_start := 7; r_end := 7 |}.
Proof.
  destruct (sync_status_refines_heights (Some 5) None
    [EvObserve 9; EvCommit 6; EvFailed {| r_start := 8; r_end := 9 |}]) as (_ & _ & ->).
  - intros h [= <-]. vm_compute. by split.
  - done.
  - repeat constructor; vm_compute; discriminate.
  - reflexivity.
Defined.
