(* ===== verification/SyncCache.v ===== *)
(** * The cache of downloaded blocks

    Model of services/sync/src/import/cache.rs: headers and blocks by height, and the
    division of a range of heights into chunks of cached headers, cached blocks and
    missing data.  Headers and blocks are type parameters with their heights. *)

From stdpp Require Import prelude gmap list sorting.
From Stdlib Require Import ZArith Lia.
From S2P Require Import Prelude.
Local Open Scope Z_scope.

Section cache.
Context {Header Block Peer : Type} (header_height : Header → Z) (block_height : Block → Z).

Inductive CachedData :=
| CachedHeader (header : Header)
| CachedBlock (block : Block).

Abbreviation Cache := (gmap Z CachedData).

(** [Batch]: the range excludes its end. *)
Record Batch (T : Type) := {
  batch_peer : option Peer;
  batch_start : Z;
  batch_end : Z;
  results : list T;
}.
Arguments batch_peer {T} _.
Arguments batch_start {T} _.
Arguments batch_end {T} _.
Arguments results {T} _.

Inductive CachedDataBatch :=
| Headers (batch : Batch Header)
| Blocks (batch : Batch Block)
| Missing (first last : Z).

Definition chunk_start (ch : CachedDataBatch) : Z :=
  match ch with
  | Headers b => batch_start b
  | Blocks b => batch_start b
  | Missing a _ => a
  end.
Definition chunk_end (ch : CachedDataBatch) : Z :=
  match ch with
  | Headers b => batch_end b
  | Blocks b => batch_end b
  | Missing _ b => b
  end.

Definition is_range_empty (ch : CachedDataBatch) : bool :=
  bool_decide (chunk_end ch ≤ chunk_start ch).

Definition Cache_new : Cache := ∅.

Definition insert_blocks (batch : Batch Block) (m : Cache) : Cache :=
  foldl (λ m block, <[block_height block := CachedBlock block]> m) m (results batch).

Definition insert_headers (batch : Batch Header) (m : Cache) : Cache :=
  foldl (λ m header, <[header_height header := CachedHeader header]> m) m (results batch).

Definition remove_element (height : Z) (m : Cache) : Cache := delete height m.

(** [lock.range(range)]: the entries from [a] up to and including [b], by height. *)
Definition collect_cache_data (m : Cache) (a b : Z) : list (Z * CachedData) :=
  omap (λ h, (λ d, (h, d)) <$> m !! h) (seqZ a (b + 1 - a)).

(** The heights [(current..height).step_by(chunk_size)]. *)
Definition chunk_starts (current height chunk_size : Z) : list Z :=
  (λ i, current + i * chunk_size) <$> seqZ 0 ((height - current + chunk_size - 1) / chunk_size).

Definition missing_chunks (current height chunk_size fin : Z) : list CachedDataBatch :=
  (λ start, Missing start (Z.min (sat_add U32 start chunk_size) fin))
    <$> chunk_starts current height chunk_size.

Definition push_missing_chunks (chunks : list CachedDataBatch) (current height chunk_size fin : Z) :
    list CachedDataBatch :=
  chunks ++ missing_chunks current height chunk_size fin.

Definition new_batch {T} (height : Z) (data : T) : Batch T :=
  {| batch_peer := None; batch_start := height; batch_end := sat_add U32 height 1;
     results := [data] |}.

Definition grow {T} (b : Batch T) (data : T) : Batch T :=
  {| batch_peer := batch_peer b; batch_start := batch_start b;
     batch_end := sat_add U32 (batch_end b) 1; results := results b ++ [data] |}.

Definition is_full {T} (b : Batch T) (max_chunk_size : Z) : bool :=
  bool_decide (Z.max 0 (batch_end b - batch_start b) = max_chunk_size).

Definition handle_current_chunk (current : CachedDataBatch) (data : CachedData) (height : Z)
    (chunks : list CachedDataBatch) (max_chunk_size : Z) :
    CachedDataBatch * list CachedDataBatch :=
  match current, data with
  | Missing _ _, CachedHeader data => (Headers (new_batch height data), chunks)
  | Missing _ _, CachedBlock data => (Blocks (new_batch height data), chunks)
  | Headers batch, CachedHeader data =>
      if is_full batch max_chunk_size
      then (Headers (new_batch height data), chunks ++ [Headers batch])
      else (Headers (grow batch data), chunks)
  | Blocks batch, CachedBlock data =>
      if is_full batch max_chunk_size
      then (Blocks (new_batch height data), chunks ++ [Blocks batch])
      else (Blocks (grow batch data), chunks)
  | Headers batch, CachedBlock block =>
      (Blocks (new_batch height block), chunks ++ [Headers batch])
  | Blocks batch, CachedHeader header =>
      (Headers (new_batch height header), chunks ++ [Blocks batch])
  end.

Record Chunking := {
  chunks : list CachedDataBatch;
  current_chunk : CachedDataBatch;
  current_height : Z;
}.

Definition push_current (chs : list CachedDataBatch) (current : CachedDataBatch) :
    list CachedDataBatch :=
  if is_range_empty current then chs else chs ++ [current].

Definition chunk_entry (max_chunk_size fin : Z) (c : Chunking) (entry : Z * CachedData) : Chunking :=
  let '(height, data) := entry in
  let '(chs, current) :=
    if decide (height = current_height c) then (chunks c, current_chunk c)
    else (push_missing_chunks (push_current (chunks c) (current_chunk c)) (current_height c) height
            max_chunk_size fin, Missing 0 0) in
  let '(current, chs) := handle_current_chunk current data height chs max_chunk_size in
  {| chunks := chs; current_chunk := current; current_height := sat_add U32 height 1 |}.

(** [None]: [BTreeMap::range] panics on a range whose start is above its end. *)
Definition get_chunks (m : Cache) (a b max_chunk_size : Z) : option (list CachedDataBatch) :=
  if decide (b < a) then None
  else
    let fin := sat_add U32 b 1 in
    let c := foldl (chunk_entry max_chunk_size fin)
               {| chunks := []; current_chunk := Missing 0 0; current_height := a |}
               (collect_cache_data m a b) in
    Some (push_missing_chunks (push_current (chunks c) (current_chunk c)) (current_height c) fin
            max_chunk_size fin).

(** ** Facts *)

Implicit Types (m : Cache) (ch : CachedDataBatch).

(** A batch has the cached entries of its heights, in order. *)
Definition batch_holds {T} (wrap : T → CachedData) m (b : Batch T) : Prop :=
  Z.of_nat (length (results b)) = batch_end b - batch_start b ∧
  ∀ i x, results b !! i = Some x → m !! (batch_start b + Z.of_nat i) = Some (wrap x).

Definition chunk_holds m ch : Prop :=
  match ch with
  | Headers b => batch_holds CachedHeader m b
  | Blocks b => batch_holds CachedBlock m b
  | Missing a _ => m !! a = None
  end.

(** A chunk of the range from [a] up to [fin], excluded. *)
Record chunk_ok m (a fin max_chunk_size : Z) ch : Prop := {
  ck_inside : a ≤ chunk_start ch ∧ chunk_start ch < chunk_end ch ∧ chunk_end ch ≤ fin;
  ck_size : chunk_end ch - chunk_start ch ≤ max_chunk_size;
  ck_holds : chunk_holds m ch;
}.

Definition is_missing ch : bool := match ch with Missing _ _ => true | _ => false end.

(** The height [h] is in a chunk of the kind it needs. *)
Definition served m (chs : list CachedDataBatch) (h : Z) : Prop :=
  ∃ ch, ch ∈ chs ∧ chunk_start ch ≤ h < chunk_end ch ∧ (is_missing ch = true ↔ m !! h = None).

(** The chunks made so far, for the heights from [a] up to [h], excluded. *)
Record chunked m (a h fin max : Z) (chs : list CachedDataBatch) : Prop := {
  cd_ok : Forall (chunk_ok m a fin max) chs;
  cd_served x : a ≤ x < h → served m chs x;
  cd_sorted : StronglySorted Z.lt (chunk_start <$> chs);
  cd_before : Forall (λ s, s < h) (chunk_start <$> chs);
}.

Lemma served_app_l m chs chs' h : served m chs h → served m (chs ++ chs') h.
Proof. intros (ch & Hin & ?). exists ch. set_solver. Qed.
Lemma served_app_r m chs chs' h : served m chs' h → served m (chs ++ chs') h.
Proof. intros (ch & Hin & ?). exists ch. set_solver. Qed.

(** Chunks for the heights from [h] to [h'] extend those up to [h]. *)
Lemma chunked_app m a h h' fin max chs chs' :
  h ≤ h' → chunked m a h fin max chs →
  Forall (chunk_ok m a fin max) chs' → (∀ x, h ≤ x < h' → served m chs' x) →
  StronglySorted Z.lt (chunk_start <$> chs') →
  Forall (λ s, h ≤ s < h') (chunk_start <$> chs') →
  chunked m a h' fin max (chs ++ chs').
Proof.
  intros Hh [Hok Hsv Hso Hbe] Hok' Hsv' Hso' Hin. rewrite Forall_forall in Hbe, Hin. split.
  - by apply Forall_app.
  - intros x Hx. destruct (decide (x < h)).
    + apply served_app_l, Hsv. lia.
    + apply served_app_r, Hsv'. lia.
  - rewrite fmap_app. apply StronglySorted_app. split_and!; [|done..].
    intros x y Hx Hy. specialize (Hbe x Hx). specialize (Hin y Hy). lia.
  - rewrite fmap_app. apply Forall_app. rewrite !Forall_forall. split; intros x Hx.
    + specialize (Hbe x Hx). lia.
    + specialize (Hin x Hx). lia.
Qed.

Lemma chunk_starts_in current height size s :
  0 < size →
  s ∈ chunk_starts current height size → current ≤ s < height ∧ (s - current) mod size = 0.
Proof.
  intros Hsz (i & -> & Hi%elem_of_seqZ)%list_elem_of_fmap.
  assert (i * size < height - current).
  { assert (i ≤ (height - current + size - 1) / size - 1) as Hi' by lia.
    assert (size * ((height - current + size - 1) / size) ≤ height - current + size - 1)
      by (apply Z.mul_div_le; lia). nia. }
  split; [nia|]. replace (current + i * size - current) with (i * size) by lia.
  apply Z.mod_mul. lia.
Qed.

Lemma chunk_starts_sorted current height size :
  0 < size → StronglySorted Z.lt (chunk_starts current height size).
Proof.
  intros Hsz. unfold chunk_starts, seqZ. generalize (Z.to_nat ((height - current + size - 1) / size)).
  intros n. generalize 0%nat as k. induction n as [|n IH]; intros k; simpl; constructor; [apply IH|].
  rewrite Forall_forall. intros x (y & -> & (j & -> & Hj%elem_of_seq)%list_elem_of_fmap)%list_elem_of_fmap.
  nia.
Qed.

Lemma chunk_starts_cover current height size x :
  0 < size → current ≤ x < height →
  ∃ s, s ∈ chunk_starts current height size ∧ s ≤ x < s + size.
Proof.
  intros Hsz Hx. set (i := (x - current) / size).
  assert (size * i ≤ x - current) by (apply Z.mul_div_le; lia).
  assert (x - current < size * (i + 1)) by (unfold i; pose proof (Z.mul_succ_div_gt (x - current) size); lia).
  assert (0 ≤ i) by (apply Z.div_pos; lia).
  exists (current + i * size). split; [|nia]. apply list_elem_of_fmap. exists i. split; [done|].
  apply elem_of_seqZ. split; [lia|].
  assert (i + 1 ≤ (height - current + size - 1) / size); [|lia].
  apply Z.div_le_lower_bound; [lia|]. nia.
Qed.
Context (m : Cache) (a fin max : Z) (Hmax : 0 < max) (Hfin : fin ≤ U32).

Lemma chunked_missing h h' chs :
  a ≤ h → h ≤ h' ≤ fin → (∀ x, h ≤ x < h' → m !! x = None) →
  chunked m a h fin max chs → chunked m a h' fin max (push_missing_chunks chs h h' max fin).
Proof.
  intros Ha Hh Hnone Hc. unfold push_missing_chunks, missing_chunks.
  assert (chunk_start <$> ((λ start, Missing start (Z.min (sat_add U32 start max) fin))
    <$> chunk_starts h h' max) = chunk_starts h h' max) as Hst.
  { rewrite <- list_fmap_compose. apply list_fmap_id. }
  apply (chunked_app _ _ h); [lia|done|..|rewrite Hst].
  - apply Forall_fmap, Forall_forall. intros s Hs. destruct (chunk_starts_in h h' max s Hmax Hs) as [Hr _].
    split; simpl; unfold sat_add; [lia..|]. apply Hnone. lia.
  - intros x Hx. destruct (chunk_starts_cover h h' max x Hmax Hx) as (s & Hs & Hsx).
    eexists. split; [apply list_elem_of_fmap; eexists; split; [done|exact Hs]|]. simpl.
    unfold sat_add. split; [lia|]. by rewrite Hnone.
  - rewrite Hst. by apply chunk_starts_sorted.
  - apply Forall_forall. intros s Hs. by destruct (chunk_starts_in h h' max s Hmax Hs).
Qed.

Definition data_chunk (h : Z) (d : CachedData) : CachedDataBatch :=
  match d with
  | CachedHeader x => Headers (new_batch h x)
  | CachedBlock x => Blocks (new_batch h x)
  end.

Lemma new_batch_holds {T} (wrap : T → CachedData) h x :
  h < U32 → m !! h = Some (wrap x) → batch_holds wrap m (new_batch h x).
Proof.
  intros Hh Hx. split; simpl; [unfold sat_add; lia|]. intros [|i] y Hy; [|done].
  injection Hy as <-. by rewrite Z.add_0_r.
Qed.

Lemma data_chunk_ok h d : a ≤ h < fin → m !! h = Some d → chunk_ok m a fin max (data_chunk h d).
Proof.
  intros Hh Hd. split; [destruct d; simpl; unfold sat_add; lia..|].
  destruct d; apply new_batch_holds; done || lia.
Qed.

Lemma chunked_data h d chs :
  a ≤ h < fin → m !! h = Some d → chunked m a h fin max chs →
  chunked m a (h + 1) fin max (chs ++ [data_chunk h d]).
Proof.
  intros Hh Hd Hc. apply (chunked_app _ _ h); [lia|done|..].
  - constructor; [by apply data_chunk_ok|constructor].
  - intros x Hx. assert (x = h) as -> by lia. exists (data_chunk h d). split; [set_solver|].
    rewrite Hd. destruct d; simpl; unfold sat_add; (split; [lia|done]).
  - repeat constructor.
  - constructor; [|constructor]. destruct d; simpl; lia.
Qed.

(** A batch that ends at [h] takes the entry of [h]. *)
Lemma chunked_grow {T} (wrap : T → CachedData) (mk : Batch T → CachedDataBatch) (b : Batch T) x h chs :
  (∀ b, chunk_start (mk b) = batch_start b ∧ chunk_end (mk b) = batch_end b ∧
        is_missing (mk b) = false ∧ (chunk_holds m (mk b) ↔ batch_holds wrap m b)) →
  batch_end b = h → h < fin → batch_end b - batch_start b ≠ max → m !! h = Some (wrap x) →
  chunked m a h fin max (chs ++ [mk b]) → chunked m a (h + 1) fin max (chs ++ [mk (grow b x)]).
Proof.
  intros Hmk Hend Hh Hfull Hx [Hok Hsv Hso Hbe].
  destruct (Hmk b) as (Hs & He & Hmi & Hho), (Hmk (grow b x)) as (Hs' & He' & Hmi' & Hho').
  apply Forall_app in Hok as [Hok Hb]. apply Forall_singleton in Hb as [Hin Hsz Hholds].
  rewrite Hs, He in *. simpl in Hs', He'. unfold sat_add in He'.
  assert (chunk_start <$> chs ++ [mk (grow b x)] = chunk_start <$> chs ++ [mk b]) as Hsame.
  { rewrite !fmap_app. simpl. by rewrite Hs, Hs'. }
  split; rewrite ?Hsame; [|intros y Hy|done|].
  - apply Forall_app. split; [done|]. apply Forall_singleton. split; rewrite ?Hs', ?He'; [lia..|].
    apply Hho'. apply Hho in Hholds as [Hlen Hall]. split; simpl; unfold sat_add.
    + rewrite length_app. simpl. lia.
    + intros i y [Hi|[Hi Hy]]%lookup_app_Some; [by apply Hall|].
      apply list_lookup_singleton_Some in Hy as [Hi0 <-].
      replace (batch_start b + Z.of_nat i) with h by lia. done.
  - destruct (decide (y = h)) as [->|Hne].
    + exists (mk (grow b x)). split; [set_solver|]. rewrite Hs', He', Hx. split; [lia|].
      by rewrite Hmi'.
    + destruct (Hsv y) as (ch & [Hch|Hch%list_elem_of_singleton]%elem_of_app & Hr & Hm); [lia|..].
      * exists ch. set_solver.
      * subst ch. exists (mk (grow b x)). split; [set_solver|]. rewrite Hs', He'. rewrite Hs, He in Hr.
        split; [lia|]. by rewrite Hmi', <- Hmi.
  - eapply Forall_impl; [exact Hbe|]. simpl. lia.
Qed.
(** The chunk under construction is empty, or ends at [h]. *)
Definition current_ok (ch : CachedDataBatch) (h : Z) : Prop :=
  match ch with
  | Missing x y => x = 0 ∧ y = 0
  | Headers _ | Blocks _ => chunk_end ch = h ∧ chunk_start ch < h
  end.

(** The loop has dealt with the heights below [h]. *)
Record chunking_ok (h : Z) (c : Chunking) : Prop := {
  cg_height : current_height c = h;
  cg_chunked : chunked m a h fin max (push_current (chunks c) (current_chunk c));
  cg_current : current_ok (current_chunk c) h;
}.

Lemma push_data chs h d : h < fin → push_current chs (data_chunk h d) = chs ++ [data_chunk h d].
Proof.
  intros Hh. unfold push_current, is_range_empty. rewrite bool_decide_false; [done|].
  destruct d; simpl; unfold sat_add; lia.
Qed.

Lemma push_nonempty chs ch : chunk_start ch < chunk_end ch → push_current chs ch = chs ++ [ch].
Proof. intros Hc. unfold push_current, is_range_empty. by rewrite bool_decide_false by lia. Qed.

Lemma handle_current_ok current d h chs :
  a ≤ h < fin → m !! h = Some d →
  chunked m a h fin max (push_current chs current) →
  current_ok current h →
  let '(current', chs') := handle_current_chunk current d h chs max in
  chunking_ok (h + 1) {| chunks := chs'; current_chunk := current'; current_height := h + 1 |}.
Proof.
  intros Hh Hd Hc Hcur.
  assert (∀ chs0, chunked m a h fin max chs0 → chunking_ok (h + 1)
    {| chunks := chs0; current_chunk := data_chunk h d; current_height := h + 1 |}) as Hnew.
  { intros chs0 Hc0. split; simpl; [done|rewrite push_data by lia; by apply chunked_data|].
    destruct d; simpl; unfold sat_add; lia. }
  destruct current as [b|b|x y].
  - rewrite push_nonempty in Hc by (destruct Hcur; lia). destruct d as [d|d]; simpl; [|by apply (Hnew (chs ++ _))].
    unfold is_full. case_bool_decide as Hf; [by apply (Hnew (chs ++ _))|]. simpl in Hcur.
    split; simpl; [done| |unfold sat_add; lia].
    rewrite push_nonempty by (simpl; unfold sat_add; lia).
    by apply (chunked_grow CachedHeader Headers); [|lia|lia|lia|..].
  - rewrite push_nonempty in Hc by (destruct Hcur; lia). destruct d as [d|d]; simpl; [by apply (Hnew (chs ++ _))|].
    unfold is_full. case_bool_decide as Hf; [by apply (Hnew (chs ++ _))|]. simpl in Hcur.
    split; simpl; [done| |unfold sat_add; lia].
    rewrite push_nonempty by (simpl; unfold sat_add; lia).
    by apply (chunked_grow CachedBlock Blocks); [|lia|lia|lia|..].
  - destruct Hcur as [-> ->]. specialize (Hnew chs Hc). by destruct d.
Qed.

Lemma chunk_entry_ok c h height d :
  a ≤ h → h ≤ height < fin → (∀ x, h ≤ x < height → m !! x = None) → m !! height = Some d →
  chunking_ok h c → chunking_ok (height + 1) (chunk_entry max fin c (height, d)).
Proof.
  intros Ha Hh Hnone Hd [Hcur Hc Hcc]. unfold chunk_entry.
  assert (sat_add U32 height 1 = height + 1) as -> by (unfold sat_add; lia).
  destruct (decide (height = current_height c)) as [He|He]; rewrite Hcur in *.
  - rewrite <- He in *.
    pose proof (handle_current_ok (current_chunk c) d height (chunks c) ltac:(lia) Hd Hc Hcc) as Hk.
    by destruct (handle_current_chunk _ _ _ _ _).
  - pose proof (chunked_missing h height _ Ha ltac:(lia) Hnone Hc) as Hm.
    pose proof (handle_current_ok (Missing 0 0) d height
      (push_missing_chunks (push_current (chunks c) (current_chunk c)) h height max fin) ltac:(lia) Hd Hm (conj eq_refl eq_refl)) as Hk.
    by destruct (handle_current_chunk _ _ _ _ _).
Qed.

(** The entries from [h] on: none, or the next cached height and those after it. *)
Lemma entries_step h :
  h ≤ fin →
  (collect_cache_data m h (fin - 1) = [] ∧ ∀ x, h ≤ x < fin → m !! x = None) ∨
  ∃ height d, h ≤ height < fin ∧ (∀ x, h ≤ x < height → m !! x = None) ∧ m !! height = Some d ∧
    collect_cache_data m h (fin - 1) = (height, d) :: collect_cache_data m (height + 1) (fin - 1).
Proof.
  intros Hh. remember (Z.to_nat (fin - h)) as n eqn:Hn. revert h Hh Hn.
  induction n as [|n IH]; intros h Hh Hn.
  { left. unfold collect_cache_data. rewrite seqZ_nil by lia. split; [done|lia]. }
  assert (collect_cache_data m h (fin - 1) =
    match m !! h with Some d => [(h, d)] | None => [] end ++ collect_cache_data m (h + 1) (fin - 1)) as Hu.
  { unfold collect_cache_data. rewrite seqZ_cons by lia. simpl.
    replace (Z.pred (fin - 1 + 1 - h)) with (fin - 1 + 1 - (h + 1)) by lia.
    replace (Z.succ h) with (h + 1) by lia. by destruct (m !! h). }
  rewrite Hu. destruct (m !! h) as [d|] eqn:Hd.
  - right. exists h, d. split_and!; [lia..|done|done].
  - destruct (IH (h + 1)) as [[He Hnone]|(height & d & Hr & Hnone & Hd' & He)]; [lia|lia|left|right].
    + split; [done|]. intros x Hx. destruct (decide (x = h)) as [->|]; [done|apply Hnone; lia].
    + exists height, d. split_and!; [lia..| |done|done].
      intros x Hx. destruct (decide (x = h)) as [->|]; [done|apply Hnone; lia].
Qed.

Lemma chunk_loop_ok h c :
  a ≤ h → h ≤ fin → chunking_ok h c →
  let c' := foldl (chunk_entry max fin) c (collect_cache_data m h (fin - 1)) in
  chunked m a fin fin max (push_missing_chunks (push_current (chunks c') (current_chunk c'))
    (current_height c') fin max fin).
Proof.
  remember (Z.to_nat (fin - h)) as n eqn:Hn. revert h c Hn.
  induction (lt_wf n) as [n _ IH]; intros h c Hn Ha Hh Hc.
  destruct (entries_step h Hh) as [[-> Hnone]|(height & d & Hr & Hnone & Hd & ->)].
  - simpl. destruct Hc as [-> Hc _]. apply chunked_missing; done || lia.
  - cbn [foldl]. eapply (IH (Z.to_nat (fin - (height + 1)))); [lia|done|lia|lia|].
    by apply (chunk_entry_ok c h).
Qed.
End cache.
Arguments CachedData : clear implicits.
Arguments CachedDataBatch : clear implicits.

(** C37: The chunks of a range of heights serve all of it.  Every height is in a chunk of
    the kind it needs: cached headers or blocks if it is cached, a download otherwise;
    every chunk is inside the range and not longer than asked, a cached one has exactly
    the cached entries of its heights in order, and the chunks come in the order of
    their first heights. *)
Theorem chunks_serve_range {Header Block Peer : Type} (m : gmap Z (CachedData Header Block))
    (a b max : Z) :
  0 ≤ a ≤ b → b < U32 → 0 < max →
  ∃ chs : list (CachedDataBatch Header Block Peer), get_chunks m a b max = Some chs ∧
    (∀ h, a ≤ h ≤ b → served m chs h) ∧
    Forall (chunk_ok m a (b + 1) max) chs ∧
    StronglySorted Z.lt (chunk_start <$> chs).
Proof.
  intros Ha Hb Hmax. unfold get_chunks. rewrite decide_False by lia.
  eexists. split; [done|]. assert (sat_add U32 b 1 = b + 1) as -> by (unfold sat_add; lia).
  pose proof (chunk_loop_ok (Peer := Peer) m a (b + 1) max Hmax ltac:(lia) a
    {| chunks := []; current_chunk := Missing 0 0; current_height := a |}) as Hl.
  replace (b + 1 - 1) with b in Hl by lia.
  destruct Hl as [Hok Hsv Hso _]; [lia|lia| |].
  - split; simpl; [done| |done]. split; [constructor|lia|constructor|constructor].
  - split_and!; [|done..]. intros h Hh. apply Hsv. lia.
Qed.

Module SampleCache.
(** Only block 5 is cached. *)
Definition cache : gmap Z (CachedData Z Z) := {[5 := CachedBlock 5]}.
End SampleCache.

Lemma chunks_serve_range_witness :
  ∃ chs : list (CachedDataBatch Z Z unit), get_chunks SampleCache.cache 4 6 1 = Some chs ∧
    (∀ h, 4 ≤ h ≤ 6 → served SampleCache.cache chs h) ∧ length chs = 3%nat.
Proof.
  destruct (chunks_serve_range (Peer := unit) SampleCache.cache 4 6 1) as (chs & Hc & Hs & _);
    [done..|]. exists chs. split; [exact Hc|]. split; [exact Hs|].
  assert (length <$> get_chunks (Peer := unit) SampleCache.cache 4 6 1 = Some 3%nat) as Hl
    by (vm_compute; reflexivity).
  rewrite Hc in Hl. by injection Hl.
Defined.

(** A download may run into cached data: its chunk is cut at the end of the whole range,
    not at the next cached height.  With block 5 cached and chunks of 3, the heights 3 to
    5 are downloaded as one chunk and the cached block 5 follows. *)
Example download_overlaps_cached_block :
  get_chunks (Peer := unit) SampleCache.cache 0 10 3 =
  Some [Missing 0 3; Missing 3 6;
        Blocks {| batch_peer := None; batch_start := 5; batch_end := 6; results := [5] |};
        Missing 6 9; Missing 9 11].
Proof. vm_compute. reflexivity. Qed.
