(* ===== verification/HistoricalDb.v ===== *)
(** * Historical database

    Model of [HistoricalRocksDB] (fuel-core/src/state/historical_rocksdb.rs, with
    historical_rocksdb/description.rs and view_at_height.rs): every commit of a height
    stores next to the new values the reverse changes of that height, under which a
    block can be rolled back and old heights be read.  RocksDB itself is third-party
    code: a map from columns and keys to values, written in batches and iterated in
    the order of the bytes; its I/O errors are left out.  The postcard encoding is a
    class with the law that decoding inverts encoding. *)

From stdpp Require Import prelude gmap list strings sorting.
From Stdlib Require Import ZArith Lia.
From S2P Require Import Prelude.
From S2P Require Import StorageTx.
Local Open Scope Z_scope.

(** ** Bytes *)

(** [to_be_bytes] of an integer of [n] bytes. *)
Fixpoint to_be_bytes (n : nat) (x : Z) : list Z :=
  match n with
  | O => []
  | S n => to_be_bytes n (x / 256) ++ [x mod 256]
  end.

(** The order of byte strings. *)
Fixpoint key_leb (a b : Key) : bool :=
  match a, b with
  | [], _ => true
  | _ :: _, [] => false
  | x :: a, y :: b => if decide (x = y) then key_leb a b else bool_decide (x < y)
  end.
Definition key_le (a b : Key) : Prop := key_leb a b = true.
#[global] Instance key_le_dec : RelDecision key_le.
Proof. intros a b. unfold key_le. apply _. Defined.

(** ** RocksDB *)

Abbreviation Db := (gmap Z (gmap Key Value)).

Definition db_get (db : Db) (k : Key) (c : Z) : option Value := db !! c ≫= lookup k.

#[global] Instance rocks_inspect : KeyValueInspect Db := {
  kv_exists db k c := Ok (bool_decide (is_Some (db_get db k c)));
  kv_size_of_value db k c := Ok (zlength <$> db_get db k c);
  kv_get db k c := Ok (db_get db k c);
  kv_read_exact db k c offset buf :=
    Ok match db_get db k c with None => (Err KeyNotFound, buf) | Some v => exact_from v offset buf end;
  kv_read_zerofill db k c offset buf :=
    Ok match db_get db k c with None => (Err KeyNotFound, buf) | Some v => zerofill_from v offset buf end;
}.

Inductive StorageChanges :=
| SChanges (ch : Changes)
| SChangesList (list : list Changes).

Definition write_op (db : Db) (entry : Z * Key * WriteOperation) : Db :=
  let '(c, k, op) := entry in
  let column := default ∅ (db !! c) in
  <[c := match op with Insert v => <[k := v]> column | Remove => delete k column end]> db.

Definition write_batch (db : Db) (batch : list (Z * Key * WriteOperation)) : Db :=
  foldl write_op db batch.

Section rocks.
Context `{!HashOrder Z} `{!HashOrder Key}.

(** The operations of a set of changes in the order they are visited. *)
Definition column_operations (ch : Changes) (c : Z) : list (Z * Key * WriteOperation) :=
  match ch !! c with
  | None => []
  | Some ops => omap (λ k, (λ op, (c, k, op)) <$> ops !! k) (hs_iter (dom ops))
  end.
Definition operations (ch : Changes) : list (Z * Key * WriteOperation) :=
  hs_iter (dom ch) ≫= column_operations ch.

(** [_populate_batch]: a key that was met before is a conflict. *)
Fixpoint populate_batch (entries : list (Z * Key * WriteOperation))
    (found : gset (Z * Key)) (batch : list (Z * Key * WriteOperation)) :
    result (gset (Z * Key) * list (Z * Key * WriteOperation)) StorageError :=
  match entries with
  | [] => Ok (found, batch)
  | (c, k, op) :: entries =>
      if decide ((c, k) ∈ found) then Err "ConflictingChanges"
      else populate_batch entries ({[(c, k)]} ∪ found) (batch ++ [(c, k, op)])
  end.

Definition changes_list (changes : StorageChanges) : list Changes :=
  match changes with SChanges ch => [ch] | SChangesList l => l end.

(** [RocksDb::commit_changes]: one atomic write, or nothing on a conflict. *)
Definition rocks_commit_changes (changes : StorageChanges) (db : Db) : Db * result unit StorageError :=
  match try_fold (λ '(found, batch) ch, populate_batch (operations ch) found batch)
          (∅, []) (changes_list changes) with
  | Ok (_, batch) => (write_batch db batch, Ok ())
  | Err e => (db, Err e)
  end.
End rocks.

Definition entry_le (x y : Key * Value) : Prop := key_le x.1 y.1.
#[global] Instance entry_le_dec : RelDecision entry_le.
Proof. intros x y. unfold entry_le. apply _. Defined.

(** [iterator(.., From(from, Forward)).next()]: the least key not below [from]. *)
Definition seek (column : gmap Key Value) (from : Key) : option (Key * Value) :=
  head (merge_sort entry_le (filter (λ x, key_le from x.1) (map_to_list column))).

(** ** Columns of the historical database *)

Definition HISTORY_COLUMN_ID : Z := U32 / 2.
Definition HISTORY_V2_COLUMN_ID : Z := HISTORY_COLUMN_ID + 1.
Definition historical_duplicate_column_id (id : Z) : Z := sat_sub (sat_sub HISTORY_COLUMN_ID 1) id.

Definition height_key (key : Key) (height : Z) : Key := key ++ to_be_bytes 8 height.

(** ** The encoding *)

Class Postcard := {
  ser_op : WriteOperation → Value;
  de_op : Value → option WriteOperation;
  ser_changes : Changes → Value;
  de_changes : Value → option Changes;
  ser_u64 : Z → Key;
}.

Class PostcardLaws `{!Postcard} : Prop := {
  de_ser_op op : de_op (ser_op op) = Some op;
  de_ser_changes ch : de_changes (ser_changes ch) = Some ch;
}.

Inductive StateRewindPolicy :=
| NoRewind
| RewindFullRange
| RewindRange (size : Z).

Record HistoricalRocksDB := {
  state_rewind_policy : StateRewindPolicy;
  rocks : Db;
  has_v1_history : bool;
}.

Section historical.
Context `{!HashOrder Z} `{!HashOrder Key} `{!Postcard}.

Abbreviation Tx := (InMemoryTransaction Db).

(** ** Reverse changes *)

Definition reverse_op (was : option Value) (became : WriteOperation) : option WriteOperation :=
  match was, became with
  | None, Remove => None
  | None, Insert _ => Some Remove
  | Some old_value, Remove => Some (Insert old_value)
  | Some old_value, Insert new_value =>
      if decide (old_value = new_value) then None else Some (Insert old_value)
  end.

Definition reverse_history_changes (db : Db) (ch : Changes) : Changes :=
  map_imap (λ c ops, Some (map_imap (λ k became, reverse_op (db_get db k c) became) ops)) ch.

(** ** The tables of modifications *)

Definition decode_changes (r : result (option Value) StorageError) :
    result (option Changes) StorageError :=
  result_bind r (λ o, match o with
                      | None => Ok None
                      | Some v => match de_changes v with
                                  | Some ch => Ok (Some ch)
                                  | None => Err "Codec"
                                  end
                      end).

Definition key_v2 (height : Z) : Key := to_be_bytes 8 height.

Definition v2_take (t : Tx) (height : Z) : Tx * result (option Changes) StorageError :=
  let '(t, r) := take_value t (key_v2 height) HISTORY_V2_COLUMN_ID in (t, decode_changes r).
Definition v1_take (t : Tx) (height : Z) : Tx * result (option Changes) StorageError :=
  let '(t, r) := take_value t (ser_u64 height) HISTORY_COLUMN_ID in (t, decode_changes r).
Definition v2_replace (t : Tx) (height : Z) (ch : Changes) : Tx * result (option Changes) StorageError :=
  let '(t, r) := replace t (key_v2 height) HISTORY_V2_COLUMN_ID (ser_changes ch) in
  (t, decode_changes r).

Definition multiversion_contains (db : Db) (height : Z) (has_v1 : bool) :
    result bool StorageError :=
  let t := into_transaction db in
  result_bind (tx_exists t (key_v2 height) HISTORY_V2_COLUMN_ID) (λ contains_v2,
    if negb contains_v2 && has_v1 then tx_exists t (ser_u64 height) HISTORY_COLUMN_ID
    else Ok contains_v2).

Definition multiversion_take (t : Tx) (height : Z) (has_v1 : bool) :
    Tx * result (option Changes) StorageError :=
  let '(t, r) := v2_take t height in
  match r with
  | Ok None => if has_v1 then v1_take t height else (t, Ok None)
  | r => (t, r)
  end.

(** Changes in the columns of the history, by the columns they are about. *)
Definition collect_columns (f : Column → Column) (ch : Changes) : Changes :=
  foldl (λ acc c, match ch !! c with
                  | Some ops => <[historical_duplicate_column_id c := f ops]> acc
                  | None => acc
                  end) ∅ (hs_iter (dom ch)).

(** [StorageTransaction::transaction(tx, Overwrite, changes).commit()]. *)
Definition commit_into (t : Tx) (ch : Changes) : Tx * result unit StorageError :=
  commit (transaction t PolicyOverwrite ch).

Definition remove_historical_modifications (old_height : Z) (t : Tx) (reverse_changes : Changes) :
    Tx * result unit StorageError :=
  commit_into t (collect_columns
    (λ ops, kmap (λ key, height_key key old_height) ((λ _, Remove) <$> ops)) reverse_changes).

(** [remove_v1_entries] clears the table at once, below the transaction. *)
Definition remove_v1_entries (h : HistoricalRocksDB) : HistoricalRocksDB :=
  if has_v1_history h then
    {| state_rewind_policy := state_rewind_policy h; rocks := delete HISTORY_COLUMN_ID (rocks h);
       has_v1_history := false |}
  else h.

Definition with_storage {S} (s : S) (t : InMemoryTransaction S) : InMemoryTransaction S :=
  Build_InMemoryTransaction (changes t) (policy t) s.

Definition cleanup_old_changes (h : HistoricalRocksDB) (height : Z) (t : Tx) :
    HistoricalRocksDB * Tx * result unit StorageError :=
  match state_rewind_policy h with
  | NoRewind | RewindFullRange => (h, t, Ok ())
  | RewindRange size =>
      let old_height := sat_sub height size in
      let '(t, r) := v2_take t old_height in
      match r with
      | Err e => (h, t, Err e)
      | Ok None => (h, t, Ok ())
      | Ok (Some old_changes) =>
          let '(t, r) := remove_historical_modifications old_height t old_changes in
          match r with
          | Err e => (h, t, Err e)
          | Ok _ => let h := remove_v1_entries h in (h, with_storage (rocks h) t, Ok ())
          end
      end
  end.

Definition store_modifications_history (h : HistoricalRocksDB) (t : Tx) (height : Z) :
    HistoricalRocksDB * Tx * result unit StorageError :=
  match state_rewind_policy h with
  | NoRewind => (h, t, Ok ())
  | _ =>
      let reverse_changes := reverse_history_changes (rocks h) (changes t) in
      let '(h, t, r) := cleanup_old_changes h height t in
      match r with
      | Err e => (h, t, Err e)
      | Ok _ =>
          let '(t, r) := v2_replace t height reverse_changes in
          match r with
          | Err e => (h, t, Err e)
          | Ok old_changes =>
              let '(t, r) := match old_changes with
                             | Some old_changes => remove_historical_modifications height t old_changes
                             | None => (t, Ok ())
                             end in
              match r with
              | Err e => (h, t, Err e)
              | Ok _ =>
                  let historical_changes := collect_columns
                    (λ ops, kmap (λ key, height_key key height) ((λ op, Insert (ser_op op)) <$> ops))
                    reverse_changes in
                  let '(t, r) := commit_into t historical_changes in (h, t, r)
              end
          end
      end
  end.

(** ** The operations of the database *)

Definition with_rocks (db : Db) (h : HistoricalRocksDB) : HistoricalRocksDB :=
  {| state_rewind_policy := state_rewind_policy h; rocks := db; has_v1_history := has_v1_history h |}.

(** [list.into_iter().flatten().collect()]: a later column takes the place of an
    earlier one. *)
Definition flatten_changes (list : list Changes) : Changes := foldl (λ acc ch, ch ∪ acc) ∅ list.

Definition hist_commit_changes (h : HistoricalRocksDB) (height : option Z) (ch : StorageChanges) :
    HistoricalRocksDB * result unit StorageError :=
  let '(h, ch) :=
    match height, state_rewind_policy h with
    | None, _ | _, NoRewind => (h, Ok ch)
    | Some height, _ =>
        let all_changes := match ch with SChanges ch => ch | SChangesList l => flatten_changes l end in
        let t := transaction (rocks h) PolicyOverwrite all_changes in
        let '(h, t, r) := store_modifications_history h t height in
        (h, match r with Ok _ => Ok (SChanges (changes t)) | Err e => Err e end)
    end in
  match ch with
  | Err e => (h, Err e)
  | Ok ch => let '(db, r) := rocks_commit_changes ch (rocks h) in (with_rocks db h, r)
  end.

Definition rollback_block_to (h : HistoricalRocksDB) (height_to_rollback : Z) :
    HistoricalRocksDB * result unit StorageError :=
  let t := into_transaction (rocks h) in
  let '(t, r) := multiversion_take t height_to_rollback (has_v1_history h) in
  match r with
  | Err e => (h, Err e)
  | Ok None => (h, Err "NotFound")
  | Ok (Some last_changes) =>
      let '(t, r) := remove_historical_modifications height_to_rollback t last_changes in
      match r with
      | Err e => (h, Err e)
      | Ok _ =>
          let '(t, r) := commit_into t last_changes in
          match r with
          | Err e => (h, Err e)
          | Ok _ =>
              let '(db, r) := rocks_commit_changes (SChanges (changes t)) (rocks h) in
              (with_rocks db h, r)
          end
      end
  end.

(** ** Views at a height *)

Record ViewAtHeight := { view_height : Z; read_db : Db }.

Definition create_view_at (h : HistoricalRocksDB) (height : Z) : result ViewAtHeight StorageError :=
  let rollback_height := sat_add U64 height 1 in
  result_bind (multiversion_contains (rocks h) rollback_height (has_v1_history h)) (λ contains,
    result_bind (if contains then Ok true
                 else multiversion_contains (rocks h) height (has_v1_history h)) (λ contains,
      if contains then Ok {| view_height := rollback_height; read_db := rocks h |}
      else Err "NoHistoryForRequestedHeight")).

(** [None]: the slice of a found key shorter than the key asked for panics. *)
Definition view_get (v : ViewAtHeight) (key : Key) (column : Z) :
    option (result (option Value) StorageError) :=
  let current := Ok (db_get (read_db v) key column) in
  match seek (default ∅ (read_db v !! historical_duplicate_column_id column))
          (height_key key (view_height v)) with
  | None => Some current
  | Some (found_key, value) =>
      if decide (length found_key < length key)%nat then None
      else Some (if decide (take (length key) found_key = key) then
                   match de_op value with
                   | None => Err "Codec"
                   | Some (Insert value) => Ok (Some value)
                   | Some Remove => Ok None
                   end
                 else current)
  end.
End historical.

(** ** Facts about bytes *)

Lemma to_be_bytes_length n x : length (to_be_bytes n x) = n.
Proof. revert x. induction n as [|n IH]; intros x; simpl; [done|]. rewrite length_app, IH. simpl. lia. Qed.

Lemma to_be_bytes_inj n x y :
  0 ≤ x < 256 ^ Z.of_nat n → 0 ≤ y < 256 ^ Z.of_nat n → to_be_bytes n x = to_be_bytes n y → x = y.
Proof.
  revert x y. induction n as [|n IH]; intros x y Hx Hy; simpl; [lia|].
  intros [Hh Hl]%app_inj_2; [|done]. rewrite Nat2Z.inj_succ, Z.pow_succ_r in * by lia.
  assert (x / 256 = y / 256).
  { apply IH; [split; [apply Z.div_pos; lia|apply Z.div_lt_upper_bound; lia]..|done]. }
  injection Hl as Hl. rewrite (Z.div_mod x 256), (Z.div_mod y 256) by done. congruence.
Qed.

Lemma key_le_refl a : key_le a a.
Proof. unfold key_le. induction a as [|x a IH]; simpl; [done|]. by rewrite decide_True. Qed.

(** Two keys neither of which continues the other. *)
Definition incomparable (a b : Key) : Prop :=
  (a `prefix_of` b → a = b) ∧ (b `prefix_of` a → a = b).

Lemma key_le_app a b x y :
  incomparable a b → key_le (a ++ x) (b ++ y) ↔ (a ≠ b ∧ key_le a b) ∨ (a = b ∧ key_le x y).
Proof.
  unfold key_le. revert b. induction a as [|z a IH]; intros b [Hab Hba].
  { rewrite <- Hab by apply prefix_nil. simpl. naive_solver. }
  destruct b as [|w b]; [by specialize (Hba (prefix_nil _))|]. simpl in *. destruct (decide (z = w)) as [->|Hne].
  - rewrite IH; [split; (intros [[? ?]|[? ?]]; [left|right]); split; congruence || done|].
    split; intros Hp; [specialize (Hab (prefix_cons _ _ _ Hp))|specialize (Hba (prefix_cons _ _ _ Hp))]; congruence.
  - split; [intros Hb; left; split; [congruence|done]|]. intros [[_ Hb]|[Heq _]]; congruence.
Qed.

Lemma same_length_incomparable (a b : Key) : length a = length b → incomparable a b.
Proof. intros Hl. split; intros Hp; [|symmetry]; (apply prefix_length_eq; [done|lia]). Qed.

Lemma to_be_bytes_le n x y :
  0 ≤ x < 256 ^ Z.of_nat n → 0 ≤ y < 256 ^ Z.of_nat n →
  key_le (to_be_bytes n x) (to_be_bytes n y) ↔ x ≤ y.
Proof.
  revert x y. induction n as [|n IH]; intros x y Hx Hy; cbn [to_be_bytes]; [simpl in *; unfold key_le; simpl; lia|].
  rewrite Nat2Z.inj_succ, Z.pow_succ_r in * by lia.
  assert (∀ z, 0 ≤ z < 256 * 256 ^ Z.of_nat n → 0 ≤ z / 256 < 256 ^ Z.of_nat n) as Hdiv.
  { intros z Hz. split; [apply Z.div_pos; lia|apply Z.div_lt_upper_bound; lia]. }
  rewrite key_le_app, IH by (auto; apply same_length_incomparable; by rewrite !to_be_bytes_length).
  pose proof (Z.div_mod x 256 ltac:(done)). pose proof (Z.div_mod y 256 ltac:(done)).
  pose proof (Z.mod_pos_bound x 256 ltac:(done)). pose proof (Z.mod_pos_bound y 256 ltac:(done)).
  assert (key_le [x mod 256] [y mod 256] ↔ x mod 256 ≤ y mod 256) as ->.
  { unfold key_le. simpl. case_decide; [split; [lia|done]|]. rewrite bool_decide_eq_true. lia. }
  split.
  - intros [[Hne Hle]|[He%to_be_bytes_inj Hle]]; [|lia|by apply Hdiv..].
    assert (x / 256 ≠ y / 256) by congruence. lia.
  - intros Hle. destruct (decide (x / 256 = y / 256)) as [He|Hne]; [right; split; [congruence|lia]|].
    left. split; [|lia]. intros He%to_be_bytes_inj; [done|by apply Hdiv..].
Qed.

Lemma height_key_inj k k' x x' :
  in_uint U64 x → in_uint U64 x' → height_key k x = height_key k' x' → k = k' ∧ x = x'.
Proof.
  unfold height_key. intros Hx Hx' [Hk He]%app_inj_2; [|by rewrite !to_be_bytes_length].
  split; [done|]. by apply to_be_bytes_inj in He; [|int_lia..].
Qed.

Lemma key_v2_inj x x' : in_uint U64 x → in_uint U64 x' → key_v2 x = key_v2 x' → x = x'.
Proof. intros Hx Hx'. apply to_be_bytes_inj; int_lia. Qed.

Lemma key_le_trans a b c : key_le a b → key_le b c → key_le a c.
Proof.
  unfold key_le. revert b c. induction a as [|x a IH]; intros [|y b] [|z c]; simpl; try done.
  repeat case_decide; simplify_eq; try done; rewrite ?bool_decide_eq_true; try lia.
  apply IH.
Qed.

Lemma key_le_antisym a b : key_le a b → key_le b a → a = b.
Proof.
  unfold key_le. revert b. induction a as [|x a IH]; intros [|y b]; simpl; try done.
  repeat case_decide; simplify_eq; rewrite ?bool_decide_eq_true; try lia.
  intros ? ?. f_equal. by apply IH.
Qed.

Lemma key_le_total a b : key_le a b ∨ key_le b a.
Proof.
  unfold key_le. revert b. induction a as [|x a IH]; intros [|y b]; simpl; auto.
  destruct (decide (x = y)) as [->|Hne]; [rewrite decide_True by done; apply IH|].
  rewrite decide_False by done. rewrite !bool_decide_eq_true. lia.
Qed.

Lemma seek_some m from k v :
  seek m from = Some (k, v) →
  m !! k = Some v ∧ key_le from k ∧
  ∀ k' v', m !! k' = Some v' → key_le from k' → key_le k k'.
Proof.
  unfold seek. set (l := filter _ _).
  assert (Sorted entry_le (merge_sort entry_le l)) as Hs.
  { apply Sorted_merge_sort. intros [a ?] [b ?]. apply key_le_total. }
  assert (∀ x, x ∈ merge_sort entry_le l ↔ key_le from x.1 ∧ m !! x.1 = Some x.2) as Hin.
  { intros [a b]. rewrite merge_sort_Permutation. unfold l.
    by rewrite list_elem_of_filter, elem_of_map_to_list. }
  destruct (merge_sort entry_le l) as [|x l'] eqn:Hm; [done|]. intros [= ->].
  destruct (Hin (k, v)) as [[Hle Hk] _]; [set_solver|]. split_and!; [done..|].
  intros k' v' Hk' Hle'. assert ((k', v') ∈ (k, v) :: l') as [Heq|Hin']%elem_of_cons by (by apply Hin).
  - injection Heq as -> ->. apply key_le_refl.
  - apply Sorted_StronglySorted in Hs; [|intros [] [] []; apply key_le_trans].
    apply StronglySorted_inv in Hs as [_ Hs]. rewrite Forall_forall in Hs. by apply (Hs (k', v')).
Qed.

Lemma seek_none m from k v : seek m from = None → m !! k = Some v → ¬ key_le from k.
Proof.
  unfold seek. set (l := filter _ _). intros Hm Hk Hle.
  assert ((k, v) ∈ merge_sort entry_le l) as Hin.
  { rewrite merge_sort_Permutation. unfold l. by rewrite list_elem_of_filter, elem_of_map_to_list. }
  destruct (merge_sort entry_le l); [set_solver|done].
Qed.

(** ** Facts about the store *)

(** What a key holds after a change. *)
Definition apply_change (o : option WriteOperation) (below : option Value) : option Value :=
  match o with Some op => View.value_of op | None => below end.

Lemma db_get_write_op db c k op k' c' :
  db_get (write_op db (c, k, op)) k' c' =
  if decide (k' = k ∧ c' = c) then View.value_of op else db_get db k' c'.
Proof.
  unfold db_get, write_op. destruct (decide (c' = c)) as [->|Hc].
  - rewrite lookup_insert_eq. cbn [mbind option_bind].
    assert (∀ k, default ∅ (db !! c) !! k = db !! c ≫= lookup k) as Hd.
    { intros k0. destruct (db !! c); [done|]. apply lookup_empty. }
    destruct (decide (k' = k)) as [->|Hk].
    + rewrite decide_True by done. destruct op; simpl; [by rewrite lookup_insert_eq|by rewrite lookup_delete_eq].
    + rewrite decide_False by naive_solver. rewrite <- Hd.
      destruct op; [by rewrite lookup_insert_ne|by rewrite lookup_delete_ne].
  - rewrite lookup_insert_ne by done. by rewrite decide_False by naive_solver.
Qed.

Lemma db_get_column db c k : default ∅ (db !! c) !! k = db_get db k c.
Proof. unfold db_get. destruct (db !! c); [done|]. apply lookup_empty. Qed.

Section rocks_facts.
Context `{!HashOrder Z} `{!HashOrder Key}.

Lemma column_operations_in ch c x :
  x ∈ column_operations ch c ↔ x.1.1 = c ∧ change_at ch x.1.2 c = Some x.2.
Proof.
  destruct x as [[c' k] op]. unfold column_operations, change_at. cbn [fst snd]. split.
  - intros Hin. destruct (ch !! c) as [ops|]; [|set_solver].
    apply list_elem_of_omap in Hin as (k' & _ & Hk').
    destruct (ops !! k') eqn:Hk; simpl in *; by simplify_eq.
  - intros [-> Hk]. destruct (ch !! c) as [ops|]; [|done]. cbn [mbind option_bind] in Hk.
    apply list_elem_of_omap. exists k. rewrite Hk, hs_iter_in, elem_of_dom. done.
Qed.

Lemma operations_in ch c k op : (c, k, op) ∈ operations ch ↔ change_at ch k c = Some op.
Proof.
  unfold operations. rewrite list_elem_of_bind. split.
  - intros (c' & [<- ?]%column_operations_in & _). done.
  - intros Hk. exists c. rewrite column_operations_in. split; [done|].
    rewrite hs_iter_in, elem_of_dom. unfold change_at in Hk. by destruct (ch !! c).
Qed.

Lemma column_operations_NoDup ch c : NoDup (fst <$> column_operations ch c).
Proof.
  unfold column_operations. destruct (ch !! c) as [ops|]; [|constructor].
  induction (hs_iter_NoDup (dom ops)) as [|k l Hk Hnd IH]; [constructor|]. csimpl.
  destruct (ops !! k) eqn:Ho; simpl; [|done]. constructor; [|done].
  intros ([[c' k'] op'] & Heq & (k2 & Hin & Hk2)%list_elem_of_omap)%list_elem_of_fmap.
  destruct (ops !! k2); simpl in *; by simplify_eq.
Qed.

Lemma operations_NoDup ch : NoDup (fst <$> operations ch).
Proof.
  unfold operations. induction (hs_iter_NoDup (dom ch)) as [|c l Hc Hnd IH]; [constructor|].
  csimpl. rewrite fmap_app. apply NoDup_app. split_and!; [apply column_operations_NoDup| |done].
  intros x (y & -> & [Hy _]%column_operations_in)%list_elem_of_fmap
    (z & Hz & (c' & [Hz' _]%column_operations_in & Hc')%list_elem_of_bind)%list_elem_of_fmap.
  congruence.
Qed.

Lemma populate_batch_ok entries found batch :
  NoDup (fst <$> entries) → (∀ x, x ∈ fst <$> entries → x ∉ found) →
  ∃ found', populate_batch entries found batch = Ok (found', batch ++ entries).
Proof.
  revert found batch. induction entries as [|[[c k] op] entries IH]; intros found batch Hnd Hf; simpl.
  { exists found. by rewrite app_nil_r. }
  csimpl in Hnd. apply NoDup_cons in Hnd as [Hni Hnd]. simpl in Hni.
  rewrite decide_False by (apply Hf; set_solver).
  destruct (IH ({[(c, k)]} ∪ found) (batch ++ [(c, k, op)])) as [found' ->]; [done| |].
  - intros x Hx. assert (x ≠ (c, k)) by congruence. set_solver.
  - exists found'. by rewrite <- app_assoc.
Qed.

Lemma write_batch_get db batch k c :
  NoDup (fst <$> batch) →
  (∀ op, (c, k, op) ∈ batch → db_get (write_batch db batch) k c = View.value_of op) ∧
  ((∀ op, (c, k, op) ∉ batch) → db_get (write_batch db batch) k c = db_get db k c).
Proof.
  unfold write_batch. revert db. induction batch as [|[[c' k'] op'] batch IH]; intros db Hnd.
  { split; [set_solver|done]. }
  csimpl in Hnd. apply NoDup_cons in Hnd as [Hni Hnd]. cbn [foldl].
  destruct (IH (write_op db (c', k', op')) Hnd) as [IHin IHout]. split.
  - intros op [Heq|Hin]%elem_of_cons; [|by apply IHin]. injection Heq as -> -> ->.
    rewrite IHout, db_get_write_op; [by rewrite decide_True|].
    intros op Hop. apply Hni, list_elem_of_fmap. by exists (c', k', op).
  - intros Hno. rewrite IHout, db_get_write_op by set_solver.
    rewrite decide_False; [done|]. intros [-> ->]. apply (Hno op'). set_solver.
Qed.

Lemma rocks_commit_single ch db :
  ∃ db', rocks_commit_changes (SChanges ch) db = (db', Ok ()) ∧
  ∀ k c, db_get db' k c = apply_change (change_at ch k c) (db_get db k c).
Proof.
  unfold rocks_commit_changes. cbn [changes_list try_fold].
  destruct (populate_batch_ok (operations ch) ∅ [] (operations_NoDup ch)) as [found Hp]; [set_solver|].
  rewrite Hp. cbn [result_bind]. eexists. split; [done|]. intros k c.
  destruct (write_batch_get db (operations ch) k c (operations_NoDup ch)) as [Hin Hout].
  destruct (change_at ch k c) as [op|] eqn:Hc.
  - by apply Hin, operations_in.
  - apply Hout. intros op Hop%operations_in. congruence.
Qed.
End rocks_facts.
