(* ===== verification/HistoricalDbFacts.v ===== *)
(** * Correctness of the historical database

    The database is a stack of versions: a commit of the next height pushes the state
    it leads to, a rollback pops it, and a view at a height reads the version of that
    height, for as many heights back as the policy keeps. *)

From stdpp Require Import prelude gmap list strings sorting.
From Stdlib Require Import ZArith Lia.
From S2P Require Import Prelude.
From S2P Require Import StorageTx.
From S2P Require Import HistoricalDb.
Local Open Scope Z_scope.

(** ** Columns *)

(** The columns of the description: their ids, the ids of their duplicates and the two
    history columns do not meet. *)
Definition is_original (c : Z) : Prop := 0 ≤ c < HISTORY_COLUMN_ID / 2.

Ltac column_lia :=
  unfold is_original, historical_duplicate_column_id, HISTORY_V2_COLUMN_ID, HISTORY_COLUMN_ID, sat_sub, U32 in *;
  change (4294967295 / 2) with 2147483647 in *; change (2147483647 / 2) with 1073741823 in *; lia.

Lemma dup_inj c c' :
  is_original c → is_original c' →
  historical_duplicate_column_id c = historical_duplicate_column_id c' → c = c'.
Proof. column_lia. Qed.
Lemma dup_not_original c : is_original c → ¬ is_original (historical_duplicate_column_id c).
Proof. column_lia. Qed.
Lemma dup_not_v2 c : is_original c → historical_duplicate_column_id c ≠ HISTORY_V2_COLUMN_ID.
Proof. column_lia. Qed.
Lemma v2_not_original : ¬ is_original HISTORY_V2_COLUMN_ID.
Proof. column_lia. Qed.
#[global] Hint Resolve dup_not_original dup_not_v2 v2_not_original : core.

(** Which keys the tables of a description use: in a column no key continues another
    one, and lengths differ by less than the height that is appended to them. *)
Record key_format (keys : Z → Key → Prop) : Prop := {
  kf_prefix c k k' : keys c k → keys c k' → incomparable k k';
  kf_length c k k' : keys c k → keys c k' → (length k ≤ length k' + 8)%nat;
}.

(** Changes of the columns of the description, with keys of their tables. *)
Definition wf_changes (keys : Z → Key → Prop) (ch : Changes) : Prop :=
  (∀ c, is_Some (ch !! c) → is_original c) ∧
  (∀ k c, is_Some (change_at ch k c) → keys c k).

Lemma wf_change_at keys ch k c op : wf_changes keys ch → change_at ch k c = Some op → is_original c.
Proof. intros [Hc _] Hk. apply Hc. unfold change_at in Hk. by destruct (ch !! c). Qed.

Section facts.
Context `{!HashOrder Z} `{!HashOrder Key} `{!Postcard} `{!PostcardLaws}.
Context (keys : Z → Key → Prop).

Lemma commit_into_ok (t : InMemoryTransaction Db) ch :
  policy t = PolicyOverwrite →
  ∃ t', commit_into t ch = (t', Ok ()) ∧ policy t' = PolicyOverwrite ∧ storage t' = storage t ∧
    ∀ k c, change_at (changes t') k c = over (change_at ch k c) (change_at (changes t) k c).
Proof.
  intros Hp. unfold commit_into, commit. simpl.
  pose proof (tx_commit_ok ch t) as Hc. destruct (tx_commit_changes ch t) as [t' r].
  destruct Hc as (Hp' & Hs & Hr). destruct r as [[]|e]; [|destruct Hr; congruence].
  destruct Hr as [_ Hr]. exists t'. split_and!; congruence || done.
Qed.

(** The entries of the history columns for the changes of one height. *)
Lemma collect_columns_at f ch k c op :
  wf_changes keys ch →
  change_at (collect_columns f ch) k c = Some op ↔
  ∃ c0 ops, ch !! c0 = Some ops ∧ c = historical_duplicate_column_id c0 ∧ f ops !! k = Some op.
Proof.
  intros [Hwf _]. unfold collect_columns.
  assert (∀ l (acc : Changes) c x, (∀ c0, c0 ∈ l → is_Some (ch !! c0)) → NoDup l →
    foldl (λ acc c, match ch !! c with
      | Some ops => <[historical_duplicate_column_id c := f ops]> acc
      | None => acc end) acc l !! c = Some x ↔
    (∃ c0 ops, c0 ∈ l ∧ ch !! c0 = Some ops ∧ c = historical_duplicate_column_id c0 ∧ x = f ops) ∨
    ((∀ c0, c0 ∈ l → c ≠ historical_duplicate_column_id c0) ∧ acc !! c = Some x)) as Hf.
  { clear c k op. induction l as [|c1 l IH]; intros acc c x Hl Hnd.
    { simpl. set_solver. }
    cbn [foldl]. apply NoDup_cons in Hnd as [Hni Hnd].
    destruct (Hl c1) as [ops1 Hc1]; [set_solver|]. rewrite Hc1, IH by set_solver.
    assert (∀ c0, c0 ∈ l → historical_duplicate_column_id c0 ≠ historical_duplicate_column_id c1) as Hne.
    { intros c0 Hin He%dup_inj; [congruence|apply Hwf, Hl; set_solver..]. }
    split.
    - intros [(c0 & ops & Hin & Hops & -> & ->)|[Hno Hx]]; [left; set_solver|].
      destruct (decide (c = historical_duplicate_column_id c1)) as [->|Hc].
      + rewrite lookup_insert_eq in Hx. injection Hx as <-. left. set_solver.
      + rewrite lookup_insert_ne in Hx by done. right. set_solver.
    - intros [(c0 & ops & [->|Hin]%elem_of_cons & Hops & -> & ->)|[Hno Hx]]; [|left; set_solver|].
      + right. rewrite Hc1 in Hops. injection Hops as ->. rewrite lookup_insert_eq. split; [|done].
        intros c0 Hin He. by apply (Hne c0 Hin).
      + right. rewrite lookup_insert_ne by (symmetry; apply Hno; set_solver). set_solver. }
  assert (∀ c0, c0 ∈ hs_iter (dom ch) → is_Some (ch !! c0)) as Hdom.
  { intros c0. by rewrite hs_iter_in, elem_of_dom. }
  pose proof (λ acc c x, Hf _ acc c x Hdom (hs_iter_NoDup (dom ch))) as Hall.
  unfold change_at at 1. split.
  - destruct (foldl _ _ _ !! c) as [x|] eqn:Hx; [|done]. cbn [mbind option_bind]. intros Hk.
    apply Hall in Hx as [(c0 & ops & _ & Hops & -> & ->)|[_ Hx]]; [by eauto 10|].
    by rewrite lookup_empty in Hx.
  - intros (c0 & ops & Hops & -> & Hk).
    destruct (Hall ∅ (historical_duplicate_column_id c0) (f ops)) as [_ ->]; [done|].
    left. exists c0, ops. by rewrite hs_iter_in, elem_of_dom, Hops.
Qed.

Lemma history_entries_at (g : WriteOperation → WriteOperation) x ch k c op :
  in_uint U64 x → wf_changes keys ch →
  change_at (collect_columns (λ ops, kmap (λ key, height_key key x) (g <$> ops)) ch) k c = Some op ↔
  ∃ k0 c0 op0, change_at ch k0 c0 = Some op0 ∧ c = historical_duplicate_column_id c0 ∧
    k = height_key k0 x ∧ op = g op0.
Proof.
  intros Hx Hwf. rewrite collect_columns_at by done.
  assert (Inj (=) (=) (λ key, height_key key x)) by (intros k1 k2; by apply height_key_inj).
  split.
  - intros (c0 & ops & Hops & -> & Hk). apply lookup_kmap_Some in Hk as (k0 & -> & Hk); [|done].
    rewrite lookup_fmap in Hk. destruct (ops !! k0) as [op0|] eqn:Ho; [|done]. injection Hk as <-.
    exists k0, c0, op0. unfold change_at. by rewrite Hops.
  - intros (k0 & c0 & op0 & Hop & -> & -> & ->). unfold change_at in Hop.
    destruct (ch !! c0) as [ops|] eqn:Hops; [|done]. exists c0, ops. split_and!; [done..|].
    apply lookup_kmap_Some; [done|]. exists k0. split; [done|].
    rewrite lookup_fmap. cbn [mbind option_bind] in Hop. by rewrite Hop.
Qed.

(** ** Reverse changes *)

Lemma reverse_at db ch k c :
  change_at (reverse_history_changes db ch) k c =
  change_at ch k c ≫= reverse_op (db_get db k c).
Proof.
  unfold change_at, reverse_history_changes. rewrite map_lookup_imap.
  destruct (ch !! c) as [ops|]; [|done]. cbn [mbind option_bind]. rewrite map_lookup_imap. done.
Qed.

Lemma reverse_wf db ch : wf_changes keys ch → wf_changes keys (reverse_history_changes db ch).
Proof.
  intros [Hc Hk]. split.
  - intros c [ops Hops]. apply Hc. unfold reverse_history_changes in Hops. rewrite map_lookup_imap in Hops.
    destruct (ch !! c); [by eauto|done].
  - intros k c [op Hop]. rewrite reverse_at in Hop. apply Hk. destruct (change_at ch k c); [by eauto|done].
Qed.

(** Reverse changes undo the changes. *)
Lemma reverse_undoes db ch k c :
  apply_change (change_at (reverse_history_changes db ch) k c)
    (apply_change (change_at ch k c) (db_get db k c)) = db_get db k c.
Proof.
  rewrite reverse_at. destruct (change_at ch k c) as [[v|]|], (db_get db k c) as [old|]; simpl; try done.
  by case_decide; subst.
Qed.

(** ** The tables of the history *)

Implicit Types (rv : Z → option Changes) (t : InMemoryTransaction Db).

(** The tables hold exactly the reverse changes [rv], by height. *)
Record tables (get : Key → Z → option Value) rv : Prop := {
  tb_v2 x : in_uint U64 x → get (key_v2 x) HISTORY_V2_COLUMN_ID = ser_changes <$> rv x;
  tb_dup c key v : is_original c →
    get key (historical_duplicate_column_id c) = Some v ↔
    ∃ k x R op, in_uint U64 x ∧ rv x = Some R ∧ change_at R k c = Some op ∧
      key = height_key k x ∧ v = ser_op op;
}.

(** What a transaction shows. *)
Definition tview t : Key → Z → option Value :=
  λ k c, apply_change (change_at (changes t) k c) (db_get (storage t) k c).

Lemma tview_get t k c : tx_get t k c = Ok (tview t k c).
Proof. rewrite tx_get_applied. unfold tview. simpl. by destruct (change_at _ k c) as [[]|]. Qed.

Lemma tables_ext get get' rv rv' :
  tables get rv → (∀ x, in_uint U64 x → rv' x = rv x) →
  (∀ k c, ¬ is_original c → get' k c = get k c) → tables get' rv'.
Proof.
  intros [Hv Hd] Hr Hg. split.
  - intros x Hx. rewrite Hg, Hr by done. by apply Hv.
  - intros c key v Hc. rewrite Hg, Hd by auto. split; intros (k & x & R & op & Hx & HR & ?);
      exists k, x, R, op; [rewrite Hr by done|rewrite Hr in HR by done]; done.
Qed.

Definition drop_at rv (x0 : Z) : Z → option Changes := λ x, if decide (x = x0) then None else rv x.
Definition add_at rv (x0 : Z) (R : Changes) : Z → option Changes := λ x, if decide (x = x0) then Some R else rv x.

Lemma v2_take_ok t rv x0 :
  tables (tview t) rv → in_uint U64 x0 →
  v2_take t x0 = (record t (key_v2 x0) HISTORY_V2_COLUMN_ID Remove, Ok (rv x0)).
Proof.
  intros [Hv _] Hx. unfold v2_take, take_value.
  change (old_value t (key_v2 x0) HISTORY_V2_COLUMN_ID) with (tx_get t (key_v2 x0) HISTORY_V2_COLUMN_ID).
  rewrite tview_get, Hv by done. destruct (rv x0); simpl; [by rewrite de_ser_changes|done].
Qed.

Lemma tview_record t k0 c0 op k c :
  tview (record t k0 c0 op) k c = if decide (k = k0 ∧ c = c0) then View.value_of op else tview t k c.
Proof. unfold tview. simpl. rewrite change_at_record. by case_decide. Qed.

(** Taking a height that is not there changes nothing. *)
Lemma tables_take_none t rv x0 :
  tables (tview t) rv → in_uint U64 x0 → rv x0 = None →
  tables (tview (record t (key_v2 x0) HISTORY_V2_COLUMN_ID Remove)) rv.
Proof.
  intros Ht Hx Hn. eapply tables_ext; [exact Ht|done|]. intros k c _. rewrite tview_record.
  case_decide as Hd; [|done]. destruct Hd as [-> ->]. by rewrite (tb_v2 _ _ Ht), Hn.
Qed.

(** A height is taken from both tables. *)
Lemma remove_height_ok t rv x0 R :
  policy t = PolicyOverwrite → tables (tview t) rv → in_uint U64 x0 → rv x0 = Some R → wf_changes keys R →
  ∃ t', remove_historical_modifications x0 (record t (key_v2 x0) HISTORY_V2_COLUMN_ID Remove) R = (t', Ok ()) ∧
    policy t' = PolicyOverwrite ∧ storage t' = storage t ∧ tables (tview t') (drop_at rv x0) ∧
    ∀ k c, is_original c → change_at (changes t') k c = change_at (changes t) k c.
Proof.
  intros Hp Ht Hx HR Hwf. unfold remove_historical_modifications.
  set (rem := collect_columns _ _).
  assert (∀ k c op, change_at rem k c = Some op ↔ ∃ k0 c0 op0, change_at R k0 c0 = Some op0 ∧
    c = historical_duplicate_column_id c0 ∧ k = height_key k0 x0 ∧ op = Remove) as Hrem.
  { intros k c op. by apply (history_entries_at (λ _, Remove)). }
  clearbody rem.
  destruct (commit_into_ok (record t (key_v2 x0) HISTORY_V2_COLUMN_ID Remove) rem Hp)
    as (t' & -> & Hp' & Hs & Hch). exists t'.
  assert (∀ k c, is_original c → change_at rem k c = None) as Horig.
  { intros k c Hc. destruct (change_at rem k c) as [op|] eqn:He; [|done].
    apply Hrem in He as (k0 & c0 & op0 & Hop & -> & _). exfalso.
    by eapply dup_not_original; [eapply wf_change_at|]. }
  split_and!; [done..| |].
  2: { intros k c Hc. rewrite Hch, Horig by done. simpl. rewrite change_at_record.
       rewrite decide_False; [done|]. intros [_ ->]. by apply v2_not_original. }
  assert (∀ k c, tview t' k c = match change_at rem k c with Some _ => None
    | None => tview (record t (key_v2 x0) HISTORY_V2_COLUMN_ID Remove) k c end) as Hview.
  { intros k c. unfold tview at 1. rewrite Hch, Hs. destruct (change_at rem k c) as [op|] eqn:He; [|done].
    apply Hrem in He as (? & ? & ? & ? & ? & ? & ->). done. }
  split.
  - intros x Hxx. rewrite Hview.
    destruct (change_at rem (key_v2 x) HISTORY_V2_COLUMN_ID) as [op|] eqn:He.
    { apply Hrem in He as (k0 & c0 & op0 & Hop & Hc & _). exfalso.
      eapply dup_not_v2; [by eapply wf_change_at|]. done. }
    rewrite tview_record. unfold drop_at. destruct (decide (x = x0)) as [->|Hne].
    + by rewrite decide_True.
    + rewrite decide_False; [by apply Ht|]. intros [Hk _]. by apply key_v2_inj in Hk.
  - intros c key v Hc. rewrite Hview.
    assert (∀ k, tview (record t (key_v2 x0) HISTORY_V2_COLUMN_ID Remove) k (historical_duplicate_column_id c)
      = tview t k (historical_duplicate_column_id c)) as Hrec.
    { intros k. rewrite tview_record. rewrite decide_False; [done|]. intros [_ Hcc].
      by apply (dup_not_v2 c). }
    destruct (change_at rem key (historical_duplicate_column_id c)) as [op|] eqn:He.
    + apply Hrem in He as (k0 & c0 & op0 & Hop & Hcc & -> & _).
      apply dup_inj in Hcc; [subst c0|done|by eapply wf_change_at]. split; [done|].
      intros (k & x & R' & op' & Hxx & HR' & _ & Hk & _). apply height_key_inj in Hk as [_ ->]; [|done..].
      unfold drop_at in HR'. by rewrite decide_True in HR'.
    + rewrite Hrec, (tb_dup _ _ Ht) by done.
      split; intros (k & x & R' & op' & Hxx & HR' & Hop' & Hk & Hv); exists k, x, R', op'; split_and!; try done;
        unfold drop_at in *; destruct (decide (x = x0)) as [->|Hne]; try done.
      exfalso. rewrite HR in HR'. injection HR' as <-.
      assert (change_at rem key (historical_duplicate_column_id c) = Some Remove); [|congruence].
      apply Hrem. eauto 10.
Qed.

Lemma v2_replace_ok t rv x0 R :
  tables (tview t) rv → in_uint U64 x0 →
  v2_replace t x0 R = (record t (key_v2 x0) HISTORY_V2_COLUMN_ID (Insert (ser_changes R)), Ok (rv x0)).
Proof.
  intros [Hv _] Hx. unfold v2_replace, replace.
  change (old_value t (key_v2 x0) HISTORY_V2_COLUMN_ID) with (tx_get t (key_v2 x0) HISTORY_V2_COLUMN_ID).
  rewrite tview_get, Hv by done. destruct (rv x0); simpl; [by rewrite de_ser_changes|done].
Qed.

(** A height is entered into both tables. *)
Lemma add_height_ok t rv x0 R :
  policy t = PolicyOverwrite → tables (tview t) rv → in_uint U64 x0 → rv x0 = None → wf_changes keys R →
  ∃ t', commit_into (record t (key_v2 x0) HISTORY_V2_COLUMN_ID (Insert (ser_changes R)))
      (collect_columns (λ ops, kmap (λ key, height_key key x0) ((λ op, Insert (ser_op op)) <$> ops)) R) =
      (t', Ok ()) ∧
    storage t' = storage t ∧ tables (tview t') (add_at rv x0 R) ∧
    ∀ k c, is_original c → change_at (changes t') k c = change_at (changes t) k c.
Proof.
  intros Hp Ht Hx HR Hwf. set (ins := collect_columns _ _).
  assert (∀ k c op, change_at ins k c = Some op ↔ ∃ k0 c0 op0, change_at R k0 c0 = Some op0 ∧
    c = historical_duplicate_column_id c0 ∧ k = height_key k0 x0 ∧ op = Insert (ser_op op0)) as Hins.
  { intros k c op. by apply (history_entries_at (λ op, Insert (ser_op op))). }
  clearbody ins.
  destruct (commit_into_ok (record t (key_v2 x0) HISTORY_V2_COLUMN_ID (Insert (ser_changes R))) ins Hp)
    as (t' & -> & _ & Hs & Hch). exists t'.
  assert (∀ k c, change_at ins k c = None ∨ ∃ c0, is_original c0 ∧ c = historical_duplicate_column_id c0)
    as Hnone.
  { intros k c. destruct (change_at ins k c) as [op|] eqn:He; [right|by left].
    apply Hins in He as (k0 & c0 & op0 & Hop & -> & _). exists c0. split; [by eapply wf_change_at|done]. }
  split_and!; [done..| |].
  2: { intros k c Hc. rewrite Hch. destruct (Hnone k c) as [->|(c0 & Hc0 & ->)].
       - simpl. rewrite change_at_record, decide_False; [done|]. intros [_ ->]. by apply v2_not_original.
       - by apply dup_not_original in Hc0. }
  assert (∀ k c, tview t' k c = match change_at ins k c with Some op => View.value_of op
    | None => tview (record t (key_v2 x0) HISTORY_V2_COLUMN_ID (Insert (ser_changes R))) k c end) as Hview.
  { intros k c. unfold tview at 1. rewrite Hch, Hs. by destruct (change_at ins k c). }
  split.
  - intros x Hxx. rewrite Hview. destruct (Hnone (key_v2 x) HISTORY_V2_COLUMN_ID) as [->|(c0 & Hc0 & Hc)].
    2: { symmetry in Hc. by apply dup_not_v2 in Hc. }
    rewrite tview_record. unfold add_at. destruct (decide (x = x0)) as [->|Hne].
    + by rewrite decide_True.
    + rewrite decide_False; [by apply Ht|]. intros [Hk _]. by apply key_v2_inj in Hk.
  - intros c key v Hc. rewrite Hview.
    assert (∀ op, change_at ins key (historical_duplicate_column_id c) = Some op ↔
      ∃ k0 op0, change_at R k0 c = Some op0 ∧ key = height_key k0 x0 ∧ op = Insert (ser_op op0)) as Hins'.
    { intros op. rewrite Hins. split; [|intros (k0 & op0 & ? & ? & ?); exists k0, c, op0; by split_and!].
      intros (k0 & c0 & op0 & Hop & Hcc & ?). apply dup_inj in Hcc; [subst c0|done|by eapply wf_change_at].
      by exists k0, op0. }
    destruct (change_at ins key (historical_duplicate_column_id c)) as [op|] eqn:He.
    + destruct (proj1 (Hins' op) eq_refl) as (k0 & op0 & Hop & -> & ->). simpl. split.
      * intros [= <-]. exists k0, x0, R, op0. unfold add_at. by rewrite decide_True.
      * intros (k & x & R' & op' & Hxx & HR' & Hop' & Hk & ->). apply height_key_inj in Hk as [-> ->]; [|done..].
        unfold add_at in HR'. rewrite decide_True in HR' by done. congruence.
    + rewrite tview_record, decide_False by (intros [_ Hcc]; by apply (dup_not_v2 c)).
      rewrite (tb_dup _ _ Ht) by done.
      split; intros (k & x & R' & op' & Hxx & HR' & Hop' & -> & ->); exists k, x, R', op'; split_and!; try done;
        unfold add_at in *; destruct (decide (x = x0)) as [->|Hne]; try congruence.
      injection HR' as ->. assert (None = Some (Insert (ser_op op'))); [|done].
      apply Hins'. eauto.
Qed.

(** ** The versions *)

Definition Snapshot : Type := Key → Z → option Value.

Definition after (ch : Changes) (s : Snapshot) : Snapshot :=
  λ k c, apply_change (change_at ch k c) (s k c).

(** The states after the latest heights, the newest first; only the newest can be
    replaced, and the older ones are those the policy keeps. *)
Record Versions := { v_latest : Z; v_states : list Snapshot }.

Definition kept (p : StateRewindPolicy) (height : Z) (states : list Snapshot) : list Snapshot :=
  match p with
  | RewindRange size => take (Nat.max 1 (Z.to_nat (height - sat_sub height size))) states
  | _ => states
  end.

Definition versions_commit (p : StateRewindPolicy) (ch : Changes) (v : Versions) : Versions :=
  let height := v_latest v + 1 in
  {| v_latest := height;
     v_states := match v_states v with
                 | [] => []
                 | s :: _ => after ch s :: kept p height (v_states v)
                 end |}.

Definition versions_rollback (v : Versions) : Versions * bool :=
  match v_states v with
  | _ :: s :: states => ({| v_latest := v_latest v - 1; v_states := s :: states |}, true)
  | _ => (v, false)
  end.

Definition versions_view (v : Versions) (height : Z) : option Snapshot :=
  if decide (height ≤ v_latest v ∧ (2 ≤ length (v_states v))%nat)
  then v_states v !! Z.to_nat (v_latest v - height) else None.

(** The reverse changes of the heights that can be rolled back, the newest first. *)
Definition rev_at (latest : Z) (revs : list Changes) (x : Z) : option Changes :=
  if decide (x ≤ latest) then revs !! Z.to_nat (latest - x) else None.

(** [revs] leads from every state to the one before it. *)
Fixpoint linked (s : Snapshot) (revs : list Changes) (states : list Snapshot) : Prop :=
  match revs, states with
  | [], [] => True
  | R :: revs, s' :: states =>
      wf_changes keys R ∧ (∀ k c, is_original c → s' k c = after R s k c) ∧ linked s' revs states
  | _, _ => False
  end.

Definition shows_db (db : Db) (s : Snapshot) : Prop := ∀ k c, is_original c → db_get db k c = s k c.

Definition range_ok (p : StateRewindPolicy) (n : nat) : Prop :=
  match p with RewindRange size => 1 ≤ size ∧ Z.of_nat n ≤ size | _ => True end.

Record history_ok (h : HistoricalRocksDB) (v : Versions) (revs : list Changes) : Prop := {
  ho_policy : state_rewind_policy h ≠ NoRewind;
  ho_v1 : has_v1_history h = false;
  ho_range : range_ok (state_rewind_policy h) (length revs);
  ho_heights : Z.of_nat (length revs) ≤ v_latest v + 1;
  ho_latest : v_latest v < U64;
  ho_states : ∃ s states, v_states v = s :: states ∧ shows_db (rocks h) s ∧ linked s revs states;
  ho_tables : tables (db_get (rocks h)) (rev_at (v_latest v) revs);
}.

Lemma linked_wf s revs states R : linked s revs states → R ∈ revs → wf_changes keys R.
Proof.
  revert s states. induction revs as [|R' revs IH]; intros s states Hl Hin; [set_solver|].
  destruct states as [|s' states]; [done|]. destruct Hl as (Hwf & _ & Hl).
  apply elem_of_cons in Hin as [->|Hin]; [done|by eapply IH].
Qed.

Lemma linked_take s revs states n : linked s revs states → linked s (take n revs) (take n states).
Proof.
  revert s states n. induction revs as [|R revs IH]; intros s [|s' states] [|n] Hl; try done.
  destruct Hl as (? & ? & ?). split_and!; [done..|]. by apply IH.
Qed.

Lemma linked_length s revs states : linked s revs states → length revs = length states.
Proof.
  revert s states. induction revs as [|R revs IH]; intros s [|s' states] Hl; try done.
  destruct Hl as (_ & _ & Hl). simpl. f_equal. by eapply IH.
Qed.

Lemma rev_at_in latest revs x R : rev_at latest revs x = Some R → R ∈ revs.
Proof. unfold rev_at. case_decide; [|done]. apply list_elem_of_lookup_2. Qed.

(** ** The operations keep the versions *)

Section steps.
Context (h : HistoricalRocksDB) (v : Versions) (revs : list Changes) (Hok : history_ok h v revs).

Lemma revs_wf x R : rev_at (v_latest v) revs x = Some R → wf_changes keys R.
Proof.
  intros HR%rev_at_in. destruct (ho_states _ _ _ Hok) as (s & states & _ & _ & Hl).
  by eapply linked_wf.
Qed.

(** A transaction that changes columns of the description only. *)
Lemma tables_start ch :
  wf_changes keys ch →
  tables (tview (transaction (rocks h) PolicyOverwrite ch)) (rev_at (v_latest v) revs).
Proof.
  intros Hwf. eapply tables_ext; [apply Hok|done|]. intros k c Hc. unfold tview. simpl.
  destruct (change_at ch k c) eqn:He; [|done]. by apply (wf_change_at keys) in He.
Qed.

Definition kept_revs (height : Z) : nat :=
  match state_rewind_policy h with
  | RewindRange size => Nat.max 1 (Z.to_nat (height - sat_sub height size)) - 1
  | _ => length revs
  end.

(** The height that falls out of the range is the oldest one kept, if it is there. *)
Lemma old_height_last size :
  state_rewind_policy h = RewindRange size →
  let old := sat_sub (v_latest v + 1) size in
  let n := kept_revs (v_latest v + 1) in
  in_uint U64 old ∧
  match rev_at (v_latest v) revs old with
  | Some _ => length revs = S n ∧ Z.to_nat (v_latest v - old) = n ∧ old ≤ v_latest v
  | None => (length revs ≤ n)%nat
  end.
Proof.
  intros Hp. unfold kept_revs. rewrite Hp. pose proof (ho_range _ _ _ Hok) as Hr. rewrite Hp in Hr.
  destruct Hr as [Hs Hr]. pose proof (ho_heights _ _ _ Hok). pose proof (ho_latest _ _ _ Hok).
  cbv zeta. unfold rev_at. set (old := sat_sub _ _).
  assert (old = Z.max 0 (v_latest v + 1 - size)) as Ho by done. clearbody old.
  split; [unfold in_uint; lia|]. case_decide as Hd; [|lia].
  destruct (revs !! _) as [R|] eqn:HR.
  - apply lookup_lt_Some in HR. lia.
  - apply lookup_ge_None in HR. lia.
Qed.

Lemma rev_at_take n x :
  rev_at (v_latest v) (take n revs) x =
  if decide (v_latest v - x < Z.of_nat n) then rev_at (v_latest v) revs x else None.
Proof.
  unfold rev_at. destruct (decide (x ≤ v_latest v)) as [Hx|Hx]; [|by destruct (decide _)].
  case_decide as Hn; [by rewrite lookup_take_lt by lia|by rewrite lookup_take_ge by lia].
Qed.

Lemma cleanup_ok ch :
  wf_changes keys ch →
  ∃ t, cleanup_old_changes h (v_latest v + 1) (transaction (rocks h) PolicyOverwrite ch) = (h, t, Ok ()) ∧
    policy t = PolicyOverwrite ∧ storage t = rocks h ∧
    tables (tview t) (rev_at (v_latest v) (take (kept_revs (v_latest v + 1)) revs)) ∧
    ∀ k c, is_original c → change_at (changes t) k c = change_at ch k c.
Proof.
  intros Hwf. pose proof (tables_start ch Hwf) as Ht. unfold cleanup_old_changes.
  destruct (state_rewind_policy h) as [| |size] eqn:Hp.
  - by destruct (ho_policy _ _ _ Hok).
  - eexists. split_and!; [done..| |done]. unfold kept_revs. rewrite Hp, firstn_all. done.
  - destruct (old_height_last size Hp) as [Hu Hlast].
    set (old := sat_sub (v_latest v + 1) size) in *. set (n := kept_revs _) in *.
    rewrite (v2_take_ok _ _ _ Ht Hu).
    destruct (rev_at (v_latest v) revs old) as [R|] eqn:HR.
    + destruct (remove_height_ok (transaction (rocks h) PolicyOverwrite ch) _ _ _ eq_refl Ht Hu HR (revs_wf _ _ HR))
        as (t & -> & Hpt & Hst & Htt & Hch). unfold remove_v1_entries. rewrite (ho_v1 _ _ _ Hok).
      assert (with_storage (rocks h) t = t) as ->.
      { destruct t as [? ? st]. simpl in Hst. by subst st. }
      exists t. split_and!; [done..| |done]. eapply tables_ext; [exact Htt| |done].
      intros x _. rewrite rev_at_take. unfold drop_at. destruct Hlast as (Hl & Hi & Hle).
      destruct (decide (x = old)) as [->|Hne]; [by rewrite decide_False by lia|].
      case_decide; [done|]. unfold rev_at. case_decide; [|done]. symmetry. apply lookup_ge_None. lia.
    + eexists. split_and!; [done..| |].
      * apply tables_take_none; [|done|]; rewrite ?firstn_all2 by done; done.
      * intros k c Hc. simpl. rewrite change_at_record, decide_False; [done|]. intros [_ ->].
        by apply v2_not_original.
Qed.

Lemma history_store_ok ch :
  wf_changes keys ch → v_latest v + 1 < U64 →
  ∃ t, store_modifications_history h (transaction (rocks h) PolicyOverwrite ch) (v_latest v + 1) =
      (h, t, Ok ()) ∧ storage t = rocks h ∧
    tables (tview t) (rev_at (v_latest v + 1)
      (reverse_history_changes (rocks h) ch :: take (kept_revs (v_latest v + 1)) revs)) ∧
    ∀ k c, is_original c → change_at (changes t) k c = change_at ch k c.
Proof.
  intros Hwf Hmax. pose proof (ho_heights _ _ _ Hok) as Hh.
  destruct (cleanup_ok ch Hwf) as (t1 & Hc & Hp1 & Hs1 & Ht1 & Hch1).
  set (R := reverse_history_changes (rocks h) ch).
  assert (in_uint U64 (v_latest v + 1)) as Hu by (unfold in_uint; lia).
  assert (rev_at (v_latest v) (take (kept_revs (v_latest v + 1)) revs) (v_latest v + 1) = None) as Hn
    by (unfold rev_at; by rewrite decide_False by lia).
  destruct (add_height_ok _ _ _ R Hp1 Ht1 Hu Hn (reverse_wf _ _ Hwf)) as (t2 & Ha & Hs2 & Ht2 & Hch2).
  unfold store_modifications_history. destruct (state_rewind_policy h) eqn:Hp.
  { by destruct (ho_policy _ _ _ Hok). }
  all: simpl changes; fold R; rewrite Hc, (v2_replace_ok _ _ _ R Ht1 Hu), Hn, Ha;
    exists t2; split_and!; [done|congruence| |intros k c Hcc; by rewrite Hch2, Hch1].
  all: eapply tables_ext; [exact Ht2| |done]; intros x _; unfold add_at, rev_at;
    destruct (decide (x = v_latest v + 1)) as [->|Hne];
    [rewrite decide_True by lia; by rewrite Z.sub_diag|];
    destruct (decide (x ≤ v_latest v)) as [Hx|Hx]; [|by rewrite decide_False by lia];
    rewrite decide_True by lia; by replace (Z.to_nat (v_latest v + 1 - x)) with
      (S (Z.to_nat (v_latest v - x))) by lia.
Qed.

Lemma commit_step ch :
  wf_changes keys ch → v_latest v + 1 < U64 →
  ∃ h' revs', hist_commit_changes h (Some (v_latest v + 1)) (SChanges ch) = (h', Ok ()) ∧
    history_ok h' (versions_commit (state_rewind_policy h) ch v) revs' ∧
    state_rewind_policy h' = state_rewind_policy h.
Proof.
  intros Hwf Hmax. destruct (history_store_ok ch Hwf Hmax) as (t & Hst & Hs & Ht & Hch).
  unfold hist_commit_changes.
  assert ((match state_rewind_policy h with NoRewind => (h, Ok (SChanges ch)) | _ =>
    let '(h, t, r) := store_modifications_history h (transaction (rocks h) PolicyOverwrite ch) (v_latest v + 1) in
    (h, match r with Ok _ => Ok (SChanges (changes t)) | Err e => Err e end) end)
    = (h, Ok (SChanges (changes t)) : result _ StorageError)) as ->.
  { rewrite Hst. destruct (state_rewind_policy h) eqn:Hp; [|done..]. by destruct (ho_policy _ _ _ Hok). }
  destruct (rocks_commit_single (changes t) (rocks h)) as (db' & -> & Hget).
  assert (∀ k c, db_get db' k c = tview t k c) as Hview.
  { intros k c. rewrite Hget. unfold tview. by rewrite Hs. }
  set (n := kept_revs (v_latest v + 1)) in *.
  exists (with_rocks db' h), (reverse_history_changes (rocks h) ch :: take n revs). split; [done|].
  split; [|done]. destruct Hok as [Hp Hv1 Hr Hh Hl (s & states & Hvs & Hsh & Hlk) Htb].
  assert (kept (state_rewind_policy h) (v_latest v + 1) (v_states v) = s :: take n states) as Hkept.
  { rewrite Hvs. unfold n, kept_revs, kept. destruct (state_rewind_policy h).
    1,2: by rewrite (linked_length _ _ _ Hlk), firstn_all.
    by destruct (Nat.max 1 _) eqn:Hm; [lia|]; simpl; rewrite Nat.sub_0_r. }
  split; simpl; [done|done| | |done| |].
  - destruct (state_rewind_policy h) as [| |size] eqn:Hpp; simpl in *; [done..|].
    destruct Hr as [Hs1 Hr]. rewrite length_take. unfold n, kept_revs. rewrite Hpp. unfold sat_sub. lia.
  - rewrite length_take. lia.
  - rewrite Hkept, Hvs. eexists _, _. split_and!; [done| |].
    + intros k c Hc. rewrite Hview. unfold tview, after. by rewrite Hch, Hs, Hsh.
    + split_and!; [by apply reverse_wf| |by apply linked_take].
      intros k c Hc. unfold after. rewrite <- Hsh by done. by rewrite reverse_undoes.
  - eapply tables_ext; [exact Ht|done|]. intros k c _. apply Hview.
Qed.

Lemma rollback_step :
  0 ≤ v_latest v →
  match versions_rollback v with
  | (v', true) => ∃ h', rollback_block_to h (v_latest v) = (h', Ok ()) ∧ history_ok h' v' (tail revs) ∧
      state_rewind_policy h' = state_rewind_policy h
  | (_, false) => rollback_block_to h (v_latest v) = (h, Err "NotFound")
  end.
Proof.
  intros Hlat. pose proof Hok as [Hp Hv1 Hr Hh Hl (s & states & Hvs & Hsh & Hlk) Htb].
  assert (in_uint U64 (v_latest v)) as Hu by (unfold in_uint; lia).
  assert (tables (tview (into_transaction (rocks h))) (rev_at (v_latest v) revs)) as Ht by exact Htb.
  unfold rollback_block_to, versions_rollback, multiversion_take. rewrite Hvs, Hv1, (v2_take_ok _ _ _ Ht Hu).
  assert (rev_at (v_latest v) revs (v_latest v) = head revs) as Hrev.
  { unfold rev_at. rewrite decide_True, Z.sub_diag by lia. by destruct revs. }
  rewrite Hrev. destruct revs as [|R revs'] eqn:Hrevs, states as [|s' states]; try done. cbn [head] in *.
  destruct Hlk as (Hwf & Hs' & Hlk).
  destruct (remove_height_ok (into_transaction (rocks h)) _ _ _ eq_refl Ht Hu Hrev Hwf)
    as (t1 & -> & Hp1 & Hs1 & Ht1 & Hch1).
  destruct (commit_into_ok t1 R Hp1) as (t2 & -> & _ & Hs2 & Hch2).
  destruct (rocks_commit_single (changes t2) (rocks h)) as (db' & -> & Hget).
  eexists. split; [done|]. split; [|done].
  assert (∀ k c, db_get db' k c = apply_change (change_at R k c) (tview t1 k c)) as Hview.
  { intros k c. rewrite Hget, Hch2. unfold tview. rewrite Hs1. by destruct (change_at R k c). }
  split; simpl; [done|done| | |lia| |].
  - destruct (state_rewind_policy h); simpl in *; [done..|lia].
  - simpl in Hh. lia.
  - eexists _, _. split_and!; [done| |done]. intros k c Hc. rewrite Hview, Hs' by done. unfold after.
    f_equal. unfold tview. rewrite Hch1, Hs1 by done. simpl. by rewrite Hsh.
  - eapply tables_ext; [exact Ht1| |].
    + intros x Hx. unfold drop_at, rev_at. destruct (decide (x = v_latest v)) as [->|Hne];
        [by rewrite decide_False by lia|].
      destruct (decide (x ≤ v_latest v)); [|by rewrite decide_False by lia].
      rewrite decide_True by lia.
      by replace (Z.to_nat (v_latest v - x)) with (S (Z.to_nat (v_latest v - 1 - x))) by lia.
    + intros k c Hc. rewrite Hview. destruct (change_at R k c) eqn:He; [|done].
      by apply (wf_change_at keys) in He.
Qed.
End steps.

(** A state is the one [j] versions newer with the oldest of the reverse changes since. *)
Lemma linked_read s revs states j sj k c :
  linked s revs states → (s :: states) !! j = Some sj → is_original c →
  (∀ i R op, (i < j)%nat → revs !! i = Some R → change_at R k c = Some op →
     (∀ i' R', (i < i' < j)%nat → revs !! i' = Some R' → change_at R' k c = None) →
     sj k c = View.value_of op) ∧
  ((∀ i R, (i < j)%nat → revs !! i = Some R → change_at R k c = None) → sj k c = s k c).
Proof.
  intros Hl Hj Hc. revert s states j Hl Hj.
  induction revs as [|R0 revs IH]; intros s [|s' states] j Hl Hj; try done.
  { destruct j; [|done]. simplify_eq/=. split; [lia|done]. }
  destruct Hl as (Hwf & Hs' & Hl). destruct j as [|j]; simpl in Hj.
  { simplify_eq. split; [lia|done]. }
  destruct (IH s' states j Hl Hj) as [IH1 IH2]. split.
  - intros [|i] R op Hi HR Hop Hnone; simpl in HR.
    + simplify_eq. rewrite IH2, Hs' by (done || (intros i R' Hi'; apply (Hnone (S i) R'); lia)).
      unfold after. by rewrite Hop.
    + apply (IH1 i R op); [lia|done..|]. intros i' R' Hi'. apply (Hnone (S i')). lia.
  - intros Hnone. rewrite IH2, Hs' by (done || (intros i R' Hi'; apply (Hnone (S i) R'); lia)).
    unfold after. rewrite (Hnone 0%nat R0); [done|lia|done].
Qed.

Lemma contains_ok h v revs x :
  history_ok h v revs → in_uint U64 x →
  multiversion_contains (rocks h) x false = Ok (bool_decide (is_Some (rev_at (v_latest v) revs x))).
Proof.
  intros Hok Hx. unfold multiversion_contains, tx_exists.
  change (get_from_changes (into_transaction (rocks h)) (key_v2 x) HISTORY_V2_COLUMN_ID)
    with ((∅ : Changes) !! HISTORY_V2_COLUMN_ID ≫= lookup (key_v2 x)). rewrite lookup_empty.
  simpl. rewrite andb_false_r. rewrite (tb_v2 _ _ (ho_tables _ _ _ Hok)) by done.
  f_equal. apply bool_decide_ext. by rewrite fmap_is_Some.
Qed.

Context (Hkeys : key_format keys).

(** The history entry a view of the height before [y] finds for a key. *)
Lemma seek_history h v revs y k c :
  history_ok h v revs → in_uint U64 y → is_original c → keys c k →
  match seek (default ∅ (rocks h !! historical_duplicate_column_id c)) (height_key k y) with
  | Some (fk, val) => ∃ k' x R op, fk = height_key k' x ∧ keys c k' ∧ val = ser_op op ∧
      rev_at (v_latest v) revs x = Some R ∧ change_at R k' c = Some op ∧ (k' = k → y ≤ x) ∧
      ∀ x' R' op', in_uint U64 x' → y ≤ x' → rev_at (v_latest v) revs x' = Some R' →
        change_at R' k c = Some op' → k' = k ∧ x ≤ x'
  | None => ∀ x' R' op', in_uint U64 x' → y ≤ x' → rev_at (v_latest v) revs x' = Some R' →
        change_at R' k c = Some op' → False
  end.
Proof.
  intros Hok Hy Hc Hk. set (m := default ∅ _).
  pose proof (ho_tables _ _ _ Hok) as Ht.
  assert (∀ key val, m !! key = Some val ↔ ∃ k x R op, in_uint U64 x ∧
    rev_at (v_latest v) revs x = Some R ∧ change_at R k c = Some op ∧
    key = height_key k x ∧ val = ser_op op) as Hm.
  { intros key val. unfold m. rewrite db_get_column. by apply Ht. }
  assert (∀ x x', in_uint U64 x → in_uint U64 x' →
    key_le (to_be_bytes 8 x) (to_be_bytes 8 x') ↔ x ≤ x') as Hbe.
  { intros x x' Hx Hx'. apply to_be_bytes_le; int_lia. }
  clearbody m. destruct (seek m (height_key k y)) as [[fk val]|] eqn:Hs.
  - apply seek_some in Hs as (Hfk & Hle & Hmin).
    apply Hm in Hfk as (k' & x & R & op & Hx & HR & Hop & -> & ->).
    assert (keys c k') as Hk'.
    { eapply (revs_wf _ _ _ Hok); [exact HR|by eauto]. }
    assert (∀ k, incomparable k k) as Hrefl by (by split).
    pose proof (kf_prefix _ Hkeys c k k' Hk Hk') as Hkk. pose proof (kf_prefix _ Hkeys c k' k Hk' Hk) as Hkk'.
    exists k', x, R, op. split_and!; [done..| |].
    + intros ->. apply (key_le_app _ _ _ _ (Hrefl k)) in Hle as [[? ?]|[_ Hle]]; [done|]. by apply Hbe.
    + intros x' R' op' Hx' Hyx HR' Hop'.
      assert (key_le (height_key k' x) (height_key k x')) as Hle2.
      { apply (Hmin _ (ser_op op')); [apply Hm; eauto 10|].
        apply key_le_app; [done|]. right. split; [done|]. by apply Hbe. }
      apply key_le_app in Hle; [|done]. apply key_le_app in Hle2; [|done].
      destruct Hle as [[Hne Hle]|[-> Hle]], Hle2 as [[Hne2 Hle2]|[Heq Hle2]]; try done.
      * by destruct Hne, (key_le_antisym k k').
      * split; [done|]. by apply Hbe.
  - intros x' R' op' Hx' Hyx HR' Hop'.
    apply (seek_none _ _ (height_key k x') (ser_op op')) in Hs; [apply Hs|apply Hm; by eauto 10].
    apply key_le_app; [done|]. right. split; [done|]. by apply Hbe.
Qed.

Lemma found_prefix (k k' : Key) x :
  incomparable k k' → take (length k) (height_key k' x) = k ↔ k' = k.
Proof.
  intros [Hp Hp']. unfold height_key. split; [|intros ->; apply take_app_length].
  intros Ht. destruct (decide (length k ≤ length k')%nat).
  - symmetry. apply Hp. rewrite take_app_le in Ht by done. rewrite <- Ht. apply prefix_take.
  - symmetry. apply Hp'. rewrite <- Ht. rewrite take_app_ge by lia. by apply prefix_app_r.
Qed.

Lemma view_get_ok h v revs s states x sx k c :
  history_ok h v revs → v_states v = s :: states → 0 ≤ x ≤ v_latest v →
  (s :: states) !! Z.to_nat (v_latest v - x) = Some sx → is_original c → keys c k →
  view_get {| view_height := x + 1; read_db := rocks h |} k c = Some (Ok (sx k c)).
Proof.
  intros Hok Hvs Hx Hsx Hc Hk. pose proof (ho_latest _ _ _ Hok).
  destruct (ho_states _ _ _ Hok) as (s0 & states0 & Hvs0 & Hsh & Hl). rewrite Hvs in Hvs0.
  injection Hvs0 as <- <-.
  destruct (linked_read s revs states _ sx k c Hl Hsx Hc) as [Hchg Hsame].
  assert (∀ i R, revs !! i = Some R → rev_at (v_latest v) revs (v_latest v - Z.of_nat i) = Some R ∧
    in_uint U64 (v_latest v - Z.of_nat i)) as Hidx.
  { intros i R HR. unfold rev_at. rewrite decide_True by lia.
    replace (Z.to_nat _) with i by lia. split; [done|]. apply lookup_lt_Some in HR.
    pose proof (ho_heights _ _ _ Hok). unfold in_uint. lia. }
  pose proof (seek_history h v revs (x + 1) k c Hok ltac:(unfold in_uint; lia) Hc Hk) as Hs.
  unfold view_get. simpl. destruct (seek _ _) as [[fk val]|].
  - destruct Hs as (k' & y & R & op & -> & Hk' & -> & HR & Hop & Hge & Hmin).
    pose proof (kf_length _ Hkeys c k k' Hk Hk') as Hlen.
    rewrite decide_False by (unfold height_key; rewrite length_app, to_be_bytes_length; lia).
    assert (take (length k) (height_key k' y) = k ↔ k' = k) as Htk.
    { apply found_prefix. by apply (kf_prefix _ Hkeys c). }
    f_equal. destruct (decide _) as [He|Hne]; rewrite Htk in *; [subst k'|].
    + rewrite de_ser_op. specialize (Hge eq_refl). unfold rev_at in HR.
      destruct (decide (y ≤ v_latest v)) as [Hy|]; [|done].
      rewrite (Hchg (Z.to_nat (v_latest v - y)) R op); [by destruct op|lia|done..|].
      intros i' R' Hi' HR'. destruct (change_at R' k c) as [op'|] eqn:Hop'; [|done].
      destruct (Hidx _ _ HR') as [Hr' Hu]. destruct (Hmin _ _ _ Hu ltac:(lia) Hr' Hop'). lia.
    + rewrite Hsame, Hsh; [done..|]. intros i R' Hi HR'.
      destruct (change_at R' k c) as [op'|] eqn:Hop'; [|done]. destruct (Hidx _ _ HR') as [Hr' Hu].
      by destruct (Hmin _ _ _ Hu ltac:(lia) Hr' Hop').
  - rewrite Hsame, Hsh; [done..|]. intros i R' Hi HR'.
    destruct (change_at R' k c) as [op'|] eqn:Hop'; [|done]. destruct (Hidx _ _ HR') as [Hr' Hu].
    exfalso. by eapply Hs; [exact Hu|lia|..].
Qed.

Lemma view_step h v revs x :
  history_ok h v revs → 0 ≤ x < U64 →
  match versions_view v x with
  | Some s => ∃ w, create_view_at h x = Ok w ∧
      ∀ k c, is_original c → keys c k → view_get w k c = Some (Ok (s k c))
  | None => create_view_at h x = Err "NoHistoryForRequestedHeight"
  end.
Proof.
  intros Hok Hx. unfold create_view_at, versions_view.
  assert (sat_add U64 x 1 = x + 1) as -> by (unfold sat_add; lia).
  rewrite (ho_v1 _ _ _ Hok), (contains_ok _ _ _ (x + 1) Hok) by (unfold in_uint; lia).
  rewrite (contains_ok _ _ _ x Hok) by (unfold in_uint; lia). cbn [result_bind].
  destruct (ho_states _ _ _ Hok) as (s & states & Hvs & Hsh & Hl). rewrite Hvs.
  apply linked_length in Hl. pose proof (ho_heights _ _ _ Hok).
  assert ((is_Some (rev_at (v_latest v) revs (x + 1)) ∨ is_Some (rev_at (v_latest v) revs x)) ↔
    x ≤ v_latest v ∧ (2 ≤ length (s :: states))%nat ∧ is_Some ((s :: states) !! Z.to_nat (v_latest v - x)))
    as Hiff.
  { assert (is_Some (None : option Changes) ↔ False) as Hfalse by (split; [apply is_Some_None|done]).
    unfold rev_at. rewrite lookup_lt_is_Some. simpl.
    destruct (decide (x ≤ v_latest v)), (decide (x + 1 ≤ v_latest v));
      rewrite ?lookup_lt_is_Some, ?Hfalse; lia. }
  assert (result_bind (if bool_decide (is_Some (rev_at (v_latest v) revs (x + 1))) then Ok true
      else Ok (bool_decide (is_Some (rev_at (v_latest v) revs x))) : result bool StorageError)
    (λ contains, if contains then Ok {| view_height := x + 1; read_db := rocks h |}
      else Err "NoHistoryForRequestedHeight") =
    if bool_decide (x ≤ v_latest v ∧ (2 ≤ length (s :: states))%nat ∧
      is_Some ((s :: states) !! Z.to_nat (v_latest v - x)))
    then Ok {| view_height := x + 1; read_db := rocks h |} else Err "NoHistoryForRequestedHeight") as ->.
  { rewrite <- (bool_decide_ext _ _ Hiff). rewrite bool_decide_or.
    by destruct (bool_decide _), (bool_decide (is_Some (rev_at _ _ x))). }
  destruct (decide (x ≤ v_latest v ∧ (2 ≤ length (s :: states))%nat)) as [[Hle H2]|Hno].
  - destruct ((s :: states) !! Z.to_nat (v_latest v - x)) as [sx|] eqn:Hsx.
    + rewrite bool_decide_true by eauto. eexists. split; [done|]. intros k c Hc Hk.
      apply (view_get_ok h v revs s states x sx); done || lia.
    + rewrite bool_decide_false; [done|]. by intros (_ & _ & ?%is_Some_None).
  - rewrite bool_decide_false; [done|]. tauto.
Qed.
End facts.
