(* ===== verification/Database.v ===== *)
(** * The on-chain database

    Model of [Database<OnChain>] (fuel-core/src/database.rs and
    database/database_description.rs): commits that must advance the height by one and
    record it in the metadata, rollbacks of the last block, and views at a height, on
    top of the historical database.  The encoding of the metadata is part of the
    postcard parameter. *)

From stdpp Require Import prelude gmap list strings sorting.
From Stdlib Require Import ZArith Lia.
From S2P Require Import Prelude.
From S2P Require Import StorageTx.
From S2P Require Import HistoricalDb.
Local Open Scope Z_scope.

(** ** Columns and heights *)

Definition METADATA_COLUMN : Z := 0.
Definition FUEL_BLOCKS_COLUMN : Z := 7.

Definition advance_height (h : Z) : option Z := if decide (h < U32) then Some (h + 1) else None.
Definition rollback_height (h : Z) : option Z := if decide (0 < h) then Some (h - 1) else None.

Definition from_be_bytes (l : list Z) : Z := foldl (λ x b, 256 * x + b) 0 l.

(** [Primitive<4>] as [Decode<BlockHeight>]. *)
Definition decode_height (key : Key) : result Z StorageError :=
  if decide (length key = 4%nat) then Ok (from_be_bytes key) else Err "Codec".

(** The keys of a column that get a value, in reverse order. *)
Definition inserted_keys (ch : Changes) (c : Z) : list Key :=
  reverse (merge_sort key_le (omap (λ '(k, op), match op with Insert _ => Some k | Remove => None end)
    (map_to_list (default ∅ (ch !! c))))).

(** [iter_all_keys::<FuelBlocks>(Some(Reverse))] over the changes, collected. *)
Definition new_block_heights (changes : list Changes) : result (list Z) StorageError :=
  try_fold (λ hs key, result_bind (decode_height key) (λ h, Ok (hs ++ [h]))) []
    (changes ≫= λ ch, inserted_keys ch FUEL_BLOCKS_COLUMN).

(** ** Metadata *)

Inductive IndexationKind := Balances | CoinsToSpend | AssetMetadata.

Inductive DatabaseMetadata :=
| MetadataV1 (version height : Z)
| MetadataV2 (version height : Z) (indexation_availability : list IndexationKind).

Definition all_indexation_kinds : list IndexationKind := [Balances; CoinsToSpend; AssetMetadata].

Definition DB_VERSION : Z := 0.

Definition metadata_height (m : DatabaseMetadata) : Z :=
  match m with MetadataV1 _ h | MetadataV2 _ h _ => h end.

Definition indexation_availability (m : option DatabaseMetadata) : list IndexationKind :=
  match m with
  | Some (MetadataV1 _ _) => []
  | Some (MetadataV2 _ _ kinds) => kinds
  | None => all_indexation_kinds
  end.

Definition update_metadata (current : option DatabaseMetadata) (new_height : Z) : DatabaseMetadata :=
  match current with
  | Some (MetadataV1 _ _) => MetadataV1 DB_VERSION new_height
  | Some (MetadataV2 _ _ kinds) => MetadataV2 DB_VERSION new_height kinds
  | None => MetadataV2 DB_VERSION new_height (indexation_availability None)
  end.

Class MetadataCodec := {
  ser_metadata : DatabaseMetadata → Value;
  de_metadata : Value → option DatabaseMetadata;
}.
Class MetadataCodecLaws `{!MetadataCodec} : Prop := {
  de_ser_metadata m : de_metadata (ser_metadata m) = Some m;
}.

(** The key [()] is no bytes. *)
Definition METADATA_KEY : Key := [].

(** ** The database *)

Record Database := {
  height : option Z;
  data : HistoricalRocksDB;
}.

Inductive DatabaseError :=
| MultipleHeightsInCommit (heights : list Z)
| FailedToAdvanceHeight
| HeightsAreNotLinked (prev_height new_height : Z)
| NewHeightIsNotSet (prev_height : Z)
| NoHeightToRollback
| Storage (e : StorageError).

Section database.
Context `{!HashOrder Z} `{!HashOrder Key} `{!Postcard} `{!MetadataCodec}.

Definition decode_metadata (o : option Value) : result (option DatabaseMetadata) DatabaseError :=
  match o with
  | None => Ok None
  | Some v => match de_metadata v with Some m => Ok (Some m) | None => Err (Storage "Codec") end
  end.

(** The heights may be linked: the new one follows the old one. *)
Definition check_heights (prev_height new_height : option Z) : result unit DatabaseError :=
  match prev_height, new_height with
  | None, None => Ok ()
  | Some prev_height, Some new_height =>
      match advance_height prev_height with
      | None => Err FailedToAdvanceHeight
      | Some next_expected_height =>
          if decide (next_expected_height = new_height) then Ok ()
          else Err (HeightsAreNotLinked prev_height new_height)
      end
  | None, Some _ => Ok ()
  | Some prev_height, None => Err (NewHeightIsNotSet prev_height)
  end.

(** The changes of the metadata table for a new height. *)
Definition metadata_changes (db : Db) (new_height : Z) : result Changes DatabaseError :=
  result_bind (decode_metadata (db_get db METADATA_KEY METADATA_COLUMN)) (λ current,
    let metadata := update_metadata current new_height in
    let '(t, _) := put (transaction db PolicyOverwrite ∅) METADATA_KEY METADATA_COLUMN
                     (ser_metadata metadata) in
    Ok (changes t)).

(** [heights_lookup] gives the new heights among the changes, as each description has them. *)
Definition commit_changes_with_height_update (heights_lookup : list Changes → result (list Z) StorageError)
    (db : Database) (changes : StorageChanges) : Database * result unit DatabaseError :=
  match heights_lookup (changes_list changes) with
  | Err e => (db, Err (Storage e))
  | Ok new_heights =>
      if decide (1 < length new_heights)%nat then (db, Err (MultipleHeightsInCommit new_heights))
      else
        let new_height := last new_heights in
        match check_heights (height db) new_height with
        | Err e => (db, Err e)
        | Ok _ =>
            let changes :=
              match new_height with
              | None => Ok changes
              | Some h => result_bind (metadata_changes (rocks (data db)) h) (λ m,
                            Ok (SChangesList (changes_list changes ++ [m])))
              end in
            match changes with
            | Err e => (db, Err e)
            | Ok changes =>
                let '(d, r) := hist_commit_changes (data db) new_height changes in
                match r with
                | Err e => ({| height := height db; data := d |}, Err (Storage e))
                | Ok _ =>
                    ({| height := match new_height with Some h => Some h | None => height db end;
                        data := d |}, Ok ())
                end
            end
        end
  end.

Definition rollback_last_block (db : Database) : Database * result unit DatabaseError :=
  match height db with
  | None => (db, Err NoHeightToRollback)
  | Some h =>
      let '(d, r) := rollback_block_to (data db) h in
      match r with
      | Err e => ({| height := height db; data := d |}, Err (Storage e))
      | Ok _ => ({| height := rollback_height h; data := d |}, Ok ())
      end
  end.

(** A view: the latest state, or that of a height. *)
Inductive DbView :=
| Latest (db : Db)
| AtHeight (view : ViewAtHeight).

Definition view_at (db : Database) (h : Z) : result DbView DatabaseError :=
  match height db with
  | None => Ok (Latest (rocks (data db)))
  | Some current_height =>
      if decide (current_height = h) then Ok (Latest (rocks (data db)))
      else match create_view_at (data db) h with
           | Ok v => Ok (AtHeight v)
           | Err e => Err (Storage e)
           end
  end.

Definition read_view (v : DbView) (key : Key) (column : Z) :
    option (result (option Value) StorageError) :=
  match v with
  | Latest db => Some (Ok (db_get db key column))
  | AtHeight v => view_get v key column
  end.

(** [latest_height_from_metadata], read when the database is opened. *)
Definition latest_height_from_metadata (db : Db) : result (option Z) DatabaseError :=
  result_bind (decode_metadata (db_get db METADATA_KEY METADATA_COLUMN)) (λ m,
    Ok (metadata_height <$> m)).
End database.
