(* ===== verification/DatabaseFacts.v ===== *)
(** * Correctness of the on-chain database

    Every sequence of commits and rollbacks, refused or not, is one on a stack of
    versions; the height in memory and the one in the metadata agree with it. *)

From stdpp Require Import prelude gmap list strings sorting.
From Stdlib Require Import ZArith Lia.
From S2P Require Import Prelude.
From S2P Require Import StorageTx.
From S2P Require Import HistoricalDb.
From S2P Require Import HistoricalDbFacts.
From S2P Require Import Database.
Local Open Scope Z_scope.

(** ** Sets of changes *)

(** No column is in two of the sets. *)
Definition disjoint_columns (l : list Changes) : Prop :=
  ∀ i j ch ch' c, l !! i = Some ch → l !! j = Some ch' → is_Some (ch !! c) → is_Some (ch' !! c) → i = j.

Definition after_all (l : list Changes) (s : Snapshot) : Snapshot := foldl (λ s ch, after ch s) s l.

Lemma disjoint_snoc l ch :
  disjoint_columns (l ++ [ch]) →
  disjoint_columns l ∧ ∀ ch' c, ch' ∈ l → is_Some (ch' !! c) → ch !! c = None.
Proof.
  intros Hd. split.
  - intros i j x y c Hi Hj. apply (Hd i j x y c); by apply lookup_app_l_Some.
  - intros ch' c [i Hi]%list_elem_of_lookup Hc. destruct (ch !! c) eqn:He; [|done].
    pose proof (lookup_lt_Some _ _ _ Hi).
    assert (i = length l); [|lia]. apply (Hd i (length l) ch' ch c); [by apply lookup_app_l_Some| |done|by eauto].
    by rewrite lookup_app_r, Nat.sub_diag.
Qed.

Lemma change_at_union (a b : Changes) k c :
  change_at (a ∪ b) k c = match a !! c with Some ops => ops !! k | None => change_at b k c end.
Proof. unfold change_at. rewrite lookup_union. by destruct (a !! c), (b !! c). Qed.

Lemma flatten_snoc l ch : flatten_changes (l ++ [ch]) = ch ∪ flatten_changes l.
Proof. unfold flatten_changes. by rewrite foldl_app. Qed.

Lemma flatten_columns l c : is_Some (flatten_changes l !! c) → ∃ ch, ch ∈ l ∧ is_Some (ch !! c).
Proof.
  induction l as [|ch l IH] using rev_ind; [unfold flatten_changes; simpl; rewrite lookup_empty; by intros []|].
  rewrite flatten_snoc, lookup_union_is_Some. intros [Hc|Hc]; [exists ch; set_solver|].
  destruct (IH Hc) as (ch' & ? & ?). exists ch'. set_solver.
Qed.

(** Sets of changes with different columns can be applied one by one. *)
Lemma flatten_after l s k c :
  disjoint_columns l → after (flatten_changes l) s k c = after_all l s k c.
Proof.
  induction l as [|ch l IH] using rev_ind; intros Hd; [done|].
  apply disjoint_snoc in Hd as [Hd Hnew]. unfold after_all. rewrite foldl_app. cbn [foldl].
  fold (after_all l s). unfold after at 1 2. rewrite flatten_snoc, change_at_union, <- IH by done.
  unfold after, change_at at 2. destruct (ch !! c) as [ops|] eqn:Hc; [|done]. cbn [mbind option_bind].
  destruct (ops !! k) eqn:Hk; [done|]. simpl.
  destruct (flatten_changes l !! c) eqn:Hf; [|by unfold change_at; rewrite Hf].
  destruct (flatten_columns l c) as (ch' & Hin & Hc'); [by eauto|]. specialize (Hnew ch' c Hin Hc'). congruence.
Qed.

Lemma flatten_wf keys l : Forall (wf_changes keys) l → wf_changes keys (flatten_changes l).
Proof.
  induction l as [|ch l IH] using rev_ind; intros Hwf.
  { split; [|unfold change_at]; unfold flatten_changes; simpl; intros; rewrite lookup_empty in *; by destruct H. }
  apply Forall_app in Hwf as [Hl Hch]. rewrite Forall_singleton in Hch.
  destruct (IH Hl) as [IHc IHk], Hch as [Hc Hk].
  rewrite flatten_snoc. split.
  - intros c Hcc. apply lookup_union_is_Some in Hcc as [?|?]; auto.
  - intros k c. rewrite change_at_union. destruct (ch !! c) as [ops|] eqn:He; [|apply IHk].
    intros Hops. apply Hk. unfold change_at. by rewrite He.
Qed.

(** ** Versions of the database *)

Section facts.
Context `{!HashOrder Z} `{!HashOrder Key} `{!Postcard} `{!PostcardLaws}.
Context `{!MetadataCodec} `{!MetadataCodecLaws}.
Context (keys : Z → Key → Prop) (Hkeys : key_format keys) (Hmeta : keys METADATA_COLUMN METADATA_KEY).

Definition metadata_of (s : Snapshot) : option DatabaseMetadata :=
  s METADATA_KEY METADATA_COLUMN ≫= de_metadata.

Definition with_metadata (m : DatabaseMetadata) (s : Snapshot) : Snapshot :=
  λ k c, if decide (k = METADATA_KEY ∧ c = METADATA_COLUMN) then Some (ser_metadata m) else s k c.

(** A commit is taken if it has exactly the block of the next height. *)
Definition spec_commit (p : StateRewindPolicy) (l : list Changes) (v : Versions) : Versions * bool :=
  match new_block_heights l, v_states v with
  | Ok [h], s :: _ =>
      if decide (h = v_latest v + 1) then
        ({| v_latest := h;
            v_states := with_metadata (update_metadata (metadata_of s) h) (after_all l s)
                        :: kept p h (v_states v) |}, true)
      else (v, false)
  | _, _ => (v, false)
  end.

Inductive DbOp :=
| OpCommit (l : list Changes)
| OpRollback.

Definition spec_step (p : StateRewindPolicy) (v : Versions) (op : DbOp) : Versions * bool :=
  match op with
  | OpCommit l => spec_commit p l v
  | OpRollback => versions_rollback v
  end.

Definition db_step (db : Database) (op : DbOp) : Database * bool :=
  match op with
  | OpCommit l => let '(db, r) := commit_changes_with_height_update new_block_heights db (SChangesList l) in (db, is_ok r)
  | OpRollback => let '(db, r) := rollback_last_block db in (db, is_ok r)
  end.

(** A commit brings sets of changes with different columns of the description, the
    metadata not among them, with keys of their tables. *)
Definition changes_ok (l : list Changes) : Prop :=
  disjoint_columns l ∧ Forall (wf_changes keys) l ∧ Forall (λ ch : Changes, ch !! METADATA_COLUMN = None) l.

Definition op_ok (op : DbOp) : Prop :=
  match op with
  | OpCommit l => changes_ok l ∧ ∀ ch k, ch ∈ l → is_Some (change_at ch k FUEL_BLOCKS_COLUMN) → Forall (in_uint U8) k
  | OpRollback => True
  end.

Fixpoint run_steps {X Op} (step : X → Op → X * bool) (x : X) (ops : list Op) : X * list bool :=
  match ops with
  | [] => (x, [])
  | op :: ops =>
      let '(x, out) := step x op in
      let '(x, outs) := run_steps step x ops in (x, out :: outs)
  end.

Record db_ok (p : StateRewindPolicy) (db : Database) (v : Versions) (revs : list Changes) : Prop := {
  do_history : history_ok keys (data db) v revs;
  do_policy : state_rewind_policy (data db) = p;
  do_height : height db = Some (v_latest v);
  do_bound : v_latest v ≤ U32;
  do_first : Z.of_nat (length (v_states v)) ≤ v_latest v + 1;
  do_metadata i s : v_states v !! i = Some s →
    metadata_height <$> metadata_of s = Some (v_latest v - Z.of_nat i);
}.

Lemma metadata_not_dup : is_original METADATA_COLUMN.
Proof. unfold METADATA_COLUMN. column_lia. Qed.

Lemma from_be_bytes_range l :
  Forall (in_uint U8) l → 0 ≤ from_be_bytes l < 256 ^ Z.of_nat (length l).
Proof.
  unfold from_be_bytes. induction l as [|b l IH] using rev_ind; intros Hl; [simpl; lia|].
  apply Forall_app in Hl as [Hl Hb]. rewrite Forall_singleton in Hb.
  rewrite foldl_app, length_app. cbn [foldl length].
  specialize (IH Hl). rewrite Nat2Z.inj_add, Z.pow_add_r by lia. change (256 ^ Z.of_nat 1) with 256. int_lia.
Qed.

Lemma inserted_keys_in ch c k : k ∈ inserted_keys ch c → is_Some (change_at ch k c).
Proof.
  unfold inserted_keys. rewrite elem_of_reverse, merge_sort_Permutation, list_elem_of_omap.
  intros ([k' op] & Hin%elem_of_map_to_list & Hop). destruct op; [|done]. injection Hop as ->.
  unfold change_at. destruct (ch !! c); [by eauto|]. cbn in Hin. by rewrite lookup_empty in Hin.
Qed.

Lemma new_heights_range l hs h :
  op_ok (OpCommit l) → new_block_heights l = Ok hs → h ∈ hs → in_uint U32 h.
Proof.
  intros [_ Hb] Hhs Hin. unfold new_block_heights in Hhs.
  assert (Forall (in_uint U32) hs) as Hall; [|rewrite Forall_forall in Hall; auto].
  refine (try_fold_inv (Forall (in_uint U32)) _ _ _ _ _ _ Hhs); [constructor|].
  intros acc k acc' Hk Hacc Heq. result_inv. subst acc'. apply Forall_app. split; [done|].
  apply Forall_singleton. unfold decode_height in Hr. case_decide as H4; [|done]. injection Hr as <-.
  apply list_elem_of_bind in Hk as (ch & Hk%inserted_keys_in & Hch).
  pose proof (from_be_bytes_range k (Hb ch k Hch Hk)) as Hr. rewrite H4 in Hr. int_lia.
Qed.

Lemma history_ok_ext h latest s s' states revs :
  history_ok keys h {| v_latest := latest; v_states := s :: states |} revs →
  (∀ k c, is_original c → s' k c = s k c) →
  history_ok keys h {| v_latest := latest; v_states := s' :: states |} revs.
Proof.
  intros [Hp Hv1 Hr Hh Hl (s0 & states0 & Hvs & Hsh & Hlk) Htb] Heq. simpl in *. injection Hvs as <- <-.
  split; try done. exists s', states. split_and!; [done| |].
  - intros k c Hc. by rewrite Heq, Hsh.
  - destruct revs as [|R revs], states as [|s1 states]; try done. destruct Hlk as (? & Hs1 & ?).
    split_and!; [done| |done]. intros k c Hc. rewrite Hs1 by done. unfold after. by rewrite Heq.
Qed.

Lemma hist_commit_list h height l :
  state_rewind_policy h ≠ NoRewind →
  hist_commit_changes h (Some height) (SChangesList l) =
  hist_commit_changes h (Some height) (SChanges (flatten_changes l)).
Proof. intros Hp. unfold hist_commit_changes. by destruct (state_rewind_policy h). Qed.

Definition metadata_change (m : DatabaseMetadata) : Changes :=
  record_change METADATA_KEY METADATA_COLUMN (Insert (ser_metadata m)) ∅.

Lemma metadata_change_lookup m c : is_Some (metadata_change m !! c) → c = METADATA_COLUMN.
Proof.
  unfold metadata_change, record_change. destruct (decide (c = METADATA_COLUMN)) as [->|Hc]; [done|].
  rewrite lookup_insert_ne, lookup_empty by done. by intros [].
Qed.

Lemma metadata_change_at m k c :
  change_at (metadata_change m) k c =
  if decide (k = METADATA_KEY ∧ c = METADATA_COLUMN) then Some (Insert (ser_metadata m)) else None.
Proof.
  unfold metadata_change. rewrite change_at_record. by repeat case_decide.
Qed.

Lemma metadata_change_wf m : wf_changes keys (metadata_change m).
Proof.
  split.
  - intros c ->%metadata_change_lookup. apply metadata_not_dup.
  - intros k c. rewrite metadata_change_at. case_decide as Hd; [|by intros []].
    destruct Hd as [-> ->]. done.
Qed.

Lemma disjoint_with_metadata l m :
  changes_ok l → disjoint_columns (l ++ [metadata_change m]).
Proof.
  intros (Hd & _ & Hno). rewrite Forall_forall in Hno.
  assert (∀ i ch, l !! i = Some ch → ch !! METADATA_COLUMN = None) as Hl.
  { intros i ch Hi. apply Hno. by eapply list_elem_of_lookup_2. }
  intros i j ch ch' c Hi Hj Hc Hc'.
  apply lookup_app_Some in Hi as [Hi|[Hi Hi']], Hj as [Hj|[Hj Hj']].
  - by apply (Hd i j ch ch' c).
  - apply list_lookup_singleton_Some in Hj' as [? <-]. apply metadata_change_lookup in Hc' as ->.
    rewrite (Hl i ch Hi) in Hc. by destruct Hc.
  - apply list_lookup_singleton_Some in Hi' as [? <-]. apply metadata_change_lookup in Hc as ->.
    rewrite (Hl j ch' Hj) in Hc'. by destruct Hc'.
  - apply list_lookup_singleton_Some in Hi' as [? _], Hj' as [? _]. lia.
Qed.

Lemma after_all_metadata l m s k c :
  after_all (l ++ [metadata_change m]) s k c = with_metadata m (after_all l s) k c.
Proof.
  unfold after_all. rewrite foldl_app. cbn [foldl]. unfold after at 1, with_metadata.
  rewrite metadata_change_at. by case_decide.
Qed.

Section steps.
Context (p : StateRewindPolicy) (db : Database) (v : Versions) (revs : list Changes).
Context (Hok : db_ok p db v revs).

Lemma db_metadata_changes s states h :
  v_states v = s :: states →
  metadata_changes (rocks (data db)) h = Ok (metadata_change (update_metadata (metadata_of s) h)).
Proof.
  intros Hs. destruct Hok as [Hh _ _ _ _ Hm]. specialize (Hm 0%nat s). rewrite Hs in Hm.
  destruct (ho_states _ _ _ _ Hh) as (s0 & st0 & Hs0 & Hsh & _). rewrite Hs in Hs0. injection Hs0 as <- <-.
  unfold metadata_changes. rewrite Hsh by apply metadata_not_dup.
  unfold metadata_of in *. destruct (s METADATA_KEY METADATA_COLUMN) as [bytes|]; [|by specialize (Hm eq_refl)].
  cbn [decode_metadata mbind option_bind] in *. destruct (de_metadata bytes); [done|by specialize (Hm eq_refl)].
Qed.

Lemma commit_push l h s states :
  changes_ok l → v_states v = s :: states → h = v_latest v + 1 → h ≤ U32 →
  ∃ d revs', hist_commit_changes (data db) (Some h)
      (SChangesList (l ++ [metadata_change (update_metadata (metadata_of s) h)])) = (d, Ok ()) ∧
    db_ok p {| height := Some h; data := d |}
      {| v_latest := h; v_states := with_metadata (update_metadata (metadata_of s) h) (after_all l s)
                                    :: kept p h (v_states v) |} revs'.
Proof.
  intros Hl Hs Hh Hmax. set (m := update_metadata (metadata_of s) h).
  pose proof (disjoint_with_metadata l m Hl) as Hd.
  assert (wf_changes keys (flatten_changes (l ++ [metadata_change m]))) as Hwf.
  { apply flatten_wf, Forall_app. split; [apply Hl|]. apply Forall_singleton, metadata_change_wf. }
  destruct Hok as [Hhist Hp Hht Hb Hf Hm].
  rewrite hist_commit_list by apply Hhist.
  destruct (commit_step keys _ _ _ Hhist _ Hwf) as (d & revs' & Hc & Hh' & Hp'); [int_lia|].
  rewrite <- Hh in Hc. exists d, revs'. split; [done|].
  unfold versions_commit in Hh'. rewrite Hs, <- Hs, <- Hh, Hp in Hh'.
  assert (length (kept p h (v_states v)) ≤ length (v_states v))%nat as Hkl.
  { unfold kept. destruct p; [done..|]. rewrite length_take. lia. }
  split; simpl.
  - eapply history_ok_ext; [exact Hh'|]. intros k c _. by rewrite <- after_all_metadata, flatten_after.
  - congruence.
  - done.
  - done.
  - lia.
  - intros [|i] s' Hi; simpl in Hi.
    + injection Hi as <-. unfold metadata_of at 1, with_metadata. rewrite decide_True by done.
      cbn [mbind option_bind]. rewrite de_ser_metadata. simpl. f_equal. unfold m, update_metadata.
      destruct (metadata_of s) as [[]|]; simpl; lia.
    + rewrite (Hm i s'); [f_equal; lia|]. unfold kept in Hi. destruct p; [done..|].
      by apply lookup_take_Some in Hi as [? _].
Qed.

Lemma commit_db_step l :
  op_ok (OpCommit l) →
  ∃ db' v' b revs', db_step db (OpCommit l) = (db', b) ∧ spec_commit p l v = (v', b) ∧ db_ok p db' v' revs'.
Proof.
  intros Hl. unfold db_step, spec_commit, commit_changes_with_height_update. cbn [changes_list].
  destruct (ho_states _ _ _ _ (do_history _ _ _ _ Hok)) as (s & states & Hs & _). rewrite Hs.
  assert (∀ e : DatabaseError, ∃ db' v' b revs',
    (let '(db, r) := (db, Err e : result unit DatabaseError) in (db, is_ok r)) = (db', b) ∧
    (v, false) = (v', b) ∧ db_ok p db' v' revs') as Hrefuse by (intros e; by eexists _, _, _, _).
  destruct (new_block_heights l) as [hs|e] eqn:Hhs; [|apply Hrefuse].
  destruct hs as [|h [|h' hs]].
  - rewrite decide_False by (simpl; lia). simpl last. rewrite (do_height _ _ _ _ Hok). apply Hrefuse.
  - rewrite decide_False by (simpl; lia). simpl last. rewrite (do_height _ _ _ _ Hok).
    assert (in_uint U32 h) as [_ Hh] by (eapply new_heights_range; [done|exact Hhs|set_solver]).
    pose proof (do_bound _ _ _ _ Hok). cbn [check_heights]. unfold advance_height.
    destruct (decide (v_latest v < U32)) as [Hlt|Hge].
    2: { rewrite decide_False by lia. apply Hrefuse. }
    destruct (decide (v_latest v + 1 = h)) as [He|Hne].
    2: { rewrite decide_False by lia. apply Hrefuse. }
    rewrite decide_True by done. rewrite (db_metadata_changes s states h Hs). cbn [result_bind].
    destruct (commit_push l h s states (proj1 Hl) Hs (eq_sym He) Hh) as (d & revs' & -> & Hok').
    rewrite Hs in Hok'. by eexists _, _, _, _.
  - rewrite decide_True by (simpl; lia). apply Hrefuse.
Qed.

Lemma rollback_db_step :
  ∃ db' v' b revs', db_step db OpRollback = (db', b) ∧ versions_rollback v = (v', b) ∧ db_ok p db' v' revs'.
Proof.
  pose proof Hok as [Hhist Hp Hht Hb Hf Hm]. unfold db_step, rollback_last_block. rewrite Hht.
  destruct (ho_states _ _ _ _ Hhist) as (s & states & Hs & _). rewrite Hs in Hf. simpl in Hf.
  pose proof (rollback_step keys _ _ _ Hhist ltac:(lia)) as Hr. unfold versions_rollback in *.
  rewrite Hs in Hr |- *. destruct states as [|s' states].
  - rewrite Hr. exists db, v, false, revs. split_and!; [|done..]. rewrite <- Hht. by destruct db.
  - destruct Hr as (d & -> & Hh' & Hp'). eexists _, _, _, _. split_and!; [done..|]. simpl in Hf.
    split; simpl; [exact Hh'|congruence| |lia|lia|].
    + unfold rollback_height. by rewrite decide_True by lia.
    + intros i s0 Hi. rewrite (Hm (S i) s0); [f_equal; lia|]. by rewrite Hs.
Qed.

Lemma db_step_ok op :
  op_ok op →
  ∃ db' v' b revs', db_step db op = (db', b) ∧ spec_step p v op = (v', b) ∧ db_ok p db' v' revs'.
Proof. destruct op; [apply commit_db_step|intros _; apply rollback_db_step]. Qed.

(** The state of a height, if it is kept: the latest one, or one with a history. *)
Definition spec_view (v : Versions) (h : Z) : option Snapshot :=
  if decide (h = v_latest v) then head (v_states v) else versions_view v h.

Lemma view_db_ok h :
  0 ≤ h ≤ U32 →
  match spec_view v h with
  | Some s => ∃ w, view_at db h = Ok w ∧
      ∀ k c, is_original c → keys c k → read_view w k c = Some (Ok (s k c))
  | None => is_ok (view_at db h) = false
  end.
Proof.
  intros Hh. pose proof Hok as [Hhist Hp Hht Hb Hf Hm]. unfold spec_view, view_at. rewrite Hht.
  destruct (ho_states _ _ _ _ Hhist) as (s & states & Hs & Hsh & _).
  destruct (decide (h = v_latest v)) as [->|Hne].
  - rewrite decide_True, Hs by done. simpl. eexists. split; [done|]. intros k c Hc _. simpl. by rewrite Hsh.
  - rewrite decide_False by done.
    pose proof (view_step keys Hkeys _ _ _ h Hhist ltac:(int_lia)) as Hv. destruct (versions_view v h) as [sh|].
    + destruct Hv as (w & -> & Hw). eexists. split; [done|]. exact Hw.
    + by rewrite Hv.
Qed.
End steps.

Definition policy_ok (p : StateRewindPolicy) : Prop :=
  match p with NoRewind => False | RewindFullRange => True | RewindRange size => 1 ≤ size end.

(** A database opened at the height [h], without a history yet. *)
Record opened (p : StateRewindPolicy) (db : Database) (h : Z) : Prop := {
  op_policy : state_rewind_policy (data db) = p;
  op_v1 : has_v1_history (data db) = false;
  op_height : height db = Some h;
  op_bound : 0 ≤ h ≤ U32;
  op_metadata : latest_height_from_metadata (rocks (data db)) = Ok (Some h);
  op_v2 k : db_get (rocks (data db)) k HISTORY_V2_COLUMN_ID = None;
  op_dup k c : is_original c → db_get (rocks (data db)) k (historical_duplicate_column_id c) = None;
}.

Definition initial (db : Database) (h : Z) : Versions :=
  {| v_latest := h; v_states := [db_get (rocks (data db))] |}.

Lemma opened_ok p db h : policy_ok p → opened p db h → db_ok p db (initial db h) [].
Proof.
  intros Hp [Hpol Hv1 Hh Hb Hm Hv2 Hd]. split; simpl; try done; try lia.
  - split; simpl; try done; try int_lia.
    + rewrite Hpol. by destruct p; simpl in Hp.
    + rewrite Hpol. destruct p; simpl in *; [done..|lia].
    + eexists _, _. split_and!; [done|by intros k c _|done].
    + split; [intros x Hx; rewrite Hv2; unfold rev_at; by case_decide|].
      intros c key v Hc. rewrite Hd by done. split; [done|]. intros (k & x & R & op & _ & HR & _).
      unfold rev_at in HR. by case_decide.
  - intros [|i] s Hi; [|done]. injection Hi as <-. rewrite Z.sub_0_r.
    unfold latest_height_from_metadata in Hm. unfold metadata_of.
    destruct (db_get _ METADATA_KEY METADATA_COLUMN) as [bytes|]; [|done]. cbn [decode_metadata mbind option_bind] in *.
    destruct (de_metadata bytes); simpl in *; congruence.
Qed.

Lemma run_db_ok p db v revs ops :
  db_ok p db v revs → Forall op_ok ops →
  ∃ revs', (run_steps db_step db ops).2 = (run_steps (spec_step p) v ops).2 ∧
    db_ok p (run_steps db_step db ops).1 (run_steps (spec_step p) v ops).1 revs'.
Proof.
  intros Hok Hops. revert db v revs Hok. induction Hops as [|op ops Hop _ IH]; intros db v revs Hok.
  { by exists revs. }
  cbn [run_steps]. destruct (db_step_ok p db v revs Hok op Hop) as (db' & v' & b & revs' & -> & -> & Hok').
  destruct (IH db' v' revs' Hok') as (revs2 & Ho & Hok2).
  destruct (run_steps db_step db' ops), (run_steps (spec_step p) v' ops). simpl in *.
  exists revs2. split; [congruence|done].
Qed.

Lemma db_metadata_height p db v revs :
  db_ok p db v revs → latest_height_from_metadata (rocks (data db)) = Ok (Some (v_latest v)).
Proof.
  intros [Hh _ _ _ _ Hm]. destruct (ho_states _ _ _ _ Hh) as (s & states & Hs & Hsh & _).
  specialize (Hm 0%nat s). rewrite Hs in Hm. specialize (Hm eq_refl).
  unfold latest_height_from_metadata. rewrite Hsh by apply metadata_not_dup. unfold metadata_of in Hm.
  destruct (s METADATA_KEY METADATA_COLUMN) as [bytes|]; [|done]. cbn [decode_metadata mbind option_bind] in *.
  destruct (de_metadata bytes); [|done]. simpl in *. rewrite Z.sub_0_r in Hm. by rewrite Hm.
Qed.

(** C12: The on-chain database is a stack of versions.  For every sequence of commits
    and rollbacks on a database that keeps a history: a commit is taken exactly if it
    brings the block of the next height and then pushes the state it leads to, a
    rollback pops it while there is a history, the height in memory and the one in the
    metadata are that of the top, and the view at a height shows the version of that
    height, for exactly the heights the policy keeps. *)
Theorem database_refines_versions p db h ops :
  policy_ok p → opened p db h → Forall op_ok ops →
  let '(db', outs) := run_steps db_step db ops in
  let '(v, outs') := run_steps (spec_step p) (initial db h) ops in
  outs = outs' ∧ height db' = Some (v_latest v) ∧
  latest_height_from_metadata (rocks (data db')) = Ok (Some (v_latest v)) ∧
  ∀ x, 0 ≤ x ≤ U32 →
    match spec_view v x with
    | Some s => ∃ w, view_at db' x = Ok w ∧
        ∀ k c, is_original c → keys c k → read_view w k c = Some (Ok (s k c))
    | None => is_ok (view_at db' x) = false
    end.
Proof.
  intros Hp Hop Hops. destruct (run_db_ok _ _ _ _ ops (opened_ok _ _ _ Hp Hop) Hops) as (revs & Ho & Hok).
  destruct (run_steps db_step db ops) as [db' outs], (run_steps (spec_step p) _ ops) as [v outs'].
  simpl in *. split_and!; [done|by eapply do_height|by eapply db_metadata_height|].
  intros x Hx. by eapply view_db_ok.
Qed.

(** C38: A rollback undoes a commit.  On a database reached by any sequence of commits
    and rollbacks, a commit that succeeds can be rolled back, after which the height
    and every value of the latest state are what they were before the commit. *)
Theorem rollback_undoes_commit p db h ops l :
  policy_ok p → opened p db h → Forall op_ok ops → op_ok (OpCommit l) →
  let db0 := (run_steps db_step db ops).1 in
  let '(db1, committed) := db_step db0 (OpCommit l) in
  let '(db2, rolled_back) := db_step db1 OpRollback in
  committed = true →
  rolled_back = true ∧ height db2 = height db0 ∧
  ∀ k c, is_original c → db_get (rocks (data db2)) k c = db_get (rocks (data db0)) k c.
Proof.
  intros Hp Hop Hops Hl.
  destruct (run_db_ok _ _ _ _ ops (opened_ok _ _ _ Hp Hop) Hops) as (revs & _ & Hok). cbv zeta.
  destruct (run_steps db_step db ops) as [db0 outs], (run_steps (spec_step p) _ ops) as [v outs'].
  simpl in Hok. cbn [fst].
  destruct (commit_db_step _ _ _ _ Hok l Hl) as (db1 & v1 & b & revs1 & -> & Hc & Hok1).
  destruct (rollback_db_step _ _ _ _ Hok1) as (db2 & v2 & b2 & revs2 & -> & Hr & Hok2). intros ->.
  destruct (ho_states _ _ _ _ (do_history _ _ _ _ Hok)) as (s & states & Hs & Hsh & _).
  destruct (ho_states _ _ _ _ (do_history _ _ _ _ Hok2)) as (s2 & states2 & Hs2 & Hsh2 & _).
  unfold spec_commit in Hc. destruct (new_block_heights l) as [[|x [|]]|]; try done. rewrite Hs in Hc.
  case_decide as Hx; [|done]. injection Hc as <-. unfold versions_rollback in Hr.
  cbn [v_states v_latest] in Hr.
  assert (∃ rest, kept p x (s :: states) = s :: rest) as [rest Hk].
  { unfold kept. destruct p; [by eauto..|]. by destruct (Nat.max 1 _) eqn:?; [lia|]; eauto. }
  rewrite Hk in Hr. injection Hr as <- <-. injection Hs2 as <- <-. split_and!; [done| |].
  - rewrite (do_height _ _ _ _ Hok2), (do_height _ _ _ _ Hok). simpl. f_equal. lia.
  - intros k c Hcc. by rewrite Hsh2, Hsh.
Qed.
End facts.

(** ** Samples *)

Module SampleDb.

#[global] Instance write_operation_eq : EqDecision WriteOperation.
Proof. solve_decision. Defined.
#[global] Instance write_operation_countable : Countable WriteOperation :=
  inj_countable' (λ op, match op with Insert v => Some v | Remove => None end)
    (λ o, match o with Some v => Insert v | None => Remove end)
    (λ op, match op with Insert _ | Remove => eq_refl end).
#[global] Instance kind_eq : EqDecision IndexationKind.
Proof. solve_decision. Defined.
#[global] Instance kind_countable : Countable IndexationKind.
Proof.
  refine (inj_countable' (λ k, match k with Balances => 0 | CoinsToSpend => 1 | AssetMetadata => 2 end)
    (λ n, if decide (n = 0) then Balances else if decide (n = 1) then CoinsToSpend else AssetMetadata) _).
  by intros [].
Defined.
#[global] Instance metadata_eq : EqDecision DatabaseMetadata.
Proof. solve_decision. Defined.
#[global] Instance metadata_countable : Countable DatabaseMetadata :=
  inj_countable' (λ m, match m with MetadataV1 v h => (v, h, None) | MetadataV2 v h l => (v, h, Some l) end)
    (λ '(v, h, o), match o with None => MetadataV1 v h | Some l => MetadataV2 v h l end)
    (λ m, match m with MetadataV1 _ _ | MetadataV2 _ _ _ => eq_refl end).

(** An encoding by one number. *)
Definition ser {A} `{Countable A} (a : A) : Value := [Z.pos (encode a)].
Definition de {A} `{Countable A} (v : Value) : option A :=
  match v with [Z.pos p] => decode p | _ => None end.

#[global] Instance codec : Postcard := {
  ser_op := ser; de_op := de; ser_changes := ser; de_changes := de; ser_u64 h := [h];
}.
#[global] Instance codec_laws : PostcardLaws.
Proof. split; intros; apply decode_encode. Qed.
#[global] Instance metadata_codec : MetadataCodec := { ser_metadata := ser; de_metadata := de }.
#[global] Instance metadata_codec_laws : MetadataCodecLaws.
Proof. split. intros. apply decode_encode. Qed.

Definition COINS : Z := 5.
Definition len (c : Z) : nat :=
  if decide (c = FUEL_BLOCKS_COLUMN) then 4%nat else if decide (c = COINS) then 1%nat else 0%nat.

Definition keys (c : Z) (k : Key) : Prop := length k = len c.

Lemma keys_ok : key_format keys.
Proof. unfold keys. split; intros c k k' Hk Hk'; [apply same_length_incomparable; congruence|lia]. Qed.

(** The changes of a block: the block itself, and one coin. *)
Definition block_changes (h : Z) : Changes :=
  {[FUEL_BLOCKS_COLUMN := {[to_be_bytes 4 h := Insert [h]]}]}.
Definition coin_changes (coin value : Z) : Changes := {[COINS := {[ [coin] := Insert [value] ]}]}.

Definition rocks_at (h : Z) : Db :=
  {[METADATA_COLUMN := {[METADATA_KEY := ser_metadata (MetadataV2 DB_VERSION h all_indexation_kinds)]}]}.

Definition database (p : StateRewindPolicy) : Database :=
  {| height := Some 0;
     data := {| state_rewind_policy := p; rocks := rocks_at 0; has_v1_history := false |} |}.

Definition ops : list DbOp :=
  [OpCommit [block_changes 1; coin_changes 7 1]; OpCommit [block_changes 3]; OpRollback;
   OpCommit [block_changes 1; coin_changes 7 2]].

Lemma change_at_singleton (c c' : Z) (k k' : Key) (v : Value) :
  is_Some (change_at {[c := {[k := Insert v]}]} k' c') → c' = c ∧ k' = k.
Proof.
  unfold change_at. destruct (decide (c' = c)) as [->|Hc].
  - rewrite lookup_singleton_eq. cbn [mbind option_bind].
    destruct (decide (k' = k)) as [->|Hk]; [done|]. rewrite lookup_singleton_ne by done. by intros [].
  - rewrite lookup_singleton_ne by done. by intros [].
Qed.

Lemma singleton_wf c k v :
  is_original c → length k = len c → wf_changes keys {[c := {[k := Insert v]}]}.
Proof.
  intros Hc Hk. split.
  - intros c' [? [<- _]%lookup_singleton_Some]. done.
  - by intros k' c' [-> ->]%change_at_singleton.
Qed.

Lemma block_op_ok h coin value :
  0 ≤ h ≤ U32 → op_ok keys (OpCommit [block_changes h; coin_changes coin value]) ∧
  op_ok keys (OpCommit [block_changes h]).
Proof.
  intros Hh.
  assert (wf_changes keys (block_changes h)) as Hb.
  { apply singleton_wf; [unfold FUEL_BLOCKS_COLUMN; column_lia|apply to_be_bytes_length]. }
  assert (wf_changes keys (coin_changes coin value)) as Hc.
  { apply singleton_wf; [unfold COINS; column_lia|done]. }
  assert (∀ k, is_Some (change_at (block_changes h) k FUEL_BLOCKS_COLUMN) → Forall (in_uint U8) k) as Hk.
  { intros k [_ ->]%change_at_singleton. simpl.
    pose proof (λ x, Z.mod_pos_bound x 256 ltac:(done)) as Hm. repeat constructor; int_lia || (pose proof (Hm h);
    pose proof (Hm (h / 256)); pose proof (Hm (h / 256 / 256)); pose proof (Hm (h / 256 / 256 / 256)); int_lia). }
  split; (unfold op_ok, changes_ok; split_and!; [|by rewrite !Forall_cons, Forall_nil|by rewrite !Forall_cons, Forall_nil|]).
  - intros [|[|i]] [|[|j]] ch ch' c Hi Hj Hci Hcj; try done; simplify_eq/=;
      unfold block_changes, coin_changes in *; destruct Hci as [? [<- _]%lookup_singleton_Some], Hcj as [? [? _]%lookup_singleton_Some]; done.
  - intros ch k [->|[->|[]%elem_of_nil]%elem_of_cons]%elem_of_cons; [apply Hk|].
    by intros [? _]%change_at_singleton.
  - intros [|i] [|j] ch ch' c Hi Hj _ _; done.
  - intros ch k [->|[]%elem_of_nil]%elem_of_cons. apply Hk.
Qed.

Lemma ops_ok : Forall (op_ok keys) ops.
Proof.
  assert (∀ h coin value, 0 ≤ h ≤ U32 → op_ok keys (OpCommit [block_changes h; coin_changes coin value]))
    by apply block_op_ok.
  assert (∀ h, 0 ≤ h ≤ U32 → op_ok keys (OpCommit [block_changes h])) by (intros h; apply (block_op_ok h 0 0)).
  unfold ops. rewrite !Forall_cons, Forall_nil. split_and!; done || eauto with ints.
Qed.

Lemma database_opened p : opened p (database p) 0.
Proof.
  assert (∀ k c, c ≠ METADATA_COLUMN → db_get (rocks_at 0) k c = None) as Hno.
  { intros k c Hc. unfold db_get, rocks_at. by rewrite lookup_singleton_ne. }
  split; try done. intros k c Hc. apply Hno. unfold METADATA_COLUMN. column_lia.
Qed.
End SampleDb.

Lemma database_refines_versions_witness :
  let '(db', outs) := run_steps db_step (SampleDb.database (RewindRange 2)) SampleDb.ops in
  let '(v, outs') := run_steps (spec_step (RewindRange 2))
                       (initial (SampleDb.database (RewindRange 2)) 0) SampleDb.ops in
  outs = outs' ∧ height db' = Some (v_latest v) ∧
  latest_height_from_metadata (rocks (data db')) = Ok (Some (v_latest v)) ∧
  ∀ x, 0 ≤ x ≤ U32 →
    match spec_view v x with
    | Some s => ∃ w, view_at db' x = Ok w ∧
        ∀ k c, is_original c → SampleDb.keys c k → read_view w k c = Some (Ok (s k c))
    | None => is_ok (view_at db' x) = false
    end.
Proof.
  apply (database_refines_versions SampleDb.keys SampleDb.keys_ok eq_refl (RewindRange 2) _ 0);
    [done|apply SampleDb.database_opened|apply SampleDb.ops_ok].
Defined.

Lemma rollback_undoes_commit_witness :
  let db0 := (run_steps db_step (SampleDb.database RewindFullRange) SampleDb.ops).1 in
  let '(db1, committed) := db_step db0 (OpCommit [SampleDb.block_changes 2]) in
  let '(db2, rolled_back) := db_step db1 OpRollback in
  committed = true →
  rolled_back = true ∧ height db2 = height db0 ∧
  ∀ k c, is_original c → db_get (rocks (data db2)) k c = db_get (rocks (data db0)) k c.
Proof.
  apply (rollback_undoes_commit SampleDb.keys SampleDb.keys_ok eq_refl RewindFullRange _ 0);
    [done|apply SampleDb.database_opened|apply SampleDb.ops_ok|].
  apply (SampleDb.block_op_ok 2 0 0). done.
Defined.

(** The answers in the sample: the commit of a height that does not follow is refused. *)
Example sample_answers :
  (run_steps db_step (SampleDb.database (RewindRange 2)) SampleDb.ops).2 = [true; false; true; true].
Proof. vm_compute. reflexivity. Qed.

(** Two sets of changes of one commit that share a column: with a history the column of
    the last one takes the place of the others and their entries are lost, without one
    all are written. *)
Example shared_column_is_lost :
  let l := SChangesList [SampleDb.coin_changes 7 1; SampleDb.coin_changes 8 2] in
  let commit p := hist_commit_changes (data (SampleDb.database p)) (Some 1) l in
  let coin p k := db_get (rocks (commit p).1) [k] SampleDb.COINS in
  (commit RewindFullRange).2 = Ok () ∧ coin RewindFullRange 7 = None ∧ coin RewindFullRange 8 = Some [2] ∧
  (commit NoRewind).2 = Ok () ∧ coin NoRewind 7 = Some [1] ∧ coin NoRewind 8 = Some [2].
Proof. vm_compute. split_and!; reflexivity. Qed.

(** A database that kept its full history and is opened with a range afterwards: only
    the height that falls out of the range loses its history, the older heights keep
    theirs, and a view at such a height misses the changes in between.  The coin 7 is 1
    from height 1 on and 9 from height 3 on; the view at height 1 shows 9. *)
Example range_after_full_history :
  let commit p d h ch := (hist_commit_changes
    {| state_rewind_policy := p; rocks := rocks d; has_v1_history := false |} (Some h) (SChanges ch)).1 in
  let d1 := commit RewindFullRange (data (SampleDb.database RewindFullRange)) 1 (SampleDb.coin_changes 7 1) in
  let d2 := commit RewindFullRange d1 2 (SampleDb.coin_changes 8 2) in
  let d3 := commit RewindFullRange d2 3 (SampleDb.coin_changes 7 9) in
  let d4 := commit (RewindRange 1) d3 4 (SampleDb.coin_changes 8 4) in
  let coin d := match create_view_at d 1 with
                | Ok v => view_get v [7] SampleDb.COINS
                | Err _ => None
                end in
  coin d3 = Some (Ok (Some [1])) ∧ coin d4 = Some (Ok (Some [9])).
Proof. vm_compute. split; reflexivity. Qed.
