(* ===== verification/CombinedDb.v ===== *)
(** * The databases of a node

    Model of [CombinedDatabase] (fuel-core/src/combined_database.rs) with the default
    features: the loops that roll the databases back to a height, and those that bring
    the auxiliary databases back to the on-chain one.  The shutdown listener is a
    function of how often it has been asked. *)

From stdpp Require Import prelude gmap list strings sorting.
From Stdlib Require Import ZArith Lia.
From S2P Require Import Prelude.
From S2P Require Import StorageTx.
From S2P Require Import HistoricalDb.
From S2P Require Import HistoricalDbFacts.
From S2P Require Import Database.
From S2P Require Import DatabaseFacts.
Local Open Scope Z_scope.

Record CombinedDatabase := {
  on_chain : Database;
  off_chain : Database;
  relayer : Database;
  gas_price : Database;
  compression : Database;
}.

Inductive RollbackError :=
| NoOnChainHeight
| NoOffChainHeight
| OnChainBelowTarget (h : Z)
| OffChainBelowTarget (h : Z)
| GasPriceBelowTarget (h : Z)
| CompressionBelowTarget (h : Z)
| RelayerBelowTarget (h : Z)
| Cancelled
| Db (e : DatabaseError).

Definition is_equal_or_less_than_or_none (left : option Z) (right : Z) : bool :=
  match left with Some h => bool_decide (h ≤ right) | None => true end.

Definition is_equal_or_none (left : option Z) (right : Z) : bool :=
  match left with Some h => bool_decide (h = right) | None => true end.

(** What one round of a loop comes to. *)
Inductive Round :=
| Break
| Return (c : CombinedDatabase) (e : RollbackError)
| Again (c : CombinedDatabase).

Section combined.
Context `{!HashOrder Z} `{!HashOrder Key} `{!Postcard} `{!MetadataCodec}.

Definition metadata_height_of (db : Database) : result (option Z) DatabaseError :=
  latest_height_from_metadata (rocks (data db)).

(** [if cond { db.rollback_last_block()?; }]. *)
Definition rollback_if (cond : bool) (db : Database) : Database * result unit DatabaseError :=
  if cond then rollback_last_block db else (db, Ok ()).

Definition above (h : option Z) (target : Z) : bool :=
  match h with Some h => bool_decide (target < h) | None => false end.

Definition below (h : option Z) (target : Z) : bool :=
  match h with Some h => bool_decide (h < target) | None => false end.

(** The rollbacks of one round, in order; an error stops them. *)
Definition rollback_above (c : CombinedDatabase) (on off : Z) (gas comp : option Z) (target : Z) : Round :=
  match rollback_if (bool_decide (target < on)) (on_chain c) with
  | (d, Err e) => Return {| on_chain := d; off_chain := off_chain c; relayer := relayer c; gas_price := gas_price c;
                            compression := compression c |} (Db e)
  | (d_on, Ok _) =>
      match rollback_if (bool_decide (target < off)) (off_chain c) with
      | (d, Err e) => Return {| on_chain := d_on; off_chain := d; relayer := relayer c; gas_price := gas_price c;
                                compression := compression c |} (Db e)
      | (d_off, Ok _) =>
          match rollback_if (above gas target) (gas_price c) with
          | (d, Err e) => Return {| on_chain := d_on; off_chain := d_off; relayer := relayer c; gas_price := d;
                                    compression := compression c |} (Db e)
          | (d_gas, Ok _) =>
              match rollback_if (above comp target) (compression c) with
              | (d, Err e) => Return {| on_chain := d_on; off_chain := d_off; relayer := relayer c; gas_price := d_gas;
                                        compression := d |} (Db e)
              | (d_comp, Ok _) => Again {| on_chain := d_on; off_chain := d_off; relayer := relayer c; gas_price := d_gas;
                                           compression := d_comp |}
              end
          end
      end
  end.

Definition rollback_round (target : Z) (c : CombinedDatabase) : Round :=
  match metadata_height_of (on_chain c) with
  | Err e => Return c (Db e)
  | Ok None => Return c NoOnChainHeight
  | Ok (Some on) =>
  match metadata_height_of (off_chain c) with
  | Err e => Return c (Db e)
  | Ok None => Return c NoOffChainHeight
  | Ok (Some off) =>
  match metadata_height_of (gas_price c) with
  | Err e => Return c (Db e)
  | Ok gas =>
  match metadata_height_of (compression c) with
  | Err e => Return c (Db e)
  | Ok comp =>
      if bool_decide (on = target) && bool_decide (off = target) &&
         is_equal_or_less_than_or_none gas target && is_equal_or_less_than_or_none comp target
      then Break
      else if decide (on < target) then Return c (OnChainBelowTarget on)
      else if decide (off < target) then Return c (OffChainBelowTarget off)
      else if below gas target then Return c (GasPriceBelowTarget (default 0 gas))
      else if below comp target then Return c (CompressionBelowTarget (default 0 comp))
      else rollback_above c on off gas comp target
  end
  end
  end
  end.

(** [cancelled i] is what the [i]-th question to the listener returns.  [None]: the
    fuel is gone. *)
Fixpoint rollback_to (fuel : nat) (cancelled : nat → bool) (asked : nat) (target : Z)
    (c : CombinedDatabase) : option (CombinedDatabase * result unit RollbackError) :=
  match fuel with
  | O => None
  | S fuel =>
      let finish asked c := Some (c, if cancelled asked then Err Cancelled else Ok ()) in
      if cancelled asked then finish (S asked) c
      else match rollback_round target c with
           | Break => finish (S asked) c
           | Return c e => Some (c, Err e)
           | Again c => rollback_to fuel cancelled (S asked) target c
           end
  end.

(** The relayer database goes back on its own. *)
Fixpoint rollback_relayer_to (fuel : nat) (cancelled : nat → bool) (asked : nat) (target : Z)
    (db : Database) : option (Database * result unit RollbackError) :=
  match fuel with
  | O => None
  | S fuel =>
      let finish asked d := Some (d, if cancelled asked then Err Cancelled else Ok ()) in
      if cancelled asked then finish (S asked) db
      else match metadata_height_of db with
           | Err e => Some (db, Err (Db e))
           | Ok h =>
               if is_equal_or_none h target then finish (S asked) db
               else if below h target then Some (db, Err (RelayerBelowTarget (default 0 h)))
               else match rollback_if (above h target) db with
                    | (d, Err e) => Some (d, Err (Db e))
                    | (d, Ok _) => rollback_relayer_to fuel cancelled (S asked) target d
                    end
           end
  end.

(** A round of [sync_aux_db_heights]: the databases that are ahead go back by one. *)
Definition sync_round (c : CombinedDatabase) : Round :=
  match metadata_height_of (on_chain c) with
  | Err e => Return c (Db e)
  | Ok None => Break
  | Ok (Some on) =>
  match metadata_height_of (off_chain c) with
  | Err e => Return c (Db e)
  | Ok off =>
  match metadata_height_of (gas_price c) with
  | Err e => Return c (Db e)
  | Ok gas =>
      match rollback_if (above off on) (off_chain c) with
      | (d, Err e) => Return {| on_chain := on_chain c; off_chain := d; relayer := relayer c; gas_price := gas_price c;
                                compression := compression c |} (Db e)
      | (d_off, Ok _) =>
          match rollback_if (above gas on) (gas_price c) with
          | (d, Err e) => Return {| on_chain := on_chain c; off_chain := d_off; relayer := relayer c; gas_price := d;
                                    compression := compression c |} (Db e)
          | (d_gas, Ok _) =>
              if is_equal_or_less_than_or_none off on && is_equal_or_less_than_or_none gas on then Break
              else Again {| on_chain := on_chain c; off_chain := d_off; relayer := relayer c; gas_price := d_gas;
                            compression := compression c |}
          end
      end
  end
  end
  end.

Fixpoint sync_aux_db_heights (fuel : nat) (cancelled : nat → bool) (asked : nat) (c : CombinedDatabase) :
    option (CombinedDatabase * result unit RollbackError) :=
  match fuel with
  | O => None
  | S fuel =>
      if cancelled asked then Some (c, Ok ())
      else match sync_round c with
           | Break => Some (c, Ok ())
           | Return c e => Some (c, Err e)
           | Again c => sync_aux_db_heights fuel cancelled (S asked) c
           end
  end.
End combined.

(** ** Rollbacks reach their target *)

Section facts.
Context `{!HashOrder Z} `{!HashOrder Key} `{!Postcard} `{!PostcardLaws}.
Context `{!MetadataCodec} `{!MetadataCodecLaws}.
Context (keys : Z → Key → Prop) (p : StateRewindPolicy).

(** A database that shows the versions [v]. *)
Definition shows_versions (db : Database) (v : Versions) : Prop := ∃ revs, db_ok keys p db v revs.

(** The versions with those above the height [target] taken away. *)
Definition back_to (target : Z) (v : Versions) : Versions :=
  {| v_latest := target; v_states := drop (Z.to_nat (v_latest v - target)) (v_states v) |}.

(** The version of [target] is kept. *)
Definition keeps (target : Z) (v : Versions) : Prop :=
  target ≤ v_latest v ∧ (Z.to_nat (v_latest v - target) < length (v_states v))%nat.

(** One version less, while above the target. *)
Definition one_back (target : Z) (v : Versions) : Versions :=
  if decide (target < v_latest v) then back_to (v_latest v - 1) v else v.

Lemma one_back_keeps target v : keeps target v → keeps target (one_back target v).
Proof.
  unfold keeps, one_back. intros [Hle Hlt]. case_decide; [|done]. simpl. rewrite length_drop. lia.
Qed.

Lemma one_back_back target v : keeps target v → back_to target (one_back target v) = back_to target v.
Proof.
  unfold keeps, one_back, back_to. intros [Hle Hlt]. case_decide; [|done]. simpl.
  rewrite drop_drop. do 2 f_equal. lia.
Qed.

Lemma rollback_if_ok target db v :
  keeps target v → shows_versions db v →
  ∃ db', rollback_if (bool_decide (target < v_latest v)) db = (db', Ok ()) ∧
    shows_versions db' (one_back target v).
Proof.
  intros [Hle Hlt] [revs Hok]. unfold rollback_if, one_back.
  case_bool_decide as Ht; [rewrite decide_True by done|rewrite decide_False by done].
  2: { exists db. split; [done|]. by exists revs. }
  destruct (rollback_db_step keys p db v revs Hok) as (db' & v' & b & revs' & Hs & Hr & Hok').
  unfold versions_rollback in Hr. unfold db_step in Hs.
  destruct (rollback_last_block db) as [d r]. injection Hs as <- <-.
  assert (∃ s s' states, v_states v = s :: s' :: states) as (s & s' & states & Hvs).
  { destruct (v_states v) as [|? [|? ?]]; simpl in Hlt; [lia..|]. by eauto. }
  rewrite Hvs in Hr. injection Hr as <- Hb. exists d. split; [by destruct r as [[]|]|]. exists revs'.
  unfold back_to. replace (Z.to_nat (v_latest v - (v_latest v - 1))) with 1%nat by lia. by rewrite Hvs.
Qed.

Lemma metadata_ok db v : shows_versions db v → metadata_height_of db = Ok (Some (v_latest v)).
Proof. intros [revs Hok]. by eapply db_metadata_height. Qed.

(** An auxiliary database may be without a height; it is left alone then. *)
Definition aux_versions (db : Database) (v : option Versions) : Prop :=
  match v with Some v => shows_versions db v | None => metadata_height_of db = Ok None end.

Lemma aux_metadata db v : aux_versions db v → metadata_height_of db = Ok (v_latest <$> v).
Proof. destruct v; [apply metadata_ok|done]. Qed.

Lemma aux_rollback target db v :
  (∀ v', v = Some v' → keeps target v') → aux_versions db v →
  ∃ db', rollback_if (above (v_latest <$> v) target) db = (db', Ok ()) ∧
    aux_versions db' (one_back target <$> v).
Proof.
  intros Hk Hok. destruct v as [v|]; simpl; [by apply rollback_if_ok; [apply Hk|]|]. by exists db.
Qed.

Record shows_all (c : CombinedDatabase) (on off : Versions) (gas comp : option Versions) : Prop := {
  sa_on : shows_versions (on_chain c) on;
  sa_off : shows_versions (off_chain c) off;
  sa_gas : aux_versions (gas_price c) gas;
  sa_comp : aux_versions (compression c) comp;
}.

Definition keeps_all (target : Z) (on off : Versions) (gas comp : option Versions) : Prop :=
  keeps target on ∧ keeps target off ∧
  (∀ v, gas = Some v → keeps target v) ∧ (∀ v, comp = Some v → keeps target v).

(** How many rounds the furthest database needs. *)
Definition rounds (target : Z) (on off : Versions) (gas comp : option Versions) : Z :=
  let distance v := v_latest v - target in
  let aux v := match v with Some v => distance v | None => 0 end in
  Z.max (Z.max (distance on) (distance off)) (Z.max (aux gas) (aux comp)).

Lemma rollback_above_ok target c on off gas comp :
  keeps_all target on off gas comp → shows_all c on off gas comp →
  ∃ c', rollback_above c (v_latest on) (v_latest off) (v_latest <$> gas) (v_latest <$> comp) target = Again c' ∧
    shows_all c' (one_back target on) (one_back target off) (one_back target <$> gas) (one_back target <$> comp).
Proof.
  intros (Kon & Koff & Kgas & Kcomp) [Hon Hoff Hgas Hcomp]. unfold rollback_above.
  destruct (rollback_if_ok _ _ _ Kon Hon) as (d1 & -> & Ha).
  destruct (rollback_if_ok _ _ _ Koff Hoff) as (d2 & -> & Hb).
  destruct (aux_rollback _ _ _ Kgas Hgas) as (d3 & -> & Hc).
  destruct (aux_rollback _ _ _ Kcomp Hcomp) as (d4 & -> & Hd).
  eexists. split; [done|]. by split.
Qed.

Lemma rollback_round_ok target c on off gas comp :
  keeps_all target on off gas comp → shows_all c on off gas comp →
  if decide (rounds target on off gas comp = 0) then rollback_round target c = Break
  else ∃ c', rollback_round target c = Again c' ∧
    shows_all c' (one_back target on) (one_back target off) (one_back target <$> gas) (one_back target <$> comp).
Proof.
  intros Hk Hc. pose proof Hk as ([Kon _] & [Koff _] & Kgas & Kcomp). pose proof Hc as [Hon Hoff Hgas Hcomp].
  unfold rollback_round. rewrite (metadata_ok _ _ Hon), (metadata_ok _ _ Hoff),
    (aux_metadata _ _ Hgas), (aux_metadata _ _ Hcomp).
  destruct (rollback_above_ok _ _ _ _ _ _ Hk Hc) as (c' & Hab & Hc'). unfold rounds.
  assert (∀ v, gas = Some v → target ≤ v_latest v) as Kg by (intros v Hv; by apply (Kgas v)).
  assert (∀ v, comp = Some v → target ≤ v_latest v) as Kc by (intros v Hv; by apply (Kcomp v)).
  destruct gas as [gas|], comp as [comp|]; simpl in *;
    try specialize (Kg _ eq_refl); try specialize (Kc _ eq_refl);
    (case_decide as Hd;
     [rewrite !bool_decide_true by lia; done
     |match goal with |- context [if ?b then Break else _] => destruct b eqn:Hb end;
      [rewrite ?andb_true_iff, !bool_decide_eq_true in Hb; lia|];
      rewrite !decide_False, ?bool_decide_false by lia; eauto]).
Qed.

Lemma back_to_here target v : keeps target v → v_latest v ≤ target → back_to target v = v.
Proof.
  destruct v as [l st]. intros [Hle _] Hl. unfold back_to. simpl in *. assert (l = target) as -> by lia.
  by rewrite Z.sub_diag.
Qed.

Lemma one_back_latest target v :
  keeps target v → v_latest (one_back target v) - target = Z.max 0 (v_latest v - target - 1).
Proof. intros [? _]. unfold one_back. case_decide; simpl; lia. Qed.

Lemma keeps_all_one_back target on off gas comp :
  keeps_all target on off gas comp →
  keeps_all target (one_back target on) (one_back target off) (one_back target <$> gas) (one_back target <$> comp).
Proof.
  intros (Kon & Koff & Kgas & Kcomp). split_and!; [by apply one_back_keeps..| |].
  - intros v (v0 & -> & ->)%fmap_Some. by apply one_back_keeps, Kgas.
  - intros v (v0 & -> & ->)%fmap_Some. by apply one_back_keeps, Kcomp.
Qed.

Lemma rounds_one_back target on off gas comp :
  keeps_all target on off gas comp →
  rounds target (one_back target on) (one_back target off) (one_back target <$> gas) (one_back target <$> comp) =
  Z.max 0 (rounds target on off gas comp - 1).
Proof.
  intros (Kon & Koff & Kgas & Kcomp). unfold rounds. rewrite !one_back_latest by done.
  destruct gas as [gas|], comp as [comp|]; simpl; rewrite ?one_back_latest by auto; lia.
Qed.

Lemma aux_back_back target (w : option Versions) :
  (∀ v, w = Some v → keeps target v) → back_to target <$> (one_back target <$> w) = back_to target <$> w.
Proof. intros Kw. destruct w as [w|]; simpl; [|done]. by rewrite one_back_back by (by apply Kw). Qed.

Lemma shows_all_here target c on off gas comp :
  keeps_all target on off gas comp → rounds target on off gas comp = 0 → shows_all c on off gas comp →
  shows_all c (back_to target on) (back_to target off) (back_to target <$> gas) (back_to target <$> comp).
Proof.
  intros (Kon & Koff & Kgas & Kcomp) Hr [? ? ? ?]. unfold rounds in Hr.
  split; [by rewrite back_to_here by (done || lia)..| |].
  - destruct gas as [gas|]; simpl in *; [by rewrite back_to_here by (auto || lia)|done].
  - destruct comp as [comp|]; simpl in *; [by rewrite back_to_here by (auto || lia)|done].
Qed.

Lemma rollback_loop_ok target cancelled n :
  (∀ i, cancelled i = false) →
  ∀ on off gas comp c asked,
  keeps_all target on off gas comp → shows_all c on off gas comp →
  rounds target on off gas comp = Z.of_nat n →
  ∃ c', rollback_to (S n) cancelled asked target c = Some (c', Ok ()) ∧
    shows_all c' (back_to target on) (back_to target off) (back_to target <$> gas) (back_to target <$> comp).
Proof.
  intros Hcan. induction n as [|n IH]; intros on off gas comp c asked Hk Hc Hn;
    pose proof (rollback_round_ok _ _ _ _ _ _ Hk Hc) as Hr; cbn [rollback_to]; rewrite Hcan.
  - rewrite decide_True in Hr by done. rewrite Hr, Hcan. eexists. split; [done|]. by apply shows_all_here.
  - rewrite decide_False in Hr by lia. destruct Hr as (c1 & -> & Hc1).
    destruct (IH _ _ _ _ c1 (S asked) (keeps_all_one_back _ _ _ _ _ Hk) Hc1) as (c' & Hto & Hc').
    { rewrite rounds_one_back by done. lia. }
    exists c'. split; [done|]. destruct Hk as (Kon & Koff & Kgas & Kcomp).
    by rewrite !one_back_back, !aux_back_back in Hc' by done.
Qed.

(** What a database shows when it is at the version of a height. *)
Definition at_version (db : Database) (target : Z) (v : Versions) : Prop :=
  height db = Some target ∧ metadata_height_of db = Ok (Some target) ∧
  ∃ s : Snapshot, v_states v !! Z.to_nat (v_latest v - target) = Some s ∧
    ∀ k c, is_original c → db_get (rocks (data db)) k c = s k c.

Lemma shows_at_version db target v : shows_versions db (back_to target v) → at_version db target v.
Proof.
  intros [revs Hok]. split_and!; [apply (do_height _ _ _ _ _ Hok)|by rewrite (metadata_ok _ (back_to target v)) by (by exists revs)|].
  destruct (ho_states _ _ _ _ (do_history _ _ _ _ _ Hok)) as (s & states & Hs & Hsh & _).
  exists s. split; [|done].
  pose proof (lookup_drop (v_states v) (Z.to_nat (v_latest v - target)) 0) as Hd.
  rewrite Nat.add_0_r in Hd. rewrite <- Hd. exact (f_equal (lookup 0%nat) Hs).
Qed.

(** The error for the first database below the target, if there is one. *)
Definition first_below (target : Z) (on off : Versions) (gas comp : option Versions) : option RollbackError :=
  if decide (v_latest on < target) then Some (OnChainBelowTarget (v_latest on))
  else if decide (v_latest off < target) then Some (OffChainBelowTarget (v_latest off))
  else if below (v_latest <$> gas) target then Some (GasPriceBelowTarget (default 0 (v_latest <$> gas)))
  else if below (v_latest <$> comp) target then Some (CompressionBelowTarget (default 0 (v_latest <$> comp)))
  else None.

(** Nothing is left to roll back: the auxiliary databases may be below the target then. *)
Definition rolled_back (target : Z) (on off : Versions) (gas comp : option Versions) : bool :=
  bool_decide (v_latest on = target) && bool_decide (v_latest off = target) &&
  is_equal_or_less_than_or_none (v_latest <$> gas) target && is_equal_or_less_than_or_none (v_latest <$> comp) target.

(** The history of a database goes back to the target, if the database is above it. *)
Definition history_reaches (target : Z) (v : Versions) : Prop :=
  target ≤ v_latest v → (Z.to_nat (v_latest v - target) < length (v_states v))%nat.

Lemma first_below_none target on off gas comp :
  history_reaches target on → history_reaches target off → (∀ v, gas = Some v → history_reaches target v) → (∀ v, comp = Some v → history_reaches target v) →
  first_below target on off gas comp = None → keeps_all target on off gas comp.
Proof.
  intros Ron Roff Rgas Rcomp. unfold first_below, below. case_decide; [done|]. case_decide; [done|].
  destruct gas as [gas|]; simpl; [case_bool_decide; [done|]|]; (destruct comp as [comp|]; simpl; [case_bool_decide; [done|]|]); intros _;
    (split_and!; [split; [lia|apply Ron; lia]|split; [lia|apply Roff; lia]|intros v [= <-]|intros v [= <-]]); split;
    first [lia|apply Rgas; [done|lia]|apply Rcomp; [done|lia]].
Qed.

Lemma first_below_some target cancelled c on off gas comp e :
  (∀ i, cancelled i = false) → shows_all c on off gas comp → first_below target on off gas comp = Some e →
  rollback_to 1 cancelled 0 target c = Some (c, if rolled_back target on off gas comp then Ok () else Err e).
Proof.
  intros Hcan [Hon Hoff Hgas Hcomp] He. cbn [rollback_to]. rewrite !Hcan. unfold rollback_round.
  rewrite (metadata_ok _ _ Hon), (metadata_ok _ _ Hoff), (aux_metadata _ _ Hgas), (aux_metadata _ _ Hcomp).
  unfold rolled_back. destruct (_ && _); [done|]. unfold first_below in He. repeat (case_match; [by simplify_eq|]). done.
Qed.

(** C39: unless a shutdown comes in between, a rollback ends.  When no database is below the
    target and the history of each goes back to it, the rollback returns without an error,
    after as many rounds as the furthest database is ahead and one more, and then every
    database has the target as its height, in memory and in its metadata, and shows exactly
    the values of that height.  When a database is below the target, the rollback changes
    nothing; it returns the error of the first such database, except that auxiliary databases
    may be below when the others are at the target. *)
Theorem rollback_reaches_target target cancelled c on off gas comp :
  (∀ i, cancelled i = false) → shows_all c on off gas comp →
  history_reaches target on → history_reaches target off → (∀ v, gas = Some v → history_reaches target v) → (∀ v, comp = Some v → history_reaches target v) →
  match first_below target on off gas comp with
  | None =>
      ∃ c', rollback_to (S (Z.to_nat (rounds target on off gas comp))) cancelled 0 target c = Some (c', Ok ()) ∧
        at_version (on_chain c') target on ∧ at_version (off_chain c') target off ∧
        (∀ v, gas = Some v → at_version (gas_price c') target v) ∧
        (∀ v, comp = Some v → at_version (compression c') target v)
  | Some e => rollback_to 1 cancelled 0 target c = Some (c, if rolled_back target on off gas comp then Ok () else Err e)
  end.
Proof.
  intros Hcan Hc Ron Roff Rgas Rcomp. destruct (first_below target on off gas comp) as [e|] eqn:Hb; [by apply first_below_some|].
  pose proof (first_below_none _ _ _ _ _ Ron Roff Rgas Rcomp Hb) as Hk. pose proof Hk as ([? _] & _).
  destruct (rollback_loop_ok target cancelled (Z.to_nat (rounds target on off gas comp)) Hcan
    on off gas comp c 0%nat Hk Hc) as (c' & Hto & [Hon Hoff Hgas Hcomp]).
  { unfold rounds. lia. }
  exists c'. split_and!; [done|by apply shows_at_version..| |].
  - intros v ->. by apply shows_at_version.
  - intros v ->. by apply shows_at_version.
Qed.

(** How far an auxiliary database is ahead. *)
Definition ahead (on : Z) (v : option Versions) : Z :=
  match v with Some v => Z.max 0 (v_latest v - on) | None => 0 end.

(** Back to the on-chain height where ahead of it; where it is behind it stays. *)
Definition caught (on : Z) (v : Versions) : Versions :=
  if decide (on < v_latest v) then back_to on v else v.

Definition reaches (on : Z) (v : Versions) : Prop := on < v_latest v → keeps on v.

Lemma above_rollback on db v :
  (∀ v', v = Some v' → reaches on v') → aux_versions db v →
  ∃ db', rollback_if (above (v_latest <$> v) on) db = (db', Ok ()) ∧ aux_versions db' (one_back on <$> v).
Proof.
  intros Hk Hok. destruct v as [v|]; simpl; [|by exists db].
  destruct (decide (on < v_latest v)) as [Hlt|]; [by apply rollback_if_ok; [apply Hk|]|].
  exists db. unfold rollback_if, one_back. rewrite bool_decide_false, decide_False by done. done.
Qed.

Lemma reaches_one_back on v : reaches on v → reaches on (one_back on v).
Proof.
  unfold reaches, one_back. intros Hk. case_decide as Hlt; [|done]. intros _.
  specialize (Hk Hlt). apply one_back_keeps in Hk. unfold one_back in Hk. by rewrite decide_True in Hk.
Qed.

Lemma caught_one_back on v : reaches on v → caught on (one_back on v) = caught on v.
Proof.
  intros Hk. unfold caught. destruct (decide (on < v_latest v)) as [Hlt|Hge].
  - specialize (Hk Hlt). pose proof (one_back_latest _ _ Hk). case_decide; [by apply one_back_back|].
    rewrite <- (one_back_back on v Hk), back_to_here; [done|by apply one_back_keeps|lia].
  - unfold one_back. rewrite !(decide_False (P := on < v_latest v)) by done. done.
Qed.

Lemma ahead_one_back on v :
  (∀ v', v = Some v' → reaches on v') → ahead on (one_back on <$> v) = Z.max 0 (ahead on v - 1).
Proof.
  intros Hk. destruct v as [v|]; simpl; [|done]. unfold one_back. case_decide; simpl; lia.
Qed.

Lemma aux_caught on w :
  (∀ v, w = Some v → reaches on v) → caught on <$> (one_back on <$> w) = caught on <$> w.
Proof. intros Kw. destruct w as [w|]; simpl; [|done]. by rewrite caught_one_back by (by apply Kw). Qed.

Lemma aux_reaches on w :
  (∀ v, w = Some v → reaches on v) → ∀ v, one_back on <$> w = Some v → reaches on v.
Proof. intros Kw v (v0 & -> & ->)%fmap_Some. by apply reaches_one_back, Kw. Qed.

Lemma is_caught_up on (w : option Versions) :
  is_equal_or_less_than_or_none (v_latest <$> w) on = bool_decide (ahead on w = 0).
Proof.
  destruct w as [w|]; simpl; [|done]. apply bool_decide_ext. lia.
Qed.

(** Without a shutdown [sync_aux_db_heights] returns, the databases that were ahead of
    the on-chain one at its version of that height and the others untouched. *)
Lemma sync_aux_ok cancelled n :
  (∀ i, cancelled i = false) →
  ∀ c on off gas asked,
  shows_versions (on_chain c) on → aux_versions (off_chain c) off → aux_versions (gas_price c) gas →
  (∀ v, off = Some v → reaches (v_latest on) v) → (∀ v, gas = Some v → reaches (v_latest on) v) →
  Z.max (ahead (v_latest on) off) (ahead (v_latest on) gas) = Z.of_nat n →
  ∃ c', sync_aux_db_heights (S n) cancelled asked c = Some (c', Ok ()) ∧
    on_chain c' = on_chain c ∧ compression c' = compression c ∧
    aux_versions (off_chain c') (caught (v_latest on) <$> off) ∧
    aux_versions (gas_price c') (caught (v_latest on) <$> gas).
Proof.
  intros Hcan. induction n as [|n IH]; intros c on off gas asked Hon Hoff Hgas Koff Kgas Hn;
    cbn [sync_aux_db_heights]; rewrite Hcan; unfold sync_round;
    rewrite (metadata_ok _ _ Hon), (aux_metadata _ _ Hoff), (aux_metadata _ _ Hgas), !is_caught_up;
    destruct (above_rollback _ _ _ Koff Hoff) as (d1 & -> & H1');
    destruct (above_rollback _ _ _ Kgas Hgas) as (d2 & -> & H2').
  - assert (∀ w, ahead (v_latest on) w = 0 → caught (v_latest on) <$> w = w) as Hc.
    { intros [w|] Hw; simpl in *; [|done]. unfold caught. by rewrite decide_False by lia. }
    assert (∀ w, 0 ≤ ahead (v_latest on) w) as Hp by (intros [w|]; simpl; lia).
    pose proof (Hp off). pose proof (Hp gas). rewrite !bool_decide_true by lia.
    exists c. rewrite !Hc by lia. done.
  - match goal with |- context [if ?b then Break else _] => destruct b eqn:Hb end.
    { rewrite andb_true_iff, !bool_decide_eq_true in Hb. lia. }
    edestruct (IH {| on_chain := on_chain c; off_chain := d1; relayer := relayer c; gas_price := d2; compression := compression c |}
      on (one_back (v_latest on) <$> off) (one_back (v_latest on) <$> gas) (S asked)) as (c' & Hs & ? & ? & Ho & Hg);
      [done..|by apply aux_reaches|by apply aux_reaches| |].
    { rewrite !ahead_one_back by done. lia. }
    rewrite aux_caught in Ho, Hg by done. exists c'. split; [exact Hs|done].
Qed.
End facts.

(** ** Samples *)

Module SampleNode.
Import SampleDb.

(** The blocks 1, ..., n, each with a coin. *)
Definition blocks (n : nat) : list DbOp :=
  (λ i, let h := Z.of_nat i in OpCommit [block_changes h; coin_changes 7 h]) <$> seq 1 n.

Definition database_at (n : nat) : Database := (run_steps db_step (database RewindFullRange) (blocks n)).1.

Definition versions_at (n : nat) : Versions :=
  (run_steps (spec_step RewindFullRange) (initial (database RewindFullRange) 0) (blocks n)).1.

Lemma database_at_shows n : Z.of_nat n < U32 → shows_versions keys RewindFullRange (database_at n) (versions_at n).
Proof.
  intros Hn. destruct (run_db_ok keys keys_ok eq_refl _ _ _ _ (blocks n)
    (opened_ok keys RewindFullRange _ 0 I (database_opened RewindFullRange))) as (revs & _ & Hok).
  - unfold blocks. apply Forall_fmap, Forall_seq. intros i Hi. apply block_op_ok. lia.
  - by exists revs.
Qed.

(** A gas price database that was never used. *)
Definition empty_database : Database :=
  {| height := None;
     data := {| state_rewind_policy := RewindFullRange; rocks := ∅; has_v1_history := false |} |}.

(** The off-chain database is one block behind, the compression one ahead. *)
Definition node : CombinedDatabase := {|
  on_chain := database_at 3;
  off_chain := database_at 2;
  relayer := empty_database;
  gas_price := empty_database;
  compression := database_at 4;
|}.

Definition never (_ : nat) : bool := false.
End SampleNode.

Lemma rollback_reaches_target_witness :
  ∃ c', rollback_to 4 SampleNode.never 0 1 SampleNode.node = Some (c', Ok ()) ∧
    at_version (on_chain c') 1 (SampleNode.versions_at 3) ∧
    at_version (off_chain c') 1 (SampleNode.versions_at 2) ∧
    (∀ v, None = Some v → at_version (gas_price c') 1 v) ∧
    (∀ v, Some (SampleNode.versions_at 4) = Some v → at_version (compression c') 1 v).
Proof.
  apply (rollback_reaches_target SampleDb.keys RewindFullRange 1 SampleNode.never SampleNode.node
    (SampleNode.versions_at 3) (SampleNode.versions_at 2) None (Some (SampleNode.versions_at 4))).
  - done.
  - split; [apply SampleNode.database_at_shows; done..|done|apply SampleNode.database_at_shows; done].
  - intros _. vm_compute. lia.
  - intros _. vm_compute. lia.
  - done.
  - intros v [= <-] _. vm_compute. lia.
Defined.

(** A gas price database behind the target counts as rolled back when the others are at
    the target, and is an error while they are not: the same call fails first and
    succeeds on the state of the same gas price database otherwise. *)
Example gas_price_behind_target :
  let node on := {| on_chain := SampleNode.database_at on; off_chain := SampleNode.database_at on;
                    relayer := SampleNode.empty_database;
                    gas_price := SampleNode.database_at 1; compression := SampleNode.empty_database |} in
  let run on := snd <$> rollback_to 5 SampleNode.never 0 2 (node on) in
  run 2%nat = Some (Ok ()) ∧ run 3%nat = Some (Err (GasPriceBelowTarget 1)).
Proof. vm_compute. split; reflexivity. Qed.
