(* ===== verification/Blocks.v ===== *)
(** * Blocks and their headers

    Model of types/src/blockchain/{header,header/v1,block,consensus}.rs with the default
    features (headers of version 1): generation of a header from its partial header and
    the transactions, the hashes of a header, and the conversions between blocks.  The
    hash function, the Merkle root, the signatures and the encoding of transactions come
    from other crates and are a class. *)

From stdpp Require Import prelude list.
From Stdlib Require Import ZArith Lia.
From S2P Require Import Prelude.
From S2P Require Import StorageTx.
From S2P Require Import HistoricalDb.
Local Open Scope Z_scope.

Abbreviation Bytes32 := (list Z).
Abbreviation BlockId := (list Z).
Abbreviation TxId := (list Z).
Abbreviation MessageId := (list Z).
Abbreviation Address := (list Z).

(** [Bytes32::zeroed()]. *)
Definition zeroed : Bytes32 := replicate 32 0.

(** [Tai64::UNIX_EPOCH]. *)
Definition UNIX_EPOCH : Z := 10 + 2 ^ 62.

(** What the blocks use of fuel-crypto, fuel-merkle and fuel-tx: [digest] is the hash of
    all the bytes put into a hasher, [ephemeral_root] the root of the binary Merkle tree
    of the leaves pushed in order. *)
Class ChainCrypto (Tx Signature : Type) := {
  digest : list Z → Bytes32;
  ephemeral_root : list (list Z) → Bytes32;
  tx_bytes : Tx → list Z;
  tx_id : Z → Tx → TxId;
  PublicKey : Type;
  recover : Signature → BlockId → option PublicKey;
  owner : PublicKey → Address;
}.

(** ** Headers *)

Inductive Empty := MkEmpty.

Record GeneratedApplicationFieldsV1 := {
  transactions_count : Z;
  message_receipt_count : Z;
  transactions_root : Bytes32;
  message_outbox_root : Bytes32;
  event_inbox_root : Bytes32;
}.

Record GeneratedConsensusFields := { application_hash : Bytes32 }.

Record ApplicationHeader (Generated : Type) := {
  da_height : Z;
  consensus_parameters_version : Z;
  state_transition_bytecode_version : Z;
  ap_generated : Generated;
}.
Arguments da_height {_} _.
Arguments consensus_parameters_version {_} _.
Arguments state_transition_bytecode_version {_} _.
Arguments ap_generated {_} _.

Record ConsensusHeader (Generated : Type) := {
  prev_root : Bytes32;
  height : Z;
  time : Z;
  co_generated : Generated;
}.
Arguments prev_root {_} _.
Arguments height {_} _.
Arguments time {_} _.
Arguments co_generated {_} _.

Record BlockHeader := {
  application : ApplicationHeader GeneratedApplicationFieldsV1;
  consensus : ConsensusHeader GeneratedConsensusFields;
  metadata : option BlockId;
}.

Record PartialBlockHeader := {
  p_application : ApplicationHeader Empty;
  p_consensus : ConsensusHeader Empty;
}.

Inductive BlockHeaderError := TooManyTransactions | TooManyMessages.

(** A block with transactions in the representation [T]. *)
Record Block (T : Type) := {
  header : BlockHeader;
  transactions : list T;
}.
Arguments header {_} _.
Arguments transactions {_} _.

Record PartialFuelBlock (Tx : Type) := {
  pf_header : PartialBlockHeader;
  pf_transactions : list Tx;
}.
Arguments pf_header {_} _.
Arguments pf_transactions {_} _.

(** The genesis data is the roots and the hash of the configuration. *)
Record Genesis := {
  chain_config_hash : Bytes32;
  coins_root : Bytes32;
  contracts_root : Bytes32;
  messages_root : Bytes32;
  genesis_transactions_root : Bytes32;
}.

Inductive Consensus (Signature : Type) :=
| CGenesis (g : Genesis)
| CPoA (signature : Signature).
Arguments CGenesis {_} _.
Arguments CPoA {_} _.

Record SealedBlock (Tx Signature : Type) := {
  entity : Block Tx;
  seal : Consensus Signature;
}.
Arguments entity {_ _} _.
Arguments seal {_ _} _.

Section blocks.
Context {Tx Signature : Type} `{!ChainCrypto Tx Signature}.

(** ** Hashes *)

Definition hash_application (a : ApplicationHeader GeneratedApplicationFieldsV1) : Bytes32 :=
  let g := ap_generated a in
  digest (to_be_bytes 8 (da_height a) ++
          to_be_bytes 4 (consensus_parameters_version a) ++
          to_be_bytes 4 (state_transition_bytecode_version a) ++
          to_be_bytes 2 (transactions_count g) ++
          to_be_bytes 4 (message_receipt_count g) ++
          transactions_root g ++ message_outbox_root g ++ event_inbox_root g).

Definition hash_consensus (c : ConsensusHeader GeneratedConsensusFields) : BlockId :=
  digest (prev_root c ++ to_be_bytes 4 (height c) ++ to_be_bytes 8 (time c) ++
          application_hash (co_generated c)).

(** [BlockHeaderV1::hash]. *)
Definition header_hash (h : BlockHeader) : BlockId := hash_consensus (consensus h).

Definition header_id (h : BlockHeader) : BlockId :=
  match metadata h with Some id => id | None => header_hash h end.

Definition with_application_hash (hash : Bytes32) (c : ConsensusHeader GeneratedConsensusFields) :
    ConsensusHeader GeneratedConsensusFields :=
  {| prev_root := prev_root c; height := height c; time := time c;
     co_generated := {| application_hash := hash |} |}.

Definition recalculate_metadata (h : BlockHeader) : BlockHeader :=
  let c := with_application_hash (hash_application (application h)) (consensus h) in
  {| application := application h; consensus := c; metadata := Some (hash_consensus c) |}.

Definition generate_txns_root (txs : list Tx) : Bytes32 := ephemeral_root (tx_bytes <$> txs).

Definition validate_transactions (h : BlockHeader) (txs : list Tx) : bool :=
  let g := ap_generated (application h) in
  bool_decide (generate_txns_root txs = transactions_root g) &&
  bool_decide (Z.of_nat (length txs) = transactions_count g).

(** ** Generation *)

Definition generate (p : PartialBlockHeader) (txs : list Tx) (outbox_message_ids : list MessageId)
    (event_inbox_root : Bytes32) : result BlockHeader BlockHeaderError :=
  let transactions_root := generate_txns_root txs in
  let message_outbox_root := ephemeral_root outbox_message_ids in
  if decide (U16 < Z.of_nat (length txs)) then Err TooManyTransactions
  else if decide (U32 < Z.of_nat (length outbox_message_ids)) then Err TooManyMessages
  else
    Ok (recalculate_metadata {|
      application := {|
        da_height := da_height (p_application p);
        consensus_parameters_version := consensus_parameters_version (p_application p);
        state_transition_bytecode_version := state_transition_bytecode_version (p_application p);
        ap_generated := {|
          transactions_count := Z.of_nat (length txs);
          message_receipt_count := Z.of_nat (length outbox_message_ids);
          transactions_root := transactions_root;
          message_outbox_root := message_outbox_root;
          event_inbox_root := event_inbox_root;
        |};
      |};
      consensus := {|
        prev_root := prev_root (p_consensus p);
        height := height (p_consensus p);
        time := time (p_consensus p);
        co_generated := {| application_hash := zeroed |};
      |};
      metadata := None;
    |}).

Definition Block_new (p : PartialBlockHeader) (txs : list Tx) (outbox_message_ids : list MessageId)
    (event_inbox_root : Bytes32) : result (Block Tx) BlockHeaderError :=
  result_bind (generate p txs outbox_message_ids event_inbox_root) (λ h,
    Ok {| header := h; transactions := txs |}).

Definition generate_block (p : PartialFuelBlock Tx) (outbox_message_ids : list MessageId)
    (event_inbox_root : Bytes32) : result (Block Tx) BlockHeaderError :=
  Block_new (pf_header p) (pf_transactions p) outbox_message_ids event_inbox_root.

Definition try_from_executed (h : BlockHeader) (txs : list Tx) : option (Block Tx) :=
  if validate_transactions h txs then Some {| header := h; transactions := txs |} else None.

(** ** Conversions *)

(** [From<&BlockHeader> for PartialBlockHeader]. *)
Definition partial_header (h : BlockHeader) : PartialBlockHeader := {|
  p_application := {|
    da_height := da_height (application h);
    consensus_parameters_version := consensus_parameters_version (application h);
    state_transition_bytecode_version := state_transition_bytecode_version (application h);
    ap_generated := MkEmpty;
  |};
  p_consensus := {|
    prev_root := prev_root (consensus h);
    height := height (consensus h);
    time := time (consensus h);
    co_generated := MkEmpty;
  |};
|}.

(** [From<Block> for PartialFuelBlock]. *)
Definition partial_block (b : Block Tx) : PartialFuelBlock Tx :=
  {| pf_header := partial_header (header b); pf_transactions := transactions b |}.

Definition compress (chain_id : Z) (b : Block Tx) : Block TxId :=
  {| header := header b; transactions := tx_id chain_id <$> transactions b |}.

Definition uncompress (b : Block TxId) (txs : list Tx) : Block Tx :=
  {| header := header b; transactions := txs |}.

(** [Block::id]; the identifier of the header. *)
Definition block_id {T} (b : Block T) : BlockId := header_id (header b).

(** [Consensus::block_producer]. *)
Definition block_producer (c : Consensus Signature) (id : BlockId) : option Address :=
  match c with
  | CGenesis _ => Some zeroed
  | CPoA signature => owner <$> recover signature id
  end.

(** ** Generated headers *)

(** A header whose hashes are those of its fields. *)
Record header_sealed (h : BlockHeader) : Prop := {
  hs_application : application_hash (co_generated (consensus h)) = hash_application (application h);
  hs_id : header_id h = header_hash h;
}.

Lemma recalculate_sealed h : header_sealed (recalculate_metadata h).
Proof. by split. Qed.

Lemma generate_ok p txs ids root h :
  generate p txs ids root = Ok h →
  header_sealed h ∧ validate_transactions h txs = true ∧ partial_header h = p ∧
  Z.of_nat (length txs) ≤ U16.
Proof.
  unfold generate. repeat case_decide; try done. intros [= <-].
  split_and!; [apply recalculate_sealed| | |lia].
  - unfold validate_transactions. simpl. by rewrite !bool_decide_true.
  - destruct p as [[? ? ? []] [? ? ? []]]. done.
Qed.

Lemma block_new_ok p txs ids root b :
  Block_new p txs ids root = Ok b →
  header_sealed (header b) ∧ validate_transactions (header b) (transactions b) = true ∧
  partial_block b = {| pf_header := p; pf_transactions := txs |}.
Proof.
  unfold Block_new. destruct (generate p txs ids root) as [h|] eqn:Hg; [|done]. intros [= <-]. simpl.
  apply generate_ok in Hg as (? & ? & Hp & _). split_and!; [done..|]. unfold partial_block. simpl. by rewrite Hp.
Qed.

(** Generation depends on the partial block only: from a generated block it gives the
    block back. *)
Lemma regenerate p txs ids root b :
  Block_new p txs ids root = Ok b → generate_block (partial_block b) ids root = Ok b.
Proof.
  intros Hb. pose proof (block_new_ok _ _ _ _ _ Hb) as (_ & _ & ->). exact Hb.
Qed.

Lemma executed_block h txs b : try_from_executed h txs = Some b → header b = h ∧ transactions b = txs.
Proof. unfold try_from_executed. case_match; [|done]. by intros [= <-]. Qed.
End blocks.
