(* ===== verification/Tables.v ===== *)
(** * Typed tables

    Model of the blueprints of the structured storage (storage/src/blueprint.rs,
    blueprint/plain.rs, blueprint/merklized.rs, structured_storage.rs): a table is a
    column with an encoding of its keys and values; a merklized table also keeps the
    binary Merkle tree of its entries in the order of their insertion.  The tree itself
    is third-party code that reads and writes its nodes through the storage. *)

From stdpp Require Import prelude gmap list strings.
From Stdlib Require Import ZArith Lia.
From S2P Require Import Prelude.
From S2P Require Import StorageTx.
Local Open Scope Z_scope.

(** Mutable access with an early return on an error: what was written stays. *)
Definition and_then {T A B} (m : T * result A StorageError) (f : T → A → T * result B StorageError) :
    T * result B StorageError :=
  match m with
  | (t, Ok a) => f t a
  | (t, Err e) => (t, Err e)
  end.

Declare Scope storage_scope.
Notation "'let!' ( t , a ) := m 'in' k" := (and_then m (λ t a, k))
  (at level 200, t name, a name, m at level 100, k at level 200) : storage_scope.
Local Open Scope storage_scope.

(** A table: its column, the encoding of keys and the codec of values. *)
Record Table (K V : Type) := {
  t_column : Z;
  t_encode : K → Key;
  t_ser : V → Value;
  t_de : Value → option V;
}.
Arguments t_column {K V} _.
Arguments t_encode {K V} _ _.
Arguments t_ser {K V} _ _.
Arguments t_de {K V} _ _.

Definition decode_value {K V} (tb : Table K V) (o : option Value) : result (option V) StorageError :=
  match o with
  | None => Ok None
  | Some bytes => match t_de tb bytes with Some v => Ok (Some v) | None => Err "Codec" end
  end.

(** ** The plain blueprint *)

Section plain.
Context {K V S : Type} `{!KeyValueInspect S} (tb : Table K V).
Implicit Types t : InMemoryTransaction S.

(** [BlueprintInspect::get] and [exists] on any storage. *)
Definition table_get (s : S) (key : K) : result (option V) StorageError :=
  result_bind (kv_get s (t_encode tb key) (t_column tb)) (decode_value tb).

Definition table_exists (s : S) (key : K) : result bool StorageError :=
  kv_exists s (t_encode tb key) (t_column tb).

Definition plain_put t (key : K) (value : V) : InMemoryTransaction S * result unit StorageError :=
  put t (t_encode tb key) (t_column tb) (t_ser tb value).

Definition plain_replace t (key : K) (value : V) :
    InMemoryTransaction S * result (option V) StorageError :=
  let! (t, prev) := replace t (t_encode tb key) (t_column tb) (t_ser tb value) in
  (t, decode_value tb prev).

Definition plain_take t (key : K) : InMemoryTransaction S * result (option V) StorageError :=
  let! (t, prev) := take_value t (t_encode tb key) (t_column tb) in (t, decode_value tb prev).

Definition plain_delete t (key : K) : InMemoryTransaction S * result unit StorageError :=
  delete_key t (t_encode tb key) (t_column tb).

(** [SupportsBatching]. *)
Definition plain_insert_batch t (set : list (K * V)) : InMemoryTransaction S * result unit StorageError :=
  batch_write t (t_column tb) ((λ '(k, v), (t_encode tb k, Insert (t_ser tb v))) <$> set).

Definition plain_remove_batch t (set : list K) : InMemoryTransaction S * result unit StorageError :=
  batch_write t (t_column tb) ((λ k, (t_encode tb k, Remove)) <$> set).
End plain.

(** ** The merklized blueprint *)

Inductive DenseMetadataKey (K : Type) :=
| Primary (key : K)
| Latest.
Arguments Primary {K} _.
Arguments Latest {K}.

Record DenseMerkleMetadata := { version : Z; merkle_root : list Z }.

(** What the table uses of a binary Merkle tree: [tree_push] loads the tree of a version
    from the nodes it reads, pushes a leaf, and gives the nodes it writes, the number
    of leaves and the root of the new tree. *)
Class MerkleTree := {
  empty_root : list Z;
  tree_root : list (list Z) → list Z;
  tree_push : (Key → result (option Value) StorageError) → Z → list Z →
    result (list (Key * Value) * Z * list Z) StorageError;
  tree_holds : (Key → result (option Value) StorageError) → list (list Z) → Prop;
}.

(** A tree of [n] leaves can be loaded and pushed to from the nodes written for them;
    the nodes of a tree are under keys of 8 bytes. *)
Class MerkleTreeLaws `{!MerkleTree} : Prop := {
  tree_empty reads : (∀ k, reads k = Ok None) → tree_holds reads [];
  tree_push_ok reads leaves leaf :
    tree_holds reads leaves →
    ∃ nodes, tree_push reads (Z.of_nat (length leaves)) leaf =
        Ok (nodes, Z.of_nat (S (length leaves)), tree_root (leaves ++ [leaf])) ∧
      Forall (λ node : Key * Value, length node.1 = 8%nat) nodes ∧
      tree_holds (λ k, match list_to_map (M := gmap Key Value) nodes !! k with
                       | Some v => Ok (Some v)
                       | None => reads k
                       end) (leaves ++ [leaf]);
  tree_ext reads reads' leaves :
    (∀ k, reads k = reads' k) → tree_holds reads leaves → tree_holds reads' leaves;
}.

(** A merklized table: the table, its metadata, the column of the nodes and what of a
    value is a leaf. *)
Record MerklizedTable (K V : Type) := {
  mt_table : Table K V;
  mt_metadata : Table (DenseMetadataKey K) DenseMerkleMetadata;
  mt_nodes : Z;
  mt_leaf : V → list Z;
}.
Arguments mt_table {K V} _.
Arguments mt_metadata {K V} _.
Arguments mt_nodes {K V} _.
Arguments mt_leaf {K V} _ _.

Section merklized.
Context {K V S : Type} `{!KeyValueInspect S} `{!MerkleTree} (mt : MerklizedTable K V).
Implicit Types t : InMemoryTransaction S.

Definition default_metadata : DenseMerkleMetadata := {| version := 0; merkle_root := empty_root |}.

(** The nodes the tree inserts into its table. *)
Definition put_nodes t (nodes : list (Key * Value)) : InMemoryTransaction S :=
  foldr (λ node t, record t node.1 (mt_nodes mt) (Insert node.2)) t nodes.

Definition insert_into_tree t (key : K) (value : V) : InMemoryTransaction S * result unit StorageError :=
  match table_get (mt_metadata mt) t Latest with
  | Err e => (t, Err e)
  | Ok prev =>
      let prev_metadata := default default_metadata prev in
      match tree_push (λ k, kv_get t k (mt_nodes mt)) (version prev_metadata) (mt_leaf mt value) with
      | Err e => (t, Err e)
      | Ok (nodes, version, root) =>
          let t := put_nodes t nodes in
          let metadata := {| version := version; merkle_root := root |} in
          let! (t, _) := plain_put (mt_metadata mt) t (Primary key) metadata in
          let! (t, _) := plain_put (mt_metadata mt) t Latest metadata in
          (t, Ok ())
      end
  end.

(** Entries can be neither removed nor overridden. *)
Definition merklized_remove t (key : K) : result unit StorageError :=
  result_bind (table_exists (mt_table mt) t key) (λ found,
    if found then Err "It is not allowed to remove or override entries in the merklelized table"
    else Ok ()).

Definition merklized_put t (key : K) (value : V) : InMemoryTransaction S * result unit StorageError :=
  let! (t, _) := plain_put (mt_table mt) t key value in insert_into_tree t key value.

Definition merklized_replace t (key : K) (value : V) :
    InMemoryTransaction S * result (option V) StorageError :=
  let! (t, prev) := plain_replace (mt_table mt) t key value in
  let! (t, _) := match prev with
                 | Some _ => (t, merklized_remove t key)
                 | None => (t, Ok ())
                 end in
  let! (t, _) := insert_into_tree t key value in
  (t, Ok prev).

Definition merklized_take t (key : K) : InMemoryTransaction S * result (option V) StorageError :=
  let! (t, _) := (t, merklized_remove t key) in plain_take (mt_table mt) t key.

Definition merklized_delete t (key : K) : InMemoryTransaction S * result unit StorageError :=
  (t, merklized_remove t key).

(** [SupportsMerkle::root]. *)
Definition merklized_root (s : S) (key : K) : result (list Z) StorageError :=
  result_bind (table_get (mt_metadata mt) s (Primary key)) (λ o,
    match o with Some metadata => Ok (merkle_root metadata) | None => Err "NotFound" end).
End merklized.

(** ** Facts *)

(** Changes of the keys in [P] only. *)
Definition within (P : Z → Key → Prop) (ch : Changes) : Prop :=
  (∀ c, is_Some (ch !! c) → ∃ k, P c k) ∧ (∀ k c, is_Some (change_at ch k c) → P c k).

Lemma within_empty P : within P ∅.
Proof. split; [intros c|intros k c; unfold change_at]; rewrite lookup_empty; by intros []. Qed.

Lemma record_within P ch key column op : within P ch → P column key → within P (record_change key column op ch).
Proof.
  intros [Hc Hk] HP. split.
  - intros c. unfold record_change. destruct (decide (c = column)) as [->|Hne]; [by eauto|].
    rewrite lookup_insert_ne by done. apply Hc.
  - intros k c. rewrite change_at_record. case_decide as Hd; [|apply Hk]. by destruct Hd as [-> ->].
Qed.

(** A commit into a transaction without changes brings the keys of its changes. *)
Lemma merge_columns_columns `{!HashOrder Key} p ch columns acc c :
  is_Some ((merge_columns p ch columns acc).1 !! c) → is_Some (ch !! c) ∨ is_Some (acc !! c).
Proof.
  revert acc. induction columns as [|c0 columns IH]; intros acc; cbn [merge_columns]; [by right|].
  assert (∀ col, is_Some (ch !! c0) → is_Some ((<[c0 := col]> acc : Changes) !! c) → is_Some (ch !! c) ∨ is_Some (acc !! c)) as Hins.
  { intros col Hc0. destruct (decide (c0 = c)) as [<-|Hne]; [by left|]. rewrite lookup_insert_ne by done. by right. }
  destruct (ch !! c0) as [value|] eqn:Hv; [|apply IH]. destruct (acc !! c0) as [btree|].
  - destruct (merge_entries _ _ _ _) as [btree' [[]|e]]; simpl; [|by apply Hins].
    intros [Hc|Hc]%IH; [by left|]. by eapply Hins.
  - intros [Hc|Hc]%IH; [by left|]. by eapply Hins.
Qed.

Lemma commit_within `{!HashOrder Z} `{!HashOrder Key} {S} P ch (t : InMemoryTransaction S) :
  changes t = ∅ → within P ch →
  let '(t', r) := tx_commit_changes ch t in
  r = Ok () ∧ within P (changes t') ∧ ∀ k c, change_at (changes t') k c = change_at ch k c.
Proof.
  intros Ht [Hc Hk]. pose proof (tx_commit_ok ch t) as Hok.
  assert (∀ k c, change_at (changes t) k c = None) as Hno.
  { intros k c. unfold change_at. by rewrite Ht, lookup_empty. }
  pose proof (λ c, merge_columns_columns (policy t) ch (hs_iter (dom ch)) (changes t) c) as Hcol.
  unfold tx_commit_changes in *. destruct (merge_columns _ _ _ _) as [acc r]. simpl in *.
  destruct Hok as (_ & _ & Hr). destruct r as [[]|e].
  2: { destruct Hr as (_ & k & c & _ & Hs). rewrite Hno in Hs. by destruct Hs. }
  destruct Hr as [_ Hr]. assert (∀ k c, change_at acc k c = change_at ch k c) as Hall.
  { intros k c. rewrite Hr, Hno. by destruct (change_at ch k c). }
  split_and!; [done| |done]. split; [|intros k c; rewrite Hall; apply Hk].
  intros c Hs. apply Hc. destruct (Hcol c Hs) as [?|He]; [done|]. rewrite Ht, lookup_empty in He. by destruct He.
Qed.

Section facts.
Context {S : Type} `{!KeyValueInspect S} (P : Z → Key → Prop) (below : S).
Implicit Types (t : InMemoryTransaction S) (v : View.t).

(** A transaction over [below] that shows a view and changed keys in [P] only. *)
Record tx_ok (v : View.t) t : Prop := {
  to_shows : shows t v;
  to_storage : storage t = below;
  to_within : within P (changes t);
}.

Lemma tx_ok_get t v k c : tx_ok v t → kv_get t k c = v k c.
Proof. intros Hv. apply Hv. Qed.

Lemma tx_ok_record t v k c op :
  tx_ok v t → P c k → tx_ok (View.set k c (View.value_of op) v) (record t k c op).
Proof.
  intros [Hs Hst Hw] HP. split; [by apply shows_record|done|]. by apply record_within.
Qed.

Lemma table_get_ok {K V} (tb : Table K V) t v key :
  tx_ok v t → table_get tb t key = result_bind (v (t_encode tb key) (t_column tb)) (decode_value tb).
Proof. intros Hv. unfold table_get. by rewrite (tx_ok_get t v). Qed.

Lemma plain_put_ok {K V} (tb : Table K V) t v key value :
  tx_ok v t → P (t_column tb) (t_encode tb key) →
  ∃ t', plain_put tb t key value = (t', Ok ()) ∧
    tx_ok (View.set (t_encode tb key) (t_column tb) (Some (t_ser tb value)) v) t'.
Proof. intros Hv HP. eexists. split; [done|]. exact (tx_ok_record t v _ _ (Insert (t_ser tb value)) Hv HP). Qed.

Lemma plain_replace_ok {K V} (tb : Table K V) t v key value o :
  tx_ok v t → P (t_column tb) (t_encode tb key) → v (t_encode tb key) (t_column tb) = Ok o →
  ∃ t', plain_replace tb t key value = (t', decode_value tb o) ∧
    tx_ok (View.set (t_encode tb key) (t_column tb) (Some (t_ser tb value)) v) t'.
Proof.
  intros Hv HP Ho. exists (record t (t_encode tb key) (t_column tb) (Insert (t_ser tb value))).
  split; [|exact (tx_ok_record t v _ _ (Insert (t_ser tb value)) Hv HP)].
  unfold plain_replace, replace. change (old_value t) with (tx_get t). rewrite (to_shows _ _ Hv), Ho. done.
Qed.

Context `{!MerkleTree} `{!MerkleTreeLaws}.

Definition set_nodes (c : Z) (nodes : list (Key * Value)) (v : View.t) : View.t :=
  λ k c', if decide (c' = c) then
            match list_to_map (M := gmap Key Value) nodes !! k with Some x => Ok (Some x) | None => v k c' end
          else v k c'.

Lemma put_nodes_ok {K V} (mt : MerklizedTable K V) t v nodes :
  tx_ok v t → Forall (λ node : Key * Value, P (mt_nodes mt) node.1) nodes →
  tx_ok (set_nodes (mt_nodes mt) nodes v) (put_nodes mt t nodes).
Proof.
  intros Hv Hn. induction Hn as [|[k x] nodes Hx Hn IH]; cbn [put_nodes foldr].
  { destruct Hv as [Hs ? ?]. split; [|done..]. intros k c. rewrite Hs. unfold set_nodes. case_decide; [|done].
    cbn [list_to_map foldr]. by rewrite lookup_empty. }
  apply (tx_ok_record _ _ k (mt_nodes mt) (Insert x)) in IH as [Hs ? ?]; [|done]. split; [|done..]. intros k' c'.
  rewrite Hs. unfold View.set, set_nodes. cbn [list_to_map foldr fst snd].
  destruct (decide (c' = mt_nodes mt)) as [->|Hc].
  - destruct (decide (k' = k)) as [->|Hk].
    + rewrite decide_True by done. by rewrite lookup_insert_eq.
    + rewrite decide_False by naive_solver. by rewrite lookup_insert_ne.
  - by rewrite decide_False by naive_solver.
Qed.

(** The columns of a merklized table are different ones, its metadata is decoded to what
    was encoded, and the keys of its tree are in [P]. *)
Record merklized_ok {K V} (mt : MerklizedTable K V) : Prop := {
  mo_column : t_column (mt_table mt) ≠ mt_nodes mt;
  mo_metadata : t_column (mt_metadata mt) ≠ mt_nodes mt;
  mo_columns : t_column (mt_table mt) ≠ t_column (mt_metadata mt);
  mo_codec m : t_de (mt_metadata mt) (t_ser (mt_metadata mt) m) = Some m;
  mo_metadata_key key : P (t_column (mt_metadata mt)) (t_encode (mt_metadata mt) key);
  mo_node (k : Key) : length k = 8%nat → P (mt_nodes mt) k;
}.

Definition latest_of (leaves : list (list Z)) : DenseMerkleMetadata :=
  {| version := Z.of_nat (length leaves); merkle_root := tree_root leaves |}.

(** The metadata and the nodes a view has for a tree of the leaves. *)
Definition tree_shown {K V} (mt : MerklizedTable K V) (v : View.t) (leaves : list (list Z)) : Prop :=
  tree_holds (λ k, v k (mt_nodes mt)) leaves ∧
  v (t_encode (mt_metadata mt) Latest) (t_column (mt_metadata mt)) =
    Ok (match leaves with [] => None | _ => Some (t_ser (mt_metadata mt) (latest_of leaves)) end).

Definition metadata_set {K V} (mt : MerklizedTable K V) (key : K) (leaves : list (list Z)) (v : View.t) : View.t :=
  let m := t_ser (mt_metadata mt) (latest_of leaves) in
  View.set (t_encode (mt_metadata mt) Latest) (t_column (mt_metadata mt)) (Some m)
    (View.set (t_encode (mt_metadata mt) (Primary key)) (t_column (mt_metadata mt)) (Some m) v).

(** A new entry: the view with the nodes and the metadata of the tree with its leaf. *)
Definition entry_set {K V} (mt : MerklizedTable K V) (key : K) (value : V) (nodes : list (Key * Value))
    (leaves : list (list Z)) (v : View.t) : View.t :=
  metadata_set mt key leaves (set_nodes (mt_nodes mt) nodes
    (View.set (t_encode (mt_table mt) key) (t_column (mt_table mt)) (Some (t_ser (mt_table mt) value)) v)).

Lemma insert_into_tree_ok {K V} (mt : MerklizedTable K V) t v leaves key value :
  merklized_ok mt → tx_ok v t → tree_shown mt v leaves →
  let leaves' := leaves ++ [mt_leaf mt value] in
  ∃ t' nodes, insert_into_tree mt t key value = (t', Ok ()) ∧
    tx_ok (metadata_set mt key leaves' (set_nodes (mt_nodes mt) nodes v)) t' ∧
    tree_holds (λ k, set_nodes (mt_nodes mt) nodes v k (mt_nodes mt)) leaves'.
Proof.
  intros Hmt Hv [Ht Hlatest]. unfold insert_into_tree.
  assert (table_get (mt_metadata mt) t Latest = Ok (match leaves with [] => None | _ => Some (latest_of leaves) end)) as ->.
  { rewrite (table_get_ok _ t v) by done. rewrite Hlatest. destruct leaves; [done|].
    cbn [result_bind decode_value]. by rewrite (mo_codec mt Hmt). }
  assert (version (default default_metadata (match leaves with [] => None | _ => Some (latest_of leaves) end)) =
    Z.of_nat (length leaves)) as -> by (by destruct leaves).
  apply (tree_ext _ (λ k, kv_get t k (mt_nodes mt))) in Ht; [|intros k; by rewrite (tx_ok_get t v)].
  destruct (tree_push_ok _ leaves (mt_leaf mt value) Ht) as (nodes & -> & Hn & Hh).
  assert (Forall (λ node : Key * Value, P (mt_nodes mt) node.1) nodes) as HPn.
  { eapply Forall_impl; [exact Hn|]. intros node Hl. by apply (mo_node mt Hmt). }
  pose proof (put_nodes_ok mt t v nodes Hv HPn) as Hs.
  destruct (plain_put_ok (mt_metadata mt) _ _ (Primary key) (latest_of (leaves ++ [mt_leaf mt value])) Hs)
    as (t1 & H1 & Hs1); [apply Hmt|].
  destruct (plain_put_ok (mt_metadata mt) _ _ Latest (latest_of (leaves ++ [mt_leaf mt value])) Hs1)
    as (t2 & H2 & Hs2); [apply Hmt|].
  exists t2, nodes. unfold latest_of in H1, H2 at 1. rewrite length_app, Nat.add_1_r in H1, H2.
  rewrite H1. cbn [and_then]. rewrite H2. split_and!; [done|exact Hs2|].
  eapply tree_ext; [|exact Hh]. intros k. unfold set_nodes. rewrite decide_True by done.
  by rewrite (tx_ok_get t v).
Qed.

Lemma set_ne k c x v k' c' : ¬ (k' = k ∧ c' = c) → View.set k c x v k' c' = v k' c'.
Proof. intros Hne. unfold View.set. by rewrite decide_False. Qed.
Lemma set_eq k c x v : View.set k c x v k c = Ok x.
Proof. unfold View.set. by rewrite decide_True. Qed.
Lemma set_nodes_ne c nodes v k c' : c' ≠ c → set_nodes c nodes v k c' = v k c'.
Proof. intros Hne. unfold set_nodes. by rewrite decide_False. Qed.

(** Outside of the columns of the table nothing changes. *)
Lemma entry_set_other {K V} (mt : MerklizedTable K V) key value nodes leaves v k c :
  c ≠ t_column (mt_table mt) → c ≠ t_column (mt_metadata mt) → c ≠ mt_nodes mt →
  entry_set mt key value nodes leaves v k c = v k c.
Proof.
  intros Hc1 Hc2 Hc3. unfold entry_set, metadata_set.
  rewrite !set_ne by naive_solver. rewrite set_nodes_ne by done. apply set_ne. naive_solver.
Qed.

Lemma entry_set_table {K V} (mt : MerklizedTable K V) key value nodes leaves v k :
  merklized_ok mt →
  entry_set mt key value nodes leaves v k (t_column (mt_table mt)) =
  if decide (k = t_encode (mt_table mt) key) then Ok (Some (t_ser (mt_table mt) value))
  else v k (t_column (mt_table mt)).
Proof.
  intros [Hc1 Hc2 Hc3 _ _ _]. unfold entry_set, metadata_set. rewrite !set_ne by naive_solver.
  rewrite set_nodes_ne by done. unfold View.set. apply decide_ext. naive_solver.
Qed.

Lemma entry_set_metadata {K V} (mt : MerklizedTable K V) key value nodes leaves v k :
  merklized_ok mt →
  entry_set mt key value nodes leaves v k (t_column (mt_metadata mt)) =
  if decide (k = t_encode (mt_metadata mt) Latest ∨ k = t_encode (mt_metadata mt) (Primary key))
  then Ok (Some (t_ser (mt_metadata mt) (latest_of leaves)))
  else v k (t_column (mt_metadata mt)).
Proof.
  intros [Hc1 Hc2 Hc3 _ _ _]. unfold entry_set, metadata_set.
  destruct (decide (k = t_encode (mt_metadata mt) Latest)) as [->|H1].
  { by rewrite set_eq, decide_True by auto. }
  rewrite set_ne by naive_solver.
  destruct (decide (k = t_encode (mt_metadata mt) (Primary key))) as [->|H2].
  { by rewrite set_eq, decide_True by auto. }
  rewrite set_ne, set_nodes_ne, set_ne by naive_solver. by rewrite decide_False by naive_solver.
Qed.

(** A new entry of a merklized table extends the tree by its leaf. *)
Lemma merklized_replace_ok {K V} (mt : MerklizedTable K V) t v leaves key value :
  merklized_ok mt → P (t_column (mt_table mt)) (t_encode (mt_table mt) key) →
  tx_ok v t → tree_shown mt v leaves →
  v (t_encode (mt_table mt) key) (t_column (mt_table mt)) = Ok None →
  let leaves' := leaves ++ [mt_leaf mt value] in
  ∃ t' nodes, merklized_replace mt t key value = (t', Ok None) ∧
    tx_ok (entry_set mt key value nodes leaves' v) t' ∧
    tree_shown mt (entry_set mt key value nodes leaves' v) leaves'.
Proof.
  intros Hmt HP Hv [Hh Hl] Hnone. unfold merklized_replace. pose proof Hmt as [Hc1 Hc2 Hc3 _ _ _].
  destruct (plain_replace_ok (mt_table mt) t v key value None Hv HP Hnone) as (t1 & -> & Hs1).
  cbn [and_then decode_value]. set (v1 := View.set _ _ _ v) in Hs1.
  assert (tree_shown mt v1 leaves) as Hsh1.
  { split; [|unfold v1; by rewrite set_ne by naive_solver].
    eapply tree_ext; [|exact Hh]. intros k. unfold v1. by rewrite set_ne by naive_solver. }
  destruct (insert_into_tree_ok mt t1 v1 leaves key value Hmt Hs1 Hsh1) as (t2 & nodes & -> & Hs2 & Hh2).
  cbn [and_then]. exists t2, nodes. split_and!; [done|exact Hs2|]. split.
  - eapply tree_ext; [|exact Hh2]. intros k. unfold entry_set, metadata_set. fold v1.
    by rewrite !set_ne by naive_solver.
  - rewrite entry_set_metadata, decide_True by auto. f_equal. by destruct leaves.
Qed.
End facts.
