(* ===== verification/BlockStore.v ===== *)
(** * The tables of blocks

    Model of the on-chain tables of blocks (storage/src/structured_storage/blocks.rs,
    transactions.rs, sealed_block.rs, merkle_data.rs) and of the ports through which the
    importer, the verifier and the producer use them (importer/src/ports.rs,
    fuel-core/src/service/adapters/{block_importer,consensus_module,producer}.rs).  The
    encodings of the values are a class with the law that decoding inverts encoding; the
    cached identifier of a header is not encoded. *)

From stdpp Require Import prelude gmap list strings sorting.
From Stdlib Require Import ZArith Lia.
From S2P Require Import Prelude.
From S2P Require Import StorageTx.
From S2P Require Import HistoricalDb.
From S2P Require Import Database.
From S2P Require Import Tables.
From S2P Require Import Blocks.
Local Open Scope Z_scope.
Local Open Scope storage_scope.

(** Ids of the columns (storage/src/column.rs). *)
Definition TRANSACTIONS_COLUMN : Z := 6.
Definition FUEL_BLOCK_MERKLE_DATA_COLUMN : Z := 8.
Definition FUEL_BLOCK_MERKLE_METADATA_COLUMN : Z := 9.
Definition FUEL_BLOCK_CONSENSUS_COLUMN : Z := 16.

(** A header as it is read back. *)
Definition uncached (h : BlockHeader) : BlockHeader :=
  {| application := application h; consensus := consensus h; metadata := None |}.

Class BlockCodecs (Tx Signature : Type) := {
  ser_block : Block TxId → Value;
  de_block : Value → option (Block TxId);
  ser_merkle_metadata : DenseMerkleMetadata → Value;
  de_merkle_metadata : Value → option DenseMerkleMetadata;
  ser_metadata_key : DenseMetadataKey Z → Key;
  ser_consensus : Consensus Signature → Value;
  de_consensus : Value → option (Consensus Signature);
  ser_tx : Tx → Value;
  de_tx : Value → option Tx;
}.

(** The encoding of a metadata key tells where it ends and is at most 6 bytes long: the
    variant and a height. *)
Class BlockCodecsLaws (Tx Signature : Type) `{!BlockCodecs Tx Signature} : Prop := {
  de_ser_block b : de_block (ser_block b) =
    Some {| header := uncached (header b); transactions := transactions b |};
  de_ser_merkle_metadata m : de_merkle_metadata (ser_merkle_metadata m) = Some m;
  de_ser_consensus c : de_consensus (ser_consensus c) = Some c;
  de_ser_tx tx : de_tx (ser_tx tx) = Some tx;
  metadata_key_inj k k' : ser_metadata_key k = ser_metadata_key k' → k = k';
  metadata_key_prefix k k' : incomparable (ser_metadata_key k) (ser_metadata_key k');
  metadata_key_length k : (length (ser_metadata_key k) ≤ 6)%nat;
}.

Section store.
Context {Tx Signature : Type} `{!ChainCrypto Tx Signature} `{!BlockCodecs Tx Signature}.
Context `{!HashOrder Z} `{!HashOrder Key} `{!MerkleTree}.

(** ** Tables *)

Definition FuelBlockMerkleMetadata : Table (DenseMetadataKey Z) DenseMerkleMetadata := {|
  t_column := FUEL_BLOCK_MERKLE_METADATA_COLUMN;
  t_encode := ser_metadata_key;
  t_ser := ser_merkle_metadata;
  t_de := de_merkle_metadata;
|}.

Definition FuelBlocks : MerklizedTable Z (Block TxId) := {|
  mt_table := {|
    t_column := FUEL_BLOCKS_COLUMN;
    t_encode := to_be_bytes 4;
    t_ser := ser_block;
    t_de := de_block;
  |};
  mt_metadata := FuelBlockMerkleMetadata;
  mt_nodes := FUEL_BLOCK_MERKLE_DATA_COLUMN;
  mt_leaf := block_id;
|}.

Definition SealedBlockConsensus : Table Z (Consensus Signature) := {|
  t_column := FUEL_BLOCK_CONSENSUS_COLUMN;
  t_encode := to_be_bytes 4;
  t_ser := ser_consensus;
  t_de := de_consensus;
|}.

Definition Transactions : Table TxId Tx := {|
  t_column := TRANSACTIONS_COLUMN;
  t_encode := λ id, id;
  t_ser := ser_tx;
  t_de := de_tx;
|}.

(** ** Reads *)

Section reads.
Context {S : Type} `{!KeyValueInspect S}.

Definition get_block (s : S) (h : Z) : result (Block TxId) StorageError :=
  result_bind (table_get (mt_table FuelBlocks) s h) (λ o,
    match o with Some b => Ok b | None => Err "NotFound" end).

(** [fuel_core_poa::ports::Database]. *)
Definition block_header (s : S) (h : Z) : result BlockHeader StorageError :=
  result_bind (get_block s h) (λ b, Ok (header b)).

Definition block_header_merkle_root (s : S) (h : Z) : result Bytes32 StorageError :=
  merklized_root FuelBlocks s h.

Definition latest_block_root (s : S) : result (option Bytes32) StorageError :=
  result_bind (table_get FuelBlockMerkleMetadata s Latest) (λ o, Ok (merkle_root <$> o)).

Definition get_transactions (s : S) (ids : list TxId) : result (list Tx) StorageError :=
  try_fold (λ txs id, result_bind (table_get Transactions s id) (λ o,
    match o with Some tx => Ok (txs ++ [tx]) | None => Err "NotFound" end)) [] ids.

Definition get_full_block (s : S) (h : Z) : result (Block Tx) StorageError :=
  result_bind (get_block s h) (λ b,
    result_bind (get_transactions s (transactions b)) (λ txs, Ok (uncompress b txs))).
End reads.

(** [iter_all_keys::<FuelBlocks>(Reverse).next()]: the last key of the column. *)
Definition latest_block_key (db : Db) : option Key :=
  head (reverse (merge_sort key_le (elements (dom (default ∅ (db !! FUEL_BLOCKS_COLUMN)))))).

Definition latest_block_height (db : Db) : result (option Z) StorageError :=
  match latest_block_key db with
  | None => Ok None
  | Some key => result_bind (decode_height key) (λ h, Ok (Some h))
  end.

(** [iter_all::<FuelBlocks>(Reverse).next()]: the header of the last entry. *)
Definition latest_block_header (db : Db) : result (option BlockHeader) StorageError :=
  match latest_block_key db with
  | None => Ok None
  | Some key =>
      result_bind (decode_height key) (λ _,
        result_bind (decode_value (mt_table FuelBlocks) (default ∅ (db !! FUEL_BLOCKS_COLUMN) !! key)) (λ b,
          Ok (header <$> b)))
  end.

(** ** Writes *)

(** [storage_transaction] of the importer. *)
Definition storage_transaction (db : Db) (ch : Changes) : InMemoryTransaction Db :=
  with_policy PolicyFail (with_changes ch (into_transaction db)).

Fixpoint store_transactions {S} `{!KeyValueInspect S} (chain_id : Z) (txs : list Tx) (found : bool)
    (t : InMemoryTransaction S) : InMemoryTransaction S * result bool StorageError :=
  match txs with
  | [] => (t, Ok found)
  | tx :: txs =>
      let! (t, prev) := plain_replace Transactions t (tx_id chain_id tx) tx in
      store_transactions chain_id txs (found || bool_decide (is_Some prev)) t
  end.

(** [store_new_block]: [false] if something was there already.  The writes go into a
    transaction of its own, which is dropped on an error. *)
Definition store_new_block (chain_id : Z) (block : SealedBlock Tx Signature) (t : InMemoryTransaction Db) :
    InMemoryTransaction Db * result bool StorageError :=
  let height := Blocks.height (consensus (header (entity block))) in
  match
    (let! (s, prev) := merklized_replace FuelBlocks (into_transaction t) height
                         (compress chain_id (entity block)) in
     let! (s, prev') := plain_replace SealedBlockConsensus s height (seal block) in
     store_transactions chain_id (transactions (entity block))
       (bool_decide (is_Some prev) || bool_decide (is_Some prev')) s)
  with
  | (_, Err e) => (t, Err e)
  | (s, Ok found) =>
      match commit s with
      | (t, Ok _) => (t, Ok (negb found))
      | (t, Err e) => (t, Err e)
      end
  end.
End store.
