(* ===== verification/ChainFacts.v ===== *)
(** * The chain in the database

    When the tables of blocks hold a chain, the reads of the importer, the verifier and
    the producer are those of the chain, and a new block that is stored extends it. *)

From stdpp Require Import prelude gmap list strings sorting.
From Stdlib Require Import ZArith Lia.
From S2P Require Import Prelude.
From S2P Require Import StorageTx.
From S2P Require Import HistoricalDb.
From S2P Require Import HistoricalDbFacts.
From S2P Require Import Database.
From S2P Require Import Tables.
From S2P Require Import Blocks.
From S2P Require Import BlockStore.
Local Open Scope Z_scope.
Local Open Scope storage_scope.
#[local] Arguments to_be_bytes : simpl never.

(** Identifiers of transactions are of 32 bytes. *)
Class ChainCryptoLaws (Tx Signature : Type) `{!ChainCrypto Tx Signature} : Prop := {
  tx_id_length chain_id tx : length (tx_id chain_id tx) = 32%nat;
}.

Section chain.
Context {Tx Signature : Type} `{!ChainCrypto Tx Signature} `{!ChainCryptoLaws Tx Signature}.
Context `{!BlockCodecs Tx Signature} `{!BlockCodecsLaws Tx Signature}.
Context `{!HashOrder Z} `{!HashOrder Key} `{!MerkleTree} `{!MerkleTreeLaws}.
Implicit Types (s : Snapshot) (b : SealedBlock Tx Signature) (bs : list (SealedBlock Tx Signature)).

(** ** Keys *)

(** The keys a new block of the height [h] writes. *)
Inductive block_keys (h : Z) : Z → Key → Prop :=
| bk_transaction (k : Key) : length k = 32%nat → block_keys h TRANSACTIONS_COLUMN k
| bk_block : block_keys h FUEL_BLOCKS_COLUMN (to_be_bytes 4 h)
| bk_node (k : Key) : length k = 8%nat → block_keys h FUEL_BLOCK_MERKLE_DATA_COLUMN k
| bk_metadata mk : block_keys h FUEL_BLOCK_MERKLE_METADATA_COLUMN (ser_metadata_key mk)
| bk_consensus : block_keys h FUEL_BLOCK_CONSENSUS_COLUMN (to_be_bytes 4 h).

Lemma fuel_blocks_ok h : merklized_ok (block_keys h) FuelBlocks.
Proof.
  split; try done; simpl.
  - apply de_ser_merkle_metadata.
  - constructor.
  - by constructor.
Qed.

(** ** The chain *)

Definition block_height b : Z := height (consensus (header (entity b))).
Definition sealed_id b : BlockId := block_id (entity b).

(** The number of bytes of a height is 4. *)
Lemma height_key_inj4 x y : 0 ≤ x ≤ U32 → 0 ≤ y ≤ U32 → to_be_bytes 4 x = to_be_bytes 4 y → x = y.
Proof. intros Hx Hy. apply to_be_bytes_inj; simpl; int_lia. Qed.

Lemma from_to_be_bytes n x : 0 ≤ x < 256 ^ Z.of_nat n → from_be_bytes (to_be_bytes n x) = x.
Proof.
  unfold from_be_bytes. revert x. induction n as [|n IH]; intros x Hx; [simpl in *; lia|].
  change (to_be_bytes (S n) x) with (to_be_bytes n (x / 256) ++ [x mod 256]). rewrite foldl_app, IH.
  - cbn [foldl]. pose proof (Z.div_mod x 256 ltac:(done)). lia.
  - rewrite Nat2Z.inj_succ, Z.pow_succ_r in Hx by lia.
    split; [apply Z.div_pos; lia|apply Z.div_lt_upper_bound; lia].
Qed.

Context (chain_id : Z).

(** The state [s] holds the chain [bs] that starts at the height [g]. *)
Record chain_held s (g : Z) bs : Prop := {
  cd_tree : tree_shown FuelBlocks (λ k c, Ok (s k c)) (sealed_id <$> bs);
  cd_block i b : bs !! i = Some b →
    block_height b = g + Z.of_nat i ∧
    s (to_be_bytes 4 (g + Z.of_nat i)) FUEL_BLOCKS_COLUMN = Some (ser_block (compress chain_id (entity b)));
  cd_only k : is_Some (s k FUEL_BLOCKS_COLUMN) →
    ∃ i, (i < length bs)%nat ∧ k = to_be_bytes 4 (g + Z.of_nat i);
  cd_root i : (i < length bs)%nat →
    s (ser_metadata_key (Primary (g + Z.of_nat i))) FUEL_BLOCK_MERKLE_METADATA_COLUMN =
      Some (ser_merkle_metadata (latest_of (sealed_id <$> take (S i) bs)));
  cd_consensus i b : bs !! i = Some b →
    s (to_be_bytes 4 (g + Z.of_nat i)) FUEL_BLOCK_CONSENSUS_COLUMN = Some (ser_consensus (seal b));
  cd_consensus_only k : is_Some (s k FUEL_BLOCK_CONSENSUS_COLUMN) →
    ∃ i, (i < length bs)%nat ∧ k = to_be_bytes 4 (g + Z.of_nat i);
  cd_transactions b tx : b ∈ bs → tx ∈ transactions (entity b) →
    s (tx_id chain_id tx) TRANSACTIONS_COLUMN = Some (ser_tx tx);
  cd_transactions_only k : is_Some (s k TRANSACTIONS_COLUMN) →
    ∃ b tx, b ∈ bs ∧ tx ∈ transactions (entity b) ∧ k = tx_id chain_id tx;
  cd_genesis : 0 ≤ g;
  cd_max : g + Z.of_nat (length bs) ≤ U32 + 1;
  cd_nonempty : bs ≠ [];
}.

Definition latest (g : Z) bs : Z := g + Z.of_nat (length bs) - 1.

(** What a chain answers. *)
Definition chain_at (g : Z) bs (h : Z) : option (SealedBlock Tx Signature) :=
  if decide (g ≤ h) then bs !! Z.to_nat (h - g) else None.

Definition root_at (g : Z) bs (h : Z) : Bytes32 := tree_root (sealed_id <$> take (Z.to_nat (h - g + 1)) bs).

Section reads.
Context (db : Db) (s : Snapshot) (g : Z) (bs : list (SealedBlock Tx Signature)).
Context (Hdb : ∀ k c, is_original c → db_get db k c = s k c) (Hs : chain_held s g bs).

Lemma chain_at_inv h b :
  chain_at g bs h = Some b → g ≤ h ≤ latest g bs ∧ bs !! Z.to_nat (h - g) = Some b ∧ block_height b = h.
Proof.
  unfold chain_at. case_decide; [|done]. intros Hb. pose proof (lookup_lt_Some _ _ _ Hb).
  destruct (cd_block _ _ _ Hs _ _ Hb) as [-> _]. unfold latest. split_and!; [lia..|done|lia].
Qed.

Lemma chain_at_is_Some h : g ≤ h ≤ latest g bs → is_Some (chain_at g bs h).
Proof.
  intros Hh. unfold chain_at. rewrite decide_True by lia. apply lookup_lt_is_Some. unfold latest in Hh. lia.
Qed.

Lemma block_column_original : is_original FUEL_BLOCKS_COLUMN.
Proof. unfold FUEL_BLOCKS_COLUMN. column_lia. Qed.
Lemma metadata_column_original : is_original FUEL_BLOCK_MERKLE_METADATA_COLUMN.
Proof. unfold FUEL_BLOCK_MERKLE_METADATA_COLUMN. column_lia. Qed.
Lemma transactions_column_original : is_original TRANSACTIONS_COLUMN.
Proof. unfold TRANSACTIONS_COLUMN. column_lia. Qed.

Lemma get_block_ok h :
  0 ≤ h ≤ U32 →
  get_block db h = match chain_at g bs h with
                   | Some b => Ok {| header := uncached (header (entity b));
                                     transactions := tx_id chain_id <$> transactions (entity b) |}
                   | None => Err "NotFound"
                   end.
Proof.
  intros Hh. unfold get_block, table_get. simpl. rewrite Hdb by apply block_column_original.
  destruct (chain_at g bs h) as [b|] eqn:Hb.
  - apply chain_at_inv in Hb as (Hr & Hb & _). destruct (cd_block _ _ _ Hs _ _ Hb) as [_ Hk].
    replace (g + Z.of_nat (Z.to_nat (h - g))) with h in Hk by lia. rewrite Hk. simpl. by rewrite de_ser_block.
  - destruct (s (to_be_bytes 4 h) FUEL_BLOCKS_COLUMN) eqn:Hk; [|done].
    destruct (cd_only _ _ _ Hs (to_be_bytes 4 h)) as (i & Hi & He); [by eauto|].
    pose proof (cd_genesis _ _ _ Hs). pose proof (cd_max _ _ _ Hs).
    apply height_key_inj4 in He as ->; [|done|lia]. unfold chain_at in Hb. rewrite decide_True in Hb by lia.
    replace (Z.to_nat _) with i in Hb by lia. apply lookup_ge_None in Hb. lia.
Qed.

Lemma block_header_ok h :
  0 ≤ h ≤ U32 →
  block_header db h = match chain_at g bs h with
                      | Some b => Ok (uncached (header (entity b)))
                      | None => Err "NotFound"
                      end.
Proof. intros Hh. unfold block_header. rewrite get_block_ok by done. by destruct (chain_at g bs h). Qed.

Lemma block_root_ok h : g ≤ h ≤ latest g bs → block_header_merkle_root db h = Ok (root_at g bs h).
Proof.
  intros Hh. unfold block_header_merkle_root, merklized_root, table_get. simpl.
  rewrite Hdb by apply metadata_column_original. unfold latest in Hh.
  pose proof (cd_root _ _ _ Hs (Z.to_nat (h - g))) as Hr.
  replace (g + Z.of_nat (Z.to_nat (h - g))) with h in Hr by lia. rewrite Hr by lia. simpl.
  rewrite de_ser_merkle_metadata. simpl. unfold root_at. by replace (Z.to_nat (h - g + 1)) with (S (Z.to_nat (h - g))) by lia.
Qed.

Lemma latest_root_ok : latest_block_root db = Ok (Some (root_at g bs (latest g bs))).
Proof.
  unfold latest_block_root, table_get. simpl. rewrite Hdb by apply metadata_column_original.
  destruct (cd_tree _ _ _ Hs) as [_ Hl]. simpl in Hl. injection Hl as ->.
  pose proof (cd_nonempty _ _ _ Hs). destruct bs as [|b bs'] eqn:Hbs; [done|]. rewrite <- Hbs in *. simpl.
  destruct (sealed_id <$> bs) as [|] eqn:He; [by rewrite Hbs in He|]. rewrite <- He. simpl.
  rewrite de_ser_merkle_metadata. simpl. unfold root_at, latest. rewrite take_ge by lia. done.
Qed.

Lemma latest_key_ok : latest_block_key db = Some (to_be_bytes 4 (latest g bs)).
Proof.
  unfold latest_block_key. set (m := default ∅ (db !! FUEL_BLOCKS_COLUMN)).
  set (l := merge_sort key_le (elements (dom m))).
  assert (∀ k, k ∈ l ↔ ∃ i, (i < length bs)%nat ∧ k = to_be_bytes 4 (g + Z.of_nat i)) as Hin.
  { intros k. unfold l, m. rewrite merge_sort_Permutation, elem_of_elements, elem_of_dom, db_get_column,
      Hdb by apply block_column_original. split; [apply (cd_only _ _ _ Hs)|].
    intros (i & Hi & ->). destruct (lookup_lt_is_Some_2 bs i Hi) as [b Hb].
    destruct (cd_block _ _ _ Hs i b Hb) as [_ ->]. by eauto. }
  assert (Sorted key_le l) as Hsort by (apply Sorted_merge_sort; intros ??; apply key_le_total).
  apply Sorted_StronglySorted in Hsort; [|intros ???; apply key_le_trans].
  pose proof (cd_nonempty _ _ _ Hs) as Hne. pose proof (cd_genesis _ _ _ Hs). pose proof (cd_max _ _ _ Hs).
  assert (0 < length bs)%nat by (destruct bs; [done|simpl; lia]).
  assert (to_be_bytes 4 (latest g bs) ∈ l) as Hlast.
  { apply Hin. exists (length bs - 1)%nat. unfold latest. split; [lia|]. f_equal. lia. }
  clearbody l m. destruct l as [|x l' _] using rev_ind; [set_solver|].
  rewrite reverse_app. simpl. assert (x ∈ l' ++ [x]) as (i & Hi & ->)%Hin by set_solver.
  assert (to_be_bytes 4 (g + Z.of_nat i) = to_be_bytes 4 (latest g bs)) as ->.
  { apply elem_of_app in Hlast as [Hlast|Hlast]; [|set_solver]. unfold latest in *.
    apply StronglySorted_app_1_elem_of with (x1 := to_be_bytes 4 (g + Z.of_nat (length bs) - 1))
      (x2 := to_be_bytes 4 (g + Z.of_nat i)) in Hsort; [|done|set_solver].
    apply to_be_bytes_le in Hsort; [|simpl; int_lia..]. f_equal. lia. }
  done.
Qed.

Lemma latest_range : g ≤ latest g bs ≤ U32.
Proof.
  pose proof (cd_nonempty _ _ _ Hs). pose proof (cd_max _ _ _ Hs). unfold latest. destruct bs; [done|simpl in *; lia].
Qed.

Lemma latest_decodes : decode_height (to_be_bytes 4 (latest g bs)) = Ok (latest g bs).
Proof.
  unfold decode_height. rewrite to_be_bytes_length, decide_True by done. f_equal.
  pose proof latest_range. pose proof (cd_genesis _ _ _ Hs). apply from_to_be_bytes. simpl. int_lia.
Qed.

Lemma latest_height_ok : latest_block_height db = Ok (Some (latest g bs)).
Proof. unfold latest_block_height. rewrite latest_key_ok. by rewrite latest_decodes. Qed.

Lemma chain_at_block b : b ∈ bs → chain_at g bs (block_height b) = Some b.
Proof.
  intros [i Hi]%list_elem_of_lookup. destruct (cd_block _ _ _ Hs i b Hi) as [Hh _]. unfold chain_at.
  rewrite Hh, decide_True by lia. by replace (Z.to_nat _) with i by lia.
Qed.

Lemma latest_header_ok b :
  chain_at g bs (latest g bs) = Some b → latest_block_header db = Ok (Some (uncached (header (entity b)))).
Proof.
  intros Hb. unfold latest_block_header. rewrite latest_key_ok, latest_decodes. cbn [result_bind].
  pose proof latest_range. pose proof (cd_genesis _ _ _ Hs).
  pose proof (get_block_ok (latest g bs) ltac:(lia)) as Hg. rewrite Hb in Hg. unfold get_block, table_get in Hg.
  simpl in Hg. unfold db_get in Hg. destruct (db !! FUEL_BLOCKS_COLUMN) as [m|]; [|done]. simpl in Hg |- *.
  destruct (m !! _); [|done]. simpl in *. destruct (de_block _); [|done]. simpl in *. by injection Hg as ->.
Qed.

Lemma get_transactions_ok b :
  b ∈ bs → get_transactions db (tx_id chain_id <$> transactions (entity b)) = Ok (transactions (entity b)).
Proof.
  intros Hb. pose proof (λ tx, cd_transactions _ _ _ Hs b tx Hb) as Htx.
  assert (∀ txs acc, (∀ tx, tx ∈ txs → s (tx_id chain_id tx) TRANSACTIONS_COLUMN = Some (ser_tx tx)) →
    try_fold (λ txs id, result_bind (table_get Transactions db id) (λ o,
      match o with Some tx => Ok (txs ++ [tx]) | None => Err "NotFound" end)) acc (tx_id chain_id <$> txs) =
    Ok (acc ++ txs)) as Hall; [|exact (Hall _ [] Htx)].
  clear b Hb Htx. induction txs as [|tx txs IH]; intros acc Htx; simpl; [by rewrite app_nil_r|].
  unfold table_get at 1. simpl. rewrite Hdb, (Htx tx) by (set_solver || apply transactions_column_original).
  simpl. rewrite de_ser_tx. simpl. rewrite IH by set_solver. by rewrite <- app_assoc.
Qed.

(** A block of the chain is read back as it was, but for the cached identifier. *)
Lemma get_full_block_ok h b :
  0 ≤ h ≤ U32 → chain_at g bs h = Some b →
  get_full_block db h =
  Ok {| header := uncached (header (entity b)); transactions := transactions (entity b) |}.
Proof.
  intros Hh Hb. unfold get_full_block. rewrite get_block_ok, Hb by done. cbn [result_bind transactions].
  apply chain_at_inv in Hb as (_ & Hb & _). rewrite get_transactions_ok by by eapply list_elem_of_lookup_2. done.
Qed.
End reads.

(** ** A new block *)

Lemma store_transactions_ok {S} `{!KeyValueInspect S} h (below : S) txs found v t t' :
  tx_ok (block_keys h) below v t → (∀ k, is_ok (v k TRANSACTIONS_COLUMN) = true) →
  store_transactions chain_id txs found t = (t', Ok false) →
  found = false ∧ ∃ v', tx_ok (block_keys h) below v' t' ∧
    (∀ k c, c ≠ TRANSACTIONS_COLUMN → v' k c = v k c) ∧
    (∀ tx, tx ∈ txs → v' (tx_id chain_id tx) TRANSACTIONS_COLUMN = Ok (Some (ser_tx tx))) ∧
    (∀ k x, v k TRANSACTIONS_COLUMN = Ok (Some x) → v' k TRANSACTIONS_COLUMN = Ok (Some x)) ∧
    (∀ k x, v' k TRANSACTIONS_COLUMN = Ok (Some x) →
      v k TRANSACTIONS_COLUMN = Ok (Some x) ∨ ∃ tx, tx ∈ txs ∧ k = tx_id chain_id tx).
Proof.
  revert found v t. induction txs as [|tx txs IH]; intros found v t Hv Hok Hst; cbn [store_transactions] in Hst.
  { injection Hst as <- ->. split; [done|]. exists v. split_and!; try done; [|by auto]. intros tx []%elem_of_nil. }
  destruct (v (tx_id chain_id tx) TRANSACTIONS_COLUMN) as [o|e] eqn:Ho.
  2: { specialize (Hok (tx_id chain_id tx)). by rewrite Ho in Hok. }
  destruct (plain_replace_ok (block_keys h) below Transactions t v (tx_id chain_id tx) tx o Hv) as (t1 & Hr & Hv1);
    [constructor; apply tx_id_length|done|].
  assert (∀ k, is_ok (View.set (t_encode Transactions (tx_id chain_id tx)) (t_column Transactions)
    (Some (t_ser Transactions tx)) v k TRANSACTIONS_COLUMN) = true) as Hok1.
  { intros k. unfold View.set. by case_decide. }
  rewrite Hr in Hst. destruct o as [bytes|]; simpl in Hst.
  { destruct (de_tx bytes) as [tx'|]; [|done]. simpl in Hst. destruct (IH _ _ _ Hv1 Hok1 Hst) as [Hf _].
    by rewrite orb_true_r in Hf. }
  destruct (IH _ _ _ Hv1 Hok1 Hst) as (Hf & v' & Hv' & Hother & Hnew & Hold & Honly).
  rewrite orb_false_r in Hf. split; [done|]. exists v'. split_and!; [done| | | |].
  - intros k c Hc. rewrite Hother by done. apply set_ne. naive_solver.
  - intros tx' [->|Hin]%elem_of_cons; [|by apply Hnew]. apply Hold, (set_eq (tx_id chain_id tx) TRANSACTIONS_COLUMN).
  - intros k x Hx. apply Hold. rewrite set_ne; [done|]. intros [-> _]. simpl in *. congruence.
  - intros k x [Hx|(tx' & Hin & ->)]%Honly; [|right; exists tx'; split; [by right|done]].
    unfold View.set in Hx. case_decide as Hk; [|by left]. right. exists tx. split; [by left|]. by destruct Hk.
Qed.

Lemma store_transactions_inv {S} `{!KeyValueInspect S} h (below : S) txs found v t t' :
  tx_ok (block_keys h) below v t → (∀ k, is_ok (v k TRANSACTIONS_COLUMN) = true) →
  store_transactions chain_id txs found t = (t', Ok false) →
  found = false ∧ NoDup (tx_id chain_id <$> txs) ∧
  ∀ tx, tx ∈ txs → v (tx_id chain_id tx) TRANSACTIONS_COLUMN = Ok None.
Proof.
  revert found v t. induction txs as [|tx txs IH]; intros found v t Hv Hok Hst; cbn [store_transactions] in Hst.
  { injection Hst as <- ->. split_and!; [done|constructor|]. by intros tx ?%elem_of_nil. }
  destruct (v (tx_id chain_id tx) TRANSACTIONS_COLUMN) as [o|e] eqn:Ho.
  2: { specialize (Hok (tx_id chain_id tx)). by rewrite Ho in Hok. }
  destruct (plain_replace_ok (block_keys h) below Transactions t v (tx_id chain_id tx) tx o Hv) as (t1 & Hr & Hv1);
    [constructor; apply tx_id_length|done|].
  rewrite Hr in Hst. simpl in Hst. destruct (decode_value Transactions o) as [prev|] eqn:Hd; [|done].
  cbn [and_then] in Hst. apply (IH _ _ _ Hv1) in Hst as (Hf & Hnd & Hn).
  2: { intros k. unfold View.set. by case_decide. }
  apply orb_false_iff in Hf as [-> Hprev]. apply bool_decide_eq_false in Hprev.
  assert (o = None) as ->.
  { destruct o as [bytes|]; [|done]. simpl in Hd. destruct (de_tx bytes); [|done]. injection Hd as <-. by destruct Hprev. }
  assert (∀ tx', tx' ∈ txs → tx_id chain_id tx' ≠ tx_id chain_id tx) as Hdiff.
  { intros tx' Hin He. specialize (Hn tx' Hin). rewrite He in Hn.
    pose proof (set_eq (tx_id chain_id tx) TRANSACTIONS_COLUMN (Some (ser_tx tx)) v) as Hset.
    unfold Transactions in Hn. simpl in Hn. congruence. }
  split_and!; [done| |].
  - simpl. apply NoDup_cons. split; [|done]. intros (tx' & He & Hin)%list_elem_of_fmap. by destruct (Hdiff tx' Hin).
  - intros tx' [->|Hin]%elem_of_cons; [done|]. rewrite <- (Hn tx' Hin). symmetry. apply set_ne.
    intros [He _]. by destruct (Hdiff tx' Hin).
Qed.

Lemma store_transactions_fresh {S} `{!KeyValueInspect S} h (below : S) txs v t :
  tx_ok (block_keys h) below v t → NoDup (tx_id chain_id <$> txs) →
  (∀ tx, tx ∈ txs → v (tx_id chain_id tx) TRANSACTIONS_COLUMN = Ok None) →
  ∃ t', store_transactions chain_id txs false t = (t', Ok false).
Proof.
  revert v t. induction txs as [|tx txs IH]; intros v t Hv Hnd Hn; cbn [store_transactions]; [by eauto|].
  destruct (plain_replace_ok (block_keys h) below Transactions t v (tx_id chain_id tx) tx None Hv) as (t1 & Hr & Hv1);
    [constructor; apply tx_id_length|by apply Hn; left|].
  rewrite Hr. cbn [and_then decode_value bool_decide orb]. simpl in Hnd. apply NoDup_cons in Hnd as [Hni Hnd].
  apply (IH _ _ Hv1 Hnd). intros tx' Hin. rewrite set_ne; [by apply Hn; right|]. intros [He _]. apply Hni.
  simpl in He. rewrite <- He. by apply list_elem_of_fmap_2.
Qed.

Lemma into_transaction_ok {S} `{!KeyValueInspect S} (x : S) P : tx_ok P x (kv_get x) (into_transaction x).
Proof.
  split; [|done|apply within_empty]. intros k c. rewrite tx_get_applied. unfold change_at. simpl.
  by rewrite lookup_empty.
Qed.

Lemma original_columns :
  is_original FUEL_BLOCK_MERKLE_DATA_COLUMN ∧ is_original FUEL_BLOCK_CONSENSUS_COLUMN.
Proof. unfold FUEL_BLOCK_MERKLE_DATA_COLUMN, FUEL_BLOCK_CONSENSUS_COLUMN. column_lia. Qed.

Section snoc.
Context (s s' : Snapshot) (g : Z) (bs : list (SealedBlock Tx Signature)) (b : SealedBlock Tx Signature).
Context (nodes : list (Key * Value)) (v' : View.t).

Definition view_of (s : Snapshot) : View.t := λ k c, Ok (s k c).

Definition with_block : View.t :=
  entry_set FuelBlocks (block_height b) (compress chain_id (entity b)) nodes
    ((sealed_id <$> bs) ++ [sealed_id b]) (view_of s).

(** [s'] is [s] with the entries of the block [b]. *)
Record block_added : Prop := {
  ba_other k c : c ≠ TRANSACTIONS_COLUMN →
    v' k c = View.set (to_be_bytes 4 (block_height b)) FUEL_BLOCK_CONSENSUS_COLUMN
               (Some (ser_consensus (seal b))) with_block k c;
  ba_new tx : tx ∈ transactions (entity b) →
    v' (tx_id chain_id tx) TRANSACTIONS_COLUMN = Ok (Some (ser_tx tx));
  ba_old k x : s k TRANSACTIONS_COLUMN = Some x → v' k TRANSACTIONS_COLUMN = Ok (Some x);
  ba_only k x : v' k TRANSACTIONS_COLUMN = Ok (Some x) →
    s k TRANSACTIONS_COLUMN = Some x ∨ ∃ tx, tx ∈ transactions (entity b) ∧ k = tx_id chain_id tx;
  ba_state k c : is_original c → Ok (s' k c) = v' k c;
}.

Context (Hadd : block_added).

Lemma added_block k :
  s' k FUEL_BLOCKS_COLUMN = if decide (k = to_be_bytes 4 (block_height b))
    then Some (ser_block (compress chain_id (entity b))) else s k FUEL_BLOCKS_COLUMN.
Proof.
  enough (Ok (s' k FUEL_BLOCKS_COLUMN) = Ok (if decide (k = to_be_bytes 4 (block_height b))
    then Some (ser_block (compress chain_id (entity b))) else s k FUEL_BLOCKS_COLUMN) :> result _ StorageError)
    as He by congruence.
  rewrite (ba_state Hadd), (ba_other Hadd), set_ne by (done || apply block_column_original || naive_solver).
  unfold with_block. rewrite (entry_set_table (block_keys (block_height b)) FuelBlocks) by apply fuel_blocks_ok. simpl.
  by case_decide.
Qed.

Lemma added_metadata k :
  s' k FUEL_BLOCK_MERKLE_METADATA_COLUMN =
    if decide (k = ser_metadata_key Latest ∨ k = ser_metadata_key (Primary (block_height b)))
    then Some (ser_merkle_metadata (latest_of ((sealed_id <$> bs) ++ [sealed_id b])))
    else s k FUEL_BLOCK_MERKLE_METADATA_COLUMN.
Proof.
  enough (Ok (s' k FUEL_BLOCK_MERKLE_METADATA_COLUMN) =
    Ok (if decide (k = ser_metadata_key Latest ∨ k = ser_metadata_key (Primary (block_height b)))
    then Some (ser_merkle_metadata (latest_of ((sealed_id <$> bs) ++ [sealed_id b])))
    else s k FUEL_BLOCK_MERKLE_METADATA_COLUMN) :> result _ StorageError) as He by congruence.
  rewrite (ba_state Hadd), (ba_other Hadd), set_ne by (done || apply metadata_column_original || naive_solver).
  unfold with_block. rewrite (entry_set_metadata (block_keys (block_height b)) FuelBlocks) by apply fuel_blocks_ok. simpl.
  by case_decide.
Qed.

Lemma added_consensus k :
  s' k FUEL_BLOCK_CONSENSUS_COLUMN = if decide (k = to_be_bytes 4 (block_height b))
    then Some (ser_consensus (seal b)) else s k FUEL_BLOCK_CONSENSUS_COLUMN.
Proof.
  enough (Ok (s' k FUEL_BLOCK_CONSENSUS_COLUMN) = Ok (if decide (k = to_be_bytes 4 (block_height b))
    then Some (ser_consensus (seal b)) else s k FUEL_BLOCK_CONSENSUS_COLUMN) :> result _ StorageError)
    as He by congruence.
  rewrite (ba_state Hadd), (ba_other Hadd) by (done || apply original_columns). unfold View.set.
  destruct (decide (k = _)) as [->|Hk]; [by rewrite decide_True|]. rewrite decide_False by naive_solver.
  unfold with_block. by rewrite entry_set_other.
Qed.

Context (Hs : chain_held s g bs) (Hb : block_height b = latest g bs + 1) (Hmax : block_height b ≤ U32).
Context (Htree : tree_shown FuelBlocks with_block ((sealed_id <$> bs) ++ [sealed_id b])).

Lemma added_tree : tree_shown FuelBlocks (view_of s') (sealed_id <$> (bs ++ [b])).
Proof.
  rewrite fmap_app. destruct Htree as [Hh Hl]. split.
  - eapply tree_ext; [|exact Hh]. intros k. unfold view_of.
    rewrite (ba_state Hadd), (ba_other Hadd), set_ne by (done || apply original_columns || naive_solver). done.
  - unfold view_of. simpl. rewrite added_metadata, decide_True by auto. by destruct (sealed_id <$> bs).
Qed.

Lemma snoc_index i : (i < length (bs ++ [b]))%nat → (i < length bs)%nat ∨ i = length bs.
Proof. rewrite length_app. simpl. lia. Qed.

Lemma height_of_index i : (i ≤ length bs)%nat → 0 ≤ g + Z.of_nat i ≤ U32 ∧
  (g + Z.of_nat i = block_height b ↔ i = length bs).
Proof. intros Hi. pose proof (cd_genesis _ _ _ Hs). unfold latest in Hb. lia. Qed.

Lemma old_key i : (i < length bs)%nat → to_be_bytes 4 (g + Z.of_nat i) ≠ to_be_bytes 4 (block_height b).
Proof.
  intros Hi He. destruct (height_of_index i) as [Hr Hiff]; [lia|]. destruct (height_of_index (length bs)) as [Hr' Hiff']; [lia|].
  apply height_key_inj4 in He; [|done|lia]. apply Hiff in He. lia.
Qed.

Lemma added_transaction k x : s' k TRANSACTIONS_COLUMN = Some x ↔ v' k TRANSACTIONS_COLUMN = Ok (Some x).
Proof. rewrite <- (ba_state Hadd) by apply transactions_column_original. split; congruence. Qed.

Lemma added_transactions b' tx :
  b' ∈ bs ++ [b] → tx ∈ transactions (entity b') → s' (tx_id chain_id tx) TRANSACTIONS_COLUMN = Some (ser_tx tx).
Proof.
  intros [Hin|Hin%list_elem_of_singleton]%elem_of_app Htx; apply added_transaction.
  - apply (ba_old Hadd). by apply (cd_transactions _ _ _ Hs b').
  - subst b'. by apply (ba_new Hadd).
Qed.

Lemma added_transactions_only k :
  is_Some (s' k TRANSACTIONS_COLUMN) → ∃ b' tx, b' ∈ bs ++ [b] ∧ tx ∈ transactions (entity b') ∧ k = tx_id chain_id tx.
Proof.
  intros [x [Hx|(tx & Hin & ->)]%added_transaction%(ba_only Hadd)].
  - destruct (cd_transactions_only _ _ _ Hs k) as (b' & tx & ? & ? & ?); [by eauto|].
    exists b', tx. rewrite elem_of_app. by auto.
  - exists b, tx. rewrite elem_of_app, list_elem_of_singleton. by auto.
Qed.

Lemma chain_held_snoc : chain_held s' g (bs ++ [b]).
Proof.
  assert (g + Z.of_nat (length bs) = block_height b) as Hlast by (unfold latest in Hb; lia).
  split.
  - exact added_tree.
  - intros i b' [Hi|[Hi He]]%lookup_app_Some.
    + destruct (cd_block _ _ _ Hs i b' Hi) as [Hh Hk]. split; [done|].
      rewrite added_block, decide_False; [done|]. apply old_key. by eapply lookup_lt_Some.
    + apply list_lookup_singleton_Some in He as [He <-]. assert (i = length bs) as -> by lia.
      rewrite Hlast, added_block, decide_True by done. done.
  - intros k. rewrite added_block, length_app. case_decide as Hk.
    + intros _. exists (length bs). split; [simpl; lia|]. by rewrite Hlast.
    + intros (i & Hi & ->)%(cd_only _ _ _ Hs). exists i. split; [simpl; lia|done].
  - intros i Hi. rewrite added_metadata. destruct (snoc_index i Hi) as [Hi'| ->].
    + rewrite decide_False.
      * rewrite (cd_root _ _ _ Hs i Hi'). by rewrite take_app_le by lia.
      * intros [He|He]; apply metadata_key_inj in He; [done|]. injection He as He.
        apply (height_of_index i) in He; lia.
    + rewrite Hlast, decide_True by auto. rewrite take_ge by (rewrite length_app; simpl; lia).
      by rewrite fmap_app.
  - intros i b' [Hi|[Hi He]]%lookup_app_Some.
    + rewrite added_consensus, decide_False; [by apply (cd_consensus _ _ _ Hs)|].
      apply old_key. by eapply lookup_lt_Some.
    + apply list_lookup_singleton_Some in He as [He <-]. assert (i = length bs) as -> by lia.
      by rewrite Hlast, added_consensus, decide_True.
  - intros k. rewrite added_consensus, length_app. case_decide as Hk.
    + intros _. exists (length bs). split; [simpl; lia|]. by rewrite Hlast.
    + intros (i & Hi & ->)%(cd_consensus_only _ _ _ Hs). exists i. split; [simpl; lia|done].
  - exact added_transactions.
  - exact added_transactions_only.
  - apply (cd_genesis _ _ _ Hs).
  - rewrite length_app. simpl. lia.
  - by destruct bs.
Qed.
End snoc.

(** The columns of the chain. *)
Definition chain_columns : list Z :=
  [TRANSACTIONS_COLUMN; FUEL_BLOCKS_COLUMN; FUEL_BLOCK_MERKLE_DATA_COLUMN;
   FUEL_BLOCK_MERKLE_METADATA_COLUMN; FUEL_BLOCK_CONSENSUS_COLUMN].

Lemma chain_columns_original c : c ∈ chain_columns → is_original c ∧ c ≠ METADATA_COLUMN.
Proof.
  unfold chain_columns. rewrite !elem_of_cons, elem_of_nil.
  unfold TRANSACTIONS_COLUMN, FUEL_BLOCKS_COLUMN, FUEL_BLOCK_MERKLE_DATA_COLUMN,
    FUEL_BLOCK_MERKLE_METADATA_COLUMN, FUEL_BLOCK_CONSENSUS_COLUMN, METADATA_COLUMN.
  intros Hc. split; [column_lia|lia].
Qed.

Lemma chain_held_ext s s' g bs :
  (∀ k c, c ∈ chain_columns → s k c = s' k c) → chain_held s g bs → chain_held s' g bs.
Proof.
  intros Heq [[Hh Hl] Hb Ho Hr Hc Hco Ht Hto ? ? ?]. unfold chain_columns in Heq.
  split; try done.
  - split; [|simpl in *; rewrite <- Heq; [done|set_solver]].
    eapply tree_ext; [|exact Hh]. intros k. simpl. rewrite Heq; [done|set_solver].
  - intros i b Hi. rewrite <- Heq by set_solver. by apply Hb.
  - intros k. rewrite <- Heq by set_solver. apply Ho.
  - intros i Hi. rewrite <- Heq by set_solver. by apply Hr.
  - intros i b Hi. rewrite <- Heq by set_solver. by apply Hc.
  - intros k. rewrite <- Heq by set_solver. apply Hco.
  - intros b tx Hin Htx. rewrite <- Heq by set_solver. by apply (Ht b).
  - intros k. rewrite <- Heq by set_solver. apply Hto.
Qed.

Section store.
Context (db : Db) (g : Z) (bs : list (SealedBlock Tx Signature)) (b : SealedBlock Tx Signature).
Context (Hs : chain_held (db_get db) g bs) (Hb : block_height b = latest g bs + 1) (Hmax : block_height b ≤ U32).

Abbreviation with_seal nodes :=
  (View.set (to_be_bytes 4 (block_height b)) FUEL_BLOCK_CONSENSUS_COLUMN (Some (ser_consensus (seal b)))
    (with_block (db_get db) bs b nodes)).
Abbreviation t0 := (storage_transaction db ∅).

Lemma storage_transaction_reads k c : kv_get t0 k c = view_of (db_get db) k c.
Proof.
  change (kv_get t0 k c) with (tx_get t0 k c). rewrite tx_get_applied. unfold change_at. simpl.
  by rewrite lookup_empty.
Qed.

Lemma new_height_free :
  db_get db (to_be_bytes 4 (block_height b)) FUEL_BLOCKS_COLUMN = None ∧
  db_get db (to_be_bytes 4 (block_height b)) FUEL_BLOCK_CONSENSUS_COLUMN = None.
Proof.
  split; (destruct (db_get _ _ _) eqn:Hk; [|done]).
  - destruct (cd_only _ _ _ Hs (to_be_bytes 4 (block_height b))) as (i & Hi & He); [by eauto|].
    by destruct (old_key _ _ _ _ Hs Hb Hmax i Hi).
  - destruct (cd_consensus_only _ _ _ Hs (to_be_bytes 4 (block_height b))) as (i & Hi & He); [by eauto|].
    by destruct (old_key _ _ _ _ Hs Hb Hmax i Hi).
Qed.

(** Up to its transactions, storing the next block always succeeds. *)
Lemma store_block_part :
  ∃ nodes t2, tx_ok (block_keys (block_height b)) t0 (with_seal nodes) t2 ∧
    tree_shown FuelBlocks (with_block (db_get db) bs b nodes) ((sealed_id <$> bs) ++ [sealed_id b]) ∧
    store_new_block chain_id b t0 =
      match store_transactions chain_id (transactions (entity b)) false t2 with
      | (_, Err e) => (t0, Err e)
      | (s, Ok found) => match commit s with
                         | (t, Ok _) => (t, Ok (negb found))
                         | (t, Err e) => (t, Err e)
                         end
      end.
Proof.
  unfold store_new_block. fold (block_height b). destruct new_height_free as [Hnb Hnc].
  assert (tx_ok (block_keys (block_height b)) t0 (view_of (db_get db)) (into_transaction t0)) as Hv0.
  { destruct (into_transaction_ok t0 (block_keys (block_height b))) as [Hsh ? ?]. split; [|done..].
    intros k c. by rewrite Hsh, storage_transaction_reads. }
  destruct (merklized_replace_ok (block_keys (block_height b)) t0 FuelBlocks (into_transaction t0) _ (sealed_id <$> bs)
    (block_height b) (compress chain_id (entity b)) (fuel_blocks_ok _) (bk_block _) Hv0 (cd_tree _ _ _ Hs))
    as (t1 & nodes & Hr1 & Hv1 & Htree).
  { unfold view_of. by rewrite <- Hnb. }
  rewrite Hr1. cbn [and_then]. change (mt_leaf FuelBlocks (compress chain_id (entity b))) with (sealed_id b) in *.
  fold (with_block (db_get db) bs b nodes) in Hv1, Htree.
  destruct (plain_replace_ok (block_keys (block_height b)) t0 SealedBlockConsensus t1 _ (block_height b) (seal b) None Hv1)
    as (t2 & Hr2 & Hv2); [constructor| |].
  { unfold with_block. rewrite entry_set_other by done. unfold view_of. simpl. by rewrite Hnc. }
  exists nodes, t2. split_and!; [exact Hv2|done|]. by rewrite Hr2.
Qed.

Lemma with_seal_transactions nodes k : with_seal nodes k TRANSACTIONS_COLUMN = Ok (db_get db k TRANSACTIONS_COLUMN).
Proof. rewrite set_ne by naive_solver. unfold with_block. by rewrite entry_set_other. Qed.

Lemma with_seal_ok nodes k : is_ok (with_seal nodes k TRANSACTIONS_COLUMN) = true.
Proof. by rewrite with_seal_transactions. Qed.

Lemma commit_onto t3 v :
  tx_ok (block_keys (block_height b)) t0 v t3 →
  ∃ t4, commit t3 = (t4, Ok ()) ∧ within (block_keys (block_height b)) (changes t4) ∧
    ∀ k c, Ok (after (changes t4) (db_get db) k c) = v k c.
Proof.
  intros Hv. unfold commit. pose proof (commit_within (block_keys (block_height b)) (changes t3) (storage t3)) as Hcw.
  rewrite (to_storage _ _ _ _ Hv) in *. specialize (Hcw eq_refl (to_within _ _ _ _ Hv)).
  destruct (tx_commit_changes (changes t3) t0) as [t4 r4] eqn:He. destruct Hcw as (-> & Hw & Hch).
  exists t4. split_and!; [done|done|]. intros k c.
  rewrite <- (to_shows _ _ _ _ Hv), tx_get_applied, <- Hch, (to_storage _ _ _ _ Hv), storage_transaction_reads.
  unfold after, view_of. by destruct (change_at (changes t4) k c) as [[]|].
Qed.

Lemma store_on_db t' :
  store_new_block chain_id b t0 = (t', Ok true) →
  within (block_keys (block_height b)) (changes t') ∧ chain_held (after (changes t') (db_get db)) g (bs ++ [b]).
Proof.
  destruct store_block_part as (nodes & t2 & Hv2 & Htree & ->).
  destruct (store_transactions chain_id (transactions (entity b)) _ t2) as [t3 [found|e]] eqn:Hst; [|done].
  intros Hres. assert (found = false) as ->.
  { destruct (commit t3) as [t4 [[]|]]; [|done]. injection Hres as _ Hf. by destruct found. }
  destruct (store_transactions_ok _ t0 _ _ _ _ _ Hv2 (with_seal_ok nodes) Hst) as (_ & v' & Hv' & Hother & Hnew & Hold & Honly).
  destruct (commit_onto t3 v' Hv') as (t4 & Hc & Hw & Hsh). rewrite Hc in Hres. injection Hres as <-.
  split; [done|]. apply (chain_held_snoc (db_get db) _ g bs b nodes v'); [|done..].
  split; [exact Hother|exact Hnew| | |by intros].
  - intros k x Hx. apply Hold. by rewrite with_seal_transactions, Hx.
  - intros k x [Hx|?]%Honly; [|by right]. left. rewrite with_seal_transactions in Hx. congruence.
Qed.

(** The transactions of [b] are different and not on the chain. *)
Definition new_transactions bs b : Prop :=
  NoDup (tx_id chain_id <$> transactions (entity b)) ∧
  ∀ b' tx tx', b' ∈ bs → tx' ∈ transactions (entity b') → tx ∈ transactions (entity b) →
    tx_id chain_id tx ≠ tx_id chain_id tx'.

Lemma store_on_db_inv t' : store_new_block chain_id b t0 = (t', Ok true) → new_transactions bs b.
Proof.
  destruct store_block_part as (nodes & t2 & Hv2 & Htree & ->).
  destruct (store_transactions chain_id (transactions (entity b)) _ t2) as [t3 [found|e]] eqn:Hst; [|done].
  intros Hres. assert (found = false) as ->.
  { destruct (commit t3) as [t4 [[]|]]; [|done]. injection Hres as _ Hf. by destruct found. }
  destruct (store_transactions_inv _ t0 _ _ _ _ _ Hv2 (with_seal_ok nodes) Hst) as (_ & Hnd & Hn).
  split; [done|]. intros b' tx tx' Hb' Htx' Htx He. specialize (Hn tx Htx).
  rewrite with_seal_transactions, He, (cd_transactions _ _ _ Hs b' tx' Hb' Htx') in Hn. done.
Qed.

Lemma store_on_db_new : new_transactions bs b → ∃ t', store_new_block chain_id b t0 = (t', Ok true).
Proof.
  intros [Hnd Hnew]. destruct store_block_part as (nodes & t2 & Hv2 & Htree & ->).
  destruct (store_transactions_fresh _ t0 (transactions (entity b)) _ t2 Hv2 Hnd) as [t3 Hst].
  { intros tx Hin. rewrite with_seal_transactions. f_equal. destruct (db_get _ _ _) eqn:He; [|done].
    destruct (cd_transactions_only _ _ _ Hs (tx_id chain_id tx)) as (b' & tx' & ? & ? & ?); [by eauto|].
    by destruct (Hnew b' tx tx'). }
  rewrite Hst. destruct (store_transactions_ok _ t0 _ _ _ _ _ Hv2 (with_seal_ok nodes) Hst) as (_ & v' & Hv' & _).
  destruct (commit_onto t3 v' Hv') as (t4 & -> & _). by exists t4.
Qed.
End store.

(** A block stored on top of a chain: its changes are those of the tables of blocks and
    lead to the chain with the block. *)
Lemma store_new_block_ok db s g bs b t' :
  (∀ k c, is_original c → db_get db k c = s k c) → chain_held s g bs →
  block_height b = latest g bs + 1 → block_height b ≤ U32 →
  store_new_block chain_id b (storage_transaction db ∅) = (t', Ok true) →
  within (block_keys (block_height b)) (changes t') ∧ chain_held (after (changes t') s) g (bs ++ [b]).
Proof.
  intros Hdb Hs Hb Hmax Hst.
  assert (chain_held (db_get db) g bs) as Hs'.
  { eapply chain_held_ext; [|exact Hs]. intros k c [Ho _]%chain_columns_original. by rewrite Hdb. }
  destruct (store_on_db db g bs b Hs' Hb Hmax t' Hst) as [Hw Hc].
  split; [done|]. eapply chain_held_ext; [|exact Hc]. intros k c [Ho _]%chain_columns_original. unfold after. by rewrite Hdb.
Qed.

Lemma store_new_block_inv db s g bs b t' :
  (∀ k c, is_original c → db_get db k c = s k c) → chain_held s g bs →
  block_height b = latest g bs + 1 → block_height b ≤ U32 →
  store_new_block chain_id b (storage_transaction db ∅) = (t', Ok true) → new_transactions bs b.
Proof.
  intros Hdb Hs Hb Hmax. apply (store_on_db_inv db g bs b); try done.
  eapply chain_held_ext; [|exact Hs]. intros k c [Ho _]%chain_columns_original. by rewrite Hdb.
Qed.

Lemma store_new_block_new db s g bs b :
  (∀ k c, is_original c → db_get db k c = s k c) → chain_held s g bs →
  block_height b = latest g bs + 1 → block_height b ≤ U32 → new_transactions bs b →
  ∃ t', store_new_block chain_id b (storage_transaction db ∅) = (t', Ok true).
Proof.
  intros Hdb Hs Hb Hmax Hn. apply (store_on_db_new db g bs b); try done.
  eapply chain_held_ext; [|exact Hs]. intros k c [Ho _]%chain_columns_original. by rewrite Hdb.
Qed.
End chain.
