(* ===== verification/Verifier.v ===== *)
(** * Verification of blocks

    Model of the proof of authority verifier (consensus_module/poa/src/verifier.rs), of
    the verifier over all kinds of consensus (consensus_module/src/block_verifier.rs)
    and of the schedule of signing keys (chain-config/src/config/consensus.rs).  On a
    database that holds a chain the checks are exactly that the block extends it. *)

From stdpp Require Import prelude gmap list strings sorting.
From Stdlib Require Import ZArith Lia.
From S2P Require Import Prelude.
From S2P Require Import StorageTx.
From S2P Require Import HistoricalDb.
From S2P Require Import HistoricalDbFacts.
From S2P Require Import Database.
From S2P Require Import Tables.
From S2P Require Import Blocks.
From S2P Require Import BlockStore.
From S2P Require Import ChainFacts.
Local Open Scope Z_scope.

(** ** Signing keys *)

Record PoAV2 := {
  genesis_signing_key : Address;
  signing_key_overrides : gmap Z Address;
}.

Inductive ConsensusConfig :=
| PoAConfig (signing_key : Address)
| PoAV2Config (poa : PoAV2).

Definition override_le (x y : Z * Address) : Prop := x.1 ≤ y.1.
#[global] Instance override_le_dec : RelDecision override_le.
Proof. intros x y. unfold override_le. apply _. Defined.

(** The entries of the map in the order of their heights. *)
Definition overrides_in_order (p : PoAV2) : list (Z * Address) :=
  merge_sort override_le (map_to_list (signing_key_overrides p)).

Definition address_for_height (p : PoAV2) (h : Z) : Address :=
  if decide (signing_key_overrides p = ∅) then genesis_signing_key p
  else default (genesis_signing_key p)
         (snd <$> last (filter (λ x, x.1 ≤ h) (overrides_in_order p))).

Definition latest_address (p : PoAV2) : Address :=
  default (genesis_signing_key p) (snd <$> last (overrides_in_order p)).

(** ** The checks *)

Record VerifierConfig := {
  vc_consensus : ConsensusConfig;
  vc_block_height : Z;
  vc_da_block_height : Z;
}.

Section verifier.
Context {Tx Signature : Type} `{!ChainCrypto Tx Signature} `{!BlockCodecs Tx Signature} `{!MerkleTree}.
Context {S : Type} `{!KeyValueInspect S}.

Definition signed_by (signature : Signature) (id : BlockId) (signing_key : Address) : bool :=
  match recover signature id with
  | Some k => bool_decide (owner k = signing_key)
  | None => false
  end.

Definition poa_verify_consensus (config : ConsensusConfig) (h : BlockHeader) (signature : Signature) : bool :=
  match config with
  | PoAConfig signing_key => signed_by signature (header_id h) signing_key
  | PoAV2Config poa => signed_by signature (header_id h) (address_for_height poa (height (consensus h)))
  end.

Definition ensure (P : Prop) `{!Decision P} (e : string) : result unit string :=
  if decide P then Ok () else Err e.

Definition poa_verify_block_fields (database : S) (b : Block Tx) : result unit string :=
  let h := header b in
  let height := height (consensus h) in
  result_bind (ensure (height ≠ 0) "The PoA block can't have the zero height") (λ _,
  let prev_height := height - 1 in
  result_bind (block_header_merkle_root database prev_height) (λ prev_root',
  result_bind (ensure (prev_root (consensus h) = prev_root')
                 "Previous root of the next block should match the previous block root") (λ _,
  result_bind (block_header database prev_height) (λ prev_header,
  result_bind (ensure (da_height (application prev_header) ≤ da_height (application h))
                 "The `da_height` of the next block can't be lower") (λ _,
  result_bind (ensure (time (consensus prev_header) ≤ time (consensus h))
                 "The `time` of the next block can't be lower") (λ _,
  result_bind (ensure (application_hash (co_generated (consensus h)) = hash_application (application h))
                 "The application hash mismatch.") (λ _,
  ensure (validate_transactions h (transactions b) = true)
    "The transactions don't match header."))))))).

Definition verify_genesis_block_fields (expected_height expected_da_height : Z) (h : BlockHeader) :
    result unit string :=
  result_bind (ensure (prev_root (consensus h) = zeroed) "The genesis previous root should be zeroed") (λ _,
  result_bind (ensure (time (consensus h) = UNIX_EPOCH) "The genesis time should be unix epoch time") (λ _,
  result_bind (ensure (da_height (application h) = expected_da_height)
                 "The genesis `da_height` is not as expected") (λ _,
  ensure (expected_height = height (consensus h)) "The genesis height is not as expected"))).

(** [Verifier::verify_block_fields]; the view is the latest one. *)
Definition verify_block_fields (config : VerifierConfig) (view : S) (c : Consensus Signature) (b : Block Tx) :
    result unit string :=
  match c with
  | CGenesis _ => verify_genesis_block_fields (vc_block_height config) (vc_da_block_height config) (header b)
  | CPoA _ => poa_verify_block_fields view b
  end.

(** [Verifier::verify_consensus]. *)
Definition verify_consensus (config : VerifierConfig) (h : BlockHeader) (c : Consensus Signature) : bool :=
  match c with
  | CGenesis _ => true
  | CPoA signature => poa_verify_consensus (vc_consensus config) h signature
  end.
End verifier.

(** ** What the checks mean *)

Lemma filter_keeps_order {A} (R : relation A) (P : A → Prop) `{!∀ x, Decision (P x)} l :
  StronglySorted R l → StronglySorted R (filter P l).
Proof.
  induction 1 as [|x l Hs IH Hx]; [constructor|]. rewrite filter_cons. case_decide; [|done].
  constructor; [done|]. rewrite Forall_forall in *. intros y [_ Hy]%list_elem_of_filter. auto.
Qed.

(** The key of the last override not above the height, or the genesis key. *)
Lemma address_for_height_ok p h :
  (address_for_height p h = genesis_signing_key p ∧ ∀ h' a, signing_key_overrides p !! h' = Some a → h < h') ∨
  ∃ h', signing_key_overrides p !! h' = Some (address_for_height p h) ∧ h' ≤ h ∧
    ∀ h'' a, signing_key_overrides p !! h'' = Some a → h'' ≤ h → h'' ≤ h'.
Proof.
  unfold address_for_height. case_decide as He.
  { left. split; [done|]. intros h' a. by rewrite He, lookup_empty. }
  assert (∀ x, x ∈ overrides_in_order p ↔ signing_key_overrides p !! x.1 = Some x.2) as Hin.
  { intros [k a]. unfold overrides_in_order. by rewrite merge_sort_Permutation, elem_of_map_to_list. }
  assert (StronglySorted override_le (overrides_in_order p)) as Hs.
  { apply Sorted_StronglySorted; [unfold override_le; intros ???; lia|]. apply Sorted_merge_sort.
    unfold override_le. intros ??. lia. }
  destruct (last (filter (λ x, x.1 ≤ h) (overrides_in_order p))) as [[k a]|] eqn:Hl; simpl.
  - apply last_Some in Hl as [l Hl]. right. exists k.
    assert ((k, a) ∈ filter (λ x, x.1 ≤ h) (overrides_in_order p)) as [Hk Hka]%list_elem_of_filter
      by (rewrite Hl; set_solver). split_and!; [by apply Hin in Hka|done|].
    intros k' a' Ha' Hk'. assert ((k', a') ∈ l ++ [(k, a)]) as [Hin'|Hin']%elem_of_app.
    { rewrite <- Hl. apply list_elem_of_filter. split; [done|]. by apply Hin. }
    + assert (StronglySorted override_le (l ++ [(k, a)])) as Hsl by (rewrite <- Hl; by apply filter_keeps_order).
      by apply (StronglySorted_app_1_elem_of _ _ _ (k', a') (k, a)) in Hsl; [|done|set_solver].
    + apply list_elem_of_singleton in Hin'. naive_solver lia.
  - apply last_None in Hl. left. split; [done|]. intros h' a Ha. apply Z.nle_gt. intros Hle.
    assert ((h', a) ∈ filter (λ x : Z * Address, x.1 ≤ h) (overrides_in_order p)) as Hf.
    { apply list_elem_of_filter. split; [done|]. by apply Hin. }
    rewrite Hl in Hf. by apply elem_of_nil in Hf.
Qed.

Lemma ensure_ok P `{!Decision P} e u : ensure P e = Ok u ↔ P.
Proof. unfold ensure. destruct u. by case_decide. Qed.

Section facts.
Context {Tx Signature : Type} `{!ChainCrypto Tx Signature} `{!ChainCryptoLaws Tx Signature}.
Context `{!BlockCodecs Tx Signature} `{!BlockCodecsLaws Tx Signature}.
Context `{!HashOrder Z} `{!HashOrder Key} `{!MerkleTree} `{!MerkleTreeLaws}.
Implicit Types (bs : list (SealedBlock Tx Signature)).

(** The block [b] continues the chain [bs] from the genesis height [g]: it has a parent
    there, its root and the hashes of its own contents. *)
Record continues (g : Z) bs (b : Block Tx) : Prop := {
  co_parent : is_Some (chain_at g bs (height (consensus (header b)) - 1));
  co_prev_root : prev_root (consensus (header b)) = root_at g bs (height (consensus (header b)) - 1);
  co_application_hash :
    application_hash (co_generated (consensus (header b))) = hash_application (application (header b));
  co_transactions : validate_transactions (header b) (transactions b) = true;
}.

(** It extends it if also its time and its DA height are not below those of its parent. *)
Record extends (g : Z) bs (b : Block Tx) : Prop := {
  ex_parent : ∃ p, chain_at g bs (height (consensus (header b)) - 1) = Some p ∧
    da_height (application (header (entity p))) ≤ da_height (application (header b)) ∧
    time (consensus (header (entity p))) ≤ time (consensus (header b));
  ex_prev_root : prev_root (consensus (header b)) = root_at g bs (height (consensus (header b)) - 1);
  ex_application_hash :
    application_hash (co_generated (consensus (header b))) = hash_application (application (header b));
  ex_transactions : validate_transactions (header b) (transactions b) = true;
}.

Lemma extends_continues g bs b : extends g bs b → continues g bs b.
Proof. intros [(p & Hp & _) ???]. split; [by exists p|done..]. Qed.

Lemma verify_block_fields_ok chain_id db s g bs b :
  (∀ k c, is_original c → db_get db k c = s k c) → chain_held chain_id s g bs →
  0 ≤ height (consensus (header b)) ≤ U32 →
  poa_verify_block_fields db b = Ok () ↔ extends g bs b.
Proof.
  intros Hdb Hs Hh. pose proof (cd_genesis _ _ _ _ Hs) as Hg. unfold poa_verify_block_fields. split.
  - intros Hv. result_inv. rewrite ?ensure_ok in *.
    rewrite (block_header_ok chain_id db s g bs Hdb Hs) in Hr2 by lia.
    destruct (chain_at g bs _) as [p|] eqn:Hp; [|done]. injection Hr2 as <-.
    pose proof (chain_at_inv chain_id s g bs Hs _ _ Hp) as (Hrange & _ & _).
    rewrite (block_root_ok chain_id db s g bs Hdb Hs) in Hr0 by done. injection Hr0 as <-.
    split; [|done..]. by exists p.
  - intros [(p & Hp & Hda & Ht) Hroot Happ Htx].
    pose proof (chain_at_inv chain_id s g bs Hs _ _ Hp) as (Hrange & _ & _).
    unfold ensure at 1. rewrite decide_True by lia. cbn [result_bind].
    rewrite (block_root_ok chain_id db s g bs Hdb Hs) by done. cbn [result_bind].
    rewrite (block_header_ok chain_id db s g bs Hdb Hs), Hp by lia. cbn [result_bind].
    unfold ensure. by rewrite !decide_True by done.
Qed.
End facts.
