(* ===== verification/Producer.v ===== *)
(** * The block producer

    Model of [Producer] (producer/src/block_producer.rs): the header of the next block,
    the choice of the DA height, and the production of a block from the pool, from given
    transactions and from a predefined block, and dry runs.  The relayer, the gas price,
    the consensus parameters and the executor are ports of the producer; an [await] is
    a place where the database may have moved on, so the executor has a database of its
    own. *)

From stdpp Require Import prelude gmap list strings sorting.
From Stdlib Require Import ZArith Lia.
From S2P Require Import Prelude.
From S2P Require Import StorageTx.
From S2P Require Import HistoricalDb.
From S2P Require Import HistoricalDbFacts.
From S2P Require Import Database.
From S2P Require Import Tables.
From S2P Require Import Blocks.
From S2P Require Import BlockStore.
From S2P Require Import ChainFacts.
From S2P Require Import Verifier.
Local Open Scope Z_scope.

Definition CONSENSUS_PARAMETERS_VERSIONS_COLUMN : Z := 17.
Definition STATE_TRANSITION_BYTECODE_VERSIONS_COLUMN : Z := 18.

Inductive ProducerError :=
| NoGenesisBlock
| BlockHeightShouldBeHigherThanPrevious (height previous_block : Z)
| InvalidDaFinalizationState (best previous_block : Z)
| CannotProduceGenesisBlock
| MustProduceBlockWithExpectedHeight (requested_height expected_height : Z)
| MaximumBlockHeightReached
| NO_NEW_DA_HEIGHT_FOUND
| Anyhow (e : string).

Definition succ (h : Z) : option Z := if decide (h < U32) then Some (h + 1) else None.
Definition pred (h : Z) : option Z := if decide (0 < h) then Some (h - 1) else None.

Definition ok_or_err {A E} (o : option A) (e : E) : result A E :=
  match o with Some a => Ok a | None => Err e end.
Definition anyhow {A} (r : result A string) : result A ProducerError :=
  match r with Ok a => Ok a | Err e => Err (Anyhow e) end.

Record Components (TxSource : Type) := {
  header_to_produce : PartialBlockHeader;
  transactions_source : TxSource;
  coinbase_recipient : Address;
  gas_price : Z;
}.
Arguments header_to_produce {_} _.
Arguments transactions_source {_} _.
Arguments coinbase_recipient {_} _.
Arguments gas_price {_} _.

Record RelayerBlockInfo := { gas_cost : Z; tx_count : Z }.

(** The ports; [decode_params] and [decode_bytecode] tell whether the value of a version
    can be decoded, [as_mint] gives the gas price and the contract of a mint. *)
Record Ports (Tx : Type) := {
  wait_for_at_least_height : Z → result Z string;
  get_cost_and_transactions_number_for_block : Z → result RelayerBlockInfo string;
  production_gas_price : result Z string;
  dry_run_gas_price : result Z string;
  block_gas_limit_at_version : Z → result Z string;
  config_coinbase_recipient : option Address;
  decode_params : Value → bool;
  decode_bytecode : Value → bool;
  as_mint : Tx → option (Z * Address);
}.
Arguments wait_for_at_least_height {_} _ _.
Arguments get_cost_and_transactions_number_for_block {_} _ _.
Arguments production_gas_price {_} _.
Arguments dry_run_gas_price {_} _.
Arguments block_gas_limit_at_version {_} _ _.
Arguments config_coinbase_recipient {_} _.
Arguments decode_params {_} _ _.
Arguments decode_bytecode {_} _ _.
Arguments as_mint {_} _ _.

(** [iter_all::<..Versions>(Reverse).next()]: the greatest version of a table; its value
    has to decode. *)
Definition latest_version (decodes : Value → bool) (column : Z) (db : Db) : result Z StorageError :=
  match head (reverse (merge_sort entry_le (map_to_list (default ∅ (db !! column))))) with
  | None => Err "NotFound"
  | Some (key, value) =>
      result_bind (decode_height key) (λ version,
        if decodes value then Ok version else Err "Codec")
  end.

Section producer.
Context {Tx Signature : Type} `{!ChainCrypto Tx Signature} `{!BlockCodecs Tx Signature} `{!MerkleTree}.
Context (P : Ports Tx).

Record BlockInfo := {
  bi_height : Z;
  bi_root : Bytes32;
  bi_da_height : Z;
  bi_consensus_parameters_version : Z;
  bi_state_transition_bytecode_version : Z;
}.

Definition block_info (h : Z) (view : Db) : result BlockInfo ProducerError :=
  result_bind (anyhow (get_block view h)) (λ b,
  result_bind (anyhow (block_header_merkle_root view h)) (λ root,
    Ok {| bi_height := h; bi_root := root;
          bi_da_height := da_height (application (header b));
          bi_consensus_parameters_version := consensus_parameters_version (application (header b));
          bi_state_transition_bytecode_version := state_transition_bytecode_version (application (header b)) |})).

(** A view has the height the database had when it was taken. *)
Definition latest_block_info (view : Database) : result BlockInfo ProducerError :=
  result_bind (ok_or_err (Database.height view) NoGenesisBlock) (λ latest_height,
    block_info latest_height (rocks (data view))).

Definition partial_header_of (da_height consensus_parameters_version state_transition_bytecode_version : Z)
    (prev_root : Bytes32) (height time : Z) : PartialBlockHeader := {|
  p_application := {|
    da_height := da_height;
    consensus_parameters_version := consensus_parameters_version;
    state_transition_bytecode_version := state_transition_bytecode_version;
    ap_generated := MkEmpty;
  |};
  p_consensus := {|
    prev_root := prev_root;
    height := height;
    time := time;
    co_generated := MkEmpty;
  |};
|}.

Definition new_header (block_time : Z) (view : Database) : result PartialBlockHeader ProducerError :=
  result_bind (latest_block_info view) (λ info,
  result_bind (ok_or_err (succ (bi_height info)) MaximumBlockHeightReached) (λ height,
  result_bind (anyhow (latest_version (decode_params P) CONSENSUS_PARAMETERS_VERSIONS_COLUMN
                         (rocks (data view)))) (λ params_version,
  result_bind (anyhow (latest_version (decode_bytecode P) STATE_TRANSITION_BYTECODE_VERSIONS_COLUMN
                         (rocks (data view)))) (λ bytecode_version,
    Ok (partial_header_of (bi_da_height info) params_version bytecode_version (bi_root info)
          height block_time))))).

Definition with_da_height (da : Z) (p : PartialBlockHeader) : PartialBlockHeader :=
  partial_header_of da (consensus_parameters_version (p_application p))
    (state_transition_bytecode_version (p_application p)) (prev_root (p_consensus p))
    (height (p_consensus p)) (time (p_consensus p)).

(** ** The DA height *)

(** The loop over the heights [height], ..., [height + n - 1]. *)
Fixpoint select_loop (n : nat) (height : Z) (gas_limit transactions_limit : Z)
    (new_best total_cost total_transactions : Z) : result Z ProducerError :=
  match n with
  | O => Ok new_best
  | S n =>
      result_bind (anyhow (get_cost_and_transactions_number_for_block P height)) (λ info,
        let total_cost := sat_add U64 total_cost (gas_cost info) in
        let total_transactions := sat_add U64 total_transactions (tx_count info) in
        if decide (gas_limit < total_cost ∨ transactions_limit < total_transactions)
        then Ok new_best
        else select_loop n (height + 1) gas_limit transactions_limit height total_cost total_transactions)
  end.

Definition select_new_da_height (gas_limit previous_da_height transactions_limit : Z) :
    result Z ProducerError :=
  result_bind (anyhow (wait_for_at_least_height P previous_da_height)) (λ highest,
    if decide (highest < previous_da_height) then Err (InvalidDaFinalizationState highest previous_da_height)
    else if decide (highest = previous_da_height) then Ok highest
    else
      let next_da_height := sat_add U64 previous_da_height 1 in
      result_bind (select_loop (Z.to_nat (highest - next_da_height + 1)) next_da_height gas_limit
                     transactions_limit previous_da_height 0 0) (λ new_best,
        if decide (new_best = previous_da_height) then Err NO_NEW_DA_HEIGHT_FOUND else Ok new_best)).

Definition new_header_with_new_da_height (block_time : Z) (view : Database) :
    result PartialBlockHeader ProducerError :=
  result_bind (new_header block_time view) (λ block_header,
  result_bind (anyhow (block_gas_limit_at_version P
                 (consensus_parameters_version (p_application block_header)))) (λ gas_limit,
  result_bind (select_new_da_height gas_limit (da_height (p_application block_header)) (U16 - 1)) (λ da,
    Ok (with_da_height da block_header)))).

Definition new_header_with_da_height (block_time da : Z) (view : Database) :
    result PartialBlockHeader ProducerError :=
  result_bind (new_header block_time view) (λ block_header, Ok (with_da_height da block_header)).

(** ** Production *)

Section execution.
Context {TxSource Produced : Type}.
Context (produce_without_commit : Database → Components TxSource → result Produced string).

(** [locked]: another production is in progress; [now] is the database when the executor
    runs. *)
Definition produce_and_execute (locked : bool) (view now : Database) (h block_time : Z)
    (tx_source : Z → Z → result TxSource string) : result Produced ProducerError :=
  if locked then Err (Anyhow "Failed to acquire the production lock, block production is already in progress")
  else
  result_bind (anyhow (production_gas_price P)) (λ gas_price,
  result_bind (ok_or_err (Database.height view) NoGenesisBlock) (λ latest_height,
  result_bind (ok_or_err (succ latest_height) MaximumBlockHeightReached) (λ next_height,
  if decide (h = 0) then Err CannotProduceGenesisBlock
  else if decide (h ≠ next_height) then Err (MustProduceBlockWithExpectedHeight h next_height)
  else
  result_bind (anyhow (tx_source gas_price next_height)) (λ source,
  result_bind (new_header_with_new_da_height block_time view) (λ header,
    anyhow (produce_without_commit now {|
      header_to_produce := header;
      transactions_source := source;
      coinbase_recipient := default zeroed (config_coinbase_recipient P);
      gas_price := gas_price;
    |})))))).
End execution.

Section predefined.
Context {Produced : Type}.
Context (produce_without_commit : Database → Components (list Tx) → result Produced string).

Definition produce_and_execute_block_transactions (locked : bool) (view now : Database) (h block_time : Z)
    (txs : list Tx) : result Produced ProducerError :=
  produce_and_execute produce_without_commit locked view now h block_time (λ _ _, Ok txs).

Definition produce_and_execute_predefined (locked : bool) (view now : Database) (predefined : Block Tx) :
    result Produced ProducerError :=
  if locked then Err (Anyhow "Failed to acquire the production lock, block production is already in progress")
  else
  let h := height (consensus (header predefined)) in
  let block_time := time (consensus (header predefined)) in
  let da := da_height (application (header predefined)) in
  result_bind (anyhow (wait_for_at_least_height P da)) (λ _,
  result_bind (new_header_with_da_height block_time da view) (λ header_to_produce,
  result_bind (ok_or_err (Database.height view) NoGenesisBlock) (λ latest_height,
  if decide (height (p_consensus header_to_produce) ≤ latest_height)
  then Err (BlockHeightShouldBeHigherThanPrevious h latest_height)
  else
  result_bind (ok_or_err (last (transactions predefined) ≫= as_mint P)
                 (Anyhow "The last transaction in the block should be a mint transaction")) (λ '(gas_price, contract_id),
    anyhow (produce_without_commit now {|
      header_to_produce := header_to_produce;
      transactions_source := removelast (transactions predefined);
      coinbase_recipient := contract_id;
      gas_price := gas_price;
    |}))))).
End predefined.

(** ** Dry runs *)

Definition dry_run_header (h block_time : Z) (view : Database) : result PartialBlockHeader ProducerError :=
  result_bind (ok_or_err (pred h) NoGenesisBlock) (λ previous_height,
  result_bind (block_info previous_height (rocks (data view))) (λ previous_info,
  result_bind (block_info h (rocks (data view))) (λ info,
    Ok (partial_header_of (bi_da_height info) (bi_consensus_parameters_version info)
          (bi_state_transition_bytecode_version info) (bi_root previous_info) h block_time)))).

Section dry_run.
Context {Outcome : Type}.
Context (is_script : Tx → bool) (no_receipts : Outcome → bool).
Context (executor_dry_run : Components (list Tx) → option bool → option Z → bool →
  result (list (Tx * Outcome)) string).

Definition dry_run (view : Database) (txs : list Tx) (h time : option Z) (utxo_validation : option bool)
    (gas_price : option Z) (record_storage_reads : bool) : result (list (Tx * Outcome)) ProducerError :=
  let latest_height := default 0 (Database.height view) in
  let simulated_time := default (match get_block (rocks (data view)) latest_height with
                                 | Ok b => Blocks.time (consensus (header b))
                                 | Err _ => UNIX_EPOCH
                                 end) time in
  result_bind (ok_or_err (succ latest_height) MaximumBlockHeightReached) (λ next_height,
  result_bind (match h with
               | Some h => if decide (h = next_height) then new_header simulated_time view
                           else dry_run_header h simulated_time view
               | None => new_header simulated_time view
               end) (λ header,
  result_bind (match gas_price with
               | Some inner => Ok inner
               | None => anyhow (dry_run_gas_price P)
               end) (λ gas_price,
  result_bind (anyhow (executor_dry_run {|
      header_to_produce := header;
      transactions_source := txs;
      coinbase_recipient := default zeroed (config_coinbase_recipient P);
      gas_price := gas_price;
    |} utxo_validation h record_storage_reads)) (λ outcomes,
    if existsb (λ '(tx, outcome), is_script tx && no_receipts outcome) outcomes
    then Err (Anyhow "Expected at least one set of receipts")
    else Ok outcomes)))).

(** [storage_read_replay]: a committed block, executed again. *)
Definition storage_read_replay {Event} (executor_replay : Block Tx → result (list Event) string)
    (view : Database) (h : Z) : result (list Event) ProducerError :=
  result_bind (anyhow (get_full_block (rocks (data view)) h)) (λ b, anyhow (executor_replay b)).
End dry_run.
End producer.
