(* ===== verification/Importer.v ===== *)
(** * The block importer

    Model of the importer (importer/src/importer.rs, importer/src/ports.rs): the checks of
    a block against the database, the preparation and the commit by the inner task, and
    the calls that run concurrently around it.  A call holds the guard while it runs and
    talks to the inner task through a queue; at any [await] it may be dropped, which
    frees the guard but leaves what it has sent.  The executor and the verifier are
    ports. *)

From stdpp Require Import prelude gmap list strings sorting.
From Stdlib Require Import ZArith Lia.
From S2P Require Import Prelude.
From S2P Require Import StorageTx.
From S2P Require Import HistoricalDb.
From S2P Require Import Database.
From S2P Require Import Tables.
From S2P Require Import Blocks.
From S2P Require Import BlockStore.
From S2P Require Import Verifier.
Local Open Scope Z_scope.

Inductive ImporterError :=
| Semaphore
| InvalidUnderlyingDatabaseGenesisState
| InvalidDatabaseStateAfterExecution (expected actual : option Bytes32)
| Overflow
| ZeroNonGenericHeight
| IncorrectBlockHeight (expected actual : Z)
| BlockIdMismatch (expected actual : BlockId)
| FailedVerification (e : string)
| FailedExecution (e : string)
| ExecuteGenesis
| NotUnique (height : Z)
| PreviousBlockProcessingNotFinished
| StorageErr (e : string).

Definition storage_err {A} (r : result A string) : result A ImporterError :=
  match r with Ok a => Ok a | Err e => Err (StorageErr e) end.

Inductive Source := Network | Local.

(** The executor and the verifier of the importer; statuses and events are carried
    through. *)
Class ImporterPorts (Tx Signature Status Event : Type) := {
  validate : Database → Block Tx → result (list Status * list Event * Changes) string;
  verifier_config : VerifierConfig;
}.

Record ImportResult (Tx Signature Status Event : Type) := {
  sealed_block : SealedBlock Tx Signature;
  tx_status : list Status;
  events : list Event;
  source : Source;
}.
Arguments sealed_block {_ _ _ _} _.
Arguments tx_status {_ _ _ _} _.
Arguments events {_ _ _ _} _.
Arguments source {_ _ _ _} _.

(** [UncommittedResult<Changes>]. *)
Record UncommittedResult (Tx Signature Status Event : Type) := {
  result_of : ImportResult Tx Signature Status Event;
  changes_of : Changes;
}.
Arguments result_of {_ _ _ _} _.
Arguments changes_of {_ _ _ _} _.

Record PrepareImportResult (Tx Signature Status Event : Type) := {
  prepared : UncommittedResult Tx Signature Status Event;
  block_changes : Changes;
}.
Arguments prepared {_ _ _ _} _.
Arguments block_changes {_ _ _ _} _.

Inductive CommitInput (Tx Signature Status Event : Type) :=
| Uncommitted (r : UncommittedResult Tx Signature Status Event)
| Prepared (p : PrepareImportResult Tx Signature Status Event).
Arguments Uncommitted {_ _ _ _} _.
Arguments Prepared {_ _ _ _} _.

Section importer.
Context {Tx Signature Status Event : Type} `{!ChainCrypto Tx Signature} `{!BlockCodecs Tx Signature}.
Context `{!HashOrder Z} `{!HashOrder Key} `{!MerkleTree} `{!Postcard} `{!MetadataCodec}.
Context `{!ImporterPorts Tx Signature Status Event} (chain_id : Z).

Abbreviation SB := (SealedBlock Tx Signature).
Abbreviation Uncommitted_ := (UncommittedResult Tx Signature Status Event).
Abbreviation Prepare_ := (PrepareImportResult Tx Signature Status Event).
Abbreviation Input_ := (CommitInput Tx Signature Status Event).

(** ** Checks against the database *)

Definition expected_next_height (c : Consensus Signature) (actual_next_height : Z) (db : Database) :
    result Z ImporterError :=
  match c with
  | CGenesis _ =>
      result_bind (storage_err (latest_block_height (rocks (data db)))) (λ found,
        match found with
        | Some _ => Err InvalidUnderlyingDatabaseGenesisState
        | None => Ok actual_next_height
        end)
  | CPoA _ =>
      if decide (actual_next_height = 0) then Err ZeroNonGenericHeight
      else
        result_bind (storage_err (latest_block_height (rocks (data db)))) (λ found,
          match found with
          | None => Err (StorageErr "NotFound")
          | Some last_db_height =>
              if decide (last_db_height < U32) then Ok (last_db_height + 1) else Err Overflow
          end)
  end.

Definition height_of (b : SB) : Z := height (consensus (header (entity b))).

Definition ensure_next_block_height (b : SB) (db : Database) : result unit ImporterError :=
  let actual_next_height := height_of b in
  result_bind (expected_next_height (seal b) actual_next_height db) (λ expected,
    if decide (expected = actual_next_height) then Ok ()
    else Err (IncorrectBlockHeight expected actual_next_height)).

Definition create_block_changes (b : SB) (db : Database) : result Changes ImporterError :=
  result_bind (ensure_next_block_height b db) (λ _,
    match store_new_block chain_id b (storage_transaction (rocks (data db)) ∅) with
    | (_, Err e) => Err (StorageErr e)
    | (_, Ok false) => Err (NotUnique (height_of b))
    | (t, Ok true) => Ok (changes t)
    end).

(** ** Execution *)

(** The block is borrowed, so the comparison of its id before and after the execution
    always holds. *)
Definition verify_and_execute_block_inner (b : SB) (db : Database) :
    result (list Status * list Event * Changes) ImporterError :=
  match verify_block_fields verifier_config (rocks (data db)) (seal b) (entity b) with
  | Err e => Err (FailedVerification e)
  | Ok _ =>
      match seal b with
      | CGenesis _ => Err ExecuteGenesis
      | CPoA _ =>
          match validate db (entity b) with
          | Err e => Err (FailedExecution e)
          | Ok r => Ok r
          end
      end
  end.

(** [prepare_import_result]; the changes of the block and the execution run in parallel
    on the same database, and the error of the execution comes first. *)
Definition prepare_import_result (b : SB) (db : Database) : result Prepare_ ImporterError :=
  result_bind (match seal b with CPoA _ => ensure_next_block_height b db | CGenesis _ => Ok () end) (λ _,
  let block_changes_result := create_block_changes b db in
  result_bind (verify_and_execute_block_inner b db) (λ '(tx_status, events, changes),
  result_bind block_changes_result (λ block_changes,
    Ok {| prepared := {|
            result_of := {| sealed_block := b; tx_status := tx_status; events := events; source := Network |};
            changes_of := changes |};
          block_changes := block_changes |}))).

(** ** Commit *)

(** [_commit_result]: the database afterwards and what subscribers are told. *)
Definition commit_prepared (p : Prepare_) (db : Database) :
    Database * result (ImportResult Tx Signature Status Event) ImporterError :=
  let changes := changes_of (prepared p) in
  match latest_block_root (rocks (data db)) with
  | Err e => (db, Err (StorageErr e))
  | Ok expected_block_root =>
      match latest_block_root (storage_transaction (rocks (data db)) changes) with
      | Err e => (db, Err (StorageErr e))
      | Ok actual_block_root =>
          if decide (actual_block_root = expected_block_root) then
            match commit_changes_with_height_update new_block_heights db (SChangesList [block_changes p; changes]) with
            | (db, Err _) => (db, Err (StorageErr "commit"))
            | (db, Ok _) => (db, Ok (result_of (prepared p)))
            end
          else (db, Err (InvalidDatabaseStateAfterExecution expected_block_root actual_block_root))
      end
  end.

(** [ImporterInner::commit_result]. *)
Definition inner_commit_result (input : Input_) (db : Database) :
    Database * result (ImportResult Tx Signature Status Event) ImporterError :=
  match input with
  | Uncommitted r =>
      match create_block_changes (sealed_block (result_of r)) db with
      | Err e => (db, Err e)
      | Ok block_changes => commit_prepared {| prepared := r; block_changes := block_changes |} db
      end
  | Prepared p => commit_prepared p db
  end.

(** ** Calls and the inner task *)

(** The commands in the queue, with the call that waits for the answer. *)
Inductive Command :=
| Stop
| CommitResult (call : nat) (input : Input_)
| PrepareImport (call : nat) (b : SB).

(** How far the call that holds the guard has come. *)
Inductive Phase :=
| WaitsForPermit (input : Input_)
| WaitsForPrepared
| WaitsForCommit.

(** [calls] are the blocks of the calls so far, a call is its place in that list;
    [returned] are the results of the calls that came to an end; [unprocessed] counts
    the results subscribers still work on, which hold a permit each. *)
Record Importer := {
  database : Database;
  commands : list Command;
  guard : option (nat * Phase);
  permits : nat;
  unprocessed : nat;
  calls : list SB;
  returned : list (nat * result unit ImporterError);
  dropped : bool;
  running : bool;
  broadcast : list (ImportResult Tx Signature Status Event);
}.

Definition Importer_new (db : Database) (max_block_notify_buffer : nat) : Importer := {|
  database := db; commands := []; guard := None; permits := max_block_notify_buffer;
  unprocessed := 0; calls := []; returned := []; dropped := false; running := true; broadcast := [];
|}.

Definition with_guard (g : option (nat * Phase)) (m : Importer) : Importer := {|
  database := database m; commands := commands m; guard := g; permits := permits m;
  unprocessed := unprocessed m; calls := calls m; returned := returned m; dropped := dropped m;
  running := running m; broadcast := broadcast m;
|}.

Definition with_commands (l : list Command) (m : Importer) : Importer := {|
  database := database m; commands := l; guard := guard m; permits := permits m;
  unprocessed := unprocessed m; calls := calls m; returned := returned m; dropped := dropped m;
  running := running m; broadcast := broadcast m;
|}.

Definition with_permits (n k : nat) (m : Importer) : Importer := {|
  database := database m; commands := commands m; guard := guard m; permits := n;
  unprocessed := k; calls := calls m; returned := returned m; dropped := dropped m;
  running := running m; broadcast := broadcast m;
|}.

(** [self.commands.send(command)]: an unbounded queue. *)
Definition send (c : Command) (m : Importer) : Importer := with_commands (commands m ++ [c]) m.

(** [lock()] succeeded for a call about the block [b]. *)
Definition start_call (b : SB) (phase : Phase) (m : Importer) : Importer := {|
  database := database m; commands := commands m; guard := Some (length (calls m), phase);
  permits := permits m; unprocessed := unprocessed m; calls := calls m ++ [b];
  returned := returned m; dropped := dropped m; running := running m; broadcast := broadcast m;
|}.

(** The call [call] returns and frees the guard. *)
Definition return_call (call : nat) (r : result unit ImporterError) (m : Importer) : Importer := {|
  database := database m; commands := commands m; guard := None; permits := permits m;
  unprocessed := unprocessed m; calls := calls m; returned := returned m ++ [(call, r)];
  dropped := dropped m; running := running m; broadcast := broadcast m;
|}.

(** The callback of a command: a dropped call does not hear of it. *)
Definition answer (call : nat) (f : Importer → Importer) (m : Importer) : Importer :=
  match guard m with
  | Some (holder, _) => if decide (holder = call) then f m else m
  | None => m
  end.

(** The database after a commit, with its notification or its permit given back. *)
Definition after_commit (db : Database) (r : result (ImportResult Tx Signature Status Event) ImporterError)
    (m : Importer) : Importer := {|
  database := db; commands := commands m; guard := guard m;
  permits := match r with Ok _ => permits m | Err _ => S (permits m) end;
  unprocessed := match r with Ok _ => S (unprocessed m) | Err _ => unprocessed m end;
  calls := calls m; returned := returned m; dropped := dropped m; running := running m;
  broadcast := match r with Ok result => broadcast m ++ [result] | Err _ => broadcast m end;
|}.

(** The next command of the inner task, which ends on [Stop]. *)
Definition run_command (m : Importer) : Importer :=
  match commands m with
  | [] => m
  | command :: rest =>
      let m := with_commands rest m in
      match command with
      | Stop => {| database := database m; commands := commands m; guard := guard m; permits := permits m;
                   unprocessed := unprocessed m; calls := calls m; returned := returned m;
                   dropped := dropped m; running := false; broadcast := broadcast m |}
      | CommitResult call input =>
          let '(db, r) := inner_commit_result input (database m) in
          answer call (return_call call (match r with Ok _ => Ok () | Err e => Err e end))
            (after_commit db r m)
      | PrepareImport call b =>
          answer call (match prepare_import_result b (database m) with
                       | Ok p => with_guard (Some (call, WaitsForPermit (Prepared p)))
                       | Err e => return_call call (Err e)
                       end) m
      end
  end.

(** What happens next, on any of the tasks. *)
Inductive Action :=
| CallCommitResult (r : Uncommitted_)
| CallExecuteAndCommit (b : SB)
| AcquirePermit
| PermitTimeout
| DropCall
| DropImporter
| RunCommand
| ResultProcessed.

(** A call fails with [Semaphore], and nothing else happens, while the guard is taken. *)
Definition act (a : Action) (m : Importer) : Importer :=
  match a with
  | CallCommitResult r =>
      match guard m with
      | None => if dropped m then m
                else start_call (sealed_block (result_of r)) (WaitsForPermit (Uncommitted r)) m
      | Some _ => m
      end
  | CallExecuteAndCommit b =>
      match guard m with
      | None => if dropped m then m
                else send (PrepareImport (length (calls m)) b) (start_call b WaitsForPrepared m)
      | Some _ => m
      end
  | AcquirePermit =>
      match guard m, permits m with
      | Some (call, WaitsForPermit input), S permits =>
          send (CommitResult call input)
            (with_guard (Some (call, WaitsForCommit)) (with_permits permits (unprocessed m) m))
      | _, _ => m
      end
  | PermitTimeout =>
      match guard m with
      | Some (call, WaitsForPermit _) => return_call call (Err PreviousBlockProcessingNotFinished) m
      | _ => m
      end
  | DropCall => with_guard None m
  | DropImporter =>
      match guard m with
      | None =>
          let m := send Stop m in
          {| database := database m; commands := commands m; guard := guard m; permits := permits m;
             unprocessed := unprocessed m; calls := calls m; returned := returned m;
             dropped := true; running := running m; broadcast := broadcast m |}
      | Some _ => m
      end
  | RunCommand => if running m then run_command m else m
  | ResultProcessed =>
      match unprocessed m with
      | S k => with_permits (S (permits m)) k m
      | O => m
      end
  end.
End importer.
