(* ===== verification/ImporterFacts.v ===== *)
(** * Correctness of the importer

    A block that passes the checks of the importer extends the chain in the database, and
    committing it adds exactly this block.  Whatever calls overlap, a prepared block is
    committed to the database it was prepared on. *)

From stdpp Require Import prelude gmap list strings sorting.
From Stdlib Require Import ZArith Lia.
From S2P Require Import Prelude.
From S2P Require Import StorageTx.
From S2P Require Import HistoricalDb.
From S2P Require Import HistoricalDbFacts.
From S2P Require Import Database.
From S2P Require Import DatabaseFacts.
From S2P Require Import Tables.
From S2P Require Import Blocks.
From S2P Require Import BlockStore.
From S2P Require Import ChainFacts.
From S2P Require Import Verifier.
From S2P Require Import Importer.
Local Open Scope Z_scope.
#[local] Arguments to_be_bytes : simpl never.

(** The tables of the state: their keys, in columns of the description that are not those
    of blocks or of the metadata. *)
Definition block_columns : list Z := METADATA_COLUMN :: chain_columns.

Record state_tables (state_keys : Z → Key → Prop) : Prop := {
  st_format : key_format state_keys;
  st_columns c k : state_keys c k → is_original c ∧ c ∉ block_columns;
}.

(** What the importer relies on in the executor: its changes are of the tables of the
    state only. *)
Class ImporterPortsLaws (Tx Signature Status Event : Type) `{!ImporterPorts Tx Signature Status Event}
    (state_keys : Z → Key → Prop) : Prop := {
  validate_changes db b st ev ch : validate db b = Ok (st, ev, ch) → within state_keys ch;
}.

Section facts.
Context {Tx Signature Status Event : Type} `{!ChainCrypto Tx Signature} `{!ChainCryptoLaws Tx Signature}.
Context `{!BlockCodecs Tx Signature} `{!BlockCodecsLaws Tx Signature}.
Context `{!HashOrder Z} `{!HashOrder Key} `{!MerkleTree} `{!MerkleTreeLaws}.
Context `{!Postcard} `{!PostcardLaws} `{!MetadataCodec} `{!MetadataCodecLaws}.
Context `{!ImporterPorts Tx Signature Status Event}.
Context (chain_id : Z) (state_keys : Z → Key → Prop) (Hstate : state_tables state_keys) (p : StateRewindPolicy).
Implicit Types (b : SealedBlock Tx Signature) (bs : list (SealedBlock Tx Signature)).

(** ** Keys of the on-chain tables *)

Inductive node_keys : Z → Key → Prop :=
| nk_metadata : node_keys METADATA_COLUMN METADATA_KEY
| nk_block h c k : block_keys h c k → node_keys c k
| nk_state c k : state_keys c k → node_keys c k.

Lemma block_keys_columns h c k : block_keys h c k → c ∈ block_columns ∧ is_original c ∧ c ≠ METADATA_COLUMN.
Proof.
  intros Hk. assert (c ∈ chain_columns) as Hc by (unfold chain_columns; destruct Hk; set_solver).
  split; [unfold block_columns; set_solver|by apply chain_columns_original].
Qed.

Lemma block_keys_format h h' c k k' :
  block_keys h c k → block_keys h' c k' → incomparable k k' ∧ (length k ≤ length k' + 8)%nat.
Proof.
  intros Hk Hk'. destruct Hk; inversion Hk'; try done;
    try (split; [apply same_length_incomparable|]; rewrite ?to_be_bytes_length; done || lia).
  split; [apply metadata_key_prefix|]. pose proof (metadata_key_length mk). lia.
Qed.

Lemma node_keys_format : key_format node_keys.
Proof.
  assert (∀ c k k', node_keys c k → node_keys c k' → incomparable k k' ∧ (length k ≤ length k' + 8)%nat) as Hall;
    [|split; intros c k k' Hk Hk'; by destruct (Hall c k k' Hk Hk')].
  destruct Hstate as [[Hp Hl] Hcol].
  intros c k k' Hk Hk'. destruct Hk as [|h c k Hb|c k Hs]; inversion Hk' as [|h' ? ? Hb'|? ? Hs']; subst.
  - split; [by split|lia].
  - by apply block_keys_columns in Hb' as (_ & _ & ?).
  - apply Hcol in Hs' as [_ Hno]. unfold block_columns in Hno. set_solver.
  - by apply block_keys_columns in Hb as (_ & _ & ?).
  - by eapply block_keys_format.
  - apply block_keys_columns in Hb as (Hin & _ & _). by apply Hcol in Hs' as [_ ?].
  - apply Hcol in Hs as [_ Hno]. unfold block_columns in Hno. set_solver.
  - apply block_keys_columns in Hb' as (Hin & _ & _). by apply Hcol in Hs as [_ ?].
  - split; [by eapply Hp|by eapply Hl].
Qed.

(** ** The database holds a chain *)

Definition db_chain (db : Database) (g : Z) bs : Prop :=
  ∃ v revs s states, db_ok node_keys p db v revs ∧ v_states v = s :: states ∧
    chain_held chain_id s g bs ∧ v_latest v = latest g bs.

Lemma db_chain_reads db g bs :
  db_chain db g bs →
  ∃ s, (∀ k c, is_original c → db_get (rocks (data db)) k c = s k c) ∧ chain_held chain_id s g bs.
Proof.
  intros (v & revs & s & states & Hok & Hs & Hc & _). exists s. split; [|done].
  destruct (ho_states _ _ _ _ (do_history _ _ _ _ _ Hok)) as (s' & states' & Hs' & Hsh & _).
  rewrite Hs in Hs'. injection Hs' as <- <-. exact Hsh.
Qed.

Lemma db_chain_height db g bs : db_chain db g bs → Database.height db = Some (latest g bs).
Proof. intros (v & revs & s & states & Hok & _ & _ & <-). apply (do_height _ _ _ _ _ Hok). Qed.

(** ** The changes of a block *)

Lemma create_block_changes_ok db g bs b bc :
  db_chain db g bs → create_block_changes chain_id b db = Ok bc →
  height_of b = latest g bs + 1 ∧ latest g bs + 1 ≤ U32 ∧ (∃ sig, seal b = CPoA sig) ∧
  ∃ t, store_new_block chain_id b (storage_transaction (rocks (data db)) ∅) = (t, Ok true) ∧ bc = changes t.
Proof.
  intros Hdb Hc. destruct (db_chain_reads _ _ _ Hdb) as (s & Hs & Hch).
  pose proof (latest_height_ok chain_id _ s g bs Hs Hch) as Hl.
  unfold create_block_changes, ensure_next_block_height, expected_next_height in Hc.
  rewrite Hl in Hc. cbn [storage_err result_bind] in Hc. destruct (seal b) as [gen|sig]; [done|].
  destruct (decide (height_of b = 0)); [done|]. destruct (decide (latest g bs < U32)); [|done].
  cbn [result_bind] in Hc. destruct (decide (latest g bs + 1 = height_of b)) as [He|]; [|done].
  cbn [result_bind] in Hc. split_and!; [done|lia|by eauto|].
  destruct (store_new_block _ _ _) as [t [[|]|]]; try done. injection Hc as <-. by exists t.
Qed.

Lemma within_columns P ch c : within P ch → is_Some (ch !! c) → ∃ k, P c k.
Proof. intros [Hc _]. apply Hc. Qed.

Lemma within_wf P ch : (∀ c k, P c k → is_original c ∧ node_keys c k) → within P ch → wf_changes node_keys ch.
Proof.
  intros HP [Hc Hk]. split.
  - intros c [k Hck]%Hc. by apply HP in Hck as [? _].
  - intros k c Hck. apply Hk in Hck. by apply HP in Hck as [_ ?].
Qed.

Lemma to_be_bytes_are_bytes n x : Forall (in_uint U8) (to_be_bytes n x).
Proof.
  revert x. induction n as [|n IH]; intros x; [constructor|].
  change (to_be_bytes (S n) x) with (to_be_bytes n (x / 256) ++ [x mod 256]).
  apply Forall_app. split; [apply IH|]. apply Forall_singleton.
  pose proof (Z.mod_pos_bound x 256 ltac:(done)). int_lia.
Qed.

Lemma state_column ec c : within state_keys ec → c ∈ block_columns → ec !! c = None.
Proof.
  intros Hs Hc. destruct (ec !! c) eqn:He; [|done]. destruct (within_columns _ _ c Hs) as [k' Hk']; [by eauto|].
  by apply (st_columns _ Hstate) in Hk' as [_ ?].
Qed.

Lemma state_change ec k c : within state_keys ec → c ∈ block_columns → change_at ec k c = None.
Proof. intros Hs Hc. unfold change_at. by rewrite state_column. Qed.

(** The changes of a block and those of its execution can be committed together. *)
Lemma commit_op_ok h bc ec :
  within (block_keys h) bc → within state_keys ec → op_ok node_keys (OpCommit [bc; ec]).
Proof.
  intros Hb Hs.
  assert (∀ c, is_Some (bc !! c) → ec !! c = None) as Hdis.
  { intros c (k & Hk%block_keys_columns)%(within_columns _ _ _ Hb). destruct (ec !! c) eqn:He; [|done].
    destruct (within_columns _ _ c Hs) as [k' Hk']; [by eauto|].
    apply (st_columns _ Hstate) in Hk' as [_ Hno]. by destruct Hk as (? & _). }
  assert (∀ c, c ∈ block_columns → ec !! c = None) as Hno by (intros c; by apply state_column).
  unfold op_ok, changes_ok. split_and!.
  - intros [|[|i]] [|[|j]] ch ch' c Hi Hj Hc Hc'; simplify_eq/=; try done.
    + rewrite Hdis in Hc' by done. by destruct Hc'.
    + rewrite Hdis in Hc by done. by destruct Hc.
  - rewrite !Forall_cons, Forall_nil. split_and!; [| |done].
    + apply (within_wf (block_keys h)); [|done]. intros c k Hk.
      split; [by apply block_keys_columns in Hk as (_ & ? & _)|by eapply nk_block].
    + apply (within_wf state_keys); [|done]. intros c k Hk.
      split; [by apply (st_columns _ Hstate) in Hk as [? _]|by apply nk_state].
  - rewrite !Forall_cons, Forall_nil. split_and!; [|apply Hno; set_solver|done].
    destruct (bc !! METADATA_COLUMN) eqn:He; [|done].
    destruct (within_columns _ _ METADATA_COLUMN Hb) as [k Hk]; [by eauto|]. by apply block_keys_columns in Hk as (_ & _ & ?).
  - intros ch k [->|[->|[]%elem_of_nil]%elem_of_cons]%elem_of_cons Hk.
    + apply Hb in Hk. inversion Hk. apply to_be_bytes_are_bytes.
    + unfold change_at in Hk. rewrite Hno in Hk by (unfold block_columns, chain_columns; set_solver). by destruct Hk.
Qed.

Lemma inserted_block h bc x :
  within (block_keys h) bc → change_at bc (to_be_bytes 4 h) FUEL_BLOCKS_COLUMN = Some (Insert x) →
  inserted_keys bc FUEL_BLOCKS_COLUMN = [to_be_bytes 4 h].
Proof.
  intros Hb Hx. unfold inserted_keys. unfold change_at in Hx.
  destruct (bc !! FUEL_BLOCKS_COLUMN) as [m|] eqn:Hm; [|done]. cbn [mbind option_bind default] in *.
  assert (m = {[to_be_bytes 4 h := Insert x]}) as ->.
  { apply map_eq. intros k. destruct (decide (k = to_be_bytes 4 h)) as [->|Hne].
    - by rewrite lookup_singleton_eq.
    - rewrite lookup_singleton_ne by done. destruct (m !! k) eqn:Hk; [|done].
      destruct Hb as [_ Hb]. specialize (Hb k FUEL_BLOCKS_COLUMN). unfold change_at in Hb. rewrite Hm in Hb.
      cbn [mbind option_bind] in Hb. rewrite Hk in Hb. specialize (Hb ltac:(by eauto)). by inversion Hb. }
  simpl. by rewrite map_to_list_singleton.
Qed.

Lemma block_heights h bc ec x :
  0 ≤ h ≤ U32 → within (block_keys h) bc → within state_keys ec →
  change_at bc (to_be_bytes 4 h) FUEL_BLOCKS_COLUMN = Some (Insert x) →
  new_block_heights [bc; ec] = Ok [h].
Proof.
  intros Hh Hb Hs Hx. unfold new_block_heights. cbn [mbind list_bind].
  rewrite (inserted_block h bc x Hb Hx). unfold inserted_keys. rewrite (state_column ec);
    [|done|unfold block_columns, chain_columns; set_solver].
  cbn [default]. rewrite map_to_list_empty. cbn [omap list_omap app].
  change (reverse (merge_sort key_le [])) with (@nil Key).
  cbn [app try_fold]. unfold decode_height. rewrite decide_True by apply to_be_bytes_length.
  cbn [result_bind app]. rewrite from_to_be_bytes; [done|]. unfold U32 in *. simpl. lia.
Qed.

Lemma fresh_height s g bs :
  chain_held chain_id s g bs → latest g bs + 1 ≤ U32 → s (to_be_bytes 4 (latest g bs + 1)) FUEL_BLOCKS_COLUMN = None.
Proof.
  intros Hch Hmax. destruct (s _ _) eqn:Hk; [|done]. pose proof (cd_genesis _ _ _ _ Hch).
  destruct (cd_only _ _ _ _ Hch (to_be_bytes 4 (latest g bs + 1))) as (i & Hi & He); [by eauto|].
  apply (f_equal from_be_bytes) in He. unfold latest, U32 in *. rewrite !from_to_be_bytes in He by (simpl; lia). lia.
Qed.

Lemma block_inserted ch s g bs b :
  chain_held chain_id s g bs → latest g bs + 1 ≤ U32 → chain_held chain_id (after ch s) g (bs ++ [b]) →
  ∃ x, change_at ch (to_be_bytes 4 (latest g bs + 1)) FUEL_BLOCKS_COLUMN = Some (Insert x).
Proof.
  intros Hch Hmax Hnew. destruct (cd_block _ _ _ _ Hnew (length bs) b) as [_ Hb].
  { by rewrite lookup_app_r, Nat.sub_diag by lia. }
  replace (g + Z.of_nat (length bs)) with (latest g bs + 1) in Hb by (unfold latest; lia).
  unfold after in Hb. rewrite (fresh_height _ _ _ Hch Hmax) in Hb.
  destruct (change_at _ _ _) as [[x|]|]; [by exists x|done..].
Qed.

(** A block and what its execution changes extend the chain of the database. *)
Lemma commit_block db g bs b bc ec :
  db_chain db g bs → create_block_changes chain_id b db = Ok bc → within state_keys ec →
  ∃ db', commit_changes_with_height_update new_block_heights db (SChangesList [bc; ec]) = (db', Ok ()) ∧
    db_chain db' g (bs ++ [b]).
Proof.
  intros Hdb Hc Hec. destruct (create_block_changes_ok _ _ _ _ _ Hdb Hc) as (Hh & Hmax & _ & t & Ht & ->).
  destruct Hdb as (v & revs & s & states & Hok & Hs & Hch & Hl).
  assert (∀ k c, is_original c → db_get (rocks (data db)) k c = s k c) as Hrd.
  { destruct (ho_states _ _ _ _ (do_history _ _ _ _ _ Hok)) as (s' & states' & Hs' & Hsh & _).
    rewrite Hs in Hs'. injection Hs' as <- <-. exact Hsh. }
  change (height_of b) with (block_height b) in Hh.
  destruct (store_new_block_ok chain_id _ s g bs b t Hrd Hch Hh ltac:(lia) Ht) as [Hw Hnew].
  assert (∃ x, change_at (changes t) (to_be_bytes 4 (latest g bs + 1)) FUEL_BLOCKS_COLUMN = Some (Insert x)) as [x Hx].
  { eapply block_inserted; done. }
  pose proof (cd_genesis _ _ _ _ Hch) as Hg.
  assert (new_block_heights [changes t; ec] = Ok [latest g bs + 1]) as Hnh.
  { eapply block_heights; [unfold latest in *; lia|by rewrite <- Hh|done|done]. }
  destruct (commit_db_step node_keys node_keys_format nk_metadata p db v revs Hok [changes t; ec])
    as (db' & v' & r & revs' & Hst & Hsp & Hok'); [by eapply commit_op_ok|].
  unfold spec_commit in Hsp. rewrite Hnh, Hs, Hl, decide_True in Hsp by done. injection Hsp as <- <-.
  unfold db_step in Hst. destruct (commit_changes_with_height_update new_block_heights db _) as [db1 [[]|]]; [|done].
  injection Hst as ->. exists db'. split; [done|].
  eexists _, _, _, _. split; [exact Hok'|]. split; [done|]. split.
  - eapply chain_held_ext; [|exact Hnew]. intros k c Hcc. pose proof (chain_columns_original c Hcc) as [_ Hm].
    unfold with_metadata. rewrite decide_False by naive_solver. unfold after_all. cbn [foldl].
    unfold after at 2. by rewrite state_change by (unfold block_columns; set_solver).
  - cbn [v_latest]. unfold latest. rewrite length_app. simpl. lia.
Qed.

(** ** The inner task *)

Abbreviation Prep := (PrepareImportResult Tx Signature Status Event).
Abbreviation Input := (CommitInput Tx Signature Status Event).

Definition input_result (i : Input) : UncommittedResult Tx Signature Status Event :=
  match i with Uncommitted r => r | Prepared q => prepared q end.

Definition input_block (i : Input) : SealedBlock Tx Signature := sealed_block (result_of (input_result i)).

Lemma commit_prepared_ok db g bs (q : Prep) :
  let b := sealed_block (result_of (prepared q)) in
  db_chain db g bs → create_block_changes chain_id b db = Ok (block_changes q) →
  within state_keys (changes_of (prepared q)) →
  ∃ db', commit_prepared q db = (db', Ok (result_of (prepared q))) ∧ db_chain db' g (bs ++ [b]).
Proof.
  intros b Hdb Hc Hw. destruct (commit_block db g bs b _ _ Hdb Hc Hw) as (db' & Hcm & Hch).
  exists db'. split; [|done]. destruct (db_chain_reads _ _ _ Hdb) as (s & Hs & Hh).
  unfold commit_prepared. rewrite (latest_root_ok chain_id _ s g bs Hs Hh).
  assert (latest_block_root (storage_transaction (rocks (data db)) (changes_of (prepared q)))
    = latest_block_root (rocks (data db))) as ->.
  { unfold latest_block_root, table_get. f_equal. f_equal. cbn [kv_get tx_inspect]. rewrite tx_get_applied.
    simpl changes. by rewrite state_change by (done || unfold block_columns, chain_columns; set_solver). }
  rewrite (latest_root_ok chain_id _ s g bs Hs Hh), decide_True by done. by rewrite Hcm.
Qed.

Context `{!ImporterPortsLaws Tx Signature Status Event state_keys}.

(** What a preparation promises. *)
Lemma prepare_ok db g bs b q :
  db_chain db g bs → prepare_import_result chain_id b db = Ok q →
  let r := prepared q in
  sealed_block (result_of r) = b ∧ source (result_of r) = Network ∧ within state_keys (changes_of r) ∧
  create_block_changes chain_id b db = Ok (block_changes q) ∧ extends g bs (entity b).
Proof.
  intros Hdb Hq. destruct (db_chain_reads _ _ _ Hdb) as (s & Hs & Hh).
  unfold prepare_import_result in Hq. destruct (seal b) as [|sig] eqn:Hseal.
  { cbn [result_bind] in Hq. unfold verify_and_execute_block_inner in Hq. rewrite Hseal in Hq.
    by destruct (verify_block_fields _ _ _ _). }
  destruct (ensure_next_block_height b db) eqn:He; [|done]. cbn [result_bind] in Hq.
  destruct (verify_and_execute_block_inner b db) as [[[st ev] ch]|] eqn:Hv; [|done]. cbn [result_bind] in Hq.
  destruct (create_block_changes chain_id b db) as [bc|] eqn:Hc; [|done]. injection Hq as <-. simpl.
  destruct (create_block_changes_ok _ _ _ _ _ Hdb Hc) as (Hht & Hmax & _).
  unfold verify_and_execute_block_inner in Hv. rewrite Hseal in Hv.
  destruct (verify_block_fields _ _ _ _) as [[]|] eqn:Hf; [|done].
  destruct (validate db (entity b)) as [[[st' ev'] ch']|] eqn:Hval; [|done]. injection Hv as -> -> ->.
  split_and!; try done; [by eapply validate_changes|].
  eapply (verify_block_fields_ok chain_id _ s); [done|done| |].
  - pose proof (cd_genesis _ _ _ _ Hh). pose proof (cd_nonempty _ _ _ _ Hh). unfold height_of in Hht.
    rewrite Hht. unfold latest in *. lia.
  - exact Hf.
Qed.

(** The next block of the chain, with new transactions, is stored. *)
Lemma create_block_changes_new db g bs b sig :
  db_chain db g bs → seal b = CPoA sig → height_of b = latest g bs + 1 → height_of b ≤ U32 →
  new_transactions chain_id bs b → ∃ bc, create_block_changes chain_id b db = Ok bc.
Proof.
  intros Hdb Hseal Hh Hmax Hn. destruct (db_chain_reads _ _ _ Hdb) as (s & Hs & Hch).
  unfold create_block_changes, ensure_next_block_height, expected_next_height.
  rewrite Hseal, (latest_height_ok chain_id _ s g bs Hs Hch). pose proof (cd_genesis _ _ _ _ Hch).
  pose proof (cd_nonempty _ _ _ _ Hch). assert (0 ≤ latest g bs) by (unfold latest; destruct bs; [done|simpl; lia]).
  rewrite decide_False by lia. cbn [storage_err result_bind]. rewrite decide_True by lia. cbn [result_bind].
  rewrite decide_True by lia. cbn [result_bind].
  destruct (store_new_block_new chain_id _ s g bs b Hs Hch Hh Hmax Hn) as [t ->]. by eauto.
Qed.

(** A block that extends the chain, that the executor validates and with new transactions
    can be imported. *)
Lemma prepare_accepts db g bs b sig st ev ch :
  db_chain db g bs → seal b = CPoA sig → height_of b = latest g bs + 1 → height_of b ≤ U32 →
  new_transactions chain_id bs b → extends g bs (entity b) → validate db (entity b) = Ok (st, ev, ch) →
  ∃ q, prepare_import_result chain_id b db = Ok q.
Proof.
  intros Hdb Hseal Hh Hmax Hn Hex Hv. destruct (create_block_changes_new _ _ _ _ _ Hdb Hseal Hh Hmax Hn) as [bc Hc].
  destruct (db_chain_reads _ _ _ Hdb) as (s & Hs & Hch). pose proof (cd_genesis _ _ _ _ Hch).
  unfold prepare_import_result. rewrite Hseal, Hc.
  assert (ensure_next_block_height b db = Ok ()) as ->.
  { unfold create_block_changes in Hc. by destruct (ensure_next_block_height b db) as [[]|]. }
  unfold verify_and_execute_block_inner. rewrite Hseal. simpl.
  assert (poa_verify_block_fields (rocks (data db)) (entity b) = Ok ()) as ->.
  { eapply (verify_block_fields_ok chain_id _ s); try done. unfold height_of in *. unfold latest in *. lia. }
  rewrite Hv. simpl. by eauto.
Qed.
End facts.
