(* ===== verification/ImporterInv.v ===== *)
(** * The calls of the importer

    The concurrent importer keeps a chain: over any sequence of actions the database
    holds the chain it started with and, after it, the blocks that were announced, each
    committed by exactly one call. *)

From stdpp Require Import prelude gmap list strings sorting.
From Stdlib Require Import ZArith Lia.
From S2P Require Import Prelude.
From S2P Require Import StorageTx.
From S2P Require Import HistoricalDb.
From S2P Require Import HistoricalDbFacts.
From S2P Require Import Database.
From S2P Require Import DatabaseFacts.
From S2P Require Import Tables.
From S2P Require Import Blocks.
From S2P Require Import BlockStore.
From S2P Require Import ChainFacts.
From S2P Require Import Verifier.
From S2P Require Import Importer.
From S2P Require Import ImporterFacts.
Local Open Scope Z_scope.

(** What holds of each announced block after those before it, with one more block. *)
Lemma announced_snoc {A B} (f : A → B) (l : list A) x (P : list B → A → Prop) start :
  (∀ i r, l !! i = Some r → P (start ++ take i (f <$> l)) r) → P (start ++ (f <$> l)) x →
  ∀ i r, (l ++ [x]) !! i = Some r → P (start ++ take i ((f <$> l) ++ [f x])) r.
Proof.
  intros Hl Hx i r [Hi|[Hge Hi]]%lookup_app_Some.
  - rewrite take_app_le; [by apply Hl|]. rewrite length_fmap. apply lookup_lt_Some in Hi. lia.
  - apply list_lookup_singleton_Some in Hi as [Hi <-]. rewrite take_app_length'; [done|]. rewrite length_fmap. lia.
Qed.

Section calls.
Context {Tx Signature Status Event : Type} `{!ChainCrypto Tx Signature} `{!ChainCryptoLaws Tx Signature}.
Context `{!BlockCodecs Tx Signature} `{!BlockCodecsLaws Tx Signature}.
Context `{!HashOrder Z} `{!HashOrder Key} `{!MerkleTree} `{!MerkleTreeLaws}.
Context `{!Postcard} `{!PostcardLaws} `{!MetadataCodec} `{!MetadataCodecLaws}.
Context `{!ImporterPorts Tx Signature Status Event}.
Context (chain_id : Z) (state_keys : Z → Key → Prop) (Hstate : state_tables state_keys) (p : StateRewindPolicy).
Context `{!ImporterPortsLaws Tx Signature Status Event state_keys}.
Implicit Types (b : SealedBlock Tx Signature) (bs : list (SealedBlock Tx Signature)).

(** What is known of a local block when it is given to the importer: a fact about the
    chain so far that stays true when the chain grows. *)
Context (local : list (SealedBlock Tx Signature) → SealedBlock Tx Signature → Prop).
Context (Hlocal : ∀ bs bs' b, bs `prefix_of` bs' → local bs b → local bs' b).

Abbreviation Machine := (@Importer Tx Signature Status Event).
Abbreviation Cmd := (@Command Tx Signature Status Event).
Abbreviation Act := (@Action Tx Signature Status Event).
Abbreviation db_chain := (db_chain chain_id state_keys p).
Implicit Types (m : Machine) (q : list Cmd).

(** ** The invariant *)

Definition command_call (c : Cmd) : option nat :=
  match c with
  | Stop => None
  | CommitResult call _ | PrepareImport call _ => Some call
  end.

Definition is_commit (c : Cmd) : bool := match c with CommitResult _ _ => true | _ => false end.

(** A result given to [commit_result] is a local one, of an execution. *)
Definition result_ok bs (r : UncommittedResult Tx Signature Status Event) : Prop :=
  source (result_of r) = Local ∧ within state_keys (changes_of r) ∧ local bs (sealed_block (result_of r)).

Definition input_ok bs (i : CommitInput Tx Signature Status Event) : Prop :=
  match i with Uncommitted r => result_ok bs r | Prepared _ => True end.

Definition blocks m : list (SealedBlock Tx Signature) := sealed_block <$> broadcast m.

Definition command_ok bs m (c : Cmd) : Prop :=
  match c with
  | Stop => dropped m = true
  | CommitResult call i => calls m !! call = Some (input_block i) ∧ input_ok (bs ++ blocks m) i
  | PrepareImport call b => calls m !! call = Some b
  end.

Definition prepared_on (db : Database) (x : PrepareImportResult Tx Signature Status Event) : Prop :=
  prepare_import_result chain_id (sealed_block (result_of (prepared x))) db = Ok x.

(** What the queue and the database are while a call is in a phase. *)
Definition phase_ok bs m (call : nat) (ph : Phase) : Prop :=
  match ph with
  | WaitsForPermit i =>
      calls m !! call = Some (input_block i) ∧ input_ok (bs ++ blocks m) i ∧
      call ∉ omap command_call (commands m) ∧
      match i with Uncommitted _ => True | Prepared x => commands m = [] ∧ prepared_on (database m) x end
  | WaitsForPrepared => ∃ q b, commands m = q ++ [PrepareImport call b]
  | WaitsForCommit => ∃ q i, commands m = q ++ [CommitResult call i]
  end.

(** The calls that have a command in the queue. *)
Definition pending m : list nat := omap command_call (commands m).

(** [cs] are the calls whose blocks were committed, in order. *)
Record core (n : nat) (g : Z) bs (cs : list nat) m : Prop := {
  iv_chain : db_chain (database m) g (bs ++ blocks m);
  iv_network i r : broadcast m !! i = Some r → source r = Network →
    extends g (bs ++ take i (blocks m)) (entity (sealed_block r));
  iv_local i r : broadcast m !! i = Some r → source r = Local →
    local (bs ++ take i (blocks m)) (sealed_block r);
  iv_committed : (λ c, calls m !! c) <$> cs = Some <$> blocks m;
  iv_order : StronglySorted lt (cs ++ pending m);
  iv_below c : c ∈ cs ++ pending m → (c < length (calls m))%nat;
  iv_commands : Forall (command_ok bs m) (commands m);
  iv_prepared i c x : commands m !! i = Some (CommitResult c (Prepared x)) → i = O ∧ prepared_on (database m) x;
  iv_returned c r : (c, r) ∈ returned m →
    (c < length (calls m))%nat ∧ c ∉ pending m ∧ (is_ok r = true ↔ c ∈ cs);
  iv_permits : (permits m + unprocessed m + length (filter is_commit (commands m)) = n)%nat;
  iv_running : running m = false → dropped m = true;
}.

Definition guard_ok bs (cs : list nat) m : Prop :=
  ∀ c ph, guard m = Some (c, ph) →
    S c = length (calls m) ∧ c ∉ cs ∧ c ∉ (returned m).*1 ∧ dropped m = false ∧ phase_ok bs m c ph.

Definition importer_inv (n : nat) (g : Z) bs (cs : list nat) m : Prop := core n g bs cs m ∧ guard_ok bs cs m.

Lemma importer_new_inv n db g bs : db_chain db g bs → importer_inv n g bs [] (Importer_new db n).
Proof.
  intros Hdb. split; [|done]. split; simpl; try done.
  - unfold blocks. simpl. by rewrite app_nil_r.
  - constructor.
  - intros ? Hc. by apply elem_of_nil in Hc.
  - intros ? ? Hc. by apply elem_of_nil in Hc.
  - lia.
Qed.

(** ** Steps of the calls *)

Section steps.
Context (n : nat) (g : Z) (bs : list (SealedBlock Tx Signature)) (cs : list nat).

Lemma core_guard x m : core n g bs cs m → core n g bs cs (with_guard x m).
Proof. intros [? ? ? ? ? ? ? ? ? ? ?]. by split. Qed.

Lemma core_permits n' a k m :
  core n g bs cs m → (n' + (permits m + unprocessed m) = n + (a + k))%nat → core n' g bs cs (with_permits a k m).
Proof. intros [? ? ? ? ? ? ? ? ? Hp ?] He. split; try done. simpl. lia. Qed.

Lemma input_ok_mono bs1 bs2 i : bs1 `prefix_of` bs2 → input_ok bs1 i → input_ok bs2 i.
Proof. intros Hp. destruct i; [|done]. intros (? & ? & ?). by split_and!; [..|eapply Hlocal]. Qed.

Lemma command_ok_calls m m' c :
  calls m `prefix_of` calls m' → (dropped m = true → dropped m' = true) → blocks m `prefix_of` blocks m' →
  command_ok bs m c → command_ok bs m' c.
Proof.
  intros Hpre Hd Hbl. destruct c; simpl; [done|..].
  - intros [Hl ?]. split; [by eapply prefix_lookup_Some|]. eapply input_ok_mono; [by apply prefix_app|done].
  - intros Hl. by eapply prefix_lookup_Some.
Qed.

Lemma core_drop m :
  core n g bs cs m →
  core n g bs cs {| database := database m; commands := commands m; guard := guard m; permits := permits m;
    unprocessed := unprocessed m; calls := calls m; returned := returned m; dropped := true;
    running := running m; broadcast := broadcast m |}.
Proof.
  intros [? ? ? ? ? ? Hcm ? ? ? ?]. split; try done. eapply Forall_impl; [exact Hcm|].
  intros c. by apply command_ok_calls.
Qed.

Lemma core_start b ph m : core n g bs cs m → core n g bs cs (start_call b ph m).
Proof.
  intros [? ? ? Hc ? Hb Hcm ? Hr ? ?]. split; try done; simpl.
  - etransitivity; [|exact Hc]. apply list_fmap_ext. intros i c Hi. rewrite lookup_app_l; [done|].
    apply Hb, elem_of_app. left. by eapply list_elem_of_lookup_2.
  - intros c Hin%Hb. rewrite length_app. simpl. lia.
  - eapply Forall_impl; [exact Hcm|]. intros c. by apply command_ok_calls; [apply prefix_app_r|..].
  - intros c r (? & ? & ?)%Hr. rewrite length_app. split_and!; [simpl; lia|done..].
Qed.

Lemma core_return c r m :
  core n g bs cs m → (c < length (calls m))%nat → c ∉ pending m → (is_ok r = true ↔ c ∈ cs) →
  core n g bs cs (return_call c r m).
Proof.
  intros [? ? ? ? ? ? ? ? Hr ? ?] Hlt Hp Hcs. split; try done. simpl.
  intros c' r' [Hin|Hin%list_elem_of_singleton]%elem_of_app; [by apply Hr|by injection Hin as -> ->].
Qed.

Lemma pending_send c m : pending (send c m) = pending m ++ omap command_call [c].
Proof. apply omap_app. Qed.

Lemma core_send c m :
  core n g bs cs m → command_ok bs m c →
  (∀ call, command_call c = Some call → S call = length (calls m) ∧ call ∉ cs ++ pending m ∧
     call ∉ (returned m).*1) →
  match c with CommitResult _ (Prepared x) => commands m = [] ∧ prepared_on (database m) x | _ => True end →
  core (n + if is_commit c then 1 else 0) g bs cs (send c m).
Proof.
  intros [? ? ? Hc Ho Hb Hcm Hpr Hr Hn ?] Hok Hcall Hprep.
  assert (∀ call, call ∈ omap command_call [c] → command_call c = Some call) as Hin.
  { intros call (c' & ->%list_elem_of_singleton & ?)%list_elem_of_omap. done. }
  split; try done; rewrite ?pending_send; simpl.
  - rewrite app_assoc. apply StronglySorted_app_2; [|done|].
    + intros x y Hx Hy%Hin%Hcall. apply Hb in Hx as Hlt. destruct Hy as (? & Hno & _).
      assert (x ≠ y) by (intros ->; done). lia.
    + simpl. destruct (command_call c); repeat constructor.
  - intros x. rewrite app_assoc. intros [?|Hx%Hin%Hcall]%elem_of_app; [by apply Hb|lia].
  - apply Forall_app. split; [done|by repeat constructor].
  - intros i call x. intros [Hi|[Hge Hi]]%lookup_app_Some; [by eapply Hpr|].
    apply list_lookup_singleton_Some in Hi as [Hi ->]. destruct Hprep as [Hnil ?]. rewrite Hnil in *.
    simpl in *. split; [lia|done].
  - intros x r Hx. destruct (Hr x r Hx) as (? & ? & ?). split_and!; [done| |done].
    rewrite not_elem_of_app. split; [done|]. intros Hy%Hin%Hcall. destruct Hy as (_ & _ & Hno).
    apply Hno, list_elem_of_fmap. by exists (x, r).
  - rewrite filter_app, length_app. replace (length (filter is_commit [c])) with (if is_commit c then 1 else 0)%nat; [lia|].
    by destruct c.
Qed.

(** ** Steps of the inner task *)

Lemma inner_commit i db bs' :
  db_chain db g bs' → input_ok bs' i → (∀ x, i = Prepared x → prepared_on db x) →
  match inner_commit_result chain_id i db with
  | (db', Ok r) => r = result_of (input_result i) ∧ db_chain db' g (bs' ++ [input_block i]) ∧
      (source r = Network → extends g bs' (entity (input_block i))) ∧
      (source r = Local → local bs' (input_block i))
  | (db', Err _) => db' = db
  end.
Proof.
  intros Hdb Hi Hp. destruct i as [r|x]; simpl.
  - destruct (create_block_changes chain_id _ db) as [bc|] eqn:Hc; [|done]. destruct Hi as (Hl & Hw & Hloc).
    destruct (commit_prepared_ok chain_id state_keys Hstate p db g bs'
      {| prepared := r; block_changes := bc |}) as (db' & -> & Hch); try done.
    split_and!; [done|done| |by intros _]. simpl. by rewrite Hl.
  - specialize (Hp x eq_refl). unfold prepared_on in Hp.
    destruct (prepare_ok chain_id state_keys p db g bs' _ x Hdb Hp) as (_ & Hn & Hw & Hc & Hx).
    destruct (commit_prepared_ok chain_id state_keys Hstate p db g bs' x) as (db' & -> & Hch); try done.
    split_and!; [done|done|by intros _|]. by rewrite Hn.
Qed.

Lemma pop_sorted (c : Cmd) rest :
  StronglySorted lt (cs ++ omap command_call (c :: rest)) →
  StronglySorted lt (cs ++ omap command_call rest) ∧
  (∀ call, command_call c = Some call →
    StronglySorted lt ((cs ++ [call]) ++ omap command_call rest) ∧ call ∉ cs ∧ call ∉ omap command_call rest).
Proof.
  simpl. destruct (command_call c) as [x|]; [|done]. intros Ho.
  apply StronglySorted_app in Ho as Ho'. destruct Ho' as (Hlt & Ha & Hz2).
  apply StronglySorted_cons in Hz2 as [Hx Hz2]. rewrite Forall_forall in Hx. split.
  - apply StronglySorted_app_2; [|done..]. intros y z Hy Hz. apply Hlt; [done|by right].
  - intros call [= ->]. split_and!; [by rewrite <- app_assoc|..].
    + intros Hin. specialize (Hlt call call Hin (list_elem_of_here _ _)). lia.
    + intros Hin%Hx. lia.
Qed.

(** Only the next command can be a prepared commit. *)
Lemma rest_not_prepared m c rest i call x :
  core n g bs cs m → commands m = c :: rest → rest !! i ≠ Some (CommitResult call (Prepared x)).
Proof.
  intros Hc He Hi. by destruct (iv_prepared _ _ _ _ _ Hc (S i) call x) as [? _]; [rewrite He|].
Qed.

Lemma core_pop m c rest :
  core n g bs cs m → commands m = c :: rest → is_commit c = false → core n g bs cs (with_commands rest m).
Proof.
  intros Hcore He Hc. pose proof Hcore as [? ? ? ? Ho Hb Hcm Hpr Hr Hn ?]. unfold pending in *. rewrite He in *.
  destruct (pop_sorted _ _ Ho) as [Ho' _].
  assert (∀ y, y ∈ omap command_call rest → y ∈ omap command_call (c :: rest)) as Hsub.
  { intros y. simpl. destruct (command_call c); [by right|done]. }
  split; try done; unfold pending; simpl.
  - intros y Hy. apply Hb. rewrite elem_of_app in *. naive_solver.
  - by apply Forall_cons in Hcm as [_ ?].
  - intros i call x Hi. by apply (rest_not_prepared m c rest i call x) in Hi.
  - intros y r Hy. destruct (Hr y r Hy) as (? & ? & ?). naive_solver.
  - rewrite <- Hn. by destruct c.
Qed.

Lemma core_commit m call i rest :
  core n g bs cs m → commands m = CommitResult call i :: rest →
  let '(db, r) := inner_commit_result chain_id i (database m) in
  core n g bs (if is_ok r then cs ++ [call] else cs) (after_commit db r (with_commands rest m)).
Proof.
  intros Hcore He. pose proof Hcore as [Hch Hnet Hloc Hcom Ho Hb Hcm Hpr Hr Hn ?]. unfold pending in *. rewrite He in *.
  destruct (pop_sorted _ _ Ho) as [Ho' Ho'']. destruct (Ho'' call eq_refl) as (Hsnoc & Hncs & Hnr).
  apply Forall_cons in Hcm as [[Hblk Hi] Hcm].
  pose proof (inner_commit i (database m) _ Hch Hi) as Hin.
  assert (∀ x, i = Prepared x → prepared_on (database m) x) as Hp.
  { intros x ->. by destruct (Hpr O call x). }
  specialize (Hin Hp). destruct (inner_commit_result _ _ _) as [db [r|e]].
  - destruct Hin as (-> & Hch' & Hex & Hlc).
    assert (blocks (after_commit db (Ok (result_of (input_result i))) (with_commands rest m))
      = blocks m ++ [input_block i]) as Hbl by exact (fmap_app _ _ [_]).
    split; rewrite ?Hbl; unfold pending; cbn [is_ok commands after_commit with_commands calls]; try done.
    + by rewrite app_assoc.
    + exact (announced_snoc sealed_block (broadcast m) _
        (λ bs r, source r = Network → extends g bs (entity (sealed_block r))) bs Hnet Hex).
    + exact (announced_snoc sealed_block (broadcast m) _ (λ bs r, source r = Local → local bs (sealed_block r)) bs Hloc Hlc).
    + rewrite !fmap_app, Hcom. simpl. by rewrite Hblk.
    + intros y Hy. apply Hb. rewrite !elem_of_app in Hy. simpl. rewrite elem_of_app, elem_of_cons. set_solver.
    + eapply Forall_impl; [exact Hcm|]. intros c. apply command_ok_calls; [done..|]. rewrite Hbl. by apply prefix_app_r.
    + intros j c x Hj. by destruct (rest_not_prepared m _ rest j c x Hcore He).
    + intros y r Hy. destruct (Hr y r Hy) as (? & Hno & ?). simpl in Hno. rewrite elem_of_app. set_solver.
    + simpl in *. lia.
  - subst db. split; try done; unfold pending; cbn [is_ok commands after_commit with_commands calls].
    + intros y Hy. apply Hb. rewrite elem_of_app in *. simpl. rewrite elem_of_cons. naive_solver.
    + intros j c x Hj. by destruct (rest_not_prepared m _ rest j c x Hcore He).
    + intros y r Hy. destruct (Hr y r Hy) as (? & Hno & ?). simpl in Hno. set_solver.
    + simpl in *. lia.
Qed.

(** A command of the call that holds the guard is the only one left. *)
Lemma holder_is_last m c rest call q c' :
  core n g bs cs m → commands m = c :: rest → command_call c = Some call →
  commands m = q ++ [c'] → command_call c' = Some call → c = c' ∧ rest = [].
Proof.
  intros Hcore He Hc Hq Hc'. pose proof (iv_order _ _ _ _ _ Hcore) as Ho. unfold pending in Ho. rewrite He in Ho.
  destruct (pop_sorted _ _ Ho) as [_ Hno]. destruct (Hno call Hc) as (_ & _ & Hn).
  rewrite He in Hq. destruct q as [|x q]; simplify_eq/=; [done|].
  destruct Hn. rewrite omap_app. apply elem_of_app. right. simpl. rewrite Hc'. by left.
Qed.

(** A command of another call does not disturb the one that holds the guard. *)
Lemma guard_pop cs' m m' c rest :
  guard_ok bs cs m → commands m = c :: rest → commands m' = rest → blocks m `prefix_of` blocks m' →
  calls m' = calls m → returned m' = returned m → dropped m' = dropped m → guard m' = guard m →
  (∀ x, x ∈ cs' → x ∈ cs ∨ command_call c = Some x) →
  (∀ call ph, guard m = Some (call, ph) → command_call c ≠ Some call) → guard_ok bs cs' m'.
Proof.
  intros Hg He He' Hbl Hc Hr Hd Hgu Hcs Hne call ph Hh. rewrite Hgu in Hh. specialize (Hne call ph Hh).
  destruct (Hg call ph Hh) as (? & ? & ? & ? & Hph). rewrite Hc, Hr, Hd. split_and!; try done.
  { intros [?|?]%Hcs; done. }
  destruct ph as [i| |]; simpl in *; rewrite ?Hc, He'; rewrite He in Hph.
  - destruct Hph as (? & ? & Hno & Hp). split_and!; [done| | |].
    + eapply input_ok_mono; [by apply prefix_app|done].
    + intros Hin. apply Hno. simpl. destruct (command_call c); [by right|done].
    + by destruct i; [|destruct Hp].
  - destruct Hph as (q & b & Hq). destruct q as [|x q]; simplify_eq/=. by eauto.
  - destruct Hph as (q & i & Hq). destruct q as [|x q]; simplify_eq/=. by eauto.
Qed.
End steps.

Lemma run_prepare_inv n g bs cs m call b rest :
  importer_inv n g bs cs m → commands m = PrepareImport call b :: rest →
  importer_inv n g bs cs (run_command chain_id m).
Proof.
  intros [Hc Hg] He. unfold run_command. rewrite He. 
  pose proof (core_pop _ _ _ _ _ _ _ Hc He eq_refl) as Hc'.
  unfold answer. cbn [guard with_commands].
  destruct (guard m) as [[holder ph]|] eqn:Hgu.
  2: { split; [done|]. eapply guard_pop; [exact Hg|exact He|done..|by auto|by rewrite Hgu]. }
  case_decide as Hh.
  2: { split; [done|]. eapply guard_pop; [exact Hg|exact He|done..|by auto|]. rewrite Hgu. naive_solver. }
  subst holder. destruct (Hg call ph Hgu) as (Hlast & Hncs & Hnr & Hd & Hph).
  assert (rest = []) as ->.
  { destruct ph as [i| |]; simpl in Hph.
    - destruct Hph as (_ & _ & Hno & _). rewrite He in Hno. simpl in Hno. set_solver.
    - destruct Hph as (q & b' & Hq). destruct (holder_is_last n g bs cs m _ _ call q _ Hc He eq_refl Hq eq_refl); done.
    - destruct Hph as (q & b' & Hq). destruct (holder_is_last n g bs cs m _ _ call q _ Hc He eq_refl Hq eq_refl); done. }
  pose proof (iv_commands _ _ _ _ _ Hc) as Hcm. rewrite He in Hcm. apply Forall_cons in Hcm as [Hb _]. simpl in Hb.
  destruct (prepare_import_result chain_id b _) as [x|e] eqn:Hx.
  - split; [by apply core_guard|]. intros c ph' [= <- <-].
    destruct (prepare_ok chain_id state_keys p _ _ _ _ _ (iv_chain _ _ _ _ _ Hc) Hx) as (Hxb & _).
    split_and!; try done. simpl. split_and!; try done.
    + unfold input_block. simpl. by rewrite Hxb.
    + set_solver.
    + unfold prepared_on. by rewrite Hxb.
  - split; [|done]. apply core_return; [done|simpl; lia|set_solver|]. split; [done|]. by intros ?%Hncs.
Qed.

Lemma commit_blocks db r rest m : blocks m `prefix_of` blocks (after_commit db r (with_commands rest m)).
Proof.
  unfold blocks. destruct r; [|done]. cbn [broadcast after_commit with_commands]. rewrite fmap_app. by apply prefix_app_r.
Qed.

Lemma run_commit_inv n g bs cs m call i rest :
  importer_inv n g bs cs m → commands m = CommitResult call i :: rest →
  ∃ cs', importer_inv n g bs cs' (run_command chain_id m).
Proof.
  intros [Hc Hg] He. unfold run_command. rewrite He. pose proof (core_commit _ _ _ _ _ _ _ _ Hc He) as Hc'.
  cbn [database with_commands]. destruct (inner_commit_result chain_id i (database m)) as [db r].
  eexists. unfold answer. cbn [guard after_commit with_commands].
  assert (∀ x, x ∈ (if is_ok r then cs ++ [call] else cs) → x ∈ cs ∨ command_call (CommitResult call i) = Some x)
    as Hsub by (intros x; simpl; destruct r; set_solver).
  destruct (guard m) as [[holder ph]|] eqn:Hgu.
  2: { split; [exact Hc'|]. eapply guard_pop; [exact Hg|exact He|done|apply commit_blocks|done..|by rewrite Hgu]. }
  case_decide as Hh.
  2: { split; [exact Hc'|]. eapply guard_pop; [exact Hg|exact He|done|apply commit_blocks|done..|]. rewrite Hgu. simpl. naive_solver. }
  subst holder. destruct (Hg call ph Hgu) as (Hlast & Hncs & Hnr & Hd & Hph).
  split; [|done]. apply core_return; [exact Hc'|simpl; lia| |].
  - pose proof (iv_order _ _ _ _ _ Hc) as Ho. unfold pending in Ho. rewrite He in Ho.
    destruct (pop_sorted _ _ _ Ho) as [_ Hno]. by destruct (Hno call eq_refl) as (_ & _ & ?).
  - destruct r; simpl; [rewrite elem_of_app; set_solver|]. split; [done|]. by intros ?%Hncs.
Qed.

Lemma run_stop_inv n g bs cs m rest :
  importer_inv n g bs cs m → commands m = Stop :: rest → importer_inv n g bs cs (run_command chain_id m).
Proof.
  intros [Hc Hg] He. unfold run_command. rewrite He.
  pose proof (iv_commands _ _ _ _ _ Hc) as Hcm. rewrite He in Hcm. apply Forall_cons in Hcm as [Hd _].
  pose proof (core_pop _ _ _ _ _ _ _ Hc He eq_refl) as []. split; [by split|].
  eapply guard_pop; [exact Hg|exact He|done..|by auto|done].
Qed.

(** What callers may do: only results of an execution are committed directly. *)
Definition action_ok bs m (a : Act) : Prop :=
  match a with CallCommitResult r => result_ok (bs ++ blocks m) r | _ => True end.

Lemma start_fresh n g bs cs m : core n g bs cs m →
  length (calls m) ∉ cs ++ pending m ∧ length (calls m) ∉ (returned m).*1.
Proof.
  intros Hc. split.
  - intros Hin%(iv_below _ _ _ _ _ Hc). lia.
  - intros ([c r] & Hx & Hin)%list_elem_of_fmap. apply (iv_returned _ _ _ _ _ Hc) in Hin. simpl in Hx. lia.
Qed.

Lemma act_inv n g bs cs m a :
  importer_inv n g bs cs m → action_ok bs m a → ∃ cs', importer_inv n g bs cs' (act chain_id a m).
Proof.
  intros [Hc Hg] Ha. assert (∃ cs', importer_inv n g bs cs' m) as Hsame by (by exists cs; split).
  destruct (start_fresh _ _ _ _ _ Hc) as [Hnew Hnr].
  destruct a as [r|b| | | | | |]; simpl.
  - destruct (guard m); [done|]. destruct (dropped m) eqn:Hd; [done|]. exists cs.
    split; [by apply core_start|]. intros c ph [= <- <-]. simpl. rewrite length_app.
    rewrite not_elem_of_app in Hnew. destruct Hnew. split_and!; try done; [simpl; lia|].
    by rewrite lookup_app_r, Nat.sub_diag by lia.
  - destruct (guard m); [done|]. destruct (dropped m) eqn:Hd; [done|]. exists cs.
    rewrite not_elem_of_app in Hnew. destruct Hnew. split.
    + replace n with (n + 0)%nat by lia. eapply (core_send n g bs cs (PrepareImport _ b)); [by apply core_start|..|done].
      * simpl. by rewrite lookup_app_r, Nat.sub_diag by lia.
      * intros call [= <-]. simpl. rewrite length_app, not_elem_of_app. split_and!; [simpl; lia|done..].
    + intros c ph [= <- <-]. simpl. rewrite length_app. split_and!; try done; [simpl; lia|by eauto].
  - destruct (guard m) as [[c [i| |]]|] eqn:Hgu; try done. destruct (permits m) as [|k] eqn:Hp; [done|]. exists cs.
    destruct (Hg c _ Hgu) as (Hl & Hncs & Hcr & Hd & Hb & Hi & Hno & Hx).
    pose proof (iv_permits _ _ _ _ _ Hc) as Hn. split.
    + replace n with (n - 1 + 1)%nat by lia. eapply (core_send (n - 1) g bs cs (CommitResult c i)).
      * apply core_guard. eapply core_permits; [exact Hc|lia].
      * done.
      * intros call [= <-]. simpl. rewrite not_elem_of_app. done.
      * by destruct i.
    + intros c' ph [= <- <-]. simpl. split_and!; try done. by eauto.
  - destruct (guard m) as [[c [i| |]]|] eqn:Hgu; try done. exists cs.
    destruct (Hg c _ Hgu) as (? & Hncs & ? & ? & _ & _ & ? & _). split; [|done].
    apply core_return; [done|lia|done|]. split; [done|]. by intros ?%Hncs.
  - exists cs. split; [by apply core_guard|done].
  - destruct (guard m) eqn:Hgu; [done|]. exists cs. split; [|done].
    replace n with (n + 0)%nat by lia.
    rewrite <- Hgu. by apply (core_send n g bs cs Stop {| database := database m; commands := commands m; guard := guard m;
      permits := permits m; unprocessed := unprocessed m; calls := calls m; returned := returned m;
      dropped := true; running := running m; broadcast := broadcast m |}); [apply core_drop|..].
  - destruct (running m); [|done]. destruct (commands m) as [|[|call i|call b] rest] eqn:He.
    + unfold run_command. by rewrite He.
    + exists cs. by eapply run_stop_inv.
    + by eapply run_commit_inv.
    + exists cs. by eapply run_prepare_inv.
  - destruct (unprocessed m) eqn:Hu; [done|]. exists cs. split; [eapply core_permits; [exact Hc|lia]|done].
Qed.

(** Blocks and calls are only added. *)
Lemma run_command_grows m :
  blocks m `prefix_of` blocks (run_command chain_id m) ∧ calls (run_command chain_id m) = calls m.
Proof.
  unfold run_command. destruct (commands m) as [|[|call i|call b] rest]; [done..| |].
  - cbn [database with_commands]. destruct (inner_commit_result chain_id i (database m)) as [db r].
    pose proof (commit_blocks db r rest m) as Hb. unfold answer. cbn [guard after_commit with_commands].
    destruct (guard m) as [[h ?]|]; [|done]. by case_decide.
  - unfold answer. cbn [guard database with_commands]. destruct (guard m) as [[h ?]|]; [|done].
    case_decide; [|done]. by destruct (prepare_import_result chain_id b (database m)).
Qed.

Lemma act_grows a m :
  blocks m `prefix_of` blocks (act chain_id a m) ∧ calls m `prefix_of` calls (act chain_id a m).
Proof.
  destruct a; simpl; try done.
  - destruct (guard m); [done|]. destruct (dropped m); [done|]. split; [done|]. by apply prefix_app_r.
  - destruct (guard m); [done|]. destruct (dropped m); [done|]. split; [done|]. by apply prefix_app_r.
  - destruct (guard m) as [[? []]|]; try done. by destruct (permits m).
  - destruct (guard m) as [[? []]|]; done.
  - by destruct (guard m).
  - destruct (running m); [|done]. destruct (run_command_grows m) as [? ->]. done.
  - by destruct (unprocessed m).
Qed.

Definition acts (l : list Act) m : Machine := foldl (λ m a, act chain_id a m) m l.

Fixpoint actions_ok bs (l : list Act) m : Prop :=
  match l with
  | [] => True
  | a :: l => action_ok bs m a ∧ actions_ok bs l (act chain_id a m)
  end.

Lemma acts_inv n g bs cs m l :
  importer_inv n g bs cs m → actions_ok bs l m → ∃ cs', importer_inv n g bs cs' (acts l m).
Proof.
  revert cs m. induction l as [|a l IH]; intros cs m Hm Hl; [by eauto|].
  destruct Hl as [Ha Hl]. destruct (act_inv _ _ _ _ _ _ Hm Ha) as [cs' Hm']. by apply (IH cs').
Qed.

(** ** The inner task catches up *)

Lemma run_command_pops c rest m : commands m = c :: rest → commands (run_command chain_id m) = rest.
Proof.
  intros He. unfold run_command. rewrite He. destruct c as [|call i|call b]; [done|..]; unfold answer.
  - destruct (inner_commit_result _ _ _) as [db r]. simpl. destruct (guard m) as [[h ?]|]; [|done]. by case_decide.
  - simpl. destruct (guard m) as [[h ?]|]; [|done]. case_decide; [|done]. by destruct (prepare_import_result _ _ _).
Qed.

(** The answers to the call that holds the guard. *)
Lemma run_prepare m call b ph rest x :
  commands m = PrepareImport call b :: rest → guard m = Some (call, ph) →
  prepare_import_result chain_id b (database m) = Ok x →
  run_command chain_id m = with_guard (Some (call, WaitsForPermit (Prepared x))) (with_commands rest m).
Proof.
  intros Hq Hg Hx. unfold run_command. rewrite Hq. cbn [database with_commands]. rewrite Hx.
  unfold answer. cbn [guard with_commands]. by rewrite Hg, decide_True.
Qed.

Lemma run_commit m call i ph rest db r :
  commands m = CommitResult call i :: rest → guard m = Some (call, ph) →
  inner_commit_result chain_id i (database m) = (db, r) →
  run_command chain_id m =
    return_call call (match r with Ok _ => Ok () | Err e => Err e end) (after_commit db r (with_commands rest m)).
Proof.
  intros Hq Hg Hx. unfold run_command. rewrite Hq. cbn [database with_commands]. rewrite Hx.
  unfold answer. cbn [guard with_commands after_commit]. by rewrite Hg, decide_True.
Qed.

(** A call that holds the guard, or has returned. *)
Definition answered (c : nat) m : Prop := guard m = None ∧ c ∈ (returned m).*1.
Definition waits_or_answered (c : nat) m : Prop := (∃ ph, guard m = Some (c, ph)) ∨ answered c m.

Lemma run_command_guard c m : waits_or_answered c m → waits_or_answered c (run_command chain_id m).
Proof.
  unfold waits_or_answered, answered.
  intros Hc. unfold run_command. destruct (commands m) as [|[|call i|call b] rest]; [done..| |]; unfold answer.
  - destruct (inner_commit_result _ _ _) as [db r]. simpl. destruct Hc as [[ph Hgu]|[Hgu ?]]; rewrite Hgu; simpl; [|by auto].
    case_decide as Hh; simpl; [|by eauto]. subst. right. rewrite fmap_app. set_solver.
  - simpl. destruct Hc as [[ph Hgu]|[Hgu ?]]; rewrite Hgu; [|simpl; by auto].
    case_decide as Hh; simpl; [|by eauto]. subst. destruct (prepare_import_result _ _ _); simpl; [by eauto|].
    right. rewrite fmap_app. set_solver.
Qed.

Lemma run_command_answered c m : answered c m → answered c (run_command chain_id m).
Proof.
  intros [Hg Hr]. unfold answered, run_command. destruct (commands m) as [|[|call i|call b] rest]; [done..| |]; unfold answer.
  - destruct (inner_commit_result _ _ _) as [db r]. simpl. by rewrite Hg.
  - simpl. by rewrite Hg.
Qed.

Lemma run_command_permits m : (permits m ≤ permits (run_command chain_id m))%nat.
Proof.
  unfold run_command. destruct (commands m) as [|[|call i|call b] rest]; [done..| |]; unfold answer.
  - destruct (inner_commit_result _ _ _) as [db r]. simpl.
    assert (permits m ≤ match r with Ok _ => permits m | Err _ => S (permits m) end)%nat by (destruct r; lia).
    destruct (guard m) as [[h ?]|]; [|done]. by case_decide.
  - simpl. destruct (guard m) as [[h ?]|]; [|done]. case_decide; [|done]. by destruct (prepare_import_result _ _ _).
Qed.

(** The inner task runs as long as a call waits. *)
Lemma holder_running n g bs cs m c ph : importer_inv n g bs cs m → guard m = Some (c, ph) → running m = true.
Proof.
  intros [Hc Hg] Hgu. destruct (Hg c ph Hgu) as (_ & _ & _ & Hd & _). pose proof (iv_running _ _ _ _ _ Hc) as Hr.
  destruct (running m); [done|]. by rewrite Hr in Hd.
Qed.

Lemma drain n g bs cs q m c :
  importer_inv n g bs cs m → commands m = q → waits_or_answered c m →
  let m' := acts (repeat RunCommand (length q)) m in
  (∃ cs', importer_inv n g bs cs' m') ∧ (permits m ≤ permits m')%nat ∧
  (answered c m' ∨ commands m' = [] ∧ ∃ ph, guard m' = Some (c, ph)).
Proof.
  revert cs m. induction q as [|x q IH]; intros cs m Hm Hq Hc; simpl.
  { split_and!; [by eauto|done|]. destruct Hc; by auto. }
  destruct (running m) eqn:Hr.
  - destruct (act_inv _ _ _ _ _ RunCommand Hm I) as [cs' Hm']. simpl in Hm'. rewrite Hr in Hm'.
    destruct (IH cs' (run_command chain_id m) Hm') as (? & ? & ?);
      [by eapply run_command_pops|by apply run_command_guard|].
    pose proof (run_command_permits m). split_and!; [done|lia|done].
  - destruct Hc as [[ph Hgu]|Ha]; [by rewrite (holder_running _ _ _ _ _ _ _ Hm Hgu) in Hr|].
    assert (∀ k, acts (repeat RunCommand k) m = m) as ->.
    { intros k. induction k as [|k IHk]; [done|]. simpl. by rewrite Hr. }
    split_and!; [by eauto|done|by left].
Qed.

Lemma acquire_and_run n g bs cs m c ph :
  importer_inv n g bs cs m → guard m = Some (c, ph) → commands m = [] → (0 < permits m)%nat →
  answered c (acts [AcquirePermit; RunCommand] m).
Proof.
  intros Hm Hgu Hnil Hp. pose proof (holder_running _ _ _ _ _ _ _ Hm Hgu) as Hr.
  destruct Hm as [_ Hg]. destruct (Hg c ph Hgu) as (_ & _ & _ & _ & Hph).
  destruct ph as [i| |]; simpl in Hph.
  2,3: destruct Hph as (q & ? & Hq); rewrite Hnil in Hq; by destruct q.
  unfold acts. cbn [foldl]. unfold act at 2. rewrite Hgu. destruct (permits m) as [|k]; [lia|]. simpl. rewrite Hr.
  unfold run_command. simpl. rewrite Hnil. simpl. destruct (inner_commit_result _ _ _) as [db r]. unfold answer. simpl. rewrite decide_True by done.
  split; [done|]. simpl. rewrite fmap_app. set_solver.
Qed.
End calls.
