(* ===== verification/Programs.v ===== *)
(** * Programs over requests

    Asynchronous code as a program: a tree of requests to its environment, each with the
    answers it continues from.  The weakest precondition of a program is over a world
    that only grows while the program waits. *)

From stdpp Require Import prelude.

(** A program over requests [E]: a request with the answer it continues from. *)
Inductive Prog (E : Type → Type) (A : Type) : Type :=
| Ret (a : A)
| Panic
| Vis {X : Type} (e : E X) (k : X → Prog E A).
Arguments Ret {E A} _.
Arguments Panic {E A}.
Arguments Vis {E A X} _ _.

Definition request {E : Type → Type} {X} (e : E X) : Prog E X := Vis e Ret.

Fixpoint prog_bind {E : Type → Type} {A B} (p : Prog E A) (f : A → Prog E B) : Prog E B :=
  match p with
  | Ret a => f a
  | Panic => Panic
  | Vis e k => Vis e (λ x, prog_bind (k x) f)
  end.

#[global] Instance prog_mret {E} : MRet (Prog E) := λ _ a, Ret a.
#[global] Instance prog_mbind {E} : MBind (Prog E) := λ _ _ f p, prog_bind p f.

(** ** Weakest preconditions *)

Section wp.
Context {E : Type → Type} {W : Type} (le : W → W → Prop) `{!PreOrder le}.
Context (pre : ∀ X, E X → W → Prop) (post : ∀ X, E X → W → W → X → Prop).

(** The program may ask what it asks in a world [w] that only grows, if it gets what
    its requests promise of the world they are made in and of that of the answer; then
    it ends in [Q]. *)
Fixpoint wp {A} (p : Prog E A) (w : W) (Q : A → W → Prop) : Prop :=
  match p with
  | Ret a => Q a w
  | Panic => True
  | Vis e k => pre _ e w ∧ ∀ x w', le w w' → post _ e w w' x → wp (k x) w' Q
  end.

Lemma wp_mono {A} (p : Prog E A) w (Q R : A → W → Prop) :
  (∀ a w', le w w' → Q a w' → R a w') → wp p w Q → wp p w R.
Proof using Type*.
  revert w. induction p as [a| |X e k IH]; intros w HQ; simpl; [by apply HQ|done|].
  intros [Hp Hk]. split; [done|]. intros x w' Hw Hx. apply IH; [|by apply Hk].
  intros a w'' Hw'. apply HQ. by trans w'.
Qed.

Lemma wp_bind {A B} (p : Prog E A) (f : A → Prog E B) w Q :
  wp p w (λ a w', wp (f a) w' Q) → wp (p ≫= f) w Q.
Proof using Type.
  change (p ≫= f) with (prog_bind p f).
  revert w. induction p as [a| |X e k IH]; intros w; simpl; [done|done|].
  intros [Hp Hk]. split; [done|]. intros x w' Hw Hx. by apply IH, Hk.
Qed.

Lemma wp_request {X} (e : E X) w (Q : X → W → Prop) :
  pre _ e w → (∀ x w', le w w' → post _ e w w' x → Q x w') → wp (request e) w Q.
Proof using Type. done. Qed.

Context (Hpre : ∀ X (e : E X) w w', le w w' → pre X e w → pre X e w').
Context (Hpost : ∀ X (e : E X) w1 w2 w x, le w1 w2 → post X e w2 w x → post X e w1 w x).

Lemma wp_grow {A} (p : Prog E A) w w' (Q : A → W → Prop) :
  (∀ a w1 w2, le w1 w2 → Q a w1 → Q a w2) → le w w' → wp p w Q → wp p w' Q.
Proof using Type*.
  intros HQ Hw. destruct p as [a| |X e k]; simpl; [by eapply HQ|done|].
  intros [Hp Hk]. split; [by eapply Hpre|]. intros x w'' Hw' Hx. apply Hk; [by trans w'|by eapply Hpost].
Qed.
End wp.
