(* ===== verification/PoaService.v ===== *)
(** * The block production task

    Model of [MainTask] (consensus_module/poa/src/service.rs): the task that decides when
    and at what time to produce a block, asks the producer for it, seals, publishes and
    commits it, and imports the blocks other leaders published.  An operation is a
    program that talks to its ports: the clock, the signer, the producer, the importer,
    the leader lock and the channels.  Between two requests of a program everything else
    in the node may happen. *)

From stdpp Require Import prelude list strings.
From Stdlib Require Import ZArith Lia.
From S2P Require Import Prelude.
From S2P Require Import Programs.
From S2P Require Import StorageTx.
From S2P Require Import Blocks.
From S2P Require Import Importer.
Local Open Scope Z_scope.

(** ** Time *)

Definition NANOS_PER_SEC : Z := 10 ^ 9.
Definition I64_MIN : Z := - 2 ^ 63.
Definition I64_MAX : Z := 2 ^ 63 - 1.

(** Durations and instants are in nanoseconds; the seconds of an instant are 64 signed
    bits. *)
Definition from_secs (secs : Z) : Z := secs * NANOS_PER_SEC.
Definition as_secs (duration : Z) : Z := duration / NANOS_PER_SEC.

Definition checked_instant (i : Z) : option Z :=
  if decide (I64_MIN ≤ i / NANOS_PER_SEC ≤ I64_MAX) then Some i else None.

(** [Instant::elapsed]. *)
Definition duration_since (now earlier : Z) : Z := Z.max 0 (now - earlier).

(** A [Tai64] is a [u64]. *)
Definition increase_time (time duration : Z) : result Z string :=
  let timestamp := time + as_secs duration in
  if decide (timestamp ≤ U64) then Ok timestamp
  else Err "The provided time parameters lead to an overflow".

(** ** The task *)

Inductive Trigger :=
| Instant
| Never
| Interval (block_time : Z)
| Open (period : Z).

Inductive RequestType := Manual | FromTrigger.

Record MainTask := {
  last_height : Z;
  last_timestamp : Z;
  last_block_created : Z;
  trigger : Trigger;
}.

Definition with_last (height timestamp created : Z) (t : MainTask) : MainTask :=
  {| last_height := height; last_timestamp := timestamp; last_block_created := created; trigger := trigger t |}.

(** [succ().expect(..)]. *)
Definition next_height (t : MainTask) : option Z :=
  if decide (last_height t < U32) then Some (last_height t + 1) else None.

(** The period after which to try again. *)
Definition error_retry_delay (t : MainTask) : Z :=
  match trigger t with
  | Interval block_time => block_time
  | Open period => period
  | _ => from_secs 1
  end.

Inductive TaskNextAction :=
| Continue
| StopTask
| ErrorContinue (e : string).

Inductive SyncState := NotSynced | Synced.

Inductive TransactionsSource (Tx : Type) :=
| TxPool
| SpecificTransactions (txs : list Tx).
Arguments TxPool {_}.
Arguments SpecificTransactions {_} _.

Inductive Mode (Tx : Type) :=
| ManualBlocks (number_of_blocks : nat)
| BlockWithTransactions (txs : list Tx).
Arguments ManualBlocks {_} _.
Arguments BlockWithTransactions {_} _.

Record ManualProduction (Tx : Type) := { start_time : option Z; mode : Mode Tx }.
Arguments start_time {_} _.
Arguments mode {_} _.

Inductive LeaderState (Tx Signature : Type) :=
| UnreconciledBlocks (blocks : list (SealedBlock Tx Signature))
| ReconciledLeader
| ReconciledFollower.
Arguments UnreconciledBlocks {_ _} _.
Arguments ReconciledLeader {_ _}.
Arguments ReconciledFollower {_ _}.

(** [UncommittedExecutionResult<Changes>]; of the skipped transactions it only matters
    whether there are any. *)
Record Produced (Tx Status Event : Type) := {
  pr_block : Block Tx;
  pr_skipped : bool;
  pr_tx_status : list Status;
  pr_events : list Event;
  pr_changes : Changes;
}.
Arguments pr_block {_ _ _} _.
Arguments pr_skipped {_ _ _} _.
Arguments pr_tx_status {_ _ _} _.
Arguments pr_events {_ _ _} _.
Arguments pr_changes {_ _ _} _.

(** What ends the wait for the next block: the node stops, a request, or the time to
    produce. *)
Inductive Wakeup (Tx : Type) :=
| Stopped
| Requested (r : option (ManualProduction Tx))
| Deadline (deadline : Z).
Arguments Stopped {_}.
Arguments Requested {_} _.
Arguments Deadline {_} _.

(** When the task wants to produce by itself. *)
Inductive NextProduction :=
| NeverProduce
| OnNewTransactions
| SleepUntilTime (i : Z)
| Immediately (deadline : Z).

(** ** Requests to the ports *)

Inductive Ev (Tx Signature Status Event : Type) : Type → Type :=
| ClockNow : Ev Tx Signature Status Event Z
| InstantNow : Ev Tx Signature Status Event Z
| SignerIsAvailable : Ev Tx Signature Status Event bool
| SealBlock (b : Block Tx) : Ev Tx Signature Status Event (result (Consensus Signature) string)
| ProduceBlock (height time : Z) (source : TransactionsSource Tx) (deadline : Z) :
    Ev Tx Signature Status Event (result (Produced Tx Status Event) string)
| ProducePredefined (b : Block Tx) : Ev Tx Signature Status Event (result (Produced Tx Status Event) string)
| SerializeSkipped : Ev Tx Signature Status Event (result unit string)
| SleepUntil (deadline : Z) : Ev Tx Signature Status Event unit
| Sleep (duration : Z) : Ev Tx Signature Status Event unit
| PublishProducedBlock (b : SealedBlock Tx Signature) : Ev Tx Signature Status Event (result unit string)
| CommitBlock (r : UncommittedResult Tx Signature Status Event) : Ev Tx Signature Status Event (result unit string)
| ExecuteAndCommit (b : SealedBlock Tx Signature) : Ev Tx Signature Status Event (result unit string)
| LatestBlockHeader : Ev Tx Signature Status Event (result (option BlockHeader) string)
| LeaderStateAt (next_height : Z) : Ev Tx Signature Status Event (result (LeaderState Tx Signature) string)
| Release : Ev Tx Signature Status Event (result unit string)
| GetPredefinedBlock (height : Z) : Ev Tx Signature Status Event (result (option (Block Tx)) string)
| ReconciliationWatermarkMax (height : Z) : Ev Tx Signature Status Event unit
| WaitForReadySignal : Ev Tx Signature Status Event bool
| BorrowSyncState : Ev Tx Signature Status Event SyncState
| SyncStateChanged : Ev Tx Signature Status Event (option (result bool string))
| WaitForWork (next : NextProduction) : Ev Tx Signature Status Event (Wakeup Tx)
| Respond (r : result unit string) : Ev Tx Signature Status Event unit
| StartSyncTask : Ev Tx Signature Status Event (result unit string)
| StopSyncTask : Ev Tx Signature Status Event (result unit string).
Arguments ClockNow {_ _ _ _}.
Arguments InstantNow {_ _ _ _}.
Arguments SignerIsAvailable {_ _ _ _}.
Arguments SealBlock {_ _ _ _} _.
Arguments ProduceBlock {_ _ _ _} _ _ _ _.
Arguments ProducePredefined {_ _ _ _} _.
Arguments SerializeSkipped {_ _ _ _}.
Arguments SleepUntil {_ _ _ _} _.
Arguments Sleep {_ _ _ _} _.
Arguments PublishProducedBlock {_ _ _ _} _.
Arguments CommitBlock {_ _ _ _} _.
Arguments ExecuteAndCommit {_ _ _ _} _.
Arguments LatestBlockHeader {_ _ _ _}.
Arguments LeaderStateAt {_ _ _ _} _.
Arguments Release {_ _ _ _}.
Arguments GetPredefinedBlock {_ _ _ _} _.
Arguments ReconciliationWatermarkMax {_ _ _ _} _.
Arguments WaitForReadySignal {_ _ _ _}.
Arguments BorrowSyncState {_ _ _ _}.
Arguments SyncStateChanged {_ _ _ _}.
Arguments WaitForWork {_ _ _ _} _.
Arguments Respond {_ _ _ _} _.
Arguments StartSyncTask {_ _ _ _}.
Arguments StopSyncTask {_ _ _ _}.

Section task.
Context {Tx Signature Status Event : Type}.
Abbreviation P := (Prog (Ev Tx Signature Status Event)).
Implicit Types t : MainTask.

(** An operation on [&mut self] that may fail: the task and the result; [?] returns the
    error with the task as it is. *)
Definition M (A : Type) : Type := MainTask → P (MainTask * result A string).

Definition ok {A} (a : A) : M A := λ t, Ret (t, Ok a).
Definition fail {A} (e : string) : M A := λ t, Ret (t, Err e).
Definition get_task : M MainTask := λ t, Ret (t, Ok t).
Definition set_task (t : MainTask) : M unit := λ _, Ret (t, Ok ()).
Definition lift {A} (p : P A) : M A := λ t, a ← p; Ret (t, Ok a).
Definition tried {A} (p : P (result A string)) : M A := λ t, r ← p; Ret (t, r).
Definition pure_result {A} (r : result A string) : M A := λ t, Ret (t, r).

Definition m_bind {A B} (m : M A) (f : A → M B) : M B := λ t,
  '(t, r) ← m t;
  match r with Ok a => f a t | Err e => Ret (t, Err e) end.

(** The result of an operation as a value: errors do not return. *)
Definition catch {A} (m : M A) : M (result A string) := λ t, '(t, r) ← m t; Ret (t, Ok r).

Notation "'let*' x := m 'in' k" := (m_bind m (λ x, k)) (at level 200, x binder, m at level 100, k at level 200).

Definition extract_block_info (now : Z) (last_block : BlockHeader) : P (Z * Z * Z) :=
  let last_timestamp := time (consensus last_block) in
  let duration_since_last_block := from_secs (sat_sub now last_timestamp) in
  now_1 ← request InstantNow;
  now_2 ← request InstantNow;
  let last_block_created := default now_2 (checked_instant (now_1 - duration_since_last_block)) in
  Ret (height (consensus last_block), last_timestamp, last_block_created).

(** [MainTask::new]. *)
Definition MainTask_new (last_block : BlockHeader) (tr : Trigger) : P MainTask :=
  now ← request ClockNow;
  '(last_height, last_timestamp, last_block_created) ← extract_block_info now last_block;
  Ret {| last_height := last_height; last_timestamp := last_timestamp;
         last_block_created := last_block_created; trigger := tr |}.

Definition next_height_or_panic : M Z := λ t,
  match next_height t with Some h => Ret (t, Ok h) | None => Panic end.

Definition next_time_manual : M Z :=
  let* t := get_task in
  match trigger t with
  | Never | Instant =>
      let* now := lift (request InstantNow) in
      pure_result (increase_time (last_timestamp t) (duration_since now (last_block_created t)))
  | Interval block_time => pure_result (increase_time (last_timestamp t) block_time)
  | Open period => pure_result (increase_time (last_timestamp t) period)
  end.

Definition next_time (r : RequestType) : M Z :=
  match r with
  | Manual => next_time_manual
  | FromTrigger =>
      let* now := lift (request ClockNow) in
      let* t := get_task in
      match trigger t with
      | Open period =>
          let* expected_timestamp := pure_result (increase_time (last_timestamp t) period) in
          if decide (expected_timestamp < now) then ok now else ok expected_timestamp
      | _ => if decide (last_timestamp t < now) then ok now else next_time_manual
      end
  end.

Definition update_last_block_values (block_header : BlockHeader) : M unit :=
  let* now := lift (request ClockNow) in
  let* info := lift (extract_block_info now block_header) in
  let '(height, timestamp, created) := info in
  let* t := get_task in
  if decide (last_height t < height) then set_task (with_last height timestamp created t) else ok ().

Definition sync_last_height_from_db : M unit :=
  let* r := lift (request LatestBlockHeader) in
  match r with
  | Ok (Some db_header) => update_last_block_values db_header
  | _ => ok ()
  end.

(** The timeout of the production is part of the request. *)
Definition signal_produce_block (h block_time : Z) (source : TransactionsSource Tx) (deadline : Z) :
    M (Produced Tx Status Event) :=
  let* result := tried (request (ProduceBlock h block_time source deadline)) in
  let* _ := lift (request (SleepUntil deadline)) in
  ok result.

Definition new_from_local (b : SealedBlock Tx Signature) (r : Produced Tx Status Event) :
    UncommittedResult Tx Signature Status Event :=
  {| result_of := {| sealed_block := b; tx_status := pr_tx_status r; events := pr_events r; source := Local |};
     changes_of := pr_changes r |}.

Definition produce_block (h block_time : Z) (source : TransactionsSource Tx) (deadline : Z) : M unit :=
  let* created := lift (request InstantNow) in
  let* available := lift (request SignerIsAvailable) in
  if negb available then fail "unable to produce blocks without a consensus key" else
  let* t := get_task in
  if decide (block_time < last_timestamp t)
  then fail "The block timestamp should monotonically increase" else
  let* r := signal_produce_block h block_time source deadline in
  let* seal := tried (request (SealBlock (pr_block r))) in
  let block := {| entity := pr_block r; seal := seal |} in
  let* _ := tried (request (PublishProducedBlock block)) in
  let* _ := tried (request (CommitBlock (new_from_local block r))) in
  let* t := get_task in
  set_task (with_last h block_time
    (match trigger t with Open _ => Z.max deadline created | _ => created end) t).

Definition produce_next_block (deadline : Z) : M unit :=
  let* h := next_height_or_panic in
  let* block_time := next_time FromTrigger in
  produce_block h block_time TxPool deadline.

Fixpoint produce_blocks (number_of_blocks : nat) (block_time : Z) : M unit :=
  match number_of_blocks with
  | O => ok ()
  | S n =>
      let* h := next_height_or_panic in
      let* now := lift (request InstantNow) in
      let* _ := produce_block h block_time TxPool now in
      let* block_time := next_time Manual in
      produce_blocks n block_time
  end.

Definition produce_manual_blocks (block_production : ManualProduction Tx) : M unit :=
  let* t := get_task in
  match trigger t with
  | Open _ => fail "Manual block production is not allowed with trigger `Open`"
  | _ =>
      let* _ := sync_last_height_from_db in
      let* block_time := match start_time block_production with
                         | Some time => ok time
                         | None => next_time Manual
                         end in
      match mode block_production with
      | ManualBlocks number_of_blocks => produce_blocks number_of_blocks block_time
      | BlockWithTransactions txs =>
          let* h := next_height_or_panic in
          let* now := lift (request InstantNow) in
          produce_block h block_time (SpecificTransactions txs) now
      end
  end.

Definition produce_predefined_block (predefined_block : Block Tx) : M unit :=
  let* created := lift (request InstantNow) in
  let* available := lift (request SignerIsAvailable) in
  if negb available then fail "unable to produce blocks without a signer" else
  let* r := tried (request (ProducePredefined predefined_block)) in
  let* _ := if pr_skipped r then tried (request SerializeSkipped) else ok () in
  let* seal := tried (request (SealBlock (pr_block r))) in
  let block := {| entity := pr_block r; seal := seal |} in
  let* _ := tried (request (PublishProducedBlock block)) in
  let* _ := tried (request (CommitBlock (new_from_local block r))) in
  let* t := get_task in
  set_task (with_last (height (consensus (header (entity block)))) (time (consensus (header (entity block))))
    created t).

(** ** The loop of the task *)

(** An early return of the action, or going on. *)
Definition ensure_synced : M (option TaskNextAction) :=
  let* s := lift (request BorrowSyncState) in
  let* stop := match s with
               | NotSynced => lift (request SyncStateChanged)
               | Synced => ok None
               end in
  match stop with
  | Some (Ok true) => ok (Some Continue)
  | Some (Ok false) => ok (Some StopTask)
  | Some (Err e) => ok (Some (ErrorContinue e))
  | None =>
      let* s := lift (request BorrowSyncState) in
      let* _ := match s with Synced => sync_last_height_from_db | NotSynced => ok () end in
      ok None
  end.

Definition maybe_produce_predefined_block : M (option TaskNextAction) :=
  let* h := next_height_or_panic in
  let* r := lift (request (GetPredefinedBlock h)) in
  match r with
  | Err e => ok (Some (ErrorContinue e))
  | Ok None => ok None
  | Ok (Some block) =>
      let* res := catch (produce_predefined_block block) in
      ok (Some (match res with Ok _ => Continue | Err e => ErrorContinue e end))
  end.

Definition handle_requested_production (r : option (ManualProduction Tx)) : M TaskNextAction :=
  match r with
  | Some block =>
      let* result := catch (produce_manual_blocks block) in
      let* _ := lift (request (Respond result)) in
      ok Continue
  | None => ok StopTask
  end.

Definition handle_normal_block_production (deadline : Z) : M TaskNextAction :=
  let* r := catch (produce_next_block deadline) in
  match r with
  | Ok _ => ok Continue
  | Err e =>
      let* _ := lift (request Release) in
      let* t := get_task in
      let* _ := lift (request (Sleep (error_retry_delay t))) in
      ok (ErrorContinue e)
  end.

(** The import of the blocks other leaders published. *)
Fixpoint reconcile (blocks : list (SealedBlock Tx Signature)) : M unit :=
  match blocks with
  | [] => ok ()
  | block :: blocks =>
      let* _ := sync_last_height_from_db in
      let block_height := height (consensus (header (entity block))) in
      let block_time := time (consensus (header (entity block))) in
      let* t := get_task in
      if decide (block_height ≤ last_height t) then reconcile blocks
      else
        let* _ := lift (request (ReconciliationWatermarkMax block_height)) in
        let* r := lift (request (ExecuteAndCommit block)) in
        match r with
        | Ok _ =>
            let* t := get_task in
            let* _ := set_task (with_last block_height block_time (last_block_created t) t) in
            reconcile blocks
        | Err _ =>
            let* _ := sync_last_height_from_db in
            let* t := get_task in
            if decide (block_height ≤ last_height t) then reconcile blocks else ok ()
        end
  end.

Definition max_height (blocks : list (SealedBlock Tx Signature)) : option Z :=
  foldr (λ b o, let h := height (consensus (header (entity b))) in
                Some (match o with Some x => Z.max h x | None => h end)) None blocks.

Definition try_to_produce_block (deadline : Z) : M TaskNextAction :=
  let* _ := sync_last_height_from_db in
  let* h := next_height_or_panic in
  let* leader := tried (request (LeaderStateAt h)) in
  match leader with
  | ReconciledFollower =>
      let* t := get_task in
      let* _ := lift (request (Sleep (error_retry_delay t))) in
      ok Continue
  | ReconciledLeader => handle_normal_block_production deadline
  | UnreconciledBlocks blocks =>
      let* _ := reconcile blocks in
      let* t := get_task in
      let* _ := match max_height blocks with
                | Some h => if decide (last_height t < h)
                            then lift (request (Sleep (error_retry_delay t))) else ok ()
                | None => ok ()
                end in
      ok Continue
  end.

Definition next_block_production : M NextProduction :=
  let* t := get_task in
  match trigger t with
  | Never => ok NeverProduce
  | Instant => ok OnNewTransactions
  | Interval block_time =>
      match checked_instant (last_block_created t + block_time) with
      | Some next_block_time => ok (SleepUntilTime next_block_time)
      | None => fail "Time exceeds system limits"
      end
  | Open period =>
      match checked_instant (last_block_created t + period) with
      | Some deadline => ok (Immediately deadline)
      | None => fail "Time exceeds system limits"
      end
  end.

(** [RunnableTask::run]: what to do next. *)
Definition run : M TaskNextAction :=
  let* ready := lift (request WaitForReadySignal) in
  if negb ready then ok StopTask else
  let* action := ensure_synced in
  match action with
  | Some action => ok action
  | None =>
      let* action := maybe_produce_predefined_block in
      match action with
      | Some action => ok action
      | None =>
          let* next := catch next_block_production in
          match next with
          | Err e => ok (ErrorContinue e)
          | Ok next =>
              let* wakeup := lift (request (WaitForWork next)) in
              match wakeup with
              | Stopped => ok StopTask
              | Requested r => handle_requested_production r
              | Deadline deadline =>
                  let* r := catch (try_to_produce_block deadline) in
                  ok (match r with Ok action => action | Err e => ErrorContinue e end)
              end
          end
      end
  end.

(** [RunnableService::into_task]. *)
Definition into_task : M unit :=
  let* _ := tried (request StartSyncTask) in
  let* t := get_task in
  match trigger t with
  | Never | Instant => ok ()
  | Interval _ | Open _ =>
      let* now := lift (request InstantNow) in
      set_task (with_last (last_height t) (last_timestamp t) now t)
  end.

(** The task from its creation to the end of its first run; a task that cannot be started
    panics. *)
Definition start (last_block : BlockHeader) (tr : Trigger) : P (MainTask * result TaskNextAction string) :=
  t ← MainTask_new last_block tr;
  '(t, r) ← into_task t;
  match r with Ok _ => run t | Err _ => Panic end.

Definition shutdown : M unit :=
  let* _ := lift (request Release) in
  tried (request StopSyncTask).
End task.
