(* ===== verification/PoaWp.v ===== *)
(** * Reasoning about the production task

    Weakest preconditions for the operations of [MainTask] in any world that grows, with
    any promises of its ports, and the operations that keep an invariant of the task and
    the world.  What is left to show for an invariant is that the requests for blocks
    keep it. *)

From stdpp Require Import prelude list strings gmap.
From Stdlib Require Import ZArith Lia.
From S2P Require Import Prelude.
From S2P Require Import StorageTx.
From S2P Require Import Blocks.
From S2P Require Import Tables.
From S2P Require Import BlockStore.
From S2P Require Import ChainFacts.
From S2P Require Import Verifier.
From S2P Require Import Importer.
From S2P Require Import ImporterInv.
From S2P Require Import Programs.
From S2P Require Import PoaService.
Local Open Scope Z_scope.

Create HintDb poa.

Section wpm.
Context {Tx Signature Status Event : Type}.
Abbreviation EvT := (Ev Tx Signature Status Event).
Context {W : Type} (le : W → W → Prop) `{!PreOrder le}.
Context (pre : ∀ X, EvT X → W → Prop) (post : ∀ X, EvT X → W → X → Prop).
Implicit Types (t : MainTask) (w : W).

Abbreviation wp_task := (wp le pre (λ X e _, post X e)).

Definition wpm {A} (m : M A) t w (Q : result A string → MainTask → W → Prop) : Prop :=
  wp_task (m t) w (λ '(t', r) w', Q r t' w').

Lemma wpm_bind {A B} (m : M A) (f : A → M B) t w (Q : result B string → MainTask → W → Prop) :
  wpm m t w (λ r t' w', match r with Ok a => wpm (f a) t' w' Q | Err e => Q (Err e) t' w' end) →
  wpm (m_bind m f) t w Q.
Proof using Type*.
  intros Hm. unfold wpm, m_bind. apply wp_bind. eapply wp_mono; [apply _| |exact Hm].
  intros [t' [a|e]] w' _ Hr; [exact Hr|exact Hr].
Qed.

Lemma wpm_mono {A} (m : M A) t w (Q R : result A string → MainTask → W → Prop) :
  (∀ r t' w', le w w' → Q r t' w' → R r t' w') → wpm m t w Q → wpm m t w R.
Proof using Type*. intros HQ. apply wp_mono; [apply _|]. intros [t' r]. apply HQ. Qed.

Lemma wpm_lift {X} (e : EvT X) t w (Q : result X string → MainTask → W → Prop) :
  pre X e w → (∀ x w', le w w' → post X e w' x → Q (Ok x) t w') → wpm (lift (request e)) t w Q.
Proof using Type. intros Hp HQ. split; [done|]. intros x w' Hb Hx. by apply HQ. Qed.

Lemma wpm_tried {X} (e : EvT (result X string)) t w (Q : result X string → MainTask → W → Prop) :
  pre _ e w → (∀ x w', le w w' → post _ e w' x → Q x t w') → wpm (tried (request e)) t w Q.
Proof using Type. intros Hp HQ. split; [done|]. intros x w' Hb Hx. by apply HQ. Qed.

Lemma wpm_lift_prog {A} (q : Prog EvT A) t w (Q : result A string → MainTask → W → Prop) :
  wp_task q w (λ a w', Q (Ok a) t w') → wpm (lift q) t w Q.
Proof using Type. intros Hq. unfold wpm, lift. apply wp_bind. exact Hq. Qed.

Lemma wpm_get t w (Q : result MainTask string → MainTask → W → Prop) : Q (Ok t) t w → wpm get_task t w Q.
Proof using Type. done. Qed.

Lemma wpm_set t t' w (Q : result unit string → MainTask → W → Prop) : Q (Ok ()) t' w → wpm (set_task t') t w Q.
Proof using Type. done. Qed.

Lemma wpm_ok {A} (a : A) t w (Q : result A string → MainTask → W → Prop) : Q (Ok a) t w → wpm (ok a) t w Q.
Proof using Type. done. Qed.

Lemma next_height_ok t w (Q : result Z string → MainTask → W → Prop) :
  Q (Ok (last_height t + 1)) t w → wpm next_height_or_panic t w Q.
Proof using Type. intros HQ. unfold wpm, next_height_or_panic, next_height. by case_decide. Qed.

(** ** Operations that leave the task alone *)

Definition reads {A} (m : M A) : Prop :=
  ∀ t w, wpm m t w (λ _ t' w', t' = t ∧ le w w').

Lemma reads_bind {A B} (m : M A) (f : A → M B) : reads m → (∀ a, reads (f a)) → reads (m_bind m f).
Proof using Type*.
  intros Hm Hf t w. apply wpm_bind. eapply wpm_mono; [|apply Hm]. intros [a|e] t' w' _ [-> Hb]; [|done].
  eapply wpm_mono; [|apply Hf]. intros r t' w'' _ [-> Hb']. split; [done|by trans w'].
Qed.

Lemma reads_lift {X} (e : EvT X) : (∀ w, pre X e w) → reads (lift (request e)).
Proof using Type. intros Hp t w. by apply wpm_lift. Qed.

Lemma reads_ret {A} (m : M A) : (∀ t, ∃ r, m t = Ret (t, r)) → reads m.
Proof using Type*. intros Hm t w. unfold wpm. destruct (Hm t) as [r ->]. by split. Qed.

(** Requests that promise nothing to the ports. *)
Definition quiet {X} (e : EvT X) : Prop :=
  match e with CommitBlock _ | ExecuteAndCommit _ => False | _ => True end.

Context (Hpre : ∀ X (e : EvT X) w, quiet e → pre X e w).

Lemma next_time_manual_reads : reads next_time_manual.
Proof using Type*.
  apply reads_bind; [by apply reads_ret; eauto|]. intros t. destruct (trigger t).
  3,4: by apply reads_ret; eauto.
  all: apply reads_bind; [by apply reads_lift; intros; apply Hpre|]; intros now; by apply reads_ret; eauto.
Qed.

Lemma next_time_reads r : reads (next_time r).
Proof using Type*.
  destruct r; [apply next_time_manual_reads|].
  apply reads_bind; [by apply reads_lift; intros; apply Hpre|]. intros now.
  apply reads_bind; [by apply reads_ret; eauto|]. intros t.
  destruct (trigger t).
  1,2,3: case_decide; [by apply reads_ret; eauto|apply next_time_manual_reads].
  apply reads_bind; [by apply reads_ret; eauto|]. intros e. case_decide; by apply reads_ret; eauto.
Qed.

Lemma extract_block_info_ok now hd w :
  wp_task (extract_block_info now hd) w (λ x w', le w w' ∧
    ∃ created, x = (height (consensus hd), time (consensus hd), created)).
Proof using Type*.
  split; [by apply Hpre|]. intros x w1 Hx _. split; [by apply Hpre|]. intros y w2 Hy _.
  split; [by trans w1|by eauto].
Qed.

(** ** Operations that keep an invariant *)

Context (inv : MainTask → W → Prop) (inv_mono : ∀ t w w', le w w' → inv t w → inv t w').

Definition keeps {A} (m : M A) : Prop :=
  ∀ t w, inv t w → wpm m t w (λ _ t' w', inv t' w').

Lemma keeps_bind {A B} (m : M A) (f : A → M B) : keeps m → (∀ a, keeps (f a)) → keeps (m_bind m f).
Proof using Type*.
  intros Hm Hf t w Ht. apply wpm_bind. eapply wpm_mono; [|by apply Hm].
  intros [a|e] t' w' _ Ht'; [by apply Hf|done].
Qed.

Lemma keeps_lift {X} (e : EvT X) : quiet e → keeps (lift (request e)).
Proof using Type*. intros Hp t w Ht. apply wpm_lift; [by apply Hpre|]. intros x w' Hb _. by eapply inv_mono. Qed.

Lemma keeps_tried {X} (e : EvT (result X string)) : quiet e → keeps (tried (request e)).
Proof using Type*. intros Hp t w Ht. apply wpm_tried; [by apply Hpre|]. intros x w' Hb _. by eapply inv_mono. Qed.

Lemma keeps_ok {A} (a : A) : keeps (ok a).
Proof using Type. by intros t w Ht. Qed.

Lemma keeps_fail {A} (e : string) : keeps (fail (A := A) e).
Proof using Type. by intros t w Ht. Qed.

Lemma keeps_result {A} (r : result A string) : keeps (pure_result r).
Proof using Type. by intros t w Ht. Qed.

Lemma keeps_get : keeps get_task.
Proof using Type. by intros t w Ht. Qed.

Lemma keeps_catch {A} (m : M A) : keeps m → keeps (catch m).
Proof using Type*.
  intros Hm t w Ht. unfold wpm, catch. apply wp_bind. eapply wp_mono; [apply _| |by apply Hm].
  by intros [t' r] w' _ Ht'.
Qed.

Lemma reads_keeps {A} (m : M A) : reads m → keeps m.
Proof using Type*.
  intros Hm t w Ht. eapply wpm_mono; [|apply Hm]. intros r t' w' _ [-> Hb]. by eapply inv_mono.
Qed.

Lemma next_height_keeps : keeps next_height_or_panic.
Proof using Type. intros t w Ht. by apply next_height_ok. Qed.

(** ** The operations of the task *)

(** What the ports have to give: blocks for the next height, predefined blocks, the
    blocks of other leaders and the last block of the database. *)
Context (sync_last_height_keeps : keeps sync_last_height_from_db).
Context (produce_block_keeps : ∀ t w block_time src deadline, inv t w →
  wpm (produce_block (last_height t + 1) block_time src deadline) t w (λ _ t' w', inv t' w')).
Context (maybe_predefined_keeps : keeps maybe_produce_predefined_block).

(** Production for the next height, after operations that leave the task alone. *)
Lemma produce_at_next_keeps {A} (m : M A) (block_time : A → Z) src (deadline : A → Z) :
  reads m →
  keeps (m_bind next_height_or_panic (λ h, m_bind m (λ a, produce_block h (block_time a) src (deadline a)))).
Proof using Type*.
  intros Hm t w Ht. apply wpm_bind, next_height_ok, wpm_bind. eapply wpm_mono; [|apply Hm].
  intros [a|e] t' w' _ [-> Hb]; [apply produce_block_keeps|]; by eapply inv_mono.
Qed.

Lemma produce_next_block_keeps deadline : keeps (produce_next_block deadline).
Proof using Type*. apply (produce_at_next_keeps _ id TxPool (λ _, deadline)), next_time_reads. Qed.

Lemma produce_blocks_keeps n block_time : keeps (produce_blocks n block_time).
Proof using Type*.
  revert block_time. induction n as [|n IH]; intros block_time; [by apply keeps_ok|].
  intros t w Ht. apply wpm_bind, next_height_ok, wpm_bind, wpm_lift; [by apply Hpre|]. intros now w1 H1 _.
  apply wpm_bind. eapply wpm_mono; [|apply produce_block_keeps; by eapply inv_mono].
  intros [[]|e] t2 w2 _ Ht2; [|done]. revert Ht2. apply (keeps_bind (next_time Manual)); [|done].
  apply reads_keeps, next_time_reads.
Qed.

Hint Resolve keeps_ok keeps_fail keeps_result keeps_get sync_last_height_keeps produce_next_block_keeps
  produce_blocks_keeps next_height_keeps maybe_predefined_keeps : poa.

(** Operations that keep the invariant are built from ones that do. *)
Ltac keep :=
  repeat first
    [ solve [auto with poa]
    | apply keeps_lift; done
    | apply keeps_tried; done
    | apply keeps_catch
    | apply keeps_bind; [|intros ?]
    | apply reads_keeps, next_time_reads
    | case_decide
    | case_match ].

Lemma produce_manual_blocks_keeps r : keeps (produce_manual_blocks r).
Proof using Type*.
  assert (∀ bt txs, keeps (m_bind next_height_or_panic (λ h, m_bind (lift (request InstantNow)) (λ now,
    produce_block h bt (SpecificTransactions txs) now)))) as Hone.
  { intros bt txs. apply (produce_at_next_keeps _ (λ _, bt) _ id). apply reads_lift. intros. by apply Hpre. }
  unfold produce_manual_blocks. keep; apply Hone.
Qed.

Lemma handle_normal_keeps deadline : keeps (handle_normal_block_production deadline).
Proof using Type*. unfold handle_normal_block_production. keep. Qed.

Lemma into_task_keeps :
  (∀ t w created, inv t w → inv (with_last (last_height t) (last_timestamp t) created t) w) → keeps into_task.
Proof using Type*.
  intros Hcreated. apply keeps_bind; [by apply keeps_tried|]. intros _ t w Ht. apply wpm_bind, wpm_get.
  destruct (trigger t); [by apply wpm_ok..| |].
  all: apply wpm_bind, wpm_lift; [by apply Hpre|]; intros now w1 H1 _; apply wpm_set, Hcreated.
  all: by eapply inv_mono.
Qed.

(** ** The loop *)

Context (try_to_produce_block_keeps : ∀ deadline, keeps (try_to_produce_block deadline)).
Hint Resolve produce_manual_blocks_keeps try_to_produce_block_keeps : poa.

Lemma run_keeps : keeps run.
Proof using Type*. unfold run, ensure_synced, next_block_production, handle_requested_production. keep. Qed.

(** The task from its start to the end of its first run. *)
Lemma start_keeps hd tr w :
  (∀ t w created, inv t w → inv (with_last (last_height t) (last_timestamp t) created t) w) →
  (∀ created w', le w w' → inv {| last_height := height (consensus hd); last_timestamp := time (consensus hd);
    last_block_created := created; trigger := tr |} w') →
  wp_task (start hd tr) w (λ '(t', r) w', inv t' w').
Proof using Type*.
  intros Hcreated Hinv. apply wp_bind. split; [by apply Hpre|]. intros now w1 H1 _. apply wp_bind.
  eapply wp_mono; [apply _| |apply extract_block_info_ok]. intros x w2 _ [H2 [created ->]].
  refine (wp_bind le pre _ (into_task _) _ w2 _ _). eapply wp_mono; [apply _| |apply into_task_keeps; [done|]].
  - intros [t [[]|e]] w3 _ Ht; [by apply run_keeps|done].
  - apply Hinv. by trans w1.
Qed.
End wpm.

(** * What the block production task promises

    A weakest precondition for programs that run while the chain grows, and the proof that
    the production task only commits blocks that extend the chain: the time it checks
    is that of the parent, because its last block is always one of the chain. *)

(** ** The task *)

Section task.
Context {Tx Signature Status Event : Type} `{!ChainCrypto Tx Signature} `{!MerkleTree}.
Context (state_keys : Z → Key → Prop) (g : Z).
Context (predefined : Z → result (option (Block Tx)) string).
Abbreviation SB := (SealedBlock Tx Signature).
Abbreviation EvT := (Ev Tx Signature Status Event).
Implicit Types (b : SB) (bs : list SB) (t : MainTask).

(** A block with the time and the DA height of a predefined block. *)
Definition of_predefined (b : Block Tx) : Prop :=
  ∃ h pb, predefined h = Ok (Some pb) ∧ time (consensus (header b)) = time (consensus (header pb)) ∧
    da_height (application (header b)) = da_height (application (header pb)).

(** A block that extends the chain if it comes next; nothing compares a predefined block
    with its parent, so that it only continues the chain. *)
Definition links bs b : Prop :=
  ∀ bs', bs `prefix_of` bs' → height_of b = latest g bs' + 1 →
    extends g bs' (entity b) ∨ continues g bs' (entity b) ∧ of_predefined (entity b).

Lemma links_mono bs bs' b : bs `prefix_of` bs' → links bs b → links bs' b.
Proof. intros Hp Hl bs'' Hp'. apply Hl. by trans bs'. Qed.

Definition committed bs b : Prop := chain_at g bs (height_of b) = Some b.

Lemma chain_at_mono bs bs' h b : bs `prefix_of` bs' → chain_at g bs h = Some b → chain_at g bs' h = Some b.
Proof. intros Hp. unfold chain_at. case_decide; [|done]. intros Hb. by eapply prefix_lookup_Some. Qed.

(** A block produced on the chain [bs1], which was the chain at some time. *)
Record produced_on bs1 (r : Produced Tx Status Event) : Prop := {
  po_next : height (consensus (header (pr_block r))) = latest g bs1 + 1;
  po_parent : is_Some (chain_at g bs1 (latest g bs1));
  po_root : prev_root (consensus (header (pr_block r))) = root_at g bs1 (latest g bs1);
  po_sealed : header_sealed (header (pr_block r));
  po_transactions : validate_transactions (header (pr_block r)) (transactions (pr_block r)) = true;
  po_changes : within state_keys (pr_changes r);
}.

(** The DA height is not below that of the block before. *)
Definition da_follows bs1 (r : Produced Tx Status Event) : Prop :=
  ∀ parent, chain_at g bs1 (latest g bs1) = Some parent →
    da_height (application (header (entity parent))) ≤ da_height (application (header (pr_block r))).

Definition pre (X : Type) (e : EvT X) bs : Prop :=
  match e with
  | CommitBlock r => result_ok state_keys links bs r
  | _ => True
  end.

Definition post (X : Type) (e : EvT X) bs : X → Prop :=
  match e in Ev _ _ _ _ X return X → Prop with
  | LatestBlockHeader => λ x,
      match x with
      | Ok (Some hd) => ∃ b, chain_at g bs (height (consensus hd)) = Some b ∧
          time (consensus (header (entity b))) = time (consensus hd)
      | _ => True
      end
  | ProduceBlock h block_time _ _ => λ x,
      match x with
      | Ok r => height (consensus (header (pr_block r))) = h ∧ time (consensus (header (pr_block r))) = block_time ∧
          ∃ bs1, bs1 `prefix_of` bs ∧ produced_on bs1 r ∧ da_follows bs1 r
      | Err _ => True
      end
  | ProducePredefined b => λ x,
      match x with
      | Ok r => time (consensus (header (pr_block r))) = time (consensus (header b)) ∧
          da_height (application (header (pr_block r))) = da_height (application (header b)) ∧
          ∃ bs1, bs1 `prefix_of` bs ∧ produced_on bs1 r
      | Err _ => True
      end
  | CommitBlock r => λ x, x = Ok () → committed bs (sealed_block (result_of r))
  | ExecuteAndCommit b => λ x, x = Ok () → committed bs b
  | GetPredefinedBlock h => λ x, x = predefined h
  | _ => λ _, True
  end.

(** The last block of the task is one of the chain. *)
Definition task_ok t bs : Prop :=
  ∃ b, chain_at g bs (last_height t) = Some b ∧ time (consensus (header (entity b))) = last_timestamp t.

Lemma task_ok_mono t bs bs' : bs `prefix_of` bs' → task_ok t bs → task_ok t bs'.
Proof. intros Hp (b & Hb & ?). exists b. split; [by eapply chain_at_mono|done]. Qed.

Lemma pre_mono X (e : EvT X) bs bs' : bs `prefix_of` bs' → pre X e bs → pre X e bs'.
Proof. intros Hp. destruct e; try done. intros (? & ? & ?). split_and!; [done..|by eapply links_mono]. Qed.

(** A block produced on the chain before can only come next on that chain. *)
Lemma produced_next bs bs1 bs' r (seal : Consensus Signature) :
  bs1 `prefix_of` bs → bs `prefix_of` bs' → produced_on bs1 r →
  height_of {| entity := pr_block r; seal := seal |} = latest g bs' + 1 → bs' = bs1.
Proof.
  intros Hp Hp' Hpo Hnext. unfold height_of in Hnext. simpl in *. pose proof (po_next _ _ Hpo).
  assert (length bs' = length bs1) as Hlen by (unfold latest in *; lia).
  assert (bs1 `prefix_of` bs') as [l ->] by (by trans bs). rewrite length_app in Hlen.
  destruct l; [by rewrite app_nil_r|simpl in Hlen; lia].
Qed.

Lemma produced_continues bs1 r : produced_on bs1 r → continues g bs1 (pr_block r).
Proof.
  intros [Hn Hpar Hr [Hs _] Htx _]. split; rewrite ?Hn; replace (latest g bs1 + 1 - 1) with (latest g bs1) by lia; done.
Qed.

(** A block produced on the chain before whose parent is not later extends the chain. *)
Lemma produced_links bs bs1 r parent seal :
  bs1 `prefix_of` bs → produced_on bs1 r → da_follows bs1 r →
  chain_at g bs (height (consensus (header (pr_block r))) - 1) = Some parent →
  time (consensus (header (entity parent))) ≤ time (consensus (header (pr_block r))) →
  links bs {| entity := pr_block r; seal := seal |}.
Proof.
  intros Hp Hpo Hda Hpar Hle bs' Hp' Hnext. rewrite (produced_next _ _ _ _ _ Hp Hp' Hpo Hnext). left. simpl.
  pose proof (produced_continues _ _ Hpo) as [[par Hpar1] ???]. split; [|done..]. exists parent.
  assert (chain_at g bs1 (latest g bs1) = Some parent) as Hpar2.
  { rewrite (po_next _ _ Hpo) in Hpar, Hpar1. replace (_ + 1 - 1) with (latest g bs1) in * by lia.
    rewrite (chain_at_mono _ _ _ _ Hp Hpar1) in Hpar. by simplify_eq. }
  rewrite (po_next _ _ Hpo). replace (_ + 1 - 1) with (latest g bs1) by lia. split_and!; [done|by apply Hda|done].
Qed.

Lemma predefined_links bs bs1 r h pb seal :
  bs1 `prefix_of` bs → produced_on bs1 r → predefined h = Ok (Some pb) →
  time (consensus (header (pr_block r))) = time (consensus (header pb)) →
  da_height (application (header (pr_block r))) = da_height (application (header pb)) →
  links bs {| entity := pr_block r; seal := seal |}.
Proof.
  intros Hp Hpo Hpre Ht Hd bs' Hp' Hnext. rewrite (produced_next _ _ _ _ _ Hp Hp' Hpo Hnext). right.
  split; [by apply produced_continues|by exists h, pb].
Qed.

(** ** Operations *)

Lemma pre_quiet X (e : EvT X) bs : quiet e → pre X e bs.
Proof. by destruct e. Qed.

Abbreviation wpm := (PoaWp.wpm prefix pre post).
Abbreviation keeps := (PoaWp.keeps prefix pre post task_ok).
Abbreviation wpm_bind := (PoaWp.wpm_bind prefix pre post).
Abbreviation keeps_bind := (PoaWp.keeps_bind prefix pre post pre_quiet task_ok task_ok_mono).
Abbreviation extract_block_info_ok := (PoaWp.extract_block_info_ok prefix pre post pre_quiet).
Abbreviation keeps_lift := (PoaWp.keeps_lift prefix pre post pre_quiet task_ok task_ok_mono).

(** Taking over a block of the chain. *)
Lemma update_last_keeps hd t bs b :
  task_ok t bs → chain_at g bs (height (consensus hd)) = Some b → time (consensus (header (entity b))) = time (consensus hd) →
  wpm (update_last_block_values hd) t bs (λ _ t' bs', task_ok t' bs').
Proof.
  intros Ht Hb Hh. apply wpm_bind, wpm_lift; [done|]. intros now bs1 H1 _.
  apply wpm_bind, wpm_lift_prog. eapply wp_mono; [apply _| |apply extract_block_info_ok].
  intros x bs2 _ [H2 [created ->]]. apply wpm_bind, wpm_get.
  assert (bs `prefix_of` bs2) as H02 by (by trans bs1).
  case_decide; [|apply wpm_ok; by eapply task_ok_mono].
  apply wpm_set. exists b. simpl. split; [by eapply chain_at_mono|done].
Qed.

Lemma sync_last_height_keeps : keeps sync_last_height_from_db.
Proof.
  intros t bs Ht. apply wpm_bind, wpm_lift; [done|]. intros x bs1 H1 Hx.
  apply (task_ok_mono _ _ _ H1) in Ht. destruct x as [[hd|]|]; [|done..].
  destruct Hx as (b & Hb & Hh). by eapply update_last_keeps.
Qed.

(** A block for the next height is committed only if it extends the chain. *)
Lemma produce_block_keeps t bs block_time src deadline :
  task_ok t bs → wpm (produce_block (last_height t + 1) block_time src deadline) t bs (λ _ t' bs', task_ok t' bs').
Proof.
  intros Ht. apply wpm_bind, wpm_lift; [done|]. intros created bs1 H1 _.
  apply (task_ok_mono _ _ _ H1) in Ht. apply wpm_bind, wpm_lift; [done|]. intros available bs2 H2 _.
  apply (task_ok_mono _ _ _ H2) in Ht. destruct available; simpl; [|done]. apply wpm_bind, wpm_get.
  case_decide as Htime; [done|]. apply wpm_bind. unfold signal_produce_block. apply wpm_bind, wpm_tried; [done|].
  intros [r|e] bs3 H3 Hr; [|by eapply task_ok_mono]. apply (task_ok_mono _ _ _ H3) in Ht.
  destruct Hr as (Hh & Hbt & bsv & Hv & Hpo & Hda).
  apply wpm_bind, wpm_lift; [done|]. intros [] bs4 H4 _. apply (task_ok_mono _ _ _ H4) in Ht. apply wpm_ok.
  apply wpm_bind, wpm_tried; [done|]. intros [seal|e] bs5 H5 _; apply (task_ok_mono _ _ _ H5) in Ht; [|done].
  apply wpm_bind, wpm_tried; [done|]. intros [[]|e] bs6 H6 _; apply (task_ok_mono _ _ _ H6) in Ht; [|done].
  destruct Ht as (parent & Hpar & Hpt).
  apply wpm_bind, wpm_tried.
  { split_and!; [done|apply Hpo|]. simpl. eapply produced_links; [|done..|rewrite Hh; replace (_ + 1 - 1) with (last_height t) by lia; done|lia].
    trans bs3; [done|]. trans bs4; [done|]. by trans bs5. }
  intros [[]|e] bs7 H7 Hc; [|eapply task_ok_mono; [done|by exists parent]].
  specialize (Hc eq_refl). unfold committed, height_of in Hc. simpl in Hc. rewrite Hh in Hc.
  apply wpm_bind, wpm_get, wpm_set. eexists. split; [exact Hc|done].
Qed.

(** A predefined block is committed only if it continues the chain. *)
Lemma predefined_block_keeps h pb : predefined h = Ok (Some pb) → keeps (produce_predefined_block pb).
Proof.
  intros Hpre t bs Ht. apply wpm_bind, wpm_lift; [done|]. intros created bs1 H1 _.
  apply (task_ok_mono _ _ _ H1) in Ht. apply wpm_bind, wpm_lift; [done|]. intros available bs2 H2 _.
  apply (task_ok_mono _ _ _ H2) in Ht. destruct available; simpl; [|done]. apply wpm_bind, wpm_tried; [done|].
  intros [r|e] bs3 H3 Hr; apply (task_ok_mono _ _ _ H3) in Ht; [|done]. destruct Hr as (Hbt & Hda & bsv & Hv & Hpo).
  apply wpm_bind. eapply (wpm_mono prefix pre post _ _ _ (λ _ t' bs', t' = t ∧ bs3 `prefix_of` bs')).
  2:{ destruct (pr_skipped r); [|by apply wpm_ok]. by apply wpm_tried. }
  intros [[]|e] t' bs4 _ [-> H4]; apply (task_ok_mono _ _ _ H4) in Ht; [|done].
  apply wpm_bind, wpm_tried; [done|]. intros [seal|e] bs5 H5 _; apply (task_ok_mono _ _ _ H5) in Ht; [|done].
  apply wpm_bind, wpm_tried; [done|]. intros [[]|e] bs6 H6 _; apply (task_ok_mono _ _ _ H6) in Ht; [|done].
  apply wpm_bind, wpm_tried.
  { split_and!; [done|apply Hpo|]. simpl. eapply predefined_links; [|done..].
    trans bs3; [done|]. trans bs4; [done|]. by trans bs5. }
  intros [[]|e] bs7 H7 Hc; [|by eapply task_ok_mono]. specialize (Hc eq_refl).
  apply wpm_bind, wpm_get, wpm_set. eexists. split; [exact Hc|done].
Qed.

Lemma reconcile_keeps blocks : keeps (reconcile blocks).
Proof.
  induction blocks as [|b blocks IH]; [by apply keeps_ok|].
  apply keeps_bind; [apply sync_last_height_keeps|]. intros _. apply keeps_bind; [apply keeps_get|]. intros t0.
  case_decide; [done|]. apply keeps_bind; [by apply keeps_lift|]. intros _.
  intros t bs Ht. apply wpm_bind, wpm_lift; [done|]. intros x bs1 H1 Hx. apply (task_ok_mono _ _ _ H1) in Ht.
  destruct x as [[]|e].
  - apply wpm_bind, wpm_get, wpm_bind, wpm_set, IH. exists b. simpl. split; [by apply Hx|done].
  - revert Ht. apply keeps_bind; [apply sync_last_height_keeps|]. intros _. apply keeps_bind; [apply keeps_get|].
    intros t1. case_decide; [done|apply keeps_ok].
Qed.

Lemma maybe_predefined_keeps : keeps maybe_produce_predefined_block.
Proof.
  apply keeps_bind; [apply next_height_keeps|]. intros h t bs Ht.
  apply wpm_bind, wpm_lift; [done|]. intros x bs1 H1 Hx. apply (task_ok_mono _ _ _ H1) in Ht.
  destruct x as [[b|]|e]; [|by apply wpm_ok..]. revert Ht.
  apply keeps_bind; [|intros res; apply keeps_ok]. eapply keeps_catch; [apply _|apply pre_quiet|apply task_ok_mono|].
  by eapply predefined_block_keeps.
Qed.

Lemma try_to_produce_block_keeps deadline : keeps (try_to_produce_block deadline).
Proof.
  apply keeps_bind; [apply sync_last_height_keeps|]. intros _. apply keeps_bind; [apply next_height_keeps|]. intros h.
  apply keeps_bind; [by eapply keeps_tried; [apply _|apply pre_quiet|apply task_ok_mono|]|]. intros [blocks| |].
  - apply keeps_bind; [apply reconcile_keeps|]. intros _. apply keeps_bind; [apply keeps_get|]. intros t.
    apply keeps_bind; [|intros _; apply keeps_ok].
    case_match; [case_decide; [by apply keeps_lift|]|]; apply keeps_ok.
  - eapply handle_normal_keeps; [apply _|apply pre_quiet|apply task_ok_mono|apply sync_last_height_keeps
      |apply produce_block_keeps|apply maybe_predefined_keeps].
  - apply keeps_bind; [apply keeps_get|]. intros t. apply keeps_bind; [by apply keeps_lift|]. intros _. apply keeps_ok.
Qed.

Lemma task_run_keeps : keeps run.
Proof.
  eapply PoaWp.run_keeps; [apply _|apply pre_quiet|apply task_ok_mono|apply sync_last_height_keeps
    |apply produce_block_keeps|apply maybe_predefined_keeps|apply try_to_produce_block_keeps].
Qed.

(** The task starts with the last block of the chain. *)
Lemma start_ok hd tr b bs :
  chain_at g bs (height (consensus hd)) = Some b → time (consensus (header (entity b))) = time (consensus hd) →
  wp prefix pre (λ X e _, post X e) (start hd tr) bs (λ '(t', r) bs', task_ok t' bs').
Proof.
  intros Hb Hh. eapply PoaWp.start_keeps; [apply _|apply pre_quiet|apply task_ok_mono|apply sync_last_height_keeps
    |apply produce_block_keeps|apply maybe_predefined_keeps|apply try_to_produce_block_keeps|done|].
  intros created bs' Hp. exists b. split; [by eapply chain_at_mono|done].
Qed.
End task.
