(* ===== verification/ProducerFacts.v ===== *)
(** * What the producer promises

    The choice of the DA height takes the highest one whose events fit, and a block that
    is produced on a view continues the chain of that view. *)

From stdpp Require Import prelude gmap list strings.
From Stdlib Require Import ZArith Lia.
From S2P Require Import Prelude.
From S2P Require Import StorageTx.
From S2P Require Import HistoricalDb.
From S2P Require Import HistoricalDbFacts.
From S2P Require Import Database.
From S2P Require Import DatabaseFacts.
From S2P Require Import Tables.
From S2P Require Import Blocks.
From S2P Require Import BlockStore.
From S2P Require Import ChainFacts.
From S2P Require Import Verifier.
From S2P Require Import Producer.
From S2P Require Import Importer.
From S2P Require Import ImporterFacts.
From S2P Require Import PoaService.
From S2P Require Import PoaWp.
Local Open Scope Z_scope.

(** ** The DA height *)

Section da_height.
Context {Tx : Type} (P : Ports Tx).

(** The events of [n] DA blocks from [h], in gas and in transactions, if all are known. *)
Fixpoint events_cost (n : nat) (h : Z) : option (Z * Z) :=
  match n with
  | O => Some (0, 0)
  | S n =>
      match get_cost_and_transactions_number_for_block P h, events_cost n (h + 1) with
      | Ok info, Some (gas, txs) => Some (gas_cost info + gas, tx_count info + txs)
      | _, _ => None
      end
  end.

(** The events of the blocks after [previous] up to [d] fit into a block. *)
Definition fits (gas_limit transactions_limit previous d : Z) : Prop :=
  ∃ gas txs, events_cost (Z.to_nat (d - previous)) (previous + 1) = Some (gas, txs) ∧
    gas ≤ gas_limit ∧ txs ≤ transactions_limit.

(** The answers of the relayer are 64-bit numbers. *)
Record relayer_typed : Prop := {
  rt_height h d : wait_for_at_least_height P h = Ok d → d ≤ U64;
  rt_info h info : get_cost_and_transactions_number_for_block P h = Ok info →
    0 ≤ gas_cost info ≤ U64 ∧ 0 ≤ tx_count info ≤ U64;
}.

Context (Hrelayer : relayer_typed).

Lemma events_cost_nonneg n h gas txs : events_cost n h = Some (gas, txs) → 0 ≤ gas ∧ 0 ≤ txs.
Proof.
  revert h gas txs. induction n as [|n IH]; intros h gas txs; simpl; [by intros [= <- <-]|].
  destruct (get_cost_and_transactions_number_for_block P h) as [info|] eqn:Hi; [|done].
  destruct (events_cost n (h + 1)) as [[gas' txs']|] eqn:He; [|done]. intros [= <- <-].
  apply (rt_info Hrelayer) in Hi. apply IH in He. lia.
Qed.

(** The loop goes on to the last height up to which the costs stay within the limits. *)
Lemma select_loop_ok n h gl tl best tc tt d :
  0 ≤ tc ≤ gl → 0 ≤ tt ≤ tl → gl < U64 → tl < U64 → best = h - 1 →
  select_loop P n h gl tl best tc tt = Ok d →
  ∃ k, (k ≤ n)%nat ∧ d = best + Z.of_nat k ∧
    (∃ gas txs, events_cost k h = Some (gas, txs) ∧ tc + gas ≤ gl ∧ tt + txs ≤ tl) ∧
    (k = n ∨ ∀ gas txs, events_cost (S k) h = Some (gas, txs) → gl < tc + gas ∨ tl < tt + txs).
Proof.
  revert h best tc tt. induction n as [|n IH]; intros h best tc tt Htc Htt Hgl Htl Hb; cbn [select_loop].
  { intros [= <-]. exists 0%nat. split_and!; [lia|lia|exists 0, 0; split_and!; [done|lia..]|by left]. }
  destruct (get_cost_and_transactions_number_for_block P h) as [info|] eqn:Hi; [|done]. cbn [anyhow result_bind].
  pose proof (rt_info Hrelayer h info Hi) as [Hg Ht]. unfold sat_add.
  case_decide as Hover.
  - intros [= <-]. exists 0%nat. split_and!; [lia|lia|exists 0, 0; split_and!; [done|lia..]|].
    right. intros gas txs. simpl. rewrite Hi. intros [= <- <-]. lia.
  - intros Hl. apply IH in Hl as (k & Hk & -> & (gas & txs & He & Hgas & Htxs) & Hmax); [|lia..].
    exists (S k). split_and!; [lia|lia| |].
    + exists (gas_cost info + gas), (tx_count info + txs). simpl. rewrite Hi, He. split_and!; [done|lia..].
    + destruct Hmax as [->|Hmax]; [by left|right]. intros gas' txs' He'. cbn [events_cost] in He'. rewrite Hi in He'.
      change (match get_cost_and_transactions_number_for_block P (h + 1) with
              | Ok info => match events_cost k (h + 1 + 1) with
                           | Some (gas, txs) => Some (gas_cost info + gas, tx_count info + txs) | None => None end
              | Err _ => None end) with (events_cost (S k) (h + 1)) in He'.
      destruct (events_cost (S k) (h + 1)) as [[gas2 txs2]|] eqn:H2; [|done]. injection He' as <- <-.
      specialize (Hmax _ _ eq_refl). lia.
Qed.

Lemma events_cost_prefix a b h gas txs :
  events_cost (a + b) h = Some (gas, txs) → ∃ gas' txs', events_cost a h = Some (gas', txs') ∧ gas' ≤ gas ∧ txs' ≤ txs.
Proof.
  revert h gas txs. induction a as [|a IH]; intros h gas txs He.
  { apply events_cost_nonneg in He. exists 0, 0. split_and!; [done|lia..]. }
  simpl in *. destruct (get_cost_and_transactions_number_for_block P h) as [info|]; [|done].
  destruct (events_cost (a + b) (h + 1)) as [[gas1 txs1]|] eqn:H1; [|done]. injection He as <- <-.
  destruct (IH _ _ _ H1) as (gas' & txs' & -> & ? & ?). do 2 eexists. split_and!; [done|lia..].
Qed.

Lemma fits_below gl tl prev d d' : prev ≤ d ≤ d' → fits gl tl prev d' → fits gl tl prev d.
Proof.
  intros Hd (gas & txs & He & Hg & Ht).
  replace (Z.to_nat (d' - prev)) with (Z.to_nat (d - prev) + Z.to_nat (d' - d))%nat in He by lia.
  destruct (events_cost_prefix _ _ _ _ _ He) as (gas' & txs' & ? & ? & ?). exists gas', txs'. split_and!; [done|lia..].
Qed.

Lemma select_loop_ge n h gl tl best tc tt d :
  best ≤ h → select_loop P n h gl tl best tc tt = Ok d → best ≤ d.
Proof.
  revert h best tc tt. induction n as [|n IH]; intros h best tc tt Hb; cbn [select_loop]; [intros [= <-]; lia|].
  destruct (get_cost_and_transactions_number_for_block P h); [|done]. cbn [anyhow result_bind].
  case_decide; [intros [= <-]; lia|]. intros Hl%IH; lia.
Qed.

(** The DA height of a block is not below that of its parent. *)
Lemma select_ge gl prev tl d : select_new_da_height P gl prev tl = Ok d → prev ≤ d.
Proof.
  unfold select_new_da_height. destruct (wait_for_at_least_height P prev) as [highest|e] eqn:Hw; [|done].
  apply (rt_height Hrelayer) in Hw. cbn [anyhow result_bind]. repeat case_decide; try done; [intros [= <-]; lia|].
  destruct (select_loop P _ _ _ _ _ _ _) as [best|] eqn:Hl; [|done]. cbn [result_bind].
  case_decide; [done|]. intros [= <-]. eapply select_loop_ge; [|exact Hl]. unfold sat_add. lia.
Qed.

Lemma select_loop_err n h gl tl best tc tt e :
  select_loop P n h gl tl best tc tt = Err e →
  ∃ h' e', h ≤ h' < h + Z.of_nat n ∧ get_cost_and_transactions_number_for_block P h' = Err e' ∧ e = Anyhow e'.
Proof.
  revert h best tc tt. induction n as [|n IH]; intros h best tc tt; cbn [select_loop]; [done|].
  destruct (get_cost_and_transactions_number_for_block P h) as [info|e'] eqn:Hi; cbn [anyhow result_bind].
  - case_decide; [done|]. intros (h' & e' & ? & ? & ?)%IH. exists h', e'. split_and!; [lia..|done|done].
  - intros [= <-]. exists h, e'. split_and!; [lia..|done|done].
Qed.

End da_height.

(** ** Production *)

Section production.
Context {Tx Signature Status Event : Type} `{!ChainCrypto Tx Signature} `{!ChainCryptoLaws Tx Signature}.
Context `{!BlockCodecs Tx Signature} `{!BlockCodecsLaws Tx Signature}.
Context `{!HashOrder Z} `{!HashOrder Key} `{!MerkleTree} `{!MerkleTreeLaws}.
Context `{!Postcard} `{!PostcardLaws} `{!MetadataCodec} `{!MetadataCodecLaws}.
Context (chain_id : Z) (state_keys : Z → Key → Prop) (p : StateRewindPolicy).
Context (P : Ports Tx) (Hrelayer : relayer_typed P).
Implicit Types (bs : list (SealedBlock Tx Signature)) (r : Produced Tx Status Event).

(** What the executor promises: the block it was asked for, with the generated parts,
    and changes of the tables of the state. *)
Definition executed_from (hd : PartialBlockHeader) r : Prop :=
  (∃ txs ids root, Block_new hd txs ids root = Ok (pr_block r)) ∧ within state_keys (pr_changes r).

Lemma latest_block_info_ok view g bs info :
  db_chain chain_id state_keys p view g bs → latest_block_info view = Ok info →
  bi_height info = latest g bs ∧ bi_root info = root_at g bs (latest g bs) ∧
  ∃ parent, chain_at g bs (latest g bs) = Some parent ∧
    bi_da_height info = da_height (application (header (entity parent))).
Proof.
  intros Hdb Hi. destruct (db_chain_reads _ _ _ _ _ _ Hdb) as (s & Hs & Hch).
  unfold latest_block_info in Hi. rewrite (db_chain_height _ _ _ _ _ _ Hdb) in Hi. cbn [ok_or_err result_bind] in Hi.
  pose proof (latest_range _ _ _ _ Hch). pose proof (cd_genesis _ _ _ _ Hch). unfold block_info in Hi.
  rewrite (get_block_ok chain_id _ s g bs Hs Hch) in Hi by lia.
  destruct (chain_at g bs (latest g bs)) as [parent|]; [|done]. cbn [anyhow result_bind] in Hi.
  rewrite (block_root_ok chain_id _ s g bs Hs Hch) in Hi by lia. injection Hi as <-. simpl. by eauto.
Qed.

Lemma new_header_ok view g bs t hd :
  db_chain chain_id state_keys p view g bs → new_header P t view = Ok hd →
  height (p_consensus hd) = latest g bs + 1 ∧ time (p_consensus hd) = t ∧
  prev_root (p_consensus hd) = root_at g bs (latest g bs) ∧
  ∃ parent, chain_at g bs (latest g bs) = Some parent ∧
    da_height (p_application hd) = da_height (application (header (entity parent))).
Proof.
  intros Hdb Hh. unfold new_header in Hh. destruct (latest_block_info view) as [info|] eqn:Hi; [|done].
  destruct (latest_block_info_ok _ _ _ _ Hdb Hi) as (Hhi & Hr & parent & Hpar & Hda). cbn [result_bind] in Hh.
  unfold succ in Hh. case_decide; [|done]. cbn [ok_or_err result_bind] in Hh.
  destruct (latest_version (decode_params P) _ _); [|done]. cbn [anyhow result_bind] in Hh.
  destruct (latest_version (decode_bytecode P) _ _); [|done]. cbn [anyhow result_bind] in Hh. injection Hh as <-.
  simpl. split_and!; [lia|done|done|by eauto].
Qed.

Lemma header_with_da_ok view g bs t hd :
  db_chain chain_id state_keys p view g bs → new_header_with_new_da_height P t view = Ok hd →
  height (p_consensus hd) = latest g bs + 1 ∧ time (p_consensus hd) = t ∧
  prev_root (p_consensus hd) = root_at g bs (latest g bs) ∧ is_Some (chain_at g bs (latest g bs)) ∧
  ∀ parent, chain_at g bs (latest g bs) = Some parent →
    da_height (application (header (entity parent))) ≤ da_height (p_application hd).
Proof.
  intros Hdb Hh. unfold new_header_with_new_da_height in Hh.
  destruct (new_header P t view) as [hd0|] eqn:Hnew; [|done]. cbn [result_bind] in Hh.
  destruct (new_header_ok _ _ _ _ _ Hdb Hnew) as (? & ? & ? & parent & Hpar & Hda).
  destruct (block_gas_limit_at_version P _) as [gl|]; [|done]. cbn [anyhow result_bind] in Hh.
  destruct (select_new_da_height P _ _ _) as [da|] eqn:Hsel; [|done]. cbn [result_bind] in Hh. injection Hh as <-.
  apply (select_ge P Hrelayer) in Hsel. simpl. split_and!; [done..|by exists parent|]. rewrite Hpar. intros ? [= <-]. lia.
Qed.

(** What the executor makes of a header that continues the chain. *)
Lemma executed_on hd r g bs :
  executed_from hd r → height (p_consensus hd) = latest g bs + 1 → is_Some (chain_at g bs (latest g bs)) →
  prev_root (p_consensus hd) = root_at g bs (latest g bs) →
  produced_on state_keys g bs r ∧
  height (consensus (header (pr_block r))) = height (p_consensus hd) ∧
  time (consensus (header (pr_block r))) = time (p_consensus hd) ∧
  da_height (application (header (pr_block r))) = da_height (p_application hd).
Proof.
  intros [(txs & ids & root & Hb) Hw] Hh Hpar Hr. destruct (block_new_ok _ _ _ _ _ Hb) as (Hsealed & Hval & Hpart).
  injection Hpart as Hpart Htxs. rewrite <- Hpart in *. simpl in *. split_and!; [|done..]. by split.
Qed.

(** A produced block continues the chain of the view it was produced on. *)
Lemma produce_and_execute_ok {Source} (exec : Database → Components Source → result (Produced Tx Status Event) string)
    locked view now h t src r g bs :
  (∀ db c r, exec db c = Ok r → executed_from (header_to_produce c) r) →
  db_chain chain_id state_keys p view g bs →
  produce_and_execute P exec locked view now h t src = Ok r →
  height (consensus (header (pr_block r))) = h ∧ time (consensus (header (pr_block r))) = t ∧
  produced_on state_keys g bs r ∧ da_follows g bs r.
Proof.
  intros Hexec Hdb Hr. unfold produce_and_execute in Hr. destruct locked; [done|].
  destruct (production_gas_price P); [|done]. cbn [anyhow result_bind] in Hr.
  rewrite (db_chain_height _ _ _ _ _ _ Hdb) in Hr. cbn [ok_or_err result_bind] in Hr.
  unfold succ in Hr. case_decide; [|done]. cbn [ok_or_err result_bind] in Hr.
  case_decide; [done|]. case_decide as Hh; [done|].
  destruct (src _ _); [|done]. cbn [anyhow result_bind] in Hr.
  destruct (new_header_with_new_da_height P t view) as [hd|] eqn:Hhd; [|done]. cbn [result_bind] in Hr.
  destruct (exec _ _) as [r'|] eqn:He; [|done]. injection Hr as ->.
  destruct (header_with_da_ok _ _ _ _ _ Hdb Hhd) as (Hhe & Ht & Hp & Hpar & Hda).
  apply Hexec in He. destruct (executed_on _ _ _ _ He Hhe Hpar Hp) as (Hpo & Hh' & Ht' & Hd'). simpl in *.
  split_and!; [lia|congruence|done|]. intros parent Hl. rewrite Hd'. by apply Hda.
Qed.

(** So does a block produced from a predefined one, whose time and DA height it has. *)
Lemma produce_and_execute_predefined_ok exec locked view now pb r g bs :
  (∀ db c r, exec db c = Ok r → executed_from (header_to_produce c) r) →
  db_chain chain_id state_keys p view g bs →
  produce_and_execute_predefined P exec locked view now pb = Ok r →
  time (consensus (header (pr_block r))) = time (consensus (header pb)) ∧
  da_height (application (header (pr_block r))) = da_height (application (header pb)) ∧
  produced_on state_keys g bs r.
Proof.
  intros Hexec Hdb Hr. unfold produce_and_execute_predefined in Hr. destruct locked; [done|].
  destruct (wait_for_at_least_height P _); [|done]. cbn [anyhow result_bind] in Hr.
  unfold new_header_with_da_height in Hr. destruct (new_header P _ view) as [hd|] eqn:Hhd; [|done].
  destruct (new_header_ok _ _ _ _ _ Hdb Hhd) as (Hhe & Ht & Hp & parent & Hpar & _). cbn [result_bind] in Hr.
  rewrite (db_chain_height _ _ _ _ _ _ Hdb) in Hr. cbn [ok_or_err result_bind] in Hr. case_decide; [done|].
  destruct (last (transactions pb) ≫= as_mint P) as [[gas_price contract_id]|]; [|done]. cbn [ok_or_err result_bind] in Hr.
  destruct (exec _ _) as [r'|] eqn:He; [|done]. injection Hr as ->. apply Hexec in He.
  destruct (executed_on _ _ g bs He) as (Hpo & _ & Ht' & Hd'); [done|by exists parent|done|]. simpl in *.
  split_and!; [congruence|done|done].
Qed.
End production.

(** ** Samples *)

(** A relayer at the height 5 whose blocks cost 10 each. *)
Definition sample_ports : Ports Z := {|
  wait_for_at_least_height _ := Ok 5;
  get_cost_and_transactions_number_for_block _ := Ok {| gas_cost := 10; tx_count := 1 |};
  production_gas_price := Ok 1;
  dry_run_gas_price := Ok 1;
  block_gas_limit_at_version _ := Ok 25;
  config_coinbase_recipient := None;
  decode_params _ := true;
  decode_bytecode _ := true;
  as_mint _ := None;
|}.

Lemma sample_relayer_typed : relayer_typed sample_ports.
Proof. split; [intros h d [= <-]|intros h info [= <-]; simpl]; int_lia. Qed.

