(* ===== verification/SampleChain.v ===== *)
(** * A sample chain

    Concrete instances of what the chain takes from other crates, and a database with a
    genesis block, on which the theorems about the importer and the node are applied. *)

From stdpp Require Import prelude gmap list strings.
From Stdlib Require Import ZArith Lia.
From S2P Require Import Prelude.
From S2P Require Import StorageTx.
From S2P Require Import HistoricalDb.
From S2P Require Import HistoricalDbFacts.
From S2P Require Import Database.
From S2P Require Import DatabaseFacts.
From S2P Require Import Tables.
From S2P Require Import Blocks.
From S2P Require Import BlockStore.
From S2P Require Import ChainFacts.
From S2P Require Import Verifier.
From S2P Require Import Importer.
From S2P Require Import ImporterFacts.
Local Open Scope Z_scope.

Module SampleChain.
Import SampleDb.
#[local] Arguments to_be_bytes : simpl never.
#[local] Arguments ser : simpl never.
#[local] Arguments de : simpl never.

(** A transaction is a number, a signature is the key itself, and a hash is a sum. *)
Definition sum (l : list Z) : list Z := [foldr Z.add 0 l].

#[global] Instance crypto : ChainCrypto Z Z := {
  digest := sum;
  ephemeral_root leaves := sum (concat leaves);
  tx_bytes tx := [tx];
  tx_id _ tx := replicate 31 0 ++ [tx];
  PublicKey := Z;
  recover signature _ := Some signature;
  owner key := [key];
}.

#[global] Instance crypto_laws : ChainCryptoLaws Z Z.
Proof. by split. Qed.

(** The encoding of records by tuples of their fields. *)
Definition header_tuple (h : BlockHeader) :=
  let a := application h in
  let ag := ap_generated a in
  let c := consensus h in
  (da_height a, consensus_parameters_version a, state_transition_bytecode_version a,
   (transactions_count ag, message_receipt_count ag, transactions_root ag, message_outbox_root ag, event_inbox_root ag),
   (prev_root c, Blocks.height c, time c, application_hash (co_generated c))).

Definition tuple_header x : BlockHeader :=
  let '(da, cpv, stv, (tc, mc, tr, mr, er), (pr, h, t, ah)) := x in
  {| application := {| da_height := da; consensus_parameters_version := cpv; state_transition_bytecode_version := stv;
       ap_generated := {| transactions_count := tc; message_receipt_count := mc; transactions_root := tr;
         message_outbox_root := mr; event_inbox_root := er |} |};
     consensus := {| prev_root := pr; height := h; time := t; co_generated := {| application_hash := ah |} |};
     metadata := None |}.

Lemma header_tuple_ok h : tuple_header (header_tuple h) = uncached h.
Proof. by destruct h as [[? ? ? []] [? ? ? []] ?]. Qed.

Definition consensus_tuple (c : Consensus Z) : Z + _ :=
  match c with
  | CPoA s => inl s
  | CGenesis g => inr (chain_config_hash g, coins_root g, contracts_root g, messages_root g, genesis_transactions_root g)
  end.

Definition tuple_consensus x : Consensus Z :=
  match x with
  | inl s => CPoA s
  | inr (a, b, c, d, e) => CGenesis {| chain_config_hash := a; coins_root := b; contracts_root := c;
      messages_root := d; genesis_transactions_root := e |}
  end.

#[global] Instance codecs : BlockCodecs Z Z := {
  ser_block b := ser (header_tuple (header b), transactions b);
  de_block v := (λ '(h, txs), {| header := tuple_header h; transactions := txs |}) <$> de v;
  ser_merkle_metadata m := ser (version m, merkle_root m);
  de_merkle_metadata v := (λ '(n, r), {| version := n; merkle_root := r |}) <$> de v;
  ser_metadata_key k := match k with Primary h => [0; h] | Latest => [1] end;
  ser_consensus c := ser (consensus_tuple c);
  de_consensus v := tuple_consensus <$> de v;
  ser_tx tx := [tx];
  de_tx v := match v with [tx] => Some tx | _ => None end;
}.

Lemma de_ser {A} `{Countable A} (a : A) : de (ser a) = Some a.
Proof. apply decode_encode. Qed.

#[global] Instance codecs_laws : BlockCodecsLaws Z Z.
Proof.
  split; simpl.
  - intros b. rewrite de_ser. cbn [fmap option_fmap option_map]. by rewrite header_tuple_ok.
  - intros m. rewrite de_ser. by destruct m.
  - intros c. rewrite de_ser. by destruct c as [[]|].
  - done.
  - by intros [h|] [h'|]; intros; simplify_eq.
  - intros k k'. split; destruct k as [h|], k' as [h'|]; intros [l He]; by simplify_eq/=.
  - intros [h|]; simpl; lia.
Qed.

(** The nodes of the tree are its leaves, under their numbers. *)
Definition node_key (i : Z) : Key := i :: replicate 7 0.

Fixpoint load (reads : Key → result (option Value) StorageError) (n : nat) (i : Z) :
    result (list (list Z)) StorageError :=
  match n with
  | O => Ok []
  | S n =>
      match reads (node_key i), load reads n (i + 1) with
      | Ok (Some leaf), Ok leaves => Ok (leaf :: leaves)
      | _, _ => Err "NotFound"
      end
  end.

#[global] Instance tree : MerkleTree := {
  empty_root := [];
  tree_root leaves := sum (concat leaves);
  tree_push reads version leaf :=
    result_bind (load reads (Z.to_nat version) 0) (λ leaves,
      Ok ([(node_key version, leaf)], version + 1, sum (concat (leaves ++ [leaf]))));
  tree_holds reads leaves := ∀ i leaf, leaves !! i = Some leaf → reads (node_key (Z.of_nat i)) = Ok (Some leaf);
}.

Lemma load_ok reads leaves i :
  (∀ j leaf, leaves !! j = Some leaf → reads (node_key (i + Z.of_nat j)) = Ok (Some leaf)) →
  load reads (length leaves) i = Ok leaves.
Proof.
  revert i. induction leaves as [|leaf leaves IH]; intros i Hr; [done|]. simpl.
  replace (node_key i) with (node_key (i + Z.of_nat 0)) by (f_equal; lia). rewrite (Hr 0%nat leaf) by done.
  rewrite IH; [done|].
  intros j l Hj. replace (i + 1 + Z.of_nat j) with (i + Z.of_nat (S j)) by lia. by apply Hr.
Qed.

#[global] Instance tree_laws : MerkleTreeLaws.
Proof.
  split.
  - done.
  - intros reads leaves leaf Hh. simpl. rewrite Nat2Z.id. rewrite load_ok; [|intros j l Hj; by apply Hh].
    eexists. split_and!; [simpl; do 3 f_equal; lia|by repeat constructor|].
    intros i l [Hi|[Hi He]]%lookup_app_Some.
    + cbn [list_to_map foldr fst snd]. rewrite lookup_insert_ne, lookup_empty; [by apply Hh|]. intros He. unfold node_key in He.
      apply lookup_lt_Some in Hi. injection He. lia.
    + apply list_lookup_singleton_Some in He as [He <-]. replace i with (length leaves) by lia.
      cbn [list_to_map foldr fst snd]. by rewrite lookup_insert_eq.
  - intros reads reads' leaves Heq Hh i leaf Hi. rewrite <- Heq. by apply Hh.
Qed.

(** ** The genesis block and its database *)

Definition chain_id : Z := 0.

Definition partial (da : Z) (root : Bytes32) (h t : Z) : PartialBlockHeader := {|
  p_application := {| da_height := da; consensus_parameters_version := 0;
    state_transition_bytecode_version := 0; ap_generated := MkEmpty |};
  p_consensus := {| prev_root := root; height := h; time := t; co_generated := MkEmpty |};
|}.

(** A block of transactions, without messages. *)
Definition make_block (p : PartialBlockHeader) (txs : list Z) : Block Z :=
  match Block_new p txs [] zeroed with
  | Ok b => b
  | Err _ => {| header := tuple_header (0, 0, 0, (0, 0, [], [], []), ([], 0, 0, [])); transactions := [] |}
  end.

Definition genesis : SealedBlock Z Z := {|
  entity := make_block (partial 0 zeroed 0 10) [];
  seal := CGenesis {| chain_config_hash := zeroed; coins_root := zeroed; contracts_root := zeroed;
    messages_root := zeroed; genesis_transactions_root := zeroed |};
|}.

Definition genesis_id : BlockId := sealed_id genesis.
Definition VERSIONS_COLUMN_17 : Z := 17.
Definition VERSIONS_COLUMN_18 : Z := 18.

Definition metadata_column : gmap Key Value :=
  {[METADATA_KEY := ser_metadata (MetadataV2 DB_VERSION 0 all_indexation_kinds)]}.
Definition blocks_column : gmap Key Value :=
  {[to_be_bytes 4 0 := ser_block (compress chain_id (entity genesis))]}.
Definition nodes_column : gmap Key Value := {[node_key 0 := genesis_id]}.
Definition roots_column : gmap Key Value :=
  <[ser_metadata_key Latest := ser_merkle_metadata (latest_of [genesis_id])]>
  {[ser_metadata_key (Primary 0) := ser_merkle_metadata (latest_of [genesis_id])]}.
Definition seals_column : gmap Key Value := {[to_be_bytes 4 0 := ser_consensus (seal genesis)]}.
Definition versions_column : gmap Key Value := {[to_be_bytes 4 0 := [0]]}.

Definition rocks_db : Db :=
  <[METADATA_COLUMN := metadata_column]> (<[FUEL_BLOCKS_COLUMN := blocks_column]>
  (<[FUEL_BLOCK_MERKLE_DATA_COLUMN := nodes_column]> (<[FUEL_BLOCK_MERKLE_METADATA_COLUMN := roots_column]>
  (<[FUEL_BLOCK_CONSENSUS_COLUMN := seals_column]> (<[VERSIONS_COLUMN_17 := versions_column]>
  {[VERSIONS_COLUMN_18 := versions_column]}))))).

Definition policy : StateRewindPolicy := RewindFullRange.

Definition sample_db : Database :=
  {| Database.height := Some 0; data := {| state_rewind_policy := policy; rocks := rocks_db; has_v1_history := false |} |}.

Lemma column_lookup k c :
  db_get rocks_db k c =
    if decide (c = METADATA_COLUMN) then metadata_column !! k
    else if decide (c = FUEL_BLOCKS_COLUMN) then blocks_column !! k
    else if decide (c = FUEL_BLOCK_MERKLE_DATA_COLUMN) then nodes_column !! k
    else if decide (c = FUEL_BLOCK_MERKLE_METADATA_COLUMN) then roots_column !! k
    else if decide (c = FUEL_BLOCK_CONSENSUS_COLUMN) then seals_column !! k
    else if decide (c = VERSIONS_COLUMN_17 ∨ c = VERSIONS_COLUMN_18) then versions_column !! k
    else None.
Proof.
  unfold db_get, rocks_db. rewrite !lookup_insert, lookup_singleton. repeat case_decide; subst; naive_solver.
Qed.

Lemma sample_chain_held : chain_held chain_id (db_get rocks_db) 0 [genesis].
Proof.
  split.
  - split.
    + intros i leaf Hi. destruct i as [|i]; [|done]. injection Hi as <-. by rewrite column_lookup.
    + simpl. by rewrite column_lookup.
  - intros [|i] b Hi; [|done]. injection Hi as <-. split; [done|]. by rewrite column_lookup.
  - intros k. rewrite column_lookup. simpl. unfold blocks_column, seals_column.
    intros [x [<- _]%lookup_singleton_Some]. exists 0%nat. split; [simpl; lia|done].
  - intros [|i] Hi; [|simpl in Hi; lia]. by rewrite column_lookup.
  - intros [|i] b Hi; [|done]. injection Hi as <-. by rewrite column_lookup.
  - intros k. rewrite column_lookup. simpl. unfold blocks_column, seals_column.
    intros [x [<- _]%lookup_singleton_Some]. exists 0%nat. split; [simpl; lia|done].
  - intros b tx ->%list_elem_of_singleton Htx. by apply elem_of_nil in Htx.
  - intros k. rewrite column_lookup. by intros [].
  - done.
  - done.
  - done.
Qed.

(** The state has coins, under keys of one byte. *)
Definition state_keys (c : Z) (k : Key) : Prop := c = COINS ∧ length k = 1%nat.

Lemma state_keys_ok : state_tables state_keys.
Proof.
  split.
  - split; intros c k k' [_ Hk] [_ Hk']; [apply same_length_incomparable; congruence|lia].
  - intros c k [-> _]. unfold COINS. split; [column_lia|]. apply (bool_decide_unpack _). by vm_compute.
Qed.

Lemma sample_opened : opened policy sample_db 0.
Proof.
  split; try done.
  intros k c Hc. cbn [rocks data sample_db]. rewrite column_lookup. unfold METADATA_COLUMN, FUEL_BLOCKS_COLUMN,
    FUEL_BLOCK_MERKLE_DATA_COLUMN, FUEL_BLOCK_MERKLE_METADATA_COLUMN, FUEL_BLOCK_CONSENSUS_COLUMN, VERSIONS_COLUMN_17,
    VERSIONS_COLUMN_18. repeat case_decide; [exfalso; column_lia..|done].
Qed.

Lemma sample_db_chain : db_chain chain_id state_keys policy sample_db 0 [genesis].
Proof.
  eexists _, _, _, _. split; [apply opened_ok; [done|apply sample_opened]|]. split; [done|].
  split; [apply sample_chain_held|done].
Qed.

(** ** The importer *)

(** The executor writes one coin per block. *)
#[global] Instance ports : ImporterPorts Z Z unit unit := {
  validate _ b := Ok ([], [], coin_changes 1 (Blocks.height (consensus (header b))));
  verifier_config := {| vc_consensus := PoAConfig [5]; vc_block_height := 0; vc_da_block_height := 0 |};
}.

Lemma coin_within x y : within state_keys (coin_changes x y).
Proof.
  unfold coin_changes. split.
  - intros c [m [<- _]%lookup_singleton_Some]. by exists [0].
  - intros k c [-> ->]%change_at_singleton. done.
Qed.

#[global] Instance ports_laws : ImporterPortsLaws Z Z unit unit state_keys.
Proof. split. intros db b st ev ch [= <- <- <-]. apply coin_within. Qed.

Definition block_1 : SealedBlock Z Z := {|
  entity := make_block (partial 0 (sum genesis_id) 1 11) [7];
  seal := CPoA 5;
|}.

Definition import_1 : list (Action (Tx := Z) (Signature := Z) (Status := unit) (Event := unit)) :=
  [CallExecuteAndCommit block_1; RunCommand; AcquirePermit; RunCommand].
End SampleChain.
