(* ===== verification/ImporterSpec.v ===== *)
(** * What the importer promises

    The properties of the importer, over any sequence of calls, drops and steps of its
    inner task: the chain of the database, the order and number of commits, the answers
    to calls, and that valid blocks are taken. *)

From stdpp Require Import prelude gmap list strings sorting.
From Stdlib Require Import ZArith Lia.
From S2P Require Import Prelude.
From S2P Require Import StorageTx.
From S2P Require Import HistoricalDb.
From S2P Require Import HistoricalDbFacts.
From S2P Require Import Database.
From S2P Require Import DatabaseFacts.
From S2P Require Import Tables.
From S2P Require Import Blocks.
From S2P Require Import BlockStore.
From S2P Require Import ChainFacts.
From S2P Require Import Verifier.
From S2P Require Import Importer.
From S2P Require Import ImporterFacts.
From S2P Require Import ImporterInv.
From S2P Require Import SampleChain.
Local Open Scope Z_scope.

Section claims.
Context {Tx Signature Status Event : Type} `{!ChainCrypto Tx Signature} `{!ChainCryptoLaws Tx Signature}.
Context `{!BlockCodecs Tx Signature} `{!BlockCodecsLaws Tx Signature}.
Context `{!HashOrder Z} `{!HashOrder Key} `{!MerkleTree} `{!MerkleTreeLaws}.
Context `{!Postcard} `{!PostcardLaws} `{!MetadataCodec} `{!MetadataCodecLaws}.
Context `{!ImporterPorts Tx Signature Status Event}.
Context (chain_id : Z) (state_keys : Z → Key → Prop) (Hstate : state_tables state_keys) (p : StateRewindPolicy).
Context `{!ImporterPortsLaws Tx Signature Status Event state_keys}.
Abbreviation Act := (@Action Tx Signature Status Event).
Abbreviation Machine := (@Importer Tx Signature Status Event).
Implicit Types (b : SealedBlock Tx Signature) (bs : list (SealedBlock Tx Signature)) (m : Machine).

(** Results given to [commit_result] are local ones, with changes of the state. *)
Definition local_result (a : Act) : Prop :=
  match a with
  | CallCommitResult r => source (result_of r) = Local ∧ within state_keys (changes_of r)
  | _ => True
  end.

Abbreviation inv := (importer_inv chain_id state_keys p (λ _ _, True)).

Lemma local_results_ok bs l m : Forall local_result l → actions_ok chain_id state_keys (λ _ _, True) bs l m.
Proof.
  revert m. induction l as [|a l IH]; intros m Hl; [done|]. apply Forall_cons in Hl as [Ha Hl].
  split; [|by apply IH]. by destruct a; [destruct Ha|..].
Qed.

Lemma reachable_inv n db g bs l :
  db_chain chain_id state_keys p db g bs → Forall local_result l →
  ∃ cs, inv n g bs cs (acts chain_id l (Importer_new db n)).
Proof.
  intros Hdb Hl. eapply (acts_inv chain_id state_keys Hstate p (λ _ _, True));
    [done|by apply importer_new_inv|by apply local_results_ok].
Qed.

(** A machine that some calls, drops and steps lead to from a database with the chain [bs]. *)
Record reachable (n : nat) (g : Z) bs m : Prop := {
  re_start : ∃ db l, db_chain chain_id state_keys p db g bs ∧ Forall local_result l ∧
    m = acts chain_id l (Importer_new db n);
}.

Lemma reachable_cs n g bs m : reachable n g bs m → ∃ cs, inv n g bs cs m.
Proof. intros [(db & l & Hdb & Hl & ->)]. by apply reachable_inv. Qed.

(** C11: whatever calls overlap, time out or are dropped, the database of the importer holds
    the chain it started with followed by the blocks announced to subscribers, in their
    order: every block can be read back in full.  A block from the network was announced
    only if it extends the chain before it, and subscribers never have more results to
    work on than the buffer allows. *)
Theorem importer_keeps_chain n g bs m :
  reachable n g bs m →
  let new := sealed_block <$> broadcast m in
  let db := rocks (data (database m)) in
  Database.height (database m) = Some (latest g (bs ++ new)) ∧
  (∀ h b, chain_at g (bs ++ new) h = Some b →
     get_full_block db h = Ok {| header := uncached (header (entity b)); transactions := transactions (entity b) |}) ∧
  (∀ i r, broadcast m !! i = Some r → source r = Network →
     extends g (bs ++ take i new) (entity (sealed_block r))) ∧
  (unprocessed m ≤ n)%nat.
Proof.
  intros [cs [Hc _]]%reachable_cs. pose proof (iv_chain _ _ _ _ _ _ _ _ _ Hc) as Hdb.
  destruct (db_chain_reads _ _ _ _ _ _ Hdb) as (s & Hs & Hch). split_and!.
  - apply (db_chain_height _ _ _ _ _ _ Hdb).
  - intros h b Hb. destruct (chain_at_inv _ _ _ _ Hch h b Hb) as (Hh & _). pose proof (latest_range _ _ _ _ Hch).
    pose proof (cd_genesis _ _ _ _ Hch). unfold blocks in *. apply (get_full_block_ok chain_id _ s g _ Hs Hch); [lia|done].
  - apply (iv_network _ _ _ _ _ _ _ _ _ Hc).
  - pose proof (iv_permits _ _ _ _ _ _ _ _ _ Hc). lia.
Qed.

(** C13: every announced block was committed by exactly one call, calls commit in the order
    in which they started, and a call returned [Ok] exactly if it committed its block: an
    error means that nothing of it is in the database. *)
Theorem importer_commits_exactly_once n g bs m :
  reachable n g bs m →
  ∃ cs, StronglySorted lt cs ∧
    (λ c, calls m !! c) <$> cs = Some <$> (sealed_block <$> broadcast m) ∧
    ∀ c r, (c, r) ∈ returned m → (is_ok r = true ↔ c ∈ cs).
Proof.
  intros [cs [Hc _]]%reachable_cs. exists cs. split_and!.
  - eapply StronglySorted_app_1_l, (iv_order _ _ _ _ _ _ _ _ _ Hc).
  - apply (iv_committed _ _ _ _ _ _ _ _ _ Hc).
  - intros c r Hr. apply (iv_returned _ _ _ _ _ _ _ _ _ Hc c r Hr).
Qed.

(** A call that was accepted always returns: once the inner task has worked off the
    commands before it and there is a permit, it has its answer. *)
Theorem importer_call_returns n g bs m c ph :
  reachable n g bs m → guard m = Some (c, ph) → (0 < permits m)%nat →
  let m' := acts chain_id (repeat RunCommand (length (commands m)) ++ [AcquirePermit; RunCommand]) m in
  guard m' = None ∧ ∃ r, (c, r) ∈ returned m'.
Proof.
  intros [cs Hm]%reachable_cs Hgu Hp. unfold acts at 1. rewrite foldl_app.
  destruct (drain chain_id state_keys Hstate p (λ _ _, True) (λ _ _ _ _ _, I) n g bs cs _ m c Hm eq_refl)
    as ([cs' Hm'] & Hperm & Hc); [left; by eauto|].
  assert (answered c (acts chain_id [AcquirePermit; RunCommand] (acts chain_id (repeat RunCommand (length (commands m))) m)))
    as [Hg ([c' r] & -> & Hr)%list_elem_of_fmap]; [|by eauto].
  destruct Hc as [Ha|(Hnil & ph' & Hgu')].
  - set (m1 := acts _ _ m) in *. clearbody m1. unfold acts. cbn [foldl].
    replace (act chain_id AcquirePermit m1) with m1 by (unfold act; by rewrite (proj1 Ha)). simpl.
    destruct (running m1); [by apply run_command_answered|done].
  - eapply (acquire_and_run chain_id state_keys Hstate p (λ _ _, True));
      [done|exact Hm'|exact Hgu'|done|lia].
Qed.

(** C15: the checks of the importer decide validity: the preparation of a block succeeds
    exactly for a block sealed by a signature with the next height that extends the chain,
    whose transactions are different and not on the chain, and that the executor accepts. *)
Theorem importer_checks_are_exact db g bs b :
  db_chain chain_id state_keys p db g bs →
  is_ok (prepare_import_result chain_id b db) = true ↔
  (∃ sig, seal b = CPoA sig) ∧ height_of b = latest g bs + 1 ∧ height_of b ≤ U32 ∧ extends g bs (entity b) ∧
  new_transactions chain_id bs b ∧ is_ok (validate db (entity b)) = true.
Proof.
  intros Hdb. split.
  - intros Hok. destruct (prepare_import_result chain_id b db) as [x|] eqn:Hx; [|done].
    destruct (prepare_ok chain_id state_keys p _ _ _ _ _ Hdb Hx) as (_ & _ & _ & Hcc & Hex).
    destruct (create_block_changes_ok chain_id state_keys p _ _ _ _ _ Hdb Hcc) as (Hh & Hmax & [sig Hsig] & t & Ht & _).
    destruct (db_chain_reads _ _ _ _ _ _ Hdb) as (s & Hs & Hch).
    split_and!; [by eauto|done|lia|done| |].
    + eapply (store_new_block_inv chain_id _ s); [done|done|done|unfold height_of in Hh; unfold block_height; lia|exact Ht].
    + unfold prepare_import_result, verify_and_execute_block_inner in Hx. rewrite Hsig in Hx.
      destruct (ensure_next_block_height b db); [|done]. cbn [result_bind] in Hx.
      destruct (verify_block_fields _ _ _ _); [|done]. by destruct (validate db (entity b)).
  - intros ([sig Hsig] & Hh & Hmax & Hex & Hn & Hv). destruct (validate db (entity b)) as [[[st ev] ch]|] eqn:Hval; [|done].
    by destruct (prepare_accepts chain_id state_keys p _ _ _ _ _ _ _ _ Hdb Hsig Hh Hmax Hn Hex Hval) as [x ->].
Qed.

(** A block sealed by a signature that continues the chain, with new transactions and
    valid for the executor, is imported by an idle importer: the call returns [Ok] and the
    block is the last of the chain. *)
Theorem importer_takes_valid_block n g bs m b sig r :
  reachable n g bs m → guard m = None → dropped m = false → commands m = [] → (0 < permits m)%nat →
  let chain := bs ++ (sealed_block <$> broadcast m) in
  seal b = CPoA sig → height_of b = latest g chain + 1 → height_of b ≤ U32 →
  new_transactions chain_id chain b → extends g chain (entity b) → validate (database m) (entity b) = Ok r →
  let m' := acts chain_id [CallExecuteAndCommit b; RunCommand; AcquirePermit; RunCommand] m in
  (length (calls m), Ok ()) ∈ returned m' ∧
  sealed_block <$> broadcast m' = (sealed_block <$> broadcast m) ++ [b] ∧
  Database.height (database m') = Some (height_of b).
Proof.
  intros [cs [Hc Hg]]%reachable_cs Hgu Hd Hq Hp chain Hseal Hh Hmax Hn Hex Hv.
  subst chain.
  pose proof (iv_chain _ _ _ _ _ _ _ _ _ Hc) as Hdb. destruct r as [[st ev] ch].
  destruct (prepare_accepts chain_id state_keys p _ _ _ _ _ _ _ _ Hdb Hseal Hh Hmax Hn Hex Hv) as [x Hx].
  destruct (prepare_ok chain_id state_keys p _ _ _ _ _ Hdb Hx) as (Hxb & _ & Hw & Hcc & _).
  rewrite <- Hxb in Hcc.
  destruct (commit_prepared_ok chain_id state_keys Hstate p _ _ _ x Hdb Hcc Hw) as (db' & Hcm & Hch').
  assert (running m = true) as Hr.
  { pose proof (iv_running _ _ _ _ _ _ _ _ _ Hc) as Hrun. destruct (running m); [done|]. by rewrite Hrun in Hd. }
  pose proof (db_chain_height _ _ _ _ _ _ Hch') as Hheight. unfold blocks in *.
  destruct (permits m) as [|k] eqn:Hk; [lia|].
  set (m1 := send (PrepareImport (length (calls m)) b) (start_call b WaitsForPrepared m)).
  set (m2 := with_guard (Some (length (calls m), WaitsForPermit (Prepared x))) (with_commands [] m1)).
  set (m3 := send (CommitResult (length (calls m)) (Prepared x))
    (with_guard (Some (length (calls m), WaitsForCommit)) (with_permits k (unprocessed m2) m2))).
  assert (acts chain_id [CallExecuteAndCommit b; RunCommand; AcquirePermit; RunCommand] m =
    return_call (length (calls m)) (Ok ()) (after_commit db' (Ok (result_of (prepared x))) (with_commands [] m3))) as ->.
  { assert (act chain_id (CallExecuteAndCommit b) m = m1) as H1' by (unfold act; by rewrite Hgu, Hd).
    assert (act chain_id RunCommand m1 = m2) as H2'.
    { unfold act. change (running m1) with (running m). rewrite Hr. eapply run_prepare; [|done|done].
      unfold m1, send. cbn [commands with_commands start_call]. by rewrite Hq. }
    assert (act chain_id AcquirePermit m2 = m3) as H3'.
    { unfold act. cbn [guard m2 with_guard]. change (permits m2) with (permits m). by rewrite Hk. }
    unfold acts. cbn [foldl]. rewrite H1', H2', H3'. unfold act. change (running m3) with (running m). rewrite Hr.
    by apply (run_commit _ m3 _ (Prepared x) WaitsForCommit [] db' (Ok _)). }
  cbn [returned return_call broadcast after_commit with_commands database]. split_and!.
  - apply elem_of_app. right. by left.
  - rewrite fmap_app. cbn [fmap list_fmap]. by rewrite Hxb.
  - rewrite Hheight. f_equal. unfold latest in *. rewrite length_app. simpl. lia.
Qed.
End claims.

(** ** Samples *)

Import SampleChain.

Abbreviation sample_machine := (acts chain_id import_1 (Importer_new sample_db 1)).

Lemma sample_reachable l :
  Forall (local_result state_keys) l →
  reachable chain_id state_keys policy 1 0 [genesis] (acts chain_id l (Importer_new sample_db 1)).
Proof. intros Hl. split. exists sample_db, l. split_and!; [apply sample_db_chain|done|done]. Qed.

Lemma import_1_local : Forall (local_result state_keys) import_1.
Proof. by repeat constructor. Qed.

Lemma importer_keeps_chain_witness :
  let m := sample_machine in
  let new := sealed_block <$> broadcast m in
  Database.height (database m) = Some (latest 0 ([genesis] ++ new)) ∧
  (∀ h b, chain_at 0 ([genesis] ++ new) h = Some b →
     get_full_block (rocks (data (database m))) h =
       Ok {| header := uncached (header (entity b)); transactions := transactions (entity b) |}) ∧
  (∀ i r, broadcast m !! i = Some r → source r = Network →
     extends 0 ([genesis] ++ take i new) (entity (sealed_block r))) ∧
  (unprocessed m ≤ 1)%nat.
Proof.
  apply (importer_keeps_chain chain_id state_keys state_keys_ok policy 1 0 [genesis]).
  apply sample_reachable, import_1_local.
Defined.

Lemma importer_commits_exactly_once_witness :
  let m := sample_machine in
  ∃ cs, StronglySorted lt cs ∧ (λ c, calls m !! c) <$> cs = Some <$> (sealed_block <$> broadcast m) ∧
    ∀ c r, (c, r) ∈ returned m → (is_ok r = true ↔ c ∈ cs).
Proof.
  apply (importer_commits_exactly_once chain_id state_keys state_keys_ok policy 1 0 [genesis]).
  apply sample_reachable, import_1_local.
Defined.

Lemma importer_call_returns_witness :
  let m := act chain_id (CallExecuteAndCommit block_1) (Importer_new sample_db 1) in
  let m' := acts chain_id (repeat RunCommand (length (commands m)) ++ [AcquirePermit; RunCommand]) m in
  guard m' = None ∧ ∃ r, (0%nat, r) ∈ returned m'.
Proof.
  apply (importer_call_returns chain_id state_keys state_keys_ok policy 1 0 [genesis]
    (act chain_id (CallExecuteAndCommit block_1) (Importer_new sample_db 1)) 0 WaitsForPrepared);
    [|done|simpl; lia].
  apply (sample_reachable [CallExecuteAndCommit block_1]). by repeat constructor.
Defined.

Lemma block_1_extends : extends 0 [genesis] (entity block_1).
Proof.
  split; [|by vm_compute..]. exists genesis. split; [done|]. by vm_compute.
Qed.

Lemma importer_checks_are_exact_witness :
  is_ok (prepare_import_result chain_id block_1 sample_db) = true ↔
  (∃ sig, seal block_1 = CPoA sig) ∧ height_of block_1 = latest 0 [genesis] + 1 ∧ height_of block_1 ≤ U32 ∧
  extends 0 [genesis] (entity block_1) ∧ new_transactions chain_id [genesis] block_1 ∧
  is_ok (validate sample_db (entity block_1)) = true.
Proof.
  apply (importer_checks_are_exact chain_id state_keys policy). apply sample_db_chain.
Defined.

Lemma importer_takes_valid_block_witness :
  (0%nat, Ok ()) ∈ returned sample_machine ∧ sealed_block <$> broadcast sample_machine = [block_1] ∧
  Database.height (database sample_machine) = Some 1.
Proof.
  apply (importer_takes_valid_block chain_id state_keys state_keys_ok policy 1 0 [genesis]
    (Importer_new sample_db 1) block_1 5 ([], [], SampleDb.coin_changes 1 1)); try done.
  - apply (sample_reachable []). constructor.
  - simpl. lia.
  - split; [by repeat constructor; rewrite ?elem_of_nil; auto|].
    intros b' tx tx' ->%list_elem_of_singleton Htx. by apply elem_of_nil in Htx.
  - apply block_1_extends.
Defined.
