(* ===== verification/Node.v ===== *)
(** * The block-producing node

    The production task, the producer and the importer together: the task runs while the
    network imports blocks, calls are dropped and subscribers hold results back, and the
    clock, the signer, the leader lock and the relayer answer as they like.  The node
    only ever commits blocks that extend its chain; of the predefined blocks among them
    the time and the DA height are as they were given. *)

From stdpp Require Import prelude gmap list strings.
From Stdlib Require Import ZArith Lia.
From S2P Require Import Prelude.
From S2P Require Import Programs.
From S2P Require Import StorageTx.
From S2P Require Import HistoricalDb.
From S2P Require Import HistoricalDbFacts.
From S2P Require Import Database.
From S2P Require Import DatabaseFacts.
From S2P Require Import Tables.
From S2P Require Import Blocks.
From S2P Require Import BlockStore.
From S2P Require Import ChainFacts.
From S2P Require Import Verifier.
From S2P Require Import Producer.
From S2P Require Import Importer.
From S2P Require Import ImporterFacts.
From S2P Require Import ImporterInv.
From S2P Require Import PoaService.
From S2P Require Import PoaWp.
From S2P Require Import ProducerFacts.
From S2P Require Import SampleChain.
Local Open Scope Z_scope.

(** The executor as the producer uses it, with transactions of the pool or given ones. *)
Class BlockExecutor (Tx Status Event PoolSource : Type) := {
  produce_from_pool : Database → Components PoolSource → result (Produced Tx Status Event) string;
  produce_from_transactions : Database → Components (list Tx) → result (Produced Tx Status Event) string;
}.

Class BlockExecutorLaws (Tx Signature Status Event PoolSource : Type) `{!ChainCrypto Tx Signature}
    `{!BlockExecutor Tx Status Event PoolSource} (state_keys : Z → Key → Prop) : Prop := {
  produced_from_pool db c r : produce_from_pool db c = Ok r → executed_from state_keys (header_to_produce c) r;
  produced_from_transactions db c r :
    produce_from_transactions db c = Ok r → executed_from state_keys (header_to_produce c) r;
}.

Section node.
Context {Tx Signature Status Event PoolSource : Type} `{!ChainCrypto Tx Signature} `{!ChainCryptoLaws Tx Signature}.
Context `{!BlockCodecs Tx Signature} `{!BlockCodecsLaws Tx Signature}.
Context `{!HashOrder Z} `{!HashOrder Key} `{!MerkleTree} `{!MerkleTreeLaws}.
Context `{!Postcard} `{!PostcardLaws} `{!MetadataCodec} `{!MetadataCodecLaws}.
Context `{!ImporterPorts Tx Signature Status Event} `{!BlockExecutor Tx Status Event PoolSource}.
Context (chain_id : Z) (predefined : Z → result (option (Block Tx)) string).
Abbreviation Machine := (@Importer Tx Signature Status Event).
Abbreviation EvT := (Ev Tx Signature Status Event).
Abbreviation Prod := (Produced Tx Status Event).
Abbreviation Done := (MainTask * result TaskNextAction string)%type.

(** ** The node *)

(** What the production task is doing: running, waiting for the producer, which works on
    a view, or waiting for a call of the importer. *)
Inductive Task :=
| Runs (q : Prog EvT Done)
| Producing (view : Database) (e : EvT (result Prod string)) (k : result Prod string → Prog EvT Done)
| Waiting (call : nat) (k : result unit string → Prog EvT Done).

Record Node := { importer : Machine; task : Task }.

Definition err_string {A E} (msg : string) (r : result A E) : result A string :=
  match r with Ok a => Ok a | Err _ => Err msg end.

(** Requests that are answered at once; requests for blocks take time. *)
Definition answers (m : Machine) {X} (e : EvT X) : X → Prop :=
  match e in Ev _ _ _ _ X return X → Prop with
  | LatestBlockHeader => λ x, x = latest_block_header (rocks (data (database m)))
  | GetPredefinedBlock h => λ x, x = predefined h
  | ProduceBlock _ _ _ _ | ProducePredefined _ => λ _, False
  | CommitBlock _ | ExecuteAndCommit _ => λ _, False
  | _ => λ _, True
  end.

(** What the producer may answer to a request, with any relayer, gas price and
    configuration; production may also time out. *)
Definition production (view now : Database) {X} (e : EvT X) : X → Prop :=
  match e in Ev _ _ _ _ X return X → Prop with
  | ProduceBlock h t src _ => λ x,
      x = Err "Block production timed out" ∨
      ∃ (P : Ports Tx) locked, relayer_typed P ∧
        match src with
        | TxPool => ∃ pool, x = err_string "producer" (produce_and_execute P produce_from_pool locked view now h t pool)
        | SpecificTransactions txs =>
            x = err_string "producer"
                  (produce_and_execute_block_transactions P produce_from_transactions locked view now h t txs)
        end
  | ProducePredefined b => λ x,
      ∃ (P : Ports Tx) locked,
        x = err_string "producer" (produce_and_execute_predefined P produce_from_transactions locked view now b)
  | _ => λ _, False
  end.

(** A call of the importer: refused while another one runs. *)
Definition call_importer (a : Action) (k : result unit string → Prog EvT Done) (m : Machine) : Node :=
  match guard m with
  | None => if dropped m then {| importer := m; task := Runs (k (Err "importer")) |}
            else {| importer := act chain_id a m; task := Waiting (length (calls m)) k |}
  | Some _ => {| importer := m; task := Runs (k (Err "importer")) |}
  end.

(** What happens without the task: network imports, the steps of the importer, and
    dropped calls of others. *)
Definition environment_action (nd : Node) (a : Action (Tx := Tx) (Signature := Signature)
    (Status := Status) (Event := Event)) : Prop :=
  match a with
  | CallCommitResult _ | DropImporter => False
  | DropCall =>
      match task nd, guard (importer nd) with
      | Waiting call _, Some (holder, _) => holder ≠ call
      | _, _ => True
      end
  | _ => True
  end.

Inductive node_step (nd : Node) : Node → Prop :=
| ns_environment a :
    environment_action nd a →
    node_step nd {| importer := act chain_id a (importer nd); task := task nd |}
| ns_answer X (e : EvT X) k x :
    task nd = Runs (Vis e k) → answers (importer nd) e x →
    node_step nd {| importer := importer nd; task := Runs (k x) |}
| ns_production e k :
    task nd = Runs (Vis e k) →
    node_step nd {| importer := importer nd; task := Producing (database (importer nd)) e k |}
| ns_produced view e k x :
    task nd = Producing view e k → production view (database (importer nd)) e x →
    node_step nd {| importer := importer nd; task := Runs (k x) |}
| ns_commit r k :
    task nd = Runs (Vis (CommitBlock r) k) → node_step nd (call_importer (CallCommitResult r) k (importer nd))
| ns_execute b k :
    task nd = Runs (Vis (ExecuteAndCommit b) k) →
    node_step nd (call_importer (CallExecuteAndCommit b) k (importer nd))
| ns_returned call k r :
    task nd = Waiting call k → (call, r) ∈ returned (importer nd) →
    node_step nd {| importer := importer nd; task := Runs (k (err_string "importer" r)) |}
| ns_next t action :
    task nd = Runs (Ret (t, Ok action)) → action ≠ StopTask →
    node_step nd {| importer := importer nd; task := Runs (run t) |}.

(** The node starts with the task of the last block of its database. *)
Definition node_new (db : Database) (max_block_notify_buffer : nat) (last_block : BlockHeader) (tr : Trigger) : Node :=
  {| importer := Importer_new db max_block_notify_buffer; task := Runs (start last_block tr) |}.

(** ** The invariant *)

Section invariant.
Context (state_keys : Z → Key → Prop) (Hstate : state_tables state_keys) (p : StateRewindPolicy).
Context `{!ImporterPortsLaws Tx Signature Status Event state_keys}.
Context `{!BlockExecutorLaws Tx Signature Status Event PoolSource state_keys}.
Context (n : nat) (g : Z) (bs : list (SealedBlock Tx Signature)).

Abbreviation wp_task := (wp prefix (pre state_keys g predefined) (λ X e _, post state_keys g predefined X e)).
Abbreviation db_chain := (db_chain chain_id state_keys p).

Definition ended (d : Done) (ch : list (SealedBlock Tx Signature)) : Prop := task_ok g d.1 ch.

Definition chain (nd : Node) : list (SealedBlock Tx Signature) := bs ++ blocks (importer nd).

(** The task can go on from the chain as it is, and as it will be. *)
Definition task_inv (nd : Node) : Prop :=
  match task nd with
  | Runs q => wp_task q (chain nd) ended
  | Producing view e k =>
      (∃ bs1, bs1 `prefix_of` chain nd ∧ db_chain view g bs1) ∧
      ∀ x ch, chain nd `prefix_of` ch → post state_keys g predefined _ e ch x → wp_task (k x) ch ended
  | Waiting call k =>
      ∃ b, calls (importer nd) !! call = Some b ∧
        ∀ x ch, chain nd `prefix_of` ch → (x = Ok () → committed g ch b) → wp_task (k x) ch ended
  end.

Definition node_inv (nd : Node) : Prop :=
  (∃ cs, importer_inv chain_id state_keys p (links g predefined) n g bs cs (importer nd)) ∧ task_inv nd.

Lemma ended_mono d ch ch' : ch `prefix_of` ch' → ended d ch → ended d ch'.
Proof. apply task_ok_mono. Qed.

Lemma task_inv_grow m m' t :
  blocks m `prefix_of` blocks m' → calls m `prefix_of` calls m' →
  task_inv {| importer := m; task := t |} → task_inv {| importer := m'; task := t |}.
Proof.
  intros Hb Hc. assert (bs ++ blocks m `prefix_of` bs ++ blocks m') as Hch by (by apply prefix_app).
  unfold task_inv, chain. simpl. destruct t as [q|view e k|call k].
  - apply wp_grow; [apply _|intros X e; apply pre_mono|done|intros d; apply ended_mono|done].
  - intros [(bs1 & Hp1 & Hdb) Hk]. split; [exists bs1; split; [by trans (bs ++ blocks m)|done]|].
    intros x ch Hx. apply Hk. by trans (bs ++ blocks m').
  - intros (b & Hl & Hk). exists b. split; [by eapply prefix_lookup_Some|]. intros x ch Hx. apply Hk.
    by trans (bs ++ blocks m').
Qed.

Lemma act_node nd a :
  node_inv nd → action_ok state_keys (links g predefined) bs (importer nd) a →
  node_inv {| importer := act chain_id a (importer nd); task := task nd |}.
Proof.
  destruct nd as [m t]. intros [[cs Hm] Ht] Ha.
  destruct (act_inv chain_id state_keys Hstate p (links g predefined) (links_mono g predefined) _ _ _ _ _ _ Hm Ha) as [cs' Hm'].
  split; [by exists cs'|]. destruct (act_grows chain_id a m). by eapply task_inv_grow.
Qed.

(** ** Answers *)

Lemma answers_post m cs X (e : EvT X) x :
  importer_inv chain_id state_keys p (links g predefined) n g bs cs m → answers m e x → post state_keys g predefined X e (bs ++ blocks m) x.
Proof.
  intros [Hc _]. pose proof (iv_chain _ _ _ _ _ _ _ _ _ Hc) as Hdb. destruct e; simpl; try done.
  intros ->. destruct (db_chain_reads _ _ _ _ _ _ Hdb) as (s & Hs & Hch).
  pose proof (latest_range _ _ _ _ Hch). destruct (chain_at_is_Some g (bs ++ blocks m) (latest g (bs ++ blocks m)))
    as [b Hb]; [lia|].
  rewrite (latest_header_ok _ _ _ _ _ Hs Hch b Hb). simpl. exists b. split; [|done].
  destruct (chain_at_inv _ _ _ _ Hch _ _ Hb) as (_ & _ & Hh). unfold block_height in Hh. by rewrite Hh.
Qed.

Lemma production_post view now X (e : EvT X) x bs1 ch :
  db_chain view g bs1 → bs1 `prefix_of` ch → production view now e x → post state_keys g predefined X e ch x.
Proof.
  intros Hdb Hp. destruct e; simpl; try done.
  - intros [->|(P & locked & Hrel & Hx)]; [done|]. destruct source as [|txs].
    + destruct Hx as [pool ->]. destruct (produce_and_execute _ _ _ _ _ _ _ _) as [r|] eqn:Hr; [|done]. simpl.
      eapply (produce_and_execute_ok _ state_keys _ P Hrel) in Hr as (? & ? & ? & ?);
        [|by intros ???; apply produced_from_pool|exact Hdb]. split_and!; [done..|by exists bs1].
    + subst x. unfold produce_and_execute_block_transactions.
      destruct (produce_and_execute _ _ _ _ _ _ _ _) as [r|] eqn:Hr; [|done]. simpl.
      eapply (produce_and_execute_ok _ state_keys _ P Hrel) in Hr as (? & ? & ? & ?);
        [|by intros ???; apply produced_from_transactions|exact Hdb]. split_and!; [done..|by exists bs1].
  - intros (P & locked & ->). destruct (produce_and_execute_predefined _ _ _ _ _ _) as [r|] eqn:Hr; [|done]. simpl.
    eapply (produce_and_execute_predefined_ok _ state_keys) in Hr as (? & ? & ?);
      [|by intros ???; apply produced_from_transactions|exact Hdb]. split_and!; [done..|by exists bs1].
Qed.

(** A call of the task: it waits for the answer or is refused. *)
Lemma call_importer_inv m b a k :
  node_inv {| importer := m; task := Runs Panic |} → action_ok state_keys (links g predefined) bs m a →
  (∀ m', guard m' = None → dropped m' = false → calls (act chain_id a m') = calls m' ++ [b]) →
  (∀ x ch, bs ++ blocks m `prefix_of` ch → (x = Ok () → committed g ch b) → wp_task (k x) ch ended) →
  node_inv (call_importer a k m).
Proof.
  intros Hm Ha Hcalls Hk.
  assert (node_inv {| importer := m; task := Runs (k (Err "importer")) |}) as Herr.
  { destruct Hm as [Hm _]. split; [done|]. by apply Hk. }
  unfold call_importer. destruct (guard m) eqn:Hg; [done|]. destruct (dropped m) eqn:Hd; [done|].
  apply (act_node _ a) in Hm as [Hm _]; [|done]. split; [done|]. exists b. cbn [importer].
  rewrite Hcalls, lookup_app_r, Nat.sub_diag by done. split; [done|]. intros x ch Hch. apply Hk.
  destruct (act_grows chain_id a m) as [Hb _]. trans (bs ++ blocks (act chain_id a m)); [by apply prefix_app|done].
Qed.

(** A call that returned well has committed its block. *)
Lemma returned_committed m cs call b r :
  importer_inv chain_id state_keys p (links g predefined) n g bs cs m → calls m !! call = Some b → (call, r) ∈ returned m →
  err_string "importer" r = Ok () → committed g (bs ++ blocks m) b.
Proof.
  intros [Hc _] Hb Hr He. destruct (iv_returned _ _ _ _ _ _ _ _ _ Hc call r Hr) as (_ & _ & Hiff).
  assert (call ∈ cs) as Hin by (apply Hiff; by destruct r).
  assert (b ∈ blocks m) as Hbl.
  { pose proof (iv_committed _ _ _ _ _ _ _ _ _ Hc) as Hcom.
    assert (Some b ∈ Some <$> blocks m) as (b' & [= <-] & ?)%list_elem_of_fmap; [|done].
    rewrite <- Hcom. apply list_elem_of_fmap. by exists call. }
  destruct (db_chain_reads _ _ _ _ _ _ (iv_chain _ _ _ _ _ _ _ _ _ Hc)) as (s & Hs & Hch).
  apply (chain_at_block _ _ _ _ Hch). apply elem_of_app. by right.
Qed.

Lemma node_step_inv nd nd' : node_inv nd → node_step nd nd' → node_inv nd'.
Proof.
  intros Hnd Hst. pose proof Hnd as [[cs Hm] Ht].
  assert (node_inv {| importer := importer nd; task := Runs Panic |}) as Hidle by (by split; [exists cs|]).
  unfold task_inv in Ht.
  destruct Hst as [a Ha|X e k x He Hx|e k He|view e k x He Hx|r k He|b k He|call k r He Hr|t action He Ha];
    try rewrite He in Ht.
  - apply act_node; [done|]. by destruct a.
  - split; [by exists cs|]. destruct Ht as [_ Hk]. by eapply Hk, answers_post.
  - destruct Ht as [_ Hk]. split; [by exists cs|]. split; [|exact Hk].
    exists (chain nd). split; [done|]. by destruct Hm as [Hc _]; apply (iv_chain _ _ _ _ _ _ _ _ _ Hc).
  - destruct Ht as [(bs1 & Hp1 & Hdb) Hk]. split; [by exists cs|]. by eapply Hk, production_post.
  - destruct Ht as [Hp Hk]. apply (call_importer_inv _ (sealed_block (result_of r))); try done.
    intros m' Hg Hd. simpl. by rewrite Hg, Hd.
  - destruct Ht as [Hp Hk]. apply (call_importer_inv _ b); try done.
    intros m' Hg Hd. simpl. by rewrite Hg, Hd.
  - destruct Ht as (b & Hb & Hk). split; [by exists cs|]. apply Hk; [done|]. by eapply returned_committed.
  - split; [by exists cs|]. eapply wp_mono; [apply _| |apply task_run_keeps; exact Ht]. by intros [t' r].
Qed.

Lemma node_reachable_inv db hd tr nd :
  db_chain db g bs → latest_block_header (rocks (data db)) = Ok (Some hd) →
  rtc node_step (node_new db n hd tr) nd → node_inv nd.
Proof.
  intros Hdb Hhd Hr. assert (node_inv (node_new db n hd tr)) as Hnew.
  { split; [exists []; by apply importer_new_inv|].
    pose proof (answers_post (Importer_new db n) [] _ LatestBlockHeader (Ok (Some hd))) as Ha.
    destruct Ha as (b & Hb & Htime); [by apply importer_new_inv|done|].
    eapply wp_mono; [apply _| |by eapply start_ok]. by intros [t r]. }
  induction Hr as [nd|nd nd1 nd' Hst _ IH]; [done|]. by eapply IH, node_step_inv.
Qed.

(** Every block the node added extends the chain before it, or continues it as a
    predefined block. *)
Lemma node_blocks_extend nd i r :
  node_inv nd → broadcast (importer nd) !! i = Some r →
  let before := bs ++ take i (blocks (importer nd)) in
  extends g before (entity (sealed_block r)) ∨
  source r = Local ∧ continues g before (entity (sealed_block r)) ∧ of_predefined predefined (entity (sealed_block r)).
Proof.
  intros [[cs [Hc _]] _] Hr before. assert (blocks (importer nd) !! i = Some (sealed_block r)) as Hi.
  { unfold blocks. by rewrite list_lookup_fmap, Hr. }
  destruct (source r) eqn:Hsrc; [left; by apply (iv_network _ _ _ _ _ _ _ _ _ Hc)|].
  pose proof (iv_local _ _ _ _ _ _ _ _ _ Hc i r Hr Hsrc) as Hl. destruct (Hl before) as [|[??]]; [done| |by left|by right].
  destruct (db_chain_reads _ _ _ _ _ _ (iv_chain _ _ _ _ _ _ _ _ _ Hc)) as (s & Hs & Hch).
  destruct (cd_block _ _ _ _ Hch (length bs + i) (sealed_block r)) as [Hh _].
  { by rewrite lookup_app_r, Nat.add_comm, Nat.add_sub by lia. }
  change (height_of (sealed_block r)) with (block_height (sealed_block r)). rewrite Hh. unfold before, latest.
  rewrite length_app, length_take. apply lookup_lt_Some in Hi. lia.
Qed.

(** C1: whatever the network, the clock, the leader lock, the relayer, the subscribers and
    the scheduler do, a node keeps the chain of its database and adds only blocks with the
    height after their parent, its root and the hashes of their contents.  Their time and
    their DA height are not below those of the parent, but for a block that the node
    produced with the time and the DA height of a predefined block. *)
Theorem node_only_extends_chain db hd tr nd :
  db_chain db g bs → latest_block_header (rocks (data db)) = Ok (Some hd) →
  rtc node_step (node_new db n hd tr) nd →
  let new := sealed_block <$> broadcast (importer nd) in
  db_chain (database (importer nd)) g (bs ++ new) ∧
  ∀ i r, broadcast (importer nd) !! i = Some r →
    let b := entity (sealed_block r) in
    continues g (bs ++ take i new) b ∧
    (extends g (bs ++ take i new) b ∨ source r = Local ∧ of_predefined predefined b).
Proof.
  intros Hdb Hhd Hr. pose proof (node_reachable_inv _ _ _ _ Hdb Hhd Hr) as Hnd. split.
  - destruct Hnd as [[cs [Hc _]] _]. apply (iv_chain _ _ _ _ _ _ _ _ _ Hc).
  - intros i r Hi. destruct (node_blocks_extend _ _ _ Hnd Hi) as [He|(? & ? & ?)]; [|by auto].
    split; [by apply extends_continues|by left].
Qed.
End invariant.
End node.

(** ** Samples *)

Module SampleNode.
Import SampleChain.

(** A block of one transaction, its height. *)
Definition produce {Source} (c : Components Source) : result (Produced Z unit unit) string :=
  match Block_new (header_to_produce c) [height (p_consensus (header_to_produce c))] [] zeroed with
  | Ok b => Ok {| pr_block := b; pr_skipped := false; pr_tx_status := []; pr_events := [];
                  pr_changes := SampleDb.coin_changes 1 2 |}
  | Err _ => Err "too many"
  end.

#[global] Instance executor : BlockExecutor Z unit unit unit := {
  produce_from_pool _ := produce;
  produce_from_transactions _ := produce;
}.

Lemma produce_ok {Source} (c : Components Source) r :
  produce c = Ok r → executed_from state_keys (header_to_produce c) r.
Proof.
  unfold produce. destruct (Block_new _ _ _ _) as [b|] eqn:Hb; [|done]. intros [= <-].
  split; [by eauto|apply coin_within].
Qed.

#[global] Instance executor_laws : BlockExecutorLaws Z Z unit unit unit state_keys.
Proof. split; intros db c r; apply produce_ok. Qed.

(** The block of the height 1 is predefined, with a time before that of the genesis block. *)
Definition one_predefined (h : Z) : result (option (Block Z)) string :=
  Ok (if decide (h = 1) then Some (make_block (partial 0 zeroed 1 5) [8]) else None).

Definition node_ports : Ports Z := {|
  wait_for_at_least_height _ := Ok 0;
  get_cost_and_transactions_number_for_block _ := Err "nothing";
  production_gas_price := Ok 1;
  dry_run_gas_price := Ok 1;
  block_gas_limit_at_version _ := Ok 25;
  config_coinbase_recipient := None;
  decode_params _ := true;
  decode_bytecode _ := true;
  as_mint _ := Some (1, zeroed);
|}.

Lemma node_ports_typed : relayer_typed node_ports.
Proof. split; [intros h d [= <-]; int_lia|done]. Qed.

Abbreviation NodeZ := (Node (Tx := Z) (Signature := Z) (Status := unit) (Event := unit)).
Abbreviation EvZ := (Ev Z Z unit unit).
Abbreviation DoneZ := (MainTask * result TaskNextAction string)%type.
Abbreviation sample_step := (node_step chain_id one_predefined).

Definition first_node : NodeZ :=
  node_new sample_db 2 (uncached (header (entity genesis))) (Interval (from_secs 1)).

(** What happens without the task. *)
Definition node_after (l : list Action) (nd : NodeZ) : NodeZ :=
  {| importer := acts chain_id l (importer nd); task := task nd |}.

Lemma environment_steps l nd :
  Forall (λ a, match a with CallCommitResult _ | DropImporter | DropCall => False | _ => True end) l →
  rtc sample_step nd (node_after l nd).
Proof.
  revert nd. induction l as [|a l IH]; intros nd Hl; [by destruct nd|]. apply Forall_cons in Hl as [Ha Hl].
  eapply rtc_l; [apply (ns_environment _ _ _ a); by destruct a|]. by apply IH.
Qed.

(** The answers to a task that leads and may always produce. *)
Definition reply (m : Importer (Tx := Z) (Signature := Z) (Status := unit) (Event := unit)) {X} (e : EvZ X) : option X :=
  match e in Ev _ _ _ _ X return option X with
  | ClockNow => Some 20
  | InstantNow => Some 0
  | SignerIsAvailable => Some true
  | SealBlock _ => Some (Ok (CPoA 5))
  | SleepUntil _ | Sleep _ | ReconciliationWatermarkMax _ | Respond _ => Some ()
  | SerializeSkipped | PublishProducedBlock _ | Release | StartSyncTask | StopSyncTask => Some (Ok ())
  | LatestBlockHeader => Some (latest_block_header (rocks (data (database m))))
  | LeaderStateAt _ => Some (Ok ReconciledLeader)
  | GetPredefinedBlock h => Some (one_predefined h)
  | WaitForReadySignal => Some true
  | BorrowSyncState => Some Synced
  | SyncStateChanged => Some None
  | WaitForWork _ => Some (Deadline 0)
  | ProduceBlock _ _ _ _ | ProducePredefined _ | CommitBlock _ | ExecuteAndCommit _ => None
  end.

(** The task goes on: its request is answered, its block is produced, or committed by the
    importer. *)
Definition answered m {X} (e : EvZ X) : (X → Prog EvZ DoneZ) → NodeZ :=
  match e in Ev _ _ _ _ X return (X → Prog EvZ DoneZ) → NodeZ with
  | ProduceBlock h t TxPool _ => λ k, {| importer := m; task := Runs (k (err_string "producer"
      (produce_and_execute node_ports produce_from_pool false (database m) (database m) h t (λ _ _, Ok ())))) |}
  | ProducePredefined b => λ k, {| importer := m; task := Runs (k (err_string "producer"
      (produce_and_execute_predefined node_ports produce_from_transactions false (database m) (database m) b))) |}
  | CommitBlock r => λ k, node_after [AcquirePermit; RunCommand] (call_importer chain_id (CallCommitResult r) k m)
  | e => λ k, {| importer := m; task := Runs (match reply m e with Some x => k x | None => Vis e k end) |}
  end.

Definition advance (nd : NodeZ) : NodeZ :=
  match task nd with
  | Runs (Vis e k) => answered (importer nd) e k
  | Runs (Ret (t, Ok Continue)) => {| importer := importer nd; task := Runs (run t) |}
  | Waiting call k =>
      match list_find (λ x, x.1 = call) (returned (importer nd)) with
      | Some (_, (_, r)) => {| importer := importer nd; task := Runs (k (err_string "importer" r)) |}
      | None => nd
      end
  | _ => nd
  end.

Lemma advance_steps nd : rtc sample_step nd (advance nd).
Proof.
  destruct nd as [m [[[t [[]|]]| |X e k]|view e k|call k]]; try done; unfold advance; cbn [task importer].
  - apply rtc_once. by eapply ns_next.
  - destruct e; unfold answered; try (apply rtc_once; by eapply ns_answer); try done.
    + destruct source; [|done]. eapply rtc_l; [by eapply ns_production|]. apply rtc_once. eapply ns_produced; [done|].
      right. exists node_ports, false. split; [apply node_ports_typed|by eexists].
    + eapply rtc_l; [by eapply ns_production|]. apply rtc_once. eapply ns_produced; [done|]. by exists node_ports, false.
    + eapply rtc_l; [by eapply ns_commit|]. apply environment_steps. by repeat constructor.
  - destruct (list_find _ _) as [[i [c r]]|] eqn:Hf; [|done]. apply list_find_Some in Hf as (Hi & Hc & _). simpl in Hc. subst c.
    apply rtc_once. eapply ns_returned; [done|]. by eapply list_elem_of_lookup_2.
Qed.

(** The task produces the predefined block and one from the pool. *)
Definition last_node : NodeZ := Nat.iter 64 advance first_node.

Lemma last_node_reached : rtc sample_step first_node last_node.
Proof.
  unfold last_node. generalize 64%nat. intros n. induction n as [|n IH]; [done|]. etrans; [exact IH|apply advance_steps].
Qed.

Lemma last_node_blocks :
  (λ r, (source r, time (consensus (header (entity (sealed_block r)))))) <$> broadcast (importer last_node)
  = [(Local, 5); (Local, 20)].
Proof. vm_compute. reflexivity. Qed.
End SampleNode.

Lemma node_only_extends_chain_witness :
  let nd := SampleNode.last_node in
  let new := sealed_block <$> broadcast (importer nd) in
  length new = 2%nat ∧
  db_chain SampleChain.chain_id SampleChain.state_keys SampleChain.policy (database (importer nd)) 0
    ([SampleChain.genesis] ++ new) ∧
  ∀ i r, broadcast (importer nd) !! i = Some r →
    let b := entity (sealed_block r) in
    continues 0 ([SampleChain.genesis] ++ take i new) b ∧
    (extends 0 ([SampleChain.genesis] ++ take i new) b ∨ source r = Local ∧ of_predefined SampleNode.one_predefined b).
Proof.
  split; [vm_compute; reflexivity|].
  apply (node_only_extends_chain SampleChain.chain_id SampleNode.one_predefined SampleChain.state_keys
    SampleChain.state_keys_ok SampleChain.policy 2 0 [SampleChain.genesis]
    SampleChain.sample_db (uncached (header (entity SampleChain.genesis))) (Interval (from_secs 1))).
  - apply SampleChain.sample_db_chain.
  - by apply (latest_header_ok SampleChain.chain_id _ _ 0 [SampleChain.genesis] (λ _ _ _, eq_refl)
      SampleChain.sample_chain_held).
  - apply SampleNode.last_node_reached.
Defined.
