(* ===== verification/RedisNode.v ===== *)
(** * A node of the leader lock

    The Lua scripts of fuel-core/redis_leader_lease_adapter_scripts, which the leader lock
    runs on each of its Redis nodes.  Redis runs a script as one step.  The commands are
    those of the Redis server: [Redis] has the calls of the scripts and [RedisLaws] what
    the documentation of the commands says.  A node keeps the lease with its time to live,
    the epoch token, the stream of published blocks and the index of their heights. *)

From stdpp Require Import prelude list strings sorting.
From Stdlib Require Import ZArith Lia.
From S2P Require Import Prelude.
Local Open Scope Z_scope.

(** ** The server *)

(** What a script writes: numbers, texts and bytes.  Numbers are doubles in Lua and exact
    up to [2^53], which heights and tokens stay below. *)
Inductive RVal :=
| RNum (n : Z)
| RText (s : string)
| RBytes (l : list Z).

#[global] Instance rval_eq_dec : EqDecision RVal.
Proof. solve_decision. Defined.

Abbreviation StreamId := string.
Abbreviation Fields := (list (string * RVal)).

Definition REDIS_INT_MAX : Z := 2 ^ 63 - 1.

(** The commands; a key is used with the commands of one type.  [ZRANGE] has the members of a
    sorted set in order with their scores, [expires] tells whether a key has a time to
    live, and [elapse] what the passage of time can do. *)
Class Redis (R : Type) := {
  GET : string → R → option RVal;
  SET : string → RVal → R → R;
  SET_NX_PX : string → RVal → Z → R → R * bool;
  INCR : string → R → R * option Z;
  DEL : string → R → R * Z;
  PEXPIRE : string → Z → R → R;
  XADD : string → Fields → R → R * StreamId;
  XTRIM_MAXLEN : string → Z → R → R;
  XRANGE : string → R → list (StreamId * Fields);
  XREVRANGE : string → nat → R → list (StreamId * Fields);
  ZADD : string → Z → Z → R → R;
  ZSCORE : string → Z → R → option Z;
  ZREMRANGEBYRANK : string → Z → Z → R → R;
  ZRANGE : string → R → list (Z * Z);
  TIME : R → Z;
  expires : string → R → bool;
  elapse : R → R → Prop;
}.

(** The other keys are as before. *)
Definition same_but {R} `{!Redis R} (k : string) (r r' : R) : Prop :=
  ∀ k', k' ≠ k → GET k' r' = GET k' r ∧ XRANGE k' r' = XRANGE k' r ∧ ZRANGE k' r' = ZRANGE k' r ∧
    expires k' r' = expires k' r.

(** The ranks [start] to [stop] of [n] elements, as the first one and the one after the last;
    negative ranks count from the end. *)
Definition rank_range (n start stop : Z) : Z * Z :=
  let start := if decide (start < 0) then Z.max 0 (n + start) else start in
  let stop := if decide (stop < 0) then n + stop else Z.min stop (n - 1) in
  if decide (stop < start) then (0, 0) else (start, stop + 1).

Definition without_ranks {A} (start stop : Z) (l : list A) : list A :=
  let '(a, b) := rank_range (Z.of_nat (length l)) start stop in
  take (Z.to_nat a) l ++ drop (Z.to_nat b) l.

Class RedisLaws (R : Type) `{!Redis R} : Prop := {
  set_frame k v r : same_but k r (SET k v r);
  get_set k v r : GET k (SET k v r) = Some v;
  expires_set k v r : expires k (SET k v r) = false;
  set_nx_frame k v t r : same_but k r (SET_NX_PX k v t r).1;
  set_nx_free k v t r : 0 < t → GET k r = None →
    (SET_NX_PX k v t r).2 = true ∧ GET k (SET_NX_PX k v t r).1 = Some v;
  set_nx_taken k v t r v' : GET k r = Some v' →
    (SET_NX_PX k v t r).2 = false ∧ GET k (SET_NX_PX k v t r).1 = Some v';
  incr_frame k r : same_but k r (INCR k r).1;
  get_incr k r n : GET k r = Some (RNum n) ∨ (GET k r = None ∧ n = 0) → n < REDIS_INT_MAX →
    (INCR k r).2 = Some (n + 1) ∧ GET k (INCR k r).1 = Some (RNum (n + 1));
  incr_overflow k r n : GET k r = Some (RNum n) → REDIS_INT_MAX ≤ n → (INCR k r).2 = None;
  get_incr_fails k r : (INCR k r).2 = None → GET k (INCR k r).1 = GET k r;
  expires_incr k r : expires k (INCR k r).1 = expires k r;
  del_frame k r : same_but k r (DEL k r).1;
  get_del k r : GET k (DEL k r).1 = None;
  pexpire_frame k t r : same_but k r (PEXPIRE k t r);
  get_pexpire k t r : 0 < t → GET k (PEXPIRE k t r) = GET k r;
  xadd_frame k f r : same_but k r (XADD k f r).1;
  xrange_xadd k f r : XRANGE k (XADD k f r).1 = XRANGE k r ++ [((XADD k f r).2, f)];
  xtrim_frame k n r : same_but k r (XTRIM_MAXLEN k n r);
  xrange_xtrim k n r : ∃ m : nat, XRANGE k (XTRIM_MAXLEN k n r) = drop m (XRANGE k r) ∧
    (m = 0%nat ∨ n ≤ Z.of_nat (length (XRANGE k r)) - Z.of_nat m);
  xrevrange_ok k (n : nat) r : XREVRANGE k n r = take n (reverse (XRANGE k r));
  zadd_frame k s m r : same_but k r (ZADD k s m r);
  zrange_zadd k s m r m' s' :
    (m', s') ∈ ZRANGE k (ZADD k s m r) ↔ (m' = m ∧ s' = s) ∨ (m' ≠ m ∧ (m', s') ∈ ZRANGE k r);
  zscore_ok k m r s : ZSCORE k m r = Some s ↔ (m, s) ∈ ZRANGE k r;
  zrange_NoDup k r : NoDup (ZRANGE k r).*1;
  zrange_sorted k r : StronglySorted Z.le (ZRANGE k r).*2;
  zremrange_frame k a b r : same_but k r (ZREMRANGEBYRANK k a b r);
  zremrange_ok k a b r : ZRANGE k (ZREMRANGEBYRANK k a b r) = without_ranks a b (ZRANGE k r);
  elapse_streams k r r' : elapse r r' → XRANGE k r' = XRANGE k r ∧ ZRANGE k r' = ZRANGE k r;
  elapse_strings k r r' : elapse r r' → expires k r = false → GET k r' = GET k r ∧ expires k r' = false;
}.

(** ** The scripts *)

Inductive ScriptError :=
| LOCK_HELD
| FENCING_ERROR
| HEIGHT_EXISTS (height : Z)
| CommandError.

Section scripts.
Context {R : Type} `{!Redis R}.
Implicit Types r : R.

Definition tonumber (v : RVal) : option Z := match v with RNum n => Some n | _ => None end.

(** The keys of the lock. *)
Record Keys := {
  lease_key : string;
  epoch_key : string;
  block_stream_key : string;
  heights_index_key : string;
}.

(** check_lease_owner.lua *)
Definition check_lease_owner (lease : string) (token : string) r : R * result Z ScriptError :=
  (r, Ok (if decide (GET lease r = Some (RText token)) then 1 else 0)).

(** release_lock.lua *)
Definition release_lock (lease : string) (token : string) r : R * result Z ScriptError :=
  if decide (GET lease r = Some (RText token))
  then let '(r, n) := DEL lease r in (r, Ok n) else (r, Ok 0).

(** promote_leader.lua; what a failing script did before stays. *)
Definition promote_leader_script (lease epoch : string) (token : string) (ttl : Z) r :
    R * result Z ScriptError :=
  let '(r, acquired) := SET_NX_PX lease (RText token) ttl r in
  if negb acquired then (r, Err LOCK_HELD)
  else
    match INCR epoch r with
    | (r, Some new_token) => (r, Ok new_token)
    | (r, None) => (r, Err CommandError)
    end.

(** [tonumber(redis.call("GET", KEYS[2]) or "0")]. *)
Definition current_token (epoch : string) r : Z :=
  match GET epoch r with
  | Some v => default 0 (tonumber v)
  | None => 0
  end.

(** The number of heights the index keeps. *)
Definition index_window (stream_max_len : Z) : Z := 2 * stream_max_len + 256.

Definition entry_fields (height : Z) (data : list Z) (epoch time : Z) : Fields :=
  [("height", RNum height); ("data", RBytes data); ("epoch", RNum epoch); ("timestamp", RNum time)].

(** write_block.lua *)
Definition write_block (ks : Keys) (my_epoch : Z) (token : string) (height : Z) (data : list Z)
    (ttl stream_max_len : Z) r : R * result StreamId ScriptError :=
  let current := current_token (epoch_key ks) r in
  let current_leader := GET (lease_key ks) r in
  if decide (current_leader ≠ Some (RText token)) then (r, Err FENCING_ERROR)
  else if decide (my_epoch < current) then (r, Err FENCING_ERROR)
  else
    let r := if decide (my_epoch > current) then SET (epoch_key ks) (RNum my_epoch) r else r in
    if decide (is_Some (ZSCORE (heights_index_key ks) height r)) then (r, Err (HEIGHT_EXISTS height))
    else
      let '(r, stream_id) :=
        XADD (block_stream_key ks) (entry_fields height data my_epoch (TIME r)) r in
      let r := ZADD (heights_index_key ks) height height r in
      let r := XTRIM_MAXLEN (block_stream_key ks) stream_max_len r in
      let r := ZREMRANGEBYRANK (heights_index_key ks) 0 (- index_window stream_max_len - 1) r in
      let r := PEXPIRE (lease_key ks) ttl r in
      (r, Ok stream_id).

(** The last field with a name, as the loop over the fields leaves it. *)
Definition field (name : string) (fields : Fields) : option RVal :=
  foldl (λ acc '(k, v), if decide (k = name) then Some v else acc) None fields.

Definition data_of (v : RVal) : option (list Z) := match v with RBytes l => Some l | _ => None end.

(** An entry of the stream as the tuple for the reconciliation. *)
Definition read_entry (min_height : Z) (entry : StreamId * Fields) : option (Z * Z * list Z * StreamId) :=
  height ← field "height" entry.2 ≫= tonumber;
  data ← field "data" entry.2 ≫= data_of;
  if decide (min_height ≤ height)
  then Some (height, default 0 (field "epoch" entry.2 ≫= tonumber), data, entry.1) else None.

(** read_stream_entries.lua *)
Definition read_stream_entries (stream : string) (min_height count : Z) r :
    R * result (list (Z * Z * list Z * StreamId)) ScriptError :=
  (r, Ok (if decide (count ≤ 0) then []
          else take (Z.to_nat count) (omap (read_entry min_height) (XRANGE stream r)))).

(** The first field with a name. *)
Fixpoint first_field (name : string) (fields : Fields) : option RVal :=
  match fields with
  | [] => None
  | (k, v) :: fields => if decide (k = name) then Some v else first_field name fields
  end.

(** read_latest_stream_entry.lua *)
Definition read_latest_stream_entry_script (stream : string) r :
    R * result (option (Z * StreamId)) ScriptError :=
  (r, Ok (match XREVRANGE stream 1 r with
          | [] => None
          | (entry_id, fields) :: _ =>
              height ← first_field "height" fields ≫= tonumber;
              Some (height, entry_id)
          end)).

(** ** Calls *)

Inductive Call :=
| CheckOwner (token : string)
| ReleaseLock (token : string)
| Promote (token : string) (ttl : Z)
| WriteBlock (epoch : Z) (token : string) (height : Z) (data : list Z) (ttl stream_max_len : Z)
| ReadEntries (min_height count : Z)
| ReadLatest.

Inductive Reply :=
| RInt (x : result Z ScriptError)
| RWritten (x : result StreamId ScriptError)
| REntries (x : result (list (Z * Z * list Z * StreamId)) ScriptError)
| RLatest (x : result (option (Z * StreamId)) ScriptError).

(** A script with the keys and arguments it is called with. *)
Definition exec (ks : Keys) (c : Call) r : R * Reply :=
  match c with
  | CheckOwner token => let '(r, x) := check_lease_owner (lease_key ks) token r in (r, RInt x)
  | ReleaseLock token => let '(r, x) := release_lock (lease_key ks) token r in (r, RInt x)
  | Promote token ttl =>
      let '(r, x) := promote_leader_script (lease_key ks) (epoch_key ks) token ttl r in (r, RInt x)
  | WriteBlock epoch token height data ttl max_len =>
      let '(r, x) := write_block ks epoch token height data ttl max_len r in (r, RWritten x)
  | ReadEntries min_height count =>
      let '(r, x) := read_stream_entries (block_stream_key ks) min_height count r in (r, REntries x)
  | ReadLatest =>
      let '(r, x) := read_latest_stream_entry_script (block_stream_key ks) r in (r, RLatest x)
  end.
End scripts.
