(* ===== verification/SampleRedis.v ===== *)
(** * A Redis server

    A server with exact trimming, as an instance of the commands the leader lock uses. *)

From stdpp Require Import prelude gmap list strings sorting.
From Stdlib Require Import ZArith Lia.
From S2P Require Import Prelude.
From S2P Require Import RedisNode.
Local Open Scope Z_scope.

Module SampleRedis.

(** Strings with a mark if they expire, streams, and the scores of sorted sets. *)
Record Store := {
  texts : gmap string (RVal * bool);
  streams : gmap string (list (StreamId * Fields));
  zsets : gmap string (gmap Z Z);
}.

Definition with_texts (m : gmap string (RVal * bool)) (r : Store) : Store :=
  {| texts := m; streams := streams r; zsets := zsets r |}.
Definition with_stream (k : string) (l : list (StreamId * Fields)) (r : Store) : Store :=
  {| texts := texts r; streams := <[k := l]> (streams r); zsets := zsets r |}.
Definition with_zset (k : string) (m : gmap Z Z) (r : Store) : Store :=
  {| texts := texts r; streams := streams r; zsets := <[k := m]> (zsets r) |}.

Definition stream (k : string) (r : Store) : list (StreamId * Fields) := default [] (streams r !! k).
Definition zset (k : string) (r : Store) : gmap Z Z := default ∅ (zsets r !! k).
Definition text (k : string) (r : Store) : option RVal := fst <$> texts r !! k.
Definition marked (k : string) (r : Store) : bool := default false (snd <$> texts r !! k).

(** Members by score, then by themselves. *)
Definition by_score (x y : Z * Z) : Prop := x.2 < y.2 ∨ (x.2 = y.2 ∧ x.1 ≤ y.1).

#[local] Instance by_score_dec : RelDecision by_score.
Proof. intros x y. unfold by_score. apply _. Defined.
#[local] Instance by_score_total : Total by_score.
Proof. intros [m s] [m' s']. unfold by_score. simpl. lia. Qed.
#[local] Instance by_score_trans : Transitive by_score.
Proof. intros [m s] [m' s'] [m'' s'']. unfold by_score. simpl. lia. Qed.
#[local] Instance by_score_antisymm : AntiSymm (=) by_score.
Proof. intros [m s] [m' s']. unfold by_score. simpl. intros ? ?. f_equal; lia. Qed.

Definition members (m : gmap Z Z) : list (Z * Z) := merge_sort by_score (map_to_list m).

Definition incr (k : string) (r : Store) : Store * option Z :=
  match texts r !! k with
  | None => (with_texts (<[k := (RNum 1, false)]> (texts r)) r, Some 1)
  | Some (RNum n, x) =>
      if decide (n < REDIS_INT_MAX) then (with_texts (<[k := (RNum (n + 1), x)]> (texts r)) r, Some (n + 1))
      else (r, None)
  | Some _ => (r, None)
  end.

#[global] Instance redis : Redis Store := {
  GET := text;
  SET k v r := with_texts (<[k := (v, false)]> (texts r)) r;
  SET_NX_PX k v _ r :=
    match texts r !! k with Some _ => (r, false) | None => (with_texts (<[k := (v, true)]> (texts r)) r, true) end;
  INCR := incr;
  DEL k r := (with_texts (delete k (texts r)) r, if decide (is_Some (texts r !! k)) then 1 else 0);
  PEXPIRE k _ r := with_texts (alter (λ '(v, _), (v, true)) k (texts r)) r;
  XADD k f r := (with_stream k (stream k r ++ [("0-1", f)]) r, "0-1");
  XTRIM_MAXLEN k n r := with_stream k (drop (length (stream k r) - Z.to_nat n) (stream k r)) r;
  XRANGE := stream;
  XREVRANGE k n r := take n (reverse (stream k r));
  ZADD k s m r := with_zset k (<[m := s]> (zset k r)) r;
  ZSCORE k m r := zset k r !! m;
  ZREMRANGEBYRANK k a b r := with_zset k (list_to_map (without_ranks a b (members (zset k r)))) r;
  ZRANGE k r := members (zset k r);
  TIME _ := 0;
  expires := marked;
  elapse r r' := r' = with_texts (filter (λ kv, kv.2.2 = false) (texts r)) r;
}.

Lemma members_in m k s : (k, s) ∈ members m ↔ m !! k = Some s.
Proof. unfold members. by rewrite merge_sort_Permutation, elem_of_map_to_list. Qed.

Lemma members_NoDup m : NoDup (members m).*1.
Proof. unfold members. rewrite merge_sort_Permutation. apply NoDup_fst_map_to_list. Qed.

Lemma members_sorted m : StronglySorted by_score (members m).
Proof. apply StronglySorted_merge_sort; apply _. Qed.

(** A sorted list of different members is that of its map. *)
Lemma members_list l : NoDup l.*1 → StronglySorted by_score l → members (list_to_map l) = l.
Proof.
  intros Hnd Hs. apply (StronglySorted_unique by_score); [apply members_sorted|done|].
  unfold members. rewrite merge_sort_Permutation. by apply map_to_list_to_map.
Qed.

Lemma without_ranks_sublist {A} a b (l : list A) : without_ranks a b l `sublist_of` l.
Proof.
  unfold without_ranks. destruct (rank_range _ _ _) as [x y] eqn:Hr.
  assert (0 ≤ x ≤ y) as Hxy.
  { unfold rank_range in Hr. cbv zeta in Hr. repeat case_decide; simplify_eq; lia. }
  rewrite <- (take_drop (Z.to_nat x) l) at 3. apply sublist_app; [done|].
  replace (Z.to_nat y) with (Z.to_nat x + Z.to_nat (y - x))%nat by lia. rewrite <- drop_drop. apply sublist_drop.
Qed.

Lemma sorted_sublist {A} (P : relation A) l l' : l' `sublist_of` l → StronglySorted P l → StronglySorted P l'.
Proof.
  induction 1 as [|x l' l Hs IH|x l' l Hs IH]; [done| |].
  - intros [Hl Hx]%StronglySorted_inv. constructor; [by apply IH|]. rewrite Forall_forall in Hx |- *.
    intros y Hy. apply Hx. by eapply sublist_subseteq.
  - intros [Hl _]%StronglySorted_inv. by apply IH.
Qed.

Lemma members_without a b m : members (list_to_map (without_ranks a b (members m))) = without_ranks a b (members m).
Proof.
  apply members_list; [|eapply sorted_sublist; [apply without_ranks_sublist|apply members_sorted]].
  eapply sublist_NoDup; [apply members_NoDup|]. apply fmap_sublist, without_ranks_sublist.
Qed.

Ltac other :=
  intros k' Hk'; simpl; unfold text, marked, stream, zset; simpl;
  rewrite ?lookup_insert_ne, ?lookup_delete_ne, ?lookup_alter_ne by congruence; done.

#[global] Instance redis_laws : RedisLaws Store.
Proof.
  split; simpl.
  - intros k v r. other.
  - intros k v r. unfold text. simpl. by rewrite lookup_insert_eq.
  - intros k v r. unfold marked. simpl. by rewrite lookup_insert_eq.
  - intros k v t r. destruct (texts r !! k); [done|]. other.
  - intros k v t r _ Hg. unfold text in Hg. destruct (texts r !! k); [done|]. simpl. split; [done|].
    unfold text. simpl. by rewrite lookup_insert_eq.
  - intros k v t r v' Hg. unfold text in Hg |- *. destruct (texts r !! k) as [[]|] eqn:Hk; [|done]. simpl. by rewrite Hk.
  - intros k r. unfold incr. destruct (texts r !! k) as [[[] ?]|]; try done; [case_decide; [|done]|]; other.
  - intros k r n. unfold text, incr. destruct (texts r !! k) as [[v x]|]; simpl.
    + intros [[= ->]|[? _]] Hn; [|done]. rewrite decide_True by done. simpl. by rewrite lookup_insert_eq.
    + intros [?|[_ ->]] _; [done|]. simpl. by rewrite lookup_insert_eq.
  - intros k r n. unfold text, incr. destruct (texts r !! k) as [[v x]|]; [|done]. intros [= ->] ?. by rewrite decide_False by lia.
  - intros k r. unfold incr. destruct (texts r !! k) as [[[] ?]|]; try done; by case_decide.
  - intros k r. unfold marked, incr. destruct (texts r !! k) as [[[] ?]|] eqn:Hk; simpl; try (by rewrite Hk).
    + case_decide; simpl; [by rewrite lookup_insert_eq|by rewrite Hk].
    + simpl. by rewrite lookup_insert_eq.
  - intros k r. other.
  - intros k r. unfold text. simpl. by rewrite lookup_delete_eq.
  - intros k t r. other.
  - intros k t r _. unfold text. simpl. rewrite lookup_alter_eq. by destruct (texts r !! k) as [[]|].
  - intros k f r. other.
  - intros k f r. unfold stream at 1. simpl. by rewrite lookup_insert_eq.
  - intros k n r. other.
  - intros k n r. exists (length (stream k r) - Z.to_nat n)%nat. unfold stream at 1. simpl. rewrite lookup_insert_eq.
    split; [done|]. lia.
  - done.
  - intros k s m r. other.
  - intros k s m r m' s'. rewrite !members_in. unfold zset at 1. simpl. rewrite lookup_insert_eq. simpl.
    rewrite lookup_insert_Some. naive_solver.
  - intros k m r s. by rewrite members_in.
  - intros k r. apply members_NoDup.
  - intros k r. pose proof (members_sorted (zset k r)) as Hs. induction Hs as [|x l Hl IH Hx]; simpl; constructor; [done|].
    apply Forall_fmap. eapply Forall_impl; [exact Hx|]. unfold by_score. simpl. lia.
  - intros k a b r. other.
  - intros k a b r. unfold zset at 1. simpl. rewrite lookup_insert_eq. apply members_without.
  - by intros k r r' ->.
  - intros k r r' ->. unfold marked, text. simpl. destruct (texts r !! k) as [[v x]|] eqn:Hk.
    + simpl. intros ->. by rewrite (map_lookup_filter_Some_2 _ _ _ _ Hk).
    + intros _. by rewrite map_lookup_filter, Hk.
Qed.

Definition empty_store : Store := {| texts := ∅; streams := ∅; zsets := ∅ |}.
End SampleRedis.
