(* ===== verification/RedisNodeFacts.v ===== *)
(** * What a node of the leader lock keeps

    A node of the leader lock with the list of the blocks it took: every block is in the
    stream until it is trimmed, no height is taken twice as long as it is among the
    highest ones the index has room for, and the epochs never go down. *)

From stdpp Require Import prelude list strings sorting.
From Stdlib Require Import ZArith Lia.
From S2P Require Import Prelude.
From S2P Require Import RedisNode.
From S2P Require Import SampleRedis.
Local Open Scope Z_scope.

(** ** Sorted lists *)

(** The elements above [h] are the last ones of a sorted list. *)
Lemma sorted_split (h : Z) l :
  StronglySorted Z.le l → ∃ a b, l = a ++ b ∧ Forall (λ x, x ≤ h) a ∧ Forall (λ x, h < x) b.
Proof.
  induction 1 as [|x l Hl (a & b & -> & Ha & Hb) Hx]; [by exists [], []|].
  destruct (decide (h < x)).
  - exists [], (x :: a ++ b). split_and!; [done..|]. constructor; [done|].
    eapply Forall_impl; [exact Hx|]. simpl. lia.
  - exists (x :: a), b. split_and!; [done| |done]. constructor; [lia|done].
Qed.

Definition above (h : Z) (l : list Z) : Z := Z.of_nat (length (filter (λ x, h < x) l)).

Lemma above_split h a b : Forall (λ x, x ≤ h) a → Forall (λ x, h < x) b → above h (a ++ b) = Z.of_nat (length b).
Proof.
  intros Ha Hb. unfold above. f_equal. induction Ha as [|x a Hx _ IH]; simpl.
  - induction Hb as [|y b Hy _ IH]; [done|]. rewrite filter_cons_True by done. simpl. by rewrite IH.
  - rewrite filter_cons_False by lia. exact IH.
Qed.

Lemma above_mono h l l' : NoDup l → l ⊆ l' → above h l ≤ above h l'.
Proof.
  intros Hl Hs. unfold above. apply inj_le, submseteq_length, NoDup_submseteq; [by apply NoDup_filter|].
  intros x. rewrite !list_elem_of_filter. set_solver.
Qed.

(** The last [n] elements: an element that is not among them has [n] above it. *)
Lemma above_drop h (n : nat) l :
  StronglySorted Z.le l → Z.of_nat n ≤ above h l → Z.of_nat n ≤ above h (drop (length l - n) l).
Proof.
  intros Hl Hn. destruct (sorted_split h l Hl) as (a & b & -> & Ha & Hb). rewrite (above_split _ _ _ Ha Hb) in Hn.
  rewrite drop_app_ge by (rewrite length_app; lia).
  rewrite <- (app_nil_l (drop _ b)), (above_split h []); [rewrite length_drop, length_app; lia|done|].
  by apply Forall_drop.
Qed.

Lemma above_dropped h (n : nat) l :
  StronglySorted Z.le l → NoDup l → h ∈ l → h ∉ drop (length l - n) l → Z.of_nat n ≤ above h (drop (length l - n) l).
Proof.
  intros Hl Hn Hh Hd. rewrite <- (take_drop (length l - n) l) in Hl, Hn, Hh.
  apply elem_of_app in Hh as [Hh|Hh]; [|done].
  assert (Forall (λ x, h < x) (drop (length l - n) l)) as Hb.
  { apply Forall_forall. intros x Hx. assert (h ≤ x).
    { by apply (StronglySorted_app_1_elem_of Z.le _ _ h x Hl). }
    assert (h ≠ x) by (intros ->; by apply NoDup_app in Hn as (_ & Hn & _); apply (Hn x)). lia. }
  destruct (decide (n ≤ length l)%nat); [|by replace (length l - n)%nat with 0%nat in Hh by lia; apply not_elem_of_nil in Hh].
  rewrite <- (app_nil_l (drop _ l)), (above_split h []); [|done..]. rewrite length_drop. lia.
Qed.

(** ** The history of a node *)

(** A block that a node took, with the request that brought it. *)
Record Write := {
  w_request : nat;
  w_height : Z;
  w_data : list Z;
  w_epoch : Z;
}.

Definition keys_ok (ks : Keys) : Prop :=
  NoDup [lease_key ks; epoch_key ks; block_stream_key ks; heights_index_key ks].

Lemma keys_distinct ks :
  keys_ok ks →
  lease_key ks ≠ epoch_key ks ∧ lease_key ks ≠ block_stream_key ks ∧ lease_key ks ≠ heights_index_key ks ∧
  epoch_key ks ≠ block_stream_key ks ∧ epoch_key ks ≠ heights_index_key ks ∧
  block_stream_key ks ≠ heights_index_key ks.
Proof. intros Hks. unfold keys_ok in Hks. rewrite !NoDup_cons in Hks. set_solver. Qed.

(** The blocks of a height. *)
Definition at_height (h : Z) (ws : list Write) : list Write := filter (λ w, w_height w = h) ws.

Section history.
Context {R : Type} `{!Redis R} `{!RedisLaws R} (ks : Keys) (Hks : keys_ok ks) (max_len : Z) (Hmax : 0 ≤ max_len).
Implicit Types (r : R) (ws : list Write).

Definition index r : list Z := (ZRANGE (heights_index_key ks) r).*1.

Definition epoch_ok (n : Z) r : Prop :=
  (GET (epoch_key ks) r = Some (RNum n) ∨ (GET (epoch_key ks) r = None ∧ n = 0)) ∧
  expires (epoch_key ks) r = false.

Definition entry_of (w : Write) (e : StreamId * Fields) : Prop :=
  ∃ time, e.2 = entry_fields (w_height w) (w_data w) (w_epoch w) time.

Record node_ok ws r : Prop := {
  no_stream : ∃ n, Forall2 entry_of (drop n ws) (XRANGE (block_stream_key ks) r);
  no_scores m s : (m, s) ∈ ZRANGE (heights_index_key ks) r → s = m;
  no_index w : w ∈ ws → w_height w ∈ index r ∨ index_window max_len ≤ above (w_height w) (index r);
  no_once h : (2 ≤ length (at_height h ws))%nat → index_window max_len ≤ above h (index r);
  no_epochs : StronglySorted Z.le (w_epoch <$> ws);
  no_epoch : ∃ n, epoch_ok n r ∧ ∀ w, w ∈ ws → w_epoch w ≤ n;
}.

Lemma current_token_ok n r : epoch_ok n r → current_token (epoch_key ks) r = n.
Proof. intros [[He|[He ->]] _]; unfold current_token; by rewrite He. Qed.

(** A step that leaves the blocks alone and does not lower the epoch. *)
Lemma node_ok_frame ws r r' :
  XRANGE (block_stream_key ks) r' = XRANGE (block_stream_key ks) r →
  ZRANGE (heights_index_key ks) r' = ZRANGE (heights_index_key ks) r →
  (∀ n, epoch_ok n r → ∃ n', n ≤ n' ∧ epoch_ok n' r') →
  node_ok ws r → node_ok ws r'.
Proof.
  intros Hs Hi He [H1 H2 H3 H4 H5 (n & Hn & H6)]. destruct (He n Hn) as (n' & Hle & Hn').
  split; unfold index; rewrite ?Hs, ?Hi; try done. exists n'. split; [done|]. intros w Hw. specialize (H6 w Hw). lia.
Qed.

Lemma node_ok_same_but ws k r r' :
  same_but k r r' → k ≠ block_stream_key ks → k ≠ heights_index_key ks → k ≠ epoch_key ks →
  node_ok ws r → node_ok ws r'.
Proof.
  intros Hk Hst Hin Hep. apply node_ok_frame.
  - by apply (Hk (block_stream_key ks)).
  - by apply (Hk (heights_index_key ks)).
  - intros n [Hn Hx]. destruct (Hk (epoch_key ks)) as (Hg & _ & _ & He); [done|]. exists n. split; [done|].
    unfold epoch_ok. by rewrite Hg, He.
Qed.

Lemma node_ok_elapse ws r r' : elapse r r' → node_ok ws r → node_ok ws r'.
Proof.
  intros Hr. apply node_ok_frame; [by apply elapse_streams..|]. intros n [Hn Hx].
  destruct (elapse_strings _ _ _ Hr Hx) as [Hg He]. exists n. split; [done|]. unfold epoch_ok. by rewrite Hg, He.
Qed.

Lemma promote_ok ws token ttl r :
  node_ok ws r → node_ok ws (promote_leader_script (lease_key ks) (epoch_key ks) token ttl r).1.
Proof using Type*.
  destruct (keys_distinct ks Hks) as (? & ? & ? & ? & ? & ?). intros Hn. unfold promote_leader_script.
  assert (node_ok ws (SET_NX_PX (lease_key ks) (RText token) ttl r).1) as Hn1
    by (eapply node_ok_same_but; [apply set_nx_frame|done..]).
  destruct (SET_NX_PX _ _ _ _) as [r1 [|]]; simpl in *; [|done].
  pose proof (incr_frame (epoch_key ks) r1) as Hf. pose proof (expires_incr (epoch_key ks) r1) as Hx.
  assert (node_ok ws (INCR (epoch_key ks) r1).1) as Hn2.
  { revert Hn1. apply node_ok_frame; [by apply (Hf (block_stream_key ks))|by apply (Hf (heights_index_key ks))|].
    intros n [Hg He]. destruct (decide (n < REDIS_INT_MAX)).
    - destruct (get_incr _ _ _ Hg) as [_ Hg']; [done|]. exists (n + 1). split; [lia|]. split; [by left|by rewrite Hx].
    - destruct Hg as [Hg|[_ ->]]; [|by unfold REDIS_INT_MAX in *].
      pose proof (get_incr_fails _ _ (incr_overflow _ _ _ Hg ltac:(lia))) as Hg'.
      exists n. split; [done|]. split; [left; by rewrite Hg'|by rewrite Hx]. }
  by destruct (INCR _ _) as [r2 [|]].
Qed.

(** ** Taking a block *)

(** The index after a block of height [h], with the lowest heights dropped. *)
Lemma index_write h r rz :
  (∀ m s, (m, s) ∈ ZRANGE (heights_index_key ks) r → s = m) → h ∉ index r →
  ZRANGE (heights_index_key ks) rz = ZRANGE (heights_index_key ks) r →
  let l1 := ZRANGE (heights_index_key ks) (ZADD (heights_index_key ks) h h rz) in
  let l2 := without_ranks 0 (- index_window max_len - 1) l1 in
  (∀ m s, (m, s) ∈ l2 → s = m) ∧
  NoDup l1.*1 ∧ StronglySorted Z.le l1.*1 ∧ (∀ x, x ∈ l1.*1 ↔ x = h ∨ x ∈ index r) ∧
  l2.*1 = drop (length l1.*1 - Z.to_nat (index_window max_len)) l1.*1.
Proof using Type*.
  intros Hd Hh Hrz l1 l2.
  assert (∀ m s, (m, s) ∈ l1 → s = m) as Hd1.
  { intros m s. unfold l1. rewrite zrange_zadd, Hrz. intros [[-> ->]|[_ ?]]; [done|by apply Hd]. }
  assert (l2 = drop (length l1.*1 - Z.to_nat (index_window max_len)) l1) as Hdrop.
  { unfold l2, without_ranks, rank_range. rewrite length_fmap.
    unfold index_window. cbv zeta. repeat (case_decide; try lia); simpl; f_equal; lia. }
  split_and!.
  - intros m s. rewrite Hdrop. intros Hin. apply Hd1. eapply subseteq_drop, Hin.
  - apply zrange_NoDup.
  - replace l1.*1 with l1.*2; [apply zrange_sorted|]. unfold l1. apply list_fmap_ext. intros i [m s] Hi. simpl.
    apply Hd1. by apply list_elem_of_lookup_2 in Hi.
  - intros x. unfold index. rewrite <- Hrz, !list_elem_of_fmap. split.
    + intros ([m s] & -> & Hm). apply zrange_zadd in Hm as [[-> _]|[_ Hm]]; [by left|]. right. by exists (m, s).
    + intros [->|([m s] & -> & Hm)]; [exists (h, h); split; [done|]; apply zrange_zadd; by left|].
      exists (m, s). split; [done|]. apply zrange_zadd. right. split; [|done]. simpl. intros ->. apply Hh.
      unfold index. rewrite <- Hrz. apply list_elem_of_fmap. by exists (h, s).
  - by rewrite Hdrop, fmap_drop.
Qed.

Lemma at_height_snoc h ws w :
  at_height h (ws ++ [w]) = at_height h ws ++ (if decide (w_height w = h) then [w] else []).
Proof. unfold at_height. by rewrite filter_app. Qed.

(** A node that took a block of a new height. *)
Lemma node_ok_write ws r rz w r' m time id :
  node_ok ws r → ZRANGE (heights_index_key ks) rz = ZRANGE (heights_index_key ks) r → w_height w ∉ index r → epoch_ok (w_epoch w) r →
  XRANGE (block_stream_key ks) r' =
    drop m (XRANGE (block_stream_key ks) r ++ [(id, entry_fields (w_height w) (w_data w) (w_epoch w) time)]) →
  ZRANGE (heights_index_key ks) r' = without_ranks 0 (- index_window max_len - 1)
    (ZRANGE (heights_index_key ks) (ZADD (heights_index_key ks) (w_height w) (w_height w) rz)) →
  epoch_ok (w_epoch w) r' →
  node_ok (ws ++ [w]) r'.
Proof using Type*.
  intros [(n & Hst) Hd Hi Ho Hes (e & He & Hle)] Hrz Hnew Hep Hst' Hix' Hep'.
  destruct (index_write _ _ _ Hd Hnew Hrz) as (Hd2 & Hnd & Hsort & Hin & Hdrop). rewrite <- Hix' in Hd2, Hdrop.
  change (ZRANGE (heights_index_key ks) r').*1 with (index r') in Hdrop.
  set (l1 := (ZRANGE _ (ZADD _ _ _ _)).*1) in *.
  assert (e = w_epoch w) as -> by (apply current_token_ok in He, Hep; congruence).
  assert (∀ h, index_window max_len ≤ above h (index r) → index_window max_len ≤ above h (index r')) as Hab.
  { intros h Hh. rewrite Hdrop, <- (Z2Nat.id (index_window max_len)) at 1 by (unfold index_window; lia).
    apply above_drop; [done|]. rewrite Z2Nat.id by (unfold index_window; lia).
    etrans; [exact Hh|]. apply above_mono; [apply zrange_NoDup|]. intros x Hx. apply Hin. by right. }
  assert (∀ h, h ∈ l1 → h ∈ index r' ∨ index_window max_len ≤ above h (index r')) as Hheld.
  { intros h Hh. destruct (decide (h ∈ index r')) as [|Hno]; [by left|]. right. rewrite Hdrop in Hno |- *.
    rewrite <- (Z2Nat.id (index_window max_len)) at 1 by (unfold index_window; lia). by apply above_dropped. }
  assert (∀ w', w' ∈ ws → w_height w' = w_height w → index_window max_len ≤ above (w_height w) (index r)) as Hagain.
  { intros w' Hw' Hh. destruct (Hi w' Hw') as [Hx|Hx]; rewrite Hh in Hx; done. }
  split; [| |intros w' [Hw'| ->%list_elem_of_singleton]%elem_of_app| | |].
  - destruct (decide (n ≤ length ws)%nat).
    + exists (n + m)%nat. rewrite <- drop_drop, Hst'. apply Forall2_drop. rewrite drop_app_le by done.
      apply Forall2_app; [done|]. constructor; [by exists time|done].
    + exists (length ws + m)%nat. rewrite drop_ge in Hst by lia. apply Forall2_nil_inv_l in Hst.
      rewrite Hst', Hst, <- drop_drop, drop_app_length. apply Forall2_drop. constructor; [by exists time|done].
  - done.
  - destruct (Hi w' Hw') as [Hx|Hx]; [|by right; apply Hab]. apply Hheld, Hin. by right.
  - apply Hheld, Hin. by left.
  - intros h. rewrite at_height_snoc, length_app. case_decide as Hh; simpl; [|rewrite Nat.add_0_r; intros; by apply Hab, Ho].
    subst h. intros Hlen. apply Hab. destruct (at_height (w_height w) ws) as [|w' l] eqn:Hat; [simpl in Hlen; lia|].
    assert (w' ∈ at_height (w_height w) ws) as [Hh Hw']%list_elem_of_filter by (rewrite Hat; by left). by eapply Hagain.
  - rewrite fmap_app. apply StronglySorted_app_2; [|done|by repeat constructor].
    intros x y (w' & -> & Hw')%list_elem_of_fmap (? & -> & ->%list_elem_of_singleton)%list_elem_of_fmap. by apply Hle.
  - exists (w_epoch w). split; [done|]. intros w' [Hw'| ->%list_elem_of_singleton]%elem_of_app; [by apply Hle|done].
Qed.

Lemma write_block_ok ws r rq epoch token h data ttl :
  node_ok ws r →
  let '(r', x) := write_block ks epoch token h data ttl max_len r in
  node_ok (ws ++ if is_ok x then [{| w_request := rq; w_height := h; w_data := data; w_epoch := epoch |}] else []) r'.
Proof using Type*.
  destruct (keys_distinct ks Hks) as (? & ? & ? & ? & ? & ?). intros Hn. unfold write_block.
  case_decide; [by rewrite app_nil_r|]. case_decide as Hold; [by rewrite app_nil_r|].
  set (r0 := if decide (epoch > _) then _ else r).
  assert (node_ok ws r0 ∧ epoch_ok epoch r0) as [Hn0 He0].
  { pose proof Hn as [_ _ _ _ _ (n & He & Hle)]. unfold r0. clear r0. rewrite (current_token_ok n r He) in *.
    case_decide.
    - assert (epoch_ok epoch (SET (epoch_key ks) (RNum epoch) r)) as Hset
        by (split; [left; by rewrite get_set|apply expires_set]). split; [|done].
      pose proof (set_frame (epoch_key ks) (RNum epoch) r) as Hf. revert Hn.
      apply node_ok_frame; [by apply (Hf (block_stream_key ks))|by apply (Hf (heights_index_key ks))|].
      intros n' He'. exists epoch. split; [|done]. apply current_token_ok in He, He'. lia.
    - split; [done|]. by replace epoch with n by lia. }
  clearbody r0. case_decide as Hz; [by rewrite app_nil_r|].
  assert (h ∉ index r0) as Hnew.
  { intros ([m s] & -> & Hm)%list_elem_of_fmap. apply Hz. exists s. by apply zscore_ok. }
  pose proof (xrange_xadd (block_stream_key ks) (entry_fields h data epoch (TIME r0)) r0) as Hx.
  pose proof (xadd_frame (block_stream_key ks) (entry_fields h data epoch (TIME r0)) r0) as Hf1.
  destruct (XADD _ _ _) as [r1 id]. simpl in *.
  set (r2 := ZADD _ _ _ _). pose proof (zadd_frame (heights_index_key ks) h h r1 : same_but _ r1 r2) as Hf2.
  destruct (xrange_xtrim (block_stream_key ks) max_len r2) as (m & Hm & _).
  pose proof (xtrim_frame (block_stream_key ks) max_len r2) as Hf3. set (r3 := XTRIM_MAXLEN _ _ _) in *.
  pose proof (zremrange_frame (heights_index_key ks) 0 (- index_window max_len - 1) r3) as Hf4.
  pose proof (zremrange_ok (heights_index_key ks) 0 (- index_window max_len - 1) r3) as Hz4.
  set (r4 := ZREMRANGEBYRANK _ _ _ _) in *. pose proof (pexpire_frame (lease_key ks) ttl r4) as Hf5.
  set (r5 := PEXPIRE _ _ _) in *.
  eapply (node_ok_write ws r0 r1 _ r5 m); simpl; [done|by apply (Hf1 (heights_index_key ks))|done|done| | |].
  - destruct (Hf5 (block_stream_key ks)) as (_ & -> & _); [done|].
    destruct (Hf4 (block_stream_key ks)) as (_ & -> & _); [done|]. rewrite Hm.
    destruct (Hf2 (block_stream_key ks)) as (_ & -> & _); [done|]. by rewrite Hx.
  - destruct (Hf5 (heights_index_key ks)) as (_ & _ & -> & _); [done|]. rewrite Hz4. f_equal.
    by destruct (Hf3 (heights_index_key ks)) as (_ & _ & -> & _).
  - unfold epoch_ok.
    destruct (Hf5 (epoch_key ks)) as (-> & _ & _ & ->); [done|]. destruct (Hf4 (epoch_key ks)) as (-> & _ & _ & ->); [done|].
    destruct (Hf3 (epoch_key ks)) as (-> & _ & _ & ->); [done|]. destruct (Hf2 (epoch_key ks)) as (-> & _ & _ & ->); [done|].
    by destruct (Hf1 (epoch_key ks)) as (-> & _ & _ & ->).
Qed.

(** ** Calls *)

(** A tuple of the reconciliation shows a block of the node. *)
Definition shows (w : Write) (t : Z * Z * list Z * StreamId) : Prop :=
  ∃ id, t = (w_height w, w_epoch w, w_data w, id).

Lemma read_entry_ok mn w e :
  entry_of w e → match read_entry mn e with Some t => shows w t | None => True end.
Proof.
  destruct e as [id fields]. intros [time Hf]. simpl in Hf. subst fields.
  change (match (if decide (mn ≤ w_height w) then Some (w_height w, w_epoch w, w_data w, id) else None)
    with Some t => shows w t | None => True end). case_decide; [by exists id|done].
Qed.

Lemma read_entries_ok mn ws es :
  Forall2 entry_of ws es → ∃ ws', ws' `sublist_of` ws ∧ Forall2 shows ws' (omap (read_entry mn) es).
Proof.
  induction 1 as [|w e ws es Hw _ (ws' & Hs & Hsh)]; [by exists []|]. simpl.
  pose proof (read_entry_ok mn _ _ Hw) as Ht. destruct (read_entry mn e) as [t|].
  - exists (w :: ws'). split; [by constructor|by constructor].
  - exists ws'. split; [by constructor|done].
Qed.

(** What a reply tells about the blocks of the node. *)
Definition reply_ok ws (rq : nat) (c : Call) (x : Reply) : Prop :=
  match c, x with
  | WriteBlock _ _ h data _ _, RWritten (Ok _) =>
      ∃ w, w ∈ ws ∧ w_request w = rq ∧ w_height w = h ∧ w_data w = data
  | ReadEntries _ _, REntries (Ok l) => ∃ ws', ws' `sublist_of` ws ∧ Forall2 shows ws' l
  | _, _ => True
  end.

Lemma reply_ok_mono ws ws' rq c x : ws `prefix_of` ws' → reply_ok ws rq c x → reply_ok ws' rq c x.
Proof.
  intros [l ->]. destruct c, x as [| [] | [] |]; try done; simpl.
  - intros (w & Hw & ?). exists w. split; [|done]. apply elem_of_app. by left.
  - intros (ws' & Hs & ?). exists ws'. split; [|done]. by apply sublist_inserts_r.
Qed.

(** All producers trim the streams to the same length. *)
Definition call_ok (c : Call) : Prop :=
  match c with WriteBlock _ _ _ _ _ n => n = max_len | _ => True end.

(** The blocks a call added. *)
Definition taken (rq : nat) (c : Call) (x : Reply) : list Write :=
  match c, x with
  | WriteBlock epoch _ h data _ _, RWritten (Ok _) =>
      [{| w_request := rq; w_height := h; w_data := data; w_epoch := epoch |}]
  | _, _ => []
  end.

Lemma exec_ok ws r rq c :
  node_ok ws r → call_ok c →
  let '(r', x) := exec ks c r in node_ok (ws ++ taken rq c x) r' ∧ reply_ok (ws ++ taken rq c x) rq c x.
Proof using Type*.
  destruct (keys_distinct ks Hks) as (? & ? & ? & ? & ? & ?). intros Hn Hc. destruct c; simpl in *.
  - by rewrite app_nil_r.
  - unfold release_lock. case_decide; [|by rewrite app_nil_r].
    pose proof (del_frame (lease_key ks) r) as Hf. destruct (DEL _ _) as [r1 n]. simpl in *. rewrite app_nil_r.
    split; [|done]. by eapply node_ok_same_but.
  - pose proof (promote_ok ws token ttl r Hn) as Hp.
    destruct (promote_leader_script _ _ _ _ _). simpl. by rewrite app_nil_r.
  - subst. pose proof (write_block_ok ws r rq epoch token height data ttl Hn) as Hw.
    destruct (write_block _ _ _ _ _ _ _ _) as [r' [id|e]]; simpl in *; [|done]. split; [done|].
    eexists. split; [apply elem_of_app; right; by left|done].
  - rewrite app_nil_r. split; [done|]. case_decide; [exists []; split; [apply sublist_nil_l|constructor]|].
    destruct (no_stream _ _ Hn) as [n Hst]. destruct (read_entries_ok min_height _ _ Hst) as (ws' & Hs & Hsh).
    exists (take (Z.to_nat count) ws'). split; [|by apply Forall2_take].
    etrans; [apply sublist_take|]. etrans; [exact Hs|apply sublist_drop].
  - by rewrite app_nil_r.
Qed.

(** A fresh node. *)
Lemma node_ok_fresh r :
  XRANGE (block_stream_key ks) r = [] → ZRANGE (heights_index_key ks) r = [] → GET (epoch_key ks) r = None →
  expires (epoch_key ks) r = false → node_ok [] r.
Proof.
  intros Hs Hz Hg Hx. split.
  - exists 0%nat. by rewrite Hs.
  - intros m s. rewrite Hz. by intros ?%not_elem_of_nil.
  - by intros w ?%not_elem_of_nil.
  - simpl. lia.
  - constructor.
  - exists 0. split; [by split; [right|]|]. by intros w ?%not_elem_of_nil.
Qed.

(** ** The life of a node *)

Definition fresh_node r : Prop :=
  XRANGE (block_stream_key ks) r = [] ∧ ZRANGE (heights_index_key ks) r = [] ∧ GET (epoch_key ks) r = None ∧
  expires (epoch_key ks) r = false.

(** The calls of a node with their replies, while time passes. *)
Inductive node_life r : list (Call * Reply) → R → Prop :=
| nl_start : node_life r [] r
| nl_time log r1 r2 : node_life r log r1 → elapse r1 r2 → node_life r log r2
| nl_call log r1 c r2 x : node_life r log r1 → call_ok c → exec ks c r1 = (r2, x) → node_life r (log ++ [(c, x)]) r2.

Definition blocks_taken (log : list (Call * Reply)) : list Write := log ≫= λ '(c, x), taken 0 c x.

Lemma node_life_ok r log r' : fresh_node r → node_life r log r' → node_ok (blocks_taken log) r'.
Proof using Type*.
  intros (? & ? & ? & ?). induction 1 as [|log r1 r2 _ IH Ht|log r1 c r2 x _ IH Hc He].
  - by apply node_ok_fresh.
  - by eapply node_ok_elapse.
  - pose proof (exec_ok _ _ 0%nat _ IH Hc) as Hx. rewrite He in Hx. unfold blocks_taken. rewrite bind_app. simpl.
    rewrite app_nil_r. apply Hx.
Qed.

(** A node of the leader lock, whatever calls it gets and however its leases expire:
    it takes at most one block of a height, unless the heights of its index are all above
    that one and fill it; the epochs of the blocks it takes never go down, so a leader
    with an old token is fenced off; and what it shows to the reconciliation are blocks
    that it took. *)
Theorem redis_node_takes_height_once r log r' :
  fresh_node r → node_life r log r' →
  (∀ h, above h (index r') < index_window max_len → (length (at_height h (blocks_taken log)) ≤ 1)%nat) ∧
  StronglySorted Z.le (w_epoch <$> blocks_taken log) ∧
  ∀ mn count l, (exec ks (ReadEntries mn count) r').2 = REntries (Ok l) →
    ∃ ws, ws `sublist_of` blocks_taken log ∧ Forall2 shows ws l.
Proof using Type*.
  intros Hf Hl. pose proof (node_life_ok _ _ _ Hf Hl) as Hn. split_and!.
  - intros h Hh. destruct (decide (2 ≤ length (at_height h (blocks_taken log)))%nat) as [Ho|]; [|lia].
    apply (no_once _ _ Hn) in Ho. lia.
  - apply (no_epochs _ _ Hn).
  - intros mn count l Hx. pose proof (exec_ok _ _ 0%nat (ReadEntries mn count) Hn I) as He.
    destruct (exec _ _ _) as [r2 x]. simpl in Hx. subst x. simpl in He. rewrite app_nil_r in He. apply He.
Qed.
End history.

Section witness.
Import SampleRedis.

Definition node_keys : Keys :=
  {| block_stream_key := "lock:stream"; epoch_key := "lock:epoch"; lease_key := "lock"; heights_index_key := "lock:heights" |}.

Definition node_calls : list Call :=
  [Promote "A" 1000; WriteBlock 1 "A" 5 [1] 1000 100; WriteBlock 1 "A" 5 [2] 1000 100; WriteBlock 1 "A" 6 [3] 1000 100].

Fixpoint node_log (r : Store) (log : list (Call * Reply)) (cs : list Call) : list (Call * Reply) * Store :=
  match cs with
  | [] => (log, r)
  | c :: cs => let '(r', x) := exec node_keys c r in node_log r' (log ++ [(c, x)]) cs
  end.

Lemma node_log_ok r0 r log cs :
  Forall (call_ok 100) cs → node_life node_keys 100 r0 log r →
  node_life node_keys 100 r0 (node_log r log cs).1 (node_log r log cs).2.
Proof.
  revert r log. induction cs as [|c cs IH]; intros r log Hcs Hl; [done|]. inversion Hcs; subst.
  simpl. destruct (exec node_keys c r) as [r' x] eqn:He. apply IH; [done|]. by eapply nl_call.
Qed.

Lemma redis_node_takes_height_once_witness :
  let '(log, r') := node_log empty_store [] node_calls in
  (w_data <$> blocks_taken log) = [[1]; [3]] ∧
  StronglySorted Z.le (w_epoch <$> blocks_taken log).
Proof.
  assert (Forall (call_ok 100) node_calls) as Hcs by (repeat constructor).
  pose proof (node_log_ok empty_store empty_store [] node_calls Hcs (nl_start _ _ _)) as Hl.
  destruct (node_log _ _ _) as [log r'] eqn:He. split.
  - replace log with (node_log empty_store [] node_calls).1 by (by rewrite He). vm_compute. reflexivity.
  - eapply (redis_node_takes_height_once node_keys _ 100 _ empty_store log r'); [by repeat split|exact Hl].
  Unshelve.
  + apply (bool_decide_unpack _). vm_compute. exact I.
  + lia.
Defined.
End witness.
