(* ===== verification/LeaderLease.v ===== *)
(** * The leader lock

    Model of [RedisLeaderLeaseAdapter] (fuel-core/src/service/adapters/consensus_module/poa.rs):
    the lease over a quorum of Redis nodes, the publication of produced blocks and the
    reconciliation with the blocks other leaders published.  An operation is a program;
    its requests are calls to all nodes at once, whose replies arrive in any order or not
    at all, and accesses to the state the adapter shares with its background tasks. *)

From stdpp Require Import prelude gmap list strings.
From Stdlib Require Import ZArith Lia.
From S2P Require Import Prelude.
From S2P Require Import Programs.
From S2P Require Import Blocks.
From S2P Require Import PoaService.
From S2P Require Import RedisNode.
Local Open Scope Z_scope.

(** [postcard] for sealed blocks; the cached id of a header is not encoded. *)
Class SealedCodec (Tx Signature : Type) := {
  ser_sealed : SealedBlock Tx Signature → option (list Z);
  de_sealed : list Z → option (SealedBlock Tx Signature);
}.

(** ** Configuration and state *)

Record RedisLeaderLeaseAdapter := {
  redis_nodes : nat;
  quorum : nat;
  quorum_disruption_budget : Z;
  keys : Keys;
  lease_owner_token : string;
  lease_ttl_millis : Z;
  lease_drift_millis : Z;
  retry_delay_millis : Z;
  max_retry_delay_offset_millis : Z;
  max_attempts : nat;
  stream_max_len : Z;
}.

(** What the tasks of an adapter share. *)
Record AdapterState := {
  current_epoch_token : option Z;
  leadership_generation : Z;
  reconciled_generation : Z;
}.

Definition initial_state : AdapterState :=
  {| current_epoch_token := None; leadership_generation := 0; reconciled_generation := U64 |}.

Definition calculate_quorum (redis_nodes_len : nat) (quorum_disruption_budget : Z) : nat :=
  let majority := (redis_nodes_len / 2 + 1)%nat in
  Nat.min (majority + Z.to_nat quorum_disruption_budget) redis_nodes_len.

Definition keys_of (lease_key : string) : Keys := {|
  RedisNode.lease_key := lease_key;
  epoch_key := lease_key +:+ ":epoch:token";
  block_stream_key := lease_key +:+ ":block:stream";
  heights_index_key := lease_key +:+ ":heights:index";
|}.

(** [new]: durations are in milliseconds; [open] opens a client and [uuid] is the new
    token. *)
Definition RedisLeaderLeaseAdapter_new (open : string → bool) (uuid : string) (redis_urls : list string)
    (lease_key : string) (lease_ttl retry_delay max_retry_delay_offset : Z) (max_attempts stream_max_len : Z) :
    result RedisLeaderLeaseAdapter string :=
  if negb (forallb open redis_urls) then Err "RedisError"
  else if decide (redis_urls = []) then Err "At least one redis url is required for leader lock"
  else
    result_bind (ok_or (try_uint U64 lease_ttl) "TryFromIntError") (λ lease_ttl_millis,
    result_bind (ok_or (try_uint U64 retry_delay) "TryFromIntError") (λ retry_delay_millis,
    result_bind (ok_or (try_uint U64 max_retry_delay_offset) "TryFromIntError") (λ max_retry_delay_offset_millis,
    Ok {| redis_nodes := length redis_urls;
          quorum := calculate_quorum (length redis_urls) 0;
          quorum_disruption_budget := 0;
          keys := keys_of lease_key;
          lease_owner_token := uuid;
          lease_ttl_millis := lease_ttl_millis;
          lease_drift_millis := sat_add U64 (lease_ttl_millis / 100) 2;
          retry_delay_millis := retry_delay_millis;
          max_retry_delay_offset_millis := max_retry_delay_offset_millis;
          LeaderLease.max_attempts := Nat.max (Z.to_nat max_attempts) 1;
          LeaderLease.stream_max_len := stream_max_len |}))).

Definition with_quorum_disruption_budget (budget : Z) (a : RedisLeaderLeaseAdapter) : RedisLeaderLeaseAdapter := {|
  redis_nodes := redis_nodes a;
  quorum := calculate_quorum (redis_nodes a) budget;
  quorum_disruption_budget := budget;
  keys := keys a;
  lease_owner_token := lease_owner_token a;
  lease_ttl_millis := lease_ttl_millis a;
  lease_drift_millis := lease_drift_millis a;
  retry_delay_millis := retry_delay_millis a;
  max_retry_delay_offset_millis := max_retry_delay_offset_millis a;
  max_attempts := max_attempts a;
  stream_max_len := stream_max_len a;
|}.

(** [fold_epoch_max]. *)
Definition fold_epoch_max (candidate : Z) (s : AdapterState) : AdapterState :=
  if match current_epoch_token s with Some e => bool_decide (e < candidate) | None => true end
  then {| current_epoch_token := Some candidate; leadership_generation := leadership_generation s;
          reconciled_generation := reconciled_generation s |}
  else s.

(** ** Requests *)

(** A reply as it arrives: from which node, after how many milliseconds, and [None] if
    there is no connection, no answer in time or an unreadable one. *)
Record Arrival := {
  a_node : nat;
  a_elapsed : Z;
  a_reply : option Reply;
}.

(** Calls to nodes of which the adapter awaits replies, or which it leaves to tasks of
    their own.  Every [promote_leader] of these tasks folds the token it gets into the
    shared state.  [RetryDelay] sleeps. *)
Inductive LEv : Type → Type :=
| FanOut (calls : list (nat * Call)) : LEv (list Arrival)
| Background (calls : list (nat * Call)) : LEv unit
| ReadEpoch : LEv (option Z)
| FoldEpoch (token : Z) : LEv unit
| ClearEpoch : LEv unit
| LoadGeneration : LEv Z
| NextGeneration : LEv unit
| LoadReconciled : LEv Z
| StoreReconciled (generation : Z) : LEv unit
| RetryDelay (a : RedisLeaderLeaseAdapter) : LEv unit.

Abbreviation L := (Prog LEv).

Inductive PromoteOutcome :=
| Acquired (token : Z)
| LockHeld
| Unavailable.

Inductive WriteBlockResult :=
| Written
| HeightExists
| FencingRejected.

(** ** Replies of one node *)

Definition check_lease_owner_reply (x : option Reply) : bool :=
  match x with Some (RInt (Ok n)) => bool_decide (n = 1) | _ => false end.

Definition promote_leader_reply (x : option Reply) : PromoteOutcome :=
  match x with
  | Some (RInt (Ok token)) => Acquired token
  | Some (RInt (Err LOCK_HELD)) => LockHeld
  | _ => Unavailable
  end.

Definition publish_block_reply (x : option Reply) : result WriteBlockResult string :=
  match x with
  | Some (RWritten (Ok _)) => Ok Written
  | Some (RWritten (Err (HEIGHT_EXISTS _))) => Ok HeightExists
  | Some (RWritten (Err FENCING_ERROR)) => Ok FencingRejected
  | Some _ => Err "RedisError"
  | None => Err "write_block timed out"
  end.

Definition read_latest_reply (x : option Reply) : result (option Z) string :=
  match x with
  | Some (RLatest (Ok None)) => Ok None
  | Some (RLatest (Ok (Some (height, _)))) =>
      match try_uint U32 height with
      | Some height => Ok (Some height)
      | None => Err "Invalid latest stream entry height"
      end
  | Some _ => Err "Failed to read latest stream entry from Redis node"
  | None => Err "Timed out reading latest stream entry from Redis node"
  end.

Section adapter.
Context {Tx Signature : Type} `{!ChainCrypto Tx Signature} `{!SealedCodec Tx Signature}.
Context `{!HashOrder Z} `{!HashOrder BlockId}.
Abbreviation SB := (SealedBlock Tx Signature).
Context (a : RedisLeaderLeaseAdapter).

Definition quorum_reached (success_count : nat) : bool := bool_decide (quorum a ≤ success_count)%nat.

Definition calculate_remaining_validity_millis (elapsed_millis : Z) : Z :=
  sat_sub (lease_ttl_millis a) (sat_add U64 elapsed_millis (lease_drift_millis a)).

(** The same call to every node. *)
Definition on_all_nodes (c : Call) : list (nat * Call) := (λ i, (i, c)) <$> seq 0 (redis_nodes a).

(** ** The lease *)

(** [release_lease_on_all_nodes]; whether a node released it is not used. *)
Definition release_lease_on_all_nodes : L unit :=
  _ ← request (FanOut (on_all_nodes (ReleaseLock (lease_owner_token a)))); mret ().

(** Replies up to a quorum of owners, with the nodes that confirmed. *)
Fixpoint owner_loop (arrivals : list Arrival) (owner_count : nat) (confirmed_owner : list bool) :
    option (list bool) :=
  match arrivals with
  | [] => None
  | x :: arrivals =>
      if check_lease_owner_reply (a_reply x) then
        let confirmed_owner := <[a_node x := true]> confirmed_owner in
        if quorum_reached (S owner_count) then Some confirmed_owner
        else owner_loop arrivals (S owner_count) confirmed_owner
      else owner_loop arrivals owner_count confirmed_owner
  end.

Definition promote_call : Call := Promote (lease_owner_token a) (lease_ttl_millis a).

Definition spawn_acquire_lease_on_unowned_nodes (confirmed_owner : list bool) : L unit :=
  let candidates := (λ '(i, _), (i, promote_call)) <$>
                      filter (λ '(_, owned), owned = false) (imap pair confirmed_owner) in
  if decide (candidates = []) then mret () else request (Background candidates).

Definition has_lease_owner_quorum : L bool :=
  arrivals ← request (FanOut (on_all_nodes (CheckOwner (lease_owner_token a))));
  match owner_loop arrivals 0 (replicate (redis_nodes a) false) with
  | Some confirmed_owner => _ ← spawn_acquire_lease_on_unowned_nodes confirmed_owner; mret true
  | None => mret false
  end.

(** What an attempt has seen when it stops: the tokens, and whether it has the lease or
    another owner has it. *)
Record Promotion := {
  promoted_tokens : list Z;
  acquired : bool;
  lock_taken : bool;
}.

Fixpoint promotion_loop (arrivals : list Arrival) (tokens : list Z) (lock_held_count total_responded : nat) :
    Promotion :=
  match arrivals with
  | [] => {| promoted_tokens := tokens; acquired := false; lock_taken := false |}
  | x :: arrivals =>
      let outcome := promote_leader_reply (a_reply x) in
      let tokens := match outcome with Acquired token => tokens ++ [token] | _ => tokens end in
      let lock_held_count := match outcome with LockHeld => S lock_held_count | _ => lock_held_count end in
      let total_responded := S total_responded in
      if quorum_reached (length tokens) && bool_decide (0 < calculate_remaining_validity_millis (a_elapsed x))
      then {| promoted_tokens := tokens; acquired := true; lock_taken := false |}
      else if quorum_reached lock_held_count
      then {| promoted_tokens := tokens; acquired := false; lock_taken := true |}
      else if decide (redis_nodes a ≤ total_responded)%nat
      then {| promoted_tokens := tokens; acquired := false; lock_taken := false |}
      else promotion_loop arrivals tokens lock_held_count total_responded
  end.

Definition max_token (tokens : list Z) : option Z :=
  foldr (λ t o, Some (match o with Some m => Z.max t m | None => t end)) None tokens.

(** [attempts] are left. *)
Fixpoint acquire_attempts (attempts : nat) : L bool :=
  match attempts with
  | O => mret false
  | S attempts =>
      arrivals ← request (FanOut (on_all_nodes promote_call));
      let p := promotion_loop arrivals [] 0 0 in
      if acquired p then
        _ ← match max_token (promoted_tokens p) with Some t => request (FoldEpoch t) | None => mret () end;
        _ ← request NextGeneration;
        mret true
      else
        _ ← (if decide (promoted_tokens p = []) then mret () else release_lease_on_all_nodes);
        if lock_taken p then mret false
        else
          _ ← match attempts with O => mret () | S _ => request (RetryDelay a) end;
          acquire_attempts attempts
  end.

Definition acquire_lease_if_free : L bool := acquire_attempts (max_attempts a).

Definition can_produce_block : L bool :=
  owner ← has_lease_owner_quorum;
  if (owner : bool) then mret true else acquire_lease_if_free.

Definition release_if_owner : L (result unit string) :=
  _ ← release_lease_on_all_nodes;
  _ ← request ClearEpoch;
  mret (Ok ()).

(** ** Publication *)

(** The results up to a quorum of written ones; nodes that have not answered by then
    count as failed. *)
Fixpoint publish_loop (arrivals : list Arrival) (written_count : nat)
    (results : list (option (result WriteBlockResult string))) : list (option (result WriteBlockResult string)) :=
  match arrivals with
  | [] => results
  | x :: arrivals =>
      let r := publish_block_reply (a_reply x) in
      let written_count := match r with Ok Written => S written_count | _ => written_count end in
      let results := <[a_node x := Some r]> results in
      if quorum_reached written_count then results else publish_loop arrivals written_count results
  end.

Definition publish_block_on_all_nodes (epoch : Z) (block : SB) (block_data : list Z) :
    L (list (result WriteBlockResult string)) :=
  arrivals ← request (FanOut (on_all_nodes
    (WriteBlock epoch (lease_owner_token a) (height (consensus (header (entity block)))) block_data
       (lease_ttl_millis a) (stream_max_len a))));
  mret (default (Err "publish abandoned") <$> publish_loop arrivals 0 (replicate (redis_nodes a) None)).

(** The nodes that have the block after a repair. *)
Fixpoint repair_loop (results : list (result WriteBlockResult string)) (total_with_block : nat) :
    result nat string :=
  match results with
  | [] => Ok total_with_block
  | Ok Written :: results => repair_loop results (S total_with_block)
  | Ok HeightExists :: results => repair_loop results total_with_block
  | Ok FencingRejected :: _ => Err "Lost lock during repair"
  | Err _ :: results => repair_loop results total_with_block
  end.

Definition repair_sub_quorum_block (block : SB) (pre_existing_count : nat) : L (result bool string) :=
  epoch ← request ReadEpoch;
  match epoch with
  | None => mret (Err "Cannot repair block because fencing token is not initialized")
  | Some epoch =>
      match ser_sealed block with
      | None => mret (Err "postcard")
      | Some block_data =>
          results ← publish_block_on_all_nodes epoch block block_data;
          mret (match repair_loop results pre_existing_count with
                | Ok total_with_block => Ok (quorum_reached total_with_block)
                | Err e => Err e
                end)
      end
  end.

Definition is_written (r : result WriteBlockResult string) : bool :=
  match r with Ok Written => true | _ => false end.

Definition publish_produced_block (block : SB) : L (result unit string) :=
  epoch ← request ReadEpoch;
  match epoch with
  | None =>
      mret (match seal block with
            | CGenesis _ => Ok ()
            | CPoA _ => Err "Cannot publish block because fencing token is not initialized"
            end)
  | Some epoch =>
      match ser_sealed block with
      | None => mret (Err "postcard")
      | Some block_data =>
          results ← publish_block_on_all_nodes epoch block block_data;
          let successes := length (filter (λ r, is_written r = true) results) in
          mret (if quorum_reached successes then Ok ()
                else Err "Failed to publish block to redis quorum with fencing checks")
      end
  end.

(** ** Reconciliation *)

Fixpoint latest_loop (next_height : Z) (quorum_shortcircuit : bool) (arrivals : list Arrival)
    (successful_reads no_backlog_reads : nat) (backlog_seen : bool) : result bool string :=
  match arrivals with
  | [] => if quorum_reached successful_reads then Ok false else Err "Cannot reconcile"
  | x :: arrivals =>
      let r := read_latest_reply (a_reply x) in
      let backlog_seen := match r with
                          | Ok (Some latest_height) => backlog_seen || bool_decide (next_height ≤ latest_height)
                          | _ => backlog_seen
                          end in
      let no_backlog_reads := match r with
                              | Ok (Some latest_height) =>
                                  if decide (next_height ≤ latest_height) then no_backlog_reads else S no_backlog_reads
                              | Ok None => S no_backlog_reads
                              | Err _ => no_backlog_reads
                              end in
      let successful_reads := if is_ok r then S successful_reads else successful_reads in
      if backlog_seen && quorum_reached successful_reads then Ok true
      else if quorum_shortcircuit && quorum_reached no_backlog_reads then Ok false
      else latest_loop next_height quorum_shortcircuit arrivals successful_reads no_backlog_reads backlog_seen
  end.

Definition should_reconcile_from_stream (next_height : Z) (quorum_shortcircuit : bool) : L (result bool string) :=
  arrivals ← request (FanOut (on_all_nodes ReadLatest));
  mret (latest_loop next_height quorum_shortcircuit arrivals 0 0 false).

(** The entries of a node as blocks; what cannot be decoded is skipped. *)
Definition read_entries_reply (x : option Reply) : result (list (Z * Z * SB)) string :=
  match x with
  | Some (REntries (Ok entries)) =>
      if forallb (λ '(height, epoch, _, _), bool_decide (in_uint U32 height) && bool_decide (in_uint U64 epoch)) entries
      then Ok (omap (λ '(height, epoch, bytes, _), (λ block, (height, epoch, block)) <$> de_sealed bytes) entries)
      else Err "Failed to read stream entries from Redis node"
  | Some _ => Err "Failed to read stream entries from Redis node"
  | None => Err "Timed out reading stream entries from Redis node"
  end.

(** [join_all]: the result of each node, in their order. *)
Definition joined (arrivals : list Arrival) : list (option Reply) :=
  (λ i, x ← head (filter (λ x, a_node x = i) arrivals); a_reply x) <$> seq 0 (redis_nodes a).

Definition read_stream_entries_on_nodes (next_height : Z) (max_entries : Z) :
    L (list (result (list (Z * Z * SB)) string)) :=
  if decide (max_entries = 0) then mret (replicate (redis_nodes a) (Ok []))
  else
    arrivals ← request (FanOut (on_all_nodes (ReadEntries next_height max_entries)));
    mret (read_entries_reply <$> joined arrivals).

(** The blocks of a node by height and epoch. *)
Definition blocks_by_height (entries : list (Z * Z * SB)) : gmap Z (gmap Z SB) :=
  foldl (λ m '(height, epoch, block), <[height := <[epoch := block]> (default ∅ (m !! height))]> m) ∅ entries.

(** The entries of a hash map in its iteration order. *)
Definition map_entries {K V} `{Countable K} `{!HashOrder K} (m : gmap K V) : list (K * V) :=
  omap (λ k, pair k <$> m !! k) (hs_iter (dom m)).

(** The votes for the blocks of a height: by id, with the highest epoch and the number of
    copies. *)
Definition add_vote (votes : gmap BlockId (Z * nat * SB)) (vote : Z * SB) : gmap BlockId (Z * nat * SB) :=
  let '(epoch, block) := vote in
  let vote_key := block_id (entity block) in
  match votes !! vote_key with
  | Some (max_epoch, count, b) => <[vote_key := (Z.max max_epoch epoch, S count, b)]> votes
  | None => <[vote_key := (epoch, 1%nat, block)]> votes
  end.

Definition votes_at (current_height : Z) (blocks_by_node : list (gmap Z (gmap Z SB))) :
    gmap BlockId (Z * nat * SB) :=
  foldl add_vote ∅ (omap (λ m, m !! current_height) blocks_by_node ≫= map_entries).

(** [max_by_key]: the last one with the highest epoch. *)
Definition winner (votes : gmap BlockId (Z * nat * SB)) : option (nat * SB) :=
  (λ '(_, count, block), (count, block)) <$>
    foldl (λ best v, match best with
                     | Some b => if decide (v.1.1 < b.1.1) then Some b else Some v
                     | None => Some v
                     end) None (map_entries votes).*2.

(** The blocks from [current_height] on, at most [rounds] of them. *)
Fixpoint reconcile_heights (rounds : nat) (blocks_by_node : list (gmap Z (gmap Z SB))) (current_height : Z)
    (reconciled : list SB) : L (result (list SB) string) :=
  match rounds with
  | O => mret (Ok reconciled)
  | S rounds =>
      let stop := if decide (reconciled = []) then Err "Backlog unresolved" else Ok reconciled in
      let nodes_with_height := length (filter (λ m, is_Some (m !! current_height)) blocks_by_node) in
      if decide (nodes_with_height = 0%nat) then mret stop
      else
        match winner (votes_at current_height blocks_by_node) with
        | None => mret stop
        | Some (count, block) =>
            repaired ← (if quorum_reached count then mret (Ok true) else repair_sub_quorum_block block count);
            match repaired with
            | Ok true =>
                let reconciled := reconciled ++ [block] in
                if decide (current_height < U32)
                then reconcile_heights rounds blocks_by_node (current_height + 1) reconciled
                else mret (Ok reconciled)
            | Ok false => mret stop
            | Err _ => mret stop
            end
        end
  end.

Definition ok_reads {A E} (l : list (result A E)) : list A :=
  omap (λ r, match r with Ok x => Some x | Err _ => None end) l.

Definition unreconciled_blocks (next_height : Z) : L (result (list SB) string) :=
  backlog ← should_reconcile_from_stream next_height false;
  match backlog with
  | Err e => mret (Err e)
  | Ok false => mret (Ok [])
  | Ok true =>
      read_results ← read_stream_entries_on_nodes next_height (stream_max_len a);
      let successful_reads := ok_reads read_results in
      if negb (quorum_reached (length successful_reads)) then mret (Err "Cannot reconcile")
      else reconcile_heights (Z.to_nat (stream_max_len a)) (blocks_by_height <$> successful_reads) next_height []
  end.

Definition leader_state (next_height : Z) : L (result (LeaderState Tx Signature) string) :=
  leader ← can_produce_block;
  if negb leader then mret (Ok ReconciledFollower)
  else
    generation ← request LoadGeneration;
    reconciled ← request LoadReconciled;
    let full_scan := bool_decide (reconciled ≠ generation) in
    blocks ← (if full_scan then unreconciled_blocks next_height
              else
                backlog ← should_reconcile_from_stream next_height true;
                match backlog with
                | Err e => mret (Err e)
                | Ok true => _ ← request (StoreReconciled U64); unreconciled_blocks next_height
                | Ok false => mret (Ok [])
                end);
    match blocks with
    | Err e => mret (Err e)
    | Ok [] =>
        _ ← (if full_scan then request (StoreReconciled generation) else mret ());
        mret (Ok ReconciledLeader)
    | Ok blocks => mret (Ok (UnreconciledBlocks blocks))
    end.
End adapter.
