(* ===== verification/LeaderVotes.v ===== *)
(** * Counting the votes for a block

    The pure loops of the leader lock: which nodes have the block that a quorum of
    replies speaks for.  The winner of a height has as many votes as there are nodes that
    show it, if no node shows two blocks of the height. *)

From stdpp Require Import prelude gmap list strings.
From Stdlib Require Import ZArith Lia.
From S2P Require Import Prelude.
From S2P Require Import Programs.
From S2P Require Import Blocks.
From S2P Require Import RedisNode.
From S2P Require Import RedisNodeFacts.
From S2P Require Import LeaderLease.
Local Open Scope Z_scope.

(** ** Positions *)

(** As many positions as there are elements with a property. *)
Lemma filter_positions {A} (P : A → Prop) `{!∀ x, Decision (P x)} l :
  ∃ ps : list nat, NoDup ps ∧ length ps = length (filter P l) ∧ ∀ i, i ∈ ps → ∃ x, l !! i = Some x ∧ P x.
Proof.
  induction l as [|x l (ps & Hnd & Hlen & His)]; [exists []; split_and!; [constructor|done|set_solver]|].
  assert (NoDup (S <$> ps)) as Hnd' by (by apply NoDup_fmap_2; [intros ?? [=]|]).
  assert (∀ i, i ∈ S <$> ps → ∃ y, (x :: l) !! i = Some y ∧ P y) as His'.
  { intros i (j & -> & Hj)%list_elem_of_fmap. by apply His. }
  rewrite filter_cons. case_decide as Hx.
  - exists (0%nat :: (S <$> ps)). split_and!.
    + constructor; [|done]. by intros (j & ? & _)%list_elem_of_fmap.
    + simpl. by rewrite length_fmap, Hlen.
    + intros i [->|Hi]%elem_of_cons; [by exists x|by apply His'].
  - exists (S <$> ps). split_and!; [done|by rewrite length_fmap|done].
Qed.

(** One vote for each list that has any. *)
Lemma filter_concat_le {A} (P : A → Prop) `{!∀ x, Decision (P x)} (ls : list (list A)) :
  (∀ l, l ∈ ls → (length l ≤ 1)%nat) →
  (length (filter P (concat ls)) ≤ length (filter (λ l, Exists P l) ls))%nat.
Proof.
  induction ls as [|l ls IH]; intros Hl; [done|]. simpl. rewrite filter_app, length_app, filter_cons.
  assert (length (filter P l) ≤ length l)%nat by apply length_filter.
  assert (length l ≤ 1)%nat by (apply Hl; by left). specialize (IH ltac:(set_solver)).
  case_decide as Hx; simpl; [lia|]. enough (filter P l = []) as -> by done.
  destruct (filter P l) as [|x l'] eqn:Hf; [done|]. destruct Hx. apply Exists_exists. exists x.
  assert (x ∈ filter P l) as [? ?]%list_elem_of_filter by (rewrite Hf; by left). done.
Qed.

Lemma omap_length_le {A B} (f : A → option B) l : (length (omap f l) ≤ length l)%nat.
Proof. induction l as [|x l IH]; [done|]. csimpl. destruct (f x); csimpl; lia. Qed.

(** ** Publication *)

Section publish.
Context (a : RedisLeaderLeaseAdapter).

(** What a node has answered to a publication. *)
Lemma publish_loop_ok arrivals count results i r :
  publish_loop a arrivals count results !! i = Some (Some r) →
  results !! i = Some (Some r) ∨ ∃ x, x ∈ arrivals ∧ a_node x = i ∧ publish_block_reply (a_reply x) = r.
Proof.
  revert count results. induction arrivals as [|x arrivals IH]; intros count results; simpl; [by left|].
  assert (∀ res, res = <[a_node x := Some (publish_block_reply (a_reply x))]> results → res !! i = Some (Some r) →
    results !! i = Some (Some r) ∨ (a_node x = i ∧ publish_block_reply (a_reply x) = r)) as Hins.
  { intros ? ->. rewrite list_lookup_insert. case_decide as Hi; [|by left]. destruct Hi as [-> _]. intros [= ->]. by right. }
  destruct (quorum_reached _ _).
  - intros [?|[? ?]]%Hins; [by left| |done]. right. exists x. split; [by left|done].
  - intros [[?|[? ?]]%Hins|(y & ? & ?)]%IH; [by left| |done|].
    + right. exists x. split; [by left|done].
    + right. exists y. split; [by right|done].
Qed.

Lemma written_positions arrivals :
  let results := default (Err "publish abandoned") <$> publish_loop a arrivals 0 (replicate (redis_nodes a) None) in
  ∃ ps : list nat, NoDup ps ∧ length ps = length (filter (λ r, is_written r = true) results) ∧
    ∀ i, i ∈ ps → ∃ x, x ∈ arrivals ∧ a_node x = i ∧ ∃ id, a_reply x = Some (RWritten (Ok id)).
Proof.
  intros results. destruct (filter_positions (λ r, is_written r = true) results) as (ps & Hnd & Hlen & His).
  exists ps. split_and!; [done..|]. intros i (r & Hr & Hw)%His. apply list_lookup_fmap_Some in Hr as (o & -> & Ho).
  destruct o as [r|]; [|done]. apply publish_loop_ok in Ho as [[? _]%lookup_replicate|(x & Hx & <- & Hr)]; [done|].
  exists x. split_and!; [done..|]. simpl in Hw. rewrite <- Hr in Hw.
  destruct (a_reply x) as [[|[|[]]| |]|]; simpl in Hw; try done. by eauto.
Qed.

Lemma repair_loop_ok results k total :
  repair_loop results k = Ok total → total = (k + length (filter (λ r, is_written r = true) results))%nat.
Proof.
  revert k. induction results as [|[[]|] results IH]; intros k; simpl; intros Hr; try done.
  - injection Hr. lia.
  - apply IH in Hr. simpl in *. lia.
  - by apply IH in Hr.
  - by apply IH in Hr.
Qed.
End publish.

(** ** Votes *)

Section votes.
Context {Tx Signature : Type} `{!ChainCrypto Tx Signature}.
Context `{!HashOrder Z} `{!HashOrder BlockId}.
Abbreviation SB := (SealedBlock Tx Signature).
Implicit Types (b : SB) (entries : list (Z * Z * SB)).

Lemma map_entries_in {K V} `{Countable K} `{!HashOrder K} (m : gmap K V) k v :
  (k, v) ∈ map_entries m ↔ m !! k = Some v.
Proof.
  unfold map_entries. rewrite list_elem_of_omap. split.
  - intros (k' & _ & (v' & Hv & [= -> ->])%fmap_Some). done.
  - intros Hm. exists k. split; [|by rewrite Hm]. apply hs_iter_in, elem_of_dom. by exists v.
Qed.

Lemma map_entries_length {K V} `{Countable K} `{!HashOrder K} (m : gmap K V) : (length (map_entries m) ≤ size m)%nat.
Proof.
  unfold map_entries. etrans; [apply omap_length_le|]. rewrite hs_iter_perm.
  change (size (dom m) ≤ size m)%nat. by rewrite size_dom.
Qed.

(** The votes of a node for a height, from the result of its read. *)
Definition node_votes (h : Z) (r : result (list (Z * Z * SB)) string) : list (Z * SB) :=
  match r with
  | Ok entries => match blocks_by_height entries !! h with Some m => map_entries m | None => [] end
  | Err _ => []
  end.

Lemma votes_concat h (results : list (result (list (Z * Z * SB)) string)) :
  omap (λ m, m !! h) (blocks_by_height <$> ok_reads results) ≫= map_entries = concat (node_votes h <$> results).
Proof.
  induction results as [|[entries|e] results IH]; [done| |done].
  csimpl. destruct (blocks_by_height entries !! h); csimpl; by rewrite <- IH.
Qed.

Lemma blocks_by_height_snoc entries t :
  blocks_by_height (entries ++ [t]) =
    <[t.1.1 := <[t.1.2 := t.2]> (default ∅ (blocks_by_height entries !! t.1.1))]> (blocks_by_height entries).
Proof. unfold blocks_by_height. rewrite foldl_app. by destruct t as [[? ?] ?]. Qed.

(** A node has no more votes for a height than entries, and they are its entries. *)
Lemma blocks_by_height_ok h entries :
  (size (default ∅ (blocks_by_height entries !! h)) ≤ length (filter (λ t, t.1.1 = h) entries))%nat ∧
  ∀ e b, default ∅ (blocks_by_height entries !! h) !! e = Some b → (h, e, b) ∈ entries.
Proof.
  induction entries as [|[[h' e'] b'] entries [IH1 IH2]] using rev_ind.
  { change (blocks_by_height []) with (∅ : gmap Z (gmap Z SB)). rewrite lookup_empty. simpl.
    split; [done|]. intros e b. by rewrite lookup_empty. }
  rewrite blocks_by_height_snoc, filter_app, length_app. simpl.
  destruct (decide (h' = h)) as [->|Hne].
  - rewrite lookup_insert_eq. simpl. split.
    + rewrite filter_cons_True by done. rewrite map_size_insert. cbn [length].
      destruct (default ∅ (blocks_by_height entries !! h) !! e'); unfold id in *; lia.
    + intros e b [[-> ->]|[_ Hl]]%lookup_insert_Some; apply elem_of_app; [right; by left|left; by apply IH2].
  - rewrite lookup_insert_ne by done. split; [lia|]. intros e b Hl%IH2. apply elem_of_app. by left.
Qed.

Lemma node_votes_ok h entries :
  (length (node_votes h (Ok entries)) ≤ length (filter (λ t, t.1.1 = h) entries))%nat ∧
  ∀ e b, (e, b) ∈ node_votes h (Ok entries) → (h, e, b) ∈ entries.
Proof.
  destruct (blocks_by_height_ok h entries) as [H1 H2]. simpl. destruct (blocks_by_height entries !! h) as [m|]; simpl in *.
  - split; [pose proof (map_entries_length m); lia|]. intros e b ?%map_entries_in. by apply H2.
  - split; [lia|]. by intros e b ?%not_elem_of_nil.
Qed.

(** The count of a vote is that of the copies. *)
Lemma votes_ok (l : list (Z * SB)) k :
  match foldl add_vote ∅ l !! k with
  | Some (_, c, b) =>
      c = length (filter (λ v, block_id (entity v.2) = k) l) ∧ block_id (entity b) = k ∧ b ∈ l.*2
  | None => filter (λ v, block_id (entity v.2) = k) l = []
  end.
Proof.
  induction l as [|[e b] l IH] using rev_ind; [simpl; by rewrite lookup_empty|].
  rewrite foldl_app, filter_app, fmap_app. simpl.
  destruct (decide (block_id (entity b) = k)) as [Hk|Hk].
  - rewrite filter_cons_True by done. rewrite Hk.
    destruct (foldl add_vote ∅ l !! k) as [[[e0 c0] b0]|] eqn:Hl; rewrite lookup_insert_eq.
    + destruct IH as (-> & ? & ?). split_and!; [rewrite length_app; simpl; lia|done|]. apply elem_of_app. by left.
    + rewrite IH. split_and!; [done..|]. apply elem_of_app. right. by left.
  - rewrite filter_cons_False by done. rewrite app_nil_r.
    assert (∀ v, <[block_id (entity b) := v]> (foldl add_vote ∅ l) !! k = foldl add_vote ∅ l !! k) as Hne
      by (intros v; by apply lookup_insert_ne).
    destruct (foldl add_vote ∅ l !! block_id (entity b)) as [[[e0 c0] b0]|]; rewrite Hne.
    all: destruct (foldl add_vote ∅ l !! k) as [[[e1 c1] b1]|]; [|done].
    all: destruct IH as (? & ? & ?); split_and!; [done..|]; apply elem_of_app; by left.
Qed.

(** The winner has the highest epoch. *)
Lemma winner_max (votes : gmap BlockId (Z * nat * SB)) :
  match winner votes with
  | Some (count, b) => ∃ k e, votes !! k = Some (e, count, b) ∧
      ∀ k' e' c' b', votes !! k' = Some (e', c', b') → e' ≤ e
  | None => votes = ∅
  end.
Proof.
  unfold winner.
  assert (∀ (l : list (Z * nat * SB)) (o : option (Z * nat * SB)),
    match foldl (λ best v, match best with
                     | Some b => if decide (v.1.1 < b.1.1) then Some b else Some v
                     | None => Some v
                     end) o l with
    | Some v => (o = Some v ∨ v ∈ l) ∧ (∀ x, x ∈ l → x.1.1 ≤ v.1.1) ∧ ∀ x, o = Some x → x.1.1 ≤ v.1.1
    | None => o = None ∧ l = []
    end) as Hin.
  { induction l as [|x l IH]; intros o; simpl.
    - destruct o as [o|]; [|done]. split_and!; [by left|by intros x ?%not_elem_of_nil|by intros x [= ->]].
    - specialize (IH (match o with Some b => if decide (x.1.1 < b.1.1) then Some b else Some x | None => Some x end)).
      destruct (foldl _ _ l) as [v|].
      + destruct IH as (H1 & H2 & H3). split_and!.
        * destruct H1 as [H1|H1]; [|right; by right]. destruct o as [o|]; [case_decide|]; simplify_eq; [by left|right; by left..].
        * intros y [->|Hy]%elem_of_cons; [|by apply H2].
          destruct o as [o|]; [case_decide|]; [specialize (H3 o eq_refl); lia|by apply H3..].
        * intros y ->. case_decide; [by apply H3|]. specialize (H3 x eq_refl). lia.
      + destruct IH as [IH _]. destruct o as [o|]; [by case_decide|done]. }
  specialize (Hin (map_entries votes).*2 None). destruct (foldl _ _ _) as [[[e c] b]|]; simpl.
  - destruct Hin as ([?|Hf] & Hmax & _); [done|]. apply list_elem_of_fmap in Hf as ([k v] & Heq & Hk).
    simpl in Heq. subst v. exists k, e. apply map_entries_in in Hk. split; [done|]. intros k' e' c' b' Hk'.
    apply (Hmax (e', c', b')), list_elem_of_fmap. exists (k', (e', c', b')). by rewrite map_entries_in.
  - destruct Hin as [_ Hnil]. apply map_eq. intros k. rewrite lookup_empty. apply eq_None_not_Some. intros [v Hv].
    apply map_entries_in in Hv. apply fmap_nil_inv in Hnil. rewrite Hnil in Hv. by apply not_elem_of_nil in Hv.
Qed.

Lemma winner_in (votes : gmap BlockId (Z * nat * SB)) count b :
  winner votes = Some (count, b) → ∃ k e, votes !! k = Some (e, count, b).
Proof. intros Hw. pose proof (winner_max votes) as Hm. rewrite Hw in Hm. naive_solver. Qed.

(** The winner of a height: nodes that show copies of it, as many as it has votes. *)
Lemma winner_positions h (results : list (result (list (Z * Z * SB)) string)) count b :
  winner (votes_at h (blocks_by_height <$> ok_reads results)) = Some (count, b) →
  (∃ e, (e, b) ∈ concat (node_votes h <$> results)) ∧
  ((∀ r, r ∈ results → (length (node_votes h r) ≤ 1)%nat) →
   ∃ ps : list nat, NoDup ps ∧ (count ≤ length ps)%nat ∧
     ∀ i, i ∈ ps → ∃ r e b', results !! i = Some r ∧ (e, b') ∈ node_votes h r ∧
       block_id (entity b') = block_id (entity b)).
Proof.
  intros (k & e & Hv)%winner_in. unfold votes_at in Hv. rewrite votes_concat in Hv.
  pose proof (votes_ok (concat (node_votes h <$> results)) k) as Hk. rewrite Hv in Hk. destruct Hk as (-> & Hb & Hin).
  split; [apply list_elem_of_fmap in Hin as ([e' b'] & -> & ?); by exists e'|]. intros Hone.
  destruct (filter_positions (λ l, Exists (λ v : Z * SB, block_id (entity v.2) = k) l) (node_votes h <$> results))
    as (ps & Hnd & Hlen & Hps).
  exists ps. split_and!; [done| |].
  - rewrite Hlen. apply filter_concat_le. intros l (r & -> & Hr)%list_elem_of_fmap. by apply Hone.
  - intros i (l & Hl & ([e' b'] & Hin' & Hk)%Exists_exists)%Hps. apply list_lookup_fmap_Some in Hl as (r & -> & Hr).
    exists r, e', b'. simpl in Hk. split_and!; [done..|congruence].
Qed.
End votes.
