(* ===== verification/LeaderFacts.v ===== *)
(** * What the leader lock promises to a producer

    The world of the leader lock are the blocks each of its nodes took.  A block is
    accepted if a majority of the nodes took it, or if some node took two blocks of its
    height.  A published block is accepted, and so are the blocks of a reconciliation. *)

From stdpp Require Import prelude gmap list strings.
From Stdlib Require Import ZArith Lia.
From S2P Require Import Prelude.
From S2P Require Import Programs.
From S2P Require Import Blocks.
From S2P Require Import BlockStore.
From S2P Require Import Importer.
From S2P Require Import PoaService.
From S2P Require Import RedisNode.
From S2P Require Import RedisNodeFacts.
From S2P Require Import LeaderLease.
From S2P Require Import LeaderVotes.
Local Open Scope Z_scope.

Class SealedCodecLaws (Tx Signature : Type) `{!SealedCodec Tx Signature} : Prop := {
  de_ser_sealed b d : ser_sealed b = Some d → de_sealed d =
    Some {| entity := {| header := uncached (header (entity b)); transactions := transactions (entity b) |};
            seal := seal b |};
  de_sealed_uncached d b : de_sealed d = Some b → metadata (header (entity b)) = None;
}.

(** ** Worlds *)

Abbreviation World := (list (list Write)).

Definition grows (w w' : World) : Prop := Forall2 prefix w w'.

#[global] Instance grows_preorder : PreOrder grows.
Proof. change (PreOrder (Forall2 (prefix (A := Write)))). apply _. Qed.

Lemma grows_lookup w w' i ws : grows w w' → w !! i = Some ws → ∃ ws', w' !! i = Some ws' ∧ ws `prefix_of` ws'.
Proof. intros Hg Hi. eapply Forall2_lookup_l in Hg as (ws' & ? & ?); eauto. Qed.

Lemma grows_length w w' : grows w w' → length w' = length w.
Proof. intros Hg. by apply Forall2_length in Hg. Qed.

(** Some node took two blocks of a height. *)
Definition taken_twice (w : World) (h : Z) : Prop :=
  ∃ i ws, w !! i = Some ws ∧ (2 ≤ length (at_height h ws))%nat.

Lemma at_height_prefix h ws ws' : ws `prefix_of` ws' → (length (at_height h ws) ≤ length (at_height h ws'))%nat.
Proof. intros [l ->]. unfold at_height. rewrite filter_app, length_app. lia. Qed.

Lemma at_height_sublist h ws ws' : ws' `sublist_of` ws → (length (at_height h ws') ≤ length (at_height h ws))%nat.
Proof. unfold at_height. induction 1; rewrite ?filter_cons; repeat case_decide; simpl; lia. Qed.

Lemma taken_twice_mono w w' h : grows w w' → taken_twice w h → taken_twice w' h.
Proof.
  intros Hg (i & ws & Hi & Hl). destruct (grows_lookup _ _ _ _ Hg Hi) as (ws' & Hi' & Hp).
  exists i, ws'. split; [done|]. pose proof (at_height_prefix h _ _ Hp). lia.
Qed.

Lemma two_at_height h ws i j w1 w2 :
  i ≠ j → ws !! i = Some w1 → ws !! j = Some w2 → w_height w1 = h → w_height w2 = h →
  (2 ≤ length (at_height h ws))%nat.
Proof.
  intros Hne H1 H2 Hh1 Hh2. assert (∀ i j w1 w2, (i < j)%nat → ws !! i = Some w1 → ws !! j = Some w2 →
    w_height w1 = h → w_height w2 = h → (2 ≤ length (at_height h ws))%nat) as Hlt.
  { clear. intros i j w1 w2 Hlt H1 H2 Hh1 Hh2.
    rewrite <- (take_drop_middle ws j w2 H2). unfold at_height. rewrite filter_app, filter_cons_True, length_app by done.
    assert (w1 ∈ filter (λ w, w_height w = h) (take j ws)) as Hin.
    { apply list_elem_of_filter. split; [done|]. apply list_elem_of_lookup. exists i. by rewrite lookup_take_lt. }
    destruct (filter _ (take j ws)); [by apply not_elem_of_nil in Hin|]. simpl. lia. }
  destruct (decide (i < j)%nat); [by eapply Hlt|]. eapply (Hlt j i); [lia|done..].
Qed.

Section leader.
Context {Tx Signature : Type} `{!ChainCrypto Tx Signature}.
Context `{!SealedCodec Tx Signature} `{!SealedCodecLaws Tx Signature}.
Context `{!HashOrder Z} `{!HashOrder BlockId}.
Abbreviation SB := (SealedBlock Tx Signature).
Implicit Types (b : SB) (w : World).

Definition hash_of b : BlockId := header_hash (header (entity b)).

(** The data of a block is that of a block of its height. *)
Definition write_ok (wr : Write) : Prop :=
  ∃ b : SB, ser_sealed b = Some (w_data wr) ∧ height_of b = w_height wr.

(** A node took a block, or one with the same header. *)
Definition holds w (i : nat) b : Prop :=
  ∃ ws wr b0, w !! i = Some ws ∧ wr ∈ ws ∧ w_height wr = height_of b ∧ ser_sealed b0 = Some (w_data wr) ∧
    hash_of b0 = hash_of b.

Definition accepted w b : Prop :=
  taken_twice w (height_of b) ∨
  ∃ ps : list nat, NoDup ps ∧ (length w < 2 * length ps)%nat ∧ ∀ i, i ∈ ps → holds w i b.

Lemma holds_mono w w' i b : grows w w' → holds w i b → holds w' i b.
Proof.
  intros Hg (ws & wr & b0 & Hi & Hw & ?). destruct (grows_lookup _ _ _ _ Hg Hi) as (ws' & Hi' & Hp).
  exists ws', wr, b0. split_and!; [done| |naive_solver..]. destruct Hp as [l ->]. apply elem_of_app. by left.
Qed.

Lemma accepted_mono w w' b : grows w w' → accepted w b → accepted w' b.
Proof.
  intros Hg [?|(ps & Hnd & Hl & Hps)]; [left; by eapply taken_twice_mono|]. right. exists ps.
  rewrite (grows_length _ _ Hg). split_and!; [done..|]. intros i Hi. by eapply holds_mono, Hps.
Qed.

(** Two majorities meet. *)
Lemma majorities_meet (n : nat) (l1 l2 : list nat) :
  NoDup l1 → NoDup l2 → (∀ i, i ∈ l1 → i < n)%nat → (∀ i, i ∈ l2 → i < n)%nat →
  (n < 2 * length l1)%nat → (n < 2 * length l2)%nat → ∃ i, i ∈ l1 ∧ i ∈ l2.
Proof.
  intros H1 H2 Hl1 Hl2 Hn1 Hn2. destruct (decide (Exists (λ i, i ∈ l2) l1)) as [He|He]; [by apply Exists_exists in He|].
  exfalso. assert (NoDup (l1 ++ l2)) as Hnd.
  { apply NoDup_app. split_and!; [done| |done]. intros i Hi Hi2. apply He, Exists_exists. by exists i. }
  assert (l1 ++ l2 ⊆+ seq 0 n) as Hs.
  { apply NoDup_submseteq; [done|]. intros i [Hi|Hi]%elem_of_app; apply elem_of_seq; [apply Hl1 in Hi|apply Hl2 in Hi]; lia. }
  apply submseteq_length in Hs. rewrite length_app, length_seq in Hs. lia.
Qed.

Lemma holds_lt w i b : holds w i b → (i < length w)%nat.
Proof. intros (ws & ? & ? & Hi & _). by apply lookup_lt_Some in Hi. Qed.

(** Two accepted blocks of a height have the same header, if no node took two. *)
Lemma accepted_agree w b1 b2 :
  accepted w b1 → accepted w b2 → height_of b1 = height_of b2 → ¬ taken_twice w (height_of b1) →
  hash_of b1 = hash_of b2.
Proof using Type*.
  intros [?|(l1 & Hd1 & Hn1 & Hl1)] [Ht|(l2 & Hd2 & Hn2 & Hl2)] Hh Hno; [done..|by rewrite <- Hh in Ht|].
  destruct (majorities_meet (length w) l1 l2) as (i & Hi1 & Hi2); try done.
  { intros i Hi. by eapply holds_lt, Hl1. }
  { intros i Hi. by eapply holds_lt, Hl2. }
  destruct (Hl1 _ Hi1) as (ws & wr1 & b1' & Hws & Hin1 & Hh1 & Hs1 & <-).
  destruct (Hl2 _ Hi2) as (ws' & wr2 & b2' & Hws' & Hin2 & Hh2 & Hs2 & <-). simplify_eq.
  apply list_elem_of_lookup in Hin1 as [j1 Hj1], Hin2 as [j2 Hj2].
  destruct (decide (j1 = j2)) as [->|Hne].
  - simplify_eq. apply de_ser_sealed in Hs1, Hs2. rewrite Hs1 in Hs2.
    assert (consensus (header (entity b1')) = consensus (header (entity b2'))) as Hc by (by injection Hs2).
    unfold hash_of, header_hash. by rewrite Hc.
  - destruct Hno. exists i, ws. split; [done|]. eapply two_at_height; [exact Hne|done..|congruence].
Qed.

(** ** Requests *)

Context (max_len : Z).

(** The nodes took only encoded blocks. *)
Definition blocks_only w : Prop := ∀ i ws wr, w !! i = Some ws → wr ∈ ws → write_ok wr.

(** A node took a block after the world [w]. *)
Definition took w w' (i : nat) (h : Z) (data : list Z) : Prop :=
  ∃ ws0 ws j wr, w !! i = Some ws0 ∧ w' !! i = Some ws ∧ (length ws0 ≤ j)%nat ∧ ws !! j = Some wr ∧
    w_height wr = h ∧ w_data wr = data.

Definition reply_in w w' (i : nat) (c : Call) (x : Reply) : Prop :=
  match c, x with
  | WriteBlock _ _ h data _ _, RWritten (Ok _) => took w w' i h data
  | ReadEntries _ _, REntries (Ok l) => ∃ ws ws', w' !! i = Some ws ∧ ws' `sublist_of` ws ∧ Forall2 shows ws' l
  | _, _ => True
  end.

Definition call_wf (c : Call) : Prop :=
  match c with
  | WriteBlock _ _ h data _ n => n = max_len ∧ ∃ b : SB, ser_sealed b = Some data ∧ height_of b = h
  | _ => True
  end.

Definition lpre (X : Type) (e : LEv X) w : Prop :=
  match e with
  | FanOut calls | Background calls => ∀ i c, (i, c) ∈ calls → (i < length w)%nat ∧ call_wf c
  | _ => True
  end.

Definition lpost (X : Type) (e : LEv X) w w' : X → Prop :=
  match e in LEv X return X → Prop with
  | FanOut calls => λ arrivals, blocks_only w' ∧
      ∀ x reply, x ∈ arrivals → a_reply x = Some reply →
        ∃ c, (a_node x, c) ∈ calls ∧ reply_in w w' (a_node x) c reply
  | _ => λ _, True
  end.

Abbreviation wpl := (wp grows lpre lpost).

Lemma lpre_mono X (e : LEv X) w w' : grows w w' → lpre X e w → lpre X e w'.
Proof. intros Hg. destruct e; try done; simpl; intros Hp; rewrite (grows_length _ _ Hg); exact Hp. Qed.

Lemma took_mono w1 w2 w i h d : grows w1 w2 → took w2 w i h d → took w1 w i h d.
Proof.
  intros Hg (ws2 & ws & j & wr & Hi & ? & Hj & ?). unfold grows in Hg.
  eapply Forall2_lookup_r in Hg as (ws1 & Hi1 & Hp); [|exact Hi]. exists ws1, ws, j, wr.
  apply prefix_length in Hp. split_and!; [done|done|lia|naive_solver..].
Qed.

Lemma lpost_mono X (e : LEv X) w1 w2 w x : grows w1 w2 → lpost X e w2 w x → lpost X e w1 w x.
Proof.
  intros Hg. destruct e; try done. intros [Hb Hx]. split; [done|]. intros y reply Hy Hr.
  destruct (Hx y reply Hy Hr) as (c & Hc & Hin). exists c. split; [done|].
  destruct c, reply as [|[]| |]; try done. by eapply took_mono.
Qed.

Lemma wpl_ret {A} (r : A) w (Q : A → World → Prop) : Q r w → wpl (mret r) w Q.
Proof. done. Qed.

(** ** Adapters *)

Section adapter.
Context (a : RedisLeaderLeaseAdapter).

Record adapter_ok w : Prop := {
  ao_nodes : redis_nodes a = length w;
  ao_quorum : (redis_nodes a < 2 * quorum a)%nat;
  ao_max_len : stream_max_len a = max_len;
}.

Lemma adapter_ok_mono w w' : grows w w' → adapter_ok w → adapter_ok w'.
Proof. intros Hg [? ? ?]. split; [|done..]. by rewrite (grows_length _ _ Hg). Qed.

Lemma on_all_nodes_in c i c' : (i, c') ∈ on_all_nodes a c ↔ (i < redis_nodes a)%nat ∧ c' = c.
Proof.
  unfold on_all_nodes. rewrite list_elem_of_fmap. split.
  - intros (j & [= -> ->] & Hj%elem_of_seq). split; [lia|done].
  - intros [Hi ->]. exists i. split; [done|]. apply elem_of_seq. lia.
Qed.

(** A call to all nodes. *)
Lemma wpl_fan_out c w (Q : list Arrival → World → Prop) :
  adapter_ok w → call_wf c →
  (∀ arrivals w', grows w w' → blocks_only w' →
    (∀ x reply, x ∈ arrivals → a_reply x = Some reply → (a_node x < length w)%nat ∧ reply_in w w' (a_node x) c reply) →
    Q arrivals w') →
  wpl (request (FanOut (on_all_nodes a c))) w Q.
Proof using Type*.
  intros Ha Hc HQ. apply wp_request.
  - intros i c' [Hi ->]%on_all_nodes_in. rewrite <- (ao_nodes _ Ha). done.
  - intros arrivals w' Hg [Hb Hx]. apply HQ; [done..|]. intros x reply Hin Hr.
    destruct (Hx x reply Hin Hr) as (c' & [Hi ->]%on_all_nodes_in & Hre). rewrite <- (ao_nodes _ Ha). done.
Qed.

(** Operations that only use the lease. *)
Definition harmless {A} (p : L A) : Prop := ∀ w, adapter_ok w → wpl p w (λ _ _, True).

Lemma harmless_bind {A B} (p : L A) (f : A → L B) : harmless p → (∀ x, harmless (f x)) → harmless (p ≫= f).
Proof using Type*.
  intros Hp Hf w Ha. apply wp_bind. eapply wp_mono; [apply _| |by apply Hp].
  intros x w' Hg _. apply Hf. by eapply adapter_ok_mono.
Qed.

Lemma harmless_ret {A} (x : A) : harmless (mret x).
Proof. done. Qed.

Lemma harmless_request {X} (e : LEv X) :
  (∀ w, adapter_ok w → lpre X e w) → harmless (request e).
Proof. intros He w Ha. split; [by apply He|done]. Qed.

Lemma harmless_fan_out c : call_wf c → harmless (request (FanOut (on_all_nodes a c))).
Proof using Type*. intros Hc w Ha. by apply wpl_fan_out. Qed.

Lemma release_harmless : harmless (release_lease_on_all_nodes a).
Proof using Type*. apply harmless_bind; [by apply harmless_fan_out|]. intros x. apply harmless_ret. Qed.

Lemma owner_loop_length arrivals count l l' : owner_loop a arrivals count l = Some l' → length l' = length l.
Proof.
  revert count l. induction arrivals as [|x arrivals IH]; intros count l; simpl; [done|].
  destruct (check_lease_owner_reply _); [|by apply IH].
  destruct (quorum_reached _ _); [intros [= <-]; by rewrite length_insert|].
  intros ->%IH. by rewrite length_insert.
Qed.

Lemma has_lease_harmless : harmless (has_lease_owner_quorum a).
Proof using Type*.
  apply harmless_bind; [by apply harmless_fan_out|]. intros arrivals.
  destruct (owner_loop _ _ _ _) as [l|] eqn:Hl; [|apply harmless_ret].
  apply owner_loop_length in Hl. rewrite length_replicate in Hl.
  apply harmless_bind; [|intros x; apply harmless_ret]. unfold spawn_acquire_lease_on_unowned_nodes.
  case_decide; [apply harmless_ret|]. apply harmless_request. intros w Ha i c Hc.
  apply list_elem_of_fmap in Hc as ([i' o] & [= -> ->] & [_ Hi]%list_elem_of_filter). split; [|done].
  apply list_elem_of_lookup in Hi as [j Hj]. rewrite list_lookup_imap in Hj.
  destruct (l !! j) eqn:Hlj; [|done]. simplify_eq/=. apply lookup_lt_Some in Hlj. rewrite <- (ao_nodes _ Ha). lia.
Qed.

Lemma acquire_harmless n : harmless (acquire_attempts a n).
Proof using Type*.
  induction n as [|n IH]; [apply harmless_ret|]. cbn [acquire_attempts]. apply harmless_bind; [by apply harmless_fan_out|]. intros arrivals.
  destruct (acquired _).
  - apply harmless_bind; [destruct (max_token _); [by apply harmless_request|apply harmless_ret]|]. intros x.
    apply harmless_bind; [by apply harmless_request|]. intros y. apply harmless_ret.
  - apply harmless_bind; [case_decide; [apply harmless_ret|apply release_harmless]|]. intros x.
    destruct (lock_taken _); [apply harmless_ret|].
    apply harmless_bind; [destruct n; [apply harmless_ret|by apply harmless_request]|done].
Qed.

Lemma can_produce_harmless : harmless (can_produce_block a).
Proof using Type*.
  apply harmless_bind; [apply has_lease_harmless|]. intros [|]; [apply harmless_ret|apply acquire_harmless].
Qed.

Lemma release_if_owner_harmless : harmless (release_if_owner a).
Proof using Type*.
  apply harmless_bind; [apply release_harmless|]. intros x.
  apply harmless_bind; [by apply harmless_request|]. intros y. apply harmless_ret.
Qed.

(** ** Publication *)

Lemma quorum_reached_iff n : quorum_reached a n = true ↔ (quorum a ≤ n)%nat.
Proof. unfold quorum_reached. by rewrite bool_decide_eq_true. Qed.

(** As many nodes took the block as results say so. *)
Lemma publish_on_all_ok epoch b data w (Q : list (result WriteBlockResult string) → World → Prop) :
  adapter_ok w → ser_sealed b = Some data →
  (∀ results w' (ps : list nat), grows w w' → NoDup ps →
    length ps = length (filter (λ r, is_written r = true) results) →
    (∀ i, i ∈ ps → took w w' i (height_of b) data) → Q results w') →
  wpl (publish_block_on_all_nodes a epoch b data) w Q.
Proof using Type*.
  intros Ha Hd HQ. apply wp_bind, wpl_fan_out; [done|split; [by eapply ao_max_len|by exists b]|].
  intros arrivals w' Hg _ Hx. apply wpl_ret.
  destruct (written_positions a arrivals) as (ps & Hnd & Hlen & Hps). eapply HQ; [done|exact Hnd|done|].
  intros i (x & Hin & <- & id & Hr)%Hps. by apply (Hx _ _ Hin) in Hr as [_ Hr].
Qed.

Lemma took_holds w w' i b data : took w w' i (height_of b) data → ser_sealed b = Some data → holds w' i b.
Proof.
  intros (_ & ws & j & wr & _ & Hi & _ & Hj & Hh & Hdata) Hd. exists ws, wr, b.
  split_and!; [done|by eapply list_elem_of_lookup_2|done|by rewrite Hdata|done].
Qed.

Lemma publish_produced_ok b w signature :
  adapter_ok w → seal b = CPoA signature →
  wpl (publish_produced_block a b) w (λ r w', r = Ok () → accepted w' b).
Proof using Type*.
  intros Ha Hs. apply wp_bind, wp_request; [done|]. intros epoch w1 Hg1 _. apply (adapter_ok_mono _ _ Hg1) in Ha.
  destruct epoch as [epoch|]; [|apply wpl_ret; by rewrite Hs].
  destruct (ser_sealed b) as [data|] eqn:Hd; [|by apply wpl_ret].
  apply wp_bind. eapply publish_on_all_ok; [done..|]. intros results w2 ps Hg2 Hnd Hlen Hps. apply wpl_ret.
  destruct (quorum_reached _ _) eqn:Hq; [|done]. intros _. apply quorum_reached_iff in Hq. right. exists ps.
  rewrite (grows_length _ _ Hg2), <- (ao_nodes _ Ha). pose proof (ao_quorum _ Ha). split_and!; [done|lia|].
  intros i Hi. by eapply took_holds, Hd; apply Hps.
Qed.

Lemma publish_harmless b : harmless (publish_produced_block a b).
Proof using Type*.
  apply harmless_bind; [by apply harmless_request|]. intros [epoch|]; [|apply harmless_ret].
  destruct (ser_sealed b) as [data|] eqn:Hd; [|apply harmless_ret]. intros w Ha. apply wp_bind.
  eapply publish_on_all_ok; [done..|]. intros results w' ps _ _ _ _. by apply wpl_ret.
Qed.

(** A node that has the block and takes it again took two of its height. *)
Lemma took_again w w' i b h data :
  grows w w' → holds w i b → h = height_of b → took w w' i h data → taken_twice w' h.
Proof.
  intros Hg (ws0 & wr0 & _ & Hi0 & Hw0 & Hh0 & _) -> (ws0' & ws & j & wr & Hi0' & Hi & Hj & Hl & Hh & _). simplify_eq.
  destruct (grows_lookup _ _ _ _ Hg Hi0) as (ws' & Hi' & Hp). simplify_eq.
  apply list_elem_of_lookup in Hw0 as [j0 Hj0]. exists i, ws. split; [done|].
  eapply (two_at_height _ _ j0 j); [|by eapply prefix_lookup_Some|exact Hl|done|done].
  apply lookup_lt_Some in Hj0. lia.
Qed.

Lemma repair_ok b count w :
  adapter_ok w →
  taken_twice w (height_of b) ∨
    (∃ ps : list nat, NoDup ps ∧ (count ≤ length ps)%nat ∧ ∀ i, i ∈ ps → holds w i b) →
  wpl (repair_sub_quorum_block a b count) w (λ r w', r = Ok true → accepted w' b).
Proof using Type*.
  intros Ha Hheld. apply wp_bind, wp_request; [done|]. intros epoch w1 Hg1 _. apply (adapter_ok_mono _ _ Hg1) in Ha.
  destruct epoch as [epoch|]; [|by apply wpl_ret]. destruct (ser_sealed b) as [data|] eqn:Hd; [|by apply wpl_ret].
  apply wp_bind. eapply publish_on_all_ok; [done..|]. intros results w2 ps2 Hg2 Hnd2 Hlen Hps2. apply wpl_ret.
  destruct (repair_loop results count) as [total|] eqn:Hr; [|done]. intros [= Hq%quorum_reached_iff].
  apply repair_loop_ok in Hr. destruct Hheld as [Htw|(ps & Hnd & Hcount & Hps)].
  { left. eapply taken_twice_mono, Htw. by trans w1. }
  destruct (decide (Exists (λ i, i ∈ ps) ps2)) as [(i & Hi2 & Hi)%Exists_exists|Hno].
  - left. eapply took_again; [exact Hg2|eapply holds_mono, Hps, Hi; exact Hg1|done|by apply Hps2].
  - right. exists (ps ++ ps2). rewrite (grows_length _ _ Hg2), <- (ao_nodes _ Ha), length_app. pose proof (ao_quorum _ Ha).
    split_and!; [|lia|].
    + apply NoDup_app. split_and!; [done| |done]. intros i Hi Hi2. apply Hno, Exists_exists. by exists i.
    + intros i [Hi|Hi]%elem_of_app; [|by eapply took_holds, Hd; apply Hps2].
      eapply holds_mono, Hps, Hi. by trans w1.
Qed.

(** ** Reconciliation *)

(** An entry that shows a block of a node. *)
Definition decodes (wr : Write) (t : Z * Z * SB) : Prop :=
  ∃ b, t = (w_height wr, w_epoch wr, b) ∧ de_sealed (w_data wr) = Some b ∧ write_ok wr.

(** The blocks read from the nodes. *)
Definition reads_ok w (results : list (result (list (Z * Z * SB)) string)) : Prop :=
  ∀ i entries, results !! i = Some (Ok entries) →
    ∃ ws ws', w !! i = Some ws ∧ ws' `sublist_of` ws ∧ Forall2 decodes ws' entries.

Lemma decoded_entries ws (l : list (Z * Z * list Z * StreamId)) :
  Forall2 shows ws l → Forall write_ok ws →
  ∃ ws', ws' `sublist_of` ws ∧
    Forall2 decodes ws'
      (omap (λ '(height, epoch, bytes, _), (λ block : SB, (height, epoch, block)) <$> de_sealed bytes) l).
Proof.
  induction 1 as [|wr t ws l [id ->] _ IH]; [by exists []|].
  intros [Hw Hws]%Forall_cons. destruct (IH Hws) as (ws' & Hs & Hf). csimpl.
  destruct (de_sealed (w_data wr)) as [b|] eqn:Hb; csimpl.
  - exists (wr :: ws'). split; [by constructor|]. constructor; [by exists b|done].
  - exists ws'. split; [by constructor|done].
Qed.

Lemma read_entries_on_nodes_ok next_height w (Q : list (result (list (Z * Z * SB)) string) → World → Prop) :
  adapter_ok w →
  (∀ results w', grows w w' → reads_ok w' results → Q results w') →
  wpl (read_stream_entries_on_nodes a next_height (stream_max_len a)) w Q.
Proof using Type*.
  intros Ha HQ. unfold read_stream_entries_on_nodes. case_decide.
  - apply wpl_ret, HQ; [done|]. intros i entries [? Hi]%lookup_replicate. simplify_eq.
    destruct (lookup_lt_is_Some_2 w i) as [ws Hws]; [by rewrite <- (ao_nodes _ Ha)|].
    exists ws, []. split_and!; [done|apply sublist_nil_l|constructor].
  - apply wp_bind, wpl_fan_out; [done..|]. intros arrivals w' Hg Hb Hx. apply wpl_ret, HQ; [done|].
    intros i entries Hi. apply list_lookup_fmap_Some in Hi as (o & Ho & Hi). unfold joined in Hi.
    apply list_lookup_fmap_Some in Hi as (i' & -> & [Hi' _]%lookup_seq). simpl in Hi'. subst i'.
    destruct (head _) as [x|] eqn:Hh; [|done]. simpl in Ho.
    assert (x ∈ filter (λ x, a_node x = i) arrivals) as [Hn Hin]%list_elem_of_filter
      by (by apply head_Some_elem_of).
    destruct (a_reply x) as [[| |[l|]|]|] eqn:Hr; try done. simpl in Ho. case_match; [|done]. injection Ho as ->.
    destruct (Hx _ _ Hin Hr) as [_ (ws & ws' & Hws & Hs & Hsh)]. rewrite Hn in Hws.
    assert (Forall write_ok ws') as Hok.
    { apply Forall_forall. intros wr Hwr. eapply (Hb i); [done|]. by eapply sublist_subseteq. }
    destruct (decoded_entries _ _ Hsh Hok) as (ws'' & Hs' & Hf). exists ws, ws''. split_and!; [done| |done]. by trans ws'.
Qed.

Lemma reads_ok_mono w w' results : grows w w' → reads_ok w results → reads_ok w' results.
Proof.
  intros Hg Hr i entries Hi. destruct (Hr i entries Hi) as (ws & ws' & Hws & Hs & Hf).
  destruct (grows_lookup _ _ _ _ Hg Hws) as (ws2 & Hws2 & [l ->]). exists (ws ++ l), ws'.
  split_and!; [done|by apply sublist_inserts_r|done].
Qed.

(** A decoded block has the header of the block that was encoded. *)
Lemma decodes_block wr h e b :
  decodes wr (h, e, b) → w_height wr = h ∧ height_of b = h ∧ block_id (entity b) = hash_of b ∧
  ∃ b0, ser_sealed b0 = Some (w_data wr) ∧ hash_of b0 = hash_of b.
Proof using Type*.
  intros (b' & [= -> -> ->] & Hde & b0 & Hser & Hh). pose proof (de_sealed_uncached _ _ Hde) as Hmeta.
  apply de_ser_sealed in Hser as Hde'. rewrite Hde in Hde'. injection Hde' as ->.
  split_and!; [done|done| |by exists b0]. unfold block_id, header_id, hash_of. by rewrite Hmeta.
Qed.

Lemma node_votes_read w results h i r e b :
  reads_ok w results → results !! i = Some r → (e, b) ∈ node_votes h r →
  height_of b = h ∧ block_id (entity b) = hash_of b ∧
  ∀ b', height_of b' = h → hash_of b' = hash_of b → holds w i b'.
Proof using Type*.
  intros Hr Hi Hv. destruct r as [entries|]; [|by apply not_elem_of_nil in Hv].
  destruct (Hr i entries Hi) as (ws & ws' & Hws & Hs & Hf). apply node_votes_ok in Hv.
  apply list_elem_of_lookup in Hv as [j Hj]. eapply Forall2_lookup_r in Hf as (wr & Hwr & Hdec); [|exact Hj].
  apply decodes_block in Hdec as (Hh & Hhb & Hid & b0 & Hser & Hhash). split_and!; [done..|].
  intros b' Hh' Hb'. exists ws, wr, b0. split_and!; [done| |congruence|done|congruence].
  eapply sublist_subseteq; [exact Hs|]. by eapply list_elem_of_lookup_2.
Qed.

(** A node that has two votes for a height took two blocks of it. *)
Lemma node_votes_twice w results h r :
  reads_ok w results → r ∈ results → (2 ≤ length (node_votes h r))%nat → taken_twice w h.
Proof using Type*.
  intros Hr [i Hi]%list_elem_of_lookup Hlen. destruct r as [entries|]; [|simpl in Hlen; lia].
  destruct (Hr i entries Hi) as (ws & ws' & Hws & Hs & Hf). exists i, ws. split; [done|].
  etrans; [exact Hlen|]. etrans; [apply node_votes_ok|].
  assert (length (filter (λ t, t.1.1 = h) entries) = length (at_height h ws')) as ->.
  { clear -Hf. unfold at_height. induction Hf as [|wr t ws' entries (b & -> & _) _ IH]; [done|]. rewrite !filter_cons. simpl.
    case_decide; simpl; by rewrite IH. }
  by apply at_height_sublist.
Qed.

(** The winner of a height is held by as many nodes as it has votes. *)
Lemma winner_ok w results h count b :
  reads_ok w results → winner (votes_at h (blocks_by_height <$> ok_reads results)) = Some (count, b) →
  height_of b = h ∧
  (taken_twice w h ∨ ∃ ps : list nat, NoDup ps ∧ (count ≤ length ps)%nat ∧ ∀ i, i ∈ ps → holds w i b).
Proof using Type*.
  intros Hr Hw. apply winner_positions in Hw as [[e Hb] Hps].
  apply list_elem_of_In, in_concat in Hb as (l & Hl%list_elem_of_In & Hb%list_elem_of_In).
  apply list_elem_of_fmap in Hl as (r & -> & [i Hi]%list_elem_of_lookup).
  destruct (node_votes_read _ _ _ _ _ _ _ Hr Hi Hb) as (Hh & Hid & _). split; [done|].
  destruct (decide (Exists (λ r, 2 ≤ length (node_votes h r))%nat results)) as [Hx|Hx].
  - left. apply Exists_exists in Hx as (r' & Hr' & Hlen). by eapply node_votes_twice.
  - right. destruct Hps as (ps & Hnd & Hcount & Hps).
    { intros r' Hr'. destruct (decide (2 ≤ length (node_votes h r'))%nat) as [Hge|]; [|lia].
      destruct Hx. apply Exists_exists. by exists r'. }
    exists ps. split_and!; [done..|]. intros j (r' & e' & b' & Hj & Hv & Heq)%Hps.
    destruct (node_votes_read _ _ _ _ _ _ _ Hr Hj Hv) as (Hh' & Hid' & Hholds). apply Hholds; congruence.
Qed.

Lemma reconcile_heights_ok rounds results w h reconciled :
  adapter_ok w → reads_ok w results → (∀ b, b ∈ reconciled → accepted w b) →
  wpl (reconcile_heights a rounds (blocks_by_height <$> ok_reads results) h reconciled) w
    (λ r w', ∀ bs b, r = Ok bs → b ∈ bs → accepted w' b).
Proof using Type*.
  revert w h reconciled. induction rounds as [|rounds IH]; intros w h reconciled Ha Hr Hrec.
  { apply wpl_ret. intros bs b [= <-]. apply Hrec. }
  cbn [reconcile_heights]. cbv zeta. set (stop := if decide (reconciled = []) then _ else _).
  assert (∀ w', grows w w' → wpl (mret stop) w' (λ r w', ∀ bs b, r = Ok bs → b ∈ bs → accepted w' b)) as Hstop.
  { intros w' Hg. apply wpl_ret. intros bs b. unfold stop. case_decide; [done|]. intros [= <-] Hb. by eapply accepted_mono, Hrec. }
  clearbody stop. case_decide; [by apply Hstop|]. destruct (winner _) as [[count b]|] eqn:Hw; [|by apply Hstop].
  destruct (winner_ok _ _ _ _ _ Hr Hw) as [Hh Hheld].
  assert (∀ w', grows w w' → accepted w' b → wpl (if decide (h < U32)
    then reconcile_heights a rounds (blocks_by_height <$> ok_reads results) (h + 1) (reconciled ++ [b])
    else mret (Ok (reconciled ++ [b]))) w' (λ r w', ∀ bs b, r = Ok bs → b ∈ bs → accepted w' b)) as Hgo.
  { intros w' Hg Hb. assert (∀ b', b' ∈ reconciled ++ [b] → accepted w' b') as Hall.
    { intros b' [Hb'| ->%list_elem_of_singleton]%elem_of_app; [|done]. by eapply accepted_mono, Hrec. }
    case_decide; [apply IH; [by eapply adapter_ok_mono|by eapply reads_ok_mono|done]|].
    apply wpl_ret. intros bs b' [= <-]. apply Hall. }
  apply wp_bind. destruct (quorum_reached a count) eqn:Hq.
  - apply wpl_ret, Hgo; [done|]. destruct Hheld as [Htw|(ps & Hnd & Hc & Hps)]; [left; by rewrite Hh|].
    apply quorum_reached_iff in Hq. right. exists ps. rewrite <- (ao_nodes _ Ha). pose proof (ao_quorum _ Ha).
    split_and!; [done|lia|done].
  - eapply wp_mono; [apply _| |apply repair_ok; [done|by rewrite Hh]].
    intros [[|]|] w' Hg Hok; [apply Hgo; [done|by apply Hok]|by apply Hstop..].
Qed.

Lemma should_reconcile_harmless h q : harmless (should_reconcile_from_stream a h q).
Proof using Type*. apply harmless_bind; [by apply harmless_fan_out|]. intros arrivals. apply harmless_ret. Qed.

(** An operation that is harmless, with what follows. *)
Lemma wpl_harmless {A B} (p : L A) (f : A → L B) w Q :
  adapter_ok w → harmless p → (∀ x w', grows w w' → adapter_ok w' → wpl (f x) w' Q) → wpl (p ≫= f) w Q.
Proof using Type*.
  intros Ha Hp Hf. apply wp_bind. eapply wp_mono; [apply _| |by apply Hp].
  intros x w' Hg _. apply Hf; [done|]. by eapply adapter_ok_mono.
Qed.

Lemma unreconciled_ok h w :
  adapter_ok w →
  wpl (unreconciled_blocks a h) w (λ r w', ∀ bs b, r = Ok bs → b ∈ bs → accepted w' b).
Proof using Type*.
  intros Ha. apply wpl_harmless; [done|apply should_reconcile_harmless|]. intros [[|]|] w1 Hg1 Ha1.
  - apply wp_bind, read_entries_on_nodes_ok; [done|]. intros results w2 Hg2 Hr.
    cbv zeta. destruct (quorum_reached a _); cbn [negb]; [|by apply wpl_ret].
    apply reconcile_heights_ok; [by eapply adapter_ok_mono|done|]. by intros b ?%not_elem_of_nil.
  - apply wpl_ret. intros bs b [= <-]. by intros ?%not_elem_of_nil.
  - by apply wpl_ret.
Qed.

(** The blocks a leader is told to import are accepted. *)
Lemma leader_state_ok h w :
  adapter_ok w →
  wpl (leader_state a h) w (λ r w', ∀ bs b, r = Ok (UnreconciledBlocks bs) → b ∈ bs → accepted w' b).
Proof using Type*.
  intros Ha. apply wpl_harmless; [done|apply can_produce_harmless|]. intros [|] w1 Hg1 Ha1; [|by apply wpl_ret].
  cbn [negb]. apply wpl_harmless; [done|by apply harmless_request|]. intros generation w2 Hg2 Ha2.
  apply wpl_harmless; [done|by apply harmless_request|]. intros reconciled w3 Hg3 Ha3. apply wp_bind.
  assert (∀ (r : result (list SB) string) w', (∀ bs b, r = Ok bs → b ∈ bs → accepted w' b) →
    wpl (match r return L (result (LeaderState Tx Signature) string) with
         | Err e => mret (Err e)
         | Ok [] => _ ← (if bool_decide (reconciled ≠ generation) then request (StoreReconciled generation) else mret ());
             mret (Ok ReconciledLeader)
         | Ok blocks => mret (Ok (UnreconciledBlocks blocks))
         end) w' (λ r w', ∀ bs b, r = Ok (UnreconciledBlocks bs) → b ∈ bs → accepted w' b)) as Hend.
  { intros [[|b0 bs]|e] w' Hacc; [|apply wpl_ret; intros bs' b [= <-]; by apply Hacc|by apply wpl_ret].
    apply wp_bind. destruct (bool_decide _); [|by apply wpl_ret]. apply wp_request; [done|]. intros ? ? _ _. by apply wpl_ret. }
  destruct (bool_decide (reconciled ≠ generation)).
  - eapply wp_mono; [apply _| |by apply unreconciled_ok]. intros r w' _. apply Hend.
  - apply wpl_harmless; [done|apply should_reconcile_harmless|]. intros [[|]|] w4 Hg4 Ha4.
    + apply wpl_harmless; [done|by apply harmless_request|]. intros ? w5 Hg5 Ha5.
      eapply wp_mono; [apply _| |by apply unreconciled_ok]. intros r w' _. apply Hend.
    + apply wpl_ret, (Hend (Ok [])). intros bs b [= <-]. by intros ?%not_elem_of_nil.
    + by apply wpl_ret, (Hend (Err _)).
Qed.
End adapter.
End leader.
