(* ===== verification/Cluster.v ===== *)
(** * Producers with a leader lock

    Several nodes that may produce blocks, each with its production task and its adapter
    to the leader lock, over the same Redis nodes.  Requests to the Redis nodes are
    executed at any time after they were sent, once or never, replies are lost or late,
    leases expire, and everything else answers as it likes.  The blocks that the producers hand
    to their importers never fork. *)

From stdpp Require Import prelude gmap list strings relations.
From Stdlib Require Import ZArith Lia.
From S2P Require Import Prelude.
From S2P Require Import Programs.
From S2P Require Import Blocks.
From S2P Require Import Importer.
From S2P Require Import PoaService.
From S2P Require Import PoaWp.
From S2P Require Import RedisNode.
From S2P Require Import RedisNodeFacts.
From S2P Require Import LeaderLease.
From S2P Require Import LeaderFacts.
Local Open Scope Z_scope.

Section cluster.
Context {Tx Signature Status Event : Type} `{!ChainCrypto Tx Signature}.
Context `{!SealedCodec Tx Signature} `{!SealedCodecLaws Tx Signature}.
Context `{!HashOrder Z} `{!HashOrder BlockId}.
Context {R : Type} `{!Redis R} `{!RedisLaws R}.
Abbreviation SB := (SealedBlock Tx Signature).
Abbreviation EvT := (Ev Tx Signature Status Event).
Abbreviation Done := (MainTask * result TaskNextAction string)%type.

(** ** The cluster *)

(** What a production task is doing: running, in an operation of its adapter, or waiting for
    replies, with the requests to the Redis nodes. *)
Inductive PTask :=
| TaskRuns (q : Prog EvT Done)
| LockRuns {X : Type} (q : L X) (k : X → Prog EvT Done)
| LockWaits {X : Type} (sent : list (nat * nat)) (q : list Arrival → L X) (k : X → Prog EvT Done).

(** A producer: [folding] are the requests whose token is still to be folded into the
    state of the adapter, and [handed] the blocks the task gave to the importer. *)
Record Producer := {
  adapter : RedisLeaderLeaseAdapter;
  shared : AdapterState;
  folding : list nat;
  task : PTask;
  handed : list SB;
}.

Record Cluster := {
  nodes : list R;
  requests : list (nat * Call);
  replies : gmap nat Reply;
  producers : list Producer;
}.

Definition with_task (t : PTask) (p : Producer) : Producer := {|
  adapter := adapter p; shared := shared p; folding := folding p; task := t; handed := handed p
|}.

Definition with_shared (s : AdapterState) (p : Producer) : Producer := {|
  adapter := adapter p; shared := s; folding := folding p; task := task p; handed := handed p
|}.

Definition with_folding (f : list nat) (p : Producer) : Producer := {|
  adapter := adapter p; shared := shared p; folding := f; task := task p; handed := handed p
|}.

Definition with_handed (l : list SB) (p : Producer) : Producer := {|
  adapter := adapter p; shared := shared p; folding := folding p; task := task p; handed := handed p ++ l
|}.

(** The reconciliation port. *)
Definition lock_program (a : RedisLeaderLeaseAdapter) {X} (e : EvT X) : option (L X) :=
  match e in Ev _ _ _ _ X return option (L X) with
  | LeaderStateAt h => Some (leader_state a h)
  | PublishProducedBlock b => Some (publish_produced_block a b)
  | Release => Some (release_if_owner a)
  | _ => None
  end.

(** The signer seals with a signature; the other ports answer anything. *)
Definition port_answer {X} (e : EvT X) : X → Prop :=
  match e in Ev _ _ _ _ X return X → Prop with
  | LeaderStateAt _ | PublishProducedBlock _ | Release => λ _, False
  | SealBlock _ => λ x, ∀ c, x = Ok c → ∃ signature, c = CPoA signature
  | _ => λ _, True
  end.

(** The blocks a request gives to the importer. *)
Definition handed_by {X} (e : EvT X) : list SB :=
  match e with
  | CommitBlock r => [sealed_block (result_of r)]
  | ExecuteAndCommit b => [b]
  | _ => []
  end.

(** Accesses to the state an adapter shares with its tasks. *)
Definition local {X} (e : LEv X) (s : AdapterState) : option (AdapterState * X) :=
  match e in LEv X return option (AdapterState * X) with
  | FanOut _ | Background _ => None
  | ReadEpoch => Some (s, current_epoch_token s)
  | FoldEpoch token => Some (fold_epoch_max token s, ())
  | ClearEpoch => Some ({| current_epoch_token := None; leadership_generation := leadership_generation s;
                           reconciled_generation := reconciled_generation s |}, ())
  | LoadGeneration => Some (s, leadership_generation s)
  | NextGeneration => Some ({| current_epoch_token := current_epoch_token s;
                               leadership_generation := (leadership_generation s + 1) mod (U64 + 1);
                               reconciled_generation := reconciled_generation s |}, ())
  | LoadReconciled => Some (s, reconciled_generation s)
  | StoreReconciled generation => Some ({| current_epoch_token := current_epoch_token s;
                                           leadership_generation := leadership_generation s;
                                           reconciled_generation := generation |}, ())
  | RetryDelay _ => Some (s, ())
  end.

(** Calls that are sent get the next request numbers. *)
Definition numbered (next : nat) (sent : list (nat * Call)) : list (nat * nat) :=
  imap (λ n call, (call.1, next + n)%nat) sent.

Definition promotions (next : nat) (sent : list (nat * Call)) : list nat :=
  omap (λ '(n, call), match call.2 with Promote _ _ => Some (next + n)%nat | _ => None end) (imap pair sent).

(** Replies that have arrived: each of a request that was executed, after its token was
    folded. *)
Definition arrive (replies : gmap nat Reply) (folding : list nat) (sent : list (nat * nat))
    (arrivals : list Arrival) : Prop :=
  NoDup (a_node <$> arrivals) ∧
  ∀ x reply, x ∈ arrivals → a_reply x = Some reply →
    ∃ rid, (a_node x, rid) ∈ sent ∧ replies !! rid = Some reply ∧ rid ∉ folding.

(** A step of a producer, with the requests it sends; calls to nodes that cannot be
    reached are not sent. *)
Inductive producer_step (replies : gmap nat Reply) (next : nat) (p : Producer) :
    Producer → list (nat * Call) → Prop :=
| ps_port X (e : EvT X) k x :
    task p = TaskRuns (Vis e k) → port_answer e x →
    producer_step replies next p (with_handed (handed_by e) (with_task (TaskRuns (k x)) p)) []
| ps_enter X (e : EvT X) k q :
    task p = TaskRuns (Vis e k) → lock_program (adapter p) e = Some q →
    producer_step replies next p (with_task (LockRuns q k) p) []
| ps_local X Y (e : LEv Y) q (k : X → Prog EvT Done) s y :
    task p = LockRuns (Vis e q) k → local e (shared p) = Some (s, y) →
    producer_step replies next p (with_shared s (with_task (LockRuns (q y) k) p)) []
| ps_fan_out X calls q (k : X → Prog EvT Done) sent :
    task p = LockRuns (Vis (FanOut calls) q) k → sent `sublist_of` calls →
    producer_step replies next p
      (with_folding (folding p ++ promotions next sent) (with_task (LockWaits (numbered next sent) q k) p)) sent
| ps_background X calls q (k : X → Prog EvT Done) sent :
    task p = LockRuns (Vis (Background calls) q) k → sent `sublist_of` calls →
    producer_step replies next p
      (with_folding (folding p ++ promotions next sent) (with_task (LockRuns (q ()) k) p)) sent
| ps_fold rid x :
    rid ∈ folding p → replies !! rid = Some x →
    producer_step replies next p
      (with_shared (match promote_leader_reply (Some x) with
                    | Acquired token => fold_epoch_max token (shared p)
                    | _ => shared p
                    end) (with_folding (filter (λ n, n ≠ rid) (folding p)) p)) []
| ps_arrive X sent q (k : X → Prog EvT Done) arrivals :
    task p = LockWaits sent q k → arrive replies (folding p) sent arrivals →
    producer_step replies next p (with_task (LockRuns (q arrivals) k) p) []
| ps_return X (x : X) k :
    task p = LockRuns (Ret x) k → producer_step replies next p (with_task (TaskRuns (k x)) p) []
| ps_next t action :
    task p = TaskRuns (Ret (t, Ok action)) → action ≠ StopTask →
    producer_step replies next p (with_task (TaskRuns (run t)) p) []
| ps_drop sent :
    sent `sublist_of` on_all_nodes (adapter p) (ReleaseLock (lease_owner_token (adapter p))) →
    producer_step replies next p p sent.

Context (ks : Keys) (max_len : Z).

(** An adapter as the configuration of the lock makes it: over [n] nodes, with the keys of the
    lock and the same length of the streams. *)
Definition configured (n : nat) (a : RedisLeaderLeaseAdapter) : Prop :=
  ∃ open uuid urls lease_key ttl delay offset attempts a0 budget,
    RedisLeaderLeaseAdapter_new open uuid urls lease_key ttl delay offset attempts max_len = Ok a0 ∧
    length urls = n ∧ keys_of lease_key = ks ∧ a = with_quorum_disruption_budget budget a0.

(** A producer that starts, with the last block of its database. *)
Definition producer_new (start_of : RedisLeaderLeaseAdapter * BlockHeader * Trigger) : Producer := {|
  adapter := start_of.1.1; shared := initial_state; folding := []; task := TaskRuns (start start_of.1.2 start_of.2);
  handed := [];
|}.

Inductive cluster_step (c : Cluster) : Cluster → Prop :=
| cs_exec rid i call r r' x :
    requests c !! rid = Some (i, call) → replies c !! rid = None → nodes c !! i = Some r →
    exec ks call r = (r', x) →
    cluster_step c {| nodes := <[i := r']> (nodes c); requests := requests c;
                      replies := <[rid := x]> (replies c); producers := producers c |}
| cs_elapse i r r' :
    nodes c !! i = Some r → elapse r r' →
    cluster_step c {| nodes := <[i := r']> (nodes c); requests := requests c; replies := replies c;
                      producers := producers c |}
| cs_producer j p p' sent :
    producers c !! j = Some p → producer_step (replies c) (length (requests c)) p p' sent →
    cluster_step c {| nodes := nodes c; requests := requests c ++ sent; replies := replies c;
                      producers := <[j := p']> (producers c) |}
| cs_join start_of :
    configured (length (nodes c)) start_of.1.1 →
    cluster_step c {| nodes := nodes c; requests := requests c; replies := replies c;
                      producers := producers c ++ [producer_new start_of] |}.

(** No producers yet. *)

Definition cluster_new (rs : list R) : Cluster := {|
  nodes := rs; requests := []; replies := ∅; producers := [];
|}.
End cluster.
