(* ===== verification/ClusterFacts.v ===== *)
(** * Producers with a leader lock never fork

    The production task hands only accepted blocks to its importer, whatever its other ports
    answer; with the promises of the leader lock this is an invariant of the cluster. *)

From stdpp Require Import prelude gmap list strings relations.
From Stdlib Require Import ZArith Lia.
From S2P Require Import Prelude.
From S2P Require Import Programs.
From S2P Require Import Blocks.
From S2P Require Import Importer.
From S2P Require Import PoaService.
From S2P Require Import PoaWp.
From S2P Require Import RedisNode.
From S2P Require Import RedisNodeFacts.
From S2P Require Import LeaderLease.
From S2P Require Import LeaderFacts.
From S2P Require Import Cluster.
Local Open Scope Z_scope.

Section facts.
Context {Tx Signature Status Event : Type} `{!ChainCrypto Tx Signature}.
Context `{!SealedCodec Tx Signature} `{!SealedCodecLaws Tx Signature}.
Context `{!HashOrder Z} `{!HashOrder BlockId}.
Abbreviation SB := (SealedBlock Tx Signature).
Abbreviation EvT := (Ev Tx Signature Status Event).
Abbreviation Done := (MainTask * result TaskNextAction string)%type.
Implicit Types (b : SB) (w : World).

(** ** The task *)

Definition tpre (X : Type) (e : EvT X) w : Prop := ∀ b, b ∈ handed_by e → accepted w b.

Definition tpost (X : Type) (e : EvT X) w : X → Prop :=
  match e in Ev _ _ _ _ X return X → Prop with
  | LeaderStateAt _ => λ x, ∀ bs b, x = Ok (UnreconciledBlocks bs) → b ∈ bs → accepted w b
  | PublishProducedBlock b => λ x, x = Ok () → (∃ signature, seal b = CPoA signature) → accepted w b
  | SealBlock _ => λ x, ∀ c, x = Ok c → ∃ signature, c = CPoA signature
  | _ => λ _, True
  end.

Definition always (t : MainTask) w : Prop := True.

Lemma tpre_quiet X (e : EvT X) w : quiet e → tpre X e w.
Proof. destruct e; try done; by intros _ b0 ?%not_elem_of_nil. Qed.

Abbreviation keeps := (PoaWp.keeps grows tpre tpost always).
Abbreviation wpm := (PoaWp.wpm grows tpre tpost).
Abbreviation wpm_bind := (PoaWp.wpm_bind grows tpre tpost).
Abbreviation wpt := (wp grows tpre (λ X e _, tpost X e)).

Lemma always_mono t w w' : grows w w' → always t w → always t w'.
Proof. done. Qed.

Abbreviation keeps_bind := (PoaWp.keeps_bind grows tpre tpost tpre_quiet always always_mono).
Abbreviation keeps_lift := (PoaWp.keeps_lift grows tpre tpost tpre_quiet always always_mono).
Abbreviation keeps_tried := (PoaWp.keeps_tried grows tpre tpost tpre_quiet always always_mono).
Abbreviation keeps_catch := (PoaWp.keeps_catch grows tpre tpost tpre_quiet always always_mono).
Abbreviation extract_block_info_ok := (PoaWp.extract_block_info_ok grows tpre tpost tpre_quiet).

Lemma keeps_set t : keeps (set_task t).
Proof. done. Qed.

Lemma cluster_update_last_keeps hd : keeps (update_last_block_values hd).
Proof.
  apply keeps_bind; [by apply keeps_lift|]. intros now t w _.
  apply wpm_bind, wpm_lift_prog. eapply wp_mono; [apply _| |apply extract_block_info_ok].
  intros x w' _ [_ [created ->]]. apply wpm_bind, wpm_get. by case_decide.
Qed.

Lemma cluster_sync_last_height_keeps : keeps sync_last_height_from_db.
Proof.
  apply keeps_bind; [by apply keeps_lift|]. intros [[hd|]|]; [apply cluster_update_last_keeps|apply keeps_ok..].
Qed.

(** A block is handed over only after it was published. *)
Lemma seal_and_commit_keeps {A} (r : Produced Tx Status Event) (f : Consensus Signature → M A) :
  (∀ seal, keeps (f seal)) →
  keeps (m_bind (tried (request (SealBlock (pr_block r)))) (λ seal,
         m_bind (tried (request (PublishProducedBlock {| entity := pr_block r; seal := seal |}))) (λ _,
         m_bind (tried (request (CommitBlock (new_from_local {| entity := pr_block r; seal := seal |} r)))) (λ _,
         f seal)))).
Proof.
  intros Hf t w Ht. apply wpm_bind, wpm_tried; [by apply tpre_quiet|]. intros [seal|] w1 Hg1 Hs; [|done].
  destruct (Hs seal eq_refl) as [signature ->].
  apply wpm_bind, wpm_tried; [by apply tpre_quiet|]. intros [[]|] w2 Hg2 Hp; [|done].
  apply wpm_bind, wpm_tried; [|by intros [[]|] w3 Hg3 _; [apply Hf|]].
  intros b ->%list_elem_of_singleton. simpl in Hp. apply Hp; [done|by exists signature].
Qed.

Lemma cluster_produce_block_keeps h block_time src deadline : keeps (produce_block h block_time src deadline).
Proof.
  apply keeps_bind; [by apply keeps_lift|]. intros created. apply keeps_bind; [by apply keeps_lift|]. intros [|]; simpl; [|apply keeps_fail].
  apply keeps_bind; [apply keeps_get|]. intros t0. case_decide; [apply keeps_fail|].
  apply keeps_bind.
  { apply keeps_bind; [by apply keeps_tried|]. intros r. apply keeps_bind; [by apply keeps_lift|]. intros ?. apply keeps_ok. }
  intros r. apply (seal_and_commit_keeps r). intros seal. apply keeps_bind; [apply keeps_get|]. intros t1. apply keeps_set.
Qed.

Lemma produce_predefined_keeps (block : Block Tx) : keeps (produce_predefined_block block).
Proof.
  apply keeps_bind; [by apply keeps_lift|]. intros created. apply keeps_bind; [by apply keeps_lift|]. intros [|]; simpl; [|apply keeps_fail].
  apply keeps_bind; [by apply keeps_tried|]. intros r.
  apply keeps_bind; [destruct (pr_skipped r); [by apply keeps_tried|apply keeps_ok]|]. intros _.
  apply (seal_and_commit_keeps r). intros seal. apply keeps_bind; [apply keeps_get|]. intros t1. apply keeps_set.
Qed.

Lemma cluster_maybe_predefined_keeps : keeps maybe_produce_predefined_block.
Proof.
  apply keeps_bind; [apply next_height_keeps|]. intros h. apply keeps_bind; [by apply keeps_lift|].
  intros [[b|]|]; [|apply keeps_ok..]. apply keeps_bind; [|intros ?; apply keeps_ok].
  apply keeps_catch, produce_predefined_keeps.
Qed.

Lemma cluster_reconcile_ok bs t w :
  (∀ b, b ∈ bs → accepted w b) → wpm (reconcile bs) t w (λ _ _ _, True).
Proof.
  revert t w. induction bs as [|b bs IH]; intros t w Hbs; [done|].
  assert (∀ t' w', grows w w' → wpm (reconcile bs) t' w' (λ _ _ _, True)) as Hrest.
  { intros t' w' Hg. apply IH. intros b' Hb'. eapply accepted_mono; [done|]. apply Hbs. by right. }
  apply wpm_bind. eapply wpm_mono; [apply _| |by apply cluster_sync_last_height_keeps]. intros [[]|] t1 w1 Hg1 _; [|done].
  apply wpm_bind, wpm_get. case_decide; [by apply Hrest|].
  apply wpm_bind, wpm_lift; [by apply tpre_quiet|]. intros ? w2 Hg2 _. assert (grows w w2) as Hg02 by (by trans w1).
  apply wpm_bind, wpm_lift.
  { intros b' ->%list_elem_of_singleton. eapply accepted_mono; [done|]. apply Hbs. by left. }
  intros [[]|] w3 Hg3 _; assert (grows w w3) as Hg03 by (by trans w2).
  - apply wpm_bind, wpm_get, wpm_bind, wpm_set. by apply Hrest.
  - apply wpm_bind. eapply wpm_mono; [apply _| |by apply cluster_sync_last_height_keeps]. intros [[]|] t4 w4 Hg4 _; [|done].
    apply wpm_bind, wpm_get. case_decide; [|done]. apply Hrest. by trans w3.
Qed.

Lemma cluster_try_to_produce_block_keeps deadline : keeps (try_to_produce_block deadline).
Proof.
  apply keeps_bind; [apply cluster_sync_last_height_keeps|]. intros _. apply keeps_bind; [apply next_height_keeps|]. intros h t w _.
  apply wpm_bind, wpm_tried; [by apply tpre_quiet|]. intros [[bs| |]|] w1 Hg1 Hl; [| | |done].
  - apply wpm_bind. eapply wpm_mono; [apply _| |apply cluster_reconcile_ok; intros b; by apply Hl].
    intros [[]|] t2 w2 Hg2 _; [|done]. revert t2 w2 Hg2. intros t2 w2 _. revert t2 w2.
    enough (keeps (m_bind get_task (λ t, m_bind
      (match max_height bs with
       | Some h => if decide (last_height t < h) then lift (request (Sleep (error_retry_delay t))) else ok ()
       | None => ok () end) (λ _, ok Continue)))) as Hk by (intros t2 w2; by apply Hk).
    apply keeps_bind; [apply keeps_get|]. intros t2. apply keeps_bind; [|intros _; apply keeps_ok].
    case_match; [case_decide; [by apply keeps_lift|]|]; apply keeps_ok.
  - by eapply handle_normal_keeps; [apply _|apply tpre_quiet|apply always_mono|apply cluster_sync_last_height_keeps
      |intros; by apply cluster_produce_block_keeps|apply cluster_maybe_predefined_keeps|].
  - apply (keeps_bind get_task); [apply keeps_get| |done]. intros t2.
    apply keeps_bind; [by apply keeps_lift|]. intros _. apply keeps_ok.
Qed.

Lemma run_ok t w : wpt (run t) w (λ _ _, True).
Proof.
  eapply wp_mono; [apply _| |eapply (PoaWp.run_keeps grows tpre tpost); [apply tpre_quiet|apply always_mono
    |apply cluster_sync_last_height_keeps|intros; by apply cluster_produce_block_keeps|apply cluster_maybe_predefined_keeps
    |apply cluster_try_to_produce_block_keeps|done]]. done.
Qed.

Lemma producer_start_ok hd tr w : wpt (start hd tr) w (λ _ _, True).
Proof.
  eapply wp_mono; [apply _| |eapply (PoaWp.start_keeps grows tpre tpost); [apply tpre_quiet|apply always_mono
    |apply cluster_sync_last_height_keeps|intros; by apply cluster_produce_block_keeps|apply cluster_maybe_predefined_keeps
    |apply cluster_try_to_produce_block_keeps|done|done]]. done.
Qed.

(** ** The invariant *)

Context {R : Type} `{!Redis R} `{!RedisLaws R} (ks : Keys) (Hks : keys_ok ks) (max_len : Z) (Hmax : 0 ≤ max_len).
Abbreviation Cluster := (@Cluster Tx Signature Status Event R).
Abbreviation Producer := (@Producer Tx Signature Status Event).
Abbreviation PTask := (@PTask Tx Signature Status Event).
Abbreviation lpre := (lpre (Tx := Tx) (Signature := Signature) max_len).
Abbreviation lpost := (lpost (Tx := Tx) (Signature := Signature)).
Abbreviation wpl := (wp grows lpre lpost).

Definition done_ok (d : Done) w : Prop := True.

(** The requests of a call to several nodes are later than what the nodes took before. *)
Definition sent_after w (reqs calls : list (nat * Call)) (sent : list (nat * nat)) : Prop :=
  ∀ i rid, (i, rid) ∈ sent →
    (∃ call, reqs !! rid = Some (i, call) ∧ (i, call) ∈ calls) ∧
    ∀ i' ws wr, w !! i' = Some ws → wr ∈ ws → (w_request wr < rid)%nat.

Definition task_inv w (reqs : list (nat * Call)) (t : PTask) : Prop :=
  match t with
  | TaskRuns q => wpt q w done_ok
  | LockRuns q k => wpl q w (λ x w', wpt (k x) w' done_ok)
  | LockWaits sent q k =>
      ∃ w0 calls, grows w0 w ∧ sent_after w0 reqs calls sent ∧
        ∀ arrivals w', grows w w' → lpost _ (FanOut calls) w0 w' arrivals →
          wpl (q arrivals) w' (λ x w'', wpt (k x) w'' done_ok)
  end.

Record producer_inv w (reqs : list (nat * Call)) (p : Producer) : Prop := {
  pi_adapter : adapter_ok max_len (adapter p) w;
  pi_handed b : b ∈ handed p → accepted w b;
  pi_task : task_inv w reqs (task p);
}.

Record cluster_inv w (c : Cluster) : Prop := {
  ci_nodes : Forall2 (node_ok ks max_len) w (nodes c);
  ci_blocks : blocks_only (Tx := Tx) (Signature := Signature) w;
  ci_requests i call : (i, call) ∈ requests c → (i < length w)%nat ∧ call_wf (Tx := Tx) (Signature := Signature) max_len call;
  ci_replies rid i call x : requests c !! rid = Some (i, call) → replies c !! rid = Some x →
    ∃ ws, w !! i = Some ws ∧ reply_ok ws rid call x;
  ci_replied rid x : replies c !! rid = Some x → (rid < length (requests c))%nat;
  ci_known i ws wr : w !! i = Some ws → wr ∈ ws → (w_request wr < length (requests c))%nat;
  ci_producers p : p ∈ producers c → producer_inv w (requests c) p;
}.

Lemma wpl_grows {X} (q : L X) (k : X → Prog EvT Done) w w' :
  grows w w' → wpl q w (λ x w', wpt (k x) w' done_ok) → wpl q w' (λ x w', wpt (k x) w' done_ok).
Proof using Type*.
  intros Hg. apply wp_grow; [apply _|intros Y e; apply lpre_mono|intros Y e; apply lpost_mono| |done].
  intros x w1 w2 Hg'. apply wp_grow; [apply _| |done|done|done].
  intros Y e w3 w4 Hg'' Hp b Hb. by eapply accepted_mono, Hp.
Qed.

Lemma wpt_grows (q : Prog EvT Done) w w' : grows w w' → wpt q w done_ok → wpt q w' done_ok.
Proof using Type*.
  intros Hg. apply wp_grow; [apply _| |done|done|done].
  intros Y e w3 w4 Hg'' Hp b Hb. by eapply accepted_mono, Hp.
Qed.

(** What a producer relies on stays when nodes take more blocks and more is requested. *)
Lemma producer_inv_grows w w' reqs reqs' p :
  grows w w' → reqs `prefix_of` reqs' → producer_inv w reqs p → producer_inv w' reqs' p.
Proof using Type*.
  intros Hg Hr [Ha Hh Ht]. split.
  - by eapply adapter_ok_mono.
  - intros b Hb. by eapply accepted_mono, Hh.
  - destruct (task p) as [q|X q k|X sent q k]; [by eapply wpt_grows|by eapply wpl_grows|].
    destruct Ht as (w0 & calls & Hg0 & Hs & Hq). exists w0, calls. split_and!; [by trans w| |].
    + intros i rid Hi. destruct (Hs i rid Hi) as [(call & Hc & ?) ?]. split; [|done]. exists call. split; [|done].
      by eapply prefix_lookup_Some.
    + intros arrivals w'' Hg'. apply Hq. by trans w'.
Qed.

(** ** Steps of the Redis nodes *)

Lemma grows_insert w i ws new : w !! i = Some ws → grows w (<[i := ws ++ new]> w).
Proof.
  intros Hi. apply Forall2_same_length_lookup_2; [by rewrite length_insert|]. intros j x y Hx Hy.
  destruct (decide (i = j)) as [<-|Hne].
  - rewrite list_lookup_insert_eq in Hy by (by eapply lookup_lt_Some). simplify_eq. by apply prefix_app_r.
  - rewrite list_lookup_insert_ne in Hy by done. by simplify_eq.
Qed.

Lemma taken_wf rid call x wr :
  call_wf (Tx := Tx) (Signature := Signature) max_len call → wr ∈ taken rid call x →
  write_ok (Tx := Tx) (Signature := Signature) wr ∧ w_request wr = rid.
Proof.
  intros Hc Hw. destruct call, x as [|[]| |]; simpl in Hw; try by apply not_elem_of_nil in Hw.
  apply list_elem_of_singleton in Hw as ->. destruct Hc as (_ & b & Hser & Hh). split; [by exists b|done].
Qed.

(** Executing a request. *)
Lemma exec_inv w c rid i call r r' x :
  cluster_inv w c → requests c !! rid = Some (i, call) → replies c !! rid = None → nodes c !! i = Some r →
  exec ks call r = (r', x) →
  ∃ w', grows w w' ∧ cluster_inv w' {| nodes := <[i := r']> (nodes c); requests := requests c;
    replies := <[rid := x]> (replies c); producers := producers c |}.
Proof using Type*.
  intros [Hn Hb Hr Hre Hrd Hk Hp] Hrid Hnone Hi He.
  destruct (Forall2_lookup_r _ _ _ _ _ Hn Hi) as (ws & Hws & Hnode).
  destruct (Hr i call (list_elem_of_lookup_2 _ _ _ Hrid)) as [Hlt Hwf].
  assert (call_ok max_len call) as Hok by (destruct call; try done; apply Hwf).
  pose proof (exec_ok ks Hks max_len Hmax ws r rid call Hnode Hok) as Hx. rewrite He in Hx. destruct Hx as [Hnode' Hreply].
  set (w' := <[i := ws ++ taken rid call x]> w). assert (grows w w') as Hg by (by apply grows_insert).
  assert (∀ j ws' wr, w' !! j = Some ws' → wr ∈ ws' →
    (∃ ws0, w !! j = Some ws0 ∧ wr ∈ ws0) ∨ (write_ok (Tx := Tx) (Signature := Signature) wr ∧ w_request wr = rid)) as Hold.
  { intros j ws' wr Hj Hwr. destruct (decide (i = j)) as [<-|Hne].
    - unfold w' in Hj. rewrite list_lookup_insert_eq in Hj by done. simplify_eq.
      apply elem_of_app in Hwr as [Hwr|Hwr]; [left; by exists ws|right; by eapply taken_wf].
    - unfold w' in Hj. rewrite list_lookup_insert_ne in Hj by done. left. by exists ws'. }
  assert (w' !! i = Some (ws ++ taken rid call x)) as Hi' by (by apply list_lookup_insert_eq).
  exists w'. split; [done|]. split; simpl.
  - by apply Forall2_insert.
  - intros j ws' wr Hj Hwr. destruct (Hold _ _ _ Hj Hwr) as [(ws0 & ? & ?)|[? _]]; [by eapply Hb|done].
  - intros j call' Hc. rewrite (grows_length _ _ Hg). by apply Hr.
  - intros rid' j call' x' Hr' [[<- <-]|[Hne Hx']]%lookup_insert_Some.
    + simplify_eq. by eexists.
    + destruct (Hre _ _ _ _ Hr' Hx') as (ws0 & Hj & Hok'). destruct (grows_lookup _ _ _ _ Hg Hj) as (ws1 & ? & ?).
      exists ws1. split; [done|]. by eapply reply_ok_mono.
  - intros rid' x' [[<- _]|[_ Hx']]%lookup_insert_Some; [by eapply lookup_lt_Some|by eapply Hrd].
  - intros j ws' wr Hj Hwr. destruct (Hold _ _ _ Hj Hwr) as [(ws0 & ? & ?)|[_ ->]]; [by eapply Hk|].
    by eapply lookup_lt_Some.
  - intros p Hpin. eapply producer_inv_grows; [done|done|by apply Hp].
Qed.

Lemma elapse_inv w c i r r' :
  cluster_inv w c → nodes c !! i = Some r → elapse r r' →
  cluster_inv w {| nodes := <[i := r']> (nodes c); requests := requests c; replies := replies c;
    producers := producers c |}.
Proof using Type*.
  intros [Hn Hb Hr Hre Hrd Hk Hp] Hi He. split; try done. simpl.
  destruct (Forall2_lookup_r _ _ _ _ _ Hn Hi) as (ws & Hws & Hnode).
  rewrite <- (list_insert_id w i ws Hws). apply Forall2_insert; [done|]. by eapply node_ok_elapse.
Qed.

(** ** Steps of the producers *)

(** A reply that arrives tells what it told when it was given. *)
Lemma reply_arrives w0 w rid i call x ws :
  grows w0 w → (∀ i' ws wr, w0 !! i' = Some ws → wr ∈ ws → (w_request wr < rid)%nat) →
  w !! i = Some ws → reply_ok ws rid call x → reply_in w0 w i call x.
Proof.
  intros Hg Hlater Hi Hok. destruct call, x as [|[]|[]|]; try done; simpl in *.
  - destruct Hok as (wr & Hwr & Hrq & Hh & Hd). apply list_elem_of_lookup in Hwr as [j Hj].
    destruct (Forall2_lookup_r _ _ _ _ _ Hg Hi) as (ws0 & Hi0 & Hp). exists ws0, ws, j, wr. split_and!; try done.
    destruct (decide (length ws0 ≤ j)%nat) as [|Hlt]; [done|]. exfalso.
    destruct Hp as [l ->]. rewrite lookup_app_l in Hj by lia.
    specialize (Hlater i ws0 wr Hi0 (list_elem_of_lookup_2 _ _ _ Hj)). lia.
  - destruct Hok as (ws' & ? & ?). by exists ws, ws'.
Qed.

Lemma arrive_ok w c w0 calls sent fold arrivals :
  cluster_inv w c → grows w0 w → sent_after w0 (requests c) calls sent → arrive (replies c) fold sent arrivals →
  lpost _ (FanOut calls) w0 w arrivals.
Proof using Type*.
  intros Hc Hg Hs [_ Ha]. split; [apply (ci_blocks _ _ Hc)|]. intros x reply Hx Hr.
  destruct (Ha x reply Hx Hr) as (rid & Hrid & Hre & _). destruct (Hs _ _ Hrid) as [(call & Hreq & Hcall) Hlater].
  destruct (ci_replies _ _ Hc _ _ _ _ Hreq Hre) as (ws & Hi & Hok). exists call. split; [done|]. by eapply reply_arrives.
Qed.

Lemma numbered_sent w (reqs sent calls : list (nat * Call)) :
  sent `sublist_of` calls → (∀ i ws wr, w !! i = Some ws → wr ∈ ws → (w_request wr < length reqs)%nat) →
  sent_after w (reqs ++ sent) calls (numbered (length reqs) sent).
Proof.
  intros Hs Hk i rid Hin. unfold numbered in Hin. apply list_elem_of_lookup in Hin as [n Hn].
  rewrite list_lookup_imap in Hn. destruct (sent !! n) as [[i' call]|] eqn:Hsn; [|done]. injection Hn as <- <-. split.
  - exists call. rewrite lookup_app_r, Nat.add_comm, Nat.add_sub by lia. split; [done|].
    eapply sublist_subseteq; [exact Hs|]. by eapply list_elem_of_lookup_2.
  - intros i2 ws wr Hi2 Hwr. specialize (Hk _ _ _ Hi2 Hwr). lia.
Qed.

Lemma lock_program_ok w a X (e : EvT X) q k :
  adapter_ok max_len a w → lock_program a e = Some q → wpt (Vis e k) w done_ok →
  wpl q w (λ x w', wpt (k x) w' done_ok).
Proof using Type*.
  intros Ha Hq [_ Hk]. destruct e; try done; injection Hq as <-.
  - destruct (seal b) as [|signature] eqn:Hs.
    + eapply wp_mono; [apply _| |by apply publish_harmless]. intros x w' Hg _. apply Hk; [done|].
      intros _ [signature Hs']. congruence.
    + eapply wp_mono; [apply _| |by eapply publish_produced_ok]. intros x w' Hg Hx. apply Hk; [done|]. intros ? _. by apply Hx.
  - eapply wp_mono; [apply _| |by apply leader_state_ok]. intros x w' Hg Hx. apply Hk; [done|].
    intros bs b -> Hb. by eapply Hx.
  - eapply wp_mono; [apply _| |by apply release_if_owner_harmless]. intros x w' Hg _. by apply Hk.
Qed.

Lemma producer_step_inv w c p p' sent :
  cluster_inv w c → p ∈ producers c → producer_step (replies c) (length (requests c)) p p' sent →
  producer_inv w (requests c ++ sent) p' ∧
  ∀ i call, (i, call) ∈ sent → (i < length w)%nat ∧ call_wf (Tx := Tx) (Signature := Signature) max_len call.
Proof using Type*.
  intros Hc Hin Hst.
  pose proof (producer_inv_grows w w (requests c) (requests c ++ sent) p ltac:(done) (prefix_app_r _ _ _ ltac:(done))
    (ci_producers _ _ Hc p Hin)) as [Ha Hh Ht].
  assert (∀ l : list (nat * Call), l = [] →
    ∀ i call, (i, call) ∈ l → (i < length w)%nat ∧ call_wf (Tx := Tx) (Signature := Signature) max_len call) as Hnil
    by (by intros ? -> ? ? ?%not_elem_of_nil).
  destruct Hst as [X e k x He Hx|X e k q He Hq|X Y e q k s y He Hl|X calls q k sent He Hs|X calls q k sent He Hs
    |rid x Hr Hx|X snt q k arrivals He Harr|X x k He|t action He Hact|sent Hs]; try (rewrite He in Ht).
  - split; [|by apply Hnil]. destruct Ht as [Hp Hk]. split; [done| |].
    + intros b [Hb|Hb]%elem_of_app; [by apply Hh|by apply Hp].
    + apply Hk; [done|]. by destruct e.
  - split; [|by apply Hnil]. split; [done..|]. by eapply lock_program_ok.
  - split; [|by apply Hnil]. destruct Ht as [_ Hk]. split; [done..|]. apply Hk; [done|]. by destruct e.
  - destruct Ht as [Hp Hk]. split.
    + split; [done..|]. exists w, calls. split_and!; [done| |].
      * apply numbered_sent; [done|]. apply (ci_known _ _ Hc).
      * intros arrivals w' Hg Hl. by apply Hk.
    + intros i call Hi. apply Hp. by eapply sublist_subseteq.
  - destruct Ht as [Hp Hk]. split; [split; [done..|]; by apply Hk|].
    intros i call Hi. apply Hp. by eapply sublist_subseteq.
  - split; [|by apply Hnil]. by split.
  - split; [|by apply Hnil]. split; [done..|]. simpl.
    pose proof (pi_task _ _ _ (ci_producers _ _ Hc p Hin)) as Ht'. rewrite He in Ht'.
    destruct Ht' as (w0 & calls & Hg0 & Hsent & Hq). apply Hq; [done|]. by eapply arrive_ok.
  - split; [|by apply Hnil]. by split.
  - split; [|by apply Hnil]. split; [done..|]. apply run_ok.
  - split; [by split|]. intros i call Hi. eapply sublist_subseteq in Hi; [|exact Hs].
    apply on_all_nodes_in in Hi as [Hi ->]. by rewrite <- (ao_nodes _ _ _ Ha).
Qed.

Lemma calculate_quorum_majority n budget : (0 < n)%nat → (n < 2 * calculate_quorum n budget)%nat.
Proof. intros Hn. unfold calculate_quorum. pose proof (Nat.div_mod n 2). pose proof (Nat.mod_upper_bound n 2). lia. Qed.

Lemma configured_ok n a w : configured ks max_len n a → length w = n → adapter_ok max_len a w.
Proof.
  intros (open & uuid & urls & lk & ttl & delay & offset & attempts & a0 & budget & Hnew & Hlen & _ & ->) Hw.
  unfold RedisLeaderLeaseAdapter_new in Hnew. destruct (negb _); [done|]. case_decide as Hurls; [done|].
  destruct (try_uint U64 ttl); [|done]. destruct (try_uint U64 delay); [|done]. destruct (try_uint U64 offset); [|done].
  simpl in Hnew. injection Hnew as <-. split; simpl; [congruence| |done].
  apply calculate_quorum_majority. destruct urls; [done|]. simpl. lia.
Qed.

Lemma cluster_step_inv w c c' :
  cluster_inv w c → cluster_step ks max_len c c' → ∃ w', grows w w' ∧ cluster_inv w' c'.
Proof using Type*.
  intros Hc Hst. destruct Hst as [rid i call r r' x ? ? ? ?|i r r' ? ?|j p p' sent Hj Hps|start_of Hs].
  - by eapply exec_inv.
  - exists w. split; [done|]. by eapply elapse_inv.
  - exists w. split; [done|]. pose proof (list_elem_of_lookup_2 _ _ _ Hj) as Hin.
    destruct (producer_step_inv _ _ _ _ _ Hc Hin Hps) as [Hp' Hsent]. destruct Hc as [Hn Hb Hr Hre Hrd Hk Hp].
    split; simpl; [done|done| | | | |].
    + intros i call [Hi|Hi]%elem_of_app; [by apply Hr|by apply Hsent].
    + intros rid i call x Hrid Hx. apply lookup_app_Some in Hrid as [Hrid|[Hge Hrid]]; [by eapply Hre|].
      apply Hrd in Hx. lia.
    + intros rid x Hx. rewrite length_app. apply Hrd in Hx. lia.
    + intros i ws wr Hi Hwr. rewrite length_app. specialize (Hk _ _ _ Hi Hwr). lia.
    + intros q Hq. apply list_elem_of_lookup in Hq as [n Hq]. apply list_lookup_insert_Some in Hq as [(-> & -> & _)|[_ Hq]]; [done|].
      eapply producer_inv_grows; [done|by apply prefix_app_r|]. apply Hp. by eapply list_elem_of_lookup_2.
  - exists w. split; [done|]. destruct Hc as [Hn Hb Hr Hre Hrd Hk Hp]. split; try done. simpl.
    intros p [Hin| ->%list_elem_of_singleton]%elem_of_app; [by apply Hp|]. split; simpl.
    + eapply configured_ok; [done|]. by eapply Forall2_length.
    + by intros b ?%not_elem_of_nil.
    + apply producer_start_ok.
Qed.

Lemma cluster_steps_inv w c c' : cluster_inv w c → rtc (cluster_step ks max_len) c c' → ∃ w', cluster_inv w' c'.
Proof using Type*.
  intros Hc Hst. revert w Hc. induction Hst as [c|c c1 c2 Hst _ IH]; intros w Hc; [by exists w|].
  destruct (cluster_step_inv _ _ _ Hc Hst) as (w' & _ & Hc'). by eapply IH.
Qed.

(** ** Every cluster *)

Lemma cluster_new_inv rs :
  (∀ r, r ∈ rs → fresh_node ks r) → cluster_inv (replicate (length rs) []) (cluster_new rs).
Proof using Type*.
  intros Hrs. split; simpl.
  - apply Forall2_replicate_l; [done|]. apply Forall_forall. intros r Hr. destruct (Hrs r Hr) as (? & ? & ? & ?).
    by apply node_ok_fresh.
  - intros i ws wr [-> _]%lookup_replicate. by intros ?%not_elem_of_nil.
  - by intros i call ?%not_elem_of_nil.
  - done.
  - intros rid x. by rewrite lookup_empty.
  - intros i ws wr [-> _]%lookup_replicate. by intros ?%not_elem_of_nil.
  - by intros p ?%not_elem_of_nil.
Qed.

(** Blocks of a height that were handed to importers. *)
Lemma handed_agree rs (c : Cluster) p1 p2 b1 b2 :
  (∀ r, r ∈ rs → fresh_node ks r) → rtc (cluster_step ks max_len) (cluster_new rs) c →
  p1 ∈ producers c → p2 ∈ producers c → b1 ∈ handed p1 → b2 ∈ handed p2 →
  height_of b1 = height_of b2 →
  (∀ r, r ∈ nodes c → above (height_of b1) (index ks r) < index_window max_len) →
  header_hash (header (entity b1)) = header_hash (header (entity b2)).
Proof using Type*.
  intros Hrs Hsteps Hp1 Hp2 Hb1 Hb2 Hh Hwin.
  destruct (cluster_steps_inv _ _ _ (cluster_new_inv _ Hrs) Hsteps) as [w Hc].
  apply (accepted_agree w); [by eapply pi_handed, Hb1; eapply ci_producers|by eapply pi_handed, Hb2; eapply ci_producers|done|].
  intros (i & ws & Hi & Htw). destruct (Forall2_lookup_l _ _ _ _ _ (ci_nodes _ _ Hc) Hi) as (r & Hr & Hn).
  pose proof (no_once _ _ _ _ Hn _ Htw). pose proof (Hwin r (list_elem_of_lookup_2 _ _ _ Hr)). lia.
Qed.
End facts.
