(* ===== verification/SampleCluster.v ===== *)
(** * A sample cluster

    A scheduler for the producers of a leader lock with one Redis node: one producer publishes and
    commits a block, then its lease expires and another one takes the block over. *)

From stdpp Require Import prelude gmap list strings relations.
From Stdlib Require Import ZArith Lia.
From S2P Require Import Prelude.
From S2P Require Import Programs.
From S2P Require Import HistoricalDbFacts.
From S2P Require Import DatabaseFacts.
From S2P Require Import Blocks.
From S2P Require Import BlockStore.
From S2P Require Import Importer.
From S2P Require Import PoaService.
From S2P Require Import RedisNode.
From S2P Require Import SampleRedis.
From S2P Require Import RedisNodeFacts.
From S2P Require Import LeaderLease.
From S2P Require Import LeaderFacts.
From S2P Require Import Cluster.
From S2P Require Import SampleChain.
Local Open Scope Z_scope.

Module SampleCluster.
Import SampleDb SampleChain SampleRedis.

#[global] Instance sealed_codec : SealedCodec Z Z := {
  ser_sealed b := Some (ser (header_tuple (header (entity b)), transactions (entity b), consensus_tuple (seal b)));
  de_sealed v := (λ '(h, txs, s), {| entity := {| header := tuple_header h; transactions := txs |};
    seal := tuple_consensus s |}) <$> de v;
}.

#[global] Instance sealed_codec_laws : SealedCodecLaws Z Z.
Proof.
  split; simpl.
  - intros b d [= <-]. rewrite de_ser. cbn [fmap option_fmap option_map]. rewrite header_tuple_ok.
    by destruct b as [? [[]|]].
  - intros d b. destruct (de d) as [[[h txs] s]|]; [|done]. intros [= <-]. simpl. unfold tuple_header. by repeat case_match.
Qed.

Abbreviation SampleProducer := (@Producer Z Z unit unit).
Abbreviation Cluster := (@Cluster Z Z unit unit Store).

(** ** Answers of the ports *)

Definition first_header : BlockHeader := uncached (header (entity genesis)).

Definition produced (h t : Z) : Produced Z unit unit := {|
  pr_block := make_block (partial 0 zeroed h t) [9]; pr_skipped := false; pr_tx_status := []; pr_events := [];
  pr_changes := ∅;
|}.

Definition answer {X} (e : Ev Z Z unit unit X) : option X :=
  match e in Ev _ _ _ _ X return option X with
  | ClockNow => Some 10
  | InstantNow => Some 0
  | SignerIsAvailable => Some true
  | SealBlock _ => Some (Ok (CPoA 7))
  | ProduceBlock h t _ _ => Some (Ok (produced h t))
  | ProducePredefined _ => Some (Err "none")
  | SerializeSkipped => Some (Ok ())
  | SleepUntil _ => Some ()
  | Sleep _ => Some ()
  | PublishProducedBlock _ => None
  | CommitBlock _ => Some (Ok ())
  | ExecuteAndCommit _ => Some (Ok ())
  | LatestBlockHeader => Some (Ok (Some first_header))
  | LeaderStateAt _ => None
  | Release => None
  | GetPredefinedBlock _ => Some (Ok None)
  | ReconciliationWatermarkMax _ => Some ()
  | WaitForReadySignal => Some true
  | BorrowSyncState => Some Synced
  | SyncStateChanged => Some None
  | WaitForWork _ => Some (Deadline 0)
  | Respond _ => Some ()
  | StartSyncTask => Some (Ok ())
  | StopSyncTask => Some (Ok ())
  end.

Lemma answer_ok X (e : Ev Z Z unit unit X) x : answer e = Some x → port_answer e x.
Proof. destruct e; try done. intros [= <-] c [= <-]. by eexists. Qed.

(** ** The scheduler *)

(** A step of the adapter; all calls reach their nodes. *)
Definition lock_advance {X Y} (e : LEv Y) :
    (Y → L X) → (X → Prog (Ev Z Z unit unit) (MainTask * result TaskNextAction string)) → SampleProducer → nat →
    SampleProducer * list (nat * Call) :=
  match e in LEv Y return (Y → L X) → _ → SampleProducer → nat → SampleProducer * list (nat * Call) with
  | FanOut calls => λ q k p next,
      (with_folding (folding p ++ promotions next calls) (with_task (LockWaits (numbered next calls) q k) p), calls)
  | Background calls => λ q k p next,
      (with_folding (folding p ++ promotions next calls) (with_task (LockRuns (q ()) k) p), calls)
  | e => λ q k p next,
      match local e (shared p) with
      | Some (s, y) => (with_shared s (with_task (LockRuns (q y) k) p), [])
      | None => (p, [])
      end
  end.

Lemma lock_advance_ok X Y (e : LEv Y) q (k : X → _) replies next (p : SampleProducer) :
  task p = LockRuns (Vis e q) k →
  (lock_advance e q k p next = (p, [])) ∨
  producer_step replies next p (lock_advance e q k p next).1 (lock_advance e q k p next).2.
Proof.
  intros Hp. right. destruct e; simpl.
  - by eapply ps_fan_out.
  - by eapply ps_background.
  - by eapply ps_local.
  - by eapply ps_local.
  - by eapply ps_local.
  - by eapply ps_local.
  - by eapply ps_local.
  - by eapply ps_local.
  - by eapply ps_local.
  - by eapply ps_local.
Qed.

Definition waiting_arrivals (replies : gmap nat Reply) (sent : list (nat * nat)) : list Arrival :=
  (λ '(i, rid), {| a_node := i; a_elapsed := 0; a_reply := replies !! rid |}) <$> sent.

(** A step of a producer, if it has one: it folds a token or waits for its requests only when
    they were executed. *)
Definition producer_advance (replies : gmap nat Reply) (next : nat) (p : SampleProducer) :
    option (SampleProducer * list (nat * Call)) :=
  match task p with
  | TaskRuns (Vis e k) =>
      match lock_program (adapter p) e with
      | Some q => Some (with_task (LockRuns q k) p, [])
      | None =>
          match answer e with
          | Some x => Some (with_handed (handed_by e) (with_task (TaskRuns (k x)) p), [])
          | None => None
          end
      end
  | TaskRuns (Ret (t, Ok Continue)) => Some (with_task (TaskRuns (run t)) p, [])
  | TaskRuns _ => None
  | LockRuns (Ret x) k => Some (with_task (TaskRuns (k x)) p, [])
  | LockRuns Panic _ => None
  | LockRuns (Vis e q) k => Some (lock_advance e q k p next)
  | LockWaits sent q k =>
      match folding p with
      | rid :: _ =>
          match replies !! rid with
          | Some x =>
              Some (with_shared (match promote_leader_reply (Some x) with
                                 | Acquired token => fold_epoch_max token (shared p)
                                 | _ => shared p
                                 end) (with_folding (filter (λ n, n ≠ rid) (folding p)) p), [])
          | None => None
          end
      | [] =>
          if decide (NoDup (sent.*1) ∧ Forall (λ s, is_Some (replies !! s.2)) sent)
          then Some (with_task (LockRuns (q (waiting_arrivals replies sent)) k) p, []) else None
      end
  end.

Lemma producer_advance_ok replies next p p' sent :
  producer_advance replies next p = Some (p', sent) → p' = p ∧ sent = [] ∨ producer_step replies next p p' sent.
Proof.
  unfold producer_advance. destruct (task p) as [[[t [[]|]]| |X e k]|X [x| |Y e q] k|X snt q k] eqn:Ht; try done.
  - intros [= <- <-]. right. by eapply ps_next.
  - destruct (lock_program _ _) as [q|] eqn:Hq; [intros [= <- <-]; right; by eapply ps_enter|].
    destruct (answer e) as [x|] eqn:Hx; [|done]. intros [= <- <-]. right. by eapply ps_port, answer_ok.
  - intros [= <- <-]. right. by eapply ps_return.
  - intros [= He]. destruct (lock_advance_ok _ _ e q k replies next p Ht) as [Hs|Hs]; rewrite He in Hs; [|by right].
    left. by simplify_eq.
  - destruct (folding p) as [|rid l] eqn:Hf.
    + case_decide as Hd; [|done]. intros [= <- <-]. right. eapply ps_arrive; [done|]. rewrite Hf. split.
      * unfold waiting_arrivals. rewrite <- list_fmap_compose. destruct Hd as [Hnd _].
        erewrite (list_fmap_ext _ fst); [exact Hnd|]. by intros i [? ?] _.
      * intros x reply ([i rid] & -> & Hin)%list_elem_of_fmap Hr. exists rid. split_and!; [done..|]. apply not_elem_of_nil.
    + destruct (replies !! rid) as [x|] eqn:Hr; [|done]. intros [= <- <-]. right. rewrite <- Hf.
      apply ps_fold; [|done]. rewrite Hf. by left.
Qed.

(** The first request that was not executed. *)
Fixpoint outstanding (reqs : list (nat * Call)) (replies : gmap nat Reply) (rid : nat) : option nat :=
  match reqs with
  | [] => None
  | _ :: reqs => if decide (replies !! rid = None) then Some rid else outstanding reqs replies (S rid)
  end.

Section schedule.
Context (ks : Keys) (max_len : Z).

(** A request is executed as soon as it was sent. *)
Definition advance (j : nat) (c : Cluster) : Cluster :=
  match outstanding (requests c) (replies c) 0 with
  | Some rid =>
      match requests c !! rid with
      | Some (i, call) =>
          match nodes c !! i with
          | Some r =>
              if decide (replies c !! rid = None) then
                let '(r', x) := exec ks call r in
                {| nodes := <[i := r']> (nodes c); requests := requests c; replies := <[rid := x]> (replies c);
                   producers := producers c |}
              else c
          | None => c
          end
      | None => c
      end
  | None =>
      match producers c !! j with
      | Some p =>
          match producer_advance (replies c) (length (requests c)) p with
          | Some (p', sent) =>
              {| nodes := nodes c; requests := requests c ++ sent; replies := replies c;
                 producers := <[j := p']> (producers c) |}
          | None => c
          end
      | None => c
      end
  end.

Lemma advance_ok j c : rtc (cluster_step ks max_len) c (advance j c).
Proof.
  unfold advance. destruct (outstanding _ _ _) as [rid|].
  - destruct (requests c !! rid) as [[i call]|] eqn:Hr; [|done]. destruct (nodes c !! i) as [r|] eqn:Hi; [|done].
    case_decide; [|done]. destruct (exec ks call r) as [r' x] eqn:He. apply rtc_once. by eapply cs_exec.
  - destruct (producers c !! j) as [p|] eqn:Hj; [|done].
    destruct (producer_advance _ _ _) as [[p' sent]|] eqn:Hp; [|done].
    destruct (producer_advance_ok _ _ _ _ _ Hp) as [[-> ->]|Hs]; [|apply rtc_once; by eapply cs_producer].
    rewrite app_nil_r, list_insert_id by done. by destruct c.
Qed.

Lemma advances_ok j n c : rtc (cluster_step ks max_len) c (Nat.iter n (advance j) c).
Proof. induction n as [|n IH]; [done|]. etrans; [exact IH|]. apply advance_ok. Qed.

Definition expire (c : Cluster) : Cluster :=
  match nodes c with
  | r :: rs => {| nodes := with_texts (filter (λ kv, kv.2.2 = false) (texts r)) r :: rs; requests := requests c;
                  replies := replies c; producers := producers c |}
  | [] => c
  end.

Lemma lease_expire_ok c : rtc (cluster_step ks max_len) c (expire c).
Proof.
  unfold expire. destruct (nodes c) as [|r rs] eqn:Hn; [done|]. apply rtc_once.
  replace (_ :: rs) with (<[0%nat := with_texts (filter (λ kv, kv.2.2 = false) (texts r)) r]> (nodes c)) by (by rewrite Hn).
  eapply cs_elapse; [by rewrite Hn|done].
Qed.
End schedule.

(** ** Two producers *)

Definition max_len : Z := 100.
Definition lock_keys : Keys := keys_of "poa:leader:lock".

Definition adapter_of (uuid : string) : RedisLeaderLeaseAdapter :=
  match RedisLeaderLeaseAdapter_new (λ _, true) uuid ["redis"] "poa:leader:lock" 1000 10 10 3 max_len with
  | Ok a => with_quorum_disruption_budget 0 a
  | Err _ => {| redis_nodes := 0; quorum := 0; quorum_disruption_budget := 0; LeaderLease.keys := lock_keys; lease_owner_token := "";
                lease_ttl_millis := 0; lease_drift_millis := 0; retry_delay_millis := 0;
                max_retry_delay_offset_millis := 0; max_attempts := 0; stream_max_len := 0 |}
  end.

Lemma adapter_configured uuid : configured lock_keys max_len 1 (adapter_of uuid).
Proof.
  exists (λ _, true), uuid, ["redis"], "poa:leader:lock", 1000, 10, 10, 3.
  eexists. exists 0. split_and!; [vm_compute; reflexivity|done|done|reflexivity].
Qed.

Definition both : Cluster := {|
  nodes := [empty_store]; requests := []; replies := ∅;
  producers := [producer_new (adapter_of "A", first_header, Interval 1); producer_new (adapter_of "B", first_header, Interval 1)];
|}.

Lemma both_ok : rtc (cluster_step lock_keys max_len) (cluster_new [empty_store]) both.
Proof.
  eapply rtc_l; [apply (cs_join _ _ _ (adapter_of "A", first_header, Interval 1)), adapter_configured|].
  eapply rtc_l; [apply (cs_join _ _ _ (adapter_of "B", first_header, Interval 1)), adapter_configured|]. done.
Qed.
End SampleCluster.
