(* ===== verification/ClusterSpec.v ===== *)
(** * What the leader lock promises

    Producers that share a leader lock never fork; and a height where a quorum and a minority
    with a higher epoch disagree is never reconciled. *)

From stdpp Require Import prelude gmap list strings relations.
From Stdlib Require Import ZArith Lia.
From S2P Require Import Prelude.
From S2P Require Import Programs.
From S2P Require Import Blocks.
From S2P Require Import Importer.
From S2P Require Import PoaService.
From S2P Require Import RedisNode.
From S2P Require Import SampleRedis.
From S2P Require Import RedisNodeFacts.
From S2P Require Import LeaderLease.
From S2P Require Import LeaderVotes.
From S2P Require Import LeaderFacts.
From S2P Require Import Cluster.
From S2P Require Import ClusterFacts.
From S2P Require Import SampleChain.
From S2P Require Import SampleCluster.
Local Open Scope Z_scope.

Section spec.
Context {Tx Signature Status Event : Type} `{!ChainCrypto Tx Signature}.
Context `{!SealedCodec Tx Signature} `{!SealedCodecLaws Tx Signature}.
Context `{!HashOrder Z} `{!HashOrder BlockId}.
Context {R : Type} `{!Redis R} `{!RedisLaws R}.
Abbreviation SB := (SealedBlock Tx Signature).
Abbreviation Cluster := (@Cluster Tx Signature Status Event R).

(** C2: producers that share a leader lock never fork.  Whatever the network between them and
    the Redis nodes loses or delays, whenever leases expire, producers start or stop, and
    whatever their other ports answer: two blocks of the same height that production tasks
    handed to their importers, produced by themselves, predefined or taken over from another
    leader, have the same header; except for heights so old that the index of some node has
    only greater ones and is full. *)
Theorem leader_lock_prevents_forks (ks : Keys) (max_len : Z) rs (c : Cluster) p1 p2 b1 b2 :
  keys_ok ks → 0 ≤ max_len →
  (∀ r, r ∈ rs → fresh_node ks r) → rtc (cluster_step ks max_len) (cluster_new rs) c →
  p1 ∈ producers c → p2 ∈ producers c → b1 ∈ handed p1 → b2 ∈ handed p2 →
  height_of b1 = height_of b2 →
  (∀ r, r ∈ nodes c → above (height_of b1) (index ks r) < index_window max_len) →
  header_hash (header (entity b1)) = header_hash (header (entity b2)).
Proof. intros Hks Hmax Hrs Hsteps Hp1 Hp2 Hb1 Hb2 Hh Hwin. by eapply (handed_agree ks Hks max_len Hmax rs c p1 p2). Qed.

(** ** A height that is never reconciled *)

(** Nodes that have a block of the height do not take another one. *)
Definition refused_by (holders : list nat) (X : Type) (e : LEv X) (w w' : unit) : X → Prop :=
  match e in LEv X return X → Prop with
  | FanOut calls => λ arrivals, ∀ x id, x ∈ arrivals → a_reply x = Some (RWritten (Ok id)) →
      a_node x ∉ holders ∧ a_node x ∈ calls.*1
  | _ => λ _, True
  end.

Abbreviation wpr holders := (wp (λ _ _ : unit, True) (λ _ _ _, True) (refused_by holders)).

(** So few nodes are left for the repair. *)
Lemma repair_refused a holders b count :
  NoDup holders → (∀ i, i ∈ holders → (i < redis_nodes a)%nat) →
  (count + (redis_nodes a - length holders) < quorum a)%nat →
  wpr holders (repair_sub_quorum_block a b count) () (λ r _, r ≠ Ok true).
Proof using Type.
  intros Hnd Hlt Hfew. apply wp_bind, wp_request; [done|]. intros [epoch|] [] _ _; [|done].
  destruct (ser_sealed b) as [data|]; [|done]. apply wp_bind, wp_bind, wp_request; [done|].
  intros arrivals [] _ Hpost.
  destruct (written_positions a arrivals) as (ps & Hps & Hlen & Hin). cbv zeta in Hlen.
  set (results := default _ <$> _) in *. change (wpr holders (mret results) () (λ results _, wpr holders
    (mret (match repair_loop results count with Ok total => Ok (quorum_reached a total) | Err e => Err e end)) ()
    (λ r _, r ≠ Ok true))). simpl.
  destruct (repair_loop results count) as [total|] eqn:Hr; [|done]. apply repair_loop_ok in Hr.
  intros [= Hq%quorum_reached_iff].
  assert (length (ps ++ holders) ≤ length (seq 0 (redis_nodes a)))%nat as Hall.
  { apply submseteq_length, NoDup_submseteq.
    - apply NoDup_app. split_and!; [done| |done]. intros i (x & Hx & <- & id & Hid)%Hin. by apply (Hpost x id Hx Hid).
    - intros i. rewrite elem_of_app, elem_of_seq. intros [(x & Hx & <- & id & Hid)%Hin|Hi]; [|specialize (Hlt i Hi); lia].
      destruct (Hpost x id Hx Hid) as [_ Hc]. apply list_elem_of_fmap in Hc as ([i c] & -> & Hc).
      apply on_all_nodes_in in Hc. simpl. lia. }
  rewrite length_app, length_seq in Hall. lia.
Qed.

(** C29: a block that a quorum of nodes has loses to a block of fewer nodes with a higher epoch.
    The nodes that have a block of that height refuse the repair of the other one, so whatever
    the remaining nodes answer the reconciliation fails, in every round with these entries:
    a new leader makes no progress. *)
Theorem quorum_block_loses_to_higher_epoch a rounds blocks_by_node h holders k1 e1 (c1 : nat) (b1 : SB) k2 e2 (c2 : nat) (b2 : SB) :
  (redis_nodes a < 2 * quorum a)%nat →
  votes_at h blocks_by_node !! k1 = Some (e1, c1, b1) → (quorum a ≤ c1)%nat →
  votes_at h blocks_by_node !! k2 = Some (e2, c2, b2) → (c2 < quorum a)%nat →
  (∀ k e c b, votes_at h blocks_by_node !! k = Some (e, c, b) → k ≠ k2 → e < e2) →
  NoDup holders → length holders = (c1 + c2)%nat → (∀ i, i ∈ holders → (i < redis_nodes a)%nat) →
  wpr holders (reconcile_heights a (S rounds) blocks_by_node h []) () (λ r _, is_ok r = false).
Proof using Type.
  intros Hmaj Hk1 Hc1 Hk2 Hc2 Hmax Hnd Hlen Hlt. cbn [reconcile_heights]. cbv zeta. 
  set (stop := if decide (_ = []) then _ else _). assert (stop = Err "Backlog unresolved") as Hstop by (unfold stop; by case_decide). clearbody stop. subst stop.
  case_decide; [done|]. pose proof (winner_max (votes_at h blocks_by_node)) as Hw.
  destruct (winner _) as [[count b]|]; [|done]. destruct Hw as (k & e & Hk & He).
  assert (k = k2) as ->.
  { destruct (decide (k = k2)) as [|Hne]; [done|]. specialize (Hmax _ _ _ _ Hk Hne). specialize (He _ _ _ _ Hk2). lia. }
  rewrite Hk2 in Hk. injection Hk as -> -> ->. apply wp_bind.
  destruct (quorum_reached a count) eqn:Hq; [apply quorum_reached_iff in Hq; lia|].
  eapply wp_mono; [apply _| |apply (repair_refused a holders b count); [done..|lia]].
  by intros [[|]|] [] _ Hr.
Qed.
End spec.

Section witness.
Import SampleChain SampleRedis SampleCluster.

Definition handed_at (j : nat) (c : SampleCluster.Cluster) : list (SealedBlock Z Z) :=
  default [] (handed <$> producers c !! j).

(** One producer has handed over a block, another one has taken it over. *)
Definition taken_over : SampleCluster.Cluster :=
  Nat.iter 60 (advance lock_keys 1) (expire (Nat.iter 60 (advance lock_keys 0) both)).

Lemma taken_over_ok : rtc (cluster_step lock_keys max_len) (cluster_new [empty_store]) taken_over.
Proof.
  etrans; [apply both_ok|]. etrans; [apply (advances_ok _ _ 0 60)|]. etrans; [apply lease_expire_ok|]. apply advances_ok.
Qed.

Lemma handed_at_in j c b : head (handed_at j c) = Some b → ∃ p, p ∈ producers c ∧ b ∈ handed p.
Proof.
  unfold handed_at. destruct (producers c !! j) as [p|] eqn:Hj; [|done]. simpl. destruct (handed p) as [|b' l] eqn:Hp; [done|].
  intros [= ->]. exists p. split; [by eapply list_elem_of_lookup_2|]. rewrite Hp. by left.
Qed.

Lemma lock_keys_ok : keys_ok lock_keys.
Proof. unfold keys_ok. apply (bool_decide_unpack _). vm_compute. exact I. Qed.

Definition taken_block (j : nat) : SealedBlock Z Z := default genesis (head (handed_at j taken_over)).

Lemma leader_lock_prevents_forks_witness :
  (height_of (taken_block 0) = 1 ∧ height_of (taken_block 1) = 1) ∧
  header_hash (header (entity (taken_block 0))) = header_hash (header (entity (taken_block 1))).
Proof.
  assert (∀ j, (j < 2)%nat → head (handed_at j taken_over) = Some (taken_block j)) as Hh.
  { intros [|[|j]] Hj; [vm_compute; reflexivity..|lia]. }
  destruct (handed_at_in _ _ _ (Hh 0%nat ltac:(lia))) as (p1 & Hp1 & Hb1).
  destruct (handed_at_in _ _ _ (Hh 1%nat ltac:(lia))) as (p2 & Hp2 & Hb2).
  split; [by vm_compute|].
  apply (leader_lock_prevents_forks lock_keys max_len [empty_store] taken_over p1 p2); [|done| |apply taken_over_ok|done..| |].
  - apply lock_keys_ok.
  - by intros r ->%list_elem_of_singleton.
  - by vm_compute.
  - apply Forall_forall, (bool_decide_unpack _). vm_compute. exact I.
Defined.

(** Two of three nodes have one block of a height, the third one another with a higher epoch. *)
Definition block_with (t : Z) : SealedBlock Z Z :=
  {| entity := pr_block (SampleCluster.produced 1 t); seal := CPoA 7 |}.

Definition disputed : list (gmap Z (gmap Z (SealedBlock Z Z))) :=
  [{[1 := {[1 := block_with 1]}]}; {[1 := {[1 := block_with 1]}]}; {[1 := {[2 := block_with 2]}]}].

Definition three_nodes : RedisLeaderLeaseAdapter :=
  match RedisLeaderLeaseAdapter_new (λ _, true) "A" ["r1"; "r2"; "r3"] "poa:leader:lock" 1000 10 10 3 max_len with
  | Ok a => a
  | Err _ => adapter_of "A"
  end.

Lemma quorum_block_loses_to_higher_epoch_witness :
  wp (λ _ _ : unit, True) (λ _ _ _, True) (refused_by [0; 1; 2]%nat) (reconcile_heights three_nodes 100 disputed 1 []) ()
    (λ r _, is_ok r = false).
Proof.
  apply (quorum_block_loses_to_higher_epoch three_nodes 99 disputed 1 [0; 1; 2]%nat
    (hash_of (block_with 1)) 1 2 (block_with 1) (hash_of (block_with 2)) 2 1 (block_with 2)).
  - vm_compute. lia.
  - vm_compute. reflexivity.
  - vm_compute. lia.
  - vm_compute. reflexivity.
  - vm_compute. lia.
  - assert (map_Forall (λ k v, k ≠ hash_of (block_with 2) → v.1.1 < 2) (votes_at 1 disputed)) as Hall.
    { apply (bool_decide_unpack _). vm_compute. exact I. }
    intros k e c b Hk. apply (Hall _ _ Hk).
  - apply (bool_decide_unpack _). vm_compute. exact I.
  - reflexivity.
  - apply Forall_forall, (bool_decide_unpack _). vm_compute. exact I.
Defined.
End witness.
