(* ===== verification/ExecTypes.v ===== *)
(** * What the executor works on

    Transactions with their inputs and outputs, coins, messages and events of the relayer
    (types/src/entities, types/src/services/{executor,relayer}.rs), the tables of the state
    (storage/src/structured_storage) and the errors and results of the executor.  Of the types
    of fuel-tx the model keeps the constructors, the fields the executor reads or writes, and
    the remaining ones as bytes. *)

From stdpp Require Import prelude gmap list strings.
From Stdlib Require Import ZArith Lia.
From S2P Require Import Prelude.
From S2P Require Import StorageTx.
From S2P Require Import HistoricalDb.
From S2P Require Import Database.
From S2P Require Import Tables.
From S2P Require Import Blocks.
From S2P Require Import Producer.
Local Open Scope Z_scope.

Abbreviation ContractId := (list Z).
Abbreviation AssetId := (list Z).
Abbreviation Nonce := (list Z).

(** ** Inputs and outputs *)

Record TxPointer := { block_height : Z; tx_index : Z }.
Record UtxoId := { utxo_tx_id : TxId; output_index : Z }.

#[global] Instance tx_pointer_eq_dec : EqDecision TxPointer.
Proof. solve_decision. Defined.
#[global] Instance utxo_id_eq_dec : EqDecision UtxoId.
Proof. solve_decision. Defined.

(** [rest] is the witness index or the predicate with its data. *)
Record CoinIn := {
  utxo_id : UtxoId;
  c_owner : Address;
  c_amount : Z;
  c_asset_id : AssetId;
  c_tx_pointer : TxPointer;
  c_rest : list Z;
}.

Record ContractIn := {
  ci_utxo_id : UtxoId;
  ci_balance_root : Bytes32;
  ci_state_root : Bytes32;
  ci_tx_pointer : TxPointer;
  ci_contract_id : ContractId;
}.

Record MessageIn := {
  m_sender : Address;
  m_recipient : Address;
  m_amount : Z;
  m_nonce : Nonce;
  m_rest : list Z;
}.

Inductive Input :=
| CoinSigned (c : CoinIn)
| CoinPredicate (c : CoinIn) (predicate_gas_used : Z)
| InputContract (c : ContractIn)
| MessageCoinSigned (m : MessageIn)
| MessageCoinPredicate (m : MessageIn) (predicate_gas_used : Z)
| MessageDataSigned (m : MessageIn) (data : list Z)
| MessageDataPredicate (m : MessageIn) (data : list Z) (predicate_gas_used : Z).

Record ContractOut := {
  input_index : Z;
  co_balance_root : Bytes32;
  co_state_root : Bytes32;
}.

Inductive Output :=
| OutputCoin (to : Address) (amount : Z) (asset_id : AssetId)
| OutputContract (c : ContractOut)
| OutputChange (to : Address) (amount : Z) (asset_id : AssetId)
| OutputVariable (to : Address) (amount : Z) (asset_id : AssetId)
| OutputContractCreated (contract_id : ContractId) (state_root : Bytes32).

#[global] Instance coin_in_eq_dec : EqDecision CoinIn.
Proof. solve_decision. Defined.
#[global] Instance contract_in_eq_dec : EqDecision ContractIn.
Proof. solve_decision. Defined.
#[global] Instance message_in_eq_dec : EqDecision MessageIn.
Proof. solve_decision. Defined.
#[global] Instance input_eq_dec : EqDecision Input.
Proof. solve_decision. Defined.
#[global] Instance contract_out_eq_dec : EqDecision ContractOut.
Proof. solve_decision. Defined.
#[global] Instance output_eq_dec : EqDecision Output.
Proof. solve_decision. Defined.

(** [Input::predicate_gas_used]. *)
Definition predicate_gas_used (i : Input) : option Z :=
  match i with
  | CoinPredicate _ gas | MessageCoinPredicate _ gas | MessageDataPredicate _ _ gas => Some gas
  | _ => None
  end.

(** [Input::input_data]. *)
Definition input_data (i : Input) : option (list Z) :=
  match i with MessageDataSigned _ d | MessageDataPredicate _ d _ => Some d | _ => None end.

(** ** Transactions *)

Record Mint := {
  mint_tx_pointer : TxPointer;
  input_contract : ContractIn;
  output_contract : ContractOut;
  mint_amount : Z;
  mint_asset_id : AssetId;
  mint_gas_price : Z;
}.

Inductive ChargeableKind := Script | Create | Upgrade | Upload | Blob.

(** [body] are the other fields: policies, scripts, witnesses. *)
Record Chargeable := {
  kind : ChargeableKind;
  inputs : list Input;
  outputs : list Output;
  body : list Z;
}.

Inductive Transaction :=
| TxMint (m : Mint)
| TxChargeable (t : Chargeable).

#[global] Instance mint_eq_dec : EqDecision Mint.
Proof. solve_decision. Defined.
#[global] Instance kind_eq_dec : EqDecision ChargeableKind.
Proof. solve_decision. Defined.
#[global] Instance chargeable_eq_dec : EqDecision Chargeable.
Proof. solve_decision. Defined.
#[global] Instance transaction_eq_dec : EqDecision Transaction.
Proof. solve_decision. Defined.

(** [TransactionExt::outputs]. *)
Definition tx_outputs (tx : Transaction) : list Output :=
  match tx with TxMint _ => [] | TxChargeable t => outputs t end.

(** [Checked<Tx>]: the transaction, its id and maximal gas, and which checks were made. *)
Record Checked (T : Type) := {
  ck_tx : T;
  ck_id : TxId;
  ck_max_gas : Z;
  ck_predicates : bool;
  ck_signatures : bool;
}.
Arguments ck_tx {_} _.
Arguments ck_id {_} _.
Arguments ck_max_gas {_} _.
Arguments ck_predicates {_} _.
Arguments ck_signatures {_} _.
Arguments Build_Checked {_} _ _ _ _ _.

Inductive CheckedTransaction :=
| CheckedMint (m : Checked Mint)
| CheckedChargeable (t : Checked Chargeable).

(** [Transaction::from] of a checked one. *)
Definition unchecked (c : CheckedTransaction) : Transaction :=
  match c with
  | CheckedMint m => TxMint (ck_tx m)
  | CheckedChargeable t => TxChargeable (ck_tx t)
  end.

Inductive MaybeCheckedTransaction :=
| MaybeChecked (c : CheckedTransaction) (version : Z)
| NotChecked (tx : Transaction).

(** ** Coins, messages and contracts *)

Record CompressedCoin := {
  coin_owner : Address;
  coin_amount : Z;
  coin_asset_id : AssetId;
  coin_tx_pointer : TxPointer;
}.

Record Coin := { coin_utxo_id : UtxoId; compressed : CompressedCoin }.

Definition uncompress_coin (c : CompressedCoin) (id : UtxoId) : Coin :=
  {| coin_utxo_id := id; compressed := c |}.

(** [CompressedCoin::matches_input]. *)
Definition coin_matches_input (c : CompressedCoin) (i : Input) : option bool :=
  match i with
  | CoinSigned ci | CoinPredicate ci _ =>
      Some (bool_decide (c_owner ci = coin_owner c) && bool_decide (c_amount ci = coin_amount c) &&
            bool_decide (c_asset_id ci = coin_asset_id c))
  | _ => None
  end.

Record Message := {
  sender : Address;
  recipient : Address;
  nonce : Nonce;
  msg_amount : Z;
  msg_data : list Z;
  msg_da_height : Z;
}.

(** [Message::matches_input]. *)
Definition message_matches_input (m : Message) (i : Input) : option bool :=
  match i with
  | MessageDataSigned mi _ | MessageDataPredicate mi _ _ | MessageCoinSigned mi | MessageCoinPredicate mi _ =>
      let expected_data := if decide (msg_data m = []) then None else Some (msg_data m) in
      Some (bool_decide (sender m = m_sender mi) && bool_decide (recipient m = m_recipient mi) &&
            bool_decide (nonce m = m_nonce mi) && bool_decide (msg_amount m = m_amount mi) &&
            bool_decide (expected_data = input_data i))
  | _ => None
  end.

Record ContractUtxoInfo := { info_utxo_id : UtxoId; info_tx_pointer : TxPointer }.

(** [ContractUtxoInfo::default()]. *)
Definition default_utxo_info : ContractUtxoInfo := {|
  info_utxo_id := {| utxo_tx_id := zeroed; output_index := 0 |};
  info_tx_pointer := {| block_height := 0; tx_index := 0 |};
|}.

(** ** Events of the relayer *)

Record RelayedTransaction := {
  rt_nonce : Nonce;
  rt_max_gas : Z;
  serialized_transaction : list Z;
  rt_da_height : Z;
}.

Inductive RelayerEvent :=
| EventMessage (m : Message)
| EventTransaction (t : RelayedTransaction).

(** ** Errors and results of the executor *)

Inductive TransactionValidityError :=
| CoinMismatch (id : UtxoId)
| CoinDoesNotExist (id : UtxoId)
| MessageSpendTooEarly (n : Nonce)
| ValidityMessageDoesNotExist (n : Nonce)
| MessageMismatch (n : Nonce)
| ContractDoesNotExist (c : ContractId)
| InvalidContractInputIndex (id : UtxoId)
| Validation (e : string).

Inductive ExecutorError :=
| TransactionIdCollision (id : TxId)
| TooManyTransactions
| TooManyOutputs
| OutputAlreadyExists
| FeeOverflow
| GasOverflow (reason : string) (augend addend : Z)
| TxSizeOverflow
| MintMissing
| MintHasUnexpectedIndex
| MintIsNotLastTransaction
| MintMismatch
| CoinbaseCannotIncreaseBalance (e : string)
| CoinbaseAmountMismatch
| CoinbaseGasPriceMismatch
| TransactionValidity (e : TransactionValidityError)
| ExecutorStorageError (e : string)
| RelayerError (e : string)
| ExecutorHeaderError (e : BlockHeaderError)
| VmExecution (e : string) (id : TxId)
| InvalidTransaction (e : string)
| InvalidTransactionOutcome (id : TxId)
| BlockMismatch
| ContractUtxoMissing (c : ContractId)
| MessageDoesNotExist (n : Nonce)
| ExecutingGenesisBlock
| DaHeightExceededItsLimit
| PreviousBlockIsNotFound
| RelayerGivesIncorrectMessages
| ConsensusParametersNotFound (version : Z)
| TransactionExpired (expiration height : Z)
| OtherError (e : string).

Inductive ForcedTransactionFailure :=
| CodecError
| CheckError (e : string)
| InvalidTransactionType
| InsufficientMaxGas (claimed_max_gas actual_max_gas : Z).

(** The failure a message was made of. *)
Inductive Failure :=
| NotForced (f : ForcedTransactionFailure)
| NotExecuted (e : ExecutorError).

Inductive ExecutorEvent :=
| MessageImported (m : Message)
| MessageConsumed (m : Message)
| CoinCreated (c : Coin)
| CoinConsumed (c : Coin)
| ForcedTransactionFailed (id : list Z) (height : Z) (failure : Failure).

Section results.
Context {Receipt ProgramState : Type}.

Inductive TransactionExecutionResult :=
| Success (state : option ProgramState) (receipts : list Receipt) (total_gas total_fee : Z)
| Failed (state : option ProgramState) (receipts : list Receipt) (total_gas total_fee : Z).

Record TransactionExecutionStatus := {
  status_id : TxId;
  status_result : TransactionExecutionResult;
}.

Definition total_fee (s : TransactionExecutionStatus) : Z :=
  match status_result s with Success _ _ _ f | Failed _ _ _ f => f end.

Definition total_gas (s : TransactionExecutionStatus) : Z :=
  match status_result s with Success _ _ g _ | Failed _ _ g _ => g end.

Inductive PreconfirmationStatus :=
| PreSqueezedOut (e : ExecutorError) (id : TxId)
| PreSuccess (pointer : TxPointer) (gas fee : Z) (receipts : list Receipt) (outs : list (UtxoId * Output))
| PreFailure (pointer : TxPointer) (gas fee : Z) (receipts : list Receipt) (outs : list (UtxoId * Output)).

Record Preconfirmation := { pre_tx_id : TxId; pre_status : PreconfirmationStatus }.

(** [ExecutionData]. *)
Record ExecutionData := {
  coinbase : Z;
  used_gas : Z;
  used_size : Z;
  xtx_count : Z;
  found_mint : bool;
  message_ids : list MessageId;
  xtx_status : list TransactionExecutionStatus;
  xevents : list ExecutorEvent;
  skipped_transactions : list (TxId * ExecutorError);
  xevent_inbox_root : Bytes32;
}.

Definition ExecutionData_new : ExecutionData := {|
  coinbase := 0; used_gas := 0; used_size := 0; xtx_count := 0; found_mint := false; message_ids := [];
  xtx_status := []; xevents := []; skipped_transactions := []; xevent_inbox_root := zeroed;
|}.
End results.
Arguments TransactionExecutionResult : clear implicits.
Arguments TransactionExecutionStatus : clear implicits.
Arguments PreconfirmationStatus : clear implicits.
Arguments Preconfirmation : clear implicits.
Arguments ExecutionData : clear implicits.

(** ** Tables of the state *)

Definition CONTRACTS_RAW_CODE_COLUMN : Z := 1.
Definition CONTRACTS_STATE_COLUMN : Z := 2.
Definition CONTRACTS_LATEST_UTXO_COLUMN : Z := 3.
Definition CONTRACTS_ASSETS_COLUMN : Z := 4.
Definition COINS_COLUMN : Z := 5.
Definition MESSAGES_COLUMN : Z := 14.
Definition PROCESSED_TRANSACTIONS_COLUMN : Z := 15.
Definition UPLOADED_BYTECODES_COLUMN : Z := 19.
Definition BLOBS_COLUMN : Z := 20.

(** The postcard encodings of the values. *)
Class StateCodecs := {
  ser_coin : CompressedCoin → Value;
  de_coin : Value → option CompressedCoin;
  ser_message : Message → Value;
  de_message : Value → option Message;
  ser_utxo_info : ContractUtxoInfo → Value;
  de_utxo_info : Value → option ContractUtxoInfo;
}.

Class StateCodecsLaws `{!StateCodecs} : Prop := {
  de_ser_coin c : de_coin (ser_coin c) = Some c;
  de_ser_message m : de_message (ser_message m) = Some m;
  de_ser_utxo_info i : de_utxo_info (ser_utxo_info i) = Some i;
}.

(** [Primitive<34>] of a [UtxoId]. *)
Definition utxo_key (id : UtxoId) : Key := utxo_tx_id id ++ to_be_bytes 2 (output_index id).

Section tables.
Context `{!StateCodecs}.

Definition Coins : Table UtxoId CompressedCoin :=
  {| t_column := COINS_COLUMN; t_encode := utxo_key; t_ser := ser_coin; t_de := de_coin |}.

Definition Messages : Table Nonce Message :=
  {| t_column := MESSAGES_COLUMN; t_encode := λ n, n; t_ser := ser_message; t_de := de_message |}.

Definition ContractsLatestUtxo : Table ContractId ContractUtxoInfo :=
  {| t_column := CONTRACTS_LATEST_UTXO_COLUMN; t_encode := λ c, c; t_ser := ser_utxo_info; t_de := de_utxo_info |}.

(** The unit value is no byte in postcard. *)
Definition ProcessedTransactions : Table TxId unit :=
  {| t_column := PROCESSED_TRANSACTIONS_COLUMN; t_encode := λ id, id; t_ser := λ _, []; t_de := λ _, Some () |}.
End tables.
