(* ===== verification/VmStorage.v ===== *)
(** * The storage of the virtual machine

    Model of [VmStorage] (storage/src/vm_storage.rs) over a transaction whose reads of the
    storage below are recorded ([StorageAccessRecorder], executor/src/storage_access_recorder.rs),
    and of the hashes of what was recorded (executor/src/contract_state_hash.rs).  The
    virtual machine is third-party code: a program that calls this storage. *)

From stdpp Require Import prelude gmap list strings sorting.
From Stdlib Require Import ZArith Lia.
From S2P Require Import Prelude.
From S2P Require Import StorageTx.
From S2P Require Import HistoricalDb.
From S2P Require Import Database.
From S2P Require Import Tables.
From S2P Require Import Blocks.
From S2P Require Import BlockStore.
From S2P Require Import Producer.
From S2P Require Import ExecTypes.
Local Open Scope Z_scope.
Local Open Scope storage_scope.

(** ** Records of reads *)

Record ContractAccesses := { assets : gset AssetId; slots : gset Bytes32 }.

(** [ReadsPerContract]. *)
Definition Reads : Type := gmap ContractId ContractAccesses.

Definition no_accesses : ContractAccesses := {| assets := ∅; slots := ∅ |}.

Record ContractAccessesWithValues := {
  v_assets : gmap AssetId (option Z);
  v_slots : gmap Bytes32 (option (list Z));
}.

Definition no_values : ContractAccessesWithValues := {| v_assets := ∅; v_slots := ∅ |}.

Abbreviation Accessed := (gmap ContractId ContractAccessesWithValues).

(** The keys of the tables the virtual machine uses. *)
Inductive VmKey :=
| KCode (c : ContractId)
| KState (c : ContractId) (k : Bytes32)
| KAsset (c : ContractId) (a : AssetId)
| KUploaded (id : Bytes32)
| KBlob (id : Bytes32).

Definition vm_column (k : VmKey) : Z :=
  match k with
  | KCode _ => CONTRACTS_RAW_CODE_COLUMN
  | KState _ _ => CONTRACTS_STATE_COLUMN
  | KAsset _ _ => CONTRACTS_ASSETS_COLUMN
  | KUploaded _ => UPLOADED_BYTECODES_COLUMN
  | KBlob _ => BLOBS_COLUMN
  end.

Definition vm_bytes (k : VmKey) : Key :=
  match k with
  | KCode c => c
  | KState c k => c ++ k
  | KAsset c a => c ++ a
  | KUploaded id => id
  | KBlob id => id
  end.

(** [ReadsPerContract::mark]. *)
Definition mark (k : VmKey) (reads : Reads) : Reads :=
  match k with
  | KAsset c a =>
      let r := default no_accesses (reads !! c) in
      <[c := {| assets := {[a]} ∪ assets r; slots := slots r |}]> reads
  | KState c s =>
      let r := default no_accesses (reads !! c) in
      <[c := {| assets := assets r; slots := {[s]} ∪ slots r |}]> reads
  | _ => reads
  end.

(** A [BTreeMap] is visited in the order of its keys. *)
Definition in_order {V} (m : gmap Key V) : list (Key * V) :=
  omap (λ k, pair k <$> m !! k) (merge_sort key_le (elements (dom m))).

Definition ContractsAssets : Table (ContractId * AssetId) Z := {|
  t_column := CONTRACTS_ASSETS_COLUMN;
  t_encode := λ '(c, a), c ++ a;
  t_ser := to_be_bytes 8;
  t_de := λ v, if decide (length v = 8%nat) then Some (from_be_bytes v) else None;
|}.

Definition ContractsState : Table (ContractId * Bytes32) (list Z) := {|
  t_column := CONTRACTS_STATE_COLUMN;
  t_encode := λ '(c, k), c ++ k;
  t_ser := λ v, v;
  t_de := Some;
|}.

Section record.
Context {S : Type} `{!KeyValueInspect S}.

(** The values of a contract before the execution. *)
Definition values_before (s : S) (c : ContractId) (r : ContractAccesses) :
    result ContractAccessesWithValues StorageError :=
  result_bind (try_fold (λ m a, result_bind (table_get ContractsAssets s (c, a)) (λ v, Ok (<[a := v]> m)))
                 ∅ (merge_sort key_le (elements (assets r)))) (λ va,
  result_bind (try_fold (λ m k, result_bind (table_get ContractsState s (c, k)) (λ v, Ok (<[k := v]> m)))
                 ∅ (merge_sort key_le (elements (slots r)))) (λ vs,
  Ok {| v_assets := va; v_slots := vs |})).

Definition reads_before (s : S) (reads : Reads) : result Accessed StorageError :=
  try_fold (λ m '(c, r), result_bind (values_before s c r) (λ v, Ok (<[c := v]> m))) ∅ (in_order reads).

(** [iter_all_writes]: a changed key of a table with its value, if it was not removed. *)
Definition written {V} (tb : Table (ContractId * list Z) V) (key : Key) (op : WriteOperation) :
    result (ContractId * list Z * option V) StorageError :=
  if decide (length key = 64%nat) then
    let ck := (take 32 key, drop 32 key) in
    match op with
    | Remove => Ok (ck, None)
    | Insert bytes => match t_de tb bytes with Some v => Ok (ck, Some v) | None => Err "Codec" end
    end
  else Err "Codec".

Definition writes_of {V} (tb : Table (ContractId * list Z) V) (ch : Changes) :
    result (list (ContractId * list Z * option V)) StorageError :=
  try_fold (λ l '(key, op), result_bind (written tb key op) (λ x, Ok (l ++ [x]))) []
    (in_order (default ∅ (ch !! t_column tb))).

Definition set_asset (after : Accessed) (w : ContractId * AssetId * option Z) : Accessed :=
  let '(c, a, v) := w in
  let r := default no_values (after !! c) in
  <[c := {| v_assets := <[a := v]> (v_assets r); v_slots := v_slots r |}]> after.

Definition set_slot (after : Accessed) (w : ContractId * Bytes32 * option (list Z)) : Accessed :=
  let '(c, k, v) := w in
  let r := default no_values (after !! c) in
  <[c := {| v_assets := v_assets r; v_slots := <[k := v]> (v_slots r) |}]> after.

(** [ReadsPerContract::finalize]: the recorded values before the execution and the
    written ones after it. *)
Definition finalize (reads : Reads) (s : S) (ch : Changes) : result (Accessed * Accessed) StorageError :=
  result_bind (reads_before s reads) (λ before,
  result_bind (writes_of ContractsAssets ch) (λ ws,
  let after := foldl set_asset ∅ ws in
  result_bind (writes_of ContractsState ch) (λ ws,
  Ok (before, foldl set_slot after ws)))).
End record.

Section hashes.
Context {Tx Signature : Type} `{!ChainCrypto Tx Signature}.

Definition compute_balances_hash (accessed : gmap AssetId (option Z)) : Bytes32 :=
  if decide (accessed = ∅) then zeroed
  else digest (in_order accessed ≫= λ '(key, value),
         key ++ match value with Some v => [1] ++ to_be_bytes 8 v | None => [0] end).

Definition compute_state_hash (accessed : gmap Bytes32 (option (list Z))) : Bytes32 :=
  if decide (accessed = ∅) then zeroed
  else digest (in_order accessed ≫= λ '(key, value),
         key ++ match value with Some v => [1] ++ to_be_bytes 8 (zlength v) ++ v | None => [0] end).
End hashes.

(** ** Calls of the virtual machine *)

(** [InterpreterStorage] and the storage traits it requires, for tables with encoded values. *)
Inductive VmEv {Params : Type} : Type → Type :=
| VmGet (k : VmKey) : VmEv (result (option Value) StorageError)
| VmContains (k : VmKey) : VmEv (result bool StorageError)
| VmSize (k : VmKey) : VmEv (result (option Z) StorageError)
| VmReadExact (k : VmKey) (offset : Z) (buf : list Z) : VmEv read_result
| VmReadZerofill (k : VmKey) (offset : Z) (buf : list Z) : VmEv read_result
| VmInsert (k : VmKey) (v : Value) : VmEv (result unit StorageError)
| VmReplace (k : VmKey) (v : Value) : VmEv (result (option Value) StorageError)
| VmRemove (k : VmKey) : VmEv (result unit StorageError)
| VmTake (k : VmKey) : VmEv (result (option Value) StorageError)
| VmBlockHeight : VmEv (result Z StorageError)
| VmConsensusParametersVersion : VmEv (result Z StorageError)
| VmStateTransitionVersion : VmEv (result Z StorageError)
| VmTimestamp (h : Z) : VmEv (result Z StorageError)
| VmBlockHash (h : Z) : VmEv (result Bytes32 StorageError)
| VmCoinbase : VmEv (result ContractId StorageError)
| VmSetConsensusParameters (version : Z) (p : Params) : VmEv (result (option Params) StorageError)
| VmSetStateTransitionBytecode (version : Z) (hash : Bytes32) : VmEv (result (option Bytes32) StorageError)
| VmDeployContract (slots : list (Bytes32 * Bytes32)) (code : list Z) (c : ContractId) : VmEv (result unit StorageError)
| VmStateRemoveRange (c : ContractId) (start : Bytes32) (range : nat) : VmEv (result unit StorageError).
Arguments VmEv : clear implicits.

Inductive VmProg (Params A : Type) : Type :=
| VmRet (a : A)
| VmCall {X : Type} (e : VmEv Params X) (k : X → VmProg Params A).
Arguments VmRet {_ _} _.
Arguments VmCall {_ _ _} _ _.

(** [VmStorage] without its database. *)
Record VmStorage := {
  vm_consensus_parameters_version : Z;
  vm_state_transition_version : Z;
  current_block_height : Z;
  current_timestamp : Z;
  vm_coinbase : ContractId;
}.

Definition VmStorage_new (header : PartialBlockHeader) (coinbase : ContractId) : VmStorage := {|
  vm_consensus_parameters_version := consensus_parameters_version (p_application header);
  vm_state_transition_version := state_transition_bytecode_version (p_application header);
  current_block_height := height (p_consensus header);
  current_timestamp := time (p_consensus header);
  vm_coinbase := coinbase;
|}.

Section calls.
Context {Params : Type} (ser_params : Params → Value) (de_params : Value → option Params).
Context {Tx Signature : Type} `{!ChainCrypto Tx Signature} `{!BlockCodecs Tx Signature} `{!MerkleTree}.
Context {S : Type} `{!KeyValueInspect S}.
Abbreviation T := (InMemoryTransaction S).

Definition ConsensusParametersVersions : Table Z Params := {|
  t_column := CONSENSUS_PARAMETERS_VERSIONS_COLUMN;
  t_encode := to_be_bytes 4;
  t_ser := ser_params;
  t_de := de_params;
|}.

Definition StateTransitionBytecodeVersions : Table Z Bytes32 := {|
  t_column := STATE_TRANSITION_BYTECODE_VERSIONS_COLUMN;
  t_encode := to_be_bytes 4;
  t_ser := λ hash, hash;
  t_de := λ v, if decide (length v = 32%nat) then Some v else None;
|}.

(** A read that the changes do not answer reaches the recorder. *)
Definition recorded (k : VmKey) (t : T) (reads : Reads) : Reads :=
  match get_from_changes t (vm_bytes k) (vm_column k) with Some _ => reads | None => mark k reads end.

(** [block_time], [get_block_id] of the storage. *)
Definition block_time (t : T) (h : Z) : result Z StorageError :=
  result_bind (table_get (mt_table FuelBlocks) t h) (λ o,
    match o with Some b => Ok (time (consensus (header b))) | None => Err "NotFound" end).

Definition get_block_id (t : T) (h : Z) : result (option BlockId) StorageError :=
  result_bind (table_get (mt_table FuelBlocks) t h) (λ o, Ok (block_id <$> o)).

Definition timestamp (vm : VmStorage) (t : T) (h : Z) : result Z StorageError :=
  if decide (current_block_height vm < h) then Err "block height too high for timestamp"
  else if decide (h = current_block_height vm) then Ok (current_timestamp vm)
  else block_time t h.

Definition block_hash (vm : VmStorage) (t : T) (h : Z) : result Bytes32 StorageError :=
  if decide (current_block_height vm ≤ h ∨ h = 0) then Ok zeroed
  else result_bind (get_block_id t h) (λ o, match o with Some id => Ok id | None => Err "NotFound" end).

(** [storage_contract_insert] and [init_contract_state]. *)
Definition deploy_contract_with_id (slots : list (Bytes32 * Bytes32)) (code : list Z) (c : ContractId) (t : T) :
    T * result unit StorageError :=
  let! (t, _) := put t (vm_bytes (KCode c)) (vm_column (KCode c)) code in
  plain_insert_batch ContractsState t ((λ '(k, v), ((c, k), v)) <$> slots).

(** The loop of [contract_state_remove_range]; [key] is the current key. *)
Fixpoint contract_state_remove_range (c : ContractId) (key : Z) (range : nat) (first : bool) (t : T) :
    T * result unit StorageError :=
  match range with
  | O => (t, Ok ())
  | Datatypes.S range =>
      let key := if first then key else key + 1 in
      if decide (2 ^ 256 ≤ key) then (t, Err "range op exceeded available keyspace")
      else
        let! (t, _) := plain_delete ContractsState t (c, to_be_bytes 32 key) in
        contract_state_remove_range c key range false t
  end.

Definition vm_call (vm : VmStorage) {X} (e : VmEv Params X) (t : T) (reads : Reads) : T * Reads * X :=
  match e in VmEv _ X return T * Reads * X with
  | VmGet k => (t, recorded k t reads, kv_get t (vm_bytes k) (vm_column k))
  | VmContains k => (t, recorded k t reads, kv_exists t (vm_bytes k) (vm_column k))
  | VmSize k => (t, recorded k t reads, kv_size_of_value t (vm_bytes k) (vm_column k))
  | VmReadExact k offset buf => (t, recorded k t reads, kv_read_exact t (vm_bytes k) (vm_column k) offset buf)
  | VmReadZerofill k offset buf => (t, recorded k t reads, kv_read_zerofill t (vm_bytes k) (vm_column k) offset buf)
  | VmInsert k v => let '(t, x) := put t (vm_bytes k) (vm_column k) v in (t, reads, x)
  | VmReplace k v => let '(t', x) := replace t (vm_bytes k) (vm_column k) v in (t', recorded k t reads, x)
  | VmRemove k => let '(t, x) := delete_key t (vm_bytes k) (vm_column k) in (t, reads, x)
  | VmTake k => let '(t', x) := take_value t (vm_bytes k) (vm_column k) in (t', recorded k t reads, x)
  | VmBlockHeight => (t, reads, Ok (current_block_height vm))
  | VmConsensusParametersVersion => (t, reads, Ok (vm_consensus_parameters_version vm))
  | VmStateTransitionVersion => (t, reads, Ok (vm_state_transition_version vm))
  | VmTimestamp h => (t, reads, timestamp vm t h)
  | VmBlockHash h => (t, reads, block_hash vm t h)
  | VmCoinbase => (t, reads, Ok (vm_coinbase vm))
  | VmSetConsensusParameters version p =>
      let '(t, x) := plain_replace ConsensusParametersVersions t version p in (t, reads, x)
  | VmSetStateTransitionBytecode version hash =>
      let '(t, x) := plain_replace StateTransitionBytecodeVersions t version hash in (t, reads, x)
  | VmDeployContract slots code c => let '(t, x) := deploy_contract_with_id slots code c t in (t, reads, x)
  | VmStateRemoveRange c start range =>
      let '(t, x) := contract_state_remove_range c (from_be_bytes start) range true t in (t, reads, x)
  end.

(** The program with the calls it makes. *)
Fixpoint vm_run (vm : VmStorage) {A} (p : VmProg Params A) (t : T) (reads : Reads) : T * Reads * A :=
  match p with
  | VmRet a => (t, reads, a)
  | VmCall e k => let '(t, reads, x) := vm_call vm e t reads in vm_run vm (k x) t reads
  end.
End calls.
