(* ===== verification/Executor.v ===== *)
(** * The block executor

    Model of executor/src/executor.rs, executor/src/ports.rs and executor/src/refs/contract.rs:
    production, dry run and validation of a block.  A transaction is executed in a storage
    transaction of its own over that of the block; what it has already put into the execution
    data when it fails stays there.  The virtual machine and the checks of fuel-tx are
    third-party code ([FuelVm]); the source of transactions, the waiting for new ones and the
    preconfirmations are ports. *)

From stdpp Require Import prelude gmap list strings.
From Stdlib Require Import ZArith Lia.
From S2P Require Import Prelude.
From S2P Require Import StorageTx.
From S2P Require Import HistoricalDb.
From S2P Require Import Database.
From S2P Require Import Tables.
From S2P Require Import Blocks.
From S2P Require Import BlockStore.
From S2P Require Import Producer.
From S2P Require Import ExecTypes.
From S2P Require Import VmStorage.
Local Open Scope Z_scope.

(** ** Third-party code *)

Record VmResult (Receipt ProgramState : Type) := {
  should_revert : bool;
  vm_state : ProgramState;
  vm_tx : Chargeable;
  vm_receipts : list Receipt;
  missing_contract_inputs : list ContractId;
}.
Arguments should_revert {_ _} _.
Arguments vm_state {_ _} _.
Arguments vm_tx {_ _} _.
Arguments vm_receipts {_ _} _.
Arguments missing_contract_inputs {_ _} _.

(** What the executor uses of fuel-tx and fuel-vm.  A view is what the storage holds; flags
    are the permission of system calls and the dry run. *)
Class FuelVm := {
  ConsensusParameters : Type;
  Receipt : Type;
  ProgramState : Type;
  ReadyTransaction : Type;
  ser_consensus_parameters : ConsensusParameters → Value;
  de_consensus_parameters : Value → option ConsensusParameters;
  block_gas_limit : ConsensusParameters → Z;
  block_transaction_size_limit : ConsensusParameters → Z;
  params_chain_id : ConsensusParameters → Z;
  base_asset_id : ConsensusParameters → AssetId;
  transaction_from_bytes : list Z → option Transaction;
  compute_message_id : Address → Address → Nonce → Z → list Z → MessageId;
  expiration : Chargeable → Z;
  max_gas : ConsensusParameters → Chargeable → Z;
  min_gas : ConsensusParameters → Chargeable → Z;
  max_fee_limit : Chargeable → Z;
  refund_fee : ConsensusParameters → Chargeable → Z → Z → option Z;
  metered_bytes_size : Chargeable → Z;
  script_result_gas : Receipt → option Z;
  receipt_message_id : Receipt → option MessageId;
  contract_not_in_inputs : ContractId → Receipt;
  into_checked_basic : Z → ConsensusParameters → Transaction → result CheckedTransaction string;
  into_checked_reusable_memory : Z → ConsensusParameters → View.t → Transaction → result CheckedTransaction string;
  check_predicates : ConsensusParameters → bool → View.t → Checked Chargeable → result (Checked Chargeable) string;
  check_signatures : Z → Checked Chargeable → result (Checked Chargeable) string;
  into_ready : ConsensusParameters → Z → Z → Checked Chargeable → result ReadyTransaction string;
  transact : ConsensusParameters → Z → bool → bool → ReadyTransaction →
    VmProg ConsensusParameters (result (VmResult Receipt ProgramState) string);
  balance_increase : ContractId → AssetId → Z → VmProg ConsensusParameters (result unit string);
}.

Inductive WaitNewTransactionsResult := NewTransaction | Timeout.

(** The ports of the production: the source of transactions, the wait for new ones and the
    sender of preconfirmations, as one state. *)
Class ProductionPorts (P : Type) `{!FuelVm} := {
  next_transactions : Z → Z → Z → P → list MaybeCheckedTransaction * P;
  wait_for_new_transactions : P → WaitNewTransactionsResult * P;
  try_send : list (Preconfirmation Receipt) → P → list (Preconfirmation Receipt) * P;
  send : list (Preconfirmation Receipt) → P → P;
}.

Record ExecutionOptions := { forbid_fake_coins : bool; allow_syscall : bool }.

(** [BlockExecutor] without its ports; [get_events] is the relayer, if it is enabled. *)
Record BlockExecutor `{!FuelVm} := {
  get_events : option (Z → result (list RelayerEvent) string);
  consensus_params : ConsensusParameters;
  options : ExecutionOptions;
  is_dry_run : bool;
}.

#[global] Instance generated_application_eq_dec : EqDecision GeneratedApplicationFieldsV1.
Proof. solve_decision. Defined.
#[global] Instance generated_consensus_eq_dec : EqDecision GeneratedConsensusFields.
Proof. solve_decision. Defined.
#[global] Instance application_eq_dec : EqDecision (ApplicationHeader GeneratedApplicationFieldsV1).
Proof. solve_decision. Defined.
#[global] Instance consensus_eq_dec : EqDecision (ConsensusHeader GeneratedConsensusFields).
Proof. solve_decision. Defined.

Definition max_tx_count : Z := U16 - 1.

(** ** The transaction under execution *)

Section executor.
Context {Signature : Type} `{FV : FuelVm} `{!ChainCrypto Transaction Signature}.
Context `{!BlockCodecs Transaction Signature} `{SC : StateCodecs} `{MT : MerkleTree}.
Context `{!HashOrder Z} `{!HashOrder Key}.
Context {D : Type} `{!KeyValueInspect D}.

Abbreviation Data := (ExecutionData Receipt ProgramState).
Abbreviation Status := (TransactionExecutionStatus Receipt ProgramState).
Abbreviation BlockStorage := (InMemoryTransaction D).
Abbreviation TxStorage := (InMemoryTransaction (InMemoryTransaction D)).

(** What the execution of a transaction changes. *)
Record XState := { xdata : Data; xstorage : TxStorage }.

(** Computations that can fail; what was changed before stays. *)
Definition X (A : Type) : Type := XState → XState * result A ExecutorError.

#[global] Instance x_ret : MRet X := λ A a s, (s, Ok a).
#[global] Instance x_bind : MBind X := λ A B f m s,
  match m s with (s, Ok a) => f a s | (s, Err e) => (s, Err e) end.

Definition fail {A} (e : ExecutorError) : X A := λ s, (s, Err e).
Definition lift {A} (r : result A ExecutorError) : X A := λ s, (s, r).
Definition get_data : X Data := λ s, (s, Ok (xdata s)).
Definition set_data (f : Data → Data) : X unit := λ s, ({| xdata := f (xdata s); xstorage := xstorage s |}, Ok ()).
Definition get_storage : X TxStorage := λ s, (s, Ok (xstorage s)).

Definition storage_error {A} (r : result A StorageError) : result A ExecutorError :=
  match r with Ok a => Ok a | Err e => Err (ExecutorStorageError e) end.

Definition access {A} (f : TxStorage → TxStorage * result A StorageError) : X A := λ s,
  let '(t, r) := f (xstorage s) in ({| xdata := xdata s; xstorage := t |}, storage_error r).

Definition require (b : bool) (e : ExecutorError) : X unit := if b then mret () else fail e.

Definition x_for {A} (f : A → X unit) : list A → X unit :=
  fix go l := match l with [] => mret () | a :: l => _ ← f a; go l end.

(** ** Updates of the execution data *)

Definition with_coinbase (x : Z) (d : Data) : Data := {|
  coinbase := x; used_gas := used_gas d; used_size := used_size d; xtx_count := xtx_count d;
  found_mint := found_mint d; message_ids := message_ids d; xtx_status := xtx_status d; xevents := xevents d;
  skipped_transactions := skipped_transactions d; xevent_inbox_root := xevent_inbox_root d |}.
Definition with_used_gas (x : Z) (d : Data) : Data := {|
  coinbase := coinbase d; used_gas := x; used_size := used_size d; xtx_count := xtx_count d;
  found_mint := found_mint d; message_ids := message_ids d; xtx_status := xtx_status d; xevents := xevents d;
  skipped_transactions := skipped_transactions d; xevent_inbox_root := xevent_inbox_root d |}.
Definition with_used_size (x : Z) (d : Data) : Data := {|
  coinbase := coinbase d; used_gas := used_gas d; used_size := x; xtx_count := xtx_count d;
  found_mint := found_mint d; message_ids := message_ids d; xtx_status := xtx_status d; xevents := xevents d;
  skipped_transactions := skipped_transactions d; xevent_inbox_root := xevent_inbox_root d |}.
Definition with_tx_count (x : Z) (d : Data) : Data := {|
  coinbase := coinbase d; used_gas := used_gas d; used_size := used_size d; xtx_count := x;
  found_mint := found_mint d; message_ids := message_ids d; xtx_status := xtx_status d; xevents := xevents d;
  skipped_transactions := skipped_transactions d; xevent_inbox_root := xevent_inbox_root d |}.
Definition with_found_mint (x : bool) (d : Data) : Data := {|
  coinbase := coinbase d; used_gas := used_gas d; used_size := used_size d; xtx_count := xtx_count d;
  found_mint := x; message_ids := message_ids d; xtx_status := xtx_status d; xevents := xevents d;
  skipped_transactions := skipped_transactions d; xevent_inbox_root := xevent_inbox_root d |}.
Definition push_message_ids (l : list MessageId) (d : Data) : Data := {|
  coinbase := coinbase d; used_gas := used_gas d; used_size := used_size d; xtx_count := xtx_count d;
  found_mint := found_mint d; message_ids := message_ids d ++ l; xtx_status := xtx_status d; xevents := xevents d;
  skipped_transactions := skipped_transactions d; xevent_inbox_root := xevent_inbox_root d |}.
Definition push_status (st : Status) (d : Data) : Data := {|
  coinbase := coinbase d; used_gas := used_gas d; used_size := used_size d; xtx_count := xtx_count d;
  found_mint := found_mint d; message_ids := message_ids d; xtx_status := xtx_status d ++ [st]; xevents := xevents d;
  skipped_transactions := skipped_transactions d; xevent_inbox_root := xevent_inbox_root d |}.
Definition push_event (ev : ExecutorEvent) (d : Data) : Data := {|
  coinbase := coinbase d; used_gas := used_gas d; used_size := used_size d; xtx_count := xtx_count d;
  found_mint := found_mint d; message_ids := message_ids d; xtx_status := xtx_status d; xevents := xevents d ++ [ev];
  skipped_transactions := skipped_transactions d; xevent_inbox_root := xevent_inbox_root d |}.
Definition push_skipped (x : TxId * ExecutorError) (d : Data) : Data := {|
  coinbase := coinbase d; used_gas := used_gas d; used_size := used_size d; xtx_count := xtx_count d;
  found_mint := found_mint d; message_ids := message_ids d; xtx_status := xtx_status d; xevents := xevents d;
  skipped_transactions := skipped_transactions d ++ [x]; xevent_inbox_root := xevent_inbox_root d |}.
Definition with_event_inbox_root (x : Bytes32) (d : Data) : Data := {|
  coinbase := coinbase d; used_gas := used_gas d; used_size := used_size d; xtx_count := xtx_count d;
  found_mint := found_mint d; message_ids := message_ids d; xtx_status := xtx_status d; xevents := xevents d;
  skipped_transactions := skipped_transactions d; xevent_inbox_root := x |}.

Section block_executor.
Context (ex : BlockExecutor).
Abbreviation params := (consensus_params ex).
Abbreviation chain := (params_chain_id (consensus_params ex)).
Abbreviation forbid := (forbid_fake_coins (options ex)).

Definition view_of {S} `{!KeyValueInspect S} (s : S) : View.t := λ k c, kv_get s k c.

(** ** Inputs *)

(** [verify_inputs_exist_and_values_match]. *)
Definition verify_input (db : TxStorage) (block_da_height : Z) (i : Input) : result unit ExecutorError :=
  match i with
  | CoinSigned c | CoinPredicate c _ =>
      result_bind (storage_error (table_get Coins db (utxo_id c))) (λ o,
        match o with
        | Some coin =>
            if default false (coin_matches_input coin i) then Ok ()
            else Err (TransactionValidity (CoinMismatch (utxo_id c)))
        | None => Err (TransactionValidity (CoinDoesNotExist (utxo_id c)))
        end)
  | InputContract c =>
      result_bind (storage_error (table_exists ContractsLatestUtxo db (ci_contract_id c))) (λ b,
        if (b : bool) then Ok () else Err (TransactionValidity (ContractDoesNotExist (ci_contract_id c))))
  | MessageCoinSigned m | MessageCoinPredicate m _ | MessageDataSigned m _ | MessageDataPredicate m _ _ =>
      result_bind (storage_error (table_get Messages db (m_nonce m))) (λ o,
        match o with
        | Some message =>
            if decide (block_da_height < msg_da_height message)
            then Err (TransactionValidity (MessageSpendTooEarly (m_nonce m)))
            else if default false (message_matches_input message i) then Ok ()
            else Err (TransactionValidity (MessageMismatch (m_nonce m)))
        | None => Err (TransactionValidity (ValidityMessageDoesNotExist (m_nonce m)))
        end)
  end.

Definition verify_inputs_exist_and_values_match (db : TxStorage) (l : list Input) (block_da_height : Z) :
    result unit ExecutorError :=
  try_fold (λ _ i, verify_input db block_da_height i) () l.

Definition get_coin_or_default (db : TxStorage) (id : UtxoId) (owner : Address) (amount : Z) (asset : AssetId) :
    result CompressedCoin ExecutorError :=
  if forbid then
    result_bind (storage_error (table_get Coins db id)) (λ o,
      match o with Some c => Ok c | None => Err (TransactionValidity (CoinDoesNotExist id)) end)
  else Ok {| coin_owner := owner; coin_amount := amount; coin_asset_id := asset;
             coin_tx_pointer := {| block_height := 0; tx_index := 0 |} |}.

(** [ContractRef::validated_utxo]. *)
Definition validated_utxo (db : TxStorage) (c : ContractId) : result ContractUtxoInfo ExecutorError :=
  result_bind (storage_error (table_get ContractsLatestUtxo db c)) (λ o,
    if forbid then match o with Some i => Ok i | None => Err (ContractUtxoMissing c) end
    else Ok (default default_utxo_info o)).

Definition with_coin_pointer (p : TxPointer) (c : CoinIn) : CoinIn := {|
  utxo_id := utxo_id c; c_owner := c_owner c; c_amount := c_amount c; c_asset_id := c_asset_id c;
  c_tx_pointer := p; c_rest := c_rest c |}.

Definition compute_input (db : TxStorage) (record : Accessed) (i : Input) : result Input ExecutorError :=
  match i with
  | CoinSigned c =>
      result_bind (get_coin_or_default db (utxo_id c) (c_owner c) (c_amount c) (c_asset_id c)) (λ coin,
        Ok (CoinSigned (with_coin_pointer (coin_tx_pointer coin) c)))
  | CoinPredicate c gas =>
      result_bind (get_coin_or_default db (utxo_id c) (c_owner c) (c_amount c) (c_asset_id c)) (λ coin,
        Ok (CoinPredicate (with_coin_pointer (coin_tx_pointer coin) c) gas))
  | InputContract c =>
      result_bind (validated_utxo db (ci_contract_id c)) (λ info,
        let for_contract := default no_values (record !! ci_contract_id c) in
        Ok (InputContract {|
          ci_utxo_id := info_utxo_id info;
          ci_balance_root := compute_balances_hash (v_assets for_contract);
          ci_state_root := compute_state_hash (v_slots for_contract);
          ci_tx_pointer := info_tx_pointer info;
          ci_contract_id := ci_contract_id c;
        |}))
  | _ => Ok i
  end.

Definition compute_inputs (l : list Input) (db : TxStorage) (record : Accessed) : result (list Input) ExecutorError :=
  try_fold (λ l i, result_bind (compute_input db record i) (λ i, Ok (l ++ [i]))) [] l.

(** ** Outputs *)

Definition nth_input (l : list Input) (index : Z) : option Input :=
  if decide (0 ≤ index) then l !! Z.to_nat index else None.

Definition compute_output (id : TxId) (l : list Input) (record : Accessed) (o : Output) : result Output ExecutorError :=
  match o with
  | OutputContract c =>
      match nth_input l (input_index c) with
      | Some (InputContract ci) =>
          let for_contract := default no_values (record !! ci_contract_id ci) in
          Ok (OutputContract {|
            input_index := input_index c;
            co_balance_root := compute_balances_hash (v_assets for_contract);
            co_state_root := compute_state_hash (v_slots for_contract);
          |})
      | _ => Err (InvalidTransactionOutcome id)
      end
  | _ => Ok o
  end.

Definition compute_state_of_not_utxo_outputs (id : TxId) (l : list Input) (outs : list Output) (record : Accessed) :
    result (list Output) ExecutorError :=
  try_fold (λ outs o, result_bind (compute_output id l record o) (λ o, Ok (outs ++ [o]))) [] outs.

Definition insert_coin (height : Z) (id : UtxoId) (amount : Z) (asset : AssetId) (to : Address) : X unit :=
  if decide (0 < amount) then
    d ← get_data;
    let coin := {| coin_owner := to; coin_amount := amount; coin_asset_id := asset;
                   coin_tx_pointer := {| block_height := height; tx_index := xtx_count d |} |} in
    prev ← access (λ t, plain_replace Coins t id coin);
    _ ← require (negb (bool_decide (is_Some (prev : option CompressedCoin)))) OutputAlreadyExists;
    set_data (push_event (CoinCreated (uncompress_coin coin id)))
  else mret ().

Definition persist_output (height : Z) (id : TxId) (l : list Input) (tx_idx : Z) (io : Z * Output) : X unit :=
  let '(output_index, o) := io in
  _ ← require (bool_decide (output_index ≤ U16)) TooManyOutputs;
  let utxo := {| utxo_tx_id := id; output_index := output_index |} in
  let info := {| info_utxo_id := utxo; info_tx_pointer := {| block_height := height; tx_index := tx_idx |} |} in
  match o with
  | OutputCoin to amount asset => insert_coin height utxo amount asset to
  | OutputContract c =>
      match nth_input l (input_index c) with
      | Some (InputContract ci) => access (λ t, plain_put ContractsLatestUtxo t (ci_contract_id ci) info)
      | _ => fail (TransactionValidity (InvalidContractInputIndex utxo))
      end
  | OutputChange to amount asset => insert_coin height utxo amount asset to
  | OutputVariable to amount asset => insert_coin height utxo amount asset to
  | OutputContractCreated c _ => access (λ t, plain_put ContractsLatestUtxo t c info)
  end.

Definition enumerate {A} (l : list A) : list (Z * A) := zip (Z.of_nat <$> seq 0 (length l)) l.

Definition persist_output_utxos (height : Z) (id : TxId) (l : list Input) (outs : list Output) : X unit :=
  d ← get_data;
  x_for (persist_output height id l (xtx_count d)) (enumerate outs).

(** ** Spending *)

Definition spend_coin (c : CoinIn) : X unit :=
  o ← access (λ t, plain_take Coins t (utxo_id c));
  db ← get_storage;
  coin ← lift (match (o : option CompressedCoin) with
               | Some coin => Ok coin
               | None => get_coin_or_default db (utxo_id c) (c_owner c) (c_amount c) (c_asset_id c)
               end);
  set_data (push_event (CoinConsumed (uncompress_coin coin (utxo_id c)))).

Definition spend_message (m : MessageIn) : X unit :=
  o ← access (λ t, plain_take Messages t (m_nonce m));
  message ← lift (match (o : option Message) with Some x => Ok x | None => Err (MessageDoesNotExist (m_nonce m)) end);
  set_data (push_event (MessageConsumed message)).

Definition spend_input (reverted : bool) (i : Input) : X unit :=
  match i with
  | CoinSigned c | CoinPredicate c _ => spend_coin c
  | MessageDataSigned m _ | MessageDataPredicate m _ _ => if reverted then mret () else spend_message m
  | MessageCoinSigned m | MessageCoinPredicate m _ => spend_message m
  | InputContract _ => mret ()
  end.

Definition spend_input_utxos (l : list Input) (reverted : bool) : X unit := x_for (spend_input reverted) l.

(** ** Fees *)

(** The gas of the last script result. *)
Definition script_gas (receipts : list Receipt) : Z := default 0 (head (omap script_result_gas (reverse receipts))).

Definition total_fee_paid (tx : Chargeable) (receipts : list Receipt) (gas_price : Z) : result (Z * Z) ExecutorError :=
  let used := script_gas receipts in
  match refund_fee params tx used gas_price with
  | None => Err FeeOverflow
  | Some fee =>
      if decide (U64 < min_gas params tx + used)
      then Err (GasOverflow "Total used gas overflowed." (min_gas params tx) used)
      else if decide (max_fee_limit tx < fee) then Err FeeOverflow
      else Ok (min_gas params tx + used, max_fee_limit tx - fee)
  end.

Definition update_execution_data (tx : Chargeable) (receipts : list Receipt) (gas_price : Z) (reverted : bool)
    (state : ProgramState) (id : TxId) : X unit :=
  gf ← lift (total_fee_paid tx receipts gas_price);
  let '(gas, fee) := gf in
  let size := Z.min (metered_bytes_size tx) U32 in
  d ← get_data;
  _ ← require (bool_decide (coinbase d + fee ≤ U64)) FeeOverflow;
  _ ← set_data (with_coinbase (coinbase d + fee));
  _ ← require (bool_decide (used_gas d + gas ≤ U64)) (GasOverflow "Execution used gas overflowed." (used_gas d) gas);
  _ ← set_data (with_used_gas (used_gas d + gas));
  _ ← require (bool_decide (used_size d + size ≤ U32)) TxSizeOverflow;
  _ ← set_data (with_used_size (used_size d + size));
  _ ← (if reverted then mret () else set_data (push_message_ids (omap receipt_message_id receipts)));
  set_data (push_status {|
    status_id := id;
    status_result := if reverted then Failed (Some state) receipts gas fee else Success (Some state) receipts gas fee;
  |}).

(** ** Execution with the virtual machine *)

(** [update_input_used_gas]: the gas of the predicates, in the order of the inputs. *)
Fixpoint update_input_used_gas (gas : list (option Z)) (id : TxId) (l : list Input) : result (list Input) ExecutorError :=
  match gas, l with
  | g :: gas, i :: l =>
      result_bind (match g with
                   | None => Ok i
                   | Some g =>
                       match i with
                       | CoinPredicate c _ => Ok (CoinPredicate c g)
                       | MessageCoinPredicate m _ => Ok (MessageCoinPredicate m g)
                       | MessageDataPredicate m data _ => Ok (MessageDataPredicate m data g)
                       | _ => Err (InvalidTransactionOutcome id)
                       end
                   end) (λ i, result_bind (update_input_used_gas gas id l) (λ l, Ok (i :: l)))
  | _, _ => Ok l
  end.

Definition with_inputs (l : list Input) (tx : Chargeable) : Chargeable :=
  {| kind := kind tx; inputs := l; outputs := outputs tx; body := body tx |}.
Definition with_outputs (l : list Output) (tx : Chargeable) : Chargeable :=
  {| kind := kind tx; inputs := inputs tx; outputs := l; body := body tx |}.

(** The program over a new transaction with recorded reads: what it changed and read. *)
Definition run_recorded {A} (header : PartialBlockHeader) (coinbase_id : ContractId)
    (p : VmProg ConsensusParameters A) (t : TxStorage) : Changes * Reads * A :=
  let '(sub, reads, a) :=
    vm_run ser_consensus_parameters de_consensus_parameters (VmStorage_new header coinbase_id) p
      (with_policy PolicyOverwrite (into_transaction t)) ∅ in
  (changes sub, reads, a).

(** Receipts of a dry run for contracts that are not among the inputs. *)
Definition dry_run_receipts (r : VmResult Receipt ProgramState) : bool * list Receipt :=
  if decide (missing_contract_inputs r = []) then (should_revert r, vm_receipts r)
  else (true, vm_receipts r ++ (contract_not_in_inputs <$> missing_contract_inputs r)).

Definition commit_to_storage (ch : Changes) : X unit := access (tx_commit_changes ch).

Definition attempt_tx_execution_with_vm (checked_tx : Checked Chargeable) (header : PartialBlockHeader)
    (coinbase_id : ContractId) (gas_price : Z) : X (bool * ProgramState * Chargeable * list Receipt) :=
  let id := ck_id checked_tx in
  t ← get_storage;
  let gas := predicate_gas_used <$> inputs (ck_tx checked_tx) in
  ready ← lift (match into_ready params gas_price (height (p_consensus header)) checked_tx with
                | Ok r => Ok r
                | Err e => Err (InvalidTransaction e)
                end);
  let '(ch, reads, outcome) :=
    run_recorded header coinbase_id (transact params gas_price (allow_syscall (options ex)) (is_dry_run ex) ready) t in
  vm_result ← lift (match outcome with Ok r => Ok r | Err e => Err (VmExecution e id) end);
  let '(reverted, receipts) :=
    if is_dry_run ex then dry_run_receipts vm_result else (should_revert vm_result, vm_receipts vm_result) in
  ins ← lift (update_input_used_gas gas id (inputs (vm_tx vm_result)));
  states ← lift (storage_error (finalize reads t ch));
  let '(state_before, state_after) := states in
  ins ← lift (compute_inputs ins t state_before);
  _ ← (if reverted then mret () else commit_to_storage ch);
  let state_after := if reverted then ∅ else state_after in
  outs ← lift (compute_state_of_not_utxo_outputs id ins (outputs (vm_tx vm_result)) state_after);
  mret (reverted, vm_state vm_result, with_outputs outs (with_inputs ins (vm_tx vm_result)), receipts).

Definition validation_error {A} (r : result A string) : result A ExecutorError :=
  match r with Ok a => Ok a | Err e => Err (TransactionValidity (Validation e)) end.

Definition extra_tx_checks (checked_tx : Checked Chargeable) (header : PartialBlockHeader) (t : TxStorage) :
    result (Checked Chargeable) ExecutorError :=
  result_bind (validation_error (check_predicates params (allow_syscall (options ex)) (view_of t) checked_tx)) (λ checked_tx,
  result_bind (verify_inputs_exist_and_values_match t (inputs (ck_tx checked_tx)) (da_height (p_application header))) (λ _,
  validation_error (check_signatures chain checked_tx))).

Definition execute_chargeable_transaction (checked_tx : Checked Chargeable) (header : PartialBlockHeader)
    (coinbase_id : ContractId) (gas_price : Z) : X Transaction :=
  let id := ck_id checked_tx in
  t ← get_storage;
  checked_tx ← (if forbid then lift (extra_tx_checks checked_tx header t) else mret checked_tx);
  r ← attempt_tx_execution_with_vm checked_tx header coinbase_id gas_price;
  let '(reverted, state, tx, receipts) := r in
  _ ← spend_input_utxos (inputs tx) reverted;
  _ ← persist_output_utxos (height (p_consensus header)) id (inputs tx) (outputs tx);
  _ ← access (λ t, plain_put ProcessedTransactions t id ());
  _ ← update_execution_data tx receipts gas_price reverted state id;
  mret (TxChargeable tx).

(** ** The mint transaction *)

Definition empty_contract_input (c : ContractId) : ContractIn := {|
  ci_utxo_id := {| utxo_tx_id := zeroed; output_index := 0 |};
  ci_balance_root := zeroed;
  ci_state_root := zeroed;
  ci_tx_pointer := {| block_height := 0; tx_index := 0 |};
  ci_contract_id := c;
|}.

Definition empty_contract_output : ContractOut :=
  {| input_index := 0; co_balance_root := zeroed; co_state_root := zeroed |}.

Definition verify_mint_for_empty_contract (m : Mint) : result unit ExecutorError :=
  if decide (mint_amount m ≠ 0) then Err CoinbaseAmountMismatch
  else if decide (input_contract m ≠ empty_contract_input zeroed ∨ output_contract m ≠ empty_contract_output)
  then Err MintMismatch
  else Ok ().

Definition execute_mint_with_vm (header : PartialBlockHeader) (coinbase_id : ContractId) (id : TxId) (m : Mint)
    (i : Input) : X (ContractIn * ContractOut) :=
  t ← get_storage;
  let '(ch, reads, outcome) :=
    run_recorded header coinbase_id
      (balance_increase (ci_contract_id (input_contract m)) (mint_asset_id m) (mint_amount m)) t in
  _ ← lift (match outcome with Ok _ => Ok () | Err e => Err (CoinbaseCannotIncreaseBalance e) end);
  states ← lift (storage_error (finalize reads t ch));
  let '(state_before, state_after) := states in
  ins ← lift (compute_inputs [i] t state_before);
  _ ← commit_to_storage ch;
  let outs := [OutputContract (output_contract m)] in
  _ ← persist_output_utxos (height (p_consensus header)) id ins outs;
  outs ← lift (compute_state_of_not_utxo_outputs id ins outs state_after);
  match ins, outs with
  | InputContract c :: _, OutputContract o :: _ => mret (c, o)
  | InputContract _ :: _, _ => fail (OtherError "The output of the `Mint` transaction is not a contract")
  | _, _ => fail (OtherError "Input of the `Mint` transaction is not a contract")
  end.

Definition store_mint_tx (m : Mint) (id : TxId) : X Transaction :=
  _ ← set_data (push_status {| status_id := id; status_result := Success None [] 0 0 |});
  prev ← access (λ t, plain_replace ProcessedTransactions t id ());
  _ ← require (negb (bool_decide (is_Some (prev : option unit)))) (TransactionIdCollision id);
  mret (TxMint m).

Definition with_contracts (i : ContractIn) (o : ContractOut) (m : Mint) : Mint := {|
  mint_tx_pointer := mint_tx_pointer m; input_contract := i; output_contract := o; mint_amount := mint_amount m;
  mint_asset_id := mint_asset_id m; mint_gas_price := mint_gas_price m;
|}.

Definition execute_mint (checked_mint : Checked Mint) (header : PartialBlockHeader) (coinbase_id : ContractId)
    (gas_price : Z) : X Transaction :=
  _ ← set_data (with_found_mint true);
  d ← get_data;
  _ ← require (bool_decide (tx_index (mint_tx_pointer (ck_tx checked_mint)) = xtx_count d)) MintHasUnexpectedIndex;
  let id := ck_id checked_mint in
  let m := ck_tx checked_mint in
  _ ← require (bool_decide (mint_gas_price m = gas_price)) CoinbaseGasPriceMismatch;
  m ← (if decide (ci_contract_id (input_contract m) = zeroed) then
         _ ← lift (verify_mint_for_empty_contract m);
         mret m
       else
         _ ← require (bool_decide (mint_amount m = coinbase d)) CoinbaseAmountMismatch;
         let i := InputContract (input_contract m) in
         t ← get_storage;
         _ ← (if forbid then lift (verify_inputs_exist_and_values_match t [i] (da_height (p_application header))) else mret ());
         io ← execute_mint_with_vm header coinbase_id id m i;
         mret (with_contracts io.1 io.2 m));
  store_mint_tx m id.

(** ** A transaction of the block *)

Definition maybe_checked_id (tx : MaybeCheckedTransaction) : TxId :=
  match tx with
  | MaybeChecked (CheckedMint m) _ => ck_id m
  | MaybeChecked (CheckedChargeable t) _ => ck_id t
  | NotChecked tx => tx_id chain tx
  end.

Definition maybe_checked_expiration (tx : MaybeCheckedTransaction) : Z :=
  match tx with
  | MaybeChecked (CheckedMint _) _ | NotChecked (TxMint _) => U32
  | MaybeChecked (CheckedChargeable t) _ => expiration (ck_tx t)
  | NotChecked (TxChargeable t) => expiration t
  end.

Definition mint_has_no_max_gas : ExecutorError := OtherError "Mint transaction doesn't have max_gas".

(** [TransactionExt::max_gas] of transactions and checked transactions. *)
Definition tx_max_gas (tx : Transaction) : result Z ExecutorError :=
  match tx with TxMint _ => Err mint_has_no_max_gas | TxChargeable t => Ok (max_gas params t) end.

Definition maybe_checked_max_gas (tx : MaybeCheckedTransaction) : result Z ExecutorError :=
  match tx with
  | MaybeChecked (CheckedMint _) _ => Err mint_has_no_max_gas
  | MaybeChecked (CheckedChargeable t) _ => Ok (ck_max_gas t)
  | NotChecked tx => tx_max_gas tx
  end.

Definition checked_basic (h : Z) (tx : Transaction) : result CheckedTransaction ExecutorError :=
  match into_checked_basic h params tx with Ok c => Ok c | Err e => Err (InvalidTransaction e) end.

Definition convert_maybe_checked_tx_to_checked_tx (tx : MaybeCheckedTransaction) (header : PartialBlockHeader) :
    result CheckedTransaction ExecutorError :=
  let h := height (p_consensus header) in
  match tx with
  | NotChecked tx => checked_basic h tx
  | MaybeChecked c version =>
      if decide (maybe_checked_expiration tx < h) then Err (TransactionExpired (maybe_checked_expiration tx) h)
      else if decide (consensus_parameters_version (p_application header) = version) then Ok c
      else checked_basic h (unchecked c)
  end.

Definition execute_transaction (tx : MaybeCheckedTransaction) (id : TxId) (header : PartialBlockHeader)
    (coinbase_id : ContractId) (gas_price : Z) : X Transaction :=
  d ← get_data;
  _ ← require (negb (found_mint d)) MintIsNotLastTransaction;
  t ← get_storage;
  processed ← lift (storage_error (table_exists ProcessedTransactions t id));
  _ ← require (negb processed) (TransactionIdCollision id);
  c ← lift (convert_maybe_checked_tx_to_checked_tx tx header);
  match c with
  | CheckedMint m => execute_mint m header coinbase_id gas_price
  | CheckedChargeable t => execute_chargeable_transaction t header coinbase_id gas_price
  end.

(** ** The block under construction *)

Record BState := {
  bblock : PartialFuelBlock Transaction;
  bstorage : BlockStorage;
  bdata : Data;
}.

Definition with_bdata (f : Data → Data) (b : BState) : BState :=
  {| bblock := bblock b; bstorage := bstorage b; bdata := f (bdata b) |}.

Definition push_transaction (tx : Transaction) (p : PartialFuelBlock Transaction) : PartialFuelBlock Transaction :=
  {| pf_header := pf_header p; pf_transactions := pf_transactions p ++ [tx] |}.

Definition execute_transaction_and_commit (tx : MaybeCheckedTransaction) (gas_price : Z) (coinbase_id : ContractId)
    (b : BState) : BState * result unit ExecutorError :=
  let count := xtx_count (bdata b) in
  let t := with_policy PolicyOverwrite (into_transaction (bstorage b)) in
  match execute_transaction tx (maybe_checked_id tx) (pf_header (bblock b)) coinbase_id gas_price
          {| xdata := bdata b; xstorage := t |} with
  | (s, Err e) => ({| bblock := bblock b; bstorage := bstorage b; bdata := xdata s |}, Err e)
  | (s, Ok tx) =>
      match commit (xstorage s) with
      | (st, Err e) => ({| bblock := bblock b; bstorage := st; bdata := xdata s |}, Err (ExecutorStorageError e))
      | (st, Ok _) =>
          let b := {| bblock := push_transaction tx (bblock b); bstorage := st; bdata := xdata s |} in
          if decide (count < U16) then (with_bdata (with_tx_count (count + 1)) b, Ok ())
          else (b, Err ExecTypes.TooManyTransactions)
      end
  end.

(** ** Transactions from the relayer *)

Definition RELAYED_GAS_PRICE : Z := 0.

(** [RelayedTransaction::id]. *)
Definition relayed_id (t : RelayedTransaction) : list Z :=
  digest (rt_nonce t ++ to_be_bytes 8 (rt_max_gas t) ++ serialized_transaction t).

(** [Event::hash]. *)
Definition event_hash (ev : RelayerEvent) : Bytes32 :=
  match ev with
  | EventMessage m => compute_message_id (sender m) (recipient m) (nonce m) (msg_amount m) (msg_data m)
  | EventTransaction t => relayed_id t
  end.

Definition parse_tx_bytes (t : RelayedTransaction) : result Transaction ForcedTransactionFailure :=
  match transaction_from_bytes (serialized_transaction t) with Some tx => Ok tx | None => Err CodecError end.

Definition tx_is_valid_variant (tx : Transaction) : result unit ForcedTransactionFailure :=
  match tx with TxMint _ => Err InvalidTransactionType | TxChargeable _ => Ok () end.

Definition relayed_tx_claimed_enough_max_gas (tx : Transaction) (t : RelayedTransaction) :
    result unit ForcedTransactionFailure :=
  match tx_max_gas tx with
  | Err _ => Err InvalidTransactionType
  | Ok actual => if decide (rt_max_gas t < actual) then Err (InsufficientMaxGas (rt_max_gas t) actual) else Ok ()
  end.

Definition validate_forced_tx (t : RelayedTransaction) (h : Z) (st : BlockStorage) :
    result CheckedTransaction ForcedTransactionFailure :=
  result_bind (parse_tx_bytes t) (λ tx,
  result_bind (tx_is_valid_variant tx) (λ _,
  result_bind (relayed_tx_claimed_enough_max_gas tx t) (λ _,
  match into_checked_reusable_memory h params (view_of st) tx with
  | Ok c => Ok c
  | Err e => Err (CheckError e)
  end))).

(** What [process_da] has done: the storage, the data, the pushed hashes and the checked
    transactions. *)
Record DaState := {
  da_storage : BlockStorage;
  da_data : Data;
  da_leaves : list Bytes32;
  checked_forced_txs : list CheckedTransaction;
}.

Definition process_event (h da : Z) (s : DaState) (ev : RelayerEvent) : DaState * result unit ExecutorError :=
  let leaves := da_leaves s ++ [event_hash ev] in
  match ev with
  | EventMessage m =>
      if decide (msg_da_height m ≠ da) then
        ({| da_storage := da_storage s; da_data := da_data s; da_leaves := leaves;
            checked_forced_txs := checked_forced_txs s |}, Err RelayerGivesIncorrectMessages)
      else
        let '(st, r) := plain_put Messages (da_storage s) (nonce m) m in
        match r with
        | Err e => ({| da_storage := st; da_data := da_data s; da_leaves := leaves;
                       checked_forced_txs := checked_forced_txs s |}, Err (ExecutorStorageError e))
        | Ok _ => ({| da_storage := st; da_data := push_event (MessageImported m) (da_data s); da_leaves := leaves;
                      checked_forced_txs := checked_forced_txs s |}, Ok ())
        end
  | EventTransaction t =>
      match validate_forced_tx t h (da_storage s) with
      | Ok c => ({| da_storage := da_storage s; da_data := da_data s; da_leaves := leaves;
                    checked_forced_txs := checked_forced_txs s ++ [c] |}, Ok ())
      | Err f => ({| da_storage := da_storage s;
                     da_data := push_event (ForcedTransactionFailed (relayed_id t) h (NotForced f)) (da_data s);
                     da_leaves := leaves; checked_forced_txs := checked_forced_txs s |}, Ok ())
      end
  end.

(** A fold with an early return that keeps the state. *)
Fixpoint fold_until {St A} (f : St → A → St * result unit ExecutorError) (s : St) (l : list A) :
    St * result unit ExecutorError :=
  match l with
  | [] => (s, Ok ())
  | a :: l => match f s a with (s, Ok _) => fold_until f s l | (s, Err e) => (s, Err e) end
  end.

Definition process_da_height (events_at : Z → result (list RelayerEvent) string) (h : Z) (s : DaState) (da : Z) :
    DaState * result unit ExecutorError :=
  match events_at da with
  | Err e => (s, Err (RelayerError e))
  | Ok evs => fold_until (process_event h da) s evs
  end.

(** The heights from [a] to [b], both included. *)
Definition heights (a b : Z) : list Z := (λ n, a + Z.of_nat n) <$> seq 0 (Z.to_nat (b + 1 - a)).

Definition process_da (events_at : Z → result (list RelayerEvent) string) (h da : Z) (b : BState) :
    BState * result (list CheckedTransaction) ExecutorError :=
  if decide (h ≤ 0) then (b, Err ExecutingGenesisBlock)
  else
    match table_get (mt_table FuelBlocks) (bstorage b) (h - 1) with
    | Err e => (b, Err (ExecutorStorageError e))
    | Ok None => (b, Err PreviousBlockIsNotFound)
    | Ok (Some prev) =>
        let previous_da_height := da_height (application (header prev)) in
        if decide (U64 ≤ previous_da_height) then (b, Err DaHeightExceededItsLimit)
        else
          let s0 := {| da_storage := bstorage b; da_data := bdata b; da_leaves := []; checked_forced_txs := [] |} in
          let '(s, r) := fold_until (process_da_height events_at h) s0 (heights (previous_da_height + 1) da) in
          match r with
          | Err e => ({| bblock := bblock b; bstorage := da_storage s; bdata := da_data s |}, Err e)
          | Ok _ =>
              ({| bblock := bblock b; bstorage := da_storage s;
                  bdata := with_event_inbox_root (ephemeral_root (da_leaves s)) (da_data s) |},
               Ok (checked_forced_txs s))
          end
    end.

Definition get_relayed_txs (h da : Z) (b : BState) : BState * result (list CheckedTransaction) ExecutorError :=
  match get_events ex with
  | Some events_at => process_da events_at h da b
  | None => (b, Ok [])
  end.

Definition process_relayed_tx (coinbase_id : ContractId) (b : BState) (c : CheckedTransaction) : BState :=
  let tx := MaybeChecked c (consensus_parameters_version (p_application (pf_header (bblock b)))) in
  match execute_transaction_and_commit tx RELAYED_GAS_PRICE coinbase_id b with
  | (b, Ok _) => b
  | (b, Err e) =>
      with_bdata (push_event (ForcedTransactionFailed (maybe_checked_id tx)
        (height (p_consensus (pf_header (bblock b)))) (NotExecuted e))) b
  end.

Definition process_relayed_txs (forced : list CheckedTransaction) (coinbase_id : ContractId) (b : BState) : BState :=
  foldl (process_relayed_tx coinbase_id) b forced.

Definition process_l1_txs (coinbase_id : ContractId) (b : BState) : BState * result unit ExecutorError :=
  match get_relayed_txs (height (p_consensus (pf_header (bblock b)))) (da_height (p_application (pf_header (bblock b)))) b with
  | (b, Err e) => (b, Err e)
  | (b, Ok forced) => (process_relayed_txs forced coinbase_id b, Ok ())
  end.

(** ** Transactions of the source *)

Section production.
Context {P : Type} `{!ProductionPorts P}.
Abbreviation Pre := (Preconfirmation Receipt).

(** The outputs a preconfirmation tells of. *)
Definition is_dynamic (o : Output) : bool :=
  match o with
  | OutputChange _ _ _ => true
  | OutputVariable _ amount _ => bool_decide (amount ≠ 0)
  | _ => false
  end.

Definition convert_tx_execution_result_to_preconfirmation (tx : Transaction) (id : TxId)
    (res : TransactionExecutionResult Receipt ProgramState) (h index : Z) : Pre :=
  let pointer := {| block_height := h; tx_index := index |} in
  let outs := omap (λ '(i, o), if is_dynamic o && bool_decide (i ≤ U16)
                               then Some ({| utxo_tx_id := id; output_index := i |}, o) else None)
                (enumerate (tx_outputs tx)) in
  {| pre_tx_id := id;
     pre_status := match res with
                   | Success _ receipts gas fee => PreSuccess pointer gas fee receipts outs
                   | Failed _ receipts gas fee => PreFailure pointer gas fee receipts outs
                   end |}.

(** The production so far; [sent] are the preconfirmations not yet sent. *)
Record PState := { pb : BState; pports : P; psent : list Pre }.

Definition remaining_gas (b : BState) : Z := sat_sub (block_gas_limit params) (used_gas (bdata b)).
Definition remaining_size (b : BState) : Z :=
  sat_sub (Z.min (block_transaction_size_limit params) U32) (used_size (bdata b)).
Definition remaining_count (b : BState) : Z := sat_sub max_tx_count (xtx_count (bdata b)).

(** The next transactions of the source, as many as fit. *)
Definition next_batch (b : BState) (p : P) : list MaybeCheckedTransaction * P :=
  let '(l, p) := next_transactions (remaining_gas b) (remaining_count b) (remaining_size b) p in
  (take (Z.to_nat (remaining_count b)) l, p).

(** The preconfirmation of what happened to a transaction. *)
Definition preconfirmation_of (id : TxId) (index : Z) (b : BState) (r : result unit ExecutorError) : option Pre :=
  match r with
  | Err e => Some {| pre_tx_id := id; pre_status := PreSqueezedOut e id |}
  | Ok _ =>
      st ← last (xtx_status (bdata b));
      tx ← last (pf_transactions (bblock b));
      Some (convert_tx_execution_result_to_preconfirmation tx id (status_result st)
              (height (p_consensus (pf_header (bblock b)))) index)
  end.

(** One transaction of a batch, with the gas that is left; [None] is the panic on a missing
    status. *)
Definition process_l2_tx (coinbase_id : ContractId) (gas_price : Z) (remaining_gas_limit : Z)
    (tx : MaybeCheckedTransaction) (s : PState) : option (PState * result Z ExecutorError) :=
  let b := pb s in
  let id := maybe_checked_id tx in
  match maybe_checked_max_gas tx with
  | Err e => Some (s, Err e)
  | Ok gas =>
      if decide (remaining_gas_limit < gas) then
        Some ({| pb := with_bdata (push_skipped (id, GasOverflow "Transaction cannot fit in remaining gas limit" gas remaining_gas_limit)) b;
                 pports := pports s; psent := psent s |}, Ok remaining_gas_limit)
      else
        let index := xtx_count (bdata b) in
        let '(b, r) := execute_transaction_and_commit tx gas_price coinbase_id b in
        pre ← preconfirmation_of id index b r;
        let b := match r with Ok _ => b | Err e => with_bdata (push_skipped (id, e)) b end in
        let '(sent, p) := try_send (psent s ++ [pre]) (pports s) in
        Some ({| pb := b; pports := p; psent := sent |}, Ok (remaining_gas b))
  end.

Fixpoint process_batch (coinbase_id : ContractId) (gas_price : Z) (remaining_gas_limit : Z)
    (l : list MaybeCheckedTransaction) (s : PState) : option (PState * result unit ExecutorError) :=
  match l with
  | [] => Some (s, Ok ())
  | tx :: l =>
      sr ← process_l2_tx coinbase_id gas_price remaining_gas_limit tx s;
      match sr with
      | (s, Err e) => Some (s, Err e)
      | (s, Ok limit) => process_batch coinbase_id gas_price limit l s
      end
  end.

(** The loop over the batches of the source, with at most [fuel] of them. *)
Fixpoint l2_loop (fuel : nat) (coinbase_id : ContractId) (gas_price : Z) (s : PState) :
    option (PState * result unit ExecutorError) :=
  match fuel with
  | O => None
  | Datatypes.S fuel =>
      match next_batch (pb s) (pports s) with
      | ([], p) => Some ({| pb := pb s; pports := p; psent := psent s |}, Ok ())
      | (l, p) =>
          sr ← process_batch coinbase_id gas_price (remaining_gas (pb s)) l {| pb := pb s; pports := p; psent := psent s |};
          match sr with
          | (s, Err e) => Some (s, Err e)
          | (s, Ok _) => l2_loop fuel coinbase_id gas_price s
          end
      end
  end.

Definition process_l2_txs (fuel : nat) (coinbase_id : ContractId) (gas_price : Z) (b : BState) (p : P) :
    option (BState * P * result unit ExecutorError) :=
  sr ← l2_loop fuel coinbase_id gas_price {| pb := b; pports := p; psent := [] |};
  match sr with
  | (s, Err e) => Some (pb s, pports s, Err e)
  | (s, Ok _) => Some (pb s, if decide (psent s = []) then pports s else send (psent s) (pports s), Ok ())
  end.

(** ** Production *)

Definition produce_mint_tx (coinbase_id : ContractId) (gas_price : Z) (b : BState) : BState * result unit ExecutorError :=
  let m := {|
    mint_tx_pointer := {| block_height := height (p_consensus (pf_header (bblock b))); tx_index := xtx_count (bdata b) |};
    input_contract := empty_contract_input coinbase_id;
    output_contract := empty_contract_output;
    mint_amount := if decide (coinbase_id = zeroed) then 0 else coinbase (bdata b);
    mint_asset_id := base_asset_id params;
    mint_gas_price := gas_price;
  |} in
  execute_transaction_and_commit (NotChecked (TxMint m)) gas_price coinbase_id b.

(** The rounds of a production: transactions, then the wait for new ones. *)
Fixpoint production_rounds (fuel : nat) (coinbase_id : ContractId) (gas_price : Z) (b : BState) (p : P) :
    option (BState * P * result unit ExecutorError) :=
  match fuel with
  | O => None
  | Datatypes.S fuel' =>
      bpr ← process_l2_txs fuel coinbase_id gas_price b p;
      match bpr with
      | (b, p, Err e) => Some (b, p, Err e)
      | (b, p, Ok _) =>
          match wait_for_new_transactions p with
          | (Timeout, p) => Some (b, p, Ok ())
          | (NewTransaction, p) => production_rounds fuel' coinbase_id gas_price b p
          end
      end
  end.

Definition new_block (header : PartialBlockHeader) (st : BlockStorage) : BState :=
  {| bblock := {| pf_header := header; pf_transactions := [] |}; bstorage := st; bdata := ExecutionData_new |}.

Definition produce_block (fuel : nat) (c : Components P) (st : BlockStorage) :
    option (P * result (PartialFuelBlock Transaction * Data * Changes) ExecutorError) :=
  match process_l1_txs (coinbase_recipient c) (new_block (header_to_produce c) st) with
  | (_, Err e) => Some (transactions_source c, Err e)
  | (b, Ok _) =>
      bpr ← production_rounds fuel (coinbase_recipient c) (gas_price c) b (transactions_source c);
      match bpr with
      | (_, p, Err e) => Some (p, Err e)
      | (b, p, Ok _) =>
          match produce_mint_tx (coinbase_recipient c) (gas_price c) b with
          | (_, Err e) => Some (p, Err e)
          | (b, Ok _) => Some (p, Ok (bblock b, bdata b, changes (bstorage b)))
          end
      end
  end.

Definition dry_run_block (fuel : nat) (c : Components P) (st : BlockStorage) :
    option (P * result (PartialFuelBlock Transaction * Data * Changes) ExecutorError) :=
  bpr ← process_l2_txs fuel (coinbase_recipient c) (gas_price c) (new_block (header_to_produce c) st) (transactions_source c);
  match bpr with
  | (_, p, Err e) => Some (p, Err e)
  | (b, p, Ok _) => Some (p, Ok (bblock b, bdata b, changes (bstorage b)))
  end.

Definition execute (fuel : nat) (c : Components P) (st : BlockStorage) :
    option (P * result (PartialFuelBlock Transaction * Data * Changes) ExecutorError) :=
  if is_dry_run ex then dry_run_block fuel c st else produce_block fuel c st.
End production.

(** ** Validation *)

Definition get_coinbase_info_from_mint_tx (txs : list Transaction) : result (Z * ContractId) ExecutorError :=
  match last txs with
  | Some (TxMint m) => Ok (mint_gas_price m, ci_contract_id (input_contract m))
  | _ => Err MintMissing
  end.

Definition header_error {A} (r : result A BlockHeaderError) : result A ExecutorError :=
  match r with Ok a => Ok a | Err e => Err (ExecutorHeaderError e) end.

(** Equality of headers, without their cached identifiers. *)
Definition headers_match (h h' : BlockHeader) : bool :=
  bool_decide (application h = application h') && bool_decide (consensus h = consensus h').

Definition check_transactions_match (l : list (Transaction * Transaction)) : result unit ExecutorError :=
  try_fold (λ _ '(new_tx, old_tx), if decide (new_tx = old_tx) then Ok ()
                                   else Err (InvalidTransactionOutcome (tx_id chain old_tx))) () l.

Definition check_block_matches (new_partial : PartialFuelBlock Transaction) (old_block : Block Transaction) (d : Data) :
    result unit ExecutorError :=
  result_bind (check_transactions_match (zip (pf_transactions new_partial) (transactions old_block))) (λ _,
  result_bind (header_error (generate_block new_partial (message_ids d) (xevent_inbox_root d))) (λ new_block,
  if headers_match (header new_block) (header old_block) then Ok () else Err BlockMismatch)).

Definition validate_tx (gas_price : Z) (coinbase_id : ContractId) (b : BState) (tx : Transaction) :
    BState * result unit ExecutorError :=
  execute_transaction_and_commit (NotChecked tx) gas_price coinbase_id b.

Definition validate_block (block : Block Transaction) (st : BlockStorage) : result (Data * Changes) ExecutorError :=
  result_bind (get_coinbase_info_from_mint_tx (transactions block)) (λ '(gas_price, coinbase_id),
  match process_l1_txs coinbase_id (new_block (partial_header (header block)) st) with
  | (_, Err e) => Err e
  | (b, Ok _) =>
      let processed_l1_tx_count := length (pf_transactions (bblock b)) in
      match fold_until (validate_tx gas_price coinbase_id) b (drop processed_l1_tx_count (transactions block)) with
      | (_, Err e) => Err e
      | (b, Ok _) =>
          result_bind (check_block_matches (bblock b) block (bdata b)) (λ _, Ok (bdata b, changes (bstorage b)))
      end
  end).
End block_executor.

(** ** The instance of the executor *)

Record ExecutionInstance := {
  relayer : option (Z → result (list RelayerEvent) string);
  xdatabase : D;
  xoptions : ExecutionOptions;
}.

Definition into_executor (i : ExecutionInstance) (version : Z) (dry_run : bool) :
    result (BlockExecutor * BlockStorage) ExecutorError :=
  let st := with_policy PolicyOverwrite (into_transaction (xdatabase i)) in
  result_bind (storage_error (table_get
    (ConsensusParametersVersions ser_consensus_parameters de_consensus_parameters) st version)) (λ o,
  match o with
  | None => Err (ConsensusParametersNotFound version)
  | Some p =>
      Ok ({| get_events := relayer i; consensus_params := p; options := xoptions i; is_dry_run := dry_run |}, st)
  end).

Record ExecutionResult := {
  xr_block : Block Transaction;
  xr_skipped : list (TxId * ExecutorError);
  xr_tx_status : list Status;
  xr_events : list ExecutorEvent;
}.

Definition produce_without_commit {P} `{!ProductionPorts P} (i : ExecutionInstance) (fuel : nat) (c : Components P) (dry_run : bool) :
    option (P * result (ExecutionResult * Changes) ExecutorError) :=
  match into_executor i (consensus_parameters_version (p_application (header_to_produce c))) dry_run with
  | Err e => Some (transactions_source c, Err e)
  | Ok (ex, st) =>
      pr ← execute ex fuel c st;
      let '(p, r) := pr in
      Some (p, result_bind r (λ '(partial, d, ch),
        result_bind (header_error (generate_block partial (message_ids d) (xevent_inbox_root d))) (λ block,
        Ok ({| xr_block := block; xr_skipped := skipped_transactions d; xr_tx_status := xtx_status d; xr_events := xevents d |}, ch))))
  end.

Definition validate_without_commit (i : ExecutionInstance) (block : Block Transaction) :
    result (list Status * list ExecutorEvent * Changes) ExecutorError :=
  result_bind (into_executor i (consensus_parameters_version (application (header block))) false) (λ '(ex, st),
  result_bind (validate_block ex block st) (λ '(d, ch), Ok (xtx_status d, xevents d, ch))).
End executor.

(** ** Ports *)

(** [OnceTransactionsSource], [TimeoutOnlyTxWaiter] and [TransparentPreconfirmationSender]. *)
#[global] Instance once_ports `{!FuelVm} : ProductionPorts (list MaybeCheckedTransaction) := {
  next_transactions _ count _ l := (take (Z.to_nat count) l, drop (Z.to_nat count) l);
  wait_for_new_transactions l := (Timeout, l);
  try_send _ l := ([], l);
  send _ l := l;
}.
