(* ===== verification/ExecutorMonad.v ===== *)
(** * Reasoning about executions of transactions

    Computations of the executor: what they return and leave behind, that they do not depend
    on events and skipped transactions, and what a failed one can have changed. *)

From stdpp Require Import prelude gmap list strings.
From Stdlib Require Import ZArith Lia.
From S2P Require Import Prelude.
From S2P Require Import StorageTx.
From S2P Require Import HistoricalDb.
From S2P Require Import Database.
From S2P Require Import Blocks.
From S2P Require Import Tables.
From S2P Require Import BlockStore.
From S2P Require Import ExecTypes.
From S2P Require Import VmStorage.
From S2P Require Import Executor.
Local Open Scope Z_scope.

Section facts.
Context {Signature : Type} `{FV : FuelVm} `{!ChainCrypto Transaction Signature}.
Context `{!BlockCodecs Transaction Signature} `{SC : StateCodecs} `{MT : MerkleTree}.
Context `{!HashOrder Z} `{!HashOrder Key}.
Context {D : Type} `{!KeyValueInspect D}.

Abbreviation Data := (ExecutionData Receipt ProgramState).
Abbreviation X := (@X _ D).
Abbreviation XState := (@XState _ D).
Implicit Types (s : XState) (d : Data).

(** ** Results *)

Lemma x_bind_inv {A B} (m : X A) (f : A → X B) s s' r :
  (m ≫= f) s = (s', r) →
  (∃ a s1, m s = (s1, Ok a) ∧ f a s1 = (s', r)) ∨ (∃ e, m s = (s', Err e) ∧ r = Err e).
Proof. unfold mbind, x_bind. destruct (m s) as [s1 [a|e]]; intros H; simplify_eq; eauto 6. Qed.

Lemma x_bind_ok {A B} (m : X A) (f : A → X B) s s' b :
  (m ≫= f) s = (s', Ok b) ↔ ∃ a s1, m s = (s1, Ok a) ∧ f a s1 = (s', Ok b).
Proof.
  split; [intros [?|(e & _ & ?)]%x_bind_inv; [done|done]|].
  intros (a & s1 & Hm & Hf). unfold mbind, x_bind. by rewrite Hm.
Qed.

Lemma x_bind_eq {A B} (m : X A) (f : A → X B) s s1 a : m s = (s1, Ok a) → (m ≫= f) s = f a s1.
Proof. intros Hm. unfold mbind, x_bind. by rewrite Hm. Qed.

Lemma require_bind {B} b e (f : unit → X B) s : (require b e ≫= f) s = if b then f () s else (s, Err e).
Proof. by destruct b. Qed.
Lemma lift_bind {A B} (r : result A ExecutorError) (f : A → X B) s :
  (lift r ≫= f) s = match r with Ok a => f a s | Err e => (s, Err e) end.
Proof. by destruct r. Qed.
Lemma get_data_bind {B} (f : Data → X B) s : (get_data ≫= f) s = f (xdata s) s.
Proof. done. Qed.
Lemma get_storage_bind {B} (f : _ → X B) s : (get_storage ≫= f) s = f (xstorage s) s.
Proof. done. Qed.
Lemma set_data_bind {B} g (f : unit → X B) s :
  (set_data g ≫= f) s = f () {| xdata := g (xdata s); xstorage := xstorage s |}.
Proof. done. Qed.
Lemma ret_bind {A B} (a : A) (f : A → X B) s : ((mret a : X A) ≫= f) s = f a s.
Proof. done. Qed.

(** ** What a computation leaves behind *)

(** Whatever the result, the states are related. *)
Definition leaves {A} (R : XState → XState → Prop) (m : X A) : Prop := ∀ s, R s (m s).1.

Section leaves.
Context (R : XState → XState → Prop) `{!PreOrder R}.

Lemma leaves_ret {A} (a : A) : leaves R (mret a).
Proof using Type*. intros s. done. Qed.
Lemma leaves_fail {A} e : leaves R (fail (A := A) e).
Proof using Type*. intros s. done. Qed.
Lemma leaves_lift {A} (r : result A ExecutorError) : leaves R (lift r).
Proof using Type*. intros s. done. Qed.
Lemma leaves_get_data : leaves R get_data.
Proof using Type*. intros s. done. Qed.
Lemma leaves_get_storage : leaves R get_storage.
Proof using Type*. intros s. done. Qed.
Lemma leaves_require b e : leaves R (require b e).
Proof using Type*. intros s. by destruct b. Qed.
Lemma leaves_bind {A B} (m : X A) (f : A → X B) : leaves R m → (∀ a, leaves R (f a)) → leaves R (m ≫= f).
Proof using Type*.
  intros Hm Hf s. unfold mbind, x_bind. specialize (Hm s). destruct (m s) as [s1 [a|e]]; [|done].
  simpl in *. etrans; [exact Hm|]. apply Hf.
Qed.
Lemma leaves_for {A} (f : A → X unit) l : (∀ a, leaves R (f a)) → leaves R (x_for f l).
Proof using Type*.
  intros Hf. induction l as [|a l IH]; [apply leaves_ret|]. apply leaves_bind; [apply Hf|]. by intros _.
Qed.
End leaves.

(** ** The accounting of a block *)

(** Execution data that differ at most in events and skipped transactions. *)
Record agree d d' : Prop := {
  ag_coinbase : coinbase d = coinbase d';
  ag_gas : used_gas d = used_gas d';
  ag_size : used_size d = used_size d';
  ag_count : xtx_count d = xtx_count d';
  ag_mint : found_mint d = found_mint d';
  ag_ids : message_ids d = message_ids d';
  ag_status : xtx_status d = xtx_status d';
  ag_root : xevent_inbox_root d = xevent_inbox_root d';
}.

#[global] Instance agree_equiv : Equivalence agree.
Proof.
  split.
  - intros d. by split.
  - intros d d' []. by split.
  - intros d1 d2 d3 [] []. split; congruence.
Qed.

Definition agree_data (s s' : XState) : Prop := agree (xdata s) (xdata s').

#[global] Instance agree_data_preorder : PreOrder agree_data.
Proof. split; [intros s; by red|]. intros s1 s2 s3. unfold agree_data. by intros ->. Qed.

Lemma agree_push_event d d' ev ev' : agree d d' → agree (push_event ev d) (push_event ev' d').
Proof. intros []. by split. Qed.
Lemma agree_push_event_l d ev : agree d (push_event ev d).
Proof. by split. Qed.
Lemma agree_push_skipped d x : agree d (push_skipped x d).
Proof. by split. Qed.

Lemma leaves_event ev : leaves agree_data (set_data (push_event ev)).
Proof. intros s. apply agree_push_event_l. Qed.
Lemma leaves_access {A} (f : _ → _ * result A StorageError) : leaves agree_data (access f).
Proof. intros s. unfold access. by destruct (f (xstorage s)). Qed.

(** ** Independence of events and skipped transactions *)

Definition same_but_events (s s' : XState) : Prop := agree_data s s' ∧ xstorage s = xstorage s'.

Definition indep {A} (m : X A) : Prop := ∀ s s',
  same_but_events s s' → same_but_events (m s).1 (m s').1 ∧ (m s).2 = (m s').2.

Lemma indep_ret {A} (a : A) : indep (mret a).
Proof. by intros s s' Hs. Qed.
Lemma indep_fail {A} e : indep (fail (A := A) e).
Proof. by intros s s' Hs. Qed.
Lemma indep_lift {A} (r : result A ExecutorError) : indep (lift r).
Proof. by intros s s' Hs. Qed.
Lemma indep_require b e : indep (require b e).
Proof. destruct b; [apply indep_ret|apply indep_fail]. Qed.

Lemma indep_bind_at {A B} (m : X A) (f f' : A → X B) s s' :
  same_but_events (m s).1 (m s').1 ∧ (m s).2 = (m s').2 →
  (∀ a s s', same_but_events s s' → same_but_events (f a s).1 (f' a s').1 ∧ (f a s).2 = (f' a s').2) →
  same_but_events ((m ≫= f) s).1 ((m ≫= f') s').1 ∧ ((m ≫= f) s).2 = ((m ≫= f') s').2.
Proof.
  intros [H1 H2] Hf. unfold mbind, x_bind. destruct (m s) as [s1 [a|e]], (m s') as [s1' [a'|e']]; simpl in *;
    simplify_eq; [by apply Hf|done].
Qed.

Lemma indep_bind {A B} (m : X A) (f : A → X B) : indep m → (∀ a, indep (f a)) → indep (m ≫= f).
Proof. intros Hm Hf s s' Hs. apply indep_bind_at; [by apply Hm|]. intros a. apply Hf. Qed.

(** The rest sees the accounting only. *)
Lemma indep_get_data {B} (f : Data → X B) :
  (∀ d, indep (f d)) → (∀ d d' s, agree d d' → f d s = f d' s) → indep (get_data ≫= f).
Proof.
  intros Hf Hag s s' Hs. unfold mbind, x_bind, get_data. simpl.
  rewrite (Hag (xdata s) (xdata s')) by apply Hs. by apply Hf.
Qed.

Lemma indep_get_storage {B} (f : _ → X B) : (∀ t, indep (f t)) → indep (get_storage ≫= f).
Proof. intros Hf s s' Hs. unfold mbind, x_bind, get_storage. rewrite (proj2 Hs). by apply Hf. Qed.

Lemma indep_set (f : Data → Data) : (∀ d d', agree d d' → agree (f d) (f d')) → indep (set_data f).
Proof. intros Hf s s' [Ha Hs]. split; [|done]. split; [by apply Hf|done]. Qed.

Lemma indep_access {A} (f : _ → _ * result A StorageError) : indep (access f).
Proof.
  intros s s' [Ha Hs]. unfold access. rewrite Hs. destruct (f (xstorage s')). done.
Qed.

Lemma indep_for {A} (f : A → X unit) l : (∀ a, indep (f a)) → indep (x_for f l).
Proof. intros Hf. induction l as [|a l IH]; [apply indep_ret|]. apply indep_bind; [apply Hf|by intros _]. Qed.
End facts.

Create HintDb exec.
#[export] Hint Resolve leaves_ret leaves_fail leaves_lift leaves_get_data leaves_get_storage leaves_require
  leaves_bind leaves_for leaves_event leaves_access : exec.
#[export] Hint Resolve indep_ret indep_fail indep_lift indep_require indep_bind indep_get_storage indep_access
  indep_for : exec.

Section operations.
Context {Signature : Type} `{FV : FuelVm} `{!ChainCrypto Transaction Signature}.
Context `{!BlockCodecs Transaction Signature} `{SC : StateCodecs} `{MT : MerkleTree}.
Context `{!HashOrder Z} `{!HashOrder Key}.
Context {D : Type} `{!KeyValueInspect D}.
Context (ex : BlockExecutor).
Abbreviation X := (@X _ D).
Abbreviation XState := (@XState _ D).
Implicit Types s : XState.
Abbreviation quiet := (leaves agree_data).

(** ** Operations that change events only *)

Lemma insert_coin_quiet h id amount asset to : quiet (insert_coin h id amount asset to).
Proof. unfold insert_coin. case_decide; eauto 10 with exec typeclass_instances. Qed.

Lemma persist_outputs_quiet h id ins outs : quiet (persist_output_utxos h id ins outs).
Proof.
  apply leaves_bind; [apply _|auto with exec typeclass_instances|]. intros d. apply leaves_for; [apply _|]. intros [i o].
  apply leaves_bind; [apply _|auto with exec typeclass_instances|]. intros _.
  destruct o; try apply insert_coin_quiet; try apply leaves_access.
  destruct (nth_input _ _) as [[]|]; auto with exec typeclass_instances.
Qed.

Lemma spend_coin_quiet c : quiet (spend_coin ex c).
Proof. unfold spend_coin. eauto 10 with exec typeclass_instances. Qed.
Lemma spend_message_quiet m : quiet (spend_message m).
Proof. unfold spend_message. eauto 10 with exec typeclass_instances. Qed.

Lemma spend_inputs_quiet ins reverted : quiet (spend_input_utxos ex ins reverted).
Proof.
  apply leaves_for; [apply _|]. intros [c|c ?|c|m|m ?|m ?|m ? ?]; try apply spend_coin_quiet; try apply spend_message_quiet;
    simpl; try destruct reverted; try apply spend_message_quiet; auto with exec typeclass_instances.
Qed.

Lemma attempt_quiet c hd cb price : quiet (attempt_tx_execution_with_vm ex c hd cb price).
Proof.
  unfold attempt_tx_execution_with_vm. apply leaves_bind; [apply _|auto with exec typeclass_instances|]. intros t.
  apply leaves_bind; [apply _|auto with exec typeclass_instances|]. intros ready.
  destruct (run_recorded _ _ _ _) as [[ch reads] outcome]. apply leaves_bind; [apply _|auto with exec typeclass_instances|].
  intros r. destruct (if is_dry_run ex then _ else _) as [reverted receipts].
  apply leaves_bind; [apply _|auto with exec typeclass_instances|]. intros ins.
  apply leaves_bind; [apply _|auto with exec typeclass_instances|]. intros [before after].
  apply leaves_bind; [apply _|auto with exec typeclass_instances|]. intros ins'.
  apply leaves_bind; [apply _|destruct reverted; [auto with exec typeclass_instances|apply leaves_access]|]. intros _.
  eauto with exec typeclass_instances.
Qed.

(** ** What a failed transaction leaves behind *)

(** Errors after which the fee of a failed transaction stays in the execution data. *)
Definition overflow (e : ExecutorError) : Prop :=
  e = TxSizeOverflow ∨ ∃ a b, e = GasOverflow "Execution used gas overflowed." a b.

#[global] Instance overflow_dec e : Decision (overflow e).
Proof.
  destruct e as [| | | | |reason a b| | | | | | | | | | | | | | | | | | | | | | | | |];
    try (by right; intros [?|(? & ? & ?)]); [|by left; left].
  destruct (decide (reason = "Execution used gas overflowed.")) as [->|]; [left; right; by eauto|].
  right. intros [?|(? & ? & ?)]; congruence.
Defined.

Lemma leaves_eq {A} (m : X A) s s' r : quiet m → m s = (s', r) → agree_data s s'.
Proof. intros Hm He. specialize (Hm s). by rewrite He in Hm. Qed.

(** The lists of a block are the same. *)
Record same_lists (d d' : ExecutionData Receipt ProgramState) : Prop := {
  sl_count : xtx_count d = xtx_count d';
  sl_mint : found_mint d = found_mint d';
  sl_ids : message_ids d = message_ids d';
  sl_status : xtx_status d = xtx_status d';
  sl_root : xevent_inbox_root d = xevent_inbox_root d';
}.

(** What a failed transaction can have changed. *)
Definition spent e (s s' : XState) : Prop := same_lists (xdata s) (xdata s') ∧ (¬ overflow e → agree_data s s').

Lemma agree_spent e (s s' : XState) : agree_data s s' → spent e s s'.
Proof. intros Ha. split; [|done]. destruct Ha. by split. Qed.

Lemma spent_trans e (s1 s2 s3 : XState) : agree_data s1 s2 → spent e s2 s3 → spent e s1 s3.
Proof.
  intros Ha [[] Hb]. split; [|intros Ho; etrans; [done|by apply Hb]]. destruct Ha. split; congruence.
Qed.

Lemma update_fails tx receipts price reverted state id s (s' : XState) e :
  update_execution_data ex tx receipts price reverted state id s = (s', Err e) → spent e s s'.
Proof.
  unfold update_execution_data. rewrite lift_bind. intros Hu.
  destruct (total_fee_paid _ _ _ _) as [[gas fee]|]; [|injection Hu as <- <-; by apply agree_spent].
  rewrite get_data_bind, require_bind in Hu. case_bool_decide; [|injection Hu as <- <-; by apply agree_spent].
  rewrite set_data_bind, require_bind in Hu.
  case_bool_decide; [|injection Hu as <- <-; split; [done|intros []; right; by eauto]].
  rewrite set_data_bind, require_bind in Hu.
  case_bool_decide; [|injection Hu as <- <-; split; [done|intros []; by left]].
  rewrite set_data_bind in Hu. by destruct reverted.
Qed.

Lemma chargeable_fails c hd cb price s (s' : XState) e :
  execute_chargeable_transaction ex c hd cb price s = (s', Err e) → spent e s s'.
Proof.
  unfold execute_chargeable_transaction. intros Hx.
  rewrite (x_bind_eq _ _ _ s (xstorage s)) in Hx by done.
  apply x_bind_inv in Hx as [(c' & s1 & H1 & Hx)|(e' & H1 & [= ->])].
  2: { eapply agree_spent, leaves_eq, H1. case_match; auto with exec typeclass_instances. }
  assert (agree_data s s1) as Hs1.
  { eapply leaves_eq, H1. case_match; auto with exec typeclass_instances. }
  eapply spent_trans; [done|]. clear Hs1 H1.
  apply x_bind_inv in Hx as [([[[reverted state] tx] receipts] & s2 & H2 & Hx)|(e' & H2 & [= ->])];
    [|eapply agree_spent, leaves_eq, H2; apply attempt_quiet].
  eapply spent_trans; [eapply leaves_eq, H2; apply attempt_quiet|]. clear H2.
  apply x_bind_inv in Hx as [([] & s3 & H3 & Hx)|(e' & H3 & [= ->])]; [|eapply agree_spent, leaves_eq, H3; apply spend_inputs_quiet].
  eapply spent_trans; [eapply leaves_eq, H3; apply spend_inputs_quiet|]. clear H3.
  apply x_bind_inv in Hx as [([] & s4 & H4 & Hx)|(e' & H4 & [= ->])]; [|eapply agree_spent, leaves_eq, H4; apply persist_outputs_quiet].
  eapply spent_trans; [eapply leaves_eq, H4; apply persist_outputs_quiet|]. clear H4.
  apply x_bind_inv in Hx as [([] & s5 & H5 & Hx)|(e' & H5 & [= ->])]; [|eapply agree_spent, leaves_eq, H5; apply leaves_access].
  eapply spent_trans; [eapply leaves_eq, H5; apply leaves_access|]. clear H5.
  apply x_bind_inv in Hx as [([] & s6 & H6 & Hx)|(e' & H6 & [= ->])]; [done|by eapply update_fails].
Qed.

(** ** Independence *)

Lemma insert_coin_indep h id amount asset to : indep (insert_coin (D := D) h id amount asset to).
Proof.
  unfold insert_coin. case_decide; [|auto with exec]. apply indep_get_data.
  - intros d. apply indep_bind; [auto with exec|]. intros prev. apply indep_bind; [auto with exec|]. intros _.
    apply indep_set. intros. by apply agree_push_event.
  - intros d d' s Ha. by rewrite (ag_count _ _ Ha).
Qed.

Lemma persist_outputs_indep h id ins outs : indep (persist_output_utxos (D := D) h id ins outs).
Proof.
  apply indep_get_data; [|intros d d' s Ha; by rewrite (ag_count _ _ Ha)].
  intros d. apply indep_for. intros [i o]. apply indep_bind; [auto with exec|]. intros _.
  destruct o; try apply insert_coin_indep; try apply indep_access.
  destruct (nth_input _ _) as [[]|]; auto with exec.
Qed.

Lemma event_indep ev : indep (D := D) (set_data (push_event ev)).
Proof. apply indep_set. intros. by apply agree_push_event. Qed.

Lemma spend_inputs_indep ins reverted : indep (D := D) (spend_input_utxos ex ins reverted).
Proof.
  assert (∀ c, indep (D := D) (spend_coin ex c)) as Hc.
  { intros c. unfold spend_coin. eauto using event_indep with exec. }
  assert (∀ m, indep (D := D) (spend_message m)) as Hm.
  { intros m. unfold spend_message. eauto using event_indep with exec. }
  apply indep_for. intros []; simpl; try destruct reverted; auto with exec.
Qed.

Lemma attempt_indep c hd cb price : indep (D := D) (attempt_tx_execution_with_vm ex c hd cb price).
Proof.
  unfold attempt_tx_execution_with_vm. apply indep_get_storage. intros t. apply indep_bind; [auto with exec|]. intros ready.
  destruct (run_recorded _ _ _ _) as [[ch reads] outcome]. apply indep_bind; [auto with exec|]. intros r.
  destruct (if is_dry_run ex then _ else _) as [reverted receipts].
  apply indep_bind; [auto with exec|]. intros ins. apply indep_bind; [auto with exec|]. intros [before after].
  apply indep_bind; [auto with exec|]. intros ins'.
  apply indep_bind; [destruct reverted; [auto with exec|apply indep_access]|]. intros _. eauto with exec.
Qed.

Lemma update_indep tx receipts price reverted state id :
  indep (D := D) (update_execution_data ex tx receipts price reverted state id).
Proof.
  unfold update_execution_data. apply indep_bind; [auto with exec|]. intros [gas fee]. apply indep_get_data.
  - intros d. repeat (apply indep_bind; [|intros _]); auto with exec; try destruct reverted; auto with exec;
      apply indep_set; intros d1 d2 Ha; destruct Ha; split; simpl; congruence.
  - intros d d' s Ha. by rewrite (ag_coinbase _ _ Ha), (ag_gas _ _ Ha), (ag_size _ _ Ha).
Qed.

Lemma execute_chargeable_indep c hd cb price : indep (D := D) (execute_chargeable_transaction ex c hd cb price).
Proof.
  unfold execute_chargeable_transaction. apply indep_get_storage. intros t.
  apply indep_bind; [case_match; auto with exec|]. intros c'.
  apply indep_bind; [apply attempt_indep|]. intros [[[reverted state] tx] receipts].
  apply indep_bind; [apply spend_inputs_indep|]. intros _.
  apply indep_bind; [apply persist_outputs_indep|]. intros _.
  apply indep_bind; [apply indep_access|]. intros _.
  apply indep_bind; [apply update_indep|]. intros _. auto with exec.
Qed.

Lemma mint_vm_indep hd cb id m i : indep (D := D) (execute_mint_with_vm ex hd cb id m i).
Proof.
  unfold execute_mint_with_vm. apply indep_get_storage. intros t.
  destruct (run_recorded _ _ _ _) as [[ch reads] outcome]. apply indep_bind; [auto with exec|]. intros _.
  apply indep_bind; [auto with exec|]. intros [before after]. apply indep_bind; [auto with exec|]. intros ins.
  apply indep_bind; [apply indep_access|]. intros _. apply indep_bind; [apply persist_outputs_indep|]. intros _.
  apply indep_bind; [auto with exec|]. intros outs. repeat case_match; auto with exec.
Qed.

Lemma execute_mint_indep c hd cb price : indep (D := D) (execute_mint ex c hd cb price).
Proof.
  unfold execute_mint. apply indep_bind; [apply indep_set; intros d d' []; by split|]. intros _.
  apply indep_get_data.
  - intros d. apply indep_bind; [auto with exec|]. intros _. apply indep_bind; [auto with exec|]. intros _.
    apply indep_bind.
    + case_decide; [eauto with exec|]. apply indep_bind; [auto with exec|]. intros _. apply indep_get_storage. intros t.
      apply indep_bind; [case_match; auto with exec|]. intros _. apply indep_bind; [apply mint_vm_indep|]. auto with exec.
    + intros m. apply indep_bind.
      * apply indep_set. intros d1 d2 []. split; simpl; congruence.
      * intros _. apply indep_bind; [apply indep_access|]. eauto with exec.
  - intros d d' s Ha. by rewrite (ag_count _ _ Ha), (ag_coinbase _ _ Ha).
Qed.

Lemma execute_transaction_indep tx id hd cb price : indep (D := D) (execute_transaction ex tx id hd cb price).
Proof.
  unfold execute_transaction. apply indep_get_data; [|intros d d' s Ha; by rewrite (ag_mint _ _ Ha)].
  intros d. apply indep_bind; [auto with exec|]. intros _. apply indep_get_storage. intros t.
  apply indep_bind; [auto with exec|]. intros processed. apply indep_bind; [auto with exec|]. intros _.
  apply indep_bind; [auto with exec|]. intros []; [apply execute_mint_indep|apply execute_chargeable_indep].
Qed.
End operations.

(** * What the executor relies on

    The part of a transaction that its signers fix, and the documented behaviour of fuel-tx and
    fuel-vm the theorems about the executor use: identifiers, checks and the virtual machine
    depend on that part only, the virtual machine keeps it, and stored blobs stay. *)

(** ** Malleable fields *)

Definition no_pointer : TxPointer := {| block_height := 0; tx_index := 0 |}.

Definition strip_contract_out (c : ContractOut) : ContractOut :=
  {| input_index := input_index c; co_balance_root := zeroed; co_state_root := zeroed |}.

(** Where a coin comes from and the state of a contract are filled in by the executor. *)
Definition strip_input (i : Input) : Input :=
  match i with
  | CoinSigned c => CoinSigned (with_coin_pointer no_pointer c)
  | CoinPredicate c gas => CoinPredicate (with_coin_pointer no_pointer c) gas
  | InputContract c => InputContract (empty_contract_input (ci_contract_id c))
  | _ => i
  end.

(** The amount of change and variable outputs are filled in by the virtual machine. *)
Definition strip_output (o : Output) : Output :=
  match o with
  | OutputContract c => OutputContract (strip_contract_out c)
  | OutputChange to _ asset => OutputChange to 0 asset
  | OutputVariable _ _ _ => OutputVariable zeroed 0 zeroed
  | _ => o
  end.

Definition strip (t : Chargeable) : Chargeable :=
  {| kind := kind t; inputs := strip_input <$> inputs t; outputs := strip_output <$> outputs t; body := body t |}.

Definition strip_tx (tx : Transaction) : Transaction :=
  match tx with
  | TxMint m => TxMint (with_contracts (empty_contract_input (ci_contract_id (input_contract m)))
                          (strip_contract_out (output_contract m)) m)
  | TxChargeable t => TxChargeable (strip t)
  end.

(** The gas of predicates is zeroed by the virtual machine too. *)
Definition no_gas (i : Input) : Input :=
  match i with
  | CoinPredicate c _ => CoinPredicate c 0
  | MessageCoinPredicate m _ => MessageCoinPredicate m 0
  | MessageDataPredicate m data _ => MessageDataPredicate m data 0
  | _ => i
  end.

Definition strip_gas (t : Chargeable) : Chargeable := with_inputs (no_gas <$> inputs (strip t)) (strip t).

(** ** The laws *)

(** All results of a program. *)
Fixpoint vm_returns {Params A} (Φ : A → Prop) (p : VmProg Params A) : Prop :=
  match p with
  | VmRet a => Φ a
  | VmCall e k => ∀ x, vm_returns Φ (k x)
  end.

Definition with_predicates (c : Checked Chargeable) : Checked Chargeable :=
  Build_Checked (ck_tx c) (ck_id c) (ck_max_gas c) true (ck_signatures c).
Definition with_signatures (c : Checked Chargeable) : Checked Chargeable :=
  Build_Checked (ck_tx c) (ck_id c) (ck_max_gas c) (ck_predicates c) true.

Definition checked_id (c : CheckedTransaction) : TxId :=
  match c with CheckedMint m => ck_id m | CheckedChargeable t => ck_id t end.

Section laws.
Context {Signature : Type} `{FV : FuelVm} `{!ChainCrypto Transaction Signature}.
Context `{!BlockCodecs Transaction Signature}.

(** A transaction as the basic checks leave it. *)
Definition is_fresh (p : ConsensusParameters) (tx : Transaction) (c : CheckedTransaction) : Prop :=
  match tx, c with
  | TxMint m, CheckedMint k => ck_tx k = m ∧ ck_id k = tx_id (params_chain_id p) tx
  | TxChargeable t, CheckedChargeable k =>
      k = Build_Checked t (tx_id (params_chain_id p) tx) (max_gas p t) false false
  | _, _ => False
  end.

(** Stored blobs stay as they are. *)
Definition blobs_kept (v v' : View.t) : Prop :=
  ∀ id b, v id BLOBS_COLUMN = Ok (Some b) → v' id BLOBS_COLUMN = Ok (Some b).

Class FuelVmLaws : Prop := {
  basic_result h p tx c : into_checked_basic h p tx = Ok c → is_fresh p tx c;
  basic_strip h p tx tx' :
    strip_tx tx = strip_tx tx' → is_ok (into_checked_basic h p tx) = is_ok (into_checked_basic h p tx');
  basic_later h0 h p t :
    h0 ≤ h ≤ expiration t → is_ok (into_checked_basic h0 p (TxChargeable t)) = true →
    is_ok (into_checked_basic h p (TxChargeable t)) = true;
  reusable_result h p v tx c :
    into_checked_reusable_memory h p v tx = Ok c → unchecked c = tx ∧ checked_id c = tx_id (params_chain_id p) tx;
  tx_id_strip chain tx tx' : strip_tx tx = strip_tx tx' → tx_id chain tx = tx_id chain tx';
  predicates_result p sys v c c' : check_predicates p sys v c = Ok c' → c' = with_predicates c;
  predicates_checked p sys v c : ck_predicates c = true → check_predicates p sys v c = Ok c;
  predicates_strip p sys v c c' :
    strip (ck_tx c) = strip (ck_tx c') → ck_predicates c = ck_predicates c' →
    is_ok (check_predicates p sys v c) = is_ok (check_predicates p sys v c');
  signatures_result chain c c' : check_signatures chain c = Ok c' → c' = with_signatures c;
  signatures_checked chain c : ck_signatures c = true → check_signatures chain c = Ok c;
  signatures_strip chain c c' :
    strip (ck_tx c) = strip (ck_tx c') → ck_signatures c = ck_signatures c' →
    is_ok (check_signatures chain c) = is_ok (check_signatures chain c');
  ready_strip p price h c c' r :
    strip (ck_tx c) = strip (ck_tx c') → into_ready p price h c = Ok r →
    ∃ r', into_ready p price h c' = Ok r' ∧ ∀ sys dry, transact p price sys dry r = transact p price sys dry r';
  transact_keeps p price h c r sys dry :
    into_ready p price h c = Ok r →
    vm_returns (λ o, ∀ res, o = Ok res → strip_gas (vm_tx res) = strip_gas (ck_tx c)) (transact p price sys dry r);
  transact_gas p price h c r sys dry :
    into_ready p price h c = Ok r →
    vm_returns (λ o, ∀ res, o = Ok res → 0 ≤ script_gas (vm_receipts res) ≤ max_gas p (ck_tx c) - min_gas p (ck_tx c))
      (transact p price sys dry r);
  min_gas_nonneg p t : 0 ≤ min_gas p t;
  min_gas_strip p t t' : strip t = strip t' → min_gas p t = min_gas p t';
  transact_blobs {S} `{!KeyValueInspect S} vm p price sys dry r (t t' : InMemoryTransaction S) reads reads' o :
    vm_run ser_consensus_parameters de_consensus_parameters vm (transact p price sys dry r) t reads = (t', reads', o) →
    blobs_kept (view_of t) (view_of t');
}.

(** What the source promises of a checked transaction: it was checked with these parameters,
    at a height that is not above that of the block, and the checks it is marked with were made;
    the predicates see nothing of the storage but blobs, which the database had. *)
Record honest_check (p : ConsensusParameters) (sys : bool) (h : Z) (db : View.t) (c : Checked Chargeable) : Prop := {
  hc_id : ck_id c = tx_id (params_chain_id p) (TxChargeable (ck_tx c));
  hc_basic : ∃ h0, h0 ≤ h ∧ is_ok (into_checked_basic h0 p (TxChargeable (ck_tx c))) = true;
  hc_gas : ck_max_gas c = max_gas p (ck_tx c);
  hc_predicates v :
    ck_predicates c = true → blobs_kept db v →
    is_ok (check_predicates p sys v (Build_Checked (ck_tx c) (ck_id c) (ck_max_gas c) false (ck_signatures c))) = true;
  hc_signatures :
    ck_signatures c = true →
    is_ok (check_signatures (params_chain_id p)
      (Build_Checked (ck_tx c) (ck_id c) (ck_max_gas c) (ck_predicates c) false)) = true;
}.

(** Checked transactions of other versions are checked again. *)
Definition honest (p : ConsensusParameters) (sys : bool) (h version : Z) (db : View.t) (tx : MaybeCheckedTransaction) : Prop :=
  match tx with
  | MaybeChecked (CheckedChargeable c) v =>
      ck_id c = tx_id (params_chain_id p) (TxChargeable (ck_tx c)) ∧ (v = version → honest_check p sys h db c)
  | _ => True
  end.
End laws.
Arguments FuelVmLaws Signature {FV ChainCrypto0 BlockCodecs0}.

(** ** Stripped transactions *)

Lemma strip_predicate_gas i i' : strip_input i = strip_input i' → predicate_gas_used i = predicate_gas_used i'.
Proof. destruct i, i'; simpl; congruence. Qed.

Lemma strip_inputs_gas (l l' : list Input) :
  strip_input <$> l = strip_input <$> l' → predicate_gas_used <$> l = predicate_gas_used <$> l'.
Proof.
  revert l'. induction l as [|i l IH]; intros [|i' l']; simpl; [done..|]. intros [= Hi Hl].
  f_equal; [by apply strip_predicate_gas|by apply IH].
Qed.

(** The gas of the predicates is put back. *)
Lemma restore_gas id (l0 l l' : list Input) :
  no_gas <$> (strip_input <$> l) = no_gas <$> (strip_input <$> l0) →
  update_input_used_gas (predicate_gas_used <$> l0) id l = Ok l' → strip_input <$> l' = strip_input <$> l0.
Proof.
  revert l l'. induction l0 as [|i0 l0 IH]; intros [|i l] l'; [by intros _ [= <-]|done|done|].
  cbn [fmap list_fmap update_input_used_gas]. intros [= Hi Hl].
  intros Hu. apply result_bind_ok in Hu as (i' & Hi' & (l1 & Hl1 & [= <-])%result_bind_ok).
  cbn [fmap list_fmap]. f_equal; [|by eapply IH]. clear -Hi Hi'.
  destruct i0, i; simpl in *; try done; injection Hi' as <-; simpl; unfold with_coin_pointer in *; congruence.
Qed.
