(* ===== verification/ExecutorReplay.v ===== *)
(** * Executing a transaction again

    A transaction as the executor returns it, executed again in the same state, gives the same
    transaction, data and storage. *)

From stdpp Require Import prelude gmap list strings.
From Stdlib Require Import ZArith Lia.
From S2P Require Import Prelude.
From S2P Require Import StorageTx.
From S2P Require Import HistoricalDb.
From S2P Require Import Database.
From S2P Require Import Tables.
From S2P Require Import Blocks.
From S2P Require Import BlockStore.
From S2P Require Import ExecTypes.
From S2P Require Import VmStorage.
From S2P Require Import Executor.
From S2P Require Import ExecutorMonad.
Local Open Scope Z_scope.

Section replay.
Context {Signature : Type} `{FV : FuelVm} `{!ChainCrypto Transaction Signature}.
Context `{!BlockCodecs Transaction Signature} `{SC : StateCodecs} `{MT : MerkleTree}.
Context `{!HashOrder Z} `{!HashOrder Key} `{!FuelVmLaws Signature}.
Context {D : Type} `{!KeyValueInspect D}.
Context (ex : BlockExecutor).
Abbreviation X := (@X _ D).
Abbreviation XState := (@XState _ D).
Abbreviation params := (consensus_params ex).
Abbreviation chain := (params_chain_id (consensus_params ex)).
Implicit Types (s : XState) (c : Checked Chargeable).

(** ** Inputs and outputs *)

Lemma mapped_fold {A B E} (f : A → result B E) l acc l' :
  try_fold (λ l a, result_bind (f a) (λ b, Ok (l ++ [b]))) acc l = Ok l' →
  ∃ l1, l' = acc ++ l1 ∧ Forall2 (λ a b, f a = Ok b) l l1.
Proof.
  revert acc. induction l as [|a l IH]; intros acc; simpl; [intros [= <-]; exists []; by rewrite app_nil_r|].
  intros Hf. apply result_bind_ok in Hf as (acc' & (b & Hb & [= <-])%result_bind_ok & (l1 & -> & Hl)%IH).
  exists (b :: l1). rewrite <- app_assoc. split; [done|by constructor].
Qed.

Lemma mapped_strip {A E} (f : A → result A E) (g : A → A) l l' :
  (∀ a b, f a = Ok b → g b = g a) →
  try_fold (λ l a, result_bind (f a) (λ b, Ok (l ++ [b]))) [] l = Ok l' → g <$> l' = g <$> l.
Proof.
  intros Hg (l1 & -> & Hl)%mapped_fold. simpl. induction Hl as [|a b l l1 Hab _ IH]; [done|].
  cbn [fmap list_fmap]. f_equal; [by apply Hg|done].
Qed.

Lemma compute_inputs_strip l (t : InMemoryTransaction (InMemoryTransaction D)) record l' :
  compute_inputs ex l t record = Ok l' → strip_input <$> l' = strip_input <$> l.
Proof.
  apply mapped_strip. intros i i' Hi. destruct i; simpl in Hi; result_inv; by subst.
Qed.

Lemma compute_outputs_strip id l outs record outs' :
  compute_state_of_not_utxo_outputs id l outs record = Ok outs' → strip_output <$> outs' = strip_output <$> outs.
Proof.
  apply mapped_strip. intros o o' Ho. destruct o; simpl in Ho; repeat case_match; result_inv; by subst.
Qed.

Lemma verify_input_strip (t : InMemoryTransaction (InMemoryTransaction D)) h i i' :
  strip_input i = strip_input i' → verify_input t h i = verify_input t h i'.
Proof.
  intros Hs. destruct i as [[]|[] ?|[]| | | |], i' as [[]|[] ?|[]| | | |]; simpl in Hs; try discriminate Hs;
    by simplify_eq/=.
Qed.

Lemma verify_inputs_strip (t : InMemoryTransaction (InMemoryTransaction D)) l l' h :
  strip_input <$> l = strip_input <$> l' →
  verify_inputs_exist_and_values_match t l h = verify_inputs_exist_and_values_match t l' h.
Proof.
  unfold verify_inputs_exist_and_values_match. generalize (). revert l'.
  induction l as [|i l IH]; intros [|i' l'] u; simpl; [done..|].
  intros [= Hi Hl]. rewrite (verify_input_strip t h i i') by done. destruct (verify_input _ _ _); [by apply IH|done].
Qed.

(** ** The virtual machine *)

Lemma vm_returns_run {S} `{!KeyValueInspect S} {A} (Φ : A → Prop) vm p (t : InMemoryTransaction S) reads :
  vm_returns Φ p → Φ (vm_run ser_consensus_parameters de_consensus_parameters vm p t reads).2.
Proof using Type*.
  revert t reads. induction p as [a|X e k IH]; intros t reads Hp; [done|].
  simpl. destruct (vm_call _ _ _ _ _ _) as [[t1 reads1] x]. by apply IH.
Qed.

(** What a successful execution went through. *)
Lemma attempt_inv c hd cb price s s' reverted state tx receipts :
  attempt_tx_execution_with_vm ex c hd cb price s = (s', Ok (reverted, state, tx, receipts)) →
  ∃ ready ch reads res ins before after ins' outs,
    into_ready params price (height (p_consensus hd)) c = Ok ready ∧
    run_recorded hd cb (transact params price (allow_syscall (options ex)) (is_dry_run ex) ready) (xstorage s) =
      (ch, reads, Ok res) ∧
    (reverted, receipts) = (if is_dry_run ex then dry_run_receipts res else (should_revert res, vm_receipts res)) ∧
    update_input_used_gas (predicate_gas_used <$> inputs (ck_tx c)) (ck_id c) (inputs (vm_tx res)) = Ok ins ∧
    finalize reads (xstorage s) ch = Ok (before, after) ∧
    compute_inputs ex ins (xstorage s) before = Ok ins' ∧
    s' = {| xdata := xdata s; xstorage := if reverted then xstorage s else (tx_commit_changes ch (xstorage s)).1 |} ∧
    compute_state_of_not_utxo_outputs (ck_id c) ins' (outputs (vm_tx res)) (if reverted then ∅ else after) = Ok outs ∧
    tx = with_outputs outs (with_inputs ins' (vm_tx res)) ∧ state = vm_state res.
Proof using Type*.
  unfold attempt_tx_execution_with_vm. rewrite get_storage_bind, lift_bind. intros Ha.
  destruct (into_ready _ _ _ _) as [ready|] eqn:Hready; [|done].
  destruct (run_recorded _ _ _ _) as [[ch reads] outcome] eqn:Hrun. rewrite lift_bind in Ha.
  destruct outcome as [res|]; [|done].
  destruct (if is_dry_run ex then dry_run_receipts res else _) as [rev rcs] eqn:Hrev. rewrite lift_bind in Ha.
  destruct (update_input_used_gas _ _ _) as [ins|] eqn:Hins; [|done]. rewrite lift_bind in Ha.
  destruct (finalize _ _ _) as [[before after]|] eqn:Hfin; [|done]. cbn [storage_error] in Ha. rewrite lift_bind in Ha.
  destruct (compute_inputs _ _ _ _) as [ins'|] eqn:Hci; [|done].
  apply x_bind_ok in Ha as (u & s1 & Hc & Ha). rewrite lift_bind in Ha.
  destruct (compute_state_of_not_utxo_outputs _ _ _ _) as [outs|] eqn:Ho; [|done]. injection Ha as <- <- <- <- <-.
  exists ready, ch, reads, res, ins, before, after, ins', outs. split_and!; try done.
  destruct rev; [by injection Hc as <-; destruct s|]. unfold commit_to_storage, access in Hc.
  destruct (tx_commit_changes _ _) as [t' r]. by injection Hc as <-.
Qed.

(** The executed transaction has the signed part of the given one. *)
Lemma attempt_strip c hd cb price s s' reverted state tx receipts :
  attempt_tx_execution_with_vm ex c hd cb price s = (s', Ok (reverted, state, tx, receipts)) →
  strip tx = strip (ck_tx c).
Proof using Type*.
  intros (ready & ch & reads & res & ins & before & after & ins' & outs & Hready & Hrun & _ & Hins & _ & Hci & _ & Ho & -> & _)%attempt_inv.
  assert (strip_gas (vm_tx res) = strip_gas (ck_tx c)) as Hk.
  { unfold run_recorded in Hrun.
    pose proof (vm_returns_run _ (VmStorage_new hd cb) _ (with_policy PolicyOverwrite (into_transaction (xstorage s))) ∅
      (transact_keeps _ _ _ _ _ (allow_syscall (options ex)) (is_dry_run ex) Hready)) as Hr.
    destruct (vm_run _ _ _ _ _ _) as [[sub reads1] o]. injection Hrun as <- <- ->. by apply Hr. }
  unfold strip_gas, strip, with_inputs in Hk. simpl in Hk. injection Hk as Hkind Hin Hout Hbody.
  unfold strip. simpl. f_equal; [done| |by rewrite (compute_outputs_strip _ _ _ _ _ Ho)|done].
  rewrite (compute_inputs_strip _ _ _ _ Hci). by eapply restore_gas.
Qed.

Lemma attempt_again c c' hd cb price s s' out :
  ck_id c = ck_id c' → strip (ck_tx c) = strip (ck_tx c') →
  attempt_tx_execution_with_vm ex c hd cb price s = (s', Ok out) →
  attempt_tx_execution_with_vm ex c' hd cb price s = (s', Ok out).
Proof using Type*.
  intros Hid Hs. unfold attempt_tx_execution_with_vm. rewrite !get_storage_bind, !lift_bind.
  destruct (into_ready params price _ c) as [ready|] eqn:Hready; [|done].
  destruct (ready_strip _ _ _ _ c' _ Hs Hready) as (ready' & -> & Htr). rewrite Htr, Hid.
  assert (predicate_gas_used <$> inputs (ck_tx c) = predicate_gas_used <$> inputs (ck_tx c')) as ->; [|done].
  apply strip_inputs_gas. by injection Hs.
Qed.

(** ** Chargeable transactions *)

(** The checks a transaction is marked with succeed. *)
Definition genuine (v : View.t) c : Prop :=
  (ck_predicates c = true →
   is_ok (check_predicates params (allow_syscall (options ex)) v
     (Build_Checked (ck_tx c) (ck_id c) (ck_max_gas c) false (ck_signatures c))) = true) ∧
  (ck_signatures c = true →
   is_ok (check_signatures chain (Build_Checked (ck_tx c) (ck_id c) (ck_max_gas c) (ck_predicates c) false)) = true).

Lemma is_ok_true {A E} (r : result A E) : is_ok r = true ↔ ∃ a, r = Ok a.
Proof. destruct r; naive_solver. Qed.

Lemma extra_checks_again c c1 t hd (st : InMemoryTransaction (InMemoryTransaction D)) id gas :
  genuine (view_of st) c → strip t = strip (ck_tx c) → extra_tx_checks ex c hd st = Ok c1 →
  ck_tx c1 = ck_tx c ∧ ck_id c1 = ck_id c ∧
  ∃ c1', extra_tx_checks ex (Build_Checked t id gas false false) hd st = Ok c1' ∧ ck_tx c1' = t ∧ ck_id c1' = id.
Proof using Type*.
  intros [Hgp Hgs] Hs. unfold extra_tx_checks.
  destruct (check_predicates params (allow_syscall (options ex)) (view_of st) c) as [c2|] eqn:Hp; [|done].
  cbn [validation_error result_bind]. rewrite (predicates_result _ _ _ _ _ Hp).
  destruct (verify_inputs_exist_and_values_match st (inputs (ck_tx (with_predicates c))) _) as [[]|] eqn:Hv; [|done].
  cbn [result_bind]. destruct (check_signatures chain (with_predicates c)) as [c3|] eqn:Hsg; [|done].
  cbn [validation_error]. intros [= <-]. rewrite (signatures_result _ _ _ Hsg). split_and!; [done..|].
  assert (∃ c4, check_predicates params (allow_syscall (options ex)) (view_of st) (Build_Checked t id gas false false) = Ok c4)
    as [c4 Hp4].
  { apply is_ok_true. destruct (ck_predicates c) eqn:Hm.
    - rewrite <- (Hgp eq_refl). by apply predicates_strip.
    - transitivity (is_ok (check_predicates params (allow_syscall (options ex)) (view_of st) c)); [|by rewrite Hp].
      by apply predicates_strip. }
  rewrite Hp4. cbn [validation_error result_bind]. rewrite (predicates_result _ _ _ _ _ Hp4).
  rewrite (verify_inputs_strip st _ (inputs (ck_tx (with_predicates c)))); [|by injection Hs]. rewrite Hv. cbn [result_bind].
  assert (∃ c5, check_signatures chain (with_predicates (Build_Checked t id gas false false)) = Ok c5) as [c5 Hs5].
  { apply is_ok_true. destruct (ck_signatures c) eqn:Hm.
    - rewrite <- (Hgs eq_refl). by apply signatures_strip.
    - transitivity (is_ok (check_signatures chain (with_predicates c))); [|by rewrite Hsg]. by apply signatures_strip. }
  rewrite Hs5. cbn [validation_error]. rewrite (signatures_result _ _ _ Hs5). eauto.
Qed.

Lemma chargeable_again c hd cb price s s' tx :
  ck_id c = tx_id chain (TxChargeable (ck_tx c)) → genuine (view_of (xstorage s)) c →
  execute_chargeable_transaction ex c hd cb price s = (s', Ok tx) →
  ∃ t, tx = TxChargeable t ∧ strip t = strip (ck_tx c) ∧
    execute_chargeable_transaction ex (Build_Checked t (tx_id chain tx) (max_gas params t) false false) hd cb price s =
      (s', Ok tx).
Proof using Type*.
  intros Hid Hg. unfold execute_chargeable_transaction. rewrite get_storage_bind. intros Hx.
  apply x_bind_ok in Hx as (c1 & s1 & Hc1 & Hx).
  assert (s1 = s) as ->. { revert Hc1. case_match; by intros [= ?]. }
  apply x_bind_ok in Hx as ([[[reverted state] t] receipts] & s2 & Ha & Hx).
  assert (tx = TxChargeable t) as ->.
  { repeat (apply x_bind_ok in Hx as (? & ? & _ & Hx)). by injection Hx. }
  assert (ck_tx c1 = ck_tx c ∧ ck_id c1 = ck_id c) as [Ht1 Hi1].
  { destruct (forbid_fake_coins (options ex)); [|by injection Hc1 as ->].
    injection Hc1 as Hc1. by eapply (extra_checks_again c c1 (ck_tx c) _ _ (ck_id c) 0) in Hc1 as (? & ? & _). }
  pose proof (attempt_strip _ _ _ _ _ _ _ _ _ _ Ha) as Hst. rewrite Ht1 in Hst.
  exists t. split_and!; [done..|]. rewrite get_storage_bind.
  assert (tx_id chain (TxChargeable t) = ck_id c) as Hidt.
  { rewrite Hid. apply tx_id_strip. simpl. by rewrite Hst. }
  rewrite Hidt. cbn [ck_id].
  destruct (forbid_fake_coins (options ex)).
  - injection Hc1 as Hc1. eapply extra_checks_again in Hc1 as (_ & _ & c1' & Hc1' & Ht' & Hi'); [|done..].
    rewrite lift_bind, Hc1'. apply x_bind_ok. exists (reverted, state, t, receipts), s2. split; [|exact Hx].
    eapply attempt_again, Ha; [by rewrite Hi1, Hi'|by rewrite Ht', Ht1].
  - rewrite ret_bind. apply x_bind_ok. exists (reverted, state, t, receipts), s2. split; [|exact Hx].
    eapply attempt_again, Ha; [by rewrite Hi1|by rewrite Ht1].
Qed.

(** ** The mint transaction *)

Lemma compute_contract_strip (ci ci' : ContractIn) (t : InMemoryTransaction (InMemoryTransaction D)) record :
  ci_contract_id ci = ci_contract_id ci' →
  compute_inputs ex [InputContract ci] t record = compute_inputs ex [InputContract ci'] t record.
Proof. intros Hc. unfold compute_inputs. simpl. by rewrite Hc. Qed.

Lemma mint_vm_again hd cb id (m m' : Mint) s s' i o :
  ci_contract_id (input_contract m) = ci_contract_id (input_contract m') →
  input_index (output_contract m) = input_index (output_contract m') →
  mint_amount m = mint_amount m' → mint_asset_id m = mint_asset_id m' →
  execute_mint_with_vm ex hd cb id m (InputContract (input_contract m)) s = (s', Ok (i, o)) →
  execute_mint_with_vm ex hd cb id m' (InputContract (input_contract m')) s = (s', Ok (i, o)) ∧
  ci_contract_id i = ci_contract_id (input_contract m) ∧ input_index o = input_index (output_contract m).
Proof using Type*.
  intros Hc Hx Ham Has. unfold execute_mint_with_vm. rewrite !get_storage_bind, <- Hc, <- Ham, <- Has.
  destruct (run_recorded _ _ _ _) as [[ch reads] outcome]. rewrite ?lift_bind.
  destruct outcome; [|done]. rewrite ?lift_bind. destruct (finalize _ _ _) as [[before after]|]; [|done].
  cbn [storage_error]. rewrite ?lift_bind, (compute_contract_strip (input_contract m') (input_contract m)) by done.
  destruct (compute_inputs ex _ _ _) as [ins|] eqn:Hci; [|done].
  assert (∃ ci, ins = [InputContract ci] ∧ ci_contract_id ci = ci_contract_id (input_contract m)) as (ci & -> & Hci').
  { unfold compute_inputs in Hci. simpl in Hci. destruct (validated_utxo _ _ _); [|done]. simpl in Hci.
    injection Hci as <-. by eexists. }
  assert (∀ x, persist_output_utxos (height (p_consensus hd)) id [InputContract ci] [OutputContract (output_contract m)] x =
    persist_output_utxos (height (p_consensus hd)) id [InputContract ci] [OutputContract (output_contract m')] x) as Hp.
  { intros x. unfold persist_output_utxos, enumerate. simpl. by rewrite Hx. }
  assert (compute_state_of_not_utxo_outputs id [InputContract ci] [OutputContract (output_contract m')] after =
    compute_state_of_not_utxo_outputs id [InputContract ci] [OutputContract (output_contract m)] after) as Ho.
  { unfold compute_state_of_not_utxo_outputs. simpl. by rewrite Hx. }
  rewrite Ho. intros Hm.
  apply x_bind_ok in Hm as (u & s1 & H1 & (u' & s2 & H2 & Hm)%x_bind_ok). rewrite lift_bind in Hm.
  destruct (compute_state_of_not_utxo_outputs _ _ _ _) as [outs|] eqn:Houts in Hm; [|done]. rewrite Houts.
  assert (∃ co, outs = [OutputContract co] ∧ input_index co = input_index (output_contract m)) as (co & -> & Hco).
  { unfold compute_state_of_not_utxo_outputs in Houts. simpl in Houts. destruct (nth_input _ _) as [[]|]; try done.
    simpl in Houts. injection Houts as <-. by eexists. }
  injection Hm as <- <- <-. split_and!; [|done..].
  apply x_bind_ok. eexists _, _. split; [exact H1|]. apply x_bind_ok. eexists _, _. split; [by rewrite <- Hp|done].
Qed.

Lemma mint_again (k : Checked Mint) hd cb price s s' tx :
  execute_mint ex k hd cb price s = (s', Ok tx) →
  ∃ m, tx = TxMint m ∧ strip_tx (TxMint m) = strip_tx (TxMint (ck_tx k)) ∧ mint_gas_price m = price ∧
    ci_contract_id (input_contract m) = ci_contract_id (input_contract (ck_tx k)) ∧
    ∀ k', ck_tx k' = m → ck_id k' = ck_id k → execute_mint ex k' hd cb price s = (s', Ok tx).
Proof using Type*.
  unfold execute_mint. rewrite set_data_bind, get_data_bind, require_bind. intros Hx.
  case_bool_decide as Hidx; [|done]. rewrite require_bind in Hx. case_bool_decide as Hprice; [|done].
  apply x_bind_ok in Hx as (m & s1 & Hm & Hx). destruct k as [m0 id0 ? ? ?]. simpl in *.
  assert (tx = TxMint m) as ->.
  { unfold store_mint_tx in Hx. repeat (apply x_bind_ok in Hx as (? & ? & _ & Hx)). by injection Hx. }
  assert (∃ i o, m = with_contracts i o m0 ∧ ci_contract_id i = ci_contract_id (input_contract m0) ∧
    input_index o = input_index (output_contract m0)) as (i & o & Hmeq & Hci & Hoi).
  { case_decide.
    - rewrite lift_bind in Hm. destruct (verify_mint_for_empty_contract _); [|done]. injection Hm as _ <-.
      exists (input_contract m0), (output_contract m0). by destruct m0.
    - rewrite require_bind in Hm. case_bool_decide; [|done]. rewrite get_storage_bind in Hm.
      apply x_bind_ok in Hm as (? & s2 & _ & ([i o] & s3 & Hv & Hm)%x_bind_ok). injection Hm as _ <-.
      exists i, o. split; [done|]. by destruct (mint_vm_again hd cb id0 m0 m0 _ _ _ _ eq_refl eq_refl eq_refl eq_refl Hv) as (_ & ? & ?). }
  subst m. exists (with_contracts i o m0). split_and!; try done.
  { simpl. unfold with_contracts, strip_contract_out. simpl. by rewrite Hci, Hoi. }
  intros [m' id' ? ? ?]. simpl. intros -> ->.
  rewrite set_data_bind, get_data_bind, require_bind, bool_decide_true by done.
  rewrite require_bind, bool_decide_true by done. apply x_bind_ok. exists (with_contracts i o m0), s1. split; [|done].
  revert Hm. cbn [input_contract with_contracts mint_amount]. rewrite Hci. case_decide.
  - rewrite ?lift_bind. destruct (verify_mint_for_empty_contract m0) eqn:Hv; [|done]. intros [= <- Hm].
    by rewrite <- Hm, Hv.
  - rewrite ?require_bind. change (mint_amount (with_contracts i o m0)) with (mint_amount m0).
    case_bool_decide; [|done]. rewrite ?get_storage_bind. intros Hm.
    apply x_bind_ok in Hm as (u & s2 & Hver & ([i1 o1] & s3 & Hv & Hm)%x_bind_ok). injection Hm as <- Hm1 Hm2. subst i1 o1.
    rewrite bool_decide_true by done. apply x_bind_ok. exists u, s2. split.
    { revert Hver. destruct (forbid_fake_coins _); [|done]. unfold verify_inputs_exist_and_values_match. simpl.
      by rewrite Hci. }
    apply x_bind_ok. exists (i, o), s3. split; [|done].
    by eapply (mint_vm_again hd cb id0 m0 (with_contracts i o m0)) in Hv as (Hv & _ & _).
Qed.

(** ** Any transaction *)

Definition execute_checked (k : CheckedTransaction) hd cb price : X Transaction :=
  match k with
  | CheckedMint m => execute_mint ex m hd cb price
  | CheckedChargeable t => execute_chargeable_transaction ex t hd cb price
  end.

Lemma execute_inv tx id hd cb price s s' tx' :
  execute_transaction ex tx id hd cb price s = (s', Ok tx') ↔
  found_mint (xdata s) = false ∧ table_exists ProcessedTransactions (xstorage s) id = Ok false ∧
  ∃ k, convert_maybe_checked_tx_to_checked_tx ex tx hd = Ok k ∧ execute_checked k hd cb price s = (s', Ok tx').
Proof.
  unfold execute_transaction. rewrite get_data_bind, require_bind.
  destruct (found_mint (xdata s)); [naive_solver|]. cbn [negb]. rewrite get_storage_bind, lift_bind.
  destruct (table_exists _ _ _) as [[]|e]; cbn [storage_error]; [naive_solver| |naive_solver].
  rewrite require_bind. cbn [negb]. rewrite lift_bind.
  destruct (convert_maybe_checked_tx_to_checked_tx _ _ _) as [k|]; [|naive_solver].
  split; [intros Hx; split_and!; [done..|]; by exists k|]. by intros (_ & _ & ? & [= <-] & ?).
Qed.

(** A source hands out no mint transactions as checked ones. *)
Definition not_checked_mint (tx : MaybeCheckedTransaction) : Prop :=
  match tx with MaybeChecked (CheckedMint _) _ => False | _ => True end.

Lemma checked_basic_ok h tx k : checked_basic ex h tx = Ok k → into_checked_basic h params tx = Ok k.
Proof. unfold checked_basic. destruct (into_checked_basic _ _ _); naive_solver. Qed.

Lemma checked_basic_again h tx tx' :
  is_ok (into_checked_basic h params tx) = true → strip_tx tx = strip_tx tx' →
  ∃ k, checked_basic ex h tx' = Ok k ∧ is_fresh params tx' k.
Proof using Type*.
  intros Hok Hs. rewrite (basic_strip h params tx tx' Hs) in Hok. unfold checked_basic.
  destruct (into_checked_basic h params tx') as [k|] eqn:Hk; [|done]. exists k. split; [done|by eapply basic_result].
Qed.

(** What the conversion of a transaction gives. *)
Lemma convert_ok db v tx hd k :
  not_checked_mint tx → blobs_kept db v →
  honest params (allow_syscall (options ex)) (height (p_consensus hd)) (consensus_parameters_version (p_application hd)) db tx →
  convert_maybe_checked_tx_to_checked_tx ex tx hd = Ok k →
  is_ok (into_checked_basic (height (p_consensus hd)) params (unchecked k)) = true ∧
  match k with
  | CheckedMint m => maybe_checked_id ex tx = ck_id m ∧ ck_id m = tx_id chain (TxMint (ck_tx m)) ∧ tx = NotChecked (TxMint (ck_tx m))
  | CheckedChargeable c =>
      maybe_checked_id ex tx = ck_id c ∧ ck_id c = tx_id chain (TxChargeable (ck_tx c)) ∧ genuine v c ∧
      match tx with NotChecked t => t = TxChargeable (ck_tx c) | MaybeChecked t _ => unchecked t = TxChargeable (ck_tx c) end
  end.
Proof using Type*.
  intros Hnm Hb Hh. set (h := height (p_consensus hd)) in *.
  assert (∀ tx0, checked_basic ex h tx0 = Ok k →
    is_ok (into_checked_basic h params (unchecked k)) = true ∧
    match k with
    | CheckedMint m => tx0 = TxMint (ck_tx m) ∧ ck_id m = tx_id chain tx0
    | CheckedChargeable c => tx0 = TxChargeable (ck_tx c) ∧ ck_id c = tx_id chain tx0 ∧ genuine v c
    end) as Hbasic.
  { intros tx0 Hk%checked_basic_ok. pose proof (basic_result _ _ _ _ Hk) as Hf. destruct tx0, k; simpl in Hf; try done.
    - destruct Hf as [<- ?]. simpl. rewrite Hk. by split_and!.
    - subst. simpl. rewrite Hk. by split_and!. }
  destruct tx as [[m|c] version|tx0]; simpl in Hnm; [done| |]; simpl.
  - case_decide as Hexp; [done|]. destruct Hh as [Hid Hh]. case_decide as Hv.
    + intros [= <-]. destruct (Hh (eq_sym Hv)) as [_ (h0 & Hh0 & Hb0) _ Hp Hs]. split; [eapply basic_later, Hb0; simpl in *; lia|].
      split_and!; [done|done| |done]. split; [|done]. intros Hm. by apply Hp.
    + intros (? & Hk)%Hbasic. split; [done|]. destruct k; [naive_solver|]. destruct Hk as (Heq & Hk & ?).
      split_and!; [congruence|congruence|done|done].
  - intros (? & Hk)%Hbasic. split; [done|]. destruct k; naive_solver.
Qed.

Lemma execute_again db tx hd cb price s s' tx' :
  not_checked_mint tx → blobs_kept db (view_of (xstorage s)) →
  honest params (allow_syscall (options ex)) (height (p_consensus hd)) (consensus_parameters_version (p_application hd)) db tx →
  execute_transaction ex tx (maybe_checked_id ex tx) hd cb price s = (s', Ok tx') →
  execute_transaction ex (NotChecked tx') (maybe_checked_id ex (NotChecked tx')) hd cb price s = (s', Ok tx') ∧
  maybe_checked_id ex tx = tx_id chain tx' ∧
  match tx' with
  | TxMint m => mint_gas_price m = price ∧
      ∃ m0, tx = NotChecked (TxMint m0) ∧ ci_contract_id (input_contract m) = ci_contract_id (input_contract m0)
  | TxChargeable _ => ∀ m, tx ≠ NotChecked (TxMint m)
  end.
Proof using Type*.
  intros Hnm Hb Hh (Hf & Hp & k & Hk & Hx)%execute_inv.
  destruct (convert_ok _ _ _ _ _ Hnm Hb Hh Hk) as [Hok Hkk].
  assert (∃ k', is_fresh params tx' k' ∧ strip_tx tx' = strip_tx (unchecked k) ∧
    ∀ k', is_fresh params tx' k' → execute_checked k' hd cb price s = (s', Ok tx')) as (_ & _ & Hs & Hagain).
  { destruct k as [m|c]; simpl in Hx.
    - destruct Hkk as (Hi & Hi' & ->). apply mint_again in Hx as (m' & -> & Hs & _ & _ & Hagain).
      destruct (checked_basic_again _ _ (TxMint m') Hok) as (k' & _ & Hk'); [done|]. exists k'. split_and!; [done..|].
      intros [k1|] Hk1; [|done]. destruct Hk1 as [Ht1 Hi1]. simpl. apply Hagain; [done|]. rewrite Hi1, Hi'. by apply tx_id_strip.
    - destruct Hkk as (Hi & Hi' & Hg & _). eapply chargeable_again in Hx as (t & -> & Hs & Hagain); [|done..].
      destruct (checked_basic_again _ _ (TxChargeable t) Hok) as (k' & _ & Hk'); [simpl; by rewrite Hs|].
      exists k'. split_and!; [done|simpl; by rewrite Hs|]. intros [|k1] Hk1; [done|]. simpl in Hk1. by subst k1. }
  assert (maybe_checked_id ex tx = tx_id chain tx') as Hid.
  { rewrite (tx_id_strip _ _ _ Hs). destruct k; destruct Hkk as (-> & -> & _); done. }
  split_and!; [|done|].
  - apply execute_inv. split_and!; [done|simpl; by rewrite <- Hid|].
    destruct (checked_basic_again _ _ tx' Hok) as (k' & Hk' & Hf'); [done|]. exists k'. split; [done|by apply Hagain].
  - destruct k as [m|c]; simpl in Hx.
    + destruct Hkk as (_ & _ & ->). apply mint_again in Hx as (m' & -> & _ & Hprice & Hc & _). eauto.
    + destruct Hkk as (_ & _ & Hg & Htx). assert (∃ t, tx' = TxChargeable t) as [t ->].
      { destruct tx'; [|by eauto]. simpl in Hs. done. }
      intros m ->. simpl in Htx. done.
Qed.
End replay.
