(* ===== verification/ExecutorBlock.v ===== *)
(** * Blocks under construction

    What the execution of a transaction does to the storage of the block, and that a produced
    block can be executed again from its transactions. *)

From stdpp Require Import prelude gmap list strings.
From Stdlib Require Import ZArith Lia.
From S2P Require Import Prelude.
From S2P Require Import StorageTx.
From S2P Require Import HistoricalDb.
From S2P Require Import Database.
From S2P Require Import Tables.
From S2P Require Import Blocks.
From S2P Require Import BlockStore.
From S2P Require Import Producer.
From S2P Require Import ExecTypes.
From S2P Require Import VmStorage.
From S2P Require Import Executor.
From S2P Require Import ExecutorMonad.
From S2P Require Import ExecutorReplay.
Local Open Scope Z_scope.

(** ** Views of storage transactions *)

Section views.
Context `{!HashOrder Z} `{!HashOrder Key} {S : Type} `{!KeyValueInspect S}.
Implicit Types (t : InMemoryTransaction S).

(** Merged changes are seen as if they were a transaction on top. *)
Lemma commit_view ch t k c :
  policy t = PolicyOverwrite →
  view_of (tx_commit_changes ch t).1 k c = applied (change_at ch k c) (view_of t k c) ∧
  (tx_commit_changes ch t).2 = Ok () ∧ policy (tx_commit_changes ch t).1 = PolicyOverwrite ∧
  storage (tx_commit_changes ch t).1 = storage t.
Proof.
  intros Hp. pose proof (tx_commit_ok ch t) as Hc. destruct (tx_commit_changes ch t) as [t' [[]|e]];
    destruct Hc as (Hp' & Hs & Hc); [|destruct Hc; congruence].
  destruct Hc as [_ Hc]. simpl. split_and!; [|done|congruence|done].
  unfold view_of. simpl. rewrite !tx_get_applied, Hc, Hs. by destruct (change_at ch k c) as [[]|].
Qed.

Lemma record_view t key column op k c :
  view_of (record t key column op) k c =
  if decide (k = key ∧ c = column) then Ok (View.value_of op) else view_of t k c.
Proof.
  unfold view_of. simpl. rewrite !tx_get_applied. simpl. rewrite change_at_record. by case_decide; [destruct op|].
Qed.
End views.

Lemma new_transaction_view {S} `{!KeyValueInspect S} (s : S) k c :
  view_of (with_policy PolicyOverwrite (into_transaction s)) k c = view_of s k c.
Proof. done. Qed.

Section block.
Context {Signature : Type} `{FV : FuelVm} `{!ChainCrypto Transaction Signature}.
Context `{!BlockCodecs Transaction Signature} `{SC : StateCodecs} `{MT : MerkleTree}.
Context `{!HashOrder Z} `{!HashOrder Key} `{!FuelVmLaws Signature}.
Context {D : Type} `{!KeyValueInspect D}.
Context (ex : BlockExecutor).
Abbreviation X := (@X _ D).
Abbreviation XState := (@XState _ D).
Abbreviation BState := (@BState _ D).
Abbreviation params := (consensus_params ex).
Abbreviation chain := (params_chain_id (consensus_params ex)).
Implicit Types (s : XState) (b : BState).

#[global] Instance blobs_kept_preorder : PreOrder blobs_kept.
Proof. split; [by intros v id|]. intros v1 v2 v3 H1 H2 id x Hx. by apply H2, H1. Qed.

(** ** The storage of a transaction *)

(** The storage below stays, and so do blobs. *)
Definition evolves s s' : Prop :=
  storage (xstorage s') = storage (xstorage s) ∧ policy (xstorage s') = policy (xstorage s) ∧
  (policy (xstorage s) = PolicyOverwrite → blobs_kept (view_of (xstorage s)) (view_of (xstorage s'))).

#[global] Instance evolves_preorder : PreOrder evolves.
Proof.
  split; [by intros s|]. intros s1 s2 s3 (? & Hp1 & H1) (? & Hp2 & H2). split_and!; [congruence..|].
  intros Hp. etrans; [by apply H1|]. apply H2. congruence.
Qed.

(** Nothing is skipped, and events are only added. *)
Definition same_skipped s s' : Prop :=
  skipped_transactions (xdata s') = skipped_transactions (xdata s) ∧ xevents (xdata s) `prefix_of` xevents (xdata s').

#[global] Instance same_skipped_preorder : PreOrder same_skipped.
Proof. split; [done|]. intros s1 s2 s3 [] []. split; [congruence|by etrans]. Qed.

Definition steady s s' : Prop := evolves s s' ∧ same_skipped s s'.

#[global] Instance steady_preorder : PreOrder steady.
Proof. split; [by intros s|]. intros s1 s2 s3 [] []. split; by etrans. Qed.

Lemma steady_set f :
  (∀ d, skipped_transactions (f d) = skipped_transactions d ∧ xevents (f d) = xevents d) → leaves steady (set_data (D := D) f).
Proof. intros Hf s. split; [done|]. split; simpl; [apply Hf|]. by rewrite (proj2 (Hf _)). Qed.

(** Accesses to tables other than that of blobs. *)
Lemma steady_access {A} (f : _ → _ * result A StorageError) :
  (∀ t, storage (f t).1 = storage t ∧ policy (f t).1 = policy t ∧
    (policy t = PolicyOverwrite → blobs_kept (view_of t) (view_of (f t).1))) → leaves steady (access f).
Proof.
  intros Hf s. unfold access. specialize (Hf (xstorage s)). destruct (f (xstorage s)) as [t r]. split; [|done].
  done.
Qed.

Lemma record_steady (t : InMemoryTransaction (InMemoryTransaction D)) key column op :
  column ≠ BLOBS_COLUMN →
  storage (record t key column op) = storage t ∧ policy (record t key column op) = policy t ∧
  (policy t = PolicyOverwrite → blobs_kept (view_of t) (view_of (record t key column op))).
Proof.
  intros Hc. split_and!; [done..|]. intros _ id x Hx. by rewrite record_view, decide_False by naive_solver.
Qed.

Lemma put_steady {K V} (tb : Table K V) k v :
  t_column tb ≠ BLOBS_COLUMN → leaves steady (access (D := D) (λ t, plain_put tb t k v)).
Proof. intros Hc. apply steady_access. intros t. by apply record_steady. Qed.
Lemma replace_steady {K V} (tb : Table K V) k v :
  t_column tb ≠ BLOBS_COLUMN → leaves steady (access (D := D) (λ t, plain_replace tb t k v)).
Proof.
  intros Hc. apply steady_access. intros t. unfold plain_replace, replace, and_then.
  destruct (old_value t _ _); by apply record_steady.
Qed.
Lemma take_steady {K V} (tb : Table K V) k :
  t_column tb ≠ BLOBS_COLUMN → leaves steady (access (D := D) (λ t, plain_take tb t k)).
Proof.
  intros Hc. apply steady_access. intros t. unfold plain_take, take_value, and_then.
  destruct (old_value t _ _); by apply record_steady.
Qed.

Lemma event_steady ev : leaves steady (set_data (D := D) (push_event ev)).
Proof. intros s. split; [done|]. split; [done|]. by eexists. Qed.

Hint Resolve put_steady replace_steady take_steady event_steady : exec.
Hint Extern 1 (t_column _ ≠ _) => done : exec.

Lemma insert_coin_steady h id amount asset to : leaves steady (insert_coin (D := D) h id amount asset to).
Proof. unfold insert_coin. case_decide; eauto 12 with exec typeclass_instances. Qed.

Lemma persist_outputs_steady h id ins outs : leaves steady (persist_output_utxos (D := D) h id ins outs).
Proof.
  apply leaves_bind; [apply _|auto with exec typeclass_instances|]. intros d. apply leaves_for; [apply _|]. intros [i o].
  apply leaves_bind; [apply _|auto with exec typeclass_instances|]. intros _.
  destruct o; try apply insert_coin_steady; auto with exec.
  destruct (nth_input _ _) as [[]|]; auto with exec typeclass_instances.
Qed.

Lemma spend_inputs_steady ins reverted : leaves steady (spend_input_utxos (D := D) ex ins reverted).
Proof.
  assert (∀ c, leaves steady (spend_coin (D := D) ex c)) as Hc.
  { intros c. unfold spend_coin. eauto 12 with exec typeclass_instances. }
  assert (∀ m, leaves steady (spend_message (D := D) m)) as Hm.
  { intros m. unfold spend_message. eauto 12 with exec typeclass_instances. }
  apply leaves_for; [apply _|]. intros []; simpl; try destruct reverted; auto with exec typeclass_instances.
Qed.

Lemma update_steady tx receipts price reverted state id :
  leaves steady (update_execution_data (D := D) ex tx receipts price reverted state id).
Proof.
  apply leaves_bind; [apply _|auto with exec typeclass_instances|]. intros [gas fee].
  apply leaves_bind; [apply _|auto with exec typeclass_instances|]. intros d.
  repeat (apply leaves_bind; [apply _| |intros _]); try destruct reverted; auto with exec typeclass_instances;
    by apply steady_set.
Qed.

(** What the virtual machine changed is committed. *)
Lemma commit_steady hd cb price sys dry ready ch reads o s :
  run_recorded hd cb (transact params price sys dry ready) (xstorage s) = (ch, reads, o) →
  steady s (commit_to_storage ch s).1.
Proof using Type*.
  unfold run_recorded. destruct (vm_run _ _ _ _ _ _) as [[sub reads1] o1] eqn:Hrun. intros [= <- <- <-].
  apply transact_blobs in Hrun. unfold commit_to_storage, access.
  destruct (tx_commit_changes (changes sub) (xstorage s)) as [t' r] eqn:Hc.
  split; [|done]. unfold evolves. simpl. pose proof (tx_commit_ok (changes sub) (xstorage s)) as Hok. rewrite Hc in Hok.
  destruct Hok as (Hp & Hst & _). split_and!; [done..|]. intros Hpo id x Hx.
  destruct (commit_view (changes sub) (xstorage s) id BLOBS_COLUMN Hpo) as [Hv _]. rewrite Hc in Hv. rewrite Hx in Hv.
  etrans; [exact Hv|]. specialize (Hrun id x Hx). revert Hrun. unfold view_of. simpl. rewrite tx_get_applied.
  by destruct (change_at _ _ _) as [[]|].
Qed.

Lemma attempt_steady c hd cb price : leaves steady (attempt_tx_execution_with_vm (D := D) ex c hd cb price).
Proof using Type*.
  intros s. unfold attempt_tx_execution_with_vm. rewrite get_storage_bind, lift_bind.
  destruct (into_ready _ _ _ _); [|done]. destruct (run_recorded _ _ _ _) as [[ch reads] outcome] eqn:Hrun.
  apply commit_steady in Hrun. rewrite lift_bind. destruct outcome as [res|]; [|done].
  destruct (if is_dry_run ex then dry_run_receipts res else _) as [rev rcs]. rewrite lift_bind.
  destruct (update_input_used_gas _ _ _); [|done]. rewrite lift_bind.
  destruct (finalize _ _ _) as [[before after]|]; [|done]. cbn [storage_error]. rewrite lift_bind.
  destruct (compute_inputs _ _ _ _) as [ins'|]; [|done].
  unfold mbind at 1, x_bind at 1. destruct rev; simpl.
  - unfold mbind at 1, x_bind at 1. simpl. by destruct (compute_state_of_not_utxo_outputs _ _ _ _).
  - destruct (commit_to_storage ch s) as [s1 [[]|]]; [|done].
    unfold mbind at 1, x_bind at 1. simpl. by destruct (compute_state_of_not_utxo_outputs _ _ _ _).
Qed.

Lemma chargeable_steady c hd cb price : leaves steady (execute_chargeable_transaction (D := D) ex c hd cb price).
Proof using Type*.
  unfold execute_chargeable_transaction. apply leaves_bind; [apply _|auto with exec typeclass_instances|]. intros t.
  apply leaves_bind; [apply _|case_match; auto with exec typeclass_instances|]. intros c'.
  apply leaves_bind; [apply _|apply attempt_steady|]. intros [[[reverted state] tx] receipts].
  apply leaves_bind; [apply _|apply spend_inputs_steady|]. intros _.
  apply leaves_bind; [apply _|apply persist_outputs_steady|]. intros _.
  apply leaves_bind; [apply _|apply put_steady; done|]. intros _.
  apply leaves_bind; [apply _|apply update_steady|]. intros _. auto with exec typeclass_instances.
Qed.

(** ** The mint transaction *)

Lemma leaves_weaken {A} (R R' : XState → XState → Prop) (m : X A) :
  (∀ s s', R s s' → R' s s') → leaves R m → leaves R' m.
Proof. intros HR Hm s. apply HR, Hm. Qed.

Lemma access_skipped {A} (f : _ → _ * result A StorageError) : leaves same_skipped (access (D := D) f).
Proof. intros s. unfold access. by destruct (f (xstorage s)). Qed.

Lemma set_skipped f :
  (∀ d, skipped_transactions (f d) = skipped_transactions d ∧ xevents (f d) = xevents d) →
  leaves same_skipped (set_data (D := D) f).
Proof. intros Hf s. split; simpl; [apply Hf|]. by rewrite (proj2 (Hf _)). Qed.

Lemma mint_skipped k hd cb price : leaves same_skipped (execute_mint (D := D) ex k hd cb price).
Proof.
  assert (∀ id m i, leaves same_skipped (execute_mint_with_vm (D := D) ex hd cb id m i)) as Hvm.
  { intros id m i. unfold execute_mint_with_vm. apply leaves_bind; [apply _|auto with exec typeclass_instances|]. intros t.
    destruct (run_recorded _ _ _ _) as [[ch reads] outcome].
    apply leaves_bind; [apply _|auto with exec typeclass_instances|]. intros _.
    apply leaves_bind; [apply _|auto with exec typeclass_instances|]. intros [before after].
    apply leaves_bind; [apply _|auto with exec typeclass_instances|]. intros ins.
    apply leaves_bind; [apply _|apply access_skipped|]. intros _.
    apply leaves_bind; [apply _|eapply leaves_weaken, persist_outputs_steady; by intros ? ? []|]. intros _.
    apply leaves_bind; [apply _|auto with exec typeclass_instances|]. intros outs.
    repeat case_match; auto with exec typeclass_instances. }
  unfold execute_mint. apply leaves_bind; [apply _|by apply set_skipped|]. intros _.
  apply leaves_bind; [apply _|auto with exec typeclass_instances|]. intros d.
  repeat (apply leaves_bind; [apply _|auto with exec typeclass_instances; fail|intros _]).
  apply leaves_bind; [apply _| |intros m].
  - case_decide; [eauto with exec typeclass_instances|].
    apply leaves_bind; [apply _|auto with exec typeclass_instances|]. intros _.
    apply leaves_bind; [apply _|auto with exec typeclass_instances|]. intros t.
    apply leaves_bind; [apply _|case_match; auto with exec typeclass_instances|]. intros _.
    apply leaves_bind; [apply _|apply Hvm|]. auto with exec typeclass_instances.
  - apply leaves_bind; [apply _|by apply set_skipped|]. intros _.
    apply leaves_bind; [apply _|apply access_skipped|]. eauto with exec typeclass_instances.
Qed.

Lemma execute_skipped tx id hd cb price : leaves same_skipped (execute_transaction (D := D) ex tx id hd cb price).
Proof using Type*.
  unfold execute_transaction. apply leaves_bind; [apply _|auto with exec typeclass_instances|]. intros d.
  apply leaves_bind; [apply _|auto with exec typeclass_instances|]. intros _.
  apply leaves_bind; [apply _|auto with exec typeclass_instances|]. intros t.
  apply leaves_bind; [apply _|auto with exec typeclass_instances|]. intros processed.
  apply leaves_bind; [apply _|auto with exec typeclass_instances|]. intros _.
  apply leaves_bind; [apply _|auto with exec typeclass_instances|]. intros []; [apply mint_skipped|].
  eapply leaves_weaken, chargeable_steady. by intros ? ? [].
Qed.
End block.
