(* ===== verification/ExecutorProduce.v ===== *)
(** * Replaying a production

    The transactions of a produced block, executed again by [validate_block], lead to the same
    storage and the same accounts. *)

From stdpp Require Import prelude gmap list strings.
From Stdlib Require Import ZArith Lia.
From S2P Require Import Prelude.
From S2P Require Import StorageTx.
From S2P Require Import HistoricalDb.
From S2P Require Import Database.
From S2P Require Import Tables.
From S2P Require Import Blocks.
From S2P Require Import BlockStore.
From S2P Require Import Producer.
From S2P Require Import ExecTypes.
From S2P Require Import VmStorage.
From S2P Require Import Executor.
From S2P Require Import ExecutorMonad.
From S2P Require Import ExecutorReplay.
From S2P Require Import ExecutorBlock.
Local Open Scope Z_scope.

Section produce.
Context {Signature : Type} `{FV : FuelVm} `{!ChainCrypto Transaction Signature}.
Context `{!BlockCodecs Transaction Signature} `{SC : StateCodecs} `{MT : MerkleTree}.
Context `{!HashOrder Z} `{!HashOrder Key} `{!FuelVmLaws Signature}.
Context {D : Type} `{!KeyValueInspect D}.
Context (ex : BlockExecutor).
Abbreviation BState := (@BState _ D).
Abbreviation params := (consensus_params ex).
Abbreviation chain := (params_chain_id (consensus_params ex)).
Abbreviation step := (execute_transaction_and_commit (D := D) ex).
Implicit Types (b : BState) (db : View.t).

(** ** One transaction of a block *)

(** A storage over the database. *)
Definition sound db b : Prop := policy (bstorage b) = PolicyOverwrite ∧ blobs_kept db (view_of (bstorage b)).

Definition is_chargeable (tx : MaybeCheckedTransaction) : Prop :=
  match tx with
  | MaybeChecked (CheckedChargeable _) _ | NotChecked (TxChargeable _) => True
  | _ => False
  end.

Lemma convert_chargeable tx hd k :
  is_chargeable tx → convert_maybe_checked_tx_to_checked_tx ex tx hd = Ok k → ∃ c, k = CheckedChargeable c.
Proof using Type*.
  assert (∀ h t, checked_basic ex h (TxChargeable t) = Ok k → ∃ c, k = CheckedChargeable c) as Hb.
  { intros h t Hk%checked_basic_ok. apply basic_result in Hk. destruct k; [done|by eauto]. }
  destruct tx as [[|c] v|[|t]]; simpl; try done; intros _; [|apply Hb].
  case_decide; [done|]. case_decide; [intros [= <-]; by eauto|apply Hb].
Qed.

Abbreviation start b :=
  {| xdata := bdata b; xstorage := with_policy PolicyOverwrite (into_transaction (bstorage b)) |}.

Lemma execute_steady tx id hd cb price b s r :
  is_chargeable tx → execute_transaction ex tx id hd cb price (start b) = (s, r) → steady (start b) s.
Proof using Type*.
  intros Hc. unfold execute_transaction. rewrite get_data_bind, require_bind.
  destruct (negb _); [|by intros [= <- _]]. rewrite get_storage_bind, lift_bind.
  destruct (table_exists _ _ _) as [processed|]; [|by intros [= <- _]]. cbn [storage_error]. rewrite require_bind.
  destruct (negb processed); [|by intros [= <- _]]. rewrite lift_bind.
  destruct (convert_maybe_checked_tx_to_checked_tx _ _ _) as [k|] eqn:Hk; [|by intros [= <- _]].
  destruct (convert_chargeable _ _ _ Hc Hk) as [c ->]. intros Hx. pose proof (chargeable_steady ex c hd cb price (start b)) as Hs.
  by rewrite Hx in Hs.
Qed.

Lemma execute_fails tx id hd cb price b s e :
  is_chargeable tx → execute_transaction ex tx id hd cb price (start b) = (s, Err e) → spent e (start b) s.
Proof using Type*.
  intros Hc. unfold execute_transaction. rewrite get_data_bind, require_bind.
  destruct (negb _); [|intros [= <- _]; by apply agree_spent]. rewrite get_storage_bind, lift_bind.
  destruct (table_exists _ _ _) as [processed|]; [|intros [= <- _]; by apply agree_spent]. cbn [storage_error].
  rewrite require_bind. destruct (negb processed); [|intros [= <- _]; by apply agree_spent]. rewrite lift_bind.
  destruct (convert_maybe_checked_tx_to_checked_tx _ _ _) as [k|] eqn:Hk; [|intros [= <- _]; by apply agree_spent].
  destruct (convert_chargeable _ _ _ Hc Hk) as [c ->]. intros Hx. by eapply chargeable_fails.
Qed.

Lemma step_chargeable db tx price cb b b' r :
  is_chargeable tx → sound db b → step tx price cb b = (b', r) →
  sound db b' ∧ pf_header (bblock b') = pf_header (bblock b) ∧
  skipped_transactions (bdata b') = skipped_transactions (bdata b) ∧ xevents (bdata b) `prefix_of` xevents (bdata b') ∧
  match r with
  | Ok _ => xtx_count (bdata b') = xtx_count (bdata b) + 1 ∧ xtx_count (bdata b) < U16
  | Err e => xtx_count (bdata b) < U16 → ¬ overflow e →
      bblock b' = bblock b ∧ bstorage b' = bstorage b ∧ agree (bdata b) (bdata b')
  end.
Proof using Type*.
  intros Hc [Hp Hdb]. unfold execute_transaction_and_commit.
  destruct (execute_transaction _ _ _ _ _ _ _) as [s o] eqn:Hx.
  pose proof (execute_steady _ _ _ _ _ _ _ _ Hc Hx) as [(Hst & _ & Hb) [Hsk Hpre]]. specialize (Hb eq_refl). destruct o as [tx'|e].
  - simpl in Hst. unfold commit. rewrite Hst. unfold commit_changes, tx_modifiable.
    destruct (tx_commit_changes (changes (xstorage s)) (bstorage b)) as [st r1] eqn:Hcm.
    assert (sound db {| bblock := push_transaction tx' (bblock b); bstorage := st; bdata := xdata s |} ∧ r1 = Ok ()) as [Hs ->].
    { assert (∀ k c, view_of st k c = view_of (xstorage s) k c ∧ r1 = Ok () ∧ policy st = PolicyOverwrite) as Hv.
      { intros k c. destruct (commit_view (changes (xstorage s)) (bstorage b) k c Hp) as (Hv & Hr & Hpo & _).
        rewrite Hcm in Hv, Hr, Hpo. cbn [fst snd] in Hv, Hr, Hpo. split_and!; [|done..]. rewrite Hv. unfold view_of. simpl.
        by rewrite (tx_get_applied (xstorage s)), Hst. }
      split; [split; [apply (Hv [] 0)|]|apply (Hv [] 0)]. intros id x Hid. rewrite (proj1 (Hv _ _)). by apply Hb, Hdb. }
    case_decide; intros [= <- <-]; split_and!; try done.
  - intros [= <- <-]. split_and!; try done. intros _ Ho. split_and!; [done..|].
    by eapply execute_fails in Hx as [_ Hx]; [apply Hx|].
Qed.

(** A step depends on the accounting only. *)
Record tracks b bv : Prop := {
  tr_block : bblock bv = bblock b;
  tr_storage : bstorage bv = bstorage b;
  tr_data : agree (bdata b) (bdata bv);
}.

Lemma step_tracks tx price cb b bv b' r :
  tracks b bv → step tx price cb b = (b', r) → ∃ bv', step tx price cb bv = (bv', r) ∧ tracks b' bv'.
Proof.
  intros [Hb Hs Hd]. unfold execute_transaction_and_commit. rewrite Hb, Hs, <- (ag_count _ _ Hd).
  destruct (execute_transaction_indep ex tx (maybe_checked_id ex tx) (pf_header (bblock b)) cb price
    (start b) {| xdata := bdata bv; xstorage := with_policy PolicyOverwrite (into_transaction (bstorage b)) |}) as [[Ha Hx] Ho].
  { by split. }
  destruct (execute_transaction _ _ _ _ _ _ (start b)) as [s o].
  destruct (execute_transaction _ _ _ _ _ _ _) as [sv ov]. simpl in Ha, Hx, Ho. subst ov. rewrite <- Hx.
  destruct o as [tx'|e].
  - destruct (commit (xstorage s)) as [st [[]|e]]; [case_decide|]; intros [= <- <-]; eexists; (split; [done|]);
      split; try done. simpl. destruct Ha. by split.
  - intros [= <- <-]. eexists. split; [done|]. by split.
Qed.

(** The transaction that is put in the block gives the same block again. *)
Lemma step_again db tx price cb b b' :
  not_checked_mint tx → sound db b →
  honest params (allow_syscall (options ex)) (height (p_consensus (pf_header (bblock b))))
    (consensus_parameters_version (p_application (pf_header (bblock b)))) db tx →
  step tx price cb b = (b', Ok ()) →
  ∃ tx', bblock b' = push_transaction tx' (bblock b) ∧ validate_tx ex price cb b tx' = (b', Ok ()) ∧
    maybe_checked_id ex tx = tx_id chain tx' ∧ skipped_transactions (bdata b') = skipped_transactions (bdata b) ∧
    match tx' with
    | TxMint m => mint_gas_price m = price ∧
        ∃ m0, tx = NotChecked (TxMint m0) ∧ ci_contract_id (input_contract m) = ci_contract_id (input_contract m0)
    | TxChargeable _ => ∀ m, tx ≠ NotChecked (TxMint m)
    end.
Proof using Type*.
  intros Hnm [_ Hb] Hh. unfold validate_tx, execute_transaction_and_commit at 1.
  destruct (execute_transaction _ _ _ _ _ _ _) as [s [tx'|e]] eqn:Hx; [|done]. intros Hc. exists tx'.
  pose proof (execute_skipped ex tx (maybe_checked_id ex tx) (pf_header (bblock b)) cb price (start b)) as [Hsk _].
  rewrite Hx in Hsk. eapply execute_again in Hx as (Hx & Hid & Hm); [|done|done|done].
  assert (bblock b' = push_transaction tx' (bblock b) ∧ skipped_transactions (bdata b') = skipped_transactions (xdata s)) as [Hbl Hs'].
  { destruct (commit _) as [st [[]|]]; [|done]. case_decide; [|done]. by injection Hc as <-. }
  split_and!; [done| |done|by rewrite Hs'|done]. unfold execute_transaction_and_commit. rewrite Hx.
  destruct (commit _) as [st [[]|]]; [|done]. case_decide; [|done]. by injection Hc as <-.
Qed.

(** ** Rounds of a production *)

(** A source in a state of [I] hands out transactions of [Φ], whatever is asked of its ports. *)
Record hands_out {P} `{!ProductionPorts P} (Φ : MaybeCheckedTransaction → Prop) (I : P → Prop) : Prop := {
  ho_next gas count size p : I p → Forall Φ (next_transactions gas count size p).1 ∧ I (next_transactions gas count size p).2;
  ho_wait p : I p → I (wait_for_new_transactions p).2;
  ho_try_send l p : I p → I (try_send l p).2;
  ho_send l p : I p → I (send l p);
}.

Section production.
Context {P : Type} `{!ProductionPorts P} (cb : ContractId) (price : Z).
Context (Φ : MaybeCheckedTransaction → Prop) (I : P → Prop) (J : BState → Prop) (Hsource : hands_out Φ I).
Context (Hbatch : ∀ l (s s' : PState), l ≠ [] → Forall Φ l → Z.of_nat (length l) ≤ remaining_count (pb s) → J (pb s) →
  process_batch ex cb price (remaining_gas ex (pb s)) l s = Some (s', Ok ()) → J (pb s')).

Lemma batch_ports l : ∀ limit (s s' : PState) r,
  I (pports s) → process_batch ex cb price limit l s = Some (s', r) → I (pports s').
Proof using Hsource.
  induction l as [|tx l IH]; intros limit s s' r Hi; simpl; [by intros [= <- _]|].
  unfold process_l2_tx. destruct (maybe_checked_max_gas ex tx); [|by intros [= <- _]].
  case_decide; [simpl; by apply IH|]. destruct (step tx price cb (pb s)) as [b1 r1].
  destruct (preconfirmation_of _ _ _ _) as [pre|]; [|done]. simpl.
  pose proof (ho_try_send _ _ Hsource (psent s ++ [pre]) _ Hi) as Hp. destruct (try_send _ _) as [sent p]. simpl.
  by apply IH.
Qed.

Lemma loop_ind fuel : ∀ (s s' : PState),
  J (pb s) → I (pports s) → l2_loop ex fuel cb price s = Some (s', Ok ()) → J (pb s') ∧ I (pports s').
Proof using Hsource Hbatch.
  induction fuel as [|fuel IH]; intros s s' Hj Hi; simpl; [done|]. unfold next_batch.
  pose proof (ho_next _ _ Hsource (remaining_gas ex (pb s)) (remaining_count (pb s)) (remaining_size ex (pb s)) _ Hi) as [Hl Hp].
  destruct (next_transactions _ _ _ _) as [l0 p]. simpl in Hl, Hp.
  assert (Forall Φ (take (Z.to_nat (remaining_count (pb s))) l0)) as Hl' by by apply Forall_take.
  pose proof (length_take l0 (Z.to_nat (remaining_count (pb s)))) as Hlen.
  destruct (take _ l0) as [|tx l] eqn:Ht; [by intros [= <-]|].
  destruct (process_batch _ _ _ _ _ _) as [[s1 [[]|]]|] eqn:Hb; simpl; [|done|done].
  apply IH; [|by eapply batch_ports, Hb].
  eapply (Hbatch (tx :: l) {| pb := pb s; pports := p; psent := psent s |}), Hb; [done|done| |done].
  rewrite Hlen. cbn [pb]. simpl length in Hlen. lia.
Qed.

Lemma rounds_ind fuel : ∀ b p b' p',
  J b → I p → production_rounds ex fuel cb price b p = Some (b', p', Ok ()) → J b'.
Proof using Hsource Hbatch.
  induction fuel as [|fuel IH]; intros b p b' p' Hj Hi; [done|]. simpl production_rounds. unfold process_l2_txs.
  destruct (l2_loop _ _ _ _ _) as [[s [[]|]]|] eqn:Hl; simpl; [|done|done]. apply loop_ind in Hl as [Hj' Hi']; [|done|done].
  assert (I (if decide (psent s = []) then pports s else send (psent s) (pports s))) as Hs.
  { case_decide; [done|]. by apply (ho_send _ _ Hsource). }
  pose proof (ho_wait _ _ Hsource _ Hs) as Hw. destruct (wait_for_new_transactions _) as [[] p1]; [|by intros [= <- _]].
  by apply IH.
Qed.
End production.

(** ** Replaying a production *)

Section rounds.
Context (db : View.t) (price : Z) (cb : ContractId) (b0 : BState).
Abbreviation trusted := (honest params (allow_syscall (options ex)) (height (p_consensus (pf_header (bblock b0))))
  (consensus_parameters_version (p_application (pf_header (bblock b0)))) db).

(** A skipped transaction has left its fee behind. *)
Definition spoiled b : Prop := ∃ id e, (id, e) ∈ skipped_transactions (bdata b) ∧ overflow e.

(** The transactions put in the block since [b0] lead to the same state. *)
Definition follows b : Prop :=
  spoiled b ∨ ∃ txs bv, pf_transactions (bblock b) = pf_transactions (bblock b0) ++ txs ∧
    fold_until (validate_tx ex price cb) b0 txs = (bv, Ok ()) ∧ tracks b bv ∧
    (skipped_transactions (bdata b) = [] → bv = b).

Definition replayed b : Prop := sound db b ∧ pf_header (bblock b) = pf_header (bblock b0) ∧ follows b.

Lemma fold_until_app {St A} (f : St → A → St * result unit ExecutorError) s l l' s1 :
  fold_until f s l = (s1, Ok ()) → fold_until f s (l ++ l') = fold_until f s1 l'.
Proof.
  revert s. induction l as [|a l IH]; intros s; simpl; [by intros [= ->]|].
  destruct (f s a) as [s2 [|]]; [apply IH|done].
Qed.

Lemma skip_replayed x b b' :
  replayed b → bblock b' = bblock b → bstorage b' = bstorage b → agree (bdata b) (bdata b') →
  skipped_transactions (bdata b') = skipped_transactions (bdata b) → replayed (with_bdata (push_skipped x) b').
Proof.
  intros ([Hp Hs] & Hh & Hr) Hbl Hst Ha Hsk. split_and!; [by split; simpl; rewrite Hst|simpl; by rewrite Hbl|].
  destruct Hr as [(id & e & Hin & Ho)|(txs & bv & Htx & Hf & Ht & _)].
  - left. exists id, e. split; [|done]. simpl. rewrite Hsk. set_solver.
  - right. exists txs, bv. simpl. rewrite Hbl. split_and!; [done..| |intros Hn%app_nil; naive_solver].
    destruct Ht as [? ? Ha']. split; simpl; [congruence..|]. by rewrite <- Ha', <- agree_push_skipped, Ha.
Qed.

Lemma validated_follows tx b b' :
  follows b → bblock b' = push_transaction tx (bblock b) →
  skipped_transactions (bdata b') = skipped_transactions (bdata b) →
  validate_tx ex price cb b tx = (b', Ok ()) → follows b'.
Proof using Type*.
  intros Hr Hbl Hsk Hv.
  destruct Hr as [Hr|(txs & bv & Htx & Hf & Ht & Heq)]; [left; unfold spoiled; by rewrite Hsk|]. right.
  pose proof Hv as Hv'. eapply step_tracks in Hv' as (bv' & Hv' & Ht'); [|done]. exists (txs ++ [tx]), bv'. split_and!.
  - rewrite Hbl. simpl. by rewrite Htx, app_assoc.
  - rewrite (fold_until_app _ _ _ _ _ Hf). simpl. unfold validate_tx. by rewrite Hv'.
  - done.
  - rewrite Hsk. intros Hn. specialize (Heq Hn). subst bv. unfold validate_tx in Hv. congruence.
Qed.

Context {P : Type} `{!ProductionPorts P}.

Lemma max_gas_chargeable tx g : maybe_checked_max_gas ex tx = Ok g → is_chargeable tx.
Proof. by destruct tx as [[]|[]]. Qed.

(** There is room for [n] more transactions. *)
Definition room (n : Z) b : Prop := spoiled b ∨ xtx_count (bdata b) + n ≤ U16.

Lemma spoiled_more b b' l :
  spoiled b → skipped_transactions (bdata b') = skipped_transactions (bdata b) ++ l → spoiled b'.
Proof. intros (id & e & Hin & He) Hs. exists id, e. split; [|done]. rewrite Hs. set_solver. Qed.

Lemma l2_tx_replayed n limit tx (s s' : PState) limit' :
  trusted tx → replayed (pb s) → 0 ≤ n → room (n + 1) (pb s) →
  process_l2_tx ex cb price limit tx s = Some (s', Ok limit') → replayed (pb s') ∧ room n (pb s').
Proof using Type*.
  intros Htr Hr Hn Hroom. unfold process_l2_tx. destruct (maybe_checked_max_gas ex tx) as [g|] eqn:Hg; [|done].
  apply max_gas_chargeable in Hg. case_decide.
  { intros [= <- <-]. cbn [pb]. split; [by apply (skip_replayed _ (pb s))|].
    destruct Hroom; [left; by eapply spoiled_more|right; simpl; lia]. }
  destruct (step tx price cb (pb s)) as [b' r] eqn:Hstep. destruct (preconfirmation_of _ _ _ _) as [pre|]; [|done]. simpl.
  destruct (try_send _ _) as [sent p]. intros [= <- <-]. cbn [pb].
  pose proof Hr as (Hs & Hh & Hrep). destruct (step_chargeable _ _ _ _ _ _ _ Hg Hs Hstep) as (Hs' & Hhd & Hsk & _ & Hres).
  destruct r as [[]|e].
  - destruct Hres as [Hc _]. split.
    + eapply step_again in Hstep as (tx' & Hbl & Hv & _ & _ & _); [|by destruct tx as [[]|]|done|by rewrite Hh].
      split_and!; [done|congruence|by eapply validated_follows].
    + destruct Hroom; [left; eapply (spoiled_more _ _ []); [done|by rewrite app_nil_r]|right; lia].
  - set (b1 := with_bdata (push_skipped (maybe_checked_id ex tx, e)) b').
    assert (spoiled b1 → replayed b1 ∧ room n b1) as Hsp.
    { intros Hsp. split; [|by left]. split_and!; [done|simpl; congruence|by left]. }
    destruct (decide (overflow e)) as [Ho|Ho].
    { apply Hsp. exists (maybe_checked_id ex tx), e. split; [|done]. simpl. set_solver. }
    destruct Hroom as [Hroom|Hroom]; [apply Hsp; eapply spoiled_more; [done|]; simpl; by rewrite Hsk|].
    destruct (Hres ltac:(lia) Ho) as (Hbl & Hst & Ha). split; [by eapply skip_replayed|].
    right. simpl. rewrite <- (ag_count _ _ Ha). lia.
Qed.

Lemma batch_replayed l : ∀ limit (s s' : PState),
  Forall trusted l → replayed (pb s) → room (Z.of_nat (length l)) (pb s) →
  process_batch ex cb price limit l s = Some (s', Ok ()) → replayed (pb s').
Proof using Type*.
  induction l as [|tx l IH]; intros limit s s' Hl Hr Hc; simpl; [by intros [= <-]|].
  inversion_clear Hl as [|? ? Htx Htxs].
  destruct (process_l2_tx _ _ _ _ _ _) as [[s1 [limit1|]]|] eqn:Hp; simpl; [|done|done].
  eapply (l2_tx_replayed (Z.of_nat (length l))) in Hp as [Hr1 Hc1]; [by eapply IH|done|done|lia|].
  cbn [length] in Hc. by replace (Z.of_nat (length l) + 1) with (Z.of_nat (Datatypes.S (length l))) by lia.
Qed.

Lemma rounds_replayed (I : P → Prop) fuel b p b' p' :
  hands_out trusted I → replayed b → I p →
  production_rounds ex fuel cb price b p = Some (b', p', Ok ()) → replayed b'.
Proof using Type*.
  intros Hsrc. apply (rounds_ind cb price trusted I replayed Hsrc).
  intros l s s' Hn Hl Hlen Hr. apply batch_replayed; [done|done|]. right.
  destruct l; [done|]. unfold remaining_count, sat_sub, max_tx_count in Hlen. simpl length in *. lia.
Qed.
End rounds.

(** ** Transactions from the relayer *)

(** Checked transactions carry their identifiers. *)
Definition named (tx : MaybeCheckedTransaction) : Prop :=
  match tx with
  | MaybeChecked (CheckedChargeable c) _ => ck_id c = tx_id chain (TxChargeable (ck_tx c))
  | MaybeChecked (CheckedMint _) _ => False
  | NotChecked _ => True
  end.

Definition forced_ok (c : CheckedTransaction) : Prop :=
  ∀ v, is_chargeable (MaybeChecked c v) ∧ named (MaybeChecked c v).

Lemma forced_tx_ok t h (st : InMemoryTransaction D) c : validate_forced_tx ex t h st = Ok c → forced_ok c.
Proof using Type*.
  unfold validate_forced_tx. destruct (parse_tx_bytes t) as [[|tx]|]; [done| |done]. simpl.
  unfold relayed_tx_claimed_enough_max_gas. simpl. case_decide; [done|]. simpl.
  destruct (into_checked_reusable_memory _ _ _ _) as [c'|] eqn:Hr; [|done]. intros [= <-] v.
  apply reusable_result in Hr as [Hu Hi]. destruct c'; [done|]. injection Hu as <-. done.
Qed.

Lemma fold_until_ind {St A} (I : St → Prop) (f : St → A → St * result unit ExecutorError) l s :
  (∀ s a, I s → I (f s a).1) → I s → I (fold_until f s l).1.
Proof.
  intros Hf. revert s. induction l as [|a l IH]; intros s Hs; [done|]. simpl. specialize (Hf s a Hs).
  destruct (f s a) as [s1 [|]]; [by apply IH|done].
Qed.

(** The block under construction while [process_da] runs. *)
Definition da_block (p : PartialFuelBlock Transaction) (s : DaState) : BState :=
  {| bblock := p; bstorage := da_storage s; bdata := da_data s |}.

(** What the events of the relayer and each forced transaction keep. *)
Lemma process_l1_ind (I : BState → Prop) cb b b' :
  (∀ p h da (s : DaState) ev, I (da_block p s) → I (da_block p (process_event ex h da s ev).1)) →
  (∀ root b, I b → I (with_bdata (with_event_inbox_root root) b)) →
  (∀ b c, forced_ok c → I b → I (process_relayed_tx ex cb b c)) →
  I b → process_l1_txs ex cb b = (b', Ok ()) → I b'.
Proof using Type*.
  intros Hev Hroot Htx Hb. unfold process_l1_txs, get_relayed_txs.
  assert (∀ forced b1, Forall forced_ok forced → I b1 → I (process_relayed_txs ex forced cb b1)) as Hrel.
  { unfold process_relayed_txs. induction forced as [|c forced IH]; intros b1 Hf Hb1; [done|]. inversion_clear Hf.
    apply IH; [done|]. by apply Htx. }
  destruct (get_events ex) as [events_at|]; [|by intros [= <-]].
  unfold process_da. case_decide; [done|]. destruct (table_get _ _ _) as [[prev|]|]; [|done|done]. case_decide; [done|].
  set (s0 := Build_DaState _ _ _ _). set (J := λ s, I (da_block (bblock b) s) ∧ Forall forced_ok (checked_forced_txs s)).
  assert (J (fold_until (process_da_height ex events_at (height (p_consensus (pf_header (bblock b))))) s0
    (heights (da_height (application (header prev)) + 1) (da_height (p_application (pf_header (bblock b)))))).1) as [Hda Hf].
  { apply fold_until_ind; [|by split; [destruct b|]]. intros s da Hs. unfold process_da_height. destruct (events_at da); [|done].
    apply fold_until_ind; [|done]. clear s Hs. intros s ev [Hs Hf]. split; [by apply Hev|].
    destruct ev as [m|t]; cbn [process_event]; [by case_decide|].
    destruct (validate_forced_tx _ _ _ _) eqn:Hv; [|done]. simpl. apply Forall_app. split; [done|].
    apply Forall_singleton. by eapply forced_tx_ok. }
  destruct (fold_until _ _ _) as [s [[]|]]; [|done]. intros [= <-]. apply Hrel; [done|].
  by apply (Hroot _ (da_block (bblock b) s)).
Qed.

Lemma l1_sound db cb b b' :
  sound db b → skipped_transactions (bdata b) = [] → process_l1_txs ex cb b = (b', Ok ()) →
  sound db b' ∧ pf_header (bblock b') = pf_header (bblock b) ∧ skipped_transactions (bdata b') = [].
Proof using Type*.
  intros Hs Hsk.
  apply (process_l1_ind (λ b1, sound db b1 ∧ pf_header (bblock b1) = pf_header (bblock b) ∧ skipped_transactions (bdata b1) = [])).
  - intros p h da s ev ([Hp Hb] & Hh & Hk). destruct ev as [m|t]; cbn [process_event].
    + case_decide; [by split_and!|]. split_and!; try done. split; [done|]. intros id x Hx. apply Hb in Hx. rewrite <- Hx.
      etrans; [apply record_view|]. by rewrite decide_False by naive_solver.
    + by destruct (validate_forced_tx ex t h (da_storage s)).
  - done.
  - intros b1 c Hc (Hs1 & Hh1 & Hk1). unfold process_relayed_tx.
    destruct (execute_transaction_and_commit _ _ _ _ _) as [b2 r] eqn:Hx.
    eapply step_chargeable in Hx as (? & ? & ? & _); [|apply Hc|done]. destruct r; (split_and!; [done|simpl; congruence..]).
  - done.
Qed.

(** ** The block *)

Lemma transactions_match l : check_transactions_match ex (zip l l) = Ok ().
Proof.
  unfold check_transactions_match. generalize (). induction l as [|tx l IH]; intros []; simpl; [done|].
  rewrite decide_True by done. apply IH.
Qed.

Lemma block_matches (p : PartialFuelBlock Transaction) block (d d' : ExecutionData Receipt ProgramState) :
  header_error (generate_block p (message_ids d) (xevent_inbox_root d)) = Ok block → agree d d' →
  check_block_matches ex p block d' = Ok () ∧ partial_header (header block) = pf_header p ∧
  transactions block = pf_transactions p.
Proof.
  intros Hg Ha. destruct (generate_block _ _ _) as [block'|] eqn:Hgen; [|done]. injection Hg as <-.
  pose proof (block_new_ok _ _ _ _ _ Hgen) as (_ & _ & [= Hh Ht]). split_and!; [|done|done].
  unfold check_block_matches. rewrite Ht, transactions_match. cbn [result_bind].
  rewrite <- (ag_ids _ _ Ha), <- (ag_root _ _ Ha), Hgen. cbn [header_error result_bind]. unfold headers_match.
  by rewrite !bool_decide_true.
Qed.

Lemma produce_validates db {P} `{!ProductionPorts P} (I : P → Prop) fuel (c : Components P) st p partial d ch block :
  policy st = PolicyOverwrite → blobs_kept db (view_of st) →
  hands_out (honest params (allow_syscall (options ex)) (height (p_consensus (header_to_produce c)))
    (consensus_parameters_version (p_application (header_to_produce c))) db) I → I (transactions_source c) →
  produce_block ex fuel c st = Some (p, Ok (partial, d, ch)) →
  header_error (generate_block partial (message_ids d) (xevent_inbox_root d)) = Ok block →
  partial_header (header block) = header_to_produce c ∧
  ((∃ id e, (id, e) ∈ skipped_transactions d ∧ overflow e) ∨
   ∃ d', validate_block ex block st = Ok (d', ch) ∧ agree d d' ∧ (skipped_transactions d = [] → d' = d)).
Proof using Type*.
  intros Hp Hdb Hsrc Hi Hprod Hgen. unfold produce_block in Hprod. set (cb := coinbase_recipient c) in *.
  destruct (process_l1_txs ex cb _) as [b0 [[]|]] eqn:Hl1; [|done].
  destruct (l1_sound db cb (new_block (header_to_produce c) st) b0 ltac:(by split) eq_refl Hl1) as (Hs0 & Hh0 & Hk0).
  destruct (production_rounds ex fuel _ _ b0 _) as [[[b1 p1] [[]|]]|] eqn:Hrounds; [|done|done]. simpl in Hprod.
  assert (replayed db (gas_price c) cb b0 b1) as (Hs1 & Hh1 & Hf1).
  { eapply (rounds_replayed _ _ _ _ I), Hrounds; [by rewrite Hh0| |done]. split_and!; [done..|]. right. exists [], b0.
    split_and!; [by rewrite app_nil_r|done|by split|done]. }
  destruct (produce_mint_tx ex cb (gas_price c) b1) as [b2 [[]|]] eqn:Hmint; [|done]. injection Hprod as <- <- <- <-.
  unfold produce_mint_tx in Hmint. eapply step_again in Hmint as (tx' & Hbl & Hv & _ & Hsk & Hm); [|done..].
  destruct tx' as [m'|]; [|by destruct (Hm _ eq_refl)]. destruct Hm as (Hprice & m0 & [= <-] & Hcb). simpl in Hcb.
  assert (pf_header (bblock b2) = header_to_produce c) as Hh2 by (rewrite Hbl; simpl; rewrite Hh1; exact Hh0).
  destruct (block_matches (bblock b2) block (bdata b2) (bdata b2) Hgen) as (_ & Hph & Htx); [done|].
  split; [by rewrite Hph|]. pose proof (validated_follows _ _ _ _ _ _ Hf1 Hbl Hsk Hv) as [Hsp|Hf2]; [by left|]. right.
  destruct Hf2 as (txs & bv & Htxs & Hfold & [Hb Hst Ha] & Heq). exists (bdata bv).
  split_and!; [|done|intros Hn; by rewrite (Heq Hn)]. unfold validate_block, get_coinbase_info_from_mint_tx.
  rewrite Htx, Hbl. cbn [push_transaction pf_transactions]. rewrite last_snoc. cbn [result_bind].
  rewrite Hprice, Hcb, Hph, Hh2, Hl1. rewrite Hbl in Htxs. cbn [push_transaction pf_transactions] in Htxs.
  rewrite Htxs, drop_app_length, Hfold. destruct (block_matches (bblock b2) block (bdata b2) (bdata bv) Hgen Ha) as (Hok & _ & _).
  by rewrite Hb, Hok, Hst.
Qed.
End produce.
