(* ===== verification/ExecutorEffects.v ===== *)
(** * Effects of an executed transaction

    What a transaction that is executed does: the tables of coins and messages change as its
    events say, it is marked as processed, and its status, fee and gas are added to the
    execution data. *)

From stdpp Require Import prelude gmap list strings.
From Stdlib Require Import ZArith Lia.
From S2P Require Import Prelude.
From S2P Require Import StorageTx.
From S2P Require Import HistoricalDb.
From S2P Require Import Database.
From S2P Require Import Tables.
From S2P Require Import Blocks.
From S2P Require Import BlockStore.
From S2P Require Import Producer.
From S2P Require Import ExecTypes.
From S2P Require Import VmStorage.
From S2P Require Import Executor.
From S2P Require Import ExecutorMonad.
From S2P Require Import ExecutorReplay.
From S2P Require Import ExecutorBlock.
Local Open Scope Z_scope.

(** ** Columns of the virtual machine *)

Definition vm_columns : list Z :=
  [CONTRACTS_RAW_CODE_COLUMN; CONTRACTS_STATE_COLUMN; CONTRACTS_ASSETS_COLUMN; UPLOADED_BYTECODES_COLUMN;
   BLOBS_COLUMN; CONSENSUS_PARAMETERS_VERSIONS_COLUMN; STATE_TRANSITION_BYTECODE_VERSIONS_COLUMN].

Section vm.
Context {Params : Type} (ser_params : Params → Value) (de_params : Value → option Params).
Context {Tx Signature : Type} `{!ChainCrypto Tx Signature} `{!BlockCodecs Tx Signature} `{!MerkleTree}.
Context {S : Type} `{!KeyValueInspect S}.
Implicit Types (t : InMemoryTransaction S).

(** The other columns have no new changes. *)
Definition untouched t t' : Prop :=
  storage t' = storage t ∧ ∀ k c, c ∉ vm_columns → change_at (changes t') k c = change_at (changes t) k c.

#[global] Instance untouched_preorder : PreOrder untouched.
Proof. split; [by intros t|]. intros t1 t2 t3 [? H1] [? H2]. split; [congruence|]. intros k c Hc. by rewrite H2, H1. Qed.

Lemma record_untouched t key column op : column ∈ vm_columns → untouched t (record t key column op).
Proof. intros Hc. split; [done|]. intros k c Hn. simpl. rewrite change_at_record, decide_False; naive_solver. Qed.

Lemma vm_column_ok k : vm_column k ∈ vm_columns.
Proof. apply (bool_decide_unpack _). by destruct k. Qed.

Lemma range_untouched c range : ∀ key first t, untouched t (contract_state_remove_range c key range first t).1.
Proof.
  induction range as [|range IH]; intros key first t; [done|]. simpl. case_decide; [done|].
  etrans; [|apply IH]. apply record_untouched. apply (bool_decide_unpack _). done.
Qed.

Lemma vm_call_untouched vm {X} (e : VmEv Params X) t reads : untouched t (vm_call ser_params de_params vm e t reads).1.1.
Proof.
  assert (CONSENSUS_PARAMETERS_VERSIONS_COLUMN ∈ vm_columns ∧ STATE_TRANSITION_BYTECODE_VERSIONS_COLUMN ∈ vm_columns ∧
    CONTRACTS_RAW_CODE_COLUMN ∈ vm_columns ∧ CONTRACTS_STATE_COLUMN ∈ vm_columns) as (H1 & H2 & H3 & H4).
  { split_and!; by apply (bool_decide_unpack _). }
  destruct e as [k|k|k|k|k|k v|k v|k|k| | | |h|h| |version p|version hash|l code c|c start range];
    try done; try apply record_untouched, vm_column_ok; unfold vm_call.
  - unfold plain_replace, and_then, replace. destruct (old_value _ _ _); by apply record_untouched.
  - unfold plain_replace, and_then, replace. destruct (old_value _ _ _); by apply record_untouched.
  - unfold deploy_contract_with_id, and_then, put, plain_insert_batch.
    etrans; [by apply (record_untouched t (vm_bytes (KCode c)) _ (Insert code) H3)|].
    split; [done|]. intros k col Hc. unfold batch_write. simpl. unfold change_at at 1.
    rewrite lookup_insert_ne; [done|]. intros <-. by apply Hc.
  - pose proof (range_untouched c range (from_be_bytes start) true t) as Hr.
    by destruct (contract_state_remove_range _ _ _ _ _).
Qed.

Lemma vm_run_untouched vm {A} (p : VmProg Params A) : ∀ t reads,
  untouched t (vm_run ser_params de_params vm p t reads).1.1.
Proof.
  induction p as [a|X e k IH]; intros t reads; [done|]. simpl.
  pose proof (vm_call_untouched vm e t reads) as Hc. destruct (vm_call _ _ _ _ _ _) as [[t1 reads1] x].
  etrans; [exact Hc|apply IH].
Qed.
End vm.

(** ** Events *)

Section events.
Context `{SC : StateCodecs}.

(** What an event says of the tables of coins and messages. *)
Definition apply_event (v : View.t) (ev : ExecutorEvent) : View.t :=
  match ev with
  | CoinCreated c => View.set (utxo_key (coin_utxo_id c)) COINS_COLUMN (Some (ser_coin (compressed c))) v
  | CoinConsumed c => View.set (utxo_key (coin_utxo_id c)) COINS_COLUMN None v
  | MessageImported m => View.set (nonce m) MESSAGES_COLUMN (Some (ser_message m)) v
  | MessageConsumed m => View.set (nonce m) MESSAGES_COLUMN None v
  | ForcedTransactionFailed _ _ _ => v
  end.

(** A created coin is new, and what is consumed is there. *)
Definition event_fits (v : View.t) (ev : ExecutorEvent) : Prop :=
  match ev with
  | CoinCreated c => v (utxo_key (coin_utxo_id c)) COINS_COLUMN = Ok None
  | CoinConsumed c => ∃ x, v (utxo_key (coin_utxo_id c)) COINS_COLUMN = Ok (Some x) ∧ de_coin x = Some (compressed c)
  | MessageConsumed m => ∃ x, v (nonce m) MESSAGES_COLUMN = Ok (Some x) ∧ de_message x = Some m
  | MessageImported _ | ForcedTransactionFailed _ _ _ => True
  end.

Fixpoint events_fit (v : View.t) (evs : list ExecutorEvent) : Prop :=
  match evs with
  | [] => True
  | ev :: evs => event_fits v ev ∧ events_fit (apply_event v ev) evs
  end.

(** The columns that events describe. *)
Definition event_column (c : Z) : Prop := c = COINS_COLUMN ∨ c = MESSAGES_COLUMN.

Definition same_columns (v v' : View.t) : Prop := ∀ k c, event_column c → v k c = v' k c.

#[global] Instance same_columns_equiv : Equivalence same_columns.
Proof.
  split; [by intros v k c|intros v v' H k c Hc; by rewrite H|].
  intros v1 v2 v3 H1 H2 k c Hc. by rewrite H1, H2.
Qed.

#[global] Instance apply_event_proper : Proper (same_columns ==> eq ==> same_columns) apply_event.
Proof.
  intros v v' Hv ev _ <- k c Hc. destruct ev; simpl; unfold View.set; try case_decide; try done; by apply Hv.
Qed.

#[global] Instance apply_events_proper : Proper (same_columns ==> eq ==> same_columns) (foldl apply_event).
Proof.
  intros v v' Hv evs _ <-. revert v v' Hv. induction evs as [|ev evs IH]; intros v v' Hv; [done|]. simpl.
  apply IH. by rewrite Hv.
Qed.

#[global] Instance events_fit_proper : Proper (same_columns ==> eq ==> iff) events_fit.
Proof.
  intros v v' Hv evs _ <-. revert v v' Hv. induction evs as [|ev evs IH]; intros v v' Hv; [done|]. simpl.
  rewrite (IH _ (apply_event v' ev)) by by rewrite Hv.
  assert (event_fits v ev ↔ event_fits v' ev) as ->; [|done].
  assert (∀ k, v k COINS_COLUMN = v' k COINS_COLUMN) as Hc by (intros; apply Hv; by left).
  assert (∀ k, v k MESSAGES_COLUMN = v' k MESSAGES_COLUMN) as Hm by (intros; apply Hv; by right).
  destruct ev; simpl; rewrite ?Hc, ?Hm; naive_solver.
Qed.

Lemma events_fit_app v evs evs' :
  events_fit v (evs ++ evs') ↔ events_fit v evs ∧ events_fit (foldl apply_event v evs) evs'.
Proof. revert v. induction evs as [|ev evs IH]; intros v; simpl; [naive_solver|]. rewrite IH. naive_solver. Qed.

(** Messages are under their nonces. *)
Definition messages_keyed (v : View.t) : Prop :=
  ∀ n x m, v n MESSAGES_COLUMN = Ok (Some x) → de_message x = Some m → nonce m = n.

#[global] Instance messages_keyed_proper : Proper (same_columns ==> iff) messages_keyed.
Proof.
  intros v v' Hv. unfold messages_keyed.
  assert (∀ k, v k MESSAGES_COLUMN = v' k MESSAGES_COLUMN) as Hm by (intros; apply Hv; by right).
  by setoid_rewrite Hm.
Qed.

(** The events lead from one view to the other. *)
Record replays (v : View.t) (evs : list ExecutorEvent) (v' : View.t) : Prop := {
  rp_fit : events_fit v evs;
  rp_same : same_columns v' (foldl apply_event v evs);
}.

Lemma replays_app v1 v2 v3 evs evs' : replays v1 evs v2 → replays v2 evs' v3 → replays v1 (evs ++ evs') v3.
Proof.
  intros [F1 S1] [F2 S2]. split.
  - apply events_fit_app. split; [done|]. by rewrite <- S1.
  - rewrite foldl_app, S2, S1. done.
Qed.

Lemma replays_nil v v' : same_columns v v' → replays v [] v'.
Proof. intros H. by split. Qed.

Context `{!StateCodecsLaws}.

Lemma apply_event_keyed v ev : messages_keyed v → messages_keyed (apply_event v ev).
Proof using Type*.
  intros Hv n x m. destruct ev; simpl; unfold View.set; try apply Hv; try case_decide as Hd; try apply Hv; try naive_solver.
  destruct Hd as [-> _]. intros [= <-]. rewrite de_ser_message. by intros [= ->].
Qed.

Lemma replays_keyed v evs v' : replays v evs v' → messages_keyed v → messages_keyed v'.
Proof using Type*.
  intros [_ ->] Hv. revert v Hv. induction evs as [|ev evs IH]; intros v Hv; [done|]. by apply IH, apply_event_keyed.
Qed.
End events.

(** ** Successful computations *)

Section effects.
Context {Signature : Type} `{FV : FuelVm} `{!ChainCrypto Transaction Signature}.
Context `{!BlockCodecs Transaction Signature} `{SC : StateCodecs} `{MT : MerkleTree}.
Context `{!HashOrder Z} `{!HashOrder Key} `{!StateCodecsLaws} `{!FuelVmLaws Signature}.
Context {D : Type} `{!KeyValueInspect D}.
Context (ex : BlockExecutor).
Abbreviation X := (@X _ D).
Abbreviation XState := (@XState _ D).
Implicit Types (s : XState).

(** When it succeeds, the states are related. *)
Definition sure {A} (R : XState → XState → Prop) (m : X A) : Prop := ∀ s s' a, m s = (s', Ok a) → R s s'.

Section sure.
Context (R : XState → XState → Prop) `{!PreOrder R}.

Lemma sure_bind {A B} (m : X A) (f : A → X B) : sure R m → (∀ a, sure R (f a)) → sure R (m ≫= f).
Proof using Type*. intros Hm Hf s s' b (a & s1 & H1 & H2)%x_bind_ok. etrans; [by eapply Hm|by eapply Hf]. Qed.
Lemma sure_for {A} (f : A → X unit) l : (∀ a, sure R (f a)) → sure R (x_for f l).
Proof using Type*.
  intros Hf. induction l as [|a l IH]; [by intros s s' [] [= <-]|]. apply sure_bind; [apply Hf|]. by intros _.
Qed.
Lemma sure_ret {A} (a : A) : sure R (mret a).
Proof using Type*. by intros s s' b [= <- _]. Qed.
Lemma sure_fail {A} e : sure R (fail (A := A) e).
Proof using Type*. by intros s s' b. Qed.
Lemma sure_lift {A} (r : result A ExecutorError) : sure R (lift r).
Proof using Type*. by intros s s' b [= <- _]. Qed.
Lemma sure_get_data : sure R get_data.
Proof using Type*. by intros s s' b [= <- _]. Qed.
Lemma sure_require b e : sure R (require b e).
Proof using Type*. destruct b; [apply sure_ret|apply sure_fail]. Qed.
End sure.

Abbreviation forbid := (forbid_fake_coins (options ex)).

(** The tables of coins and messages change as the events say, unless fake coins are allowed;
    nothing else is processed. *)
Record logged s s' : Prop := {
  lg_policy : policy (xstorage s') = policy (xstorage s);
  lg_storage : storage (xstorage s') = storage (xstorage s);
  lg_events : forbid = true → policy (xstorage s) = PolicyOverwrite → messages_keyed (view_of (xstorage s)) →
    ∃ evs, xevents (xdata s') = xevents (xdata s) ++ evs ∧
      replays (view_of (xstorage s)) evs (view_of (xstorage s'));
  lg_processed : policy (xstorage s) = PolicyOverwrite →
    ∀ k, view_of (xstorage s') k PROCESSED_TRANSACTIONS_COLUMN = view_of (xstorage s) k PROCESSED_TRANSACTIONS_COLUMN;
}.

#[global] Instance logged_preorder : PreOrder logged.
Proof using Type*.
  split.
  - intros s. split; [done|done| |done]. intros _ _ _. exists []. split; [by rewrite app_nil_r|by apply replays_nil].
  - intros s1 s2 s3 [P1 S1 E1 M1] [P2 S2 E2 M2]. split; [congruence|congruence| |].
    + intros Hf Hp Hk. destruct (E1 Hf Hp Hk) as (evs1 & He1 & R1).
      destruct (E2 Hf ltac:(congruence) (replays_keyed _ _ _ R1 Hk)) as (evs2 & He2 & R2).
      exists (evs1 ++ evs2). split; [by rewrite He2, He1, app_assoc|by eapply replays_app].
    + intros Hp k. rewrite M2, M1; congruence.
Qed.

Lemma old_value_view (t : InMemoryTransaction (InMemoryTransaction D)) k c : old_value t k c = view_of t k c.
Proof. unfold old_value, view_of. simpl. unfold tx_get. by destruct (get_from_changes t k c) as [[]|]. Qed.

(** One change with one event. *)
Lemma logged_event s ev key column op :
  (forbid = true → messages_keyed (view_of (xstorage s)) → event_fits (view_of (xstorage s)) ev ∧
    ∀ k c, event_column c → apply_event (view_of (xstorage s)) ev k c = View.set key column (View.value_of op) (view_of (xstorage s)) k c) →
  column ≠ PROCESSED_TRANSACTIONS_COLUMN →
  logged s {| xdata := push_event ev (xdata s); xstorage := record (xstorage s) key column op |}.
Proof using Type*.
  intros Hev Hc. split; [done|done| |].
  - intros Hforbid _ Hk. destruct (Hev Hforbid Hk) as [Hf Ha]. exists [ev]. split; [done|]. split; [done|]. intros k c Hcol.
    simpl. rewrite (Ha k c Hcol). etrans; [apply record_view|done].
  - intros _ k. etrans; [apply record_view|]. by rewrite decide_False by naive_solver.
Qed.

(** A change of another table. *)
Lemma put_logged {K V} (tb : Table K V) k v :
  ¬ event_column (t_column tb) → t_column tb ≠ PROCESSED_TRANSACTIONS_COLUMN →
  sure logged (access (D := D) (λ t, plain_put tb t k v)).
Proof using Type*.
  intros He Hp s s' [] [= <-]. split; [done|done| |].
  - intros _ _ _. exists []. split; [by rewrite app_nil_r|]. apply replays_nil. intros k' c Hc. symmetry.
    etrans; [apply record_view|]. rewrite decide_False; [done|]. intros [_ ->]. done.
  - intros _ k'. etrans; [apply record_view|]. rewrite decide_False; [done|]. intros [_ Heq]. congruence.
Qed.

Lemma insert_coin_logged h id amount asset to : sure logged (insert_coin (D := D) h id amount asset to).
Proof using Type*.
  intros s s' []. unfold insert_coin. case_decide; [|by intros [= <-]]. rewrite get_data_bind.
  set (coin := Build_CompressedCoin _ _ _ _).
  intros (prev & s1 & Ha & Hx)%x_bind_ok. rewrite require_bind in Hx.
  destruct (negb _) eqn:Hn; [|done]. apply negb_true_iff, bool_decide_eq_false in Hn. injection Hx as <-.
  unfold access, plain_replace, and_then, replace in Ha.
  destruct (old_value _ _ _) as [o|] eqn:Ho; [|done]. cbn [storage_error] in Ha.
  destruct o as [x|]; simpl in Ha; [destruct (de_coin x); naive_solver|]. injection Ha as <- <-.
  apply (logged_event s _ (utxo_key id) COINS_COLUMN (Insert (ser_coin coin))); [|done]. intros _ _. split; [|done].
  rewrite old_value_view in Ho. exact Ho.
Qed.

Lemma spend_message_logged m : sure logged (spend_message (D := D) m).
Proof using Type*.
  intros s s' []. unfold spend_message. intros (o & s1 & Ha & Hx)%x_bind_ok. rewrite lift_bind in Hx.
  destruct o as [msg|]; [|done]. injection Hx as <-. unfold access, plain_take, and_then, take_value in Ha.
  destruct (old_value _ _ _) as [x|] eqn:Ho; [|done]. destruct x as [x|]; simpl in Ha; [|done].
  destruct (de_message x) as [msg'|] eqn:Hd; [|done]. injection Ha as <- ->. simpl. rewrite old_value_view in Ho.
  apply (logged_event s _ (m_nonce m) MESSAGES_COLUMN Remove); [|done]. intros _ Hk.
  pose proof (Hk _ _ _ Ho Hd) as Hn. simpl. rewrite Hn. split; [by eauto|done].
Qed.

Lemma spend_coin_logged c : sure logged (spend_coin (D := D) ex c).
Proof using Type*.
  intros s s' []. unfold spend_coin. intros (o & s1 & Ha & Hx)%x_bind_ok. rewrite get_storage_bind, lift_bind in Hx.
  unfold access, plain_take, and_then, take_value in Ha.
  destruct (old_value _ _ _) as [x|] eqn:Ho; [|done]. rewrite old_value_view in Ho. destruct x as [x|]; simpl in Ha.
  - destruct (de_coin x) as [coin|] eqn:Hd; [|done]. injection Ha as <- <-. injection Hx as <-.
    apply (logged_event s _ (utxo_key (utxo_id c)) COINS_COLUMN Remove); [|done]. intros _ _. simpl. split; [by eauto|done].
  - injection Ha as <- <-. destruct (get_coin_or_default _ _ _ _ _ _) as [coin|] eqn:Hg; [|done]. injection Hx as <-.
    apply (logged_event s _ (utxo_key (utxo_id c)) COINS_COLUMN Remove); [|done]. intros Hforbid _.
    unfold get_coin_or_default in Hg. rewrite Hforbid in Hg. unfold table_get in Hg. simpl in Hg.
    rewrite tx_get_applied in Hg. simpl in Hg. by rewrite change_at_record, decide_True in Hg.
Qed.

Hint Resolve sure_bind sure_for sure_ret sure_fail sure_lift sure_get_data sure_require insert_coin_logged
  spend_message_logged spend_coin_logged : exec.

Lemma persist_outputs_logged h id ins outs : sure logged (persist_output_utxos (D := D) h id ins outs).
Proof using Type*.
  apply sure_bind; [apply _|apply sure_get_data, _|]. intros d. apply sure_for; [apply _|]. intros [i o].
  apply sure_bind; [apply _|apply sure_require, _|]. intros _.
  assert (∀ c info, sure logged (access (D := D) (λ t, plain_put ContractsLatestUtxo t c info))) as Hput.
  { intros c info. apply put_logged; [|done]. by intros [|]. }
  destruct o; auto with exec. destruct (nth_input _ _) as [[]|]; auto using sure_fail with exec typeclass_instances.
Qed.

Lemma spend_inputs_logged ins reverted : sure logged (spend_input_utxos (D := D) ex ins reverted).
Proof using Type*.
  apply sure_for; [apply _|]. intros []; simpl; try destruct reverted; auto using sure_ret with exec typeclass_instances.
Qed.

(** The virtual machine touches none of these tables. *)
Lemma commit_logged hd cb {A} (p : VmProg ConsensusParameters A) ch reads o s :
  run_recorded hd cb p (xstorage s) = (ch, reads, o) →
  logged s {| xdata := xdata s; xstorage := (tx_commit_changes ch (xstorage s)).1 |}.
Proof using Type*.
  unfold run_recorded. pose proof (vm_run_untouched ser_consensus_parameters de_consensus_parameters (VmStorage_new hd cb) p
    (with_policy PolicyOverwrite (into_transaction (xstorage s))) ∅) as [_ Hrun].
  destruct (vm_run _ _ _ _ _ _) as [[sub reads1] o1]. intros [= <- <- <-]. simpl in Hrun.
  assert (∀ k c, policy (xstorage s) = PolicyOverwrite → c ∉ vm_columns →
    view_of (tx_commit_changes (changes sub) (xstorage s)).1 k c = view_of (xstorage s) k c) as Hv.
  { intros k c Hp Hc. destruct (commit_view (changes sub) (xstorage s) k c Hp) as [-> _]. by rewrite (Hrun k c Hc). }
  split; simpl.
  - pose proof (tx_commit_ok (changes sub) (xstorage s)) as Hok. destruct (tx_commit_changes _ _) as [t' r]. apply Hok.
  - pose proof (tx_commit_ok (changes sub) (xstorage s)) as Hok. destruct (tx_commit_changes _ _) as [t' r]. apply Hok.
  - intros _ Hp _. exists []. split; [by rewrite app_nil_r|]. apply replays_nil. intros k c Hc. symmetry. apply Hv; [done|].
    destruct Hc as [-> | ->]; apply (bool_decide_unpack _); done.
  - intros Hp k. apply Hv; [done|]. apply (bool_decide_unpack _). done.
Qed.

Lemma attempt_logged c hd cb price : sure logged (attempt_tx_execution_with_vm (D := D) ex c hd cb price).
Proof using Type*.
  intros s s' [[[reverted state] tx] receipts].
  intros (ready & ch & reads & res & ins & before & after & ins' & outs & _ & Hrun & _ & _ & _ & _ & -> & _)%attempt_inv.
  destruct reverted; [by destruct s|]. by eapply commit_logged.
Qed.

(** ** Chargeable transactions *)

Definition fee_sum (l : list (TransactionExecutionStatus Receipt ProgramState)) : Z :=
  foldr Z.add 0 ((λ st, total_fee st) <$> l).
Definition gas_sum (l : list (TransactionExecutionStatus Receipt ProgramState)) : Z :=
  foldr Z.add 0 ((λ st, total_gas st) <$> l).

(** The status, fee and gas of a transaction are added. *)
Record charged (id : TxId) (d d' : ExecutionData Receipt ProgramState) : Prop := {
  ch_status : ∃ st, xtx_status d' = xtx_status d ++ [st] ∧ status_id st = id ∧
    coinbase d' = coinbase d + total_fee st ∧ used_gas d' = used_gas d + total_gas st;
  ch_fits : coinbase d' ≤ U64 ∧ used_gas d' ≤ U64 ∧ used_size d' ≤ U32;
  ch_count : xtx_count d' = xtx_count d;
  ch_mint : found_mint d' = found_mint d;
  ch_root : xevent_inbox_root d' = xevent_inbox_root d;
  ch_skipped : skipped_transactions d' = skipped_transactions d;
}.

Lemma update_charged tx receipts price reverted state id s s' u :
  update_execution_data ex tx receipts price reverted state id s = (s', Ok u) →
  charged id (xdata s) (xdata s') ∧ xstorage s' = xstorage s ∧ xevents (xdata s') = xevents (xdata s).
Proof.
  unfold update_execution_data. rewrite lift_bind. destruct (total_fee_paid _ _ _ _) as [[gas fee]|]; [|done].
  rewrite get_data_bind, require_bind. case_bool_decide; [|done].
  rewrite set_data_bind, require_bind. case_bool_decide; [|done].
  rewrite set_data_bind, require_bind. case_bool_decide; [|done]. rewrite set_data_bind.
  destruct reverted; intros [= <- _]; (split_and!; [|done|done]); (split; [|done..]); eexists; by split_and!.
Qed.

(** The processed transactions, with one more. *)
Definition also_processed (id : TxId) s s' : Prop := ∀ k,
  view_of (xstorage s') k PROCESSED_TRANSACTIONS_COLUMN =
  if decide (k = id) then Ok (Some []) else view_of (xstorage s) k PROCESSED_TRANSACTIONS_COLUMN.

(** What an executed transaction does. *)
Record effect (id : TxId) s s' : Prop := {
  ef_policy : policy (xstorage s') = policy (xstorage s);
  ef_storage : storage (xstorage s') = storage (xstorage s);
  ef_events : forbid = true → policy (xstorage s) = PolicyOverwrite → messages_keyed (view_of (xstorage s)) →
    ∃ evs, xevents (xdata s') = xevents (xdata s) ++ evs ∧ replays (view_of (xstorage s)) evs (view_of (xstorage s'));
  ef_processed : policy (xstorage s) = PolicyOverwrite → also_processed id s s';
}.

(** A computation around the mark of the transaction. *)
Lemma marked_effect id s s1 s2 :
  logged s s1 → xdata s2 = xdata s1 →
  xstorage s2 = record (xstorage s1) id PROCESSED_TRANSACTIONS_COLUMN (Insert []) → effect id s s2.
Proof.
  intros [Hp Hst He Hm] Hd Hs. split; rewrite ?Hs.
  - done.
  - done.
  - intros Hf Hpo Hk. destruct (He Hf Hpo Hk) as (evs & Hev & [Hfit Hsame]). exists evs. split; [by rewrite Hd|].
    split; [done|]. etrans; [|exact Hsame]. intros k c Hc. etrans; [apply record_view|]. rewrite decide_False; [done|].
    intros [_ ->]. by destruct Hc.
  - intros Hpo k. rewrite Hs. etrans; [apply record_view|]. rewrite <- (Hm Hpo k). by repeat case_decide; naive_solver.
Qed.

Lemma agree_charged d d' d'' id : agree d d' → skipped_transactions d' = skipped_transactions d → charged id d' d'' → charged id d d''.
Proof. intros [] ? [(st & ?) ? ? ? ? ?]. split; [exists st| | | | |]; naive_solver congruence. Qed.

Lemma chargeable_effect c hd cb price s s' tx :
  execute_chargeable_transaction ex c hd cb price s = (s', Ok tx) →
  charged (ck_id c) (xdata s) (xdata s') ∧ effect (ck_id c) s s'.
Proof using Type*.
  unfold execute_chargeable_transaction. rewrite get_storage_bind. intros Hx.
  apply x_bind_ok in Hx as (c1 & s1 & Hc1 & Hx).
  assert (s1 = s) as ->. { revert Hc1. case_match; by intros [= ?]. }
  apply x_bind_ok in Hx as ([[[reverted state] t] receipts] & s2 & Ha & Hx).
  apply x_bind_ok in Hx as ([] & s3 & Hs & Hx). apply x_bind_ok in Hx as ([] & s4 & Hp & Hx).
  apply x_bind_ok in Hx as ([] & s5 & Hm & Hx). apply x_bind_ok in Hx as ([] & s6 & Hu & Hx). injection Hx as -> _.
  assert (logged s s4) as Hlog.
  { etrans; [by eapply attempt_logged|]. etrans; [by eapply spend_inputs_logged|by eapply persist_outputs_logged]. }
  assert (agree_data s s4 ∧ same_skipped s s4) as [Hag Hsk].
  { pose proof (leaves_eq _ _ _ _ (attempt_quiet ex c1 hd cb price) Ha) as H1.
    pose proof (leaves_eq _ _ _ _ (spend_inputs_quiet ex (inputs t) reverted) Hs) as H2.
    pose proof (leaves_eq _ _ _ _ (persist_outputs_quiet _ _ _ _) Hp) as H3.
    pose proof (attempt_steady ex c1 hd cb price s) as [_ K1]. rewrite Ha in K1.
    pose proof (spend_inputs_steady ex (inputs t) reverted s2) as [_ K2]. rewrite Hs in K2.
    pose proof (persist_outputs_steady (height (p_consensus hd)) (ck_id c) (inputs t) (outputs t) s3) as [_ K3]. rewrite Hp in K3.
    split; [by etrans; [|etrans]|by etrans; [|etrans]]. }
  injection Hm as <-. apply update_charged in Hu as (Hch & Hst & Hev). split; [eapply agree_charged, Hch; [done|apply Hsk]|].
  assert (effect (ck_id c) s {| xdata := xdata s4; xstorage := record (xstorage s4) (ck_id c) PROCESSED_TRANSACTIONS_COLUMN (Insert []) |})
    as [E1 E0 E2 E3] by by eapply marked_effect.
  split; [by rewrite Hst|by rewrite Hst|rewrite Hst, Hev; exact E2|]. intros Hpo k. rewrite Hst. by apply E3.
Qed.

(** ** The mint transaction *)

Lemma mint_vm_logged hd cb id m i : sure logged (execute_mint_with_vm (D := D) ex hd cb id m i).
Proof using Type*.
  intros s s' [i' o']. unfold execute_mint_with_vm. rewrite get_storage_bind.
  destruct (run_recorded _ _ _ _) as [[ch reads] outcome] eqn:Hrun. apply commit_logged in Hrun.
  rewrite lift_bind. destruct outcome; [|done]. rewrite lift_bind. destruct (finalize _ _ _) as [[before after]|]; [|done].
  cbn [storage_error]. rewrite lift_bind. destruct (compute_inputs _ _ _ _) as [ins|]; [|done].
  intros (u & s1 & Hc & (u' & s2 & Hp & Hx)%x_bind_ok)%x_bind_ok. rewrite lift_bind in Hx.
  assert (s2 = s') as ->.
  { destruct (compute_state_of_not_utxo_outputs _ _ _ _) as [outs|]; [|done].
    destruct ins as [|[] ins]; try done. destruct outs as [|[] outs]; try done. by injection Hx. }
  etrans; [|by eapply persist_outputs_logged]. etrans; [exact Hrun|].
  unfold commit_to_storage, access in Hc. destruct (tx_commit_changes _ _). by injection Hc as <-.
Qed.

Lemma mint_vm_quiet hd cb id m i : leaves agree_data (execute_mint_with_vm (D := D) ex hd cb id m i).
Proof.
  unfold execute_mint_with_vm. apply leaves_bind; [apply _|auto with exec typeclass_instances|]. intros t.
  destruct (run_recorded _ _ _ _) as [[ch reads] outcome].
  apply leaves_bind; [apply _|auto with exec typeclass_instances|]. intros _.
  apply leaves_bind; [apply _|auto with exec typeclass_instances|]. intros [before after].
  apply leaves_bind; [apply _|auto with exec typeclass_instances|]. intros ins.
  apply leaves_bind; [apply _|apply leaves_access|]. intros _.
  apply leaves_bind; [apply _|apply persist_outputs_quiet|]. intros _.
  apply leaves_bind; [apply _|auto with exec typeclass_instances|]. intros outs.
  repeat case_match; auto with exec typeclass_instances.
Qed.

Lemma mint_effect (k : Checked Mint) hd cb price s s' tx :
  execute_mint ex k hd cb price s = (s', Ok tx) →
  tx_index (mint_tx_pointer (ck_tx k)) = xtx_count (xdata s) ∧ mint_gas_price (ck_tx k) = price ∧
  mint_amount (ck_tx k) = (if decide (ci_contract_id (input_contract (ck_tx k)) = zeroed) then 0 else coinbase (xdata s)) ∧
  agree (with_found_mint true (push_status {| status_id := ck_id k; status_result := Success None [] 0 0 |} (xdata s))) (xdata s') ∧
  effect (ck_id k) s s'.
Proof using Type*.
  unfold execute_mint. rewrite set_data_bind, get_data_bind, require_bind. intros Hx.
  case_bool_decide as Hidx; [|done]. rewrite require_bind in Hx. case_bool_decide as Hprice; [|done].
  apply x_bind_ok in Hx as (m & s1 & Hm & Hx). set (s0 := Build_XState _ _) in Hm.
  assert (logged s0 s1 ∧ agree_data s0 s1 ∧
    mint_amount (ck_tx k) = (if decide (ci_contract_id (input_contract (ck_tx k)) = zeroed) then 0 else coinbase (xdata s)))
    as (Hlog & Hag & Ham).
  { destruct (decide (ci_contract_id (input_contract (ck_tx k)) = zeroed)).
    - rewrite lift_bind in Hm. unfold verify_mint_for_empty_contract in Hm. case_decide as Hz; [done|].
      case_decide; [done|]. injection Hm as <- _. split_and!; [done|by red|lia].
    - rewrite require_bind in Hm. destruct (bool_decide _) eqn:Hb; [|done]. apply bool_decide_eq_true in Hb.
      rewrite get_storage_bind in Hm. apply x_bind_ok in Hm as (u & s2 & Hv & ([i o] & s3 & Hvm & Hm)%x_bind_ok).
      injection Hm as <- _. assert (s2 = s0) as ->. { revert Hv. case_match; by intros [= ?]. }
      split_and!; [by eapply mint_vm_logged|by eapply leaves_eq, Hvm; apply mint_vm_quiet|done]. }
  unfold store_mint_tx in Hx. rewrite set_data_bind in Hx. apply x_bind_ok in Hx as (prev & s2 & Ha & Hx).
  rewrite require_bind in Hx. destruct (negb _); [|done]. injection Hx as <- _.
  unfold access, plain_replace, and_then, replace in Ha. simpl in Ha.
  assert (s2 = {| xdata := push_status {| status_id := ck_id k; status_result := Success None [] 0 0 |} (xdata s1);
    xstorage := record (xstorage s1) (ck_id k) PROCESSED_TRANSACTIONS_COLUMN (Insert []) |}) as ->.
  { by destruct (old_value _ _ _); injection Ha as <- _. }
  split_and!; [done|done|done| |].
  - destruct Hag. split; simpl in *; congruence.
  - pose proof (marked_effect (ck_id k) s0 s1 {| xdata := xdata s1;
      xstorage := record (xstorage s1) (ck_id k) PROCESSED_TRANSACTIONS_COLUMN (Insert []) |} Hlog eq_refl eq_refl) as [E1 E0 E2 E3].
    by split.
Qed.
End effects.
