(* ===== verification/ExecutorAccounts.v ===== *)
(** * The accounts of a block

    What holds of a block whose transactions were executed: statuses and identifiers in the
    order of the transactions, the fee of the mint transaction, the processed transactions and
    the events. *)

From stdpp Require Import prelude gmap list strings.
From Stdlib Require Import ZArith Lia.
From S2P Require Import Prelude.
From S2P Require Import StorageTx.
From S2P Require Import HistoricalDb.
From S2P Require Import Database.
From S2P Require Import Tables.
From S2P Require Import Blocks.
From S2P Require Import BlockStore.
From S2P Require Import Producer.
From S2P Require Import ExecTypes.
From S2P Require Import VmStorage.
From S2P Require Import Executor.
From S2P Require Import ExecutorMonad.
From S2P Require Import ExecutorReplay.
From S2P Require Import ExecutorBlock.
From S2P Require Import ExecutorProduce.
From S2P Require Import ExecutorEffects.
Local Open Scope Z_scope.

Lemma exists_none {S} `{!KeyValueInspect S} `{!KeyValueLaws S} (s : S) k c : kv_exists s k c = Ok false → kv_get s k c = Ok None.
Proof.
  rewrite kv_exists_law. unfold default_exists. rewrite kv_size_law. unfold default_size_of_value.
  by destruct (kv_get s k c) as [[|]|].
Qed.

Section accounts.
Context {Signature : Type} `{FV : FuelVm} `{!ChainCrypto Transaction Signature}.
Context `{!BlockCodecs Transaction Signature} `{SC : StateCodecs} `{MT : MerkleTree}.
Context `{!HashOrder Z} `{!HashOrder Key} `{!StateCodecsLaws} `{!FuelVmLaws Signature}.
Context {D : Type} `{!KeyValueInspect D} `{!KeyValueLaws D}.
Context (ex : BlockExecutor).
Abbreviation XState := (@XState _ D).
Abbreviation BState := (@BState _ D).
Abbreviation params := (consensus_params ex).
Abbreviation chain := (params_chain_id (consensus_params ex)).
Abbreviation forbid := (forbid_fake_coins (options ex)).
Abbreviation step := (execute_transaction_and_commit (D := D) ex).
Abbreviation named := (named ex).
Implicit Types (s : XState) (b : BState).

(** ** A transaction *)

Lemma convert_named tx hd k :
  named tx → convert_maybe_checked_tx_to_checked_tx ex tx hd = Ok k →
  checked_id k = maybe_checked_id ex tx ∧ checked_id k = tx_id chain (unchecked k).
Proof using Type*.
  assert (∀ h tx0, checked_basic ex h tx0 = Ok k → unchecked k = tx0 ∧ checked_id k = tx_id chain tx0) as Hb.
  { intros h tx0 Hk%checked_basic_ok%basic_result. destruct tx0, k; simpl in Hk; try done; naive_solver. }
  destruct tx as [[m|c] v|tx0]; simpl; [done| |].
  - intros Hn. case_decide; [done|]. case_decide; [by intros [= <-]|].
    intros [Hu Hi]%Hb. rewrite Hu, Hi. by rewrite Hn.
  - intros _ [Hu Hi]%Hb. by rewrite Hu, Hi.
Qed.

(** The checks before an execution. *)
Lemma checks_ok c hd s s' c' :
  (if forbid then lift (extra_tx_checks ex c hd (xstorage s)) else mret c) s = (s', Ok c') → s' = s ∧ ck_tx c' = ck_tx c.
Proof using Type*.
  destruct forbid; [|by intros [= -> ->]]. intros [= <- Hc]. split; [done|]. unfold extra_tx_checks in Hc.
  destruct (check_predicates _ _ _ c) as [c2|] eqn:Hp; [|done]. simpl in Hc.
  destruct (verify_inputs_exist_and_values_match _ _ _); [|done]. simpl in Hc.
  destruct (check_signatures _ c2) as [c3|] eqn:Hs; [|done]. injection Hc as <-.
  by rewrite (signatures_result _ _ _ Hs), (predicates_result _ _ _ _ _ Hp).
Qed.

Lemma chargeable_strip c hd cb price s s' tx :
  execute_chargeable_transaction ex c hd cb price s = (s', Ok tx) → ∃ t, tx = TxChargeable t ∧ strip t = strip (ck_tx c).
Proof using Type*.
  unfold execute_chargeable_transaction. rewrite get_storage_bind. intros Hx.
  apply x_bind_ok in Hx as (c1 & s1 & Hc1 & Hx).
  apply x_bind_ok in Hx as ([[[reverted state] t] receipts] & s2 & Ha & Hx).
  assert (tx = TxChargeable t) as ->.
  { repeat (apply x_bind_ok in Hx as (? & ? & _ & Hx)). by injection Hx. }
  apply checks_ok in Hc1 as [-> Hc]. exists t. split; [done|]. by rewrite (attempt_strip _ _ _ _ _ _ _ _ _ _ _ Ha), Hc.
Qed.

Lemma execute_effect tx hd cb price s s' tx' :
  named tx → execute_transaction ex tx (maybe_checked_id ex tx) hd cb price s = (s', Ok tx') →
  maybe_checked_id ex tx = tx_id chain tx' ∧ found_mint (xdata s) = false ∧
  table_exists ProcessedTransactions (xstorage s) (tx_id chain tx') = Ok false ∧ effect ex (tx_id chain tx') s s' ∧
  match tx' with
  | TxChargeable _ => charged (tx_id chain tx') (xdata s) (xdata s')
  | TxMint m => tx_index (mint_tx_pointer m) = xtx_count (xdata s) ∧ mint_gas_price m = price ∧
      mint_amount m = (if decide (ci_contract_id (input_contract m) = zeroed) then 0 else coinbase (xdata s)) ∧
      agree (with_found_mint true (push_status {| status_id := tx_id chain tx'; status_result := Success None [] 0 0 |} (xdata s))) (xdata s')
  end.
Proof using Type*.
  intros Hn (Hf & Hp & k & Hk & Hx)%execute_inv. destruct (convert_named _ _ _ Hn Hk) as [Hid Hid'].
  destruct k as [m|c]; simpl in Hx, Hid, Hid'.
  - pose proof (mint_effect _ _ _ _ _ _ _ _ Hx) as (Hi & Hpr & Ham & Hag & He).
    apply mint_again in Hx as (m' & -> & Hs & Hpr' & Hc & _).
    assert (tx_id chain (TxMint m') = ck_id m) as Hidm. { rewrite Hid'. by apply tx_id_strip. }
    rewrite Hidm, <- Hid. split_and!; try done; [by rewrite Hid| |].
    + rewrite <- Hi. injection Hs; congruence.
    + rewrite Hc, <- Ham. injection Hs; congruence.
  - pose proof (chargeable_effect _ _ _ _ _ _ _ _ Hx) as (Hch & He).
    apply chargeable_strip in Hx as (t & -> & Hs).
    assert (tx_id chain (TxChargeable t) = ck_id c) as Hidc. { rewrite Hid'. apply tx_id_strip. simpl. by rewrite Hs. }
    rewrite Hidc, <- Hid. split_and!; try done. by rewrite Hid.
Qed.

(** ** A transaction of the block *)

(** A transaction was executed and put in the block. *)
Record pushed (tx : Transaction) b b' : Prop := {
  pu_block : bblock b' = push_transaction tx (bblock b);
  pu_found : found_mint (bdata b) = false;
  pu_new : view_of (bstorage b) (tx_id chain tx) PROCESSED_TRANSACTIONS_COLUMN = Ok None;
  pu_policy : policy (bstorage b') = PolicyOverwrite;
  pu_storage : storage (bstorage b') = storage (bstorage b);
  pu_processed k : view_of (bstorage b') k PROCESSED_TRANSACTIONS_COLUMN =
    if decide (k = tx_id chain tx) then Ok (Some []) else view_of (bstorage b) k PROCESSED_TRANSACTIONS_COLUMN;
  pu_events : forbid = true → messages_keyed (view_of (bstorage b)) →
    ∃ evs, xevents (bdata b') = xevents (bdata b) ++ evs ∧ replays (view_of (bstorage b)) evs (view_of (bstorage b'));
  pu_prefix : xevents (bdata b) `prefix_of` xevents (bdata b');
  pu_status : ∃ st, xtx_status (bdata b') = xtx_status (bdata b) ++ [st] ∧ status_id st = tx_id chain tx ∧
    coinbase (bdata b') = coinbase (bdata b) + total_fee st ∧
    used_gas (bdata b') = used_gas (bdata b) + total_gas st;
  pu_mint : found_mint (bdata b') = match tx with TxMint _ => true | TxChargeable _ => false end;
}.

Abbreviation start b :=
  {| xdata := bdata b; xstorage := with_policy PolicyOverwrite (into_transaction (bstorage b)) |}.

Lemma execute_pushed tx hd cb price b s tx' count :
  named tx → policy (bstorage b) = PolicyOverwrite →
  execute_transaction ex tx (maybe_checked_id ex tx) hd cb price (start b) = (s, Ok tx') →
  ∃ st, commit (xstorage s) = (st, Ok ()) ∧
    pushed tx' b {| bblock := push_transaction tx' (bblock b); bstorage := st; bdata := with_tx_count count (xdata s) |} ∧
    match tx' with
    | TxMint m => tx_index (mint_tx_pointer m) = xtx_count (bdata b) ∧ mint_gas_price m = price ∧
        mint_amount m = (if decide (ci_contract_id (input_contract m) = zeroed) then 0 else coinbase (bdata b))
    | TxChargeable _ => True
    end.
Proof using Type*.
  intros Hn Hp Hx.
  pose proof (execute_skipped ex tx (maybe_checked_id ex tx) hd cb price (start b)) as [_ Hpre]. rewrite Hx in Hpre.
  apply execute_effect in Hx as (Hid & Hf & Hex & [Epol Est Eev Epr] & Hdata); [|done]. simpl in Est, Epol.
  assert (∀ k c, view_of (commit (xstorage s)).1 k c = view_of (xstorage s) k c ∧ (commit (xstorage s)).2 = Ok () ∧
    policy (commit (xstorage s)).1 = PolicyOverwrite ∧ storage (commit (xstorage s)).1 = storage (bstorage b)) as Hv.
  { intros k c. unfold commit. rewrite Est. destruct (commit_view (changes (xstorage s)) (bstorage b) k c Hp) as (Hv & Hr & Hpo & Hsb).
    split_and!; [|done|done|done]. etrans; [exact Hv|]. unfold view_of. simpl. by rewrite (tx_get_applied (xstorage s)), Est. }
  destruct (commit (xstorage s)) as [st r]. cbn [fst snd] in Hv. destruct (Hv [] 0) as (_ & -> & Hpo & Hsb).
  exists st. split; [done|]. split; [|by destruct tx'; [destruct Hdata as (? & ? & ? & _)|]]. split; try done.
  - by apply exists_none in Hex.
  - intros k. rewrite (proj1 (Hv _ _)), (Epr eq_refl k). done.
  - intros Hforbid Hk. destruct (Eev Hforbid eq_refl Hk) as (evs & Hev & [Hfit Hsame]). exists evs. split; [done|].
    split; [done|]. etrans; [|exact Hsame]. intros k c _. apply Hv.
  - destruct tx'; [|by destruct Hdata as [Hst _ _ _ _ _]]. destruct Hdata as (_ & _ & _ & []). eexists.
    simpl in *. split_and!; [done|done|unfold total_fee; simpl; lia|unfold total_gas; simpl; lia].
  - destruct tx'; [by destruct Hdata as (_ & _ & _ & [])|]. destruct Hdata as [_ _ _ Hm _ _]. simpl in *. congruence.
Qed.

(** ** The block *)

Definition is_charge (tx : Transaction) : Prop := match tx with TxChargeable _ => True | TxMint _ => False end.

Definition ids b : list TxId := tx_id chain <$> pf_transactions (bblock b).
Definition tx_number b : Z := Z.of_nat (length (pf_transactions (bblock b))).

(** A forced transaction failed after it was charged. *)
Definition left_fee (evs : list ExecutorEvent) : Prop :=
  ∃ id h e, ForcedTransactionFailed id h (NotExecuted e) ∈ evs ∧ overflow e.
(** A forced transaction failed; the events of its execution are there. *)
Definition left_events (evs : list ExecutorEvent) : Prop :=
  ∃ id h e, ForcedTransactionFailed id h (NotExecuted e) ∈ evs.

Lemma left_fee_prefix l l' : l `prefix_of` l' → left_fee l → left_fee l'.
Proof. intros [k ->] (id & h & e & Hin & He). exists id, h, e. split; [set_solver|done]. Qed.
Lemma left_events_prefix l l' : l `prefix_of` l' → left_events l → left_events l'.
Proof. intros [k ->] (id & h & e & Hin). exists id, h, e. set_solver. Qed.

(** The amount of the mint transaction. *)
Definition mint_of (m : Mint) (fees : Z) : Z := if decide (ci_contract_id (input_contract m) = zeroed) then 0 else fees.

Section from.
Context (db : D).

Record accounted b : Prop := {
  ac_policy : policy (bstorage b) = PolicyOverwrite;
  ac_storage : storage (bstorage b) = db;
  ac_ids : status_id <$> xtx_status (bdata b) = ids b;
  ac_count : U16 < tx_number b ∨ xtx_count (bdata b) = tx_number b;
  ac_fees : left_fee (xevents (bdata b)) ∨ coinbase (bdata b) = fee_sum (xtx_status (bdata b));
  ac_gas : left_fee (xevents (bdata b)) ∨ used_gas (bdata b) = gas_sum (xtx_status (bdata b));
  ac_processed k : view_of (bstorage b) k PROCESSED_TRANSACTIONS_COLUMN =
    if decide (k ∈ ids b) then Ok (Some []) else view_of db k PROCESSED_TRANSACTIONS_COLUMN;
  ac_nodup : NoDup (ids b);
  ac_new id : id ∈ ids b → view_of db id PROCESSED_TRANSACTIONS_COLUMN = Ok None;
  ac_events : left_events (xevents (bdata b)) ∨
    (forbid = true → messages_keyed (view_of db) → replays (view_of db) (xevents (bdata b)) (view_of (bstorage b)));
  ac_mint : if found_mint (bdata b) then
      ∃ txs m, pf_transactions (bblock b) = txs ++ [TxMint m] ∧ Forall is_charge txs ∧
        (U16 < tx_number b ∨ tx_index (mint_tx_pointer m) = Z.of_nat (length txs)) ∧
        if decide (ci_contract_id (input_contract m) = zeroed) then mint_amount m = 0
        else left_fee (xevents (bdata b)) ∨ mint_amount m = fee_sum (xtx_status (bdata b))
    else Forall is_charge (pf_transactions (bblock b));
}.

Lemma fee_sum_snoc l st : fee_sum (l ++ [st]) = fee_sum l + total_fee st.
Proof.
  unfold fee_sum. rewrite fmap_app, foldr_app. cbn [fmap list_fmap foldr]. generalize (total_fee st). intros n.
  induction l as [|x l IH]; cbn [fmap list_fmap foldr]; lia.
Qed.
Lemma gas_sum_snoc l st : gas_sum (l ++ [st]) = gas_sum l + total_gas st.
Proof.
  unfold gas_sum. rewrite fmap_app, foldr_app. cbn [fmap list_fmap foldr]. generalize (total_gas st). intros n.
  induction l as [|x l IH]; cbn [fmap list_fmap foldr]; lia.
Qed.

Lemma pushed_accounted tx b b' :
  accounted b → pushed tx b b' →
  (xtx_count (bdata b') = xtx_count (bdata b) + 1 ∨ xtx_count (bdata b') = xtx_count (bdata b) ∧ U16 ≤ xtx_count (bdata b)) →
  match tx with
  | TxMint m => tx_index (mint_tx_pointer m) = xtx_count (bdata b) ∧ mint_amount m = mint_of m (coinbase (bdata b)) ∧
      ∀ st, xtx_status (bdata b') = xtx_status (bdata b) ++ [st] → total_fee st = 0
  | TxChargeable _ => True
  end → accounted b'.
Proof using Type*.
  intros [Apo Ast Aid Acount Afee Agas Apr And Anew Aev Amint] [Pb Pf Pn Ppo Pst Ppr Pev Ppre (st & Hst & Hsid & Hfee & Hgas) Pm] Hcount Hmint.
  assert (ids b' = ids b ++ [tx_id chain tx]) as Hids. { unfold ids. rewrite Pb. simpl. by rewrite fmap_app. }
  assert (tx_number b' = tx_number b + 1) as Hnum. { unfold tx_number. rewrite Pb. simpl. rewrite length_app. simpl. lia. }
  rewrite Pf in Amint. split.
  - done.
  - congruence.
  - by rewrite Hst, fmap_app, Aid, Hids, <- Hsid.
  - lia.
  - destruct Afee as [|Afee]; [left; by eapply left_fee_prefix|right]. by rewrite Hst, fee_sum_snoc, Hfee, Afee.
  - destruct Agas as [|Agas]; [left; by eapply left_fee_prefix|right]. by rewrite Hst, gas_sum_snoc, Hgas, Agas.
  - intros k. rewrite Ppr, Apr, Hids. by repeat case_decide; set_solver.
  - rewrite Hids. apply NoDup_app. split_and!; [done| |apply NoDup_singleton]. intros id Hid ->%list_elem_of_singleton.
    rewrite Apr, decide_True in Pn by done. done.
  - intros id Hid. rewrite Hids in Hid. apply elem_of_app in Hid as [Hid|Hid%list_elem_of_singleton]; [by apply Anew|].
    subst id. rewrite Apr in Pn. by case_decide.
  - destruct Aev as [|Aev]; [left; by eapply left_events_prefix|right]. intros Hforbid Hk.
    specialize (Aev Hforbid Hk). destruct (Pev Hforbid (replays_keyed _ _ _ Aev Hk)) as (evs & -> & Hr). by eapply replays_app.
  - rewrite Pm, Pb. simpl. destruct tx as [m|]; [|apply Forall_app; split; [done|by constructor]].
    destruct Hmint as (Hidx & Ham & Hz). exists (pf_transactions (bblock b)), m. split_and!; [done|done| |].
    + rewrite Hidx. unfold tx_number in Acount |- *. rewrite Pb. simpl. rewrite length_app. simpl. lia.
    + unfold mint_of in Ham. case_decide; [done|]. destruct Afee as [|Afee]; [left; by eapply left_fee_prefix|right].
      by rewrite Ham, Afee, Hst, fee_sum_snoc, (Hz _ Hst), Z.add_0_r.
Qed.

(** A failed forced transaction. *)
Lemma failed_accounted b b' id h e :
  accounted b → bblock b' = bblock b → bstorage b' = bstorage b → same_lists (bdata b) (bdata b') →
  (¬ overflow e → agree (bdata b) (bdata b')) → xevents (bdata b) `prefix_of` xevents (bdata b') →
  accounted (with_bdata (push_event (ForcedTransactionFailed id h (NotExecuted e))) b').
Proof.
  intros [Apo Ast Aid Acount Afee Agas Apr And Anew Aev Amint] Hb Hs [Lc Lm Li Ls Lr] Ha Hpre.
  assert (xevents (bdata b) `prefix_of` xevents (bdata b') ++ [ForcedTransactionFailed id h (NotExecuted e)]) as Hpre'.
  { by apply prefix_app_r. }
  assert (left_fee (xevents (bdata b') ++ [ForcedTransactionFailed id h (NotExecuted e)]) ∨ agree (bdata b) (bdata b')) as Hfee.
  { destruct (decide (overflow e)); [left|right; by apply Ha]. exists id, h, e. split; [set_solver|done]. }
  split; unfold ids, tx_number in *; simpl; rewrite ?Hb, ?Hs, <- ?Ls, <- ?Lc, <- ?Lm; try done.
  - destruct Hfee as [|[<- _ _ _ _ _ _ _]]; [by left|]. destruct Afee; [left; by eapply left_fee_prefix|by right].
  - destruct Hfee as [|[_ <- _ _ _ _ _ _]]; [by left|]. destruct Agas; [left; by eapply left_fee_prefix|by right].
  - left. exists id, h, e. set_solver.
  - destruct (found_mint (bdata b)); [|done]. destruct Amint as (txs & m & ? & ? & ? & Hm). exists txs, m. split_and!; [done..|].
    case_decide; [done|]. destruct Hm; [left; by eapply left_fee_prefix|by right].
Qed.

Lemma execute_charge tx id hd cb price s s' tx' :
  is_chargeable tx → execute_transaction ex tx id hd cb price s = (s', Ok tx') → is_charge tx'.
Proof using Type*.
  intros Hc (_ & _ & k & Hk & Hx)%execute_inv. destruct (convert_chargeable _ _ _ _ Hc Hk) as [c ->].
  by apply chargeable_strip in Hx as (t & -> & _).
Qed.

Lemma execute_count tx hd cb price s s' tx' :
  named tx → execute_transaction ex tx (maybe_checked_id ex tx) hd cb price s = (s', Ok tx') →
  xtx_count (xdata s') = xtx_count (xdata s).
Proof using Type*.
  intros Hn Hx. apply execute_effect in Hx as (_ & _ & _ & _ & Hd); [|done].
  destruct tx'; [by destruct Hd as (_ & _ & _ & [])|by destruct Hd].
Qed.

(** The results of a step with a chargeable transaction. *)
Lemma step_cases tx price cb b b' r :
  is_chargeable tx → named tx → accounted b → step tx price cb b = (b', r) →
  match r with
  | Ok _ => accounted b'
  | Err e => ∀ id h, accounted (with_bdata (push_event (ForcedTransactionFailed id h (NotExecuted e))) b')
  end.
Proof using Type*.
  intros Hc Hn Hacc. unfold execute_transaction_and_commit.
  destruct (execute_transaction _ _ _ _ _ _ _) as [s [tx'|e]] eqn:He.
  - pose proof (execute_charge _ _ _ _ _ _ _ _ Hc He) as Hch. pose proof (execute_count _ _ _ _ _ _ _ Hn He) as Hcount.
    simpl in Hcount. case_decide as Hd.
    + destruct (execute_pushed _ _ _ _ _ _ _ (xtx_count (bdata b) + 1) Hn (ac_policy _ Hacc) He) as (st & -> & Hp & _).
      intros [= <- <-]. eapply pushed_accounted; [done|exact Hp|by left|by destruct tx'].
    + destruct (execute_pushed _ _ _ _ _ _ _ (xtx_count (xdata s)) Hn (ac_policy _ Hacc) He) as (st & -> & Hp & _).
      intros [= <- <-] id h.
      assert (with_tx_count (xtx_count (xdata s)) (xdata s) = xdata s) as Heta by by destruct (xdata s). rewrite Heta in Hp.
      eapply failed_accounted; [eapply pushed_accounted; [done|exact Hp|simpl; lia|by destruct tx']|done|done|by split|done|done].
  - intros [= <- <-] id h. pose proof (execute_skipped ex tx (maybe_checked_id ex tx) (pf_header (bblock b)) cb price (start b)) as [_ Hpre].
    rewrite He in Hpre. apply execute_fails in He as [Hl Ha]; [|done]. by apply (failed_accounted b).
Qed.

Lemma relayed_accounted cb b c :
  accounted b → forced_ok ex c → accounted (process_relayed_tx ex cb b c).
Proof using Type*.
  intros Hacc Hc. unfold process_relayed_tx.
  destruct (execute_transaction_and_commit _ _ _ _ _) as [b1 r] eqn:Hx.
  apply step_cases in Hx; [|apply Hc|apply Hc|done]. destruct r; [done|apply Hx].
Qed.

(** ** Events of the relayer *)

Lemma event_accounted b st ev :
  accounted b → policy st = PolicyOverwrite → storage st = storage (bstorage b) →
  (∀ k, view_of st k PROCESSED_TRANSACTIONS_COLUMN = view_of (bstorage b) k PROCESSED_TRANSACTIONS_COLUMN) →
  replays (view_of (bstorage b)) [ev] (view_of st) →
  accounted {| bblock := bblock b; bstorage := st; bdata := push_event ev (bdata b) |}.
Proof.
  intros [Apo Ast Aid Acount Afee Agas Apr And Anew Aev Amint] Hpo Hst Hpr Hr.
  assert (xevents (bdata b) `prefix_of` xevents (bdata b) ++ [ev]) as Hpre by by apply prefix_app_r.
  split; unfold ids, tx_number in *; simpl; try done.
  - congruence.
  - destruct Afee; [left; by eapply left_fee_prefix|by right].
  - destruct Agas; [left; by eapply left_fee_prefix|by right].
  - intros k. etrans; [apply Hpr|apply Apr].
  - destruct Aev as [|Aev]; [left; by eapply left_events_prefix|right]. intros Hf Hk. by eapply replays_app; [apply Aev|].
  - destruct (found_mint (bdata b)); [|done]. destruct Amint as (txs & m & ? & ? & ? & Hm). exists txs, m. split_and!; [done..|].
    case_decide; [done|]. destruct Hm; [left; by eapply left_fee_prefix|by right].
Qed.

Lemma process_event_accounted p h da (s : DaState) ev :
  accounted (da_block p s) → accounted (da_block p (process_event ex h da s ev).1).
Proof using Type*.
  intros Ha. destruct ev as [m|t]; cbn [process_event].
  - case_decide; [done|]. apply (event_accounted (da_block p s)).
    + done.
    + apply (ac_policy _ Ha).
    + done.
    + intros k. etrans; [apply record_view|]. by rewrite decide_False by naive_solver.
    + split; [done|]. intros k c _. etrans; [apply record_view|done].
  - destruct (validate_forced_tx ex t h (da_storage s)); [done|].
    apply (event_accounted (da_block p s)); try done. apply (ac_policy _ Ha).
Qed.

Lemma l1_accounted cb b b' : accounted b → process_l1_txs ex cb b = (b', Ok ()) → accounted b'.
Proof using Type*.
  apply process_l1_ind.
  - apply process_event_accounted.
  - by intros root b1 [].
  - intros b1 c Hc Hb1. by apply relayed_accounted.
Qed.

(** ** The transactions of a validated block *)

Lemma validate_accounted price cb b b' tx :
  accounted b → validate_tx ex price cb b tx = (b', Ok ()) →
  accounted b' ∧ length (pf_transactions (bblock b')) = S (length (pf_transactions (bblock b))).
Proof using Type*.
  intros Hacc. unfold validate_tx, execute_transaction_and_commit.
  destruct (execute_transaction _ _ _ _ _ _ _) as [s [tx'|e]] eqn:He; [|done].
  pose proof (execute_count (NotChecked tx) _ _ _ _ _ _ I He) as Hcount. simpl in Hcount.
  destruct (execute_pushed (NotChecked tx) _ _ _ _ _ _ (xtx_count (bdata b) + 1) I (ac_policy _ Hacc) He) as (st & -> & Hp & Hm).
  case_decide; [|done]. intros [= <-]. split; [|simpl; rewrite length_app; simpl; lia].
  eapply pushed_accounted; [done|exact Hp|by left|]. destruct tx' as [m|]; [|done]. destruct Hm as (Hi & _ & Ham).
  split_and!; [done|done|]. intros st' Hst'. simpl in Hst'.
  apply execute_effect in He as (_ & _ & _ & _ & (_ & _ & _ & Hag)); [|done].
  rewrite <- (ag_status _ _ Hag) in Hst'. simpl in Hst'. apply app_inj_tail in Hst' as [_ <-]. done.
Qed.

Lemma validate_all_accounted price cb txs : ∀ b b',
  accounted b → fold_until (validate_tx ex price cb) b txs = (b', Ok ()) →
  accounted b' ∧ length (pf_transactions (bblock b')) = (length (pf_transactions (bblock b)) + length txs)%nat.
Proof using Type*.
  induction txs as [|tx txs IH]; intros b b' Hacc; simpl; [intros [= <-]; by rewrite Nat.add_0_r|].
  destruct (validate_tx ex price cb b tx) as [b1 [[]|]] eqn:Hv; [|done]. intros Hf.
  apply validate_accounted in Hv as [Hacc1 Hlen1]; [|done]. apply IH in Hf as [? Hlen]; [|done]. split; [done|lia].
Qed.

Lemma new_accounted hd : accounted (new_block hd (with_policy PolicyOverwrite (into_transaction db))).
Proof.
  split; try done; try (by right); try (by constructor).
  intros id Hid. by apply elem_of_nil in Hid.
Qed.

(** The mint transaction is the last one. *)
Lemma mint_is_last b n m :
  accounted b → pf_transactions (bblock b) !! n = Some (TxMint m) →
  length (pf_transactions (bblock b)) = S n ∧ found_mint (bdata b) = true.
Proof.
  intros Hacc Hn. pose proof (ac_mint _ Hacc) as Hm. destruct (found_mint (bdata b)); [|by destruct (Forall_lookup_1 _ _ _ _ Hm Hn)].
  destruct Hm as (txs & m' & Htx & Hc & _). rewrite Htx in Hn |- *. rewrite length_app. split; [|done]. simpl.
  apply lookup_app_Some in Hn as [Hn|[Hle Hn]]; [by destruct (Forall_lookup_1 _ _ _ _ Hc Hn)|].
  apply list_lookup_singleton_Some in Hn as [Hn _]. lia.
Qed.

Lemma matched_transactions l : ∀ l', check_transactions_match ex (zip l l') = Ok () →
  ∀ n tx tx', l !! n = Some tx → l' !! n = Some tx' → tx = tx'.
Proof.
  unfold check_transactions_match. generalize (). induction l as [|a l IH]; intros [] [|a' l']; [done..|].
  intros Hm [|n] tx tx'; simpl in *; (destruct (decide (a = a')) as [->|]; [|done]); simpl in Hm.
  - naive_solver.
  - by eapply IH.
Qed.

Lemma validate_block_accounted block d ch :
  validate_block ex block (with_policy PolicyOverwrite (into_transaction db)) = Ok (d, ch) →
  ∃ b, accounted b ∧ bdata b = d ∧ changes (bstorage b) = ch ∧ pf_transactions (bblock b) = transactions block ∧
    found_mint d = true ∧ tx_number b ≤ U16.
Proof using Type*.
  unfold validate_block, get_coinbase_info_from_mint_tx. destruct (last (transactions block)) as [[m|]|] eqn:Hlast; [|done|done].
  cbn [result_bind]. set (cb := ci_contract_id (input_contract m)).
  destruct (process_l1_txs ex cb _) as [b1 [[]|]] eqn:Hl1; [|done].
  destruct (fold_until _ _ _) as [b2 [[]|]] eqn:Hfold; [|done].
  apply l1_accounted in Hl1; [|apply new_accounted]. apply validate_all_accounted in Hfold as [Hacc Hlen]; [|done].
  unfold check_block_matches. destruct (check_transactions_match _ _) as [[]|] eqn:Hmatch; [|done]. cbn [result_bind].
  destruct (generate_block _ _ _) as [nb|] eqn:Hgen; [|done]. cbn [header_error result_bind].
  destruct (headers_match _ _); [|done]. intros [= <- <-]. exists b2.
  assert (pf_transactions (bblock b2) !! (length (transactions block) - 1)%nat = Some (TxMint m)) as Hmint.
  { rewrite length_drop in Hlen. rewrite last_lookup in Hlast. pose proof (lookup_lt_Some _ _ _ Hlast) as Hlt.
    destruct (lookup_lt_is_Some_2 (pf_transactions (bblock b2)) (length (transactions block) - 1)) as [tx Htx]; [lia|].
    rewrite Htx. f_equal. eapply matched_transactions; [done|exact Htx|].
    by replace (length (transactions block) - 1)%nat with (Nat.pred (length (transactions block))) by lia. }
  destruct (mint_is_last _ _ _ Hacc Hmint) as [Hl Hfound].
  split_and!; [done..| |done|].
  - apply (list_eq_same_length _ _ (length (transactions block))); [done|apply last_Some in Hlast as [? Hb]; rewrite Hb, length_app in *; simpl in *; lia|].
    intros n tx tx' _ Hn Hn'. by eapply matched_transactions.
  - unfold generate_block, Block_new in Hgen. destruct (generate _ _ _ _) as [h|] eqn:Hg; [|done].
    by apply generate_ok in Hg as (_ & _ & _ & Hg).
Qed.
End from.

(** ** Transactions that overflow the totals of a block *)

(** Errors that are not an overflow of a total. *)
Definition gentle {A} (r : result A ExecutorError) : Prop := ∀ e, r = Err e → ¬ overflow e.
Definition calm {A} (m : X A) : Prop := ∀ s s' e, m s = (s', Err e) → ¬ overflow e.

Lemma gentle_ok {A} (a : A) : gentle (Ok a).
Proof using Type. done. Qed.
Lemma gentle_bind {A B} (r : result A ExecutorError) (f : A → result B ExecutorError) :
  gentle r → (∀ a, gentle (f a)) → gentle (result_bind r f).
Proof using Type. intros Hr Hf e. destruct r as [a|e']; [apply Hf|]. intros [= <-]. by apply Hr. Qed.
Lemma gentle_fold {A B} (f : B → A → result B ExecutorError) x l : (∀ y a, gentle (f y a)) → gentle (try_fold f x l).
Proof using Type. intros Hf. revert x. induction l as [|a l IH]; intros x; [done|]. apply gentle_bind; auto. Qed.

Lemma calm_ret {A} (a : A) : calm (mret a).
Proof using Type. by intros s s' e. Qed.
Lemma calm_lift {A} (r : result A ExecutorError) : gentle r → calm (lift r).
Proof using Type. intros Hr s s' e [= <- ->]. by apply Hr. Qed.
Lemma calm_bind {A B} (m : X A) (f : A → X B) : calm m → (∀ a, calm (f a)) → calm (m ≫= f).
Proof using Type. intros Hm Hf s s' e [(a & s1 & _ & He)|(e' & He & [= ->])]%x_bind_inv; [by eapply Hf|by eapply Hm]. Qed.
Lemma calm_access {A} (f : _ → _ * result A StorageError) : calm (access f).
Proof using Type. intros s s' e. unfold access. destruct (f (xstorage s)) as [t [a|x]]; simpl; [done|]. by intros [= _ <-] [?|(? & ? & ?)]. Qed.
Lemma calm_data f : calm (set_data f).
Proof using Type. by intros s s' e. Qed.
Lemma calm_get_data : calm get_data.
Proof using Type. by intros s s' e. Qed.
Lemma calm_get_storage : calm get_storage.
Proof using Type. by intros s s' e. Qed.
Lemma calm_for {A} (f : A → X unit) l : (∀ a, calm (f a)) → calm (x_for f l).
Proof using Type. intros Hf. induction l as [|a l IH]; [apply calm_ret|]. by apply calm_bind; [|intros _]. Qed.

Ltac gentle :=
  repeat first
    [ apply gentle_ok
    | match goal with |- ∀ _, gentle _ => intros ? end
    | apply gentle_bind; [|intros ?]
    | apply gentle_fold; intros ? ?
    | progress unfold storage_error, validation_error
    | case_decide
    | match goal with |- gentle (match ?x with _ => _ end) => destruct x end
    | intros ? [= <-] [?|(? & ? & ?)]; by simplify_eq ].
Ltac calm :=
  repeat first
    [ apply calm_ret | apply calm_access | apply calm_data | apply calm_get_data | apply calm_get_storage
    | apply calm_lift; gentle
    | apply calm_bind; [|intros ?]
    | apply calm_for; intros ?
    | progress unfold require, fail
    | case_decide | case_bool_decide
    | match goal with |- calm (match ?x with _ => _ end) => destruct x end
    | intros ? ? ? [= _ <-] [?|(? & ? & ?)]; by simplify_eq ].

Lemma coin_or_default_gentle t id own amount asset : gentle (get_coin_or_default (D := D) ex t id own amount asset).
Proof using Type. unfold get_coin_or_default. gentle. Qed.

Lemma inputs_gentle t ins da : gentle (verify_inputs_exist_and_values_match (D := D) t ins da).
Proof using Type. unfold verify_inputs_exist_and_values_match, verify_input. gentle. Qed.

Lemma extra_gentle c hd t : gentle (extra_tx_checks (D := D) ex c hd t).
Proof using Type. unfold extra_tx_checks. apply gentle_bind; [gentle|]. intros c1. apply gentle_bind; [apply inputs_gentle|]. intros _. gentle. Qed.

Lemma gas_inputs_gentle gas id ins : gentle (update_input_used_gas gas id ins).
Proof using Type.
  revert ins. induction gas as [|g gas IH]; intros [|i ins]; simpl; try done. apply gentle_bind; [gentle|]. intros i'.
  apply gentle_bind; [apply IH|gentle].
Qed.

Lemma compute_inputs_gentle ins t record : gentle (compute_inputs (D := D) ex ins t record).
Proof using Type.
  unfold compute_inputs. apply gentle_fold. intros l i. apply gentle_bind; [|gentle].
  unfold compute_input. destruct i; try done; try (apply gentle_bind; [apply coin_or_default_gentle|gentle]).
  apply gentle_bind; [unfold validated_utxo; gentle|gentle].
Qed.

Lemma outputs_gentle id ins outs record : gentle (compute_state_of_not_utxo_outputs id ins outs record).
Proof using Type. unfold compute_state_of_not_utxo_outputs, compute_output. gentle. Qed.

Lemma attempt_calm c hd cb price : calm (attempt_tx_execution_with_vm (D := D) ex c hd cb price).
Proof using Type.
  unfold attempt_tx_execution_with_vm. apply calm_bind; [apply calm_get_storage|]. intros t.
  apply calm_bind; [calm|]. intros ready. destruct (run_recorded _ _ _ _) as [[ch reads] outcome].
  apply calm_bind; [calm|]. intros r. destruct (if is_dry_run ex then _ else _) as [reverted receipts].
  apply calm_bind; [apply calm_lift, gas_inputs_gentle|]. intros ins.
  apply calm_bind; [calm|]. intros [before after]. apply calm_bind; [apply calm_lift, compute_inputs_gentle|]. intros ins'.
  apply calm_bind; [unfold commit_to_storage; calm|]. intros []. apply calm_bind; [apply calm_lift, outputs_gentle|]. intros outs. calm.
Qed.

Lemma spend_calm ins reverted : calm (spend_input_utxos (D := D) ex ins reverted).
Proof using Type.
  assert (∀ c, calm (spend_coin (D := D) ex c)) as Hc.
  { intros c. unfold spend_coin. apply calm_bind; [calm|]. intros o. apply calm_bind; [calm|]. intros t.
    apply calm_bind; [|intros x; calm]. apply calm_lift. destruct o; [done|apply coin_or_default_gentle]. }
  assert (∀ m, calm (spend_message (D := D) m)) as Hm by (intros m; unfold spend_message; calm).
  apply calm_for. intros [c|c ?|c|m|m ?|m ?|m ? ?]; simpl; try destruct reverted; auto using calm_ret.
Qed.

Lemma persist_calm h id ins outs : calm (persist_output_utxos (D := D) h id ins outs).
Proof using Type.
  assert (∀ u amount asset to, calm (insert_coin (D := D) h u amount asset to)) as Hi by (intros; unfold insert_coin; calm).
  apply calm_bind; [calm|]. intros d. apply calm_for. intros [i o]. apply calm_bind; [calm|]. intros []. destruct o; auto; calm.
Qed.

(** What an overflow leaves of the accounting. *)
Lemma update_overflows t receipts price reverted state id s s' e :
  update_execution_data ex t receipts price reverted state id s = (s', Err e) → overflow e →
  ∃ gas fee, total_fee_paid ex t receipts price = Ok (gas, fee) ∧
    coinbase (xdata s') = coinbase (xdata s) + fee ∧
    used_gas (xdata s') = used_gas (xdata s) + match e with TxSizeOverflow => gas | _ => 0 end ∧
    used_size (xdata s') = used_size (xdata s) ∧ xevents (xdata s') = xevents (xdata s) ∧ xstorage s' = xstorage s.
Proof using Type.
  unfold update_execution_data. rewrite lift_bind. intros Hu Ho.
  destruct (total_fee_paid _ _ _ _) as [[gas fee]|e'] eqn:Hf.
  2: { injection Hu as <- <-. revert Hf Ho. unfold total_fee_paid. destruct (refund_fee _ _ _ _); repeat case_decide;
       intros [= <-] [?|(? & ? & ?)]; done. }
  exists gas, fee. split; [done|]. rewrite get_data_bind, require_bind in Hu.
  case_bool_decide; [|injection Hu as <- <-; by destruct Ho as [?|(? & ? & ?)]].
  rewrite set_data_bind, require_bind in Hu. case_bool_decide; [|injection Hu as <- <-; simpl; by rewrite Z.add_0_r].
  rewrite set_data_bind, require_bind in Hu. case_bool_decide; [|by injection Hu as <- <-].
  rewrite set_data_bind in Hu. by destruct reverted.
Qed.

Record overflowed (c : Checked Chargeable) (price : Z) (e : ExecutorError) s s' : Prop := {
  ov_lists : same_lists (xdata s) (xdata s');
  ov_fee : ∃ t receipts gas fee, strip t = strip (ck_tx c) ∧ total_fee_paid ex t receipts price = Ok (gas, fee) ∧
    coinbase (xdata s') = coinbase (xdata s) + fee ∧
    used_gas (xdata s') = used_gas (xdata s) + match e with TxSizeOverflow => gas | _ => 0 end;
  ov_events : forbid = true → policy (xstorage s) = PolicyOverwrite → messages_keyed (view_of (xstorage s)) →
    ∃ evs, xevents (xdata s') = xevents (xdata s) ++ evs ∧ replays (view_of (xstorage s)) evs (view_of (xstorage s'));
  ov_processed : policy (xstorage s) = PolicyOverwrite → also_processed (ck_id c) s s';
}.

(** A transaction that overflows a total was executed as a whole. *)
Lemma chargeable_overflows c hd cb price s s' e :
  execute_chargeable_transaction ex c hd cb price s = (s', Err e) → overflow e → overflowed c price e s s'.
Proof using Type*.
  intros Hx Ho. pose proof (chargeable_fails _ _ _ _ _ _ _ _ Hx) as [Hl _]. revert Hx.
  unfold execute_chargeable_transaction. rewrite get_storage_bind. intros Hx.
  apply x_bind_inv in Hx as [(c1 & s1 & Hc1 & Hx)|(e' & He & [= ->])].
  2: { destruct forbid; [|done]. exfalso. eapply calm_lift in He; [by apply He|apply extra_gentle]. }
  apply checks_ok in Hc1 as [-> Hc]. apply x_bind_inv in Hx as [([[[reverted state] t] receipts] & s2 & Ha & Hx)|(e' & He & [= ->])].
  2: { exfalso. by eapply attempt_calm in He. }
  apply x_bind_inv in Hx as [([] & s3 & Hs & Hx)|(e' & He & [= ->])]; [|exfalso; by eapply spend_calm in He].
  apply x_bind_inv in Hx as [([] & s4 & Hp & Hx)|(e' & He & [= ->])]; [|exfalso; by eapply persist_calm in He].
  apply x_bind_inv in Hx as [([] & s5 & Hm & Hx)|(e' & He & [= ->])]; [|exfalso; by eapply calm_access in He].
  apply x_bind_inv in Hx as [([] & s6 & Hu & Hx)|(e' & Hu & [= ->])]; [done|].
  assert (logged ex s s4) as Hlog.
  { etrans; [by eapply attempt_logged|]. etrans; [by eapply spend_inputs_logged|by eapply persist_outputs_logged]. }
  assert (agree_data s s4) as Hag.
  { etrans; [eapply leaves_eq, Ha; apply attempt_quiet|]. etrans; [eapply leaves_eq, Hs; apply spend_inputs_quiet|].
    eapply leaves_eq, Hp. apply persist_outputs_quiet. }
  injection Hm as <-. apply update_overflows in Hu as (gas & fee & Hf & Hcb & Hgas & _ & Hev & Hst); [|done].
  assert (effect ex (ck_id c) s {| xdata := xdata s4; xstorage := record (xstorage s4) (ck_id c) PROCESSED_TRANSACTIONS_COLUMN (Insert []) |})
    as [E1 E0 E2 E3] by by eapply marked_effect.
  simpl in *. split; [done| |rewrite Hst, Hev; exact E2|intros Hpo k; rewrite Hst; by apply E3].
  exists t, receipts, gas, fee. split_and!; [by rewrite (attempt_strip _ _ _ _ _ _ _ _ _ _ _ Ha), Hc|done|..].
  - rewrite Hcb. by rewrite (ag_coinbase _ _ Hag).
  - rewrite Hgas. by rewrite (ag_gas _ _ Hag).
Qed.

(** The block keeps its transactions and its storage, and the data of the execution. *)
Lemma step_overflows tx price cb b b' e :
  is_chargeable tx → named tx → xtx_count (bdata b) < U16 → policy (bstorage b) = PolicyOverwrite →
  step tx price cb b = (b', Err e) → overflow e →
  bblock b' = bblock b ∧ bstorage b' = bstorage b ∧
  ∃ c s, tx_id chain (TxChargeable (ck_tx c)) = maybe_checked_id ex tx ∧ bdata b' = xdata s ∧
    overflowed c price e (start b) s.
Proof using Type*.
  intros Hc Hn Hcount Hpo. unfold execute_transaction_and_commit.
  destruct (execute_transaction _ _ _ _ _ _ _) as [s [tx'|e']] eqn:Hx.
  - destruct (execute_pushed _ _ _ _ _ _ _ 0 Hn Hpo Hx) as (st & -> & _). by rewrite decide_True by done.
  - intros [= <- <-] Ho. split_and!; [done|done|]. revert Hx. unfold execute_transaction.
    assert (∀ e0, e0 = e' → ¬ overflow e0 → False) as Hne by (by intros ? ->).
    rewrite get_data_bind, require_bind. destruct (negb _); [|intros [= _ He]; exfalso; apply (Hne _ He); by intros [?|(? & ? & ?)]].
    rewrite get_storage_bind, lift_bind. destruct (table_exists _ _ _) as [processed|]; simpl;
      [|intros [= _ He]; exfalso; apply (Hne _ He); by intros [?|(? & ? & ?)]].
    rewrite require_bind. destruct (negb processed); [|intros [= _ He]; exfalso; apply (Hne _ He); by intros [?|(? & ? & ?)]].
    rewrite lift_bind. destruct (convert_maybe_checked_tx_to_checked_tx _ _ _) as [k|] eqn:Hk.
    + destruct (convert_chargeable _ _ _ _ Hc Hk) as [c ->]. destruct (convert_named _ _ _ Hn Hk) as [Hid Hid'].
      intros Hx. exists c, s. simpl in Hid, Hid'. split_and!; [congruence|done|]. by eapply chargeable_overflows.
    + intros [= _ He]. exfalso. apply (Hne _ He). clear -Hk. revert Hk.
      unfold convert_maybe_checked_tx_to_checked_tx, checked_basic. destruct tx; repeat case_decide; try case_match; intros [= <-]; by intros [?|(? & ? & ?)].
Qed.

(** The mint transaction takes the fees in the data. *)
Lemma mint_takes cb price b b' :
  policy (bstorage b) = PolicyOverwrite → xtx_count (bdata b) < U16 → cb ≠ zeroed → produce_mint_tx ex cb price b = (b', Ok ()) →
  ∃ m st, pf_transactions (bblock b') = pf_transactions (bblock b) ++ [TxMint m] ∧
    ci_contract_id (input_contract m) ≠ zeroed ∧ mint_amount m = coinbase (bdata b) ∧
    xtx_status (bdata b') = xtx_status (bdata b) ++ [st] ∧ total_fee st = 0.
Proof using Type*.
  intros Hpo Hcount Hcb. unfold produce_mint_tx, execute_transaction_and_commit. set (m := Build_Mint _ _ _ _ _ _).
  destruct (execute_transaction _ _ _ _ _ _ _) as [s [tx'|e']] eqn:Hx; [|done].
  pose proof Hx as Hx'. destruct (execute_pushed (NotChecked (TxMint m)) _ _ _ _ _ _ 0 I Hpo Hx) as (st & -> & _).
  rewrite decide_True by done. intros [= <-]. simpl.
  apply execute_effect in Hx as (_ & _ & _ & _ & Hdata); [|done].
  apply execute_inv in Hx' as (_ & _ & k & Hk & Hx'). unfold convert_maybe_checked_tx_to_checked_tx, checked_basic in Hk.
  pose proof Hk as Hk'. destruct (into_checked_basic _ _ _) as [k0|] eqn:Hb; [|done]. injection Hk as ->.
  apply basic_result in Hb. destruct k as [km|]; [|done]. apply mint_again in Hx' as (m' & -> & Hs & _ & Hc & _).
  destruct Hdata as (_ & _ & Ham & Hag). simpl in Hb.
  assert (ci_contract_id (input_contract m') ≠ zeroed) as Hne by (rewrite Hc; destruct Hb as [-> _]; done).
  exists m', {| status_id := tx_id chain (TxMint m'); status_result := Success None [] 0 0 |}. simpl in *.
  split_and!; [done|done|by rewrite decide_False in Ham|by rewrite <- (ag_status _ _ Hag)|done].
Qed.
End accounts.
