(* ===== verification/ExecutorGas.v ===== *)
(** * Gas and the end of a production

    The transactions of a source use at most the gas that is left in the block, and the
    production from a list of transactions ends. *)

From stdpp Require Import prelude gmap list strings.
From Stdlib Require Import ZArith Lia.
From S2P Require Import Prelude.
From S2P Require Import StorageTx.
From S2P Require Import HistoricalDb.
From S2P Require Import Database.
From S2P Require Import Tables.
From S2P Require Import Blocks.
From S2P Require Import BlockStore.
From S2P Require Import Producer.
From S2P Require Import ExecTypes.
From S2P Require Import VmStorage.
From S2P Require Import Executor.
From S2P Require Import ExecutorMonad.
From S2P Require Import ExecutorReplay.
From S2P Require Import ExecutorBlock.
From S2P Require Import ExecutorProduce.
From S2P Require Import ExecutorEffects.
From S2P Require Import ExecutorAccounts.
Local Open Scope Z_scope.

Section gas.
Context {Signature : Type} `{FV : FuelVm} `{!ChainCrypto Transaction Signature}.
Context `{!BlockCodecs Transaction Signature} `{SC : StateCodecs} `{MT : MerkleTree}.
Context `{!HashOrder Z} `{!HashOrder Key} `{!FuelVmLaws Signature} `{!StateCodecsLaws}.
Context {D : Type} `{!KeyValueInspect D} `{!KeyValueLaws D}.
Context (ex : BlockExecutor).
Abbreviation XState := (@XState _ D).
Abbreviation BState := (@BState _ D).
Abbreviation params := (consensus_params ex).
Abbreviation start b :=
  {| xdata := bdata b; xstorage := with_policy PolicyOverwrite (into_transaction (bstorage b)) |}.
Implicit Types (s : XState) (b : BState).

(** ** Gas of a transaction *)

Lemma attempt_gas c hd cb price s s' reverted state tx receipts :
  is_dry_run ex = false →
  attempt_tx_execution_with_vm ex c hd cb price s = (s', Ok (reverted, state, tx, receipts)) →
  0 ≤ script_gas receipts ∧ min_gas params tx + script_gas receipts ≤ max_gas params (ck_tx c).
Proof using Type*.
  intros Hdry Ha. pose proof (attempt_strip _ _ _ _ _ _ _ _ _ _ _ Ha) as Hs.
  apply attempt_inv in Ha as (ready & ch & reads & res & ins & before & after & ins' & outs & Hready & Hrun & Hr & _).
  rewrite Hdry in Hr. injection Hr as -> ->. rewrite (min_gas_strip _ _ _ Hs). unfold run_recorded in Hrun.
  pose proof (vm_returns_run ex _ (VmStorage_new hd cb) _ (with_policy PolicyOverwrite (into_transaction (xstorage s))) ∅
    (transact_gas _ _ _ _ _ (allow_syscall (options ex)) (is_dry_run ex) Hready)) as Hg.
  destruct (vm_run _ _ _ _ _ _) as [[sub reads1] o]. injection Hrun as <- <- ->. specialize (Hg res eq_refl). lia.
Qed.

Lemma update_gas tx receipts price reverted state id s s' r :
  0 ≤ script_gas receipts → update_execution_data ex tx receipts price reverted state id s = (s', r) →
  used_gas (xdata s) ≤ used_gas (xdata s') ≤ used_gas (xdata s) + (min_gas params tx + script_gas receipts).
Proof using Type*.
  intros Hpos. pose proof (min_gas_nonneg params tx) as Hmin.
  unfold update_execution_data. rewrite lift_bind. destruct (total_fee_paid _ _ _ _) as [[gas fee]|] eqn:Hf; [|intros [= <- _]; lia].
  unfold total_fee_paid in Hf. destruct (refund_fee _ _ _ _); [|done]. repeat case_decide; try done. injection Hf as Hgas _.
  rewrite get_data_bind, require_bind. case_bool_decide; [|intros [= <- _]; lia].
  rewrite set_data_bind, require_bind. case_bool_decide; [|intros [= <- _]; simpl; lia].
  rewrite set_data_bind, require_bind. case_bool_decide; [|intros [= <- _]; simpl; lia]. rewrite set_data_bind.
  destruct reverted; intros [= <- _]; simpl; lia.
Qed.

Lemma quiet_gas {A} (m : X A) s s' r : leaves agree_data m → m s = (s', r) → used_gas (xdata s') = used_gas (xdata s).
Proof. intros Hm He. symmetry. apply ag_gas. by eapply leaves_eq. Qed.

Lemma chargeable_gas c hd cb price s s' r :
  is_dry_run ex = false → execute_chargeable_transaction ex c hd cb price s = (s', r) →
  used_gas (xdata s) ≤ used_gas (xdata s') ≤ used_gas (xdata s) + Z.max 0 (max_gas params (ck_tx c)).
Proof using Type*.
  intros Hdry. unfold execute_chargeable_transaction. rewrite get_storage_bind. intros Hx.
  apply x_bind_inv in Hx as [(c' & s1 & H1 & Hx)|(e' & H1 & ->)].
  2: { assert (s' = s) as -> by (revert H1; case_match; by intros [= ?]). lia. }
  apply checks_ok in H1 as [-> Hc].
  apply x_bind_inv in Hx as [([[[reverted state] tx] receipts] & s2 & H2 & Hx)|(e' & H2 & ->)];
    [|rewrite (quiet_gas _ _ _ _ (attempt_quiet ex c' hd cb price) H2); lia].
  pose proof (attempt_gas _ _ _ _ _ _ _ _ _ _ Hdry H2) as [Hpos Hg]. rewrite Hc in Hg.
  rewrite <- (quiet_gas _ _ _ _ (attempt_quiet ex c' hd cb price) H2). clear H2.
  apply x_bind_inv in Hx as [([] & s3 & H3 & Hx)|(e' & H3 & ->)];
    [|rewrite (quiet_gas _ _ _ _ (spend_inputs_quiet ex _ _) H3); lia].
  rewrite <- (quiet_gas _ _ _ _ (spend_inputs_quiet ex _ _) H3). clear H3.
  apply x_bind_inv in Hx as [([] & s4 & H4 & Hx)|(e' & H4 & ->)];
    [|rewrite (quiet_gas _ _ _ _ (persist_outputs_quiet _ _ _ _) H4); lia].
  rewrite <- (quiet_gas _ _ _ _ (persist_outputs_quiet _ _ _ _) H4). clear H4.
  apply x_bind_inv in Hx as [([] & s5 & H5 & Hx)|(e' & H5 & ->)]; [|rewrite (quiet_gas _ _ _ _ (leaves_access _) H5); lia].
  rewrite <- (quiet_gas _ _ _ _ (leaves_access _) H5). clear H5.
  apply x_bind_inv in Hx as [([] & s6 & H6 & Hx)|(e' & H6 & ->)]; [injection Hx as <- _|]; apply update_gas in H6; [lia|done..|lia|done].
Qed.

(** ** Gas of a block *)

(** A checked transaction carries at least the maximal gas that the parameters of the block give
    it; it may have been checked with others. *)
Definition claims_max_gas (tx : MaybeCheckedTransaction) : Prop :=
  match tx with
  | MaybeChecked (CheckedChargeable c) _ => max_gas params (ck_tx c) ≤ ck_max_gas c
  | _ => True
  end.

Lemma convert_gas tx hd k g :
  claims_max_gas tx → maybe_checked_max_gas ex tx = Ok g → convert_maybe_checked_tx_to_checked_tx ex tx hd = Ok k →
  ∃ c, k = CheckedChargeable c ∧ max_gas params (ck_tx c) ≤ g.
Proof using Type*.
  destruct tx as [[|c] v|[|t]]; simpl; try done.
  - intros Hg [= <-]. case_decide; [done|]. case_decide; [intros [= <-]; eauto|].
    intros Hk%checked_basic_ok%basic_result. destruct k as [|k]; [done|]. simpl in Hk. subst k. eauto.
  - intros _ [= <-] Hk%checked_basic_ok%basic_result. destruct k as [|k]; [done|]. simpl in Hk. subst k. eauto using Z.le_refl.
Qed.

Lemma execute_gas tx id hd cb price s s' r g :
  is_dry_run ex = false → claims_max_gas tx → maybe_checked_max_gas ex tx = Ok g →
  execute_transaction ex tx id hd cb price s = (s', r) →
  used_gas (xdata s') ≤ used_gas (xdata s) + Z.max 0 g.
Proof using Type*.
  intros Hdry Hcur Hg. unfold execute_transaction. rewrite get_data_bind, require_bind.
  destruct (negb _); [|intros [= <- _]; lia]. rewrite get_storage_bind, lift_bind.
  destruct (table_exists _ _ _) as [processed|]; [|intros [= <- _]; lia]. cbn [storage_error]. rewrite require_bind.
  destruct (negb processed); [|intros [= <- _]; lia]. rewrite lift_bind.
  destruct (convert_maybe_checked_tx_to_checked_tx _ _ _) as [k|] eqn:Hk; [|intros [= <- _]; lia].
  destruct (convert_gas _ _ _ _ Hcur Hg Hk) as (c & -> & Hle). intros Hx. apply chargeable_gas in Hx; [lia|done].
Qed.

(** The gas of the statuses is part of the gas used. *)
Definition covered (d : ExecutionData Receipt ProgramState) : Prop := gas_sum (xtx_status d) ≤ used_gas d.

Lemma execute_covered tx id hd cb price b s r :
  is_dry_run ex = false → is_chargeable tx →
  execute_transaction ex tx id hd cb price (start b) = (s, r) → covered (bdata b) → covered (xdata s).
Proof using Type*.
  intros Hdry Hc. unfold execute_transaction. rewrite get_data_bind, require_bind.
  destruct (negb _); [|by intros [= <- _]]. rewrite get_storage_bind, lift_bind.
  destruct (table_exists _ _ _) as [processed|]; [|by intros [= <- _]]. cbn [storage_error]. rewrite require_bind.
  destruct (negb processed); [|by intros [= <- _]]. rewrite lift_bind.
  destruct (convert_maybe_checked_tx_to_checked_tx _ _ _) as [k|] eqn:Hk; [|by intros [= <- _]].
  destruct (convert_chargeable _ _ _ _ Hc Hk) as [c ->]. unfold covered. intros Hx Hcov. destruct r as [tx'|e].
  - apply chargeable_effect in Hx as [[(st & -> & _ & _ & ->) _ _ _ _ _] _]. rewrite gas_sum_snoc. simpl. lia.
  - pose proof (chargeable_gas _ _ _ _ _ _ _ Hdry Hx) as [Hlow _]. apply chargeable_fails in Hx as [[_ _ _ <- _] _].
    simpl in *. lia.
Qed.

Lemma step_covered tx price cb b b' r :
  is_dry_run ex = false → is_chargeable tx → covered (bdata b) →
  execute_transaction_and_commit ex tx price cb b = (b', r) → covered (bdata b').
Proof using Type*.
  intros Hdry Hc Hcov. unfold execute_transaction_and_commit. destruct (execute_transaction _ _ _ _ _ _ _) as [s o] eqn:Hx.
  eapply execute_covered in Hx; [|done..]. destruct o; [|by intros [= <- _]].
  destruct (commit _) as [st [[]|]]; [case_decide|]; by intros [= <- _].
Qed.

Lemma l1_covered cb b b' :
  is_dry_run ex = false → covered (bdata b) → process_l1_txs ex cb b = (b', Ok ()) → covered (bdata b').
Proof using Type*.
  intros Hdry. apply (process_l1_ind ex (λ b1, covered (bdata b1))).
  - intros p h da s [m|t]; cbn [process_event]; [by case_decide|by destruct (validate_forced_tx _ _ _ _)].
  - done.
  - intros b1 c Hc Hb1. unfold process_relayed_tx. destruct (execute_transaction_and_commit _ _ _ _ _) as [b2 r] eqn:Hx.
    eapply step_covered in Hx; [|done|apply Hc|done]. by destruct r.
Qed.

Section source.
Context {P : Type} `{!ProductionPorts P} (cb : ContractId) (price : Z) (hd : PartialBlockHeader) (limit : Z).
Context (Hdry : is_dry_run ex = false) (Hlimit : block_gas_limit params ≤ limit).

(** The gas used so far. *)
Definition within_gas b : Prop := pf_header (bblock b) = hd ∧ used_gas (bdata b) ≤ limit ∧ covered (bdata b).

Lemma step_gas tx b b' r g :
  claims_max_gas tx → maybe_checked_max_gas ex tx = Ok g → g ≤ remaining_gas ex b → within_gas b →
  execute_transaction_and_commit ex tx price cb b = (b', r) → within_gas b'.
Proof using Type*.
  intros Hc Hg Hrem (Hh & Hu & Hcov) Hstep.
  pose proof (step_covered _ _ _ _ _ _ Hdry (max_gas_chargeable _ _ _ Hg) Hcov Hstep) as Hcov'.
  revert Hstep. unfold execute_transaction_and_commit. rewrite Hh.
  destruct (execute_transaction _ _ _ _ _ _ _) as [s o] eqn:Hx.
  assert (used_gas (xdata s) ≤ limit) as Hs.
  { eapply execute_gas in Hx; [|done..]. simpl in Hx. unfold remaining_gas, sat_sub in Hrem. lia. }
  destruct o as [tx'|e]; [destruct (commit _) as [st [[]|]]; [case_decide|]|]; intros [= <- _]; by split_and!.
Qed.

Lemma batch_gas l : ∀ (s s' : PState) r,
  Forall claims_max_gas l → within_gas (pb s) →
  process_batch ex cb price (remaining_gas ex (pb s)) l s = Some (s', r) → within_gas (pb s').
Proof using Type*.
  induction l as [|tx l IH]; intros s s' r Hl Hw; simpl; [by intros [= <- _]|]. inversion_clear Hl as [|? ? Htx Hl'].
  unfold process_l2_tx. destruct (maybe_checked_max_gas ex tx) as [g|] eqn:Hg; [|by intros [= <- _]]. case_decide as Hgas.
  { simpl. intros Hp. eapply IH; [done| |exact Hp]. done. }
  destruct (execute_transaction_and_commit _ _ _ _ _) as [b1 r1] eqn:Hx. eapply step_gas in Hx; [|done..|lia|done].
  destruct (preconfirmation_of _ _ _ _) as [pre|]; [|done]. simpl. destruct (try_send _ _) as [sent p]. simpl.
  intros Hp. eapply IH; [done| |exact Hp]. simpl. by destruct r1.
Qed.

Lemma rounds_gas (I : P → Prop) fuel b p b' p' :
  hands_out claims_max_gas I → within_gas b → I p →
  production_rounds ex fuel cb price b p = Some (b', p', Ok ()) → within_gas b'.
Proof using Type*.
  intros Hsrc. apply (rounds_ind ex cb price claims_max_gas I within_gas Hsrc). intros l s s' _ Hl _ Hw. by apply batch_gas.
Qed.
End source.

(** The mint transaction uses no gas. *)
Lemma mint_gas cb price b b' :
  produce_mint_tx ex cb price b = (b', Ok ()) → gas_sum (xtx_status (bdata b')) = gas_sum (xtx_status (bdata b)).
Proof using Type*.
  unfold produce_mint_tx, execute_transaction_and_commit. set (tx := NotChecked _).
  destruct (execute_transaction _ _ _ _ _ _ _) as [s [tx'|]] eqn:Hx; [|done].
  apply execute_inv in Hx as (_ & _ & k & Hk & Hx).
  assert (∃ m, k = CheckedMint m) as [m ->].
  { apply checked_basic_ok, basic_result in Hk. destruct k; [by eauto|done]. }
  apply mint_effect in Hx as (_ & _ & _ & Hag & _).
  destruct (commit _) as [? [[]|]]; [|done]. case_decide; [|done]. intros [= <-]. simpl. rewrite <- (ag_status _ _ Hag). simpl.
  rewrite gas_sum_snoc. unfold total_gas. simpl. lia.
Qed.

(** ** The end of a production *)

Lemma step_status tx price cb b b' :
  is_chargeable tx → execute_transaction_and_commit ex tx price cb b = (b', Ok ()) →
  ∃ l st l' tx', xtx_status (bdata b') = l ++ [st] ∧ pf_transactions (bblock b') = l' ++ [tx'].
Proof using Type*.
  intros Hc. unfold execute_transaction_and_commit. destruct (execute_transaction _ _ _ _ _ _ _) as [s [tx'|]] eqn:Hx; [|done].
  apply execute_inv in Hx as (_ & _ & k & Hk & Hx). destruct (convert_chargeable _ _ _ _ Hc Hk) as [c ->].
  apply chargeable_effect in Hx as [[(st & Hst & _) _ _ _ _ _] _].
  destruct (commit _) as [? [[]|]]; [|done]. case_decide; [|done]. intros [= <-]. simpl. eauto 10.
Qed.

Lemma l2_tx_some {P} `{!ProductionPorts P} cb price limit tx (s : PState) :
  ∃ (s' : PState) r, process_l2_tx ex cb price limit tx s = Some (s', r) ∧
    (pports s' = pports s ∨ ∃ l, pports s' = (try_send l (pports s)).2).
Proof using Type*.
  unfold process_l2_tx. destruct (maybe_checked_max_gas ex tx) as [g|] eqn:Hg; [|by eauto]. case_decide; [by eauto|].
  destruct (execute_transaction_and_commit _ _ _ _ _) as [b1 r] eqn:Hx.
  assert (∃ pre, preconfirmation_of (maybe_checked_id ex tx) (xtx_count (bdata (pb s))) b1 r = Some pre) as [pre ->].
  { destruct r as [[]|]; [|by eexists]. apply max_gas_chargeable in Hg.
    apply step_status in Hx as (l & st & l' & tx' & Hst & Htx); [|done].
    unfold preconfirmation_of. rewrite Hst, Htx, !last_snoc. simpl. by eexists. }
  simpl. destruct (try_send _ _) as [sent p] eqn:Hs. do 2 eexists. split; [done|]. right. eexists. simpl. by rewrite Hs.
Qed.

Abbreviation Source := (list MaybeCheckedTransaction).

Lemma once_batch cb price l : ∀ limit (s : PState (P := Source)),
  ∃ (s' : PState (P := Source)) r, process_batch ex cb price limit l s = Some (s', r) ∧ pports s' = pports s.
Proof using Type*.
  induction l as [|tx l IH]; intros limit s; simpl; [by eauto|].
  destruct (l2_tx_some cb price limit tx s) as (s1 & r1 & -> & Hp). simpl.
  assert (pports s1 = pports s) as Hp1 by by destruct Hp as [|[? ?]].
  destruct r1 as [limit1|]; [|by eauto]. destruct (IH limit1 s1) as (s2 & r2 & -> & Hp2). exists s2, r2. split; [done|congruence].
Qed.

Lemma once_loop cb price fuel : ∀ (s : PState (P := Source)),
  (length (pports s) < fuel)%nat → ∃ (s' : PState (P := Source)) r, l2_loop ex fuel cb price s = Some (s', r).
Proof using Type*.
  induction fuel as [|fuel IH]; intros s Hlen; [lia|]. simpl. unfold next_batch. simpl. rewrite take_take, Nat.min_id.
  destruct (take _ (pports s)) as [|tx l] eqn:Ht; [by eauto|].
  destruct (once_batch cb price (tx :: l) (remaining_gas ex (pb s))
    {| pb := pb s; pports := drop (Z.to_nat (remaining_count (pb s))) (pports s); psent := psent s |}) as (s1 & r1 & -> & Hp1).
  simpl. destruct r1; [|by eauto]. apply IH. rewrite Hp1. simpl.
  pose proof (take_drop (Z.to_nat (remaining_count (pb s))) (pports s)) as Htd. rewrite Ht in Htd.
  apply (f_equal length) in Htd. simpl in Htd. rewrite length_app in Htd. lia.
Qed.

Lemma once_rounds cb price fuel b (p : Source) :
  (length p < fuel)%nat → ∃ b' p' r, production_rounds ex fuel cb price b p = Some (b', p', r).
Proof using Type*.
  destruct fuel as [|fuel]; intros Hlen; [lia|]. simpl production_rounds. unfold process_l2_txs.
  destruct (once_loop cb price (Datatypes.S fuel) {| pb := b; pports := p; psent := [] |} Hlen) as (s & r & ->). simpl.
  destruct r; simpl; by eauto.
Qed.
End gas.
