(* ===== verification/SampleVm.v ===== *)
(** * A sample virtual machine

    Concrete instances of what the executor takes from other crates: transactions that pay
    their fee, give change and write a slot of a contract; and a database with coins, a
    contract and a genesis block. *)

From stdpp Require Import prelude gmap list strings.
From Stdlib Require Import ZArith Lia.
From S2P Require Import Prelude.
From S2P Require Import StorageTx.
From S2P Require Import HistoricalDb.
From S2P Require Import Database.
From S2P Require Import DatabaseFacts.
From S2P Require Import Tables.
From S2P Require Import Blocks.
From S2P Require Import BlockStore.
From S2P Require Import SampleChain.
From S2P Require Import Producer.
From S2P Require Import ExecTypes.
From S2P Require Import VmStorage.
From S2P Require Import Executor.
From S2P Require Import ExecutorMonad.
From S2P Require Import ExecutorReplay.
From S2P Require Import ExecutorBlock.
Local Open Scope Z_scope.

Module SampleVm.
Import SampleDb.
Import SampleChain.
#[local] Arguments ser : simpl never.
#[local] Arguments de : simpl never.

(** ** Encodings *)

#[global] Instance pointer_countable : Countable TxPointer.
Proof.
  by refine (inj_countable' (λ p, (block_height p, tx_index p)) (λ '(h, i), {| block_height := h; tx_index := i |}) _);
    intros [].
Defined.
#[global] Instance utxo_countable : Countable UtxoId.
Proof.
  by refine (inj_countable' (λ u, (utxo_tx_id u, output_index u)) (λ '(t, i), {| utxo_tx_id := t; output_index := i |}) _);
    intros [].
Defined.
#[global] Instance coin_in_countable : Countable CoinIn.
Proof.
  by refine (inj_countable' (λ c, ((utxo_id c, c_owner c), (c_amount c, c_asset_id c), (c_tx_pointer c, c_rest c)))
    (λ '((u, o), (a, s), (p, r)), {| utxo_id := u; c_owner := o; c_amount := a; c_asset_id := s; c_tx_pointer := p; c_rest := r |}) _);
    intros [].
Defined.
#[global] Instance contract_in_countable : Countable ContractIn.
Proof.
  by refine (inj_countable' (λ c, ((ci_utxo_id c, ci_balance_root c), (ci_state_root c, ci_tx_pointer c), ci_contract_id c))
    (λ '((u, b), (s, p), i), {| ci_utxo_id := u; ci_balance_root := b; ci_state_root := s; ci_tx_pointer := p; ci_contract_id := i |}) _);
    intros [].
Defined.
#[global] Instance contract_out_countable : Countable ContractOut.
Proof.
  by refine (inj_countable' (λ c, (input_index c, co_balance_root c, co_state_root c))
    (λ '(i, b, s), {| input_index := i; co_balance_root := b; co_state_root := s |}) _); intros [].
Defined.
#[global] Instance message_in_countable : Countable MessageIn.
Proof.
  by refine (inj_countable' (λ m, ((m_sender m, m_recipient m), (m_amount m, m_nonce m), m_rest m))
    (λ '((s, r), (a, n), x), {| m_sender := s; m_recipient := r; m_amount := a; m_nonce := n; m_rest := x |}) _); intros [].
Defined.

(** An input with its variant and the data and gas it may have. *)
#[global] Instance input_countable : Countable Input.
Proof.
  refine (inj_countable' (λ i, match i with
    | CoinSigned c => inl (inl (c, None))
    | CoinPredicate c g => inl (inl (c, Some g))
    | InputContract c => inl (inr c)
    | MessageCoinSigned m => inr (m, (None, None))
    | MessageCoinPredicate m g => inr (m, (None, Some g))
    | MessageDataSigned m d => inr (m, (Some d, None))
    | MessageDataPredicate m d g => inr (m, (Some d, Some g))
    end) (λ x, match x with
    | inl (inl (c, None)) => CoinSigned c
    | inl (inl (c, Some g)) => CoinPredicate c g
    | inl (inr c) => InputContract c
    | inr (m, (None, None)) => MessageCoinSigned m
    | inr (m, (None, Some g)) => MessageCoinPredicate m g
    | inr (m, (Some d, None)) => MessageDataSigned m d
    | inr (m, (Some d, Some g)) => MessageDataPredicate m d g
    end) _).
  by intros [].
Defined.
#[global] Instance output_countable : Countable Output.
Proof.
  refine (inj_countable' (λ o, match o with
    | OutputCoin t a s => inl (inl (t, a, s))
    | OutputChange t a s => inl (inr (t, a, s))
    | OutputVariable t a s => inr (inl (t, a, s))
    | OutputContract c => inr (inr (inl c))
    | OutputContractCreated c r => inr (inr (inr (c, r)))
    end) (λ x, match x with
    | inl (inl (t, a, s)) => OutputCoin t a s
    | inl (inr (t, a, s)) => OutputChange t a s
    | inr (inl (t, a, s)) => OutputVariable t a s
    | inr (inr (inl c)) => OutputContract c
    | inr (inr (inr (c, r))) => OutputContractCreated c r
    end) _).
  by intros [].
Defined.
#[global] Instance kind_of_tx_countable : Countable ChargeableKind.
Proof.
  refine (inj_countable' (λ k, match k with Script => 0 | Create => 1 | Upgrade => 2 | Upload => 3 | Blob => 4 end)
    (λ n, match n with 0 => Script | 1 => Create | 2 => Upgrade | 3 => Upload | _ => Blob end) _).
  by intros [].
Defined.
#[global] Instance transaction_countable : Countable Transaction.
Proof.
  refine (inj_countable' (λ tx, match tx with
    | TxMint m => inl ((mint_tx_pointer m, input_contract m, output_contract m), (mint_amount m, mint_asset_id m, mint_gas_price m))
    | TxChargeable t => inr (kind t, inputs t, outputs t, body t)
    end) (λ x, match x with
    | inl ((p, i, o), (a, s, g)) => TxMint {| mint_tx_pointer := p; input_contract := i; output_contract := o;
        mint_amount := a; mint_asset_id := s; mint_gas_price := g |}
    | inr (k, i, o, b) => TxChargeable {| kind := k; inputs := i; outputs := o; body := b |}
    end) _).
  by intros [[]|[]].
Defined.

#[global] Instance state_codecs : StateCodecs := {
  ser_coin c := ser (coin_owner c, coin_amount c, coin_asset_id c, coin_tx_pointer c);
  de_coin v := (λ '(o, a, s, p), {| coin_owner := o; coin_amount := a; coin_asset_id := s;
                                    coin_tx_pointer := p |}) <$> de v;
  ser_message m := ser (sender m, recipient m, nonce m, (msg_amount m, msg_data m, msg_da_height m));
  de_message v := (λ '(s, r, n, (a, d, h)), {| sender := s; recipient := r; nonce := n; msg_amount := a;
                                              msg_data := d; msg_da_height := h |}) <$> de v;
  ser_utxo_info i := ser (info_utxo_id i, info_tx_pointer i);
  de_utxo_info v := (λ '(u, p), {| info_utxo_id := u; info_tx_pointer := p |}) <$> de v;
}.

#[global] Instance state_codecs_laws : StateCodecsLaws.
Proof.
  split; simpl.
  - intros c. rewrite de_ser. by destruct c.
  - intros m. rewrite de_ser. by destruct m.
  - intros i. rewrite de_ser. by destruct i.
Qed.

(** The fields of the body: the nonce, the expiration, the maximal gas, the fee limit, the
    size and the value to write. *)
Definition field (n : nat) (t : Chargeable) : Z := default 0 (body t !! n).
Definition tx_nonce : Chargeable → Z := field 0.

(** An identifier is the nonce. *)
#[global] Instance tx_crypto : ChainCrypto Transaction Z := {
  digest l := replicate 31 0 ++ sum l;
  ephemeral_root leaves := sum (concat leaves);
  tx_bytes tx := match tx with TxMint m => [mint_amount m] | TxChargeable t => body t end;
  tx_id _ tx :=
    match tx with
    | TxMint m => replicate 30 0 ++ [1; block_height (mint_tx_pointer m)]
    | TxChargeable t => replicate 31 0 ++ [tx_nonce t]
    end;
  PublicKey := Z;
  recover signature _ := Some signature;
  owner key := [key];
}.

#[global] Instance block_codecs : BlockCodecs Transaction Z := {
  ser_block := ser_block (BlockCodecs := codecs);
  de_block := de_block (BlockCodecs := codecs);
  ser_merkle_metadata := ser_merkle_metadata (BlockCodecs := codecs);
  de_merkle_metadata := de_merkle_metadata (BlockCodecs := codecs);
  ser_metadata_key := ser_metadata_key (BlockCodecs := codecs);
  ser_consensus := ser_consensus (BlockCodecs := codecs);
  de_consensus := de_consensus (BlockCodecs := codecs);
  ser_tx := ser;
  de_tx := de;
}.

#[global] Instance block_codecs_laws : BlockCodecsLaws Transaction Z.
Proof.
  destruct codecs_laws as [Hb Hm Hc _ Hi Hp Hl]. split; [done..| |done|done|done]. intros tx. apply de_ser.
Qed.

(** ** The virtual machine *)

(** What the inputs bring in. *)
Definition input_amount (i : Input) : Z :=
  match i with
  | CoinSigned c | CoinPredicate c _ => c_amount c
  | InputContract _ => 0
  | MessageCoinSigned m | MessageCoinPredicate m _ | MessageDataSigned m _ | MessageDataPredicate m _ _ => m_amount m
  end.

Definition give_change (amount : Z) (o : Output) : Output :=
  match o with OutputChange to _ asset => OutputChange to amount asset | _ => o end.

Definition executed (t : Chargeable) : Chargeable :=
  with_outputs (give_change (foldr Z.add 0 (input_amount <$> inputs t) - field 3 t) <$> outputs t) t.

Definition contract_of (t : Chargeable) : option ContractId :=
  head (omap (λ i, match i with InputContract c => Some (ci_contract_id c) | _ => None end) (inputs t)).

Definition SLOT : Bytes32 := replicate 31 0 ++ [9].

(** A predicate or signature is right when its data is not empty. *)
Definition input_allowed (i : Input) : bool :=
  match i with
  | CoinSigned c | CoinPredicate c _ => bool_decide (c_rest c ≠ [])
  | InputContract _ => true
  | MessageCoinSigned m | MessageCoinPredicate m _ | MessageDataSigned m _ | MessageDataPredicate m _ _ =>
      bool_decide (m_rest m ≠ [])
  end.

Definition fresh (p : Z * Z) (tx : Transaction) : CheckedTransaction :=
  match tx with
  | TxMint m => CheckedMint (Build_Checked m (tx_id 0 tx) 0 false false)
  | TxChargeable t => CheckedChargeable (Build_Checked t (tx_id 0 tx) (field 2 t) false false)
  end.

Definition basic_checks (h : Z) (tx : Transaction) : bool :=
  match tx with
  | TxMint m => bool_decide (block_height (mint_tx_pointer m) = h)
  | TxChargeable t => bool_decide (h ≤ field 1 t)
  end.

(** The minimal gas of a transaction. *)
Definition MIN_GAS : Z := 1.

Definition run (price : Z) (t : Chargeable) : VmProg (Z * Z) (result (VmResult Z unit) string) :=
  let res := {| should_revert := bool_decide (field 5 t = 0); vm_state := (); vm_tx := executed t;
                vm_receipts := [field 2 t - MIN_GAS]; missing_contract_inputs := [] |} in
  match contract_of t with
  | Some c => VmCall (VmReplace (KState c SLOT) [field 5 t]) (λ r, VmRet (match r with Ok _ => Ok res | Err e => Err e end))
  | None => VmRet (Ok res)
  end.

#[global] Instance vm : FuelVm := {
  ConsensusParameters := Z * Z;
  Receipt := Z;
  ProgramState := unit;
  ReadyTransaction := Chargeable;
  ser_consensus_parameters := ser;
  de_consensus_parameters := de;
  block_gas_limit := fst;
  block_transaction_size_limit := snd;
  params_chain_id _ := 0;
  base_asset_id _ := zeroed;
  transaction_from_bytes := de;
  compute_message_id s r n a d := n;
  expiration := field 1;
  max_gas _ := field 2;
  min_gas _ _ := MIN_GAS;
  max_fee_limit := field 3;
  refund_fee _ t used price := Some (Z.max 0 (field 3 t - (MIN_GAS + used) * price));
  metered_bytes_size := field 4;
  script_result_gas := Some;
  receipt_message_id _ := None;
  contract_not_in_inputs _ := 0;
  into_checked_basic h p tx := if basic_checks h tx then Ok (fresh p tx) else Err "Validity";
  into_checked_reusable_memory h p _ tx := if basic_checks h tx then Ok (fresh p tx) else Err "Validity";
  check_predicates _ _ _ c :=
    if ck_predicates c then Ok c else if forallb input_allowed (inputs (ck_tx c)) then Ok (with_predicates c) else Err "Predicate";
  check_signatures _ c :=
    if ck_signatures c then Ok c else if forallb input_allowed (inputs (ck_tx c)) then Ok (with_signatures c) else Err "Signature";
  into_ready _ _ _ c := if decide (MIN_GAS ≤ field 2 (ck_tx c)) then Ok (strip (ck_tx c)) else Err "InsufficientMaxGas";
  transact _ price _ _ := run price;
  balance_increase c a amount :=
    VmCall (VmGet (KAsset c a)) (λ r, match r with
      | Ok o => VmCall (VmInsert (KAsset c a) (to_be_bytes 8 (from_be_bytes (default [] o) + amount))) (λ _, VmRet (Ok ()))
      | Err e => VmRet (Err e)
      end);
}.

Lemma strip_input_twice i : strip_input (strip_input i) = strip_input i.
Proof. by destruct i as [[]|[]|[]| | | |]. Qed.
Lemma strip_output_change n o : strip_output (give_change n (strip_output o)) = strip_output o.
Proof. by destruct o as [| |? ? ?| |]. Qed.

Lemma executed_strip t : strip_gas (executed (strip t)) = strip_gas t.
Proof.
  unfold strip_gas, strip, executed, with_inputs, with_outputs. simpl. f_equal.
  - rewrite <- !list_fmap_compose. apply list_fmap_ext. intros ? i _. simpl. by rewrite strip_input_twice.
  - rewrite <- !list_fmap_compose. apply list_fmap_ext. intros ? o _. simpl. apply strip_output_change.
Qed.

Lemma allowed_strip i : input_allowed (strip_input i) = input_allowed i.
Proof. by destruct i. Qed.

Lemma allowed_inputs l l' : strip_input <$> l = strip_input <$> l' → forallb input_allowed l = forallb input_allowed l'.
Proof.
  revert l'. induction l as [|i l IH]; intros [|i' l']; simpl; try done. intros [= Hi Hl].
  by rewrite <- allowed_strip, Hi, allowed_strip, (IH l').
Qed.

Lemma marked_predicates (c : Checked Chargeable) : ck_predicates c = true → c = with_predicates c.
Proof. destruct c. simpl. by intros ->. Qed.
Lemma marked_signatures (c : Checked Chargeable) : ck_signatures c = true → c = with_signatures c.
Proof. destruct c. simpl. by intros ->. Qed.

#[global] Instance vm_laws : FuelVmLaws Z.
Proof.
  split; simpl.
  - intros h p tx c. destruct (basic_checks h tx); [|done]. intros [= <-]. by destruct tx.
  - intros h p tx tx' Hs. enough (basic_checks h tx = basic_checks h tx') as -> by by destruct (basic_checks h tx').
    destruct tx as [[]|[]], tx' as [[]|[]]; by simplify_eq/=.
  - intros h0 h p t Hh. repeat case_bool_decide; try done. unfold expiration in *. simpl in *. lia.
  - intros h p _ tx c. destruct (basic_checks h tx); [|done]. intros [= <-]. by destruct tx.
  - intros chain tx tx' Hs. destruct tx as [[]|[]], tx' as [[]|[]]; by simplify_eq/=.
  - intros _ _ _ c c'. destruct (ck_predicates c) eqn:Hm; [intros [= <-]; by apply marked_predicates|].
    destruct (forallb _ _); [by intros [= <-]|done].
  - by intros _ _ _ c ->.
  - intros _ _ _ c c' [= _ Hi _ _] ->. rewrite (allowed_inputs _ _ Hi). by repeat case_match.
  - intros _ c c'. destruct (ck_signatures c) eqn:Hm; [intros [= <-]; by apply marked_signatures|].
    destruct (forallb _ _); [by intros [= <-]|done].
  - by intros _ c ->.
  - intros _ c c' [= _ Hi _ _] ->. rewrite (allowed_inputs _ _ Hi). by repeat case_match.
  - intros p price h c c' r Hs. unfold field. assert (body (ck_tx c) = body (ck_tx c')) as -> by by injection Hs.
    case_decide; [|done]. intros [= <-]. eexists. split; [done|]. by rewrite Hs.
  - intros p price h c r sys dry. case_decide; [|done]. intros [= <-]. unfold run.
    destruct (contract_of _); simpl; [intros []|]; intros res ?; simplify_eq; apply executed_strip.
  - intros p price h c r sys dry. case_decide as Hmin; [|done]. intros [= <-].
    assert (0 ≤ script_gas [field 2 (strip (ck_tx c)) - MIN_GAS] ≤ field 2 (ck_tx c) - MIN_GAS) as Hg.
    { unfold script_gas. simpl. unfold field in *. simpl. lia. }
    unfold run. destruct (contract_of _); simpl; [intros []|]; intros res ?; by simplify_eq.
  - intros _ _. unfold MIN_GAS. lia.
  - done.
  - intros S HS st p price sys dry r t t' reads reads' o. unfold run.
    destruct (contract_of r) as [c|]; simpl; [|by intros [= <- _ _]].
    unfold replace, and_then. destruct (old_value t _ _); intros [= <- _ _]; intros id b Hb; rewrite <- Hb;
      etrans; [apply record_view| |apply record_view|]; by rewrite decide_False by naive_solver.
Qed.

(** ** A database *)

Definition CONTRACT : ContractId := replicate 31 0 ++ [3].
Definition ALICE : Address := replicate 31 0 ++ [1].

Definition utxo (n : Z) : UtxoId := {| utxo_tx_id := replicate 32 n; output_index := 0 |}.
Definition coin : CompressedCoin :=
  {| coin_owner := ALICE; coin_amount := 50; coin_asset_id := zeroed; coin_tx_pointer := no_pointer |}.
Definition genesis_block : Block TxId := compress chain_id (entity genesis).

Definition exec_db : Db :=
  <[CONSENSUS_PARAMETERS_VERSIONS_COLUMN := {[to_be_bytes 4 0 := ser_consensus_parameters (100, 1000)]}]>
  (<[FUEL_BLOCKS_COLUMN := {[to_be_bytes 4 0 := ser_block genesis_block]}]>
  (<[CONTRACTS_LATEST_UTXO_COLUMN := {[CONTRACT := ser_utxo_info {| info_utxo_id := utxo 7; info_tx_pointer := no_pointer |}]}]>
  {[COINS_COLUMN := <[utxo_key (utxo 1) := ser_coin coin]> (<[utxo_key (utxo 2) := ser_coin coin]>
     {[utxo_key (utxo 4) := ser_coin coin]})]})).

(** A transaction that spends a coin, writes [value] and gives change. *)
Definition spend (n u gas size value : Z) : Chargeable := {|
  kind := Script;
  inputs := [CoinSigned {| utxo_id := utxo u; c_owner := ALICE; c_amount := 50; c_asset_id := zeroed;
               c_tx_pointer := no_pointer; c_rest := [0] |};
             InputContract (empty_contract_input CONTRACT)];
  outputs := [OutputChange ALICE 0 zeroed; OutputContract {| input_index := 1; co_balance_root := zeroed; co_state_root := zeroed |}];
  body := [n; 100; gas; 20; size; value];
|}.

Definition next_header : PartialBlockHeader := partial 1 zeroed 1 11.

Definition bridged : Message :=
  {| sender := replicate 31 0 ++ [4]; recipient := ALICE; nonce := replicate 31 0 ++ [6]; msg_amount := 9; msg_data := []; msg_da_height := 1 |}.
Definition forced (t : Chargeable) : RelayedTransaction :=
  {| rt_nonce := replicate 31 0 ++ [5]; rt_max_gas := 10; serialized_transaction := ser (TxChargeable t); rt_da_height := 1 |}.

Definition exec_instance : ExecutionInstance (D := Db) := {|
  relayer := Some (λ da, Ok (if decide (da = 1) then [EventMessage bridged; EventTransaction (forced (spend 10 4 2 10 1))] else []));
  xdatabase := exec_db;
  xoptions := {| forbid_fake_coins := true; allow_syscall := true |};
|}.

Definition production (l : list MaybeCheckedTransaction) : Components (list MaybeCheckedTransaction) := {|
  header_to_produce := next_header;
  transactions_source := l;
  coinbase_recipient := CONTRACT;
  gas_price := 2;
|}.
End SampleVm.
