(* ===== verification/ExecutorSpec.v ===== *)
(** * The executor as a whole

    A produced block is valid; a valid block pays its fees once, to the mint transaction at
    its end if it names a contract, and processes each of its transactions once; its events
    tell how the tables of coins and messages change; production from a list of transactions
    ends.  A transaction that overflows the block leaves its fee and events behind. *)

From stdpp Require Import prelude gmap list strings.
From Stdlib Require Import ZArith Lia.
From S2P Require Import Prelude.
From S2P Require Import StorageTx.
From S2P Require Import HistoricalDb.
From S2P Require Import Database.
From S2P Require Import DatabaseFacts.
From S2P Require Import Tables.
From S2P Require Import Blocks.
From S2P Require Import BlockStore.
From S2P Require Import Producer.
From S2P Require Import ExecTypes.
From S2P Require Import VmStorage.
From S2P Require Import Executor.
From S2P Require Import ExecutorMonad.
From S2P Require Import ExecutorReplay.
From S2P Require Import ExecutorBlock.
From S2P Require Import ExecutorProduce.
From S2P Require Import ExecutorEffects.
From S2P Require Import ExecutorAccounts.
From S2P Require Import ExecutorGas.
From S2P Require Import SampleChain.
From S2P Require Import SampleVm.
Local Open Scope Z_scope.

Section spec.
Context {Signature : Type} `{FV : FuelVm} `{!ChainCrypto Transaction Signature}.
Context `{!BlockCodecs Transaction Signature} `{SC : StateCodecs} `{MT : MerkleTree}.
Context `{!HashOrder Z} `{!HashOrder Key} `{!FuelVmLaws Signature}
  `{!StateCodecsLaws}.
Context {D : Type} `{!KeyValueInspect D} `{!KeyValueLaws D} {P : Type} `{!ProductionPorts P}.
Abbreviation ExecutionInstance := (@ExecutionInstance D).

(** The source hands out transactions of [Φ] only. *)
Definition source_of (Φ : MaybeCheckedTransaction → Prop) (p : P) : Prop := ∃ I, hands_out Φ I ∧ I p.

(** The source hands out what it checked with the parameters of the block. *)
Definition honest_source (i : ExecutionInstance) (c : Components P) : Prop :=
  let hd := header_to_produce c in
  ∀ ex st, into_executor i (consensus_parameters_version (p_application hd)) false = Ok (ex, st) →
    source_of (honest (consensus_params ex) (allow_syscall (xoptions i)) (height (p_consensus hd))
      (consensus_parameters_version (p_application hd)) (view_of (xdatabase i))) (transactions_source c).

(** C3: a block that is produced is accepted by validation on the same database, with the same
    statuses and storage changes and, when nothing was skipped, the same events, whatever the
    source, the waiter and the virtual machine do, unless a transaction was skipped because the
    total size or gas of the block overflowed its integer. *)
Theorem produced_block_validates (i : ExecutionInstance) fuel (c : Components P) p r ch :
  honest_source i c →
  produce_without_commit i fuel c false = Some (p, Ok (r, ch)) →
  (∃ id e, (id, e) ∈ xr_skipped r ∧ overflow e) ∨
  ∃ events, validate_without_commit i (xr_block r) = Ok (xr_tx_status r, events, ch) ∧
    (xr_skipped r = [] → events = xr_events r).
Proof using Type*.
  unfold honest_source. intros Hsrc. unfold produce_without_commit.
  set (version := consensus_parameters_version (p_application (header_to_produce c))).
  destruct (into_executor i version false) as [[ex st]|] eqn:Hinto; [|done].
  destruct (Hsrc ex st Hinto) as (I & Hout & Hi).
  assert (∃ prm, ex = {| get_events := relayer i; consensus_params := prm; options := xoptions i; is_dry_run := false |} ∧
    st = with_policy PolicyOverwrite (into_transaction (xdatabase i))) as (prm & Hex & Hst).
  { unfold into_executor in Hinto. destruct (table_get _ _ _) as [[prm|]|]; [|done|done].
    injection Hinto as <- <-. by exists prm. }
  unfold execute. rewrite Hex at 1. cbn [is_dry_run].
  destruct (produce_block ex fuel c st) as [[p1 [[[partial d] ch1]|]]|] eqn:Hprod; [|done|done]. simpl.
  destruct (header_error _) as [block|] eqn:Hgen; [|done]. simpl. intros [= <- <- <-]. simpl.
  eapply (produce_validates ex (view_of (xdatabase i)) I) in Hprod as (Hhd & Hval); [|subst; done..|exact Hgen].
  destruct Hval as [Hsp|(d' & Hv & Ha & Heq)]; [by left|]. right. exists (xevents d').
  split; [|intros Hn; by rewrite Heq]. unfold validate_without_commit.
  assert (consensus_parameters_version (application (header block)) = version) as ->.
  { unfold version. by rewrite <- Hhd. }
  rewrite Hinto. cbn [result_bind]. rewrite Hv. cbn [result_bind]. by rewrite (ag_status _ _ Ha).
Qed.

(** The storage after the changes of a block. *)
Definition after (db : D) (ch : Changes) : View.t := λ k c, applied (change_at ch k c) (view_of db k c).

Lemma into_executor_inv (i : ExecutionInstance) version dry_run ex st :
  into_executor i version dry_run = Ok (ex, st) →
  options ex = xoptions i ∧ is_dry_run ex = dry_run ∧ st = with_policy PolicyOverwrite (into_transaction (xdatabase i)).
Proof. unfold into_executor. destruct (table_get _ _ _) as [[prm|]|]; [|done|done]. by intros [= <- <-]. Qed.

(** A validated block with what its execution left. *)
Lemma validate_inv (i : ExecutionInstance) block sts evs ch :
  validate_without_commit i block = Ok (sts, evs, ch) →
  ∃ ex b, into_executor i (consensus_parameters_version (application (header block))) false =
      Ok (ex, with_policy PolicyOverwrite (into_transaction (xdatabase i))) ∧ options ex = xoptions i ∧
    accounted ex (xdatabase i) b ∧ sts = xtx_status (bdata b) ∧ evs = xevents (bdata b) ∧
    pf_transactions (bblock b) = transactions block ∧ found_mint (bdata b) = true ∧ tx_number b ≤ U16 ∧
    ∀ k c, view_of (bstorage b) k c = after (xdatabase i) ch k c.
Proof using Type*.
  unfold validate_without_commit. destruct (into_executor _ _ _) as [[ex st]|] eqn:Hi; [|done].
  pose proof (into_executor_inv _ _ _ _ _ Hi) as (Hopt & _ & ->). cbn [result_bind].
  destruct (validate_block _ _ _) as [[d ch']|] eqn:Hv; [|done]. cbn [result_bind]. intros [= <- <- <-].
  apply validate_block_accounted in Hv as (b & Hacc & <- & <- & Htx & Hf & Hn). exists ex, b. split_and!; try done.
  intros k c. unfold view_of at 1, after. rewrite <- (ac_storage _ _ _ Hacc). apply tx_get_applied.
Qed.

(** The transactions of a valid block are new, each is there once, and all are processed. *)
Lemma validated_ids (i : ExecutionInstance) block sts evs ch :
  validate_without_commit i block = Ok (sts, evs, ch) →
  NoDup (status_id <$> sts) ∧
  (∀ id, id ∈ status_id <$> sts → view_of (xdatabase i) id PROCESSED_TRANSACTIONS_COLUMN = Ok None) ∧
  (∀ id, after (xdatabase i) ch id PROCESSED_TRANSACTIONS_COLUMN =
    if decide (id ∈ status_id <$> sts) then Ok (Some []) else view_of (xdatabase i) id PROCESSED_TRANSACTIONS_COLUMN).
Proof using Type*.
  intros (ex & b & Hi & _ & [_ _ Aid _ _ _ Apr And Anew _ _] & -> & -> & _ & _ & _ & Hv)%validate_inv.
  rewrite Aid. split_and!; [done|done|]. intros id. by rewrite <- Hv, Apr.
Qed.

(** C5: in a block that validation accepts, the mint transaction is the last one and its index
    the number of the others; the statuses are those of the transactions, in order; no
    transaction is there twice, none was processed before, and all of them are afterwards.  The
    mint transaction gets nothing if it names no contract, and otherwise the fees of all
    transactions, unless a forced transaction failed on an overflow, whose fee may be in it. *)
Theorem validated_block_accounts (i : ExecutionInstance) block sts evs ch :
  validate_without_commit i block = Ok (sts, evs, ch) →
  ∃ ex st txs m, into_executor i (consensus_parameters_version (application (header block))) false = Ok (ex, st) ∧
    transactions block = txs ++ [TxMint m] ∧ Forall is_charge txs ∧
    tx_index (mint_tx_pointer m) = Z.of_nat (length txs) ∧
    let ids := tx_id (params_chain_id (consensus_params ex)) <$> transactions block in
    status_id <$> sts = ids ∧ NoDup ids ∧
    (∀ id, id ∈ ids → view_of (xdatabase i) id PROCESSED_TRANSACTIONS_COLUMN = Ok None) ∧
    (∀ id, after (xdatabase i) ch id PROCESSED_TRANSACTIONS_COLUMN =
      if decide (id ∈ ids) then Ok (Some []) else view_of (xdatabase i) id PROCESSED_TRANSACTIONS_COLUMN) ∧
    if decide (ci_contract_id (input_contract m) = zeroed) then mint_amount m = 0
    else left_fee evs ∨ mint_amount m = fee_sum sts.
Proof using Type*.
  intros Hval. pose proof (validated_ids i block sts evs ch Hval) as (Hnd & Hnew & Hpr).
  apply validate_inv in Hval as (ex & b & Hi & _ & [_ _ Aid _ _ _ _ _ _ _ Amint] & -> & -> & Htx & Hf & Hn & Hv).
  rewrite Hf in Amint. destruct Amint as (txs & m & Htxs & Hc & Hidx & Hm). unfold ids in *. rewrite Aid, Htx in *.
  eexists ex, _, txs, m. split_and!; try done.
  destruct Hidx; [|done]. unfold tx_number in *. rewrite Htx in *. lia.
Qed.

(** The events of a valid block replay its changes of coins and messages. *)
Lemma validated_replays (i : ExecutionInstance) block sts evs ch :
  forbid_fake_coins (xoptions i) = true → messages_keyed (view_of (xdatabase i)) →
  validate_without_commit i block = Ok (sts, evs, ch) → ¬ left_events evs →
  replays (view_of (xdatabase i)) evs (after (xdatabase i) ch).
Proof using Type*.
  intros Hforbid Hk (ex & b & Hi & Hopt & Hacc & _ & -> & _ & _ & _ & Hv)%validate_inv Hleft.
  destruct (ac_events _ _ _ Hacc) as [|Hr]; [done|]. destruct (Hr ltac:(by rewrite Hopt) Hk) as [Hfit Hsame].
  split; [done|]. rewrite <- Hsame. intros k c _. by rewrite Hv.
Qed.

(** C6: where coins that do not exist are forbidden and messages are stored by their nonces,
    the events of a valid block in which no forced transaction failed in its execution tell
    exactly how the tables of coins and messages change: each created coin was new, each consumed
    coin or message was there as the event has it, and from the tables before the block the
    events lead to those after it, in which messages are still stored by their nonces. *)
Theorem validated_events_exact (i : ExecutionInstance) block sts evs ch :
  forbid_fake_coins (xoptions i) = true → messages_keyed (view_of (xdatabase i)) →
  validate_without_commit i block = Ok (sts, evs, ch) → ¬ left_events evs →
  replays (view_of (xdatabase i)) evs (after (xdatabase i) ch) ∧ messages_keyed (after (xdatabase i) ch).
Proof using Type*.
  intros Hf Hk Hv Hl. pose proof (validated_replays i block sts evs ch Hf Hk Hv Hl) as Hr. split; [done|].
  by apply (replays_keyed _ _ _ Hr).
Qed.

(** The mint transaction of a valid block, which is the last one. *)
Lemma validated_mint (i : ExecutionInstance) block sts evs ch txs m :
  validate_without_commit i block = Ok (sts, evs, ch) → transactions block = txs ++ [TxMint m] →
  if decide (ci_contract_id (input_contract m) = zeroed) then mint_amount m = 0
  else left_fee evs ∨ mint_amount m = fee_sum sts.
Proof using Type*.
  intros (ex & b & Hi & _ & [_ _ _ _ _ _ _ _ _ _ Amint] & -> & -> & Htx & Hf & _ & _)%validate_inv Htxs.
  rewrite Hf, Htx, Htxs in Amint. destruct Amint as (txs' & m' & He & _ & _ & Hm). by apply app_inj_tail in He as [_ [= <-]].
Qed.

(** C30: a transaction that overflows the size or the gas of a block fails after it was executed,
    and the block keeps its transactions and its storage; but its fee stays in the coinbase of
    the block, and its events stay although they tell of changes that were dropped.  A mint
    transaction with a contract after that takes more than the fees of the transactions of the
    block, by that fee, and no validation that gives them the same statuses accepts the block,
    unless the fee is zero or a forced transaction fails on an overflow. *)
Theorem skipped_fee_spoils_block ex (db : D) tx price cb b b' e :
  is_chargeable tx → named ex tx → accounted ex db b → ¬ left_fee (xevents (bdata b)) → xtx_count (bdata b) < U16 →
  forbid_fake_coins (options ex) = true → messages_keyed (view_of (bstorage b)) →
  execute_transaction_and_commit ex tx price cb b = (b', Err e) → overflow e →
  bblock b' = bblock b ∧ bstorage b' = bstorage b ∧
  ∃ t receipts gas fee evs dropped,
    tx_id (params_chain_id (consensus_params ex)) (TxChargeable t) = maybe_checked_id ex tx ∧
    total_fee_paid ex t receipts price = Ok (gas, fee) ∧
    coinbase (bdata b') = fee_sum (xtx_status (bdata b')) + fee ∧
    xevents (bdata b') = xevents (bdata b) ++ evs ∧ replays (view_of (bstorage b)) evs dropped ∧
    ∀ b2, cb ≠ zeroed → produce_mint_tx ex cb price b' = (b2, Ok ()) →
      ∃ m, pf_transactions (bblock b2) = pf_transactions (bblock b) ++ [TxMint m] ∧
        mint_amount m = fee_sum (xtx_status (bdata b2)) + fee ∧
        ∀ i block evs' ch, transactions block = pf_transactions (bblock b2) →
          validate_without_commit (D := D) i block = Ok (xtx_status (bdata b2), evs', ch) → left_fee evs' ∨ fee = 0.
Proof using Type*.
  intros Hc Hn Hacc Hleft Hcount Hforbid Hkeyed Hstep Ho. pose proof (ac_policy _ _ _ Hacc) as Hpo.
  apply step_overflows in Hstep as (Hb & Hs & c & s & Hid & Hd & [Hl (t & receipts & gas & fee & Ht & Hf & Hcb & _) Hev _]); [|done..].
  destruct (Hev Hforbid eq_refl Hkeyed) as (evs & Hevs & Hr). simpl in Hl, Hcb, Hevs.
  assert (coinbase (bdata b') = fee_sum (xtx_status (bdata b')) + fee) as Hfee.
  { rewrite Hd, Hcb, <- (sl_status _ _ Hl). by destruct (ac_fees _ _ _ Hacc) as [| ->]. }
  split; [done|]. split; [done|]. exists t, receipts, gas, fee, evs, (view_of (xstorage s)). split_and!; [|done|done|by rewrite Hd|exact Hr|].
  { rewrite <- Hid. apply tx_id_strip. simpl. by rewrite Ht. }
  intros b2 Hne Hmint. destruct (mint_takes ex cb price b' b2) as (m & st & Htx & Hm & Ham & Hst & Hz); try done.
  - by rewrite Hs.
  - rewrite Hd, <- (sl_count _ _ Hl). done.
  - exists m. split; [by rewrite Htx, Hb|]. assert (mint_amount m = fee_sum (xtx_status (bdata b2)) + fee) as Ham'.
    { by rewrite Ham, Hfee, Hst, fee_sum_snoc, Hz, Z.add_0_r. }
    split; [done|]. intros i block evs' ch Hbl Hv. eapply validated_mint in Hv; [|by rewrite Hbl, Htx].
    rewrite decide_False in Hv by done. destruct Hv; [by left|right]. lia.
Qed.

(** C31: with a source none of whose checked transactions carries less than the maximal gas that
    the parameters of the block give it, the transactions of a produced block together use at
    most the gas limit of a block, or what the forced transactions at its beginning have used if
    that is more.  A transaction that was checked with the parameters of the block carries that
    gas; one that was checked with older ones carries what they gave, which may be less. *)
Theorem produced_gas_bounded (i : ExecutionInstance) fuel (c : Components P) p r ch :
  (∀ ex st, into_executor i (consensus_parameters_version (p_application (header_to_produce c))) false = Ok (ex, st) →
    source_of (claims_max_gas ex) (transactions_source c)) →
  produce_without_commit i fuel c false = Some (p, Ok (r, ch)) →
  ∃ ex st b0, into_executor i (consensus_parameters_version (p_application (header_to_produce c))) false = Ok (ex, st) ∧
    process_l1_txs ex (coinbase_recipient c) (new_block (header_to_produce c) st) = (b0, Ok ()) ∧
    gas_sum (xr_tx_status r) ≤ Z.max (block_gas_limit (consensus_params ex)) (used_gas (bdata b0)).
Proof using Type*.
  intros Hsrc. unfold produce_without_commit. destruct (into_executor i _ false) as [[ex st]|] eqn:Hinto; [|done].
  destruct (Hsrc ex st eq_refl) as (I & Hout & Hi). pose proof (into_executor_inv _ _ _ _ _ Hinto) as (_ & Hdry & Hst).
  unfold execute, produce_block. rewrite Hdry. set (hd := header_to_produce c) in *. set (cb := coinbase_recipient c).
  destruct (process_l1_txs ex cb (new_block hd st)) as [b0 [[]|]] eqn:Hl1; [|done].
  destruct (l1_sound ex (view_of (xdatabase i)) cb (new_block hd st) b0) as (_ & Hh & _); [subst st; by split|done|done|].
  assert (covered (bdata b0)) as Hcov by (eapply l1_covered, Hl1; [done|apply Z.le_refl]).
  destruct (production_rounds ex fuel _ _ b0 _) as [[[b1 p1] [[]|]]|] eqn:Hrounds; [|done|done].
  eapply (rounds_gas ex cb (gas_price c) hd (Z.max (block_gas_limit (consensus_params ex)) (used_gas (bdata b0)))) in Hrounds
    as (_ & Hused & Hcov1); [|done|lia|exact Hout|split_and!; [done|lia|done]|done].
  cbn [mbind option_bind]. destruct (produce_mint_tx ex cb (gas_price c) b1) as [b2 [[]|]] eqn:Hmint; [|done].
  simpl. destruct (header_error (generate_block (bblock b2) _ _)) as [block|]; [|done]. simpl. intros [= _ <- _].
  exists ex, st, b0. split_and!; [done|done|]. cbn [xr_tx_status]. etrans; [|exact Hused]. etrans; [|exact Hcov1].
  by rewrite (mint_gas ex _ _ _ _ Hmint).
Qed.
End spec.

(** C32: production from a list of transactions, without waiting for more, ends: fuel for one
    batch per transaction is enough, and no status is ever missing. *)
Theorem production_ends `{FV : FuelVm} {Signature : Type} `{!ChainCrypto Transaction Signature} `{!BlockCodecs Transaction Signature}
    `{!StateCodecs} `{!MerkleTree} `{!HashOrder Z} `{!HashOrder Key} `{!FuelVmLaws Signature} `{!StateCodecsLaws}
    {D : Type} `{!KeyValueInspect D} `{!KeyValueLaws D}
    (i : ExecutionInstance (D := D)) fuel (c : Components (list MaybeCheckedTransaction)) dry_run :
  (length (transactions_source c) < fuel)%nat → ∃ p r, produce_without_commit i fuel c dry_run = Some (p, r).
Proof.
  intros Hf. unfold produce_without_commit. destruct (into_executor i _ dry_run) as [[ex st]|]; [|by eauto].
  assert (∃ p r, execute ex fuel c st = Some (p, r)) as (p & r & ->); [|by eauto]. unfold execute, dry_run_block, produce_block.
  destruct (is_dry_run ex).
  - unfold process_l2_txs. destruct (once_loop ex (coinbase_recipient c) (gas_price c) fuel
      {| pb := new_block (header_to_produce c) st; pports := transactions_source c; psent := [] |} Hf) as (s & r & ->).
    destruct r; simpl; by eauto.
  - destruct (process_l1_txs _ _ _) as [b0 [[]|]]; [|by eauto].
    destruct (once_rounds ex (coinbase_recipient c) (gas_price c) fuel b0 (transactions_source c) Hf) as (b1 & p1 & r & ->).
    simpl. destruct r; [|by eauto]. destruct (produce_mint_tx _ _ _ _) as [? []]; by eauto.
Qed.

(** A list of transactions hands out what is in it. *)
Lemma once_hands_out `{FV : FuelVm} (Φ : MaybeCheckedTransaction → Prop) :
  hands_out (P := list MaybeCheckedTransaction) Φ (Forall Φ).
Proof. split; try done. intros gas count size p Hp. split; [by apply Forall_take|by apply Forall_drop]. Qed.

(** Reads of RocksDB agree with each other. *)
#[global] Instance rocks_laws : KeyValueLaws Db.
Proof.
  split; intros s k c; intros; simpl; unfold default_exists, default_size_of_value, default_read_exact, default_read_zerofill;
    simpl; by destruct (db_get s k c).
Qed.

Module ExecutorExamples.
Import SampleDb.
Import SampleChain.
Import SampleVm.

(** A forced transaction, one that succeeds, one that spends the same coin, and one that reverts. *)
Definition sample_txs : list MaybeCheckedTransaction :=
  [NotChecked (TxChargeable (spend 11 1 5 10 8)); NotChecked (TxChargeable (spend 12 1 5 10 8));
   MaybeChecked (CheckedChargeable (Build_Checked (spend 13 2 5 10 0) (replicate 31 0 ++ [13]) 5 true true)) 0].

Definition sample_run := produce_without_commit exec_instance 4 (production sample_txs) false.

Definition sample_block : Block Transaction :=
  match sample_run with
  | Some (_, Ok (r, _)) => xr_block r
  | _ => {| header := header genesis_block; transactions := [] |}
  end.

(** The production and the validation of its block succeed. *)
Definition succeeds {A B E} (x : option (A * result B E)) : bool := match x with Some (_, Ok _) => true | _ => false end.

Lemma sample_produced : succeeds sample_run = true.
Proof. by vm_compute. Qed.
Lemma sample_valid : is_ok (validate_without_commit exec_instance sample_block) = true.
Proof. by vm_compute. Qed.

Lemma sample_honest : honest_source exec_instance (production sample_txs).
Proof.
  intros ex st Hi. exists (Forall (honest (consensus_params ex) true 1 0 (view_of exec_db))).
  split; [apply once_hands_out|]. repeat apply Forall_cons_2; [done|done| |by apply Forall_nil_2].
  split; [done|]. intros _. split; try done. exists 1. by split.
Qed.

Lemma sample_keyed : messages_keyed (view_of exec_db).
Proof.
  intros n x m. change (view_of exec_db n MESSAGES_COLUMN) with (Ok (E := StorageError) (db_get exec_db n MESSAGES_COLUMN)).
  unfold db_get. by replace (exec_db !! MESSAGES_COLUMN) with (@None (gmap Key Value)) by (by vm_compute).
Qed.

Lemma produced_block_validates_witness :
  match sample_run with
  | Some (_, Ok (r, ch)) =>
      (∃ id e, (id, e) ∈ xr_skipped r ∧ overflow e) ∨
      ∃ events, validate_without_commit exec_instance (xr_block r) = Ok (xr_tx_status r, events, ch) ∧
        (xr_skipped r = [] → events = xr_events r)
  | _ => False
  end.
Proof.
  pose proof sample_produced as Hp. destruct sample_run as [[p [[r ch]|e]]|] eqn:Hr.
  - exact (produced_block_validates exec_instance 4 (production sample_txs) p r ch sample_honest Hr).
  - discriminate Hp.
  - discriminate Hp.
Defined.

Lemma validated_block_accounts_witness :
  match validate_without_commit exec_instance sample_block with
  | Ok (sts, evs, ch) =>
      ∃ ex st txs m, into_executor exec_instance 0 false = Ok (ex, st) ∧
        transactions sample_block = txs ++ [TxMint m] ∧ Forall is_charge txs ∧
        tx_index (mint_tx_pointer m) = Z.of_nat (length txs) ∧
        let ids := tx_id (params_chain_id (consensus_params ex)) <$> transactions sample_block in
        status_id <$> sts = ids ∧ NoDup ids ∧
        (∀ id, id ∈ ids → view_of exec_db id PROCESSED_TRANSACTIONS_COLUMN = Ok None) ∧
        (∀ id, after exec_db ch id PROCESSED_TRANSACTIONS_COLUMN =
          if decide (id ∈ ids) then Ok (Some []) else view_of exec_db id PROCESSED_TRANSACTIONS_COLUMN) ∧
        if decide (ci_contract_id (input_contract m) = zeroed) then mint_amount m = 0
        else left_fee evs ∨ mint_amount m = fee_sum sts
  | Err _ => False
  end.
Proof.
  pose proof sample_valid as Hok. destruct (validate_without_commit exec_instance sample_block) as [[[sts evs] ch]|e] eqn:Hv.
  - exact (validated_block_accounts exec_instance sample_block sts evs ch Hv).
  - discriminate Hok.
Defined.

(** No forced transaction failed. *)
Definition nothing_left (evs : list ExecutorEvent) : bool :=
  forallb (λ ev, match ev with ForcedTransactionFailed _ _ (NotExecuted _) => false | _ => true end) evs.

Lemma nothing_left_ok evs : nothing_left evs = true → ¬ left_events evs.
Proof.
  unfold nothing_left. rewrite forallb_forall. intros Hall (id & h & e & Hin).
  by specialize (Hall _ (proj1 (list_elem_of_In _ _) Hin)).
Qed.

Lemma validated_events_exact_witness :
  match validate_without_commit exec_instance sample_block with
  | Ok (_, evs, ch) => nothing_left evs = true ∧ replays (view_of exec_db) evs (after exec_db ch) ∧ messages_keyed (after exec_db ch)
  | Err _ => False
  end.
Proof.
  pose proof sample_valid as Hok. destruct (validate_without_commit exec_instance sample_block) as [[[sts evs] ch]|e] eqn:Hv.
  - assert (nothing_left evs = true) as Hn.
    { replace evs with (match validate_without_commit exec_instance sample_block with Ok (_, evs, _) => evs | _ => [] end)
        by by rewrite Hv. by vm_compute. }
    exact (conj Hn (validated_events_exact exec_instance sample_block sts evs ch eq_refl sample_keyed Hv (nothing_left_ok evs Hn))).
  - discriminate Hok.
Defined.

Lemma sample_claims ex : source_of (claims_max_gas ex) sample_txs.
Proof.
  exists (Forall (claims_max_gas ex)). split; [apply once_hands_out|].
  repeat apply Forall_cons_2; [done|done| |by apply Forall_nil_2]. done.
Qed.

Lemma produced_gas_bounded_witness :
  match sample_run with
  | Some (_, Ok (r, _)) =>
      ∃ ex st b0, into_executor exec_instance 0 false = Ok (ex, st) ∧
        process_l1_txs ex CONTRACT (new_block next_header st) = (b0, Ok ()) ∧
        gas_sum (xr_tx_status r) ≤ Z.max (block_gas_limit (consensus_params ex)) (used_gas (bdata b0))
  | _ => False
  end.
Proof.
  pose proof sample_produced as Hp. destruct sample_run as [[p [[r ch]|e]]|] eqn:Hr.
  - exact (produced_gas_bounded exec_instance 4 (production sample_txs) p r ch (λ ex st _, sample_claims ex) Hr).
  - discriminate Hp.
  - discriminate Hp.
Defined.

Lemma production_ends_witness : ∃ p r, sample_run = Some (p, r).
Proof.
  unfold sample_run. refine (production_ends exec_instance 4 (production sample_txs) false _). simpl. lia.
Defined.

(** ** A block that its producer rejects *)

(** Two transactions, the first larger than what is left of the size of a block. *)
Definition large_txs : list MaybeCheckedTransaction :=
  [NotChecked (TxChargeable (spend 11 1 5 (U32 - 5) 8)); NotChecked (TxChargeable (spend 13 2 5 10 0))].

Definition large_tx : MaybeCheckedTransaction := NotChecked (TxChargeable (spend 11 1 5 (U32 - 5) 8)).

(** Its fee and its events stay: an event says that its coin was consumed, which is still there,
    and validation rejects the produced block. *)
Example large_block_rejected :
  match produce_without_commit exec_instance 3 (production large_txs) false with
  | Some (_, Ok (r, ch)) =>
      map snd (xr_skipped r) = [TxSizeOverflow] ∧ length (transactions (xr_block r)) = 3%nat ∧
      existsb (λ ev, match ev with CoinConsumed c => bool_decide (coin_utxo_id c = utxo 1) | _ => false end) (xr_events r) = true ∧
      match after exec_db ch (utxo_key (utxo 1)) COINS_COLUMN with
      | Ok (Some x) => bool_decide (x = ser_coin coin)
      | _ => false
      end = true ∧
      validate_without_commit exec_instance (xr_block r) = Err CoinbaseAmountMismatch
  | _ => False
  end.
Proof. vm_compute. done. Qed.

Definition large_executor : BlockExecutor :=
  {| get_events := relayer exec_instance; consensus_params := (100, 1000); options := xoptions exec_instance; is_dry_run := false |}.
Definition block_forced :=
  process_l1_txs large_executor CONTRACT (new_block next_header (with_policy PolicyOverwrite (into_transaction exec_db))).
Definition block_overflowed := execute_transaction_and_commit large_executor large_tx 2 CONTRACT block_forced.1.

Lemma block_forced_ok : is_ok block_forced.2 = true.
Proof. vm_compute. reflexivity. Qed.
Lemma block_forced_left : nothing_left (xevents (bdata block_forced.1)) = true.
Proof. vm_compute. reflexivity. Qed.
Lemma block_forced_count : xtx_count (bdata block_forced.1) = 1.
Proof. vm_compute. reflexivity. Qed.
Lemma block_overflows : match block_overflowed.2 with Err TxSizeOverflow => true | _ => false end = true.
Proof. vm_compute. reflexivity. Qed.

Lemma block_forced_accounted : accounted large_executor exec_db block_forced.1.
Proof.
  pose proof block_forced_ok as Hok. destruct block_forced as [b0 [[]|]] eqn:Hb; [|discriminate Hok].
  exact (l1_accounted large_executor exec_db CONTRACT _ _ (new_accounted large_executor exec_db next_header) Hb).
Qed.

Lemma block_forced_keyed : messages_keyed (view_of (bstorage block_forced.1)).
Proof.
  destruct (ac_events _ _ _ block_forced_accounted) as [Hl|Hr]; [destruct (nothing_left_ok _ block_forced_left Hl)|].
  exact (replays_keyed _ _ _ (Hr eq_refl sample_keyed) sample_keyed).
Qed.

Lemma block_forced_fee : ¬ left_fee (xevents (bdata block_forced.1)).
Proof. intros (id & h & e & Hin & _). apply (nothing_left_ok _ block_forced_left). exists id, h, e. exact Hin. Qed.

Lemma skipped_fee_spoils_block_witness :
  ∃ b' e, block_overflowed = (b', Err e) ∧ overflow e ∧ bblock b' = bblock block_forced.1 ∧
    ∃ t receipts gas fee, total_fee_paid large_executor t receipts 2 = Ok (gas, fee) ∧
      coinbase (bdata b') = fee_sum (xtx_status (bdata b')) + fee ∧
      ∀ b2, CONTRACT ≠ zeroed → produce_mint_tx large_executor CONTRACT 2 b' = (b2, Ok ()) →
        ∃ m, pf_transactions (bblock b2) = pf_transactions (bblock block_forced.1) ++ [TxMint m] ∧
          mint_amount m = fee_sum (xtx_status (bdata b2)) + fee.
Proof.
  pose proof block_overflows as Ho. destruct block_overflowed as [b' [u|e]] eqn:Hb; [discriminate Ho|].
  assert (overflow e) as He by (left; destruct e; try discriminate Ho; reflexivity).
  exists b', e. split; [reflexivity|]. split; [exact He|].
  destruct (skipped_fee_spoils_block large_executor exec_db large_tx 2 CONTRACT block_forced.1 b' e I I block_forced_accounted
    block_forced_fee ltac:(rewrite block_forced_count; reflexivity) eq_refl block_forced_keyed Hb He)
    as (Hbl & _ & t & receipts & gas & fee & evs & w & _ & Hf & Hc & _ & _ & Hm).
  split; [exact Hbl|]. exists t, receipts, gas, fee. split; [exact Hf|]. split; [exact Hc|].
  intros b2 Hne Hmint. destruct (Hm b2 Hne Hmint) as (m & Htx & Ham & _). exists m. exact (conj Htx Ham).
Defined.
End ExecutorExamples.
