(* ===== verification/Iteration.v ===== *)
(** * Iteration over a column

    Model of the iterators of [RocksDb] (fuel-core/src/state/rocks_db.rs, [_iter_store],
    [reverse_prefix_iter], [next_prefix]) and of the iteration over a table
    (storage/src/iter.rs), which also has the one of a store in memory.  The iterator of RocksDB itself visits the keys of a column in the
    order of their bytes, from its first or last key or from a given one. *)

From stdpp Require Import prelude gmap list strings sorting.
From Stdlib Require Import ZArith Lia.
From S2P Require Import Prelude.
From S2P Require Import StorageTx.
From S2P Require Import HistoricalDb.
Local Open Scope Z_scope.

Inductive IterDirection := Forward | Reverse.

(** [IteratorMode]. *)
Inductive IteratorMode :=
| ModeStart
| ModeEnd
| ModeFrom (key : Key) (dir : IterDirection).

Definition column_entries (db : Db) (c : Z) : list (Key * Value) :=
  merge_sort entry_le (map_to_list (default ∅ (db !! c))).

Definition iterator (db : Db) (c : Z) (mode : IteratorMode) : list (Key * Value) :=
  let l := column_entries db c in
  match mode with
  | ModeStart => l
  | ModeEnd => reverse l
  | ModeFrom k Forward => filter (λ e, key_le k e.1) l
  | ModeFrom k Reverse => reverse (filter (λ e, key_le e.1 k) l)
  end.

(** [Iterator::take_while]. *)
Fixpoint take_while {A} (P : A → bool) (l : list A) : list A :=
  match l with
  | [] => []
  | x :: l => if P x then x :: take_while P l else []
  end.

Definition starts_with (prefix : Key) (e : Key * Value) : bool := bool_decide (prefix `prefix_of` e.1).

(** The last byte that is not 255 is increased; from the last byte on. *)
Fixpoint bump (rev_prefix : Key) : option Key :=
  match rev_prefix with
  | [] => None
  | b :: rest => if decide (b < U8) then Some (b + 1 :: rest) else cons b <$> bump rest
  end.
Definition next_prefix (prefix : Key) : option Key := reverse <$> bump (reverse prefix).

Definition reverse_prefix_iter (db : Db) (prefix : Key) (c : Z) : list (Key * Value) :=
  match next_prefix prefix with
  | Some next => take_while (starts_with prefix) (iterator db c (ModeFrom next Reverse))
  | None => take_while (starts_with prefix) (iterator db c ModeEnd)
  end.

(** [_iter_store]. *)
Definition iter_store (db : Db) (c : Z) (prefix start : option Key) (dir : IterDirection) : list (Key * Value) :=
  match prefix, start with
  | None, None => iterator db c (match dir with Forward => ModeStart | Reverse => ModeEnd end)
  | Some p, None =>
      match dir with
      | Reverse => reverse_prefix_iter db p c
      | Forward => take_while (starts_with p) (iterator db c (ModeFrom p Forward))
      end
  | None, Some s => iterator db c (ModeFrom s dir)
  | Some p, Some s =>
      if decide (p `prefix_of` s) then take_while (starts_with p) (iterator db c (ModeFrom s dir)) else []
  end.

(** [iterator] of storage/src/iter.rs, over the ordered map that an in-memory store has for a
    column. *)
Definition memory_iterator (db : Db) (c : Z) (prefix start : option Key) (dir : IterDirection) : list (Key * Value) :=
  let tree := column_entries db c in
  match prefix, start with
  | None, None => match dir with Forward => tree | Reverse => reverse tree end
  | Some p, None =>
      let vec := take_while (starts_with p) (filter (λ e, key_le p e.1) tree) in
      match dir with Forward => vec | Reverse => reverse vec end
  | None, Some s =>
      match dir with Forward => filter (λ e, key_le s e.1) tree | Reverse => reverse (filter (λ e, key_le e.1 s) tree) end
  | Some p, Some s =>
      take_while (starts_with p)
        match dir with Forward => filter (λ e, key_le s e.1) tree | Reverse => reverse (filter (λ e, key_le e.1 s) tree) end
  end.

(** [iter_table_keys] and [iter_table]: the keys, and the entries, decoded. *)
Definition iter_table_keys {K} (decode_key : Key → result K StorageError) (db : Db) (c : Z) (prefix start : option Key)
    (dir : IterDirection) : list (result K StorageError) :=
  (λ e, decode_key e.1) <$> iter_store db c prefix start dir.

Definition iter_table {K V} (decode_key : Key → result K StorageError) (decode_value : Value → option V)
    (db : Db) (c : Z) (prefix start : option Key) (dir : IterDirection) : list (result (K * V) StorageError) :=
  (λ e, result_bind (decode_key e.1) (λ k, match decode_value e.2 with Some v => Ok (k, v) | None => Err "Codec" end))
    <$> iter_store db c prefix start dir.

(** ** Facts *)

Lemma take_while_filter {A} (R : relation A) (P : A → bool) l :
  StronglySorted R l → (∀ x y, x ∈ l → y ∈ l → R x y → P y → P x) → take_while P l = filter P l.
Proof.
  induction 1 as [|x l Hl IH Hx]; intros Hp; [done|]. rewrite filter_cons. simpl. destruct (P x) eqn:HP.
  - rewrite decide_True by done. f_equal. apply IH. intros; eapply Hp; [by right..|done|done].
  - rewrite decide_False by (by intros []). clear IH. symmetry. rewrite Forall_forall in Hx.
    destruct (filter P l) as [|y l'] eqn:Hf; [done|]. assert (y ∈ filter P l) as [Hy Hin]%list_elem_of_filter by (rewrite Hf; by left).
    specialize (Hp x y ltac:(by left) ltac:(by right) (Hx y Hin) Hy). by rewrite HP in Hp.
Qed.

Lemma prefix_key_le p k : p `prefix_of` k → key_le p k.
Proof.
  intros [z ->]. unfold key_le. induction p as [|x p IH]; [done|]. simpl. by rewrite decide_True.
Qed.

(** Between a prefix and a key with the prefix all keys have it. *)
Lemma prefix_between p x y : key_le p x → key_le x y → p `prefix_of` y → p `prefix_of` x.
Proof.
  unfold key_le. intros Hp Hxy [z ->]. revert x Hp Hxy. induction p as [|b p IH]; intros x; [intros _ _; apply prefix_nil|].
  destruct x as [|w x]; simpl; [done|]. destruct (decide (b = w)) as [->|Hne].
  - rewrite decide_True by done. intros H1 H2. apply prefix_cons, IH; done.
  - rewrite decide_False by done. rewrite !bool_decide_eq_true. lia.
Qed.

Section entries.
Context (db : Db) (c : Z).
Abbreviation entries := (column_entries db c).

Lemma entries_in k v : (k, v) ∈ entries ↔ db_get db k c = Some v.
Proof.
  unfold column_entries, db_get. rewrite merge_sort_Permutation, elem_of_map_to_list.
  destruct (db !! c); [done|]. simpl. rewrite lookup_empty. done.
Qed.

Lemma entries_sorted : StronglySorted entry_le entries.
Proof.
  apply Sorted_StronglySorted; [intros [] [] []; apply key_le_trans|].
  apply Sorted_merge_sort. intros [] []. apply key_le_total.
Qed.

Lemma entries_nodup : NoDup entries.*1.
Proof.
  unfold column_entries. rewrite (fmap_Permutation fst _ _ (merge_sort_Permutation entry_le _)). apply NoDup_fst_map_to_list.
Qed.

Lemma filter_sorted {A} (R : relation A) (P : A → Prop) `{∀ x, Decision (P x)} (l : list A) : StronglySorted R l → StronglySorted R (filter P l).
Proof.
  induction 1 as [|x l Hl IH Hx]; [constructor|]. rewrite filter_cons. case_decide; [|done]. constructor; [done|].
  rewrite Forall_forall in *. intros y [_ Hy]%list_elem_of_filter. by apply Hx.
Qed.

Lemma strongly_sorted_reverse {A} (R : relation A) l : StronglySorted R l → StronglySorted (flip R) (reverse l).
Proof.
  induction 1 as [|x l Hl IH Hx]; [constructor|]. rewrite reverse_cons.
  assert (∀ y, y ∈ reverse l → flip R y x) as Hy.
  { intros y. rewrite elem_of_reverse. rewrite Forall_forall in Hx. apply Hx. }
  clear -IH Hy. induction IH as [|z l' Hl' IH' Hz]; [by repeat constructor|]. simpl. constructor.
  - apply IH'. intros; apply Hy. by right.
  - apply Forall_app. split; [done|]. apply Forall_singleton, Hy. by left.
Qed.

Lemma filter_filter_id {A} (P Q : A → Prop) `{∀ x, Decision (P x), ∀ x, Decision (Q x)} (l : list A) :
  (∀ x, x ∈ l → P x → Q x) → filter P (filter Q l) = filter P l.
Proof.
  induction l as [|x l IH]; intros HPQ; [done|]. rewrite (filter_cons Q), (filter_cons P).
  assert (filter P (filter Q l) = filter P l) as Hl by (apply IH; intros; apply HPQ; [by right|done]).
  destruct (decide (Q x)) as [Hq|Hq].
  - rewrite filter_cons. case_decide; by rewrite Hl.
  - rewrite decide_False; [done|]. intros Hp. apply Hq, HPQ; [by left|done].
Qed.

Lemma filter_reversed {A} (P : A → Prop) `{∀ x, Decision (P x)} (l : list A) : filter P (reverse l) = reverse (filter P l).
Proof.
  induction l as [|x l IH]; [done|]. rewrite reverse_cons, filter_app, IH, !filter_cons, filter_nil.
  case_decide; [by rewrite reverse_cons|]. by rewrite app_nil_r.
Qed.

(** The entries whose keys have a prefix. *)
Definition prefixed (p : Key) : list (Key * Value) := filter (λ e, p `prefix_of` e.1) entries.

Lemma filter_starts p (l : list (Key * Value)) : filter (starts_with p) l = filter (λ e, p `prefix_of` e.1) l.
Proof. apply list_filter_iff. intros e. unfold starts_with. by rewrite bool_decide_spec. Qed.

Lemma forward_prefixed p : iter_store db c (Some p) None Forward = prefixed p.
Proof.
  unfold iter_store, iterator, prefixed. rewrite (take_while_filter entry_le).
  - rewrite filter_starts. apply filter_filter_id. intros [k v] _. apply prefix_key_le.
  - apply filter_sorted, entries_sorted.
  - intros [x v] [y w] [Hx _]%list_elem_of_filter _ Hxy Hy. unfold starts_with in *. simpl in *.
    apply bool_decide_spec. apply bool_decide_spec in Hy. by eapply prefix_between.
Qed.

(** From the prefix to the key the reverse iteration starts from, all keys have the prefix. *)
Definition gap_free (p : Key) : Prop := ∀ k v,
  db_get db k c = Some v → key_le p k → (∀ next, next_prefix p = Some next → key_le k next) → p `prefix_of` k.

(** A key in the way of the reverse iteration. *)
Definition in_way (p : Key) (e : Key * Value) : Prop :=
  key_le p e.1 ∧ from_option (key_le e.1) True (next_prefix p) ∧ ¬ p `prefix_of` e.1.

#[global] Instance in_way_dec p e : Decision (in_way p e).
Proof. unfold in_way. destruct (next_prefix p); cbn [from_option]; apply _. Defined.

Lemma gap_free_iff p : gap_free p ↔ ¬ Exists (in_way p) entries.
Proof.
  unfold in_way. split.
  - intros Hgap ([k v] & Hin & Hle & Hnext & Hp)%Exists_exists. apply Hp, (Hgap k v); [by apply entries_in|done|].
    intros next He. by rewrite He in Hnext.
  - intros Hn k v Hk Hle Hnext. destruct (decide (p `prefix_of` k)) as [|Hp]; [done|]. destruct Hn. apply Exists_exists.
    exists (k, v). split_and!; [by apply entries_in|done| |done]. destruct (next_prefix p); [by apply Hnext|done].
Qed.

#[global] Instance gap_free_dec p : Decision (gap_free p).
Proof. destruct (decide (Exists (in_way p) entries)); [right|left]; abstract (rewrite gap_free_iff; tauto). Defined.

Lemma bump_le rp next z : bump rp = Some next → key_le (reverse rp ++ z) (reverse next).
Proof.
  unfold key_le. revert next z. induction rp as [|b rp IH]; intros next z; [done|]. simpl. case_decide.
  - intros [= <-]. rewrite !reverse_cons, <- app_assoc. simpl. clear IH. induction (reverse rp) as [|x l IHl]; simpl; [|by rewrite decide_True].
    rewrite decide_False by lia. apply bool_decide_eq_true. lia.
  - destruct (bump rp) as [n|] eqn:Hb; [|done]. intros [= <-]. rewrite !reverse_cons, <- app_assoc.
    specialize (IH n ([b] ++ z) eq_refl). eapply (key_le_trans _ (reverse n)); [exact IH|].
    apply prefix_key_le. by exists [b].
Qed.

Lemma prefix_next p next k : next_prefix p = Some next → p `prefix_of` k → key_le k next.
Proof.
  unfold next_prefix. destruct (bump (reverse p)) as [n|] eqn:Hb; [|done]. intros [= <-] [z ->].
  apply (bump_le _ _ z) in Hb. by rewrite reverse_involutive in Hb.
Qed.

Lemma reverse_prefixed p : gap_free p → iter_store db c (Some p) None Reverse = reverse (prefixed p).
Proof.
  intros Hgap. unfold iter_store, reverse_prefix_iter, prefixed.
  assert (∀ l, (∀ e, e ∈ l → e ∈ entries) → StronglySorted entry_le l →
    (∀ e next, e ∈ l → next_prefix p = Some next → key_le e.1 next) →
    take_while (starts_with p) (reverse l) = reverse (filter (λ e, p `prefix_of` e.1) l)) as Htake.
  { intros l Hin Hs Hn. rewrite (take_while_filter (flip entry_le)); [|by apply strongly_sorted_reverse|].
    - by rewrite filter_starts, filter_reversed.
    - intros [x v] [y w]. rewrite !elem_of_reverse. intros Hx Hy Hxy Hp. unfold starts_with in *. simpl in *.
      apply bool_decide_spec. apply bool_decide_spec in Hp.
      apply (Hgap x v); [by apply entries_in, Hin| |intros next Hnext; by apply (Hn (x, v))].
      eapply key_le_trans; [by apply prefix_key_le|exact Hxy]. }
  destruct (next_prefix p) as [next|] eqn:Hnext; cbn [iterator].
  - rewrite Htake; [|by intros e [_ He]%list_elem_of_filter|apply filter_sorted, entries_sorted|].
    + f_equal. apply filter_filter_id. intros [k v] _ Hp. by eapply prefix_next.
    + intros e n [He _]%list_elem_of_filter [= <-]. done.
  - apply Htake; [done|apply entries_sorted|done].
Qed.

(** The iteration backward begins at the greatest key up to the next prefix: if a key there does
    not have the prefix, it ends at once. *)
Lemma reverse_in_gap p k v :
  db_get db k c = Some v → key_le p k → (∀ next, next_prefix p = Some next → key_le k next) → ¬ p `prefix_of` k →
  iter_store db c (Some p) None Reverse = [].
Proof.
  intros Hk Hle Hnext Hp. unfold iter_store, reverse_prefix_iter.
  assert (∀ l, StronglySorted entry_le l → (k, v) ∈ l → take_while (starts_with p) (reverse l) = []) as Htake.
  { intros l Hs Hin. apply strongly_sorted_reverse in Hs. rewrite <- elem_of_reverse in Hin.
    destruct (reverse l) as [|[x w] l']; [done|]. simpl. destruct (starts_with p (x, w)) eqn:Hx; [|done]. destruct Hp.
    apply bool_decide_eq_true in Hx. simpl in Hx. apply elem_of_cons in Hin as [[= -> ->]|Hin]; [done|].
    apply StronglySorted_inv in Hs as [_ Hs]. rewrite Forall_forall in Hs. specialize (Hs _ Hin).
    by apply (prefix_between p k x). }
  apply entries_in in Hk. destruct (next_prefix p) as [next|] eqn:He; cbn [iterator]; apply Htake; try apply filter_sorted;
    try apply entries_sorted; try done. apply list_elem_of_filter. split; [by apply Hnext|done].
Qed.

(** The iteration backward, with and without other keys in its way. *)
Lemma reverse_iteration p :
  iter_store db c (Some p) None Reverse = if decide (gap_free p) then reverse (prefixed p) else [].
Proof.
  case_decide as Hgap; [by apply reverse_prefixed|]. rewrite gap_free_iff in Hgap. apply dec_stable in Hgap.
  apply Exists_exists in Hgap as ([k v] & Hk%entries_in & Hle & Hnext & Hp). eapply reverse_in_gap; [done|done| |done].
  intros next He. by rewrite He in Hnext.
Qed.

(** The bytes 255 at the end of a prefix stay in the next one. *)
Lemma next_prefix_full q b n : b < U8 → next_prefix (q ++ b :: replicate n U8) = Some (q ++ (b + 1) :: replicate n U8).
Proof.
  intros Hb. assert (∀ r, bump (replicate n U8 ++ b :: r) = Some (replicate n U8 ++ (b + 1) :: r)) as Hbump.
  { intros r. induction n as [|n IH]; cbn [replicate app bump]; [by rewrite decide_True|]. rewrite decide_False by lia. by rewrite IH. }
  unfold next_prefix. rewrite reverse_app, reverse_cons, <- app_assoc, reverse_replicate. simpl. rewrite Hbump. simpl. f_equal.
  rewrite reverse_app, reverse_cons, reverse_involutive, reverse_replicate, <- app_assoc. done.
Qed.

Lemma key_le_cons_lt a b x y z : x < y → key_le (a ++ x :: b) (a ++ y :: z).
Proof.
  intros Hlt. unfold key_le. induction a as [|w a IH]; simpl; [|by rewrite decide_True].
  rewrite decide_False by lia. apply bool_decide_eq_true. lia.
Qed.

Lemma key_le_full r n z : length r = n → Forall (λ x, x ≤ U8) r → r ≠ replicate n U8 → key_le (r ++ z) (replicate n U8).
Proof.
  intros <- Hr. unfold key_le. induction Hr as [|x r Hx Hr IH]; [done|]. simpl. intros Hne. case_decide as He.
  - apply IH. intros Hr'. apply Hne. by rewrite He, <- Hr'.
  - apply bool_decide_eq_true. lia.
Qed.

Lemma key_le_common a x y : key_le x y → key_le (a ++ x) (a ++ y).
Proof. intros Hxy. unfold key_le in *. induction a as [|w a IH]; simpl; [done|]. by rewrite decide_True. Qed.

(** A prefix that ends in bytes 255, and a key after it. *)
Lemma full_prefix_gap q b n r z v :
  b < U8 → length r = n → Forall (λ x, x ≤ U8) r → r ≠ replicate n U8 →
  db_get db (q ++ (b + 1) :: r ++ z) c = Some v → ¬ gap_free (q ++ b :: replicate n U8).
Proof.
  intros Hb Hn Hr Hne Hk Hgap. destruct (Hgap _ _ Hk) as [y Hy].
  - apply key_le_cons_lt. lia.
  - intros next He. rewrite next_prefix_full in He by done. injection He as <-. apply key_le_common.
    unfold key_le. simpl. rewrite decide_True by done. by apply key_le_full.
  - rewrite <- app_assoc in Hy. apply app_inv_head in Hy. injection Hy as Hy _. lia.
Qed.

(** A prefix whose last byte can be increased. *)
Lemma gap_free_last q b :
  b < U8 → db_get db (q ++ [b + 1]) c = None → gap_free (q ++ [b]).
Proof.
  intros Hb Hn k v Hk Hle Hnext.
  assert (next_prefix (q ++ [b]) = Some (q ++ [b + 1])) as He.
  { unfold next_prefix. rewrite reverse_snoc. simpl. rewrite decide_True by done. simpl. f_equal.
    by rewrite reverse_cons, reverse_involutive. }
  specialize (Hnext _ He). assert (k ≠ q ++ [b + 1]) as Hne by congruence. clear He Hk Hn.
  unfold key_le in *. revert k Hle Hnext Hne. induction q as [|x q IH]; intros k; simpl.
  - destruct k as [|w k]; [done|]. destruct (decide (b = w)) as [->|Hbw]; [intros _ _ _; by exists k|].
    rewrite bool_decide_eq_true. intros Hlt. simpl. destruct (decide (w = b + 1)) as [->|Hw]; [destruct k; by intros ? ?|].
    rewrite bool_decide_eq_true. lia.
  - destruct k as [|w k]; [done|]. simpl. destruct (decide (x = w)) as [->|Hxw].
    + rewrite decide_True by done. intros H1 H2 H3. apply prefix_cons, IH; [done|done|congruence].
    + rewrite decide_False by done. rewrite !bool_decide_eq_true. lia.
Qed.
End entries.
