(* ===== verification/OffChain.v ===== *)
(** * The off-chain indexes

    Model of the tables the GraphQL worker keeps beside the chain
    (fuel-core/src/graphql_api/storage.rs and storage/), of the indexation of balances, of the
    coins to spend and of assets (graphql_api/indexation/), and of what the worker writes for a
    block (the functions of graphql_api/worker_service.rs that work on one transaction of the
    storage).  The encodings of postcard, the receipts of the virtual machine and the parts of
    a contract's id are third-party code and come from classes. *)

From stdpp Require Import prelude gmap list strings sorting.
From Stdlib Require Import ZArith Lia.
From S2P Require Import Prelude.
From S2P Require Import StorageTx.
From S2P Require Import HistoricalDb.
From S2P Require Import Database.
From S2P Require Import Tables.
From S2P Require Import Blocks.
From S2P Require Import BlockStore.
From S2P Require Import Producer.
From S2P Require Import Importer.
From S2P Require Import ExecTypes.
From S2P Require Import VmStorage.
From S2P Require Import Executor.
Local Open Scope Z_scope.

(** ** Computations on a transaction of the storage

    What was written before an error stays in the transaction. *)

Definition Step (T E A : Type) : Type := T → T * result A E.

#[global] Instance step_ret T E : MRet (Step T E) := λ A a t, (t, Ok a).
#[global] Instance step_bind T E : MBind (Step T E) := λ A B f m t,
  match m t with (t, Ok a) => f a t | (t, Err e) => (t, Err e) end.

Definition step_fail {T E A} (e : E) : Step T E A := λ t, (t, Err e).
Definition step_map_err {T E F A} (f : E → F) (m : Step T E A) : Step T F A :=
  λ t, let '(t, r) := m t in (t, map_err f r).

(** A [for] loop that returns on the first error. *)
Fixpoint step_for {T E X} (f : X → Step T E unit) (l : list X) : Step T E unit :=
  match l with
  | [] => mret ()
  | x :: l => f x ≫= λ _, step_for f l
  end.

(** ** Columns and keys *)

Definition OWNED_COINS_COLUMN : Z := 2.
Definition TRANSACTION_STATUS_COLUMN : Z := 3.
Definition TRANSACTIONS_BY_OWNER_COLUMN : Z := 4.
Definition OWNED_MESSAGE_IDS_COLUMN : Z := 5.
Definition STATISTIC_COLUMN : Z := 6.
Definition FUEL_BLOCK_IDS_COLUMN : Z := 7.
Definition CONTRACTS_INFO_COLUMN : Z := 8.
Definition RELAYED_STATUS_COLUMN : Z := 12.
Definition SPENT_MESSAGES_COLUMN : Z := 13.
Definition COIN_BALANCES_COLUMN : Z := 23.
Definition MESSAGE_BALANCES_COLUMN : Z := 24.
Definition ASSETS_INFO_COLUMN : Z := 25.
Definition COINS_TO_SPEND_COLUMN : Z := 26.

Definition RETRYABLE_BYTE : Z := 0.
Definition NON_RETRYABLE_BYTE : Z := 1.

Inductive CoinsToSpendIndexKey :=
| IndexCoin (owner : Address) (asset : AssetId) (amount : Z) (id : UtxoId)
| IndexMessage (retryable_flag : Z) (owner : Address) (asset : AssetId) (amount : Z) (n : Nonce).

#[global] Instance index_key_eq_dec : EqDecision CoinsToSpendIndexKey.
Proof. solve_decision. Defined.

Definition is_retryable_message (m : Message) : bool := negb (bool_decide (msg_data m = [])).

Definition from_coin (c : Coin) : CoinsToSpendIndexKey :=
  IndexCoin (coin_owner (compressed c)) (coin_asset_id (compressed c)) (coin_amount (compressed c)) (coin_utxo_id c).

Definition from_message (m : Message) (base_asset : AssetId) : CoinsToSpendIndexKey :=
  IndexMessage (if is_retryable_message m then RETRYABLE_BYTE else NON_RETRYABLE_BYTE)
    (recipient m) base_asset (msg_amount m) (nonce m).

Definition key_owner (k : CoinsToSpendIndexKey) : Address :=
  match k with IndexCoin o _ _ _ | IndexMessage _ o _ _ _ => o end.
Definition key_asset_id (k : CoinsToSpendIndexKey) : AssetId :=
  match k with IndexCoin _ a _ _ | IndexMessage _ _ a _ _ => a end.
Definition key_retryable_flag (k : CoinsToSpendIndexKey) : Z :=
  match k with IndexCoin _ _ _ _ => NON_RETRYABLE_BYTE | IndexMessage f _ _ _ _ => f end.
Definition key_amount (k : CoinsToSpendIndexKey) : Z :=
  match k with IndexCoin _ _ x _ | IndexMessage _ _ _ x _ => x end.

(** The last byte of an encoded key. *)
Definition COIN_TYPE : Z := 0.
Definition MESSAGE_TYPE : Z := 1.

Definition COIN_VARIANT_SIZE : nat := 108.
Definition MESSAGE_VARIANT_SIZE : nat := 106.

(** [Manual<CoinsToSpendIndexKey>::encode]:
    retryable flag, owner, asset, amount, id and type. *)
Definition encode_index_key (k : CoinsToSpendIndexKey) : Key :=
  match k with
  | IndexCoin owner asset amount id =>
      [NON_RETRYABLE_BYTE] ++ owner ++ asset ++ to_be_bytes 8 amount ++ utxo_key id ++ [COIN_TYPE]
  | IndexMessage flag owner asset amount n =>
      [flag] ++ owner ++ asset ++ to_be_bytes 8 amount ++ n ++ [MESSAGE_TYPE]
  end.

Definition sub_bytes (start len : nat) (l : list Z) : list Z := take len (drop start l).

Definition utxo_of_bytes (bytes : list Z) : UtxoId :=
  {| utxo_tx_id := take 32 bytes; output_index := from_be_bytes (drop 32 bytes) |}.

(** [Manual<CoinsToSpendIndexKey>::decode]. *)
Definition decode_index_key (bytes : Key) : result CoinsToSpendIndexKey StorageError :=
  match last bytes with
  | Some 0 =>
      if decide (length bytes = COIN_VARIANT_SIZE) then
        Ok (IndexCoin (sub_bytes 1 32 bytes) (sub_bytes 33 32 bytes) (from_be_bytes (sub_bytes 65 8 bytes))
              (utxo_of_bytes (sub_bytes 73 34 bytes)))
      else Err "Codec"
  | Some 1 =>
      if decide (length bytes = MESSAGE_VARIANT_SIZE) then
        Ok (IndexMessage (from_be_bytes (sub_bytes 0 1 bytes)) (sub_bytes 1 32 bytes) (sub_bytes 33 32 bytes)
              (from_be_bytes (sub_bytes 65 8 bytes)) (sub_bytes 73 32 bytes))
      else Err "Codec"
  | _ => Err "Codec"
  end.

Definition owner_coin_id_key (owner : Address) (id : UtxoId) : Key := owner ++ utxo_key id.

(** [owned_tx_index_key]. *)
Definition owned_tx_index_key (owner : Address) (height tx_idx : Z) : Key :=
  owner ++ to_be_bytes 4 height ++ to_be_bytes 2 tx_idx.

(** ** Values *)

Record MessageBalance := { retryable : Z; non_retryable : Z }.

Definition no_message_balance : MessageBalance := {| retryable := 0; non_retryable := 0 |}.

Record AssetDetails := { details_contract_id : ContractId; details_sub_id : Bytes32; total_supply : Z }.

Inductive RelayedTransactionStatus := RelayedFailed (height : Z) (failure : Failure).

(** [transaction_status::TransactionExecutionStatus]. *)
Inductive StoredStatus {Receipt ProgramState : Type} :=
| StatusSubmitted (time : Z)
| StatusSuccess (height time : Z) (state : option ProgramState) (receipts : list Receipt) (total_gas total_fee : Z)
| StatusSqueezedOut (reason : string)
| StatusFailed (height time : Z) (state : option ProgramState) (receipts : list Receipt) (total_gas total_fee : Z).
Arguments StoredStatus : clear implicits.

(** What an indexer sees of a receipt. *)
Inductive SupplyReceipt :=
| ReceiptMint (sub_id : Bytes32) (contract : ContractId) (val : Z)
| ReceiptBurn (sub_id : Bytes32) (contract : ContractId) (val : Z)
| ReceiptOther.

Class OffChainCodecs `{!FuelVm} := {
  ser_u128 : Z → Value;
  de_u128 : Value → option Z;
  ser_count : Z → Value;
  de_count : Value → option Z;
  ser_name : string → Key;
  ser_message_balance : MessageBalance → Value;
  de_message_balance : Value → option MessageBalance;
  ser_asset_details : AssetDetails → Value;
  de_asset_details : Value → option AssetDetails;
  ser_relayed_status : RelayedTransactionStatus → Value;
  de_relayed_status : Value → option RelayedTransactionStatus;
  ser_status : StoredStatus Receipt ProgramState → Value;
  de_status : Value → option (StoredStatus Receipt ProgramState);
  ser_salt : Bytes32 → Value;
  de_salt : Value → option Bytes32;
  supply_receipt : Receipt → SupplyReceipt;
  contract_asset_id : ContractId → Bytes32 → AssetId;
  create_salt : Chargeable → Bytes32;
  computed_contract_id : Chargeable → result ContractId string;
}.

Class OffChainCodecsLaws `{OffChainCodecs} : Prop := {
  de_ser_u128 x : in_uint U128 x → de_u128 (ser_u128 x) = Some x;
  de_ser_count x : in_uint U64 x → de_count (ser_count x) = Some x;
  de_ser_message_balance b :
    in_uint U128 (retryable b) → in_uint U128 (non_retryable b) → de_message_balance (ser_message_balance b) = Some b;
  de_ser_asset_details d : in_uint U128 (total_supply d) → de_asset_details (ser_asset_details d) = Some d;
}.

Section tables.
Context `{OC : OffChainCodecs}.

(** The unit value is no byte, and a unit is read from any bytes. *)
Definition unit_table {K} (column : Z) (encode : K → Key) : Table K unit :=
  {| t_column := column; t_encode := encode; t_ser := λ _, []; t_de := λ _, Some () |}.

Definition OwnedCoins : Table (Address * UtxoId) unit :=
  unit_table OWNED_COINS_COLUMN (λ '(o, id), owner_coin_id_key o id).
Definition OwnedMessageIds : Table (Address * Nonce) unit :=
  unit_table OWNED_MESSAGE_IDS_COLUMN (λ '(o, n), o ++ n).
Definition SpentMessages : Table Nonce unit := unit_table SPENT_MESSAGES_COLUMN (λ n, n).
Definition CoinsToSpendIndex : Table CoinsToSpendIndexKey unit := unit_table COINS_TO_SPEND_COLUMN encode_index_key.

Definition CoinBalances : Table (Address * AssetId) Z :=
  {| t_column := COIN_BALANCES_COLUMN; t_encode := λ '(o, a), o ++ a; t_ser := ser_u128; t_de := de_u128 |}.
Definition MessageBalances : Table Address MessageBalance :=
  {| t_column := MESSAGE_BALANCES_COLUMN; t_encode := λ o, o; t_ser := ser_message_balance; t_de := de_message_balance |}.
Definition AssetsInfo : Table AssetId AssetDetails :=
  {| t_column := ASSETS_INFO_COLUMN; t_encode := λ a, a; t_ser := ser_asset_details; t_de := de_asset_details |}.
Definition RelayedTransactionStatuses : Table Bytes32 RelayedTransactionStatus :=
  {| t_column := RELAYED_STATUS_COLUMN; t_encode := λ id, id; t_ser := ser_relayed_status; t_de := de_relayed_status |}.
Definition TransactionStatuses : Table TxId (StoredStatus Receipt ProgramState) :=
  {| t_column := TRANSACTION_STATUS_COLUMN; t_encode := λ id, id; t_ser := ser_status; t_de := de_status |}.
Definition OwnedTransactions : Table (Address * Z * Z) TxId :=
  {| t_column := TRANSACTIONS_BY_OWNER_COLUMN; t_encode := λ '(o, h, i), owned_tx_index_key o h i; t_ser := λ id, id;
     t_de := λ v, if decide (length v = 32%nat) then Some v else None |}.
Definition ContractsInfo : Table ContractId Bytes32 :=
  {| t_column := CONTRACTS_INFO_COLUMN; t_encode := λ c, c; t_ser := ser_salt; t_de := de_salt |}.
Definition StatisticTable : Table string Z :=
  {| t_column := STATISTIC_COLUMN; t_encode := ser_name; t_ser := ser_count; t_de := de_count |}.
(** [Plain<Raw, Primitive<4>>]. *)
Definition FuelBlockIdsToHeights : Table BlockId Z :=
  {| t_column := FUEL_BLOCK_IDS_COLUMN; t_encode := λ id, id; t_ser := to_be_bytes 4;
     t_de := λ v, if decide (length v = 4%nat) then Some (from_be_bytes v) else None |}.
End tables.

(** ** Indexation *)

Inductive IndexationError :=
| CoinBalanceWouldUnderflow (owner : Address) (asset : AssetId) (current_amount requested_deduction : Z)
| MessageBalanceWouldUnderflow (owner : Address) (current_amount requested_deduction : Z) (retryable : bool)
| AssetMetadataWouldOverflow (asset : AssetId) (current_supply minted_amount : Z)
| CoinToSpendNotFound (owner : Address) (asset : AssetId) (amount : Z) (id : UtxoId)
| CoinToSpendAlreadyIndexed (owner : Address) (asset : AssetId) (amount : Z) (id : UtxoId)
| MessageToSpendNotFound (owner : Address) (amount : Z) (n : Nonce)
| MessageToSpendAlreadyIndexed (owner : Address) (amount : Z) (n : Nonce)
| TryingToBurnMoreThanSupply (current_supply burned_amount : Z)
| UnexpectedReceipt
| IndexationStorageError (e : StorageError).

(** [From<IndexationError> for StorageError]. *)
Definition into_storage_error (e : IndexationError) : StorageError :=
  match e with IndexationStorageError e => e | _ => "Other" end.

Section indexation.
Context `{OC : OffChainCodecs} {D : Type} `{!KeyValueInspect D}.
Abbreviation T := (InMemoryTransaction D).
Abbreviation Ix := (Step T IndexationError).

Definition get_row {K V} (tb : Table K V) (k : K) : Step T StorageError (option V) := λ t, (t, table_get tb t k).
Definition insert_row {K V} (tb : Table K V) (k : K) (v : V) : Step T StorageError unit := λ t, plain_put tb t k v.
Definition replace_row {K V} (tb : Table K V) (k : K) (v : V) : Step T StorageError (option V) := λ t, plain_replace tb t k v.
Definition take_row {K V} (tb : Table K V) (k : K) : Step T StorageError (option V) := λ t, plain_take tb t k.
Definition remove_row {K V} (tb : Table K V) (k : K) : Step T StorageError unit := λ t, plain_delete tb t k.

(** [?] on a result of the storage. *)
Definition ix {A} (m : Step T StorageError A) : Ix A := step_map_err IndexationStorageError m.

(** *** Balances *)

Definition increase_message_balance (m : Message) : Ix unit :=
  current ← ix (get_row MessageBalances (recipient m));
  let b := default no_message_balance current in
  let new_balance :=
    if is_retryable_message m
    then {| retryable := sat_add U128 (retryable b) (msg_amount m); non_retryable := non_retryable b |}
    else {| retryable := retryable b; non_retryable := sat_add U128 (non_retryable b) (msg_amount m) |} in
  ix (insert_row MessageBalances (recipient m) new_balance).

Definition decrease_message_balance (m : Message) : Ix unit :=
  current ← ix (get_row MessageBalances (recipient m));
  let b := default no_message_balance current in
  let current_balance := if is_retryable_message m then retryable b else non_retryable b in
  if decide (current_balance < msg_amount m)
  then step_fail (MessageBalanceWouldUnderflow (recipient m) current_balance (msg_amount m) (is_retryable_message m))
  else
    let new_amount := current_balance - msg_amount m in
    let new_balance :=
      if is_retryable_message m then {| retryable := new_amount; non_retryable := non_retryable b |}
      else {| retryable := retryable b; non_retryable := new_amount |} in
    ix (insert_row MessageBalances (recipient m) new_balance).

Definition increase_coin_balance (c : Coin) : Ix unit :=
  let key := (coin_owner (compressed c), coin_asset_id (compressed c)) in
  current ← ix (get_row CoinBalances key);
  ix (insert_row CoinBalances key (sat_add U128 (default 0 current) (coin_amount (compressed c)))).

Definition decrease_coin_balance (c : Coin) : Ix unit :=
  let key := (coin_owner (compressed c), coin_asset_id (compressed c)) in
  current ← ix (get_row CoinBalances key);
  let current_amount := default 0 current in
  let amount := coin_amount (compressed c) in
  if decide (current_amount < amount)
  then step_fail (CoinBalanceWouldUnderflow (coin_owner (compressed c)) (coin_asset_id (compressed c)) current_amount amount)
  else ix (insert_row CoinBalances key (current_amount - amount)).

(** [indexation::balances::update]. *)
Definition balances_update (ev : ExecutorEvent) (enabled : bool) : Ix unit :=
  if negb enabled then mret ()
  else match ev with
       | MessageImported m => increase_message_balance m
       | MessageConsumed m => decrease_message_balance m
       | CoinCreated c => increase_coin_balance c
       | CoinConsumed c => decrease_coin_balance c
       | ForcedTransactionFailed _ _ _ => mret ()
       end.

(** *** Coins to spend *)

Definition add_coin (c : Coin) : Ix unit :=
  maybe_old_value ← ix (replace_row CoinsToSpendIndex (from_coin c) ());
  match maybe_old_value with
  | Some _ => step_fail (CoinToSpendAlreadyIndexed (coin_owner (compressed c)) (coin_asset_id (compressed c))
                           (coin_amount (compressed c)) (coin_utxo_id c))
  | None => mret ()
  end.

Definition remove_coin (c : Coin) : Ix unit :=
  maybe_old_value ← ix (take_row CoinsToSpendIndex (from_coin c));
  match maybe_old_value with
  | None => step_fail (CoinToSpendNotFound (coin_owner (compressed c)) (coin_asset_id (compressed c))
                         (coin_amount (compressed c)) (coin_utxo_id c))
  | Some _ => mret ()
  end.

Definition add_message (m : Message) (base_asset : AssetId) : Ix unit :=
  maybe_old_value ← ix (replace_row CoinsToSpendIndex (from_message m base_asset) ());
  match maybe_old_value with
  | Some _ => step_fail (MessageToSpendAlreadyIndexed (recipient m) (msg_amount m) (nonce m))
  | None => mret ()
  end.

Definition remove_message (m : Message) (base_asset : AssetId) : Ix unit :=
  maybe_old_value ← ix (take_row CoinsToSpendIndex (from_message m base_asset));
  match maybe_old_value with
  | None => step_fail (MessageToSpendNotFound (recipient m) (msg_amount m) (nonce m))
  | Some _ => mret ()
  end.

(** [indexation::coins_to_spend::update]. *)
Definition coins_to_spend_update (ev : ExecutorEvent) (enabled : bool) (base_asset : AssetId) : Ix unit :=
  if negb enabled then mret ()
  else match ev with
       | MessageImported m => add_message m base_asset
       | MessageConsumed m => remove_message m base_asset
       | CoinCreated c => add_coin c
       | CoinConsumed c => remove_coin c
       | ForcedTransactionFailed _ _ _ => mret ()
       end.

(** *** Assets *)

Definition current_supply (r : SupplyReceipt) (asset : AssetId) : Ix Z :=
  info ← ix (get_row AssetsInfo asset);
  let current := default 0 (total_supply <$> info) in
  match r with
  | ReceiptMint _ _ val =>
      if decide (current + val ≤ U128) then mret (current + val)
      else step_fail (AssetMetadataWouldOverflow asset current val)
  | ReceiptBurn _ _ val =>
      if decide (val ≤ current) then mret (current - val)
      else step_fail (TryingToBurnMoreThanSupply current val)
  | ReceiptOther => step_fail UnexpectedReceipt
  end.

Definition asset_receipt (r : SupplyReceipt) : Ix unit :=
  match r with
  | ReceiptMint sub_id contract _ | ReceiptBurn sub_id contract _ =>
      let asset := contract_asset_id contract sub_id in
      new_supply ← current_supply r asset;
      ix (insert_row AssetsInfo asset
            {| details_contract_id := contract; details_sub_id := sub_id; total_supply := new_supply |})
  | ReceiptOther => mret ()
  end.

(** [indexation::asset_metadata::update]. *)
Definition asset_metadata_update (receipts : list Receipt) (enabled : bool) : Ix unit :=
  if negb enabled then mret () else step_for (λ r, asset_receipt (supply_receipt r)) receipts.

(** ** What the worker writes for a block *)

Abbreviation W := (Step T StorageError).

Section settings.
Context (balances_enabled coins_to_spend_enabled : bool) (base_asset : AssetId).

Definition update_event_based_indexation (ev : ExecutorEvent) : Ix unit :=
  balances_update ev balances_enabled ≫= λ _, coins_to_spend_update ev coins_to_spend_enabled base_asset.

(** An error of the indexation is logged; one of the storage is returned. *)
Definition index_event (ev : ExecutorEvent) : W unit := λ t,
  match update_event_based_indexation ev t with
  | (t, Err (IndexationStorageError e)) => (t, Err e)
  | (t, _) => (t, Ok ())
  end.

Definition process_executor_event (ev : ExecutorEvent) : W unit :=
  index_event ev ≫= λ _,
  match ev with
  | MessageImported m => insert_row OwnedMessageIds (recipient m, nonce m) ()
  | MessageConsumed m => remove_row OwnedMessageIds (recipient m, nonce m) ≫= λ _, insert_row SpentMessages (nonce m) ()
  | CoinCreated c => insert_row OwnedCoins (coin_owner (compressed c), coin_utxo_id c) ()
  | CoinConsumed c => remove_row OwnedCoins (coin_owner (compressed c), coin_utxo_id c)
  | ForcedTransactionFailed id h failure => insert_row RelayedTransactionStatuses id (RelayedFailed h failure)
  end.

Definition process_executor_events (evs : list ExecutorEvent) : W unit := step_for process_executor_event evs.
End settings.

(** [from_executor_to_status] (tx_status_manager/src/utils.rs). *)
Definition from_executor_to_status {Tx} (b : Block Tx) (r : TransactionExecutionResult Receipt ProgramState) :
    StoredStatus Receipt ProgramState :=
  let t := time (consensus (header b)) in
  let h := height (consensus (header b)) in
  match r with
  | Success state receipts gas fee => StatusSuccess h t state receipts gas fee
  | Failed state receipts gas fee => StatusFailed h t state receipts gas fee
  end.

Definition update_receipt_based_indexation (receipts : list Receipt) (enabled : bool) : Ix unit :=
  asset_metadata_update receipts enabled.

Definition persist_status {Tx} (b : Block Tx) (enabled : bool)
    (st : TransactionExecutionStatus Receipt ProgramState) : W unit :=
  prev ← replace_row TransactionStatuses (status_id st) (from_executor_to_status b (status_result st));
  match prev with
  | Some _ => step_fail "Transaction status already exists"
  | None =>
      match status_result st with
      | Success _ receipts _ _ => step_map_err into_storage_error (update_receipt_based_indexation receipts enabled)
      | Failed _ _ _ _ => mret ()
      end
  end.

Definition persist_transaction_status {Tx} (b : Block Tx) (enabled : bool)
    (sts : list (TransactionExecutionStatus Receipt ProgramState)) : W unit := step_for (persist_status b enabled) sts.

(** The owners a transaction is indexed under, sorted and without duplicates. *)
Definition input_owner (i : Input) : option Address :=
  match i with CoinSigned c | CoinPredicate c _ => Some (c_owner c) | _ => None end.
Definition output_owner (o : Output) : option Address :=
  match o with
  | OutputCoin to _ _ | OutputChange to _ _ | OutputVariable to _ _ => Some to
  | OutputContract _ | OutputContractCreated _ _ => None
  end.

(** [Vec::dedup]. *)
Fixpoint dedup (l : list Address) : list Address :=
  match l with
  | x :: (y :: _) as tl => if decide (x = y) then dedup tl else x :: dedup tl
  | l => l
  end.

Definition tx_owners (ins : list Input) (outs : list Output) : list Address :=
  dedup (merge_sort key_le (omap input_owner ins ++ omap output_owner outs)).

Definition persist_owners_index (h : Z) (ins : list Input) (outs : list Output) (id : TxId) (tx_idx : Z) : W unit :=
  step_for (λ o, insert_row OwnedTransactions (o, h, tx_idx) id) (tx_owners ins outs).

Context {Signature : Type} `{!ChainCrypto Transaction Signature}.

Definition index_tx_owners_for_block (b : Block Transaction) (chain_id : Z) : W unit :=
  step_for (λ '(tx_idx, tx),
    if decide (Z.of_nat tx_idx ≤ U16) then
      match tx with
      | TxMint _ => mret ()
      | TxChargeable c =>
          persist_owners_index (height (consensus (header b))) (inputs c) (outputs c) (tx_id chain_id tx) (Z.of_nat tx_idx)
      end
    else step_fail "The block has more than `u16::MAX` transactions")
    (imap pair (transactions b)).

(** [Output::contract_id]. *)
Definition output_contract_id (o : Output) : option ContractId :=
  match o with OutputContractCreated c _ => Some c | _ => None end.

Definition process_transaction (tx : Transaction) : W unit :=
  match tx with
  | TxChargeable c =>
      if decide (kind c = Create) then
        match match head (omap output_contract_id (outputs c)) with
              | Some id => Ok id
              | None => computed_contract_id c
              end with
        | Ok id => insert_row ContractsInfo id (create_salt c)
        | Err e => step_fail e
        end
      else mret ()
  | TxMint _ => mret ()
  end.

Definition process_transactions (txs : list Transaction) : W unit := step_for process_transaction txs.

Definition TX_COUNT : string := "total_tx_count".

Definition get_tx_count : W Z := c ← get_row StatisticTable TX_COUNT; mret (default 0 c).

Definition increase_tx_count (new_txs_count : Z) : W Z :=
  current ← get_tx_count;
  let new_tx_count := sat_add U64 current new_txs_count in
  insert_row StatisticTable TX_COUNT new_tx_count ≫= λ _, mret new_tx_count.

(** [unwrap_or_default] of a computed number. *)
Definition or_default (m : W Z) : W Z := λ t, let '(t, r) := m t in (t, Ok match r with Ok x => x | Err _ => 0 end).

Record WorkerSettings := {
  ws_chain_id : Z;
  ws_balances : bool;
  ws_coins_to_spend : bool;
  ws_asset_metadata : bool;
  ws_base_asset_id : AssetId;
}.

Abbreviation Import := (ImportResult Transaction Signature (TransactionExecutionStatus Receipt ProgramState) ExecutorEvent).

(** [Task::process_block] up to the commit; the value is the number of all transactions. *)
Definition index_block (ws : WorkerSettings) (r : Import) : W Z :=
  let b := entity (sealed_block r) in
  persist_transaction_status b (ws_asset_metadata ws) (tx_status r) ≫= λ _,
  index_tx_owners_for_block b (ws_chain_id ws) ≫= λ _,
  process_transactions (transactions b) ≫= λ _,
  insert_row FuelBlockIdsToHeights (block_id b) (height (consensus (header b))) ≫= λ _,
  total_tx_count ← or_default (increase_tx_count (Z.of_nat (length (transactions b))));
  process_executor_events (ws_balances ws) (ws_coins_to_spend ws) (ws_base_asset_id ws) (events r) ≫= λ _,
  mret total_tx_count.
End indexation.
