(* ===== verification/OffChainFacts.v ===== *)
(** * The ledger and its indexes

    The ledger is what the tables of coins and messages of the chain hold.  The indexes of the
    worker describe a ledger when they list its coins and messages by owner and as coins to
    spend and have its sums as balances.  The events of a block change the ledger, and the
    worker keeps the indexes the ones of the changed ledger. *)

From stdpp Require Import prelude gmap list strings sorting.
From Stdlib Require Import ZArith Lia.
From S2P Require Import Prelude.
From S2P Require Import StorageTx.
From S2P Require Import HistoricalDb.
From S2P Require Import Database.
From S2P Require Import Tables.
From S2P Require Import Blocks.
From S2P Require Import Producer.
From S2P Require Import ChainFacts.
From S2P Require Import ExecTypes.
From S2P Require Import VmStorage.
From S2P Require Import Executor.
From S2P Require Import ExecutorMonad.
From S2P Require Import ExecutorEffects.
From S2P Require Import OffChain.
Local Open Scope Z_scope.

(** ** Keys *)

Definition wf_utxo (id : UtxoId) : Prop := length (utxo_tx_id id) = 32%nat ∧ in_uint U16 (output_index id).

Definition wf_index_key (k : CoinsToSpendIndexKey) : Prop :=
  length (key_owner k) = 32%nat ∧ length (key_asset_id k) = 32%nat ∧ in_uint U64 (key_amount k) ∧
  match k with
  | IndexCoin _ _ _ id => wf_utxo id
  | IndexMessage _ _ _ _ n => length n = 32%nat
  end.

Lemma sub_bytes_app (p x s : list Z) start len :
  length p = start → length x = len → sub_bytes start len (p ++ x ++ s) = x.
Proof. intros <- <-. unfold sub_bytes. by rewrite drop_app_length, take_app_length. Qed.

Lemma utxo_of_key id : wf_utxo id → utxo_of_bytes (utxo_key id) = id.
Proof.
  intros [Hl Hi]. unfold utxo_of_bytes, utxo_key. rewrite <- Hl, take_app_length, drop_app_length.
  rewrite from_to_be_bytes by (unfold in_uint, U16 in Hi; simpl; lia). by destruct id.
Qed.

Lemma utxo_key_length id : wf_utxo id → length (utxo_key id) = 34%nat.
Proof. intros [Hl _]. unfold utxo_key. rewrite length_app, to_be_bytes_length. lia. Qed.

Lemma utxo_key_inj id id' : wf_utxo id → wf_utxo id' → utxo_key id = utxo_key id' → id = id'.
Proof. intros H H' He. rewrite <- (utxo_of_key id H), <- (utxo_of_key id' H'). by rewrite He. Qed.

Lemma encode_index_key_length k : wf_index_key k →
  length (encode_index_key k) = match k with IndexCoin _ _ _ _ => COIN_VARIANT_SIZE | IndexMessage _ _ _ _ _ => MESSAGE_VARIANT_SIZE end.
Proof.
  intros (Ho & Ha & _ & Hk). destruct k as [o a x id|f o a x n]; cbn [key_owner key_asset_id key_amount] in *;
    unfold encode_index_key; rewrite !length_app, to_be_bytes_length, ?utxo_key_length by done; cbn [length]; unfold COIN_VARIANT_SIZE, MESSAGE_VARIANT_SIZE; lia.
Qed.

Lemma decode_encode_index_key k : wf_index_key k → decode_index_key (encode_index_key k) = Ok k.
Proof.
  intros Hwf. pose proof (encode_index_key_length k Hwf) as Hl. destruct Hwf as (Ho & Ha & Hx & Hk).
  assert (0 ≤ key_amount k < 256 ^ Z.of_nat 8) as Hx' by (unfold in_uint, U64 in Hx; simpl; lia).
  destruct k as [o a x id|f o a x n]; cbn [key_owner key_asset_id key_amount] in *; unfold decode_index_key.
  - assert (last (encode_index_key (IndexCoin o a x id)) = Some 0) as ->.
    { unfold encode_index_key. by rewrite !app_assoc, last_snoc. }
    rewrite Hl, decide_True by done. unfold encode_index_key.
    rewrite (sub_bytes_app [NON_RETRYABLE_BYTE] o) by done.
    rewrite (app_assoc [NON_RETRYABLE_BYTE] o). rewrite (sub_bytes_app ([NON_RETRYABLE_BYTE] ++ o) a) by (simpl; lia || done).
    rewrite (app_assoc _ a). rewrite (sub_bytes_app _ (to_be_bytes 8 x)) by (rewrite ?to_be_bytes_length, ?length_app; simpl; lia).
    rewrite (app_assoc _ (to_be_bytes 8 x)).
    rewrite (sub_bytes_app _ (utxo_key id)) by (rewrite ?utxo_key_length, ?length_app, ?to_be_bytes_length by done; simpl; lia).
    by rewrite utxo_of_key, from_to_be_bytes.
  - assert (last (encode_index_key (IndexMessage f o a x n)) = Some 1) as ->.
    { unfold encode_index_key. by rewrite !app_assoc, last_snoc. }
    rewrite Hl, decide_True by done. unfold encode_index_key.
    change (sub_bytes 0 1 ([f] ++ o ++ a ++ to_be_bytes 8 x ++ n ++ [MESSAGE_TYPE])) with [f].
    rewrite (sub_bytes_app [f] o) by done.
    rewrite (app_assoc [f] o). rewrite (sub_bytes_app ([f] ++ o) a) by (simpl; lia || done).
    rewrite (app_assoc _ a). rewrite (sub_bytes_app _ (to_be_bytes 8 x)) by (rewrite ?to_be_bytes_length, ?length_app; simpl; lia).
    rewrite (app_assoc _ (to_be_bytes 8 x)).
    rewrite (sub_bytes_app _ n) by (rewrite ?length_app, ?to_be_bytes_length; simpl; lia).
    rewrite from_to_be_bytes by done. by cbn.
Qed.

Lemma encode_index_key_inj k k' : wf_index_key k → wf_index_key k' → encode_index_key k = encode_index_key k' → k = k'.
Proof.
  intros H H' He. apply decode_encode_index_key in H, H'. rewrite He, H' in H. by injection H.
Qed.

(** Keys of one owner and asset are in the order of the amounts. *)
Lemma encode_index_key_le k k' :
  wf_index_key k → wf_index_key k' → key_retryable_flag k = key_retryable_flag k' → key_owner k = key_owner k' →
  key_asset_id k = key_asset_id k' → key_le (encode_index_key k) (encode_index_key k') → key_amount k ≤ key_amount k'.
Proof.
  intros (Ho & Ha & Hx & _) (Ho' & Ha' & Hx' & _) Hf He Hea.
  assert (∃ s, encode_index_key k = ([key_retryable_flag k] ++ key_owner k ++ key_asset_id k) ++ to_be_bytes 8 (key_amount k) ++ s) as [s ->].
  { destruct k; eexists; cbn; by rewrite <- app_assoc. }
  assert (∃ s, encode_index_key k' = ([key_retryable_flag k'] ++ key_owner k' ++ key_asset_id k') ++ to_be_bytes 8 (key_amount k') ++ s) as [s' ->].
  { destruct k'; eexists; cbn; by rewrite <- app_assoc. }
  rewrite <- Hf, <- He, <- Hea, key_le_app by (by apply same_length_incomparable).
  intros [[? _]|[_ Hle]]; [done|]. rewrite key_le_app in Hle by (apply same_length_incomparable; by rewrite !to_be_bytes_length).
  unfold in_uint, U64 in *.
  destruct Hle as [[_ Hle%to_be_bytes_le]|[Heq%to_be_bytes_inj _]]; simpl; lia.
Qed.

(** ** The ledger *)

#[global] Instance utxo_id_countable : Countable UtxoId.
Proof.
  refine (inj_countable' (λ id, (utxo_tx_id id, output_index id)) (λ '(t, i), {| utxo_tx_id := t; output_index := i |}) _).
  by intros [].
Defined.

Record Ledger := {
  lcoins : gmap UtxoId CompressedCoin;
  lmessages : gmap Nonce Message;
  lspent : gset Nonce;
}.

(** No transaction has more than 256 outputs. *)
Definition small_utxo (id : UtxoId) : Prop := wf_utxo id ∧ output_index id ≤ U8.

Definition wf_coin (id : UtxoId) (c : CompressedCoin) : Prop :=
  small_utxo id ∧ length (coin_owner c) = 32%nat ∧ length (coin_asset_id c) = 32%nat ∧ in_uint U64 (coin_amount c).

Definition wf_message (n : Nonce) (m : Message) : Prop :=
  nonce m = n ∧ length n = 32%nat ∧ length (recipient m) = 32%nat ∧ in_uint U64 (msg_amount m).

Record wf_ledger (L : Ledger) : Prop := {
  wl_coins : map_Forall wf_coin (lcoins L);
  wl_messages : map_Forall wf_message (lmessages L);
}.

Definition ledger_event (L : Ledger) (ev : ExecutorEvent) : Ledger :=
  match ev with
  | CoinCreated c => {| lcoins := <[coin_utxo_id c := compressed c]> (lcoins L); lmessages := lmessages L; lspent := lspent L |}
  | CoinConsumed c => {| lcoins := delete (coin_utxo_id c) (lcoins L); lmessages := lmessages L; lspent := lspent L |}
  | MessageImported m => {| lcoins := lcoins L; lmessages := <[nonce m := m]> (lmessages L); lspent := lspent L |}
  | MessageConsumed m => {| lcoins := lcoins L; lmessages := delete (nonce m) (lmessages L); lspent := {[nonce m]} ∪ lspent L |}
  | ForcedTransactionFailed _ _ _ => L
  end.

(** What is created is new and has the widths of its type; what is consumed is there. *)
Definition event_ok (L : Ledger) (ev : ExecutorEvent) : Prop :=
  match ev with
  | CoinCreated c => lcoins L !! coin_utxo_id c = None ∧ wf_coin (coin_utxo_id c) (compressed c)
  | CoinConsumed c => lcoins L !! coin_utxo_id c = Some (compressed c)
  | MessageImported m => lmessages L !! nonce m = None ∧ wf_message (nonce m) m
  | MessageConsumed m => lmessages L !! nonce m = Some m
  | ForcedTransactionFailed id _ _ => length id = 32%nat
  end.

Fixpoint events_ok (L : Ledger) (evs : list ExecutorEvent) : Prop :=
  match evs with
  | [] => True
  | ev :: evs => event_ok L ev ∧ events_ok (ledger_event L ev) evs
  end.

Lemma ledger_event_wf L ev : wf_ledger L → event_ok L ev → wf_ledger (ledger_event L ev).
Proof.
  intros [Hc Hm]. destruct ev as [m|m|c|c|]; simpl; intros Hev; split; try done; simpl.
  - apply map_Forall_insert_2; [apply Hev|done].
  - by apply map_Forall_delete.
  - apply map_Forall_insert_2; [apply Hev|done].
  - by apply map_Forall_delete.
Qed.

(** The number of entries grows by at most one. *)
Definition ledger_size (L : Ledger) : nat := (size (lcoins L) + size (lmessages L))%nat.

Lemma ledger_event_size L ev : (ledger_size (ledger_event L ev) ≤ S (ledger_size L))%nat.
Proof.
  unfold ledger_size. destruct ev as [m|m|c|c|]; simpl; try lia.
  - destruct (lmessages L !! nonce m) eqn:He; [rewrite map_size_insert_Some by eauto|rewrite map_size_insert_None by done]; lia.
  - rewrite map_size_delete. destruct (lmessages L !! nonce m); simpl; lia.
  - destruct (lcoins L !! coin_utxo_id c) eqn:He; [rewrite map_size_insert_Some by eauto|rewrite map_size_insert_None by done]; lia.
  - rewrite map_size_delete. destruct (lcoins L !! coin_utxo_id c); simpl; lia.
Qed.

(** Sums over the ledger. *)
Definition coin_share (o : Address) (a : AssetId) (c : CompressedCoin) : Z :=
  if decide (coin_owner c = o ∧ coin_asset_id c = a) then coin_amount c else 0.
Definition message_share (o : Address) (r : bool) (m : Message) : Z :=
  if decide (recipient m = o ∧ is_retryable_message m = r) then msg_amount m else 0.

Definition coins_of (L : Ledger) (o : Address) (a : AssetId) : Z := map_sum (coin_share o a) (lcoins L).
Definition messages_of (L : Ledger) (o : Address) (r : bool) : Z := map_sum (message_share o r) (lmessages L).

Lemma map_sum_bound `{Countable K} {A} (w : A → Z) (b : Z) (m : gmap K A) :
  map_Forall (λ _ x, w x ≤ b) m → map_sum w m ≤ b * Z.of_nat (size m).
Proof.
  induction m as [|i x m Hi IH] using map_ind; intros Hw.
  { rewrite map_sum_empty, map_size_empty. lia. }
  apply map_Forall_insert in Hw as [Hx Hw]; [|done]. rewrite map_sum_insert, map_size_insert_None by done.
  specialize (IH Hw). lia.
Qed.

Lemma coins_of_range L o a :
  wf_ledger L → Z.of_nat (ledger_size L) ≤ U64 → 0 ≤ coins_of L o a ≤ U64 * U64.
Proof.
  intros [Hc _] Hs. split.
  - apply map_sum_nonneg. intros id c (_ & _ & _ & Ha)%Hc. unfold coin_share, in_uint in *. case_decide; lia.
  - etrans; [apply (map_sum_bound _ U64)|]; [|unfold ledger_size, U64 in *; nia].
    intros id c (_ & _ & _ & Ha)%Hc. unfold coin_share, in_uint, U64 in *. case_decide; lia.
Qed.

Lemma messages_of_range L o r :
  wf_ledger L → Z.of_nat (ledger_size L) ≤ U64 → 0 ≤ messages_of L o r ≤ U64 * U64.
Proof.
  intros [_ Hm] Hs. split.
  - apply map_sum_nonneg. intros id c (_ & _ & _ & Ha)%Hm. unfold message_share, in_uint in *. case_decide; lia.
  - etrans; [apply (map_sum_bound _ U64)|]; [|unfold ledger_size, U64 in *; nia].
    intros id c (_ & _ & _ & Ha)%Hm. unfold message_share, in_uint, U64 in *. case_decide; lia.
Qed.

(** ** Computations on a view *)

Section runs.
Context {D : Type} `{!KeyValueInspect D} (P : Z → Key → Prop) (below : D).
Abbreviation T := (InMemoryTransaction D).
Implicit Types (w : View.t).

(** From a transaction that shows the view the computation gives the value and shows the new view. *)
Definition runs {E A} (m : Step T E A) w (a : A) w' : Prop :=
  ∀ t, tx_ok P below w t → ∃ t', m t = (t', Ok a) ∧ tx_ok P below w' t'.

(** The value a view has for a key of a table. *)
Definition row {K V} (tb : Table K V) w (k : K) : result (option V) StorageError :=
  result_bind (w (t_encode tb k) (t_column tb)) (decode_value tb).

Definition set_row {K V} (tb : Table K V) (k : K) (v : option V) w : View.t :=
  View.set (t_encode tb k) (t_column tb) (t_ser tb <$> v) w.

Lemma runs_ret {E A} (a : A) w : runs (mret a : Step T E A) w a w.
Proof. intros t Ht. by exists t. Qed.

Lemma runs_bind {E A B} (m : Step T E A) (f : A → Step T E B) w a w1 b w2 :
  runs m w a w1 → runs (f a) w1 b w2 → runs (m ≫= f) w b w2.
Proof.
  intros Hm Hf t Ht. destruct (Hm t Ht) as (t1 & H1 & Ht1). destruct (Hf t1 Ht1) as (t2 & H2 & Ht2).
  exists t2. split; [|done]. unfold mbind, step_bind. by rewrite H1.
Qed.

Lemma runs_map_err {E F A} (f : E → F) (m : Step T E A) w a w' : runs m w a w' → runs (step_map_err f m) w a w'.
Proof. intros Hm t Ht. destruct (Hm t Ht) as (t1 & H1 & Ht1). exists t1. unfold step_map_err. by rewrite H1. Qed.

Lemma runs_get {K V} (tb : Table K V) w k x : row tb w k = Ok x → runs (get_row tb k) w x w.
Proof. intros Hx t Ht. exists t. split; [|done]. unfold get_row. rewrite (table_get_ok P below tb t w) by done. unfold row in Hx. by rewrite Hx. Qed.

Lemma runs_insert {K V} (tb : Table K V) w k v :
  P (t_column tb) (t_encode tb k) → runs (insert_row tb k v) w () (set_row tb k (Some v) w).
Proof. intros HP t Ht. by apply plain_put_ok. Qed.

Lemma runs_replace {K V} (tb : Table K V) w k v x :
  P (t_column tb) (t_encode tb k) → row tb w k = Ok x → runs (replace_row tb k v) w x (set_row tb k (Some v) w).
Proof.
  intros HP Hx t Ht. unfold row in Hx. apply result_bind_ok in Hx as (o & Ho & Hx).
  destruct (plain_replace_ok P below tb t w k v o Ht HP Ho) as (t' & H1 & H2). exists t'. split; [|done].
  unfold replace_row. by rewrite H1, Hx.
Qed.

Lemma runs_take {K V} (tb : Table K V) w k x :
  P (t_column tb) (t_encode tb k) → row tb w k = Ok x → runs (take_row tb k) w x (set_row tb k None w).
Proof.
  intros HP Hx t Ht. unfold row in Hx. apply result_bind_ok in Hx as (o & Ho & Hx).
  exists (record t (t_encode tb k) (t_column tb) Remove). split; [|by apply (tx_ok_record P below t w _ _ Remove)].
  unfold take_row, plain_take, and_then, take_value. change (old_value t) with (tx_get t).
  rewrite (to_shows P below _ _ Ht), Ho. by rewrite Hx.
Qed.

Lemma runs_remove {K V} (tb : Table K V) w k :
  P (t_column tb) (t_encode tb k) → runs (remove_row tb k) w () (set_row tb k None w).
Proof.
  intros HP t Ht. eexists. split; [done|]. by apply (tx_ok_record P below t w _ _ Remove).
Qed.
End runs.

Lemma set_row_ne {K V} (tb : Table K V) k v w k' c : c ≠ t_column tb ∨ k' ≠ t_encode tb k → set_row tb k v w k' c = w k' c.
Proof. intros H. unfold set_row. apply set_ne. naive_solver. Qed.

Lemma set_row_eq {K V} (tb : Table K V) k v w : set_row tb k v w (t_encode tb k) (t_column tb) = Ok (t_ser tb <$> v).
Proof. apply set_eq. Qed.

Lemma row_set {K V} (tb : Table K V) w k v k' :
  (∀ x, v = Some x → t_de tb (t_ser tb x) = Some x) →
  row tb (set_row tb k v w) k' = if decide (t_encode tb k' = t_encode tb k) then Ok v else row tb w k'.
Proof.
  intros Hde. unfold row. case_decide as He.
  - rewrite He, set_row_eq. destruct v as [x|]; [|done]. simpl. by rewrite (Hde x).
  - by rewrite set_row_ne by auto.
Qed.

(** Only the given columns have changed. *)
Definition only_columns (cols : list Z) (w w' : View.t) : Prop := ∀ k c, c ∉ cols → w' k c = w k c.

Lemma only_columns_trans cols w1 w2 w3 : only_columns cols w1 w2 → only_columns cols w2 w3 → only_columns cols w1 w3.
Proof. intros H1 H2 k c Hc. by rewrite H2, H1. Qed.
Lemma only_columns_mono cols cols' w w' : cols ⊆ cols' → only_columns cols w w' → only_columns cols' w w'.
Proof. intros Hs H k c Hc. apply H. set_solver. Qed.
Lemma only_columns_set {K V} (tb : Table K V) k v w : only_columns [t_column tb] w (set_row tb k v w).
Proof. intros k' c Hc. apply set_row_ne. left. set_solver. Qed.

(** ** Tables of keys *)

(** The column has exactly the keys of a set, each with the unit value. *)
Definition rows (w : View.t) (c : Z) (S : Key → Prop) : Prop :=
  ∀ k, S k ∧ w k c = Ok (Some []) ∨ ¬ S k ∧ w k c = Ok None.

Lemma rows_ext w w' c S S' : (∀ k, w' k c = w k c) → (∀ k, S' k ↔ S k) → rows w c S → rows w' c S'.
Proof. intros Hw HS Hr k. rewrite Hw, HS. apply Hr. Qed.

Lemma rows_insert {K} c (e : K → Key) w (S S' : Key → Prop) k :
  rows w c S → (∀ k', S' k' ↔ S k' ∨ k' = e k) → rows (set_row (unit_table c e) k (Some ()) w) c S'.
Proof.
  intros Hr HS k'. rewrite HS. destruct (decide (k' = e k)) as [->|Hne].
  - left. split; [by right|]. apply (set_row_eq (unit_table c e)).
  - rewrite set_row_ne by auto. destruct (Hr k'); naive_solver.
Qed.

Lemma rows_delete {K} c (e : K → Key) w (S S' : Key → Prop) k :
  rows w c S → (∀ k', S' k' ↔ S k' ∧ k' ≠ e k) → rows (set_row (unit_table c e) k None w) c S'.
Proof.
  intros Hr HS k'. rewrite HS. destruct (decide (k' = e k)) as [->|Hne].
  - right. split; [naive_solver|]. apply (set_row_eq (unit_table c e)).
  - rewrite set_row_ne by auto. destruct (Hr k'); naive_solver.
Qed.

Lemma rows_row {K} c (e : K → Key) w S k :
  rows w c S → (S (e k) → row (unit_table c e) w k = Ok (Some ())) ∧ (¬ S (e k) → row (unit_table c e) w k = Ok None).
Proof. intros Hr. unfold row. simpl. destruct (Hr (e k)) as [[? ->]|[? ->]]; naive_solver. Qed.

(** ** The indexes of a ledger *)

(** The keys of the coins and messages to spend; no such key is the beginning of another. *)
Definition stored_key (k : CoinsToSpendIndexKey) : Prop :=
  wf_index_key k ∧ match k with IndexCoin _ _ _ id => output_index id ≤ U8 | IndexMessage _ _ _ _ _ => True end.

(** The keys of the tables that events change. *)
Inductive index_keys : Z → Key → Prop :=
| ik_owned_coin k : length k = 66%nat → index_keys OWNED_COINS_COLUMN k
| ik_owned_message k : length k = 64%nat → index_keys OWNED_MESSAGE_IDS_COLUMN k
| ik_spent k : length k = 32%nat → index_keys SPENT_MESSAGES_COLUMN k
| ik_relayed k : length k = 32%nat → index_keys RELAYED_STATUS_COLUMN k
| ik_coin_balance k : length k = 64%nat → index_keys COIN_BALANCES_COLUMN k
| ik_message_balance k : length k = 32%nat → index_keys MESSAGE_BALANCES_COLUMN k
| ik_to_spend k : stored_key k → index_keys COINS_TO_SPEND_COLUMN (encode_index_key k).

Definition index_columns : list Z :=
  [OWNED_COINS_COLUMN; OWNED_MESSAGE_IDS_COLUMN; SPENT_MESSAGES_COLUMN; RELAYED_STATUS_COLUMN; COIN_BALANCES_COLUMN;
   MESSAGE_BALANCES_COLUMN; COINS_TO_SPEND_COLUMN].

Section indexes.
Context `{OC : OffChainCodecs} (base : AssetId).
Implicit Types (w : View.t) (L : Ledger).

Definition owned_coin_rows L (k : Key) : Prop := ∃ id c, lcoins L !! id = Some c ∧ k = owner_coin_id_key (coin_owner c) id.
Definition owned_message_rows L (k : Key) : Prop := ∃ n m, lmessages L !! n = Some m ∧ k = recipient m ++ n.
Definition to_spend_keys L (k : CoinsToSpendIndexKey) : Prop :=
  (∃ id c, lcoins L !! id = Some c ∧ k = from_coin (uncompress_coin c id)) ∨
  (∃ n m, lmessages L !! n = Some m ∧ k = from_message m base).
Definition to_spend_rows L (k : Key) : Prop := ∃ x, to_spend_keys L x ∧ k = encode_index_key x.

Record owned_ok w L : Prop := {
  oo_coins : rows w OWNED_COINS_COLUMN (owned_coin_rows L);
  oo_messages : rows w OWNED_MESSAGE_IDS_COLUMN (owned_message_rows L);
  oo_spent : rows w SPENT_MESSAGES_COLUMN (λ k, k ∈ lspent L);
}.

Definition to_spend_ok w L : Prop := rows w COINS_TO_SPEND_COLUMN (to_spend_rows L).

Definition ledger_balance L (o : Address) : MessageBalance :=
  {| retryable := messages_of L o true; non_retryable := messages_of L o false |}.

Record balances_ok w L : Prop := {
  bo_coins o a : length o = 32%nat → length a = 32%nat →
    ∃ x, row CoinBalances w (o, a) = Ok x ∧ default 0 x = coins_of L o a;
  bo_messages o : length o = 32%nat →
    ∃ x, row MessageBalances w o = Ok x ∧ default no_message_balance x = ledger_balance L o;
}.

(** The tables are the indexes of the ledger; the optional ones where they are enabled. *)
Record indexed (balances_enabled coins_to_spend_enabled : bool) w L : Prop := {
  in_owned : owned_ok w L;
  in_balances : balances_enabled = true → balances_ok w L;
  in_to_spend : coins_to_spend_enabled = true → to_spend_ok w L;
}.

Lemma owned_ok_ext w w' L : only_columns [COIN_BALANCES_COLUMN; MESSAGE_BALANCES_COLUMN; COINS_TO_SPEND_COLUMN; RELAYED_STATUS_COLUMN] w w' →
  owned_ok w L → owned_ok w' L.
Proof.
  intros Hw [H1 H2 H3]. split; [eapply rows_ext, H1|eapply rows_ext, H2|eapply rows_ext, H3]; try done;
    intros k; apply Hw; apply (bool_decide_unpack _); done.
Qed.

Lemma to_spend_ok_ext w w' L : (∀ k, w' k COINS_TO_SPEND_COLUMN = w k COINS_TO_SPEND_COLUMN) → to_spend_ok w L → to_spend_ok w' L.
Proof. intros Hw. by apply rows_ext. Qed.

Lemma balances_ok_ext w w' L :
  (∀ k, w' k COIN_BALANCES_COLUMN = w k COIN_BALANCES_COLUMN) → (∀ k, w' k MESSAGE_BALANCES_COLUMN = w k MESSAGE_BALANCES_COLUMN) →
  balances_ok w L → balances_ok w' L.
Proof.
  intros H1 H2 [Hc Hm]. split.
  - intros o a Ho Ha. unfold row. simpl. rewrite H1. by apply Hc.
  - intros o Ho. unfold row. simpl. rewrite H2. by apply Hm.
Qed.

(** The keys of a well-formed ledger. *)
Lemma to_spend_wf L k : wf_ledger L → length base = 32%nat → to_spend_keys L k → stored_key k.
Proof.
  intros [Hc Hm] Hb [(id & c & Hl & ->)|(n & m & Hl & ->)]; unfold stored_key, wf_index_key; simpl.
  - destruct (Hc _ _ Hl) as ([? ?] & ? & ? & ?). by split_and!.
  - destruct (Hm _ _ Hl) as (-> & ? & ? & ?). by split_and!.
Qed.
End indexes.

(** ** Events *)

Section steps.
Context `{OC : OffChainCodecs} `{!OffChainCodecsLaws} {D : Type} `{!KeyValueInspect D}.
Context (P : Z → Key → Prop) (HP : ∀ c k, index_keys c k → P c k) (below : D).
Abbreviation runs := (runs P below).
Implicit Types (w : View.t) (L : Ledger).

Lemma runs_ix {A} (m : Step (InMemoryTransaction D) StorageError A) w a w' : runs m w a w' → runs (ix m) w a w'.
Proof. apply runs_map_err. Qed.

(** *** Balances *)

Lemma app32_inj (o a o' a' : list Z) : length o = 32%nat → length o' = 32%nat → o ++ a = o' ++ a' → o = o' ∧ a = a'.
Proof. intros H1 H2. apply app_inj_1. congruence. Qed.

(** The balance of one key of the table of coins changes. *)
Lemma set_coin_balance w L L' o a x :
  balances_ok w L → length o = 32%nat → length a = 32%nat → in_uint U128 x →
  (∀ o' a', coins_of L' o' a' = if decide (o' = o ∧ a' = a) then x else coins_of L o' a') →
  (∀ o', ledger_balance L' o' = ledger_balance L o') →
  balances_ok (set_row CoinBalances (o, a) (Some x) w) L'.
Proof using Type*.
  intros [Hc Hm] Ho Ha Hx Hsum Hmsg. split.
  - intros o' a' Ho' Ha'. rewrite row_set by (intros ? [= <-]; by apply de_ser_u128). rewrite Hsum. simpl.
    destruct (decide (o' ++ a' = o ++ a)) as [He|He].
    + apply app32_inj in He as [-> ->]; [|done..]. rewrite decide_True by done. by exists (Some x).
    + rewrite decide_False by (intros [-> ->]; done). by apply Hc.
  - intros o' Ho'. rewrite Hmsg. destruct (Hm o' Ho') as (y & Hy & He). exists y. split; [|done].
    unfold row in *. by rewrite set_row_ne by (by left).
Qed.

Lemma set_message_balance w L L' o b :
  balances_ok w L → length o = 32%nat → in_uint U128 (retryable b) → in_uint U128 (non_retryable b) →
  (∀ o', ledger_balance L' o' = if decide (o' = o) then b else ledger_balance L o') →
  (∀ o' a', coins_of L' o' a' = coins_of L o' a') →
  balances_ok (set_row MessageBalances o (Some b) w) L'.
Proof using Type*.
  intros [Hc Hm] Ho H1 H2 Hmsg Hsum. split.
  - intros o' a' Ho' Ha'. rewrite Hsum. destruct (Hc o' a' Ho' Ha') as (y & Hy & He). exists y. split; [|done].
    unfold row in *. by rewrite set_row_ne by (by left).
  - intros o' Ho'. rewrite row_set by (intros ? [= <-]; by apply de_ser_message_balance). rewrite Hmsg. simpl.
    case_decide; [|by apply Hm]. by exists (Some b).
Qed.

Lemma coin_share_sum o a o' a' c s :
  coin_owner c = o → coin_asset_id c = a →
  coin_share o' a' c + s = if decide (o' = o ∧ a' = a) then coin_amount c + s else s.
Proof. intros <- <-. unfold coin_share. repeat case_decide; naive_solver lia. Qed.

Lemma created_balances w L c :
  wf_ledger L → event_ok L (CoinCreated c) → Z.of_nat (S (ledger_size L)) ≤ U64 → balances_ok w L →
  ∃ w', runs (increase_coin_balance c) w () w' ∧ balances_ok w' (ledger_event L (CoinCreated c)) ∧
    only_columns [COIN_BALANCES_COLUMN] w w'.
Proof using Type*.
  intros Hwf [Hnew (_ & Ho & Ha & Hx)] Hs Hb.
  destruct (bo_coins _ _ Hb _ _ Ho Ha) as (x & Hrow & Hcur). pose proof (coins_of_range L (coin_owner (compressed c)) (coin_asset_id (compressed c)) Hwf ltac:(lia)) as Hr.
  set (o := coin_owner _) in *. set (a := coin_asset_id _) in *. set (y := coins_of L o a + coin_amount (compressed c)).
  assert (sat_add U128 (default 0 x) (coin_amount (compressed c)) = y) as Hy.
  { rewrite Hcur. unfold sat_add, y, in_uint, U64, U128 in *. lia. }
  exists (set_row CoinBalances (o, a) (Some y) w). split_and!.
  - unfold increase_coin_balance. eapply runs_bind; [apply runs_ix, runs_get; exact Hrow|]. rewrite Hy.
    apply runs_ix, runs_insert, HP. constructor. simpl. rewrite length_app. lia.
  - eapply set_coin_balance; [exact Hb|done|done|unfold y, in_uint, U64, U128 in *; lia| |done].
    intros o' a'. unfold coins_of. simpl. rewrite map_sum_insert by done. rewrite (coin_share_sum o a) by done.
    case_decide as Hd; [|done]. destruct Hd as [-> ->]. unfold y, coins_of. lia.
  - apply (only_columns_set CoinBalances).
Qed.

Lemma consumed_balances w L c :
  wf_ledger L → event_ok L (CoinConsumed c) → Z.of_nat (ledger_size L) ≤ U64 → balances_ok w L →
  ∃ w', runs (decrease_coin_balance c) w () w' ∧ balances_ok w' (ledger_event L (CoinConsumed c)) ∧
    only_columns [COIN_BALANCES_COLUMN] w w'.
Proof using Type*.
  intros Hwf Hin Hs Hb. simpl in Hin. destruct (wl_coins _ Hwf _ _ Hin) as (_ & Ho & Ha & Hx).
  destruct (bo_coins _ _ Hb _ _ Ho Ha) as (x & Hrow & Hcur).
  set (o := coin_owner _) in *. set (a := coin_asset_id _) in *. set (L' := ledger_event L (CoinConsumed c)).
  pose proof (coins_of_range L o a Hwf Hs) as Hr.
  assert (∀ o' a', coins_of L o' a' = coin_share o' a' (compressed c) + coins_of L' o' a') as Hsum
    by (intros; by apply map_sum_delete).
  assert (0 ≤ coins_of L' o a) as Hpos.
  { apply map_sum_nonneg. intros id c' (_ & _ & _ & Hc')%(map_Forall_delete _ _ _ (wl_coins _ Hwf)).
    unfold coin_share, in_uint in *. case_decide; lia. }
  pose proof (Hsum o a) as Hoa. unfold coin_share in Hoa. rewrite decide_True in Hoa by done.
  exists (set_row CoinBalances (o, a) (Some (coins_of L' o a)) w). split_and!.
  - unfold decrease_coin_balance. eapply runs_bind; [apply runs_ix, runs_get; exact Hrow|]. simpl. rewrite Hcur, decide_False by lia.
    replace (coins_of L o a - coin_amount (compressed c)) with (coins_of L' o a) by lia.
    apply runs_ix, runs_insert, HP. constructor. simpl. rewrite length_app. lia.
  - eapply set_coin_balance; [exact Hb|done|done|unfold in_uint, U64, U128 in *; lia| |done].
    intros o' a'. specialize (Hsum o' a'). rewrite (coin_share_sum o a) in Hsum by done.
    case_decide as Hd; [|done]. destruct Hd as [-> ->]. done.
  - apply (only_columns_set CoinBalances).
Qed.

(** Messages: the share of one kind. *)
Lemma message_share_sum m o' r s :
  message_share o' r m + s =
  if decide (o' = recipient m ∧ r = is_retryable_message m) then msg_amount m + s else s.
Proof. unfold message_share. repeat case_decide; naive_solver lia. Qed.

Definition with_amount (r : bool) (x : Z) (b : MessageBalance) : MessageBalance :=
  if r then {| retryable := x; non_retryable := non_retryable b |} else {| retryable := retryable b; non_retryable := x |}.
Definition amount_of (r : bool) (b : MessageBalance) : Z := if r then retryable b else non_retryable b.

(** The balance of the recipient changes by the messages of one kind. *)
Lemma ledger_balance_with L L' m x :
  (∀ o' r, messages_of L' o' r =
    if decide (o' = recipient m ∧ r = is_retryable_message m) then x else messages_of L o' r) →
  ∀ o', ledger_balance L' o' =
    if decide (o' = recipient m) then with_amount (is_retryable_message m) x (ledger_balance L (recipient m)) else ledger_balance L o'.
Proof.
  intros Hs o'. unfold ledger_balance, with_amount. rewrite !Hs.
  destruct (decide (o' = recipient m)) as [->|Hne]; [|by rewrite !decide_False by naive_solver].
  destruct (is_retryable_message m).
  - rewrite decide_True by done. by rewrite decide_False by naive_solver.
  - rewrite decide_False by naive_solver. by rewrite decide_True.
Qed.

Lemma ledger_balance_range L o r :
  wf_ledger L → Z.of_nat (ledger_size L) ≤ U64 → 0 ≤ amount_of r (ledger_balance L o) ≤ U64 * U64.
Proof. intros Hwf Hs. destruct r; by apply messages_of_range. Qed.

Lemma with_amount_range L o r x :
  wf_ledger L → Z.of_nat (ledger_size L) ≤ U64 → in_uint U128 x →
  in_uint U128 (retryable (with_amount r x (ledger_balance L o))) ∧
  in_uint U128 (non_retryable (with_amount r x (ledger_balance L o))).
Proof.
  intros Hwf Hs Hx. pose proof (messages_of_range L o true Hwf Hs). pose proof (messages_of_range L o false Hwf Hs).
  unfold with_amount, in_uint, U64, U128 in *. destruct r; simpl; lia.
Qed.

Lemma imported_balances w L m :
  wf_ledger L → event_ok L (MessageImported m) → Z.of_nat (S (ledger_size L)) ≤ U64 → balances_ok w L →
  ∃ w', runs (increase_message_balance m) w () w' ∧ balances_ok w' (ledger_event L (MessageImported m)) ∧
    only_columns [MESSAGE_BALANCES_COLUMN] w w'.
Proof using Type*.
  intros Hwf [Hnew (_ & _ & Ho & Hx)] Hs Hb. destruct (bo_messages _ _ Hb _ Ho) as (x & Hrow & Hcur).
  set (o := recipient m) in *. set (r := is_retryable_message m).
  pose proof (ledger_balance_range L o r Hwf ltac:(lia)) as Hr.
  set (y := amount_of r (ledger_balance L o) + msg_amount m).
  assert (in_uint U128 y) as Hy by (unfold y, in_uint, U64, U128 in *; lia).
  destruct (with_amount_range L o r y Hwf ltac:(lia) Hy) as [Hy1 Hy2].
  exists (set_row MessageBalances o (Some (with_amount r y (ledger_balance L o))) w). split_and!.
  - unfold increase_message_balance. eapply runs_bind; [apply runs_ix, runs_get; exact Hrow|]. simpl. rewrite Hcur.
    assert (sat_add U128 (amount_of r (ledger_balance L o)) (msg_amount m) = y) as He
      by (unfold sat_add, y, in_uint, U64, U128 in *; lia).
    unfold with_amount, amount_of, r in *. destruct (is_retryable_message m); rewrite He;
      (apply runs_ix, runs_insert, HP; constructor; done).
  - eapply set_message_balance; [exact Hb|done..| |done]. apply ledger_balance_with. intros o' r'. unfold messages_of. simpl.
    rewrite map_sum_insert by done. rewrite message_share_sum. case_decide as Hd; [|done]. destruct Hd as [-> ->].
    unfold y, r. fold o. unfold amount_of, ledger_balance, messages_of. destruct (is_retryable_message m); simpl; lia.
  - apply (only_columns_set MessageBalances).
Qed.

Lemma spent_balances w L m :
  wf_ledger L → event_ok L (MessageConsumed m) → Z.of_nat (ledger_size L) ≤ U64 → balances_ok w L →
  ∃ w', runs (decrease_message_balance m) w () w' ∧ balances_ok w' (ledger_event L (MessageConsumed m)) ∧
    only_columns [MESSAGE_BALANCES_COLUMN] w w'.
Proof using Type*.
  intros Hwf Hin Hs Hb. simpl in Hin. destruct (wl_messages _ Hwf _ _ Hin) as (_ & _ & Ho & Hx).
  destruct (bo_messages _ _ Hb _ Ho) as (x & Hrow & Hcur). set (L' := ledger_event L (MessageConsumed m)).
  set (o := recipient m) in *. set (r := is_retryable_message m). pose proof (ledger_balance_range L o r Hwf ltac:(lia)) as Hr.
  assert (∀ o' r', messages_of L o' r' = message_share o' r' m + messages_of L' o' r') as Hsum
    by (intros; by apply map_sum_delete).
  assert (0 ≤ messages_of L' o r) as Hpos.
  { apply map_sum_nonneg. intros n m' (_ & _ & _ & Hm')%(map_Forall_delete _ _ _ (wl_messages _ Hwf)).
    unfold message_share, in_uint in *. case_decide; lia. }
  assert (amount_of r (ledger_balance L o) = msg_amount m + messages_of L' o r) as He.
  { transitivity (messages_of L o r); [by destruct r|]. rewrite Hsum. rewrite message_share_sum. by rewrite decide_True. }
  assert (in_uint U128 (messages_of L' o r)) as Hy by (unfold in_uint, U64, U128 in *; lia).
  destruct (with_amount_range L o r _ Hwf Hs Hy) as [Hy1 Hy2].
  exists (set_row MessageBalances o (Some (with_amount r (messages_of L' o r) (ledger_balance L o))) w). split_and!.
  - unfold decrease_message_balance. eapply runs_bind; [apply runs_ix, runs_get; exact Hrow|]. simpl. rewrite Hcur.
    change (if is_retryable_message m then _ else _) with (amount_of r (ledger_balance L o)) at 1.
    assert (¬ amount_of r (ledger_balance L o) < msg_amount m) as Hlt by lia.
    destruct (decide (amount_of r (ledger_balance L o) < msg_amount m)) as [?|_]; [done|].
    assert (amount_of r (ledger_balance L o) - msg_amount m = messages_of L' o r) as Hd by lia.
    unfold with_amount, amount_of, r in *. destruct (is_retryable_message m); rewrite Hd;
      (apply runs_ix, runs_insert, HP; constructor; done).
  - eapply set_message_balance; [exact Hb|done..| |done]. apply ledger_balance_with. intros o' r'. specialize (Hsum o' r').
    rewrite message_share_sum in Hsum. case_decide as Hd; [|done]. destruct Hd as [-> ->]. done.
  - apply (only_columns_set MessageBalances).
Qed.

Lemma balances_step w L ev enabled :
  wf_ledger L → event_ok L ev → Z.of_nat (S (ledger_size L)) ≤ U64 → (enabled = true → balances_ok w L) →
  ∃ w', runs (balances_update ev enabled) w () w' ∧ (enabled = true → balances_ok w' (ledger_event L ev)) ∧
    only_columns [COIN_BALANCES_COLUMN; MESSAGE_BALANCES_COLUMN] w w'.
Proof using Type*.
  intros Hwf Hev Hs Hb. unfold balances_update. destruct enabled; simpl.
  2: { exists w. split_and!; [apply runs_ret|done|done]. }
  specialize (Hb eq_refl). destruct ev as [m|m|c|c|].
  - destruct (imported_balances w L m) as (w' & ? & ? & Hw); [done..|]. exists w'. split_and!; [done..|].
    eapply only_columns_mono, Hw. set_solver.
  - destruct (spent_balances w L m) as (w' & ? & ? & Hw); [done|done|lia|done|]. exists w'. split_and!; [done..|].
    eapply only_columns_mono, Hw. set_solver.
  - destruct (created_balances w L c) as (w' & ? & ? & Hw); [done..|]. exists w'. split_and!; [done..|].
    eapply only_columns_mono, Hw. set_solver.
  - destruct (consumed_balances w L c) as (w' & ? & ? & Hw); [done|done|lia|done|]. exists w'. split_and!; [done..|].
    eapply only_columns_mono, Hw. set_solver.
  - exists w. split_and!; [apply runs_ret|done|done].
Qed.

(** *** Coins to spend *)

Context (base : AssetId) (Hbase : length base = 32%nat).
Abbreviation to_spend_keys := (to_spend_keys base).

(** The key an event is about. *)
Definition event_key (ev : ExecutorEvent) : option CoinsToSpendIndexKey :=
  match ev with
  | CoinCreated c | CoinConsumed c => Some (from_coin c)
  | MessageImported m | MessageConsumed m => Some (from_message m base)
  | ForcedTransactionFailed _ _ _ => None
  end.

Lemma event_key_wf L ev k : wf_ledger L → event_ok L ev → event_key ev = Some k → stored_key k.
Proof using Hbase.
  intros [Hc Hm] Hev. destruct ev as [m|m|c|c|]; simpl in *; intros [= <-]; unfold stored_key, wf_index_key; simpl.
  - destruct Hev as (_ & ? & ? & ? & ?). by split_and!.
  - destruct (Hm _ _ Hev) as (? & ? & ? & ?). by split_and!.
  - destruct Hev as (_ & [? ?] & ? & ? & ?). by split_and!.
  - destruct (Hc _ _ Hev) as ([? ?] & ? & ? & ?). by split_and!.
Qed.

Lemma created_keys L c x :
  event_ok L (CoinCreated c) →
  ¬ to_spend_keys L (from_coin c) ∧ (to_spend_keys (ledger_event L (CoinCreated c)) x ↔ to_spend_keys L x ∨ x = from_coin c).
Proof.
  intros [Hnew _]. split.
  - intros [(id & c' & Hl & [= _ _ _ He])|(n & m & _ & [=])]. simpl in He. congruence.
  - unfold to_spend_keys. simpl. setoid_rewrite lookup_insert_Some. split.
    + intros [(id & c' & [[<- <-]|[_ Hl]] & ->)|?]; [right; by destruct c|left; left; by eauto|by auto].
    + intros [[(id & c' & Hl & ->)|?]| ->]; [left; exists id, c'; split; [right; split; [congruence|done]|done]|by auto|].
      left. exists (coin_utxo_id c), (compressed c). split; [by left|by destruct c].
Qed.

Lemma imported_keys L m x :
  wf_ledger L → event_ok L (MessageImported m) →
  ¬ to_spend_keys L (from_message m base) ∧
  (to_spend_keys (ledger_event L (MessageImported m)) x ↔ to_spend_keys L x ∨ x = from_message m base).
Proof.
  intros [_ Hm] [Hnew _]. split.
  - intros [(id & c' & _ & [=])|(n & m' & Hl & [= _ _ _ He])]. destruct (Hm _ _ Hl) as [Hn _]. congruence.
  - unfold to_spend_keys. simpl. setoid_rewrite lookup_insert_Some. split.
    + intros [?|(n & m' & [[<- <-]|[_ Hl]] & ->)]; [by auto|by auto|left; right; by eauto].
    + intros [[?|(n & m' & Hl & ->)]| ->]; [by auto|right; exists n, m'; split; [right; split; [congruence|done]|done]|].
      right. exists (nonce m), m. split; [by left|done].
Qed.

Lemma consumed_keys L c x :
  event_ok L (CoinConsumed c) →
  to_spend_keys L (from_coin c) ∧ (to_spend_keys (ledger_event L (CoinConsumed c)) x ↔ to_spend_keys L x ∧ x ≠ from_coin c).
Proof.
  intros Hin. simpl in Hin. split; [left; exists (coin_utxo_id c), (compressed c); split; [done|by destruct c]|].
  unfold to_spend_keys. simpl. setoid_rewrite lookup_delete_Some. split.
  - intros [(id & c' & [Hne Hl] & ->)|(n & m & Hl & ->)]; [split; [by eauto|]|split; [by eauto|done]].
    intros [= _ _ _ He]. simpl in He. congruence.
  - intros [[(id & c' & Hl & ->)|?] Hne]; [|by auto]. left. exists id, c'. split; [|done]. split; [|done]. intros <-.
    apply Hne. rewrite Hin in Hl. injection Hl as <-. by destruct c.
Qed.

Lemma spent_keys L m x :
  wf_ledger L → event_ok L (MessageConsumed m) →
  to_spend_keys L (from_message m base) ∧
  (to_spend_keys (ledger_event L (MessageConsumed m)) x ↔ to_spend_keys L x ∧ x ≠ from_message m base).
Proof.
  intros [_ Hm] Hin. simpl in Hin. split; [right; by eauto|].
  unfold to_spend_keys. simpl. setoid_rewrite lookup_delete_Some. split.
  - intros [(id & c' & Hl & ->)|(n & m' & [Hne Hl] & ->)]; [split; [by eauto|done]|split; [by eauto|]].
    intros [= _ _ _ He]. destruct (Hm _ _ Hl) as [Hn _]. congruence.
  - intros [[?|(n & m' & Hl & ->)] Hne]; [by auto|]. right. exists n, m'. split; [|done]. split; [|done]. intros <-.
    apply Hne. congruence.
Qed.

Lemma add_row w L L' k (m : Step (InMemoryTransaction D) IndexationError unit) (fail : Step (InMemoryTransaction D) IndexationError unit) :
  m = (ix (replace_row CoinsToSpendIndex k ()) ≫= λ o, match o with Some _ => fail | None => mret () end) →
  wf_ledger L → stored_key k → ¬ to_spend_keys L k → (∀ x, to_spend_keys L' x ↔ to_spend_keys L x ∨ x = k) → to_spend_ok base w L →
  ∃ w', runs m w () w' ∧ to_spend_ok base w' L' ∧ only_columns [COINS_TO_SPEND_COLUMN] w w'.
Proof using HP Hbase.
  intros -> Hwf Hk Hnot Hkeys Hw. exists (set_row CoinsToSpendIndex k (Some ()) w). split_and!.
  - eapply (runs_bind _ _ _ _ _ None); [|apply runs_ret]. apply runs_ix, runs_replace; [by apply HP; constructor|].
    apply (rows_row COINS_TO_SPEND_COLUMN encode_index_key _ _ _ Hw). intros (x & Hx & He). apply encode_index_key_inj in He; [by subst|apply Hk|].
    by eapply to_spend_wf.
  - eapply rows_insert; [exact Hw|]. intros k'. unfold to_spend_rows. setoid_rewrite Hkeys. naive_solver.
  - apply (only_columns_set CoinsToSpendIndex).
Qed.

Lemma remove_key_row w L L' k (m : Step (InMemoryTransaction D) IndexationError unit) (fail : Step (InMemoryTransaction D) IndexationError unit) :
  m = (ix (take_row CoinsToSpendIndex k) ≫= λ o, match o with None => fail | Some _ => mret () end) →
  wf_ledger L → to_spend_keys L k → (∀ x, to_spend_keys L' x ↔ to_spend_keys L x ∧ x ≠ k) → to_spend_ok base w L →
  ∃ w', runs m w () w' ∧ to_spend_ok base w' L' ∧ only_columns [COINS_TO_SPEND_COLUMN] w w'.
Proof using HP Hbase.
  intros -> Hwf Hin Hkeys Hw. assert (stored_key k) as Hk by by eapply to_spend_wf.
  exists (set_row CoinsToSpendIndex k None w). split_and!.
  - eapply (runs_bind _ _ _ _ _ (Some ())); [|apply runs_ret]. apply runs_ix, runs_take; [by apply HP; constructor|].
    apply (rows_row COINS_TO_SPEND_COLUMN encode_index_key _ _ _ Hw). by exists k.
  - eapply rows_delete; [exact Hw|]. intros k'. unfold to_spend_rows. setoid_rewrite Hkeys. split.
    + intros (x & [Hx Hne] & ->). split; [by eauto|]. intros He%encode_index_key_inj; [done| |apply Hk]. by eapply to_spend_wf.
    + intros [(x & Hx & ->) Hne]. exists x. split; [|done]. split; [done|]. by intros ->.
  - apply (only_columns_set CoinsToSpendIndex).
Qed.

Lemma to_spend_step w L ev enabled :
  wf_ledger L → event_ok L ev → (enabled = true → to_spend_ok base w L) →
  ∃ w', runs (coins_to_spend_update ev enabled base) w () w' ∧ (enabled = true → to_spend_ok base w' (ledger_event L ev)) ∧
    only_columns [COINS_TO_SPEND_COLUMN] w w'.
Proof using HP Hbase.
  intros Hwf Hev Hb. unfold coins_to_spend_update. destruct enabled; simpl.
  2: { exists w. split_and!; [apply runs_ret|done|done]. }
  specialize (Hb eq_refl). pose proof (event_key_wf L ev) as Hkey.
  assert (∀ (m : Step (InMemoryTransaction D) IndexationError unit) L', (∃ w', runs m w () w' ∧ to_spend_ok base w' L' ∧ only_columns [COINS_TO_SPEND_COLUMN] w w') →
    ∃ w', runs m w () w' ∧ (true = true → to_spend_ok base w' L') ∧ only_columns [COINS_TO_SPEND_COLUMN] w w') as Hex
    by naive_solver.
  destruct ev as [m|m|c|c|].
  - apply Hex. pose proof (λ x, imported_keys L m x Hwf Hev) as Hm.
    eapply add_row; [done|done|by eapply Hkey|apply (Hm (from_message m base))|apply Hm|done].
  - apply Hex. pose proof (spent_keys L m) as Hm.
    eapply remove_key_row; [done|done|exact (proj1 (Hm (from_message m base) Hwf Hev))|intros x; apply Hm; done|done].
  - apply Hex. pose proof (created_keys L c) as Hm.
    eapply add_row; [done|done|by eapply Hkey|exact (proj1 (Hm (from_coin c) Hev))|intros x; apply Hm; done|done].
  - apply Hex. pose proof (consumed_keys L c) as Hm.
    eapply remove_key_row; [done|done|exact (proj1 (Hm (from_coin c) Hev))|intros x; apply Hm; done|done].
  - exists w. split_and!; [apply runs_ret|done|done].
Qed.

(** *** Owned coins and messages *)

Lemma owned_coin_key_inj o id o' id' :
  length o = 32%nat → length o' = 32%nat → wf_utxo id → wf_utxo id' → owner_coin_id_key o id = owner_coin_id_key o' id' → id = id'.
Proof. intros Ho Ho' Hi Hi' [_ He]%app32_inj; [|done..]. by apply utxo_key_inj. Qed.

Lemma created_rows L c k :
  event_ok L (CoinCreated c) →
  owned_coin_rows (ledger_event L (CoinCreated c)) k ↔
  owned_coin_rows L k ∨ k = owner_coin_id_key (coin_owner (compressed c)) (coin_utxo_id c).
Proof.
  intros [Hnew _]. unfold owned_coin_rows. simpl. setoid_rewrite lookup_insert_Some. split.
  - intros (id & c' & [[<- <-]|[_ Hl]] & ->); [by right|left; by eauto].
  - intros [(id & c' & Hl & ->)| ->].
    + exists id, c'. split; [right; split; [congruence|done]|done].
    + exists (coin_utxo_id c), (compressed c). split; [by left|done].
Qed.

Lemma consumed_rows L c k :
  wf_ledger L → event_ok L (CoinConsumed c) →
  owned_coin_rows (ledger_event L (CoinConsumed c)) k ↔
  owned_coin_rows L k ∧ k ≠ owner_coin_id_key (coin_owner (compressed c)) (coin_utxo_id c).
Proof.
  intros [Hc _] Hin. simpl in Hin. unfold owned_coin_rows. simpl. setoid_rewrite lookup_delete_Some.
  destruct (Hc _ _ Hin) as ([Hi _] & Ho & _). split.
  - intros (id & c' & [Hne Hl] & ->). split; [by eauto|]. destruct (Hc _ _ Hl) as ([Hi' _] & Ho' & _).
    intros He%owned_coin_key_inj; [|done..]. congruence.
  - intros [(id & c' & Hl & ->) Hne]. exists id, c'. split; [|done]. split; [|done]. intros <-. congruence.
Qed.

Lemma imported_rows L m k :
  event_ok L (MessageImported m) →
  owned_message_rows (ledger_event L (MessageImported m)) k ↔ owned_message_rows L k ∨ k = recipient m ++ nonce m.
Proof.
  intros [Hnew _]. unfold owned_message_rows. simpl. setoid_rewrite lookup_insert_Some. split.
  - intros (n & m' & [[<- <-]|[_ Hl]] & ->); [by right|left; by eauto].
  - intros [(n & m' & Hl & ->)| ->].
    + exists n, m'. split; [right; split; [congruence|done]|done].
    + exists (nonce m), m. split; [by left|done].
Qed.

Lemma spent_rows L m k :
  wf_ledger L → event_ok L (MessageConsumed m) →
  owned_message_rows (ledger_event L (MessageConsumed m)) k ↔ owned_message_rows L k ∧ k ≠ recipient m ++ nonce m.
Proof.
  intros [_ Hm] Hin. simpl in Hin. unfold owned_message_rows. simpl. setoid_rewrite lookup_delete_Some.
  destruct (Hm _ _ Hin) as (_ & _ & Ho & _). split.
  - intros (n & m' & [Hne Hl] & ->). split; [by eauto|]. destruct (Hm _ _ Hl) as (_ & _ & Ho' & _).
    intros [_ He]%app32_inj; [|done..]. congruence.
  - intros [(n & m' & Hl & ->) Hne]. exists n, m'. split; [|done]. split; [|done]. intros <-. congruence.
Qed.

Lemma rows_columns {K V} (tb : Table K V) k v w c S : t_column tb ≠ c → rows w c S → rows (set_row tb k v w) c S.
Proof. intros Hc. apply rows_ext; [|done]. intros k'. apply set_row_ne. by left. Qed.

(** What the worker writes after the indexation of an event. *)
Definition event_rows (ev : ExecutorEvent) : Step (InMemoryTransaction D) StorageError unit :=
  match ev with
  | MessageImported m => insert_row OwnedMessageIds (recipient m, nonce m) ()
  | MessageConsumed m => remove_row OwnedMessageIds (recipient m, nonce m) ≫= λ _, insert_row SpentMessages (nonce m) ()
  | CoinCreated c => insert_row OwnedCoins (coin_owner (compressed c), coin_utxo_id c) ()
  | CoinConsumed c => remove_row OwnedCoins (coin_owner (compressed c), coin_utxo_id c)
  | ForcedTransactionFailed id h failure => insert_row RelayedTransactionStatuses id (RelayedFailed h failure)
  end.

Lemma owned_step w L ev :
  wf_ledger L → event_ok L ev → owned_ok w L →
  ∃ w', runs (event_rows ev) w () w' ∧ owned_ok w' (ledger_event L ev) ∧
    only_columns [OWNED_COINS_COLUMN; OWNED_MESSAGE_IDS_COLUMN; SPENT_MESSAGES_COLUMN; RELAYED_STATUS_COLUMN] w w'.
Proof using All.
  intros Hwf Hev [H1 H2 H3]. pose proof Hwf as [Hc Hm]. destruct ev as [m|m|c|c|id h f]; unfold event_rows.
  - pose proof (proj2 Hev) as (_ & Hn & Hr & _). eexists. split_and!; [apply runs_insert, HP; constructor; simpl; rewrite length_app; lia| |].
    + split; [by apply rows_columns| |by apply rows_columns].
      apply (rows_insert _ (λ '(o, n), o ++ n) _ _ _ (recipient m, nonce m) H2). intros k. by apply imported_rows.
    + eapply only_columns_mono, only_columns_set. set_solver.
  - destruct (Hm _ _ Hev) as (_ & Hn & Hr & _). eexists. split_and!.
    + eapply runs_bind; [apply runs_remove, HP; constructor; simpl; rewrite length_app; lia|apply runs_insert, HP; by constructor].
    + split; [by do 2 (apply rows_columns; [done|])| |].
      * apply rows_columns; [done|]. apply (rows_delete _ (λ '(o, n), o ++ n) _ _ _ (recipient m, nonce m) H2). intros k. by apply spent_rows.
      * eapply (rows_insert SPENT_MESSAGES_COLUMN (λ n, n) _ _ _ (nonce m)); [apply rows_columns; [done|exact H3]|]. simpl. set_solver.
    + apply (only_columns_trans _ _ (set_row OwnedMessageIds (recipient m, nonce m) None w));
        (eapply only_columns_mono, only_columns_set; set_solver).
  - pose proof (proj2 Hev) as ([Hi _] & Ho & _). eexists.
    split_and!; [apply runs_insert, HP; constructor; simpl; unfold owner_coin_id_key; rewrite length_app, utxo_key_length by done; lia| |].
    + split; [|by apply rows_columns|by apply rows_columns].
      apply (rows_insert _ (λ '(o, id), owner_coin_id_key o id) _ _ _ (coin_owner (compressed c), coin_utxo_id c) H1).
      intros k. by apply created_rows.
    + eapply only_columns_mono, only_columns_set. set_solver.
  - destruct (Hc _ _ Hev) as ([Hi _] & Ho & _). eexists.
    split_and!; [apply runs_remove, HP; constructor; simpl; unfold owner_coin_id_key; rewrite length_app, utxo_key_length by done; lia| |].
    + split; [|by apply rows_columns|by apply rows_columns].
      apply (rows_delete _ (λ '(o, id), owner_coin_id_key o id) _ _ _ (coin_owner (compressed c), coin_utxo_id c) H1).
      intros k. by apply consumed_rows.
    + eapply only_columns_mono, only_columns_set. set_solver.
  - eexists. split_and!; [apply runs_insert, HP; by constructor|split; by apply rows_columns|].
    eapply only_columns_mono, only_columns_set. set_solver.
Qed.

(** ** One event and all of them *)

Lemma event_step b1 b2 w L ev :
  wf_ledger L → event_ok L ev → Z.of_nat (S (ledger_size L)) ≤ U64 → indexed base b1 b2 w L →
  ∃ w', runs (process_executor_event b1 b2 base ev) w () w' ∧ indexed base b1 b2 w' (ledger_event L ev) ∧ only_columns index_columns w w'.
Proof using All.
  intros Hwf Hev Hs [Ho Hb Ht].
  destruct (balances_step w L ev b1 Hwf Hev Hs Hb) as (w1 & R1 & Hb1 & C1).
  destruct (to_spend_step w1 L ev b2 Hwf Hev) as (w2 & R2 & Ht2 & C2).
  { intros Hb2. eapply to_spend_ok_ext, Ht, Hb2. intros k. apply C1. set_solver by lia. }
  destruct (owned_step w2 L ev Hwf Hev) as (w3 & R3 & Ho3 & C3).
  { eapply owned_ok_ext, Ho. eapply only_columns_trans; [eapply only_columns_mono, C1|eapply only_columns_mono, C2]; set_solver. }
  exists w3. split_and!.
  - unfold process_executor_event. eapply runs_bind; [|exact R3]. intros t Htx.
    destruct (runs_bind P below _ (λ _, coins_to_spend_update ev b2 base) _ _ _ _ _ R1 R2 t Htx) as (t' & He & Ht').
    exists t'. split; [|done]. unfold index_event, update_event_based_indexation. by rewrite He.
  - split; [done| |].
    + intros Hb'. eapply balances_ok_ext, Hb1, Hb'; intros k; rewrite C3, C2; set_solver by lia.
    + intros Hb'. eapply to_spend_ok_ext, Ht2, Hb'. intros k. apply C3. set_solver by lia.
  - eapply only_columns_trans; [eapply only_columns_mono, C1; set_solver|].
    eapply only_columns_trans; [eapply only_columns_mono, C2; set_solver|eapply only_columns_mono, C3; set_solver].
Qed.

Lemma events_step b1 b2 evs : ∀ w L,
  wf_ledger L → events_ok L evs → Z.of_nat (ledger_size L + length evs) ≤ U64 → indexed base b1 b2 w L →
  ∃ w', runs (process_executor_events b1 b2 base evs) w () w' ∧ indexed base b1 b2 w' (foldl ledger_event L evs) ∧
    only_columns index_columns w w'.
Proof using All.
  induction evs as [|ev evs IH]; intros w L Hwf Hevs Hs Hix.
  { exists w. split_and!; [apply runs_ret|done|done]. }
  destruct Hevs as [Hev Hevs]. simpl in Hs. destruct (event_step b1 b2 w L ev Hwf Hev ltac:(lia) Hix) as (w1 & R1 & H1 & C1).
  destruct (IH w1 (ledger_event L ev)) as (w2 & R2 & H2 & C2); [by apply ledger_event_wf|done| |done|].
  { pose proof (ledger_event_size L ev). lia. }
  exists w2. split_and!; [|done|by eapply only_columns_trans].
  unfold process_executor_events. simpl. eapply runs_bind; [exact R1|exact R2].
Qed.
End steps.

(** ** The tables of the chain *)

Section chain.
Context `{SC : StateCodecs} `{!StateCodecsLaws}.
Implicit Types (v : View.t) (L : Ledger).

(** The tables of coins and messages hold the ledger. *)
Record holds v L : Prop := {
  ho_coins id : wf_utxo id → v (utxo_key id) COINS_COLUMN = Ok (ser_coin <$> lcoins L !! id);
  ho_messages n : length n = 32%nat → v n MESSAGES_COLUMN = Ok (ser_message <$> lmessages L !! n);
}.

(** The widths of the types of an event. *)
Definition wf_event (ev : ExecutorEvent) : Prop :=
  match ev with
  | CoinCreated c | CoinConsumed c => wf_coin (coin_utxo_id c) (compressed c)
  | MessageImported m | MessageConsumed m => wf_message (nonce m) m
  | ForcedTransactionFailed id _ _ => length id = 32%nat
  end.

(** No imported message has the nonce of a message that is there. *)
Fixpoint imports_new L (evs : list ExecutorEvent) : Prop :=
  match evs with
  | [] => True
  | ev :: evs => match ev with MessageImported m => lmessages L !! nonce m = None | _ => True end ∧
      imports_new (ledger_event L ev) evs
  end.

#[global] Instance holds_proper : Proper (same_columns ==> eq ==> iff) holds.
Proof.
  intros v v' Hv L _ <-.
  assert (∀ k, v k COINS_COLUMN = v' k COINS_COLUMN) as Hc by (intros; apply Hv; by left).
  assert (∀ k, v k MESSAGES_COLUMN = v' k MESSAGES_COLUMN) as Hm by (intros; apply Hv; by right).
  split; intros [H1 H2]; (split; [intros id Hid|intros n Hn]); [rewrite <- Hc|rewrite <- Hm|rewrite Hc|rewrite Hm]; auto.
Qed.

Lemma event_follows v L ev :
  holds v L → event_fits v ev → wf_event ev → (∀ m, ev = MessageImported m → lmessages L !! nonce m = None) →
  event_ok L ev ∧ holds (apply_event v ev) (ledger_event L ev).
Proof using Type*.
  intros [Hc Hm] Hfit Hwf Hnew.
  assert (∀ id x o, wf_utxo id → wf_utxo o → View.set (utxo_key id) COINS_COLUMN x v (utxo_key o) COINS_COLUMN =
    if decide (id = o) then Ok x else v (utxo_key o) COINS_COLUMN) as Hset.
  { intros id x o Hi Ho. unfold View.set. apply decide_ext. split; [intros [He%utxo_key_inj _]; congruence|by intros ->]. }
  assert (∀ n x o, View.set n MESSAGES_COLUMN x v o MESSAGES_COLUMN = if decide (n = o) then Ok x else v o MESSAGES_COLUMN) as Hsetm.
  { intros n x o. unfold View.set. apply decide_ext. naive_solver. }
  destruct ev as [m|m|c|c|]; simpl in *.
  - split; [split; [by apply Hnew|done]|]. split; simpl; [intros id Hid; rewrite set_ne by naive_solver; by apply Hc|]. intros n Hn. rewrite Hsetm.
    case_decide; [subst; by rewrite lookup_insert_eq|]. rewrite lookup_insert_ne by done. by apply Hm.
  - destruct Hfit as (x & Hx & Hd). destruct Hwf as (_ & Hn & _). rewrite Hm in Hx by done.
    destruct (lmessages L !! nonce m) as [m'|] eqn:Hl; [|done]. injection Hx as <-. rewrite de_ser_message in Hd.
    split; [congruence|]. split; simpl; [intros id Hid; rewrite set_ne by naive_solver; by apply Hc|]. intros n' Hn'. rewrite Hsetm.
    case_decide; [subst; by rewrite lookup_delete_eq|]. rewrite lookup_delete_ne by done. by apply Hm.
  - pose proof Hwf as [[Hi _] _]. rewrite Hc in Hfit by done. destruct (lcoins L !! coin_utxo_id c) eqn:Hl; [done|].
    split; [done|]. split; simpl; [|intros n Hn; rewrite set_ne by naive_solver; by apply Hm]. intros o Ho. rewrite Hset by done.
    case_decide; [subst; by rewrite lookup_insert_eq|]. rewrite lookup_insert_ne by done. by apply Hc.
  - destruct Hfit as (x & Hx & Hd). destruct Hwf as [[Hi _] _]. rewrite Hc in Hx by done.
    destruct (lcoins L !! coin_utxo_id c) as [c'|] eqn:Hl; [|done]. injection Hx as <-. rewrite de_ser_coin in Hd.
    split; [congruence|]. split; simpl; [|intros n Hn; rewrite set_ne by naive_solver; by apply Hm]. intros o Ho. rewrite Hset by done.
    case_decide; [subst; by rewrite lookup_delete_eq|]. rewrite lookup_delete_ne by done. by apply Hc.
  - done.
Qed.

Lemma events_follow evs : ∀ v L,
  holds v L → events_fit v evs → Forall wf_event evs → imports_new L evs →
  events_ok L evs ∧ holds (foldl apply_event v evs) (foldl ledger_event L evs).
Proof using Type*.
  induction evs as [|ev evs IH]; intros v L Hh Hfit Hwf Hnew; [done|].
  destruct Hfit as [Hf Hfit], Hnew as [Hn Hnew]. apply Forall_cons in Hwf as [Hw Hwf].
  destruct (event_follows v L ev Hh Hf Hw) as [Hok Hh']; [by intros m ->|].
  destruct (IH _ _ Hh' Hfit Hwf Hnew) as [? ?]. done.
Qed.

Lemma replays_follow v evs v' L :
  replays v evs v' → holds v L → Forall wf_event evs → imports_new L evs →
  events_ok L evs ∧ holds v' (foldl ledger_event L evs).
Proof using Type*. intros [Hfit Hsame] Hh Hwf Hnew. rewrite Hsame. by apply events_follow. Qed.

Lemma events_wf evs : ∀ L, wf_ledger L → events_ok L evs → wf_ledger (foldl ledger_event L evs).
Proof.
  induction evs as [|ev evs IH]; intros L Hwf Hev; [done|]. destruct Hev as [H1 H2]. apply IH; [|done]. by apply ledger_event_wf.
Qed.
End chain.
