(* ===== verification/OffChainQuery.v ===== *)
(** * Queries of balances and coins

    Model of the queries the GraphQL service answers from the two databases: balances with and
    without the index (query/balance.rs, query/balance/asset_query.rs, query/coin.rs,
    query/message.rs, database/{coin,message}.rs, service/adapters/graphql_api/off_chain.rs),
    the selection of coins (coins_query.rs) and the query for coins to spend
    (schema/coins.rs).  A stream is the list of its items.  The random choices of the
    selection are arguments: a shuffle of a list and a number up to a bound. *)

From stdpp Require Import prelude gmap list strings sorting.
From Stdlib Require Import ZArith Lia.
From S2P Require Import Prelude.
From S2P Require Import StorageTx.
From S2P Require Import HistoricalDb.
From S2P Require Import Database.
From S2P Require Import Tables.
From S2P Require Import Blocks.
From S2P Require Import Producer.
From S2P Require Import ExecTypes.
From S2P Require Import VmStorage.
From S2P Require Import Executor.
From S2P Require Import Iteration.
From S2P Require Import OffChain.
Local Open Scope Z_scope.

(** ** Coins *)

Record MessageCoin := { mc_sender : Address; mc_recipient : Address; mc_nonce : Nonce; mc_amount : Z; mc_da_height : Z }.

Inductive CoinId := IdUtxo (id : UtxoId) | IdMessage (n : Nonce).
Inductive CoinType := CtCoin (c : Coin) | CtMessageCoin (m : MessageCoin).

#[global] Instance coin_id_eq_dec : EqDecision CoinId.
Proof. solve_decision. Defined.

Definition coin_id (c : CoinType) : CoinId :=
  match c with CtCoin c => IdUtxo (coin_utxo_id c) | CtMessageCoin m => IdMessage (mc_nonce m) end.
Definition ct_owner (c : CoinType) : Address :=
  match c with CtCoin c => coin_owner (compressed c) | CtMessageCoin m => mc_recipient m end.
Definition ct_amount (c : CoinType) : Z :=
  match c with CtCoin c => coin_amount (compressed c) | CtMessageCoin m => mc_amount m end.
Definition ct_asset_id (c : CoinType) (base_asset : AssetId) : AssetId :=
  match c with CtCoin c => coin_asset_id (compressed c) | CtMessageCoin _ => base_asset end.

(** [TryFrom<Message> for MessageCoin]. *)
Definition message_coin (m : Message) : option MessageCoin :=
  if is_retryable_message m then None
  else Some {| mc_sender := sender m; mc_recipient := recipient m; mc_nonce := nonce m; mc_amount := msg_amount m;
               mc_da_height := msg_da_height m |}.

(** [HashSet<CoinId>]. *)
Record Exclude := { coin_ids : list CoinId }.
Definition contains_coin (e : Exclude) (id : UtxoId) : bool := bool_decide (IdUtxo id ∈ coin_ids e).
Definition contains_message (e : Exclude) (n : Nonce) : bool := bool_decide (IdMessage n ∈ coin_ids e).

Record AssetSpendTarget := { target_id : AssetId; target : Z; target_max : Z; allow_partial : bool }.

(** ** Streams *)

Definition is_ok_and {A E} (f : A → bool) (r : result A E) : bool := match r with Ok a => f a | Err _ => true end.
Definition and_then_item {A B E} (f : A → result B E) (r : result A E) : result B E := result_bind r f.

(** [try_collect]. *)
Fixpoint try_collect {A E} (l : list (result A E)) : result (list A) E :=
  match l with
  | [] => Ok []
  | Err e :: _ => Err e
  | Ok a :: l => result_bind (try_collect l) (λ l, Ok (a :: l))
  end.

(** [StreamExt::chunks]; the number of items is enough fuel. *)
Fixpoint chunks_fuel {A} (fuel n : nat) (l : list A) : list (list A) :=
  match fuel, l with
  | S fuel, _ :: _ => take n l :: chunks_fuel fuel n (drop n l)
  | _, _ => []
  end.
Definition chunks {A} (n : nat) (l : list A) : list (list A) := chunks_fuel (length l) n l.

(** A chunk of ids is read at once; a chunk with an error is the error. *)
Definition read_chunks {A B E} (n : nat) (read : A → result B E) (l : list (result A E)) : list (result B E) :=
  chunks n l ≫= λ chunk, match try_collect chunk with Ok ids => read <$> ids | Err e => [Err e] end.

Section view.
Context `{SC : StateCodecs} `{OC : OffChainCodecs}.

Record ReadView := {
  on_chain : Db;
  off_chain : Db;
  batch_size : nat;
  indexation_flags : list IndexationKind;
}.

Definition flag_eqb (a b : IndexationKind) : bool :=
  match a, b with
  | Balances, Balances | CoinsToSpend, CoinsToSpend | AssetMetadata, AssetMetadata => true
  | _, _ => false
  end.
Definition has_flag (db : ReadView) (k : IndexationKind) : bool := existsb (flag_eqb k) (indexation_flags db).

(** [OffChainIterableKeyValueView::owned_coins_ids] and [owned_message_ids]. *)
Definition raw_key (n : nat) (k : Key) : result Key StorageError := if decide (length k = n) then Ok k else Err "Codec".

Definition owned_coins_ids (db : Db) (owner : Address) (start : option UtxoId) (dir : IterDirection) :
    list (result UtxoId StorageError) :=
  and_then_item (λ k, Ok (utxo_of_bytes (drop 32 k))) <$>
    iter_table_keys (raw_key 66) db OWNED_COINS_COLUMN (Some owner) (owner_coin_id_key owner <$> start) dir.

Definition owned_message_ids (db : Db) (owner : Address) (start : option Nonce) (dir : IterDirection) :
    list (result Nonce StorageError) :=
  and_then_item (λ k, Ok (drop 32 k)) <$>
    iter_table_keys (raw_key 64) db OWNED_MESSAGE_IDS_COLUMN (Some owner) (app owner <$> start) dir.

(** [ReadView::coin] and [message]. *)
Definition read_coin (db : ReadView) (id : UtxoId) : result Coin StorageError :=
  result_bind (table_get Coins (on_chain db) id) (λ o,
    match o with Some c => Ok (uncompress_coin c id) | None => Err "NotFound" end).

Definition read_message (db : ReadView) (n : Nonce) : result Message StorageError :=
  result_bind (table_get Messages (on_chain db) n) (λ o,
    match o with Some m => Ok m | None => Err "NotFound" end).

(** ** Assets of an owner *)

Record AssetsQuery := {
  aq_owner : Address;
  allowed_assets : option (list AssetId);
  aq_exclude : option Exclude;
  aq_base_asset_id : AssetId;
}.

Definition allowed_asset (allowed : option (list AssetId)) (asset : AssetId) : bool :=
  match allowed with Some l => bool_decide (asset ∈ l) | None => true end.

Definition not_excluded (e : option Exclude) (id : CoinId) : bool :=
  match e with Some e => negb (bool_decide (id ∈ coin_ids e)) | None => true end.

Definition coins_iter (db : ReadView) (q : AssetsQuery) : list (result CoinType StorageError) :=
  let ids := filter (is_ok_and (λ id, not_excluded (aq_exclude q) (IdUtxo id)))
               (owned_coins_ids (off_chain db) (aq_owner q) None Forward) in
  filter (is_ok_and (λ c, match c with
                          | CtCoin c => allowed_asset (allowed_assets q) (coin_asset_id (compressed c))
                          | CtMessageCoin _ => true
                          end))
    (and_then_item (λ c, Ok (CtCoin c)) <$> read_chunks (batch_size db) (read_coin db) ids).

(** [None]: a message that was checked to carry no data is one. *)
Definition messages_iter (db : ReadView) (q : AssetsQuery) : list (option (result CoinType StorageError)) :=
  let ids := filter (is_ok_and (λ n, not_excluded (aq_exclude q) (IdMessage n)))
               (owned_message_ids (off_chain db) (aq_owner q) None Forward) in
  (λ r, match r with
        | Ok m => (λ mc, Ok (CtMessageCoin mc)) <$> message_coin m
        | Err e => Some (Err e)
        end) <$>
    filter (is_ok_and (λ m, negb (is_retryable_message m))) (read_chunks (batch_size db) (read_message db) ids).

(** [AssetsQuery::coins]. *)
Definition query_coins (db : ReadView) (q : AssetsQuery) : list (option (result CoinType StorageError)) :=
  if allowed_asset (allowed_assets q) (aq_base_asset_id q)
  then (Some <$> coins_iter db q) ++ messages_iter db q
  else Some <$> coins_iter db q.

(** The items collected; a panic is [None]. *)
Definition collect_coins (db : ReadView) (q : AssetsQuery) : option (result (list CoinType) StorageError) :=
  try_collect <$> mapM id (query_coins db q).

(** [AssetQuery::new]. *)
Definition asset_query (owner : Address) (asset : AssetId) (base_asset : AssetId) (e : option Exclude) : AssetsQuery :=
  {| aq_owner := owner; allowed_assets := Some [asset]; aq_exclude := e; aq_base_asset_id := base_asset |}.

(** ** Balances *)

(** [OffChainDatabase::balance]. *)
Definition indexed_balance (db : Db) (owner : Address) (asset base_asset : AssetId) : result Z StorageError :=
  result_bind (table_get CoinBalances db (owner, asset)) (λ c,
    let coins := default 0 c in
    if decide (base_asset = asset) then
      result_bind (table_get MessageBalances db owner) (λ m,
        let total := coins + non_retryable (default no_message_balance m) in
        if decide (total ≤ U128) then Ok total else Err "Total balance overflow")
    else Ok coins).

(** [ReadView::balance]. *)
Definition balance (db : ReadView) (owner : Address) (asset base_asset : AssetId) : option (result Z StorageError) :=
  if has_flag db Balances then Some (indexed_balance (off_chain db) owner asset base_asset)
  else
    match collect_coins db (asset_query owner asset base_asset None) with
    | Some (Ok coins) => Some (Ok (foldl (λ b c, sat_add U128 b (ct_amount c)) 0 coins))
    | Some (Err e) => Some (Err e)
    | None => None
    end.

(** ** Selection of coins *)

Inductive CoinsQueryError :=
| QueryStorageError (e : StorageError)
| InsufficientCoins (owner : Address) (asset : AssetId) (collected_amount : Z)
| MaxCoinsReached (owner : Address) (asset : AssetId) (collected_amount max : Z)
| DuplicateAssets (asset : AssetId)
| TooManyExcludedId (provided allowed : Z)
| TooManyCoinsSelected (required max : Z)
| UnexpectedInternalState (e : string)
| QueryOther.

(** [sort_by_key(|coin| Reverse(coin.amount()))] keeps the order of coins of the same amount. *)
Fixpoint insert_desc (c : CoinType) (l : list CoinType) : list CoinType :=
  match l with
  | [] => [c]
  | d :: tl => if decide (ct_amount d ≤ ct_amount c) then c :: l else d :: insert_desc c tl
  end.
Definition sort_desc (l : list CoinType) : list CoinType := foldr insert_desc [] l.

(** The loop of [largest_first]: the amount and the coins collected, or the return out of it. *)
Fixpoint largest_loop (owner : Address) (a : AssetSpendTarget) (inputs : list CoinType) (collected : Z) (coins : list CoinType) :
    result (list CoinType) CoinsQueryError + Z * list CoinType :=
  match inputs with
  | [] => inr (collected, coins)
  | c :: inputs =>
      if decide (target a ≤ collected) then inr (collected, coins)
      else if decide (target_max a ≤ Z.of_nat (length coins)) then
        inl (if allow_partial a then Ok coins else Err (MaxCoinsReached owner (target_id a) collected (target_max a)))
      else largest_loop owner a inputs (sat_add U128 collected (ct_amount c)) (coins ++ [c])
  end.

(** [largest_first] on the coins of the query. *)
Definition largest_first (owner : Address) (a : AssetSpendTarget) (inputs : list CoinType) :
    result (list CoinType) CoinsQueryError :=
  match largest_loop owner a (sort_desc inputs) 0 [] with
  | inl r => r
  | inr (collected, coins) =>
      if decide (collected < target a) then
        if allow_partial a && bool_decide (0 < collected) then Ok coins
        else Err (InsufficientCoins owner (target_id a) collected)
      else Ok coins
  end.

Fixpoint improve_loop (goal : Z) (inputs : list CoinType) (collected : Z) (coins : list CoinType) : Z * list CoinType :=
  match inputs with
  | [] => (collected, coins)
  | c :: inputs =>
      let change_amount := collected - goal in
      let distance := Z.abs (goal - change_amount) in
      let next_distance := Z.abs (goal - sat_add U128 change_amount (ct_amount c)) in
      if decide (goal ≤ collected ∧
                 (U64 ≤ collected ∨ sat_mul U128 goal 2 < ct_amount c ∨ distance ≤ next_distance))
      then (collected, coins)
      else improve_loop goal inputs (sat_add U128 collected (ct_amount c)) (coins ++ [c])
  end.

(** One asset of [random_improve]; [shuffle] is the random permutation. *)
Definition random_improve_asset (shuffle : list CoinType → list CoinType) (owner : Address) (a : AssetSpendTarget)
    (inputs : list CoinType) : result (list CoinType) CoinsQueryError :=
  let '(collected, coins) := improve_loop (target a) (take (Z.to_nat (target_max a)) (shuffle inputs)) 0 [] in
  if decide (collected < target a) then largest_first owner a inputs else Ok coins.

(** The queries in order, the first error ends them. *)
Fixpoint random_improve (db : ReadView) (shuffle : nat → list CoinType → list CoinType) (owner : Address) (base_asset : AssetId)
    (e : Exclude) (queries : list AssetSpendTarget) : option (result (list (list CoinType)) CoinsQueryError) :=
  match queries with
  | [] => Some (Ok [])
  | a :: queries =>
      match collect_coins db (asset_query owner (target_id a) base_asset (Some e)) with
      | None => None
      | Some (Err err) => Some (Err (QueryStorageError err))
      | Some (Ok inputs) =>
          match random_improve_asset (shuffle (length queries)) owner a inputs with
          | Err err => Some (Err err)
          | Ok coins =>
              (λ r, result_bind r (λ l, Ok (coins :: l))) <$> random_improve db shuffle owner base_asset e queries
          end
      end
  end.

(** ** Selection over the index *)

Record CoinsToSpendIndexIter := {
  big_coins_iter : list (result CoinsToSpendIndexKey StorageError);
  dust_coins_iter : list (result CoinsToSpendIndexKey StorageError);
}.

(** [OffChainDatabase::coins_to_spend_index]. *)
Definition coins_to_spend_index (db : Db) (owner : Address) (asset : AssetId) : CoinsToSpendIndexIter :=
  let prefix := [NON_RETRYABLE_BYTE] ++ owner ++ asset in
  let keys dir := and_then_item (λ e, Ok e.1) <$>
    iter_table decode_index_key (λ _, Some ()) db COINS_TO_SPEND_COLUMN (Some prefix) None dir in
  {| big_coins_iter := keys Reverse; dust_coins_iter := keys Forward |}.

Definition is_excluded (k : CoinsToSpendIndexKey) (e : Exclude) : bool :=
  match k with IndexCoin _ _ _ id => contains_coin e id | IndexMessage _ _ _ _ n => contains_message e n end.

(** The total, the coins and whether there are more. *)
Fixpoint select_loop (stream : list (result CoinsToSpendIndexKey StorageError)) (max : Z) (e : Exclude)
    (predicate : CoinsToSpendIndexKey → Z → bool) (total : Z) (coins : list CoinsToSpendIndexKey) :
    result (Z * list CoinsToSpendIndexKey * bool) CoinsQueryError :=
  match stream with
  | [] => Ok (total, coins, false)
  | Err err :: _ => Err (QueryStorageError err)
  | Ok c :: stream =>
      if is_excluded c e then select_loop stream max e predicate total coins
      else if decide (max ≤ Z.of_nat (length coins)) then Ok (total, coins, true)
      else if predicate c total then Ok (total, coins, true)
      else select_loop stream max e predicate (sat_add U128 total (key_amount c)) (coins ++ [c])
  end.

Definition select_coins_until (stream : list (result CoinsToSpendIndexKey StorageError)) (max : Z) (e : Exclude)
    (predicate : CoinsToSpendIndexKey → Z → bool) : result (Z * list CoinsToSpendIndexKey * bool) CoinsQueryError :=
  select_loop stream max e predicate 0 [].

Definition big_coins (stream : list (result CoinsToSpendIndexKey StorageError)) (goal max : Z) (e : Exclude) :
    result (Z * list CoinsToSpendIndexKey * bool) CoinsQueryError :=
  select_coins_until stream max e (λ _ total_so_far, bool_decide (goal ≤ total_so_far)).

Definition dust_coins (stream : list (result CoinsToSpendIndexKey StorageError)) (last_big_coin : CoinsToSpendIndexKey)
    (max_dust_count : Z) (e : Exclude) : result (Z * list CoinsToSpendIndexKey * bool) CoinsQueryError :=
  select_coins_until stream max_dust_count e (λ c _, bool_decide (c = last_big_coin)).

Definition TOTAL_AMOUNT_ADJUSTMENT_FACTOR : Z := 2.
Definition DUST_TO_BIG_COINS_FACTOR : Z := 5.

(** [gen_range] gives a number from 0 to its argument. *)
Definition max_dust_count (gen_range : Z → Z) (max big_coins_len factor : Z) : Z :=
  let max_from_factor := sat_mul U16 big_coins_len factor in
  let max_adjusted := sat_sub max big_coins_len in
  gen_range (Z.min max_from_factor max_adjusted).

Fixpoint skip_big_coins_up_to_amount (big : list CoinsToSpendIndexKey) (skipped_amount : Z) : list CoinsToSpendIndexKey :=
  match big with
  | [] => []
  | c :: tl => if decide (key_amount c ≤ skipped_amount) then skip_big_coins_up_to_amount tl (skipped_amount - key_amount c)
               else big
  end.

Definition select_coins_to_spend (gen_range : Z → Z) (iter : CoinsToSpendIndexIter) (a : AssetSpendTarget) (e : Exclude)
    (owner : Address) : result (list CoinsToSpendIndexKey) CoinsQueryError :=
  let total := target a in
  let max := target_max a in
  if decide (total = 0 ∨ max = 0) then Ok []
  else
    let adjusted_total := sat_mul U128 total TOTAL_AMOUNT_ADJUSTMENT_FACTOR in
    result_bind (big_coins (big_coins_iter iter) adjusted_total max e) (λ '(big_total, big, has_more),
    if decide (big_total = 0 ∨ (big_total < total ∧ allow_partial a = false)) then
      if decide (max ≤ Z.of_nat (length big) ∧ has_more = true)
      then Err (MaxCoinsReached owner (target_id a) big_total max)
      else Err (InsufficientCoins owner (target_id a) big_total)
    else
      match last big with
      | None => Err (UnexpectedInternalState "at least one coin should be selected")
      | Some last_selected_big_coin =>
          if decide (Z.of_nat (length big) ≤ U16) then
            let dust_max := max_dust_count gen_range max (Z.of_nat (length big)) DUST_TO_BIG_COINS_FACTOR in
            result_bind (dust_coins (dust_coins_iter iter) last_selected_big_coin dust_max e) (λ '(dust_total, dust, _),
            Ok (skip_big_coins_up_to_amount big dust_total ++ dust))
          else Err (TooManyCoinsSelected (Z.of_nat (length big)) U16)
      end).

(** ** The query for coins to spend *)

Record SpendQueryElement := { sq_asset_id : AssetId; sq_amount : Z; sq_max : option Z; sq_allow_partial : option bool }.

Definition spend_target (max_input : Z) (q : SpendQueryElement) : AssetSpendTarget := {|
  target_id := sq_asset_id q;
  target := sq_amount q;
  target_max := Z.min (default max_input (sq_max q)) max_input;
  allow_partial := default false (sq_allow_partial q);
|}.

Definition into_coin_id (k : CoinsToSpendIndexKey) : CoinId :=
  match k with IndexCoin _ _ _ id => IdUtxo id | IndexMessage _ _ _ _ n => IdMessage n end.

Definition read_selected (db : ReadView) (id : CoinId) : result CoinType CoinsQueryError :=
  match id with
  | IdUtxo id => map_err QueryStorageError (result_bind (read_coin db id) (λ c, Ok (CtCoin c)))
  | IdMessage n =>
      result_bind (map_err QueryStorageError (read_message db n)) (λ m,
        match message_coin m with Some mc => Ok (CtMessageCoin mc) | None => Err QueryOther end)
  end.

Fixpoint coins_to_spend_with_cache (db : ReadView) (gen_range : nat → Z → Z) (owner : Address) (max_input : Z) (e : Exclude)
    (queries : list SpendQueryElement) : result (list (list CoinType)) CoinsQueryError :=
  match queries with
  | [] => Ok []
  | q :: queries =>
      result_bind (select_coins_to_spend (gen_range (length queries)) (coins_to_spend_index (off_chain db) owner (sq_asset_id q))
                     (spend_target max_input q) e owner) (λ selected,
      result_bind (try_collect (read_selected db <$> (into_coin_id <$> selected))) (λ coins,
      result_bind (coins_to_spend_with_cache db gen_range owner max_input e queries) (λ l, Ok (coins :: l))))
  end.

Definition coins_to_spend_without_cache (db : ReadView) (shuffle : nat → list CoinType → list CoinType) (owner : Address)
    (max_input : Z) (base_asset : AssetId) (e : Exclude) (queries : list SpendQueryElement) :
    option (result (list (list CoinType)) CoinsQueryError) :=
  random_improve db shuffle owner base_asset e (spend_target max_input <$> queries).

(** The first asset that comes a second time. *)
Fixpoint duplicate_asset (seen : list AssetId) (l : list SpendQueryElement) : option AssetId :=
  match l with
  | [] => None
  | q :: l => if decide (sq_asset_id q ∈ seen) then Some (sq_asset_id q) else duplicate_asset (sq_asset_id q :: seen) l
  end.

(** [CoinQuery::coins_to_spend] with [ReadView::coins_to_spend]. *)
Definition coins_to_spend (db : ReadView) (gen_range : nat → Z → Z) (shuffle : nat → list CoinType → list CoinType)
    (owner : Address) (max_input : Z) (base_asset : AssetId) (excluded : list CoinId) (queries : list SpendQueryElement) :
    option (result (list (list CoinType)) CoinsQueryError) :=
  if decide (max_input < Z.of_nat (length excluded))
  then Some (Err (TooManyExcludedId (Z.of_nat (length excluded)) max_input))
  else
    match duplicate_asset [] queries with
    | Some a => Some (Err (DuplicateAssets a))
    | None =>
        let queries := take (Z.to_nat max_input) queries in
        let e := {| coin_ids := excluded |} in
        if has_flag db CoinsToSpend
        then Some (coins_to_spend_with_cache db gen_range owner max_input e queries)
        else coins_to_spend_without_cache db shuffle owner max_input base_asset e queries
    end.
End view.
