(* ===== verification/OffChainWorker.v ===== *)
(** * The off-chain worker

    Model of the task of fuel-core/src/graphql_api/worker_service.rs: the blocks it processes
    into the off-chain database, the completed statuses and notifications it sends, its
    catch-up at the start, during which blocks come from the stream of the importer or are
    read by height, and its loop afterwards; and of the subscriptions to block heights
    (graphql_api/block_height_subscription.rs).  The importer commits a block to the on-chain
    database before it broadcasts it. *)

From stdpp Require Import prelude gmap list strings sorting.
From Stdlib Require Import ZArith Lia.
From S2P Require Import Prelude.
From S2P Require Import StorageTx.
From S2P Require Import HistoricalDb.
From S2P Require Import Database.
From S2P Require Import Tables.
From S2P Require Import Blocks.
From S2P Require Import BlockStore.
From S2P Require Import Producer.
From S2P Require Import Importer.
From S2P Require Import ExecTypes.
From S2P Require Import VmStorage.
From S2P Require Import Executor.
From S2P Require Import OffChain.
Local Open Scope Z_scope.

(** ** Subscriptions to block heights *)

(** [tx_handles]: for a height the subscribers that wait for it. *)
Record Handler := { tx_handles : list (Z * nat); current_block_height : Z }.

Definition Handler_new (h : Z) : Handler := {| tx_handles := []; current_block_height := h |}.

(** The subscribers that are woken, whose order does not matter, and the ones that keep waiting. *)
Definition notify_and_update (h : Z) (s : Handler) : list nat * Handler :=
  ((filter (λ e, e.1 ≤ h) (tx_handles s)).*2,
   {| tx_handles := filter (λ e, ¬ e.1 ≤ h) (tx_handles s); current_block_height := h |}).

(** [wait_for_block_height]: [true] when there is nothing to wait for. *)
Definition wait_for_block_height (h : Z) (subscriber : nat) (s : Handler) : bool * Handler :=
  if decide (h ≤ current_block_height s) then (true, s)
  else (false, {| tx_handles := tx_handles s ++ [(h, subscriber)]; current_block_height := current_block_height s |}).

(** ** The database *)

(** The entries of a column that get a value, in reverse order. *)
Definition inserted_entries (ch : Changes) (c : Z) : list (Key * Value) :=
  reverse (merge_sort entry_le (omap (λ '(k, op), match op with Insert v => Some (k, v) | Remove => None end)
    (map_to_list (default ∅ (ch !! c))))).

(** [iter_all::<FuelBlockIdsToHeights>(Some(Reverse))] over the changes: the heights, collected. *)
Definition off_chain_heights (l : list Changes) : result (list Z) StorageError :=
  try_fold (λ hs '(key, value),
    if decide (length key = 32%nat) then result_bind (decode_height value) (λ h, Ok (hs ++ [h])) else Err "Codec") []
    (l ≫= λ ch, inserted_entries ch FUEL_BLOCK_IDS_COLUMN).

Section worker.
Context {Signature : Type} `{FV : FuelVm} `{OC : !OffChainCodecs} `{!ChainCrypto Transaction Signature}.
Context `{!HashOrder Z} `{!HashOrder Key} `{!Postcard} `{!MetadataCodec}.
Abbreviation Import := (ImportResult Transaction Signature (TransactionExecutionStatus Receipt ProgramState) ExecutorEvent).
(** The serialization of an import result for the subscribers. *)
Context (ser_import : Import → option Value).

Definition import_height (r : Import) : Z := Blocks.height (consensus (header (entity (sealed_block r)))).

Record Task := {
  w_database : Database;
  w_settings : WorkerSettings;
  w_completed : list (TxId * Z * StoredStatus Receipt ProgramState);
  w_handler : Handler;
  w_notified : list nat;
  w_published : list Value;
}.

Inductive WorkerError :=
| WorkerStorage (e : StorageError)
| WorkerDatabase (e : DatabaseError)
| WorkerSerialization.

Definition with_database (db : Database) (w : Task) : Task := {|
  w_database := db; w_settings := w_settings w; w_completed := w_completed w; w_handler := w_handler w;
  w_notified := w_notified w; w_published := w_published w;
|}.

Definition completed (r : Import) : list (TxId * Z * StoredStatus Receipt ProgramState) :=
  (λ st, (status_id st, import_height r, from_executor_to_status (entity (sealed_block r)) (status_result st))) <$> tx_status r.

(** [Task::process_block]. *)
Definition process_block (w : Task) (r : Import) : Task * result unit WorkerError :=
  match index_block (w_settings w) r (into_transaction (rocks (data (w_database w)))) with
  | (_, Err e) => (w, Err (WorkerStorage e))
  | (t, Ok _) =>
      match commit_changes_with_height_update off_chain_heights (w_database w) (SChanges (changes t)) with
      | (db, Err e) => (with_database db w, Err (WorkerDatabase e))
      | (db, Ok _) =>
          let '(woken, handler) := notify_and_update (import_height r) (w_handler w) in
          let w := {| w_database := db; w_settings := w_settings w; w_completed := w_completed w ++ completed r;
                      w_handler := handler; w_notified := w_notified w ++ woken; w_published := w_published w |} in
          match ser_import r with
          | None => (w, Err WorkerSerialization)
          | Some raw =>
              ({| w_database := w_database w; w_settings := w_settings w; w_completed := w_completed w; w_handler := w_handler w;
                  w_notified := w_notified w; w_published := w_published w ++ [raw] |}, Ok ())
          end
      end
  end.
End worker.

(** ** Catching up and following

    The loops of the worker use this of its task. *)
Class BlockProcessor (W B E : Type) := {
  bp_process : W → B → W * result unit E;
  bp_height : W → option Z;
  bp_block_height : B → Z;
}.

Definition CATCH_UP_LIVE_BUFFER : nat := 256.

Section loops.
Context {W B E : Type} `{!BlockProcessor W B E}.

(** The order of [Option<BlockHeight>]: [None] is the least. *)
Definition option_lt (a b : option Z) : bool :=
  match a, b with
  | _, None => false
  | None, Some _ => true
  | Some a, Some b => bool_decide (a < b)
  end.

Definition raise_target (target : option Z) (height : Z) : option Z :=
  if option_lt target (Some height) then Some height else target.

Definition is_successor (off_chain_height : option Z) (height : Z) : bool :=
  match off_chain_height with Some current => bool_decide (height = sat_add U32 current 1) | None => false end.

Definition push_live (buffered : list B) (b : B) : list B :=
  if decide (CATCH_UP_LIVE_BUFFER ≤ length buffered)%nat then buffered else buffered ++ [b].

(** [enqueue_ready]: from a stream that is not closed. *)
Fixpoint enqueue_ready (stream buffered : list B) : list B * list B :=
  match stream with
  | [] => ([], buffered)
  | b :: rest =>
      if decide (CATCH_UP_LIVE_BUFFER ≤ length buffered)%nat then (stream, buffered)
      else enqueue_ready rest (push_live buffered b)
  end.

Fixpoint drop_applied (off_chain_height : option Z) (buffered : list B) : list B :=
  match buffered with
  | [] => []
  | b :: rest =>
      if negb (option_lt off_chain_height (Some (bp_block_height b))) then drop_applied off_chain_height rest else buffered
  end.

(** Why the task ended. *)
Inductive Ending :=
| Stopped
| ProcessError (e : E)
| TargetTooLow
| FetchError.

(** Where the task is: before it polls the stream, after that, waiting for a block read by
    height, in the loop after the catch-up, in its shutdown, or at its end. *)
Inductive Phase :=
| Drain
| Decide
| Fetching (off_chain_height : option Z)
| Following
| ShuttingDown
| Finished (why : Ending).

Record Worker := {
  wk_task : W;
  wk_phase : Phase;
  wk_target : option Z;
  wk_buffered : list B;
  wk_continue_on_error : bool;
  (** The blocks of the stream that were not received yet. *)
  wk_stream : list B;
  (** The blocks on chain, and how many of them were broadcast. *)
  wk_chain : list B;
  wk_broadcast : nat;
  (** The blocks that were processed, in order. *)
  wk_processed : list B;
}.

Definition with_phase (p : Phase) (s : Worker) : Worker := {|
  wk_task := wk_task s; wk_phase := p; wk_target := wk_target s; wk_buffered := wk_buffered s;
  wk_continue_on_error := wk_continue_on_error s; wk_stream := wk_stream s; wk_chain := wk_chain s;
  wk_broadcast := wk_broadcast s; wk_processed := wk_processed s;
|}.
Definition with_queues (target : option Z) (buffered stream : list B) (s : Worker) : Worker := {|
  wk_task := wk_task s; wk_phase := wk_phase s; wk_target := target; wk_buffered := buffered;
  wk_continue_on_error := wk_continue_on_error s; wk_stream := stream; wk_chain := wk_chain s;
  wk_broadcast := wk_broadcast s; wk_processed := wk_processed s;
|}.
Definition with_task (w : W) (processed : list B) (s : Worker) : Worker := {|
  wk_task := w; wk_phase := wk_phase s; wk_target := wk_target s; wk_buffered := wk_buffered s;
  wk_continue_on_error := wk_continue_on_error s; wk_stream := wk_stream s; wk_chain := wk_chain s;
  wk_broadcast := wk_broadcast s; wk_processed := processed;
|}.
Definition with_chain (chain stream : list B) (broadcast : nat) (s : Worker) : Worker := {|
  wk_task := wk_task s; wk_phase := wk_phase s; wk_target := wk_target s; wk_buffered := wk_buffered s;
  wk_continue_on_error := wk_continue_on_error s; wk_stream := stream; wk_chain := chain;
  wk_broadcast := broadcast; wk_processed := wk_processed s;
|}.

(** [run] on an error: the catch-up starts again without its buffer, the loop goes on, or the
    task stops.  A stopped catch-up ends; the loop after it has a shutdown first. *)
Definition on_error (why : Ending) (s : Worker) : Worker :=
  match wk_phase s with
  | Following => with_phase (if wk_continue_on_error s then Following else ShuttingDown) s
  | ShuttingDown => with_phase (Finished why) s
  | _ => if wk_continue_on_error s then with_phase Drain (with_queues (wk_target s) [] (wk_stream s) s)
         else with_phase (Finished why) s
  end.

(** A block is processed, and the task is then in the phase [next]. *)
Definition process (next : Phase) (b : B) (s : Worker) : Worker :=
  let '(w, r) := bp_process (wk_task s) b in
  match r with
  | Ok _ => with_phase next (with_task w (wk_processed s ++ [b]) s)
  | Err e => on_error (ProcessError e) (with_task w (wk_processed s) s)
  end.

Definition tip (s : Worker) : option Z := bp_block_height <$> last (wk_chain s).

(** The part of the loop of [catch_up] between polling the stream and awaiting a block. *)
Definition decide_next (s : Worker) : Worker :=
  let target := if option_lt (wk_target s) (tip s) then tip s else wk_target s in
  let off_chain_height := bp_height (wk_task s) in
  if option_lt target off_chain_height then on_error TargetTooLow (with_queues target (wk_buffered s) (wk_stream s) s)
  else
    let buffered := drop_applied off_chain_height (wk_buffered s) in
    let s' := with_queues target buffered (wk_stream s) s in
    match buffered with
    | [] => if decide (target = off_chain_height) then with_phase Following s' else with_phase (Fetching off_chain_height) s'
    | b :: rest =>
        if is_successor off_chain_height (bp_block_height b)
        then process Drain b (with_queues (raise_target target (bp_block_height b)) rest (wk_stream s) s)
        else with_phase (Fetching off_chain_height) s'
    end.

(** The block that is read by height: the genesis block, or the one after the height. *)
Definition block_event_at_height (off_chain_height : option Z) (chain : list B) : option B :=
  match off_chain_height with
  | None => head chain
  | Some h => snd <$> list_find (λ b, bp_block_height b = sat_add U32 h 1) chain
  end.

(** The loop of [catch_up]. *)
Inductive catch_up_step : Worker → Worker → Prop :=
| step_drain s stream buffered :
    wk_phase s = Drain → enqueue_ready (wk_stream s) (wk_buffered s) = (stream, buffered) →
    catch_up_step s (with_phase Decide (with_queues (wk_target s) buffered stream s))
| step_decide s : wk_phase s = Decide → catch_up_step s (decide_next s)
| step_fetched s h :
    wk_phase s = Fetching h →
    catch_up_step s (match block_event_at_height h (wk_chain s) with
                   | Some b => process Drain b s
                   | None => on_error FetchError s
                   end)
| step_live s h b stream :
    wk_phase s = Fetching h → wk_stream s = b :: stream →
    catch_up_step s
      (if is_successor h (bp_block_height b)
       then process Drain b (with_queues (raise_target (wk_target s) (bp_block_height b)) (wk_buffered s) stream s)
       else with_queues (wk_target s) (push_live (wk_buffered s) b) stream s).

Inductive worker_step : Worker → Worker → Prop :=
(** The importer commits a block, then broadcasts it. *)
| step_commit s b :
    tip s = Some (bp_block_height b - 1) → bp_block_height b ≤ U32 →
    worker_step s (with_chain (wk_chain s ++ [b]) (wk_stream s) (wk_broadcast s) s)
| step_broadcast s b :
    wk_chain s !! wk_broadcast s = Some b →
    worker_step s (with_chain (wk_chain s) (wk_stream s ++ [b]) (S (wk_broadcast s)) s)
| step_catch_up s s' : catch_up_step s s' → worker_step s s'
(** The loop of [run] after it. *)
| step_follow s b stream :
    wk_phase s = Following → wk_stream s = b :: stream →
    worker_step s (process Following b (with_queues (wk_target s) (wk_buffered s) stream s))
(** The service is stopped; the blocks left in the stream are processed if the catch-up is over. *)
| step_stop s :
    (∀ why, wk_phase s ≠ Finished why) → wk_phase s ≠ ShuttingDown →
    worker_step s (with_phase (match wk_phase s with Following => ShuttingDown | _ => Finished Stopped end) s)
| step_shutdown s :
    wk_phase s = ShuttingDown →
    worker_step s (match wk_stream s with
                   | b :: stream => process ShuttingDown b (with_queues (wk_target s) (wk_buffered s) stream s)
                   | [] => with_phase (Finished Stopped) s
                   end).

(** A worker that starts on a chain whose first [subscribed] blocks were broadcast before it
    subscribed to the importer. *)
Definition started (w : W) (continue_on_error : bool) (chain : list B) (subscribed : nat) : Worker := {|
  wk_task := w; wk_phase := Drain; wk_target := bp_block_height <$> last chain; wk_buffered := [];
  wk_continue_on_error := continue_on_error; wk_stream := []; wk_chain := chain; wk_broadcast := subscribed; wk_processed := [];
|}.
End loops.
Arguments Ending : clear implicits.
Arguments Phase : clear implicits.
Arguments Worker : clear implicits.
