(* ===== verification/OffChainWorkerFacts.v ===== *)
(** * Facts about the off-chain worker

    Whatever the order in which blocks are committed, broadcast and read, the worker processes
    the blocks of the chain in their order, none twice and none left out; it catches up with the
    chain; and what it does with one block is one commit of the off-chain database. *)

From stdpp Require Import prelude gmap list strings sorting relations.
From Stdlib Require Import ZArith Lia.
From S2P Require Import Prelude.
From S2P Require Import StorageTx.
From S2P Require Import HistoricalDb.
From S2P Require Import HistoricalDbFacts.
From S2P Require Import Database.
From S2P Require Import DatabaseFacts.
From S2P Require Import Tables.
From S2P Require Import Blocks.
From S2P Require Import BlockStore.
From S2P Require Import Producer.
From S2P Require Import Importer.
From S2P Require Import ChainFacts.
From S2P Require Import ExecTypes.
From S2P Require Import VmStorage.
From S2P Require Import Executor.
From S2P Require Import OffChain.
From S2P Require Import OffChainFacts.
From S2P Require Import OffChainWorker.
Local Open Scope Z_scope.

(** ** The loops *)

(** A block is taken only at the next height; a refused block leaves the height. *)
Class BlockProcessorLaws (W B E : Type) `{!BlockProcessor W B E} : Prop := {
  bp_ok w b w' : bp_process w b = (w', Ok ()) →
    bp_height w' = Some (bp_block_height b) ∧ (bp_height w = None ∨ bp_height w = Some (bp_block_height b - 1));
  bp_err w b w' e : bp_process w b = (w', Err e) → bp_height w' = bp_height w;
}.

Section loops.
Context {W B E : Type} `{!BlockProcessor W B E} `{!BlockProcessorLaws W B E} (g : Z).
Implicit Types (s : Worker W B E) (chain : list B).

(** A chain has one block for every height from its first one. *)
Record linked chain : Prop := {
  lk_genesis : 0 ≤ g;
  lk_height i b : chain !! i = Some b → bp_block_height b = g + Z.of_nat i;
  lk_bound : g + Z.of_nat (length chain) ≤ U32 + 1;
}.

(** The height after [n] blocks. *)
Definition height_after (n : nat) : option Z := match n with O => None | S n => Some (g + Z.of_nat n) end.

(** The height is not above the chain. *)
Definition on_chain (h : option Z) chain : Prop := ∀ x, h = Some x → x < g + Z.of_nat (length chain).

(** From the block [m] on, the blocks of the chain are processed one after the other. *)
Record in_order (m : nat) s : Prop := {
  io_linked : linked (wk_chain s);
  io_nonempty : wk_chain s ≠ [];
  io_length : (m + length (wk_processed s) ≤ length (wk_chain s))%nat;
  io_processed : wk_processed s = take (length (wk_processed s)) (drop m (wk_chain s));
  io_height : bp_height (wk_task s) = height_after (m + length (wk_processed s));
  io_sources b : b ∈ wk_buffered s ++ wk_stream s → b ∈ wk_chain s;
  io_target : on_chain (wk_target s) (wk_chain s);
  io_fetching h : wk_phase s = Fetching h → h = bp_height (wk_task s);
  io_following : wk_phase s = Following ∨ wk_phase s = ShuttingDown → bp_height (wk_task s) ≠ None;
}.

Lemma linked_at chain b n :
  linked chain → b ∈ chain → bp_block_height b = g + Z.of_nat n → chain !! n = Some b.
Proof.
  intros [_ Hh _] Hb He. apply list_elem_of_lookup in Hb as [i Hi]. specialize (Hh _ _ Hi).
  assert (i = n) as -> by lia. done.
Qed.

Lemma in_on_chain chain b : linked chain → b ∈ chain → on_chain (Some (bp_block_height b)) chain.
Proof.
  intros [_ Hh _] [i Hi]%list_elem_of_lookup x [= <-]. specialize (Hh _ _ Hi). apply lookup_lt_Some in Hi. lia.
Qed.

Lemma tip_at chain : linked chain → chain ≠ [] → bp_block_height <$> last chain = height_after (length chain).
Proof.
  intros [_ Hh _] Hne. destruct chain as [|b l _] using rev_ind; [done|]. rewrite last_snoc, length_app, Nat.add_1_r. simpl. f_equal.
  apply Hh. by rewrite lookup_app_r, Nat.sub_diag by lia.
Qed.

Lemma height_after_on_chain n chain : (n ≤ length chain)%nat → on_chain (height_after n) chain.
Proof. intros Hn x. destruct n; [done|]. simpl. intros [= <-]. lia. Qed.

Lemma linked_snoc chain b :
  linked chain → chain ≠ [] → bp_block_height <$> last chain = Some (bp_block_height b - 1) → bp_block_height b ≤ U32 →
  linked (chain ++ [b]).
Proof.
  intros [Hg Hh Hb] Hne Ht Hmax. destruct (last chain) as [l|] eqn:Hl; [|done]. injection Ht as Ht.
  rewrite last_lookup in Hl. apply Hh in Hl. assert (length chain ≠ 0%nat) by (by destruct chain).
  split; [done| |rewrite length_app; simpl; lia]. intros i x. rewrite lookup_app.
  destruct (chain !! i) as [y|] eqn:Hy; [intros [= <-]; by apply Hh|]. apply lookup_ge_None in Hy.
  intros Hi. apply list_lookup_singleton_Some in Hi as [Hi <-]. lia.
Qed.

(** The next block extends what was processed. *)
Lemma processed_next m s b n :
  in_order m s → n = (m + length (wk_processed s))%nat → wk_chain s !! n = Some b →
  wk_processed s ++ [b] = take (length (wk_processed s ++ [b])) (drop m (wk_chain s)).
Proof.
  intros Hio -> Hb. rewrite length_app, Nat.add_1_r. erewrite take_S_r; [by rewrite <- (io_processed _ _ Hio)|].
  by rewrite lookup_drop.
Qed.

(** The fields that the rest of the state does not use. *)
Lemma in_order_with m s phase target buffered stream :
  in_order m s → (∀ b, b ∈ buffered ++ stream → b ∈ wk_chain s) → on_chain target (wk_chain s) →
  (∀ h, phase = Fetching h → h = bp_height (wk_task s)) →
  (phase = Following ∨ phase = ShuttingDown → bp_height (wk_task s) ≠ None) →
  in_order m (with_phase phase (with_queues target buffered stream s)).
Proof. intros [] ? ? ? ?. by split. Qed.

Lemma in_order_queues m s target buffered stream :
  in_order m s → (∀ b, b ∈ buffered ++ stream → b ∈ wk_chain s) → on_chain target (wk_chain s) →
  in_order m (with_queues target buffered stream s).
Proof. intros [] ? ?. by split. Qed.

Lemma in_order_phase m s phase :
  in_order m s → (∀ h, phase = Fetching h → h = bp_height (wk_task s)) →
  (phase = Following ∨ phase = ShuttingDown → bp_height (wk_task s) ≠ None) → in_order m (with_phase phase s).
Proof. intros [] ? ?. by split. Qed.

Lemma on_error_in_order m s why : in_order m s → in_order m (on_error why s).
Proof.
  intros Hio. unfold on_error. pose proof (io_sources _ _ Hio) as Hs. pose proof (io_following _ _ Hio) as Hf.
  destruct (wk_phase s) eqn:Hp; try destruct (wk_continue_on_error s);
    (apply in_order_with || apply in_order_phase); try done; try apply Hio; try naive_solver; intros b Hb; apply Hs; set_solver.
Qed.

Lemma process_in_order m s b next :
  in_order m s → b ∈ wk_chain s → (bp_height (wk_task s) = None → head (wk_chain s) = Some b) →
  (∀ h, next ≠ Fetching h) → in_order m (process next b s).
Proof using Type*.
  intros Hio Hb Hnone Hnext. unfold process. destruct (bp_process (wk_task s) b) as [w [[]|e]] eqn:Hp.
  2: { apply on_error_in_order. apply bp_err in Hp. destruct Hio as [? ? ? ? Hh ? ? Hf Hfo].
       split; simpl; try done; intros; rewrite Hp; auto. }
  apply bp_ok in Hp as [Hw Hprev]. pose proof (io_height _ _ Hio) as Hh. pose proof (io_linked _ _ Hio) as Hl.
  set (n := (m + length (wk_processed s))%nat) in *. assert (wk_chain s !! n = Some b) as Hn.
  { destruct Hprev as [He|He]; rewrite He in Hh.
    - destruct n as [|n]; [|done]. specialize (Hnone He). by rewrite head_lookup in Hnone.
    - destruct n as [|n]; [done|]. injection Hh as Hh. apply linked_at; [done|done|lia]. }
  split; simpl; try apply Hio.
  - rewrite length_app. simpl. apply lookup_lt_Some in Hn. lia.
  - by eapply processed_next.
  - rewrite Hw, length_app. simpl. rewrite Nat.add_1_r, Nat.add_succ_r. fold n. simpl. f_equal. by apply (lk_height _ Hl).
  - intros h Hf. by destruct (Hnext h).
  - intros _. by rewrite Hw.
Qed.

Lemma enqueue_ready_in (stream : list B) : ∀ buffered stream' buffered' b,
  enqueue_ready stream buffered = (stream', buffered') → b ∈ buffered' ++ stream' → b ∈ buffered ++ stream.
Proof.
  induction stream as [|x stream IH]; intros buffered stream' buffered' b; simpl; [by intros [= <- <-]|].
  case_decide; [by intros [= <- <-]|]. intros Hq Hb. apply (IH _ _ _ _ Hq) in Hb. unfold push_live in Hb. case_decide; set_solver.
Qed.

Lemma drop_applied_suffix h (l : list B) : drop_applied h l `suffix_of` l.
Proof. induction l as [|b l IH]; simpl; [done|]. destruct (negb _); [by apply suffix_cons_r|done]. Qed.

Lemma drop_applied_head h (l : list B) b rest : drop_applied h l = b :: rest → option_lt h (Some (bp_block_height b)) = true.
Proof. induction l as [|x l IH]; simpl; [done|]. destruct (option_lt h (Some (bp_block_height x))) eqn:Hlt; simpl; [|exact IH]. by intros [= -> ->]. Qed.

Lemma successor_known (h : option Z) n : is_successor h n = true → h ≠ None.
Proof. by destruct h. Qed.

Lemma raise_on_chain chain t b :
  linked chain → b ∈ chain → on_chain t chain → on_chain (raise_target t (bp_block_height b)) chain.
Proof. intros Hl Hb Ht. unfold raise_target. case_match; [|done]. by apply in_on_chain. Qed.

Lemma decide_in_order m s : in_order m s → wk_phase s = Decide → in_order m (decide_next s).
Proof using Type*.
  intros Hio Hp. unfold decide_next. pose proof (io_sources _ _ Hio) as Hs.
  set (target := if option_lt (wk_target s) (tip s) then tip s else wk_target s).
  pose proof (tip_at _ (io_linked _ _ Hio) (io_nonempty _ _ Hio)) as Htip. change (tip s = height_after (length (wk_chain s))) in Htip.
  assert (on_chain target (wk_chain s)) as Htg.
  { unfold target. case_match; [|apply Hio]. rewrite Htip. by apply height_after_on_chain. }
  case_match eqn:Hlow; [apply on_error_in_order; destruct Hio; by split|].
  pose proof (drop_applied_suffix (bp_height (wk_task s)) (wk_buffered s)) as [pre Hpre].
  destruct (drop_applied _ _) as [|b rest] eqn:Hd.
  - case_decide as Ht; apply in_order_with; try done; [set_solver| |set_solver|naive_solver|naive_solver].
    intros _. rewrite <- Ht. unfold target. rewrite Htip. pose proof (io_nonempty _ _ Hio).
    destruct (wk_chain s); [done|]. simpl. destruct (wk_target s) as [t|]; simpl; [by destruct (bool_decide _)|done].
  - assert (∀ t l, (∀ x, x ∈ l → x ∈ b :: rest) → on_chain t (wk_chain s) → in_order m (with_queues t l (wk_stream s) s)) as Hq'.
    { intros t l Hl Ht. destruct Hio. split; simpl; try done. intros x. rewrite elem_of_app. intros [Hx|Hx]; apply Hs; [|set_solver].
      apply Hl in Hx. rewrite Hpre. set_solver. }
    case_match eqn:Hsucc.
    + assert (b ∈ wk_chain s) as Hb by (apply Hs; rewrite Hpre; set_solver).
      apply process_in_order; [apply Hq'; [set_solver|apply raise_on_chain; [apply Hio|done|done]]|done| |done].
      intros Hn. simpl in Hn. by apply successor_known in Hsucc.
    + apply in_order_phase; [apply Hq'; set_solver|by intros h [= <-]|naive_solver].
Qed.

Lemma catch_up_in_order m s s' : catch_up_step s s' → in_order m s → in_order m s'.
Proof using Type*.
  intros Hstep Hio. pose proof (io_sources _ _ Hio) as Hs. destruct Hstep as [s stream buffered Hp Hq|s Hp|s h Hp|s h b stream Hp Hst].
  - apply in_order_with; [done| |apply Hio|done|naive_solver]. intros b Hb. apply Hs. by eapply enqueue_ready_in.
  - by apply decide_in_order.
  - pose proof (io_fetching _ _ Hio h Hp) as ->. destruct (block_event_at_height _ _) as [b|] eqn:Hb; [|by apply on_error_in_order].
    unfold block_event_at_height in Hb. apply process_in_order; [done| | |done].
    + destruct (bp_height (wk_task s)) as [x|].
      * destruct (list_find _ _) as [[i y]|] eqn:Hf; [|done]. injection Hb as <-.
        apply list_find_Some in Hf as (Hi & _). by eapply list_elem_of_lookup_2.
      * destruct (wk_chain s); [done|]. injection Hb as ->. by left.
    + intros Hn. by rewrite Hn in Hb.
  - pose proof (io_fetching _ _ Hio h Hp) as ->.
    assert (∀ x, x ∈ wk_buffered s ++ stream → x ∈ wk_chain s) as Hs' by (intros x Hx; apply Hs; rewrite Hst; set_solver).
    case_match eqn:Hsucc.
    + apply process_in_order; [|apply Hs; rewrite Hst; set_solver| |done].
      * pose proof (raise_on_chain _ (wk_target s) b (io_linked _ _ Hio)) as Hr. destruct Hio. split; simpl; try done.
        apply Hr; [apply Hs; rewrite Hst; set_solver|done].
      * intros Hn. simpl in Hn. by apply successor_known in Hsucc.
    + destruct Hio. split; simpl; try done. intros x Hx. unfold push_live in Hx. apply Hs. rewrite Hst. case_decide; set_solver.
Qed.

Lemma step_in_order m s s' : worker_step s s' → in_order m s → in_order m s'.
Proof using Type*.
  intros Hstep Hio. pose proof (io_sources _ _ Hio) as Hs. destruct Hstep as [s b Ht Hmax|s b Hb|s s' Hstep|s b stream Hp Hst|s Hn1 Hn2|s Hp].
  - destruct Hio as [Hl Hne Hlen Hpr Hh Hsrc Htg Hfe Hfo]. split; simpl; try done.
    + by apply linked_snoc.
    + by destruct (wk_chain s).
    + rewrite length_app. lia.
    + rewrite drop_app_le, take_app_le by (rewrite ?length_drop; lia). done.
    + intros x Hx. apply elem_of_app. left. by apply Hsrc.
    + intros x Hx. apply Htg in Hx. rewrite length_app. lia.
  - destruct Hio as [Hl Hne Hlen Hpr Hh Hsrc Htg Hfe Hfo]. split; simpl; try done.
    intros x. rewrite app_assoc, elem_of_app. intros [Hx|Hx]; [by apply Hsrc|]. apply list_elem_of_singleton in Hx as ->.
    by eapply list_elem_of_lookup_2.
  - by eapply catch_up_in_order.
  - apply process_in_order; [|apply Hs; rewrite Hst; set_solver| |done].
    + destruct Hio. split; simpl; try done. intros x Hx. apply Hs. rewrite Hst. set_solver.
    + intros Hn. destruct (io_following _ _ Hio (or_introl Hp)). done.
  - pose proof (io_following _ _ Hio) as Hf. apply in_order_phase; [done|by destruct (wk_phase s)|].
    destruct (wk_phase s); naive_solver.
  - destruct (wk_stream s) as [|b stream] eqn:Hst; [apply in_order_phase; [done|done|naive_solver]|].
    apply process_in_order; [|apply Hs; set_solver| |done].
    + destruct Hio. split; simpl; try done. intros x Hx. apply Hs. set_solver.
    + intros Hn. destruct (io_following _ _ Hio (or_intror Hp)). done.
Qed.

Lemma reached_in_order m s s' : rtc worker_step s s' → in_order m s → in_order m s'.
Proof using Type*. induction 1; [done|]. eauto using step_in_order. Qed.

Lemma started_in_order w c chain k m :
  linked chain → chain ≠ [] → (m ≤ length chain)%nat → bp_height w = height_after m → in_order m (started w c chain k).
Proof.
  intros Hl Hne Hm Hh. split; simpl; try done; [lia|by rewrite Nat.add_0_r|set_solver| |naive_solver].
  rewrite tip_at by done. by apply height_after_on_chain.
Qed.

(** *** The catch-up ends *)

(** The next block of a chain, read by height or received. *)
Lemma fetched_next (c : list B) n : linked c → (n < length c)%nat → block_event_at_height (height_after n) c = c !! n.
Proof using Type.
  intros Hl Hn. destruct (lookup_lt_is_Some_2 _ _ Hn) as [b Hb]. rewrite Hb. destruct n as [|n]; simpl; [by rewrite head_lookup|].
  destruct (list_find _ _) as [[i y]|] eqn:Hf; simpl.
  - apply list_find_Some in Hf as (Hi & Hy & _). pose proof (lk_height _ Hl _ _ Hi). pose proof (lk_bound _ Hl).
    apply lookup_lt_Some in Hi as Hi'. unfold sat_add in Hy. assert (i = S n) as -> by lia. congruence.
  - apply list_find_None in Hf. rewrite Forall_forall in Hf. destruct (Hf b); [by eapply list_elem_of_lookup_2|].
    pose proof (lk_height _ Hl _ _ Hb). pose proof (lk_bound _ Hl). unfold sat_add. lia.
Qed.

Lemma successor_next (c : list B) n b : linked c → (n < length c)%nat → b ∈ c → is_successor (height_after n) (bp_block_height b) = true →
  c !! n = Some b.
Proof using Type.
  intros Hl Hn Hb Hs. destruct n as [|n]; [done|]. simpl in Hs. apply bool_decide_eq_true in Hs.
  pose proof (lk_bound _ Hl). unfold sat_add in Hs. apply list_elem_of_lookup in Hb as [i Hi].
  pose proof (lk_height _ Hl _ _ Hi). apply lookup_lt_Some in Hi as Hi'. assert (i = S n) as -> by lia. done.
Qed.

(** A run of the catch-up with [n] steps of its loop, during which [k] blocks are broadcast and
    any number of blocks are committed. *)
Inductive catch_up_run : nat → nat → Worker W B E → Worker W B E → Prop :=
| run_refl s : catch_up_run 0 0 s s
| run_step n k s s1 s' : catch_up_step s s1 → catch_up_run n k s1 s' → catch_up_run (S n) k s s'
| run_commit n k s b s' :
    tip s = Some (bp_block_height b - 1) → bp_block_height b ≤ U32 →
    catch_up_run n k (with_chain (wk_chain s ++ [b]) (wk_stream s) (wk_broadcast s) s) s' → catch_up_run n k s s'
| run_broadcast n k s b s' :
    wk_chain s !! wk_broadcast s = Some b →
    catch_up_run n k (with_chain (wk_chain s) (wk_stream s ++ [b]) (S (wk_broadcast s)) s) s' → catch_up_run n (S k) s s'.

Lemma run_reached n k s s' : catch_up_run n k s s' → rtc worker_step s s'.
Proof using Type.
  induction 1; [done|..]; (eapply rtc_l; [|eassumption]); [by apply step_catch_up|by apply step_commit|by apply step_broadcast].
Qed.

Lemma nsteps_run n s s' : nsteps catch_up_step n s s' → catch_up_run n 0 s s'.
Proof using Type. induction 1; [constructor|by eapply run_step]. Qed.

(** The rest of the worker does not change. *)
Definition same_frame (s s' : Worker W B E) : Prop :=
  wk_continue_on_error s' = wk_continue_on_error s ∧ wk_chain s' = wk_chain s ∧ wk_broadcast s' = wk_broadcast s ∧
  wk_stream s' = wk_stream s.

Lemma on_error_frame e s : same_frame s (on_error e s).
Proof using Type. unfold same_frame, on_error. repeat case_match; simpl; auto. Qed.

Lemma process_frame next b s : same_frame s (process next b s).
Proof using Type.
  unfold process. destruct (bp_process _ _) as [w [[]|e]]; [done|]. apply (on_error_frame _ (with_task w (wk_processed s) s)).
Qed.

Lemma decide_next_frame s : same_frame s (decide_next s).
Proof using Type.
  unfold decide_next. cbv zeta. destruct (option_lt _ (bp_height _)); [apply (on_error_frame _ (with_queues _ _ _ s))|].
  destruct (drop_applied _ _) as [|b rest]; [by case_decide|]. destruct (is_successor _ _); [|done].
  apply (process_frame _ _ (with_queues _ _ _ s)).
Qed.

Lemma catch_up_chain s s' : catch_up_step s s' → wk_chain s' = wk_chain s.
Proof using Type.
  intros Hstep. destruct Hstep as [s stream buffered Hp Hq|s Hp|s h Hp|s h b stream Hp Hst']; [done|apply decide_next_frame|..].
  - destruct (block_event_at_height _ _) as [b|]; [apply process_frame|apply on_error_frame].
  - destruct (is_successor _ _); [|done]. apply (process_frame _ _ (with_queues _ _ _ s)).
Qed.

Lemma run_chain n k s s' : catch_up_run n k s s' → wk_chain s `prefix_of` wk_chain s'.
Proof using Type.
  induction 1 as [|n k s s1 s' Hs _ IH|n k s b s' _ _ _ IH|n k s b s' _ _ IH]; [done| | |exact IH].
  - by rewrite (catch_up_chain _ _ Hs) in IH.
  - etrans; [|exact IH]. by apply prefix_app_r.
Qed.

(** The chain has the blocks [base] when the catch-up begins and grows to [chain] at most.  The
    processor takes its blocks: what [good] says holds before each of them. *)
Context (good : nat → W → Prop) (base chain : list B).
Context (good_next : ∀ n w b, good n w → chain !! n = Some b → ∃ w', bp_process w b = (w', Ok ()) ∧ good (S n) w').

Definition done_blocks (m : nat) s : nat := m + length (wk_processed s).

Record catching_up (m : nat) s : Prop := {
  cu_order : in_order m s;
  cu_base : base `prefix_of` wk_chain s;
  cu_chain : wk_chain s `prefix_of` chain;
  cu_good : good (done_blocks m s) (wk_task s);
  cu_phase : match wk_phase s with
             | Drain | Decide => True
             | Fetching _ => (done_blocks m s < length (wk_chain s))%nat
             | Following => (length base ≤ done_blocks m s)%nat
             | _ => False
             end;
}.

(** What is left to do. *)
Definition to_do (m : nat) s : nat :=
  4 * (length chain - done_blocks m s) + length (wk_stream s) + match wk_phase s with Drain => 2 | Decide => 1 | _ => 0 end.

Lemma catching_up_process m s n b :
  in_order m s → base `prefix_of` wk_chain s → wk_chain s `prefix_of` chain → good (done_blocks m s) (wk_task s) →
  n = done_blocks m s → wk_chain s !! n = Some b →
  catching_up m (process Drain b s) ∧ (to_do m (process Drain b s) + 2 ≤ 4 * (length chain - n) + length (wk_stream s))%nat.
Proof using Type*.
  intros Hio Hba Hc Hg -> Hb. pose proof (prefix_lookup_Some _ _ _ _ Hb Hc) as Hb'.
  pose proof (good_next _ _ _ Hg Hb') as (w' & Hp & Hg').
  assert (in_order m (process Drain b s)) as Hio'.
  { apply process_in_order; [done|by eapply list_elem_of_lookup_2| |done].
    rewrite head_lookup, (io_height _ _ Hio). fold (done_blocks m s). by destruct (done_blocks m s). }
  revert Hio'. unfold process. rewrite Hp. intros Hio'.
  assert (done_blocks m (with_phase Drain (with_task w' (wk_processed s ++ [b]) s)) = S (done_blocks m s)) as Hd.
  { unfold done_blocks. simpl. rewrite length_app. simpl. lia. }
  split; [split; [done|done|done|by rewrite Hd|done]|]. apply lookup_lt_Some in Hb'. unfold to_do. rewrite Hd. simpl. lia.
Qed.

(** The target of the loop is the tip of the chain as it is. *)
Lemma target_is_tip m s : in_order m s →
  (if option_lt (wk_target s) (tip s) then tip s else wk_target s) = height_after (length (wk_chain s)).
Proof using Type.
  intros Hio. pose proof (io_target _ _ Hio) as Htg. pose proof (io_nonempty _ _ Hio) as Hne.
  unfold tip. rewrite (tip_at _ (io_linked _ _ Hio) Hne). destruct (length (wk_chain s)) as [|k] eqn:Hk; [by destruct (wk_chain s)|].
  simpl. destruct (wk_target s) as [t|]; [|done]. simpl. case_bool_decide; [done|]. f_equal. specialize (Htg t eq_refl).
  rewrite Hk in Htg. lia.
Qed.

Lemma catching_up_decide m s : catching_up m s → wk_phase s = Decide → catching_up m (decide_next s) ∧ (to_do m (decide_next s) < to_do m s)%nat.
Proof using Type*.
  intros Hcu Hp. pose proof (decide_in_order m s (cu_order _ _ Hcu) Hp) as Hio'. revert Hio'.
  destruct Hcu as [Hio Hba Hc Hg _]. pose proof (io_linked _ _ Hio) as Hl.
  pose proof (io_length _ _ Hio) as Hlen. fold (done_blocks m s) in Hlen. pose proof (io_nonempty _ _ Hio) as Hne.
  unfold decide_next. rewrite (target_is_tip m s Hio), (io_height _ _ Hio). fold (done_blocks m s).
  assert (option_lt (height_after (length (wk_chain s))) (height_after (done_blocks m s)) = false) as ->.
  { destruct (done_blocks m s), (length (wk_chain s)); simpl; try done; [lia|]. apply bool_decide_eq_false. lia. }
  pose proof (drop_applied_suffix (height_after (done_blocks m s)) (wk_buffered s)) as [pre Hpre].
  pose proof (drop_applied_head (height_after (done_blocks m s)) (wk_buffered s)) as Hhd.
  destruct (drop_applied _ _) as [|b rest] eqn:Hd.
  - case_decide as Ht; intros Hio'; (split; [split; [done|done|done|done|simpl]|unfold to_do; rewrite Hp; unfold done_blocks; simpl; lia]).
    + apply prefix_length in Hba. destruct (length (wk_chain s)), (done_blocks m s) eqn:Hk; unfold done_blocks in *; simpl in *; simplify_eq; lia.
    + unfold done_blocks in *. simpl. destruct (decide (m + length (wk_processed s) = length (wk_chain s))%nat) as [He|]; [by rewrite He in Ht|lia].
  - assert (b ∈ wk_chain s) as Hb by (apply (io_sources _ _ Hio); rewrite Hpre; set_solver).
    assert (done_blocks m s < length (wk_chain s))%nat as Hlt.
    { pose proof (in_on_chain _ _ Hl Hb _ eq_refl). destruct (done_blocks m s) eqn:Hk; [destruct (wk_chain s); simpl; [done|lia]|].
      specialize (Hhd _ _ eq_refl). simpl in Hhd. apply bool_decide_eq_true in Hhd. lia. }
    case_match eqn:Hsucc; intros Hio'.
    2: split; [split; [done|done|done|done|done]|unfold to_do; rewrite Hp; unfold done_blocks; simpl; lia].
    destruct (catching_up_process m (with_queues (raise_target (height_after (length (wk_chain s))) (bp_block_height b)) rest (wk_stream s) s)
      (done_blocks m s) b) as (Hcu' & Hle); [|done|done|done|done|by apply successor_next|].
    { apply in_order_queues; [done| |].
      - intros x Hx. apply (io_sources _ _ Hio). rewrite Hpre. set_solver.
      - eapply raise_on_chain; [done|done|]. by apply height_after_on_chain. }
    split; [done|]. unfold to_do at 2. rewrite Hp. simpl in Hle. lia.
Qed.

Lemma enqueue_ready_shorter (stream : list B) : ∀ buffered stream' buffered',
  enqueue_ready stream buffered = (stream', buffered') → (length stream' ≤ length stream)%nat.
Proof using Type.
  induction stream as [|x stream IH]; intros buffered stream' buffered'; simpl; [by intros [= <- <-]|].
  case_decide; [by intros [= <- <-]|]. intros Hq%IH. lia.
Qed.

Lemma catching_up_step m s s' : catch_up_step s s' → catching_up m s → catching_up m s' ∧ (to_do m s' < to_do m s)%nat.
Proof using Type*.
  intros Hstep Hcu. pose proof (catch_up_in_order m _ _ Hstep (cu_order _ _ Hcu)) as Hio'.
  pose proof Hcu as [Hio Hba Hc Hg Hph]. pose proof (io_linked _ _ Hio) as Hl.
  pose proof (io_height _ _ Hio) as Hh. fold (done_blocks m s) in Hh.
  destruct Hstep as [s stream buffered Hp Hq|s Hp|s h Hp|s h b stream Hp Hst].
  - apply enqueue_ready_shorter in Hq. split; [by split|]. unfold to_do. rewrite Hp. unfold done_blocks. simpl. lia.
  - by apply catching_up_decide.
  - rewrite Hp in Hph. pose proof (io_fetching _ _ Hio h Hp) as ->. rewrite Hh, fetched_next by done.
    destruct (lookup_lt_is_Some_2 _ _ Hph) as [b Hb]. rewrite Hb.
    destruct (catching_up_process m s _ b Hio Hba Hc Hg eq_refl Hb) as (Hcu' & Hle). split; [done|].
    unfold to_do at 2. rewrite Hp. lia.
  - rewrite Hp in Hph. pose proof (io_fetching _ _ Hio h Hp) as ->.
    assert (b ∈ wk_chain s) as Hb by (apply (io_sources _ _ Hio); rewrite Hst; set_solver).
    destruct (is_successor _ _) eqn:Hsucc; [|split; [split; [done|done|done|done|by simpl; rewrite Hp]|]].
    2: { unfold to_do, done_blocks. simpl. rewrite Hst, Hp. simpl. lia. }
    rewrite Hh in Hsucc. apply (successor_next (wk_chain s)) in Hsucc; [|done..].
    destruct (catching_up_process m (with_queues (raise_target (wk_target s) (bp_block_height b)) (wk_buffered s) stream s)
      (done_blocks m s) b) as (Hcu' & Hle); [|done|done|done|done|done|].
    { apply in_order_queues; [done| |].
      - intros x Hx. apply (io_sources _ _ Hio). rewrite Hst. set_solver.
      - apply raise_on_chain; [done|done|]. apply Hio. }
    split; [done|]. unfold to_do at 2. rewrite Hst, Hp. simpl in *. lia.
Qed.

(** Along a run, whose end has the last blocks of the chain. *)
Lemma catching_up_run m n k s s' : catch_up_run n k s s' → wk_chain s' = chain → catching_up m s →
  catching_up m s' ∧ (n + to_do m s' ≤ to_do m s + k)%nat.
Proof using Type*.
  induction 1 as [s|n k s s1 s' Hs Hr IH|n k s b s' Ht Hmax Hr IH|n k s b s' Hb Hr IH]; intros Hch Hcu; [split; [done|lia]|..].
  - destruct (catching_up_step m _ _ Hs Hcu) as [Hcu1 Hlt]. destruct (IH Hch Hcu1) as [Hcu2 Hle]. split; [done|lia].
  - apply IH; [done|]. pose proof (step_in_order m _ _ (step_commit s b Ht Hmax) (cu_order _ _ Hcu)) as Hio.
    apply run_chain in Hr. simpl in Hr. destruct Hcu as [_ Hba _ Hg Hph].
    split; [done|by apply prefix_app_r|by rewrite <- Hch|done|]. simpl. destruct (wk_phase s); try done. rewrite length_app. unfold done_blocks in *. simpl. lia.
  - destruct IH as [Hcu' Hle]; [done|..].
    + pose proof (step_in_order m _ _ (step_broadcast s b Hb) (cu_order _ _ Hcu)) as Hio. destruct Hcu. by split.
    + split; [done|]. unfold to_do in Hle |- *. simpl in Hle. unfold done_blocks in *. simpl in *. rewrite length_app in Hle. simpl in Hle. lia.
Qed.

(** The loop can go on until it follows the chain. *)
Lemma catching_up_moves m s : catching_up m s → wk_phase s = Following ∨ ∃ s', catch_up_step s s'.
Proof using Type.
  intros [_ _ _ _ Hp]. destruct (wk_phase s) eqn:He; try done; [| | |by left]; right.
  - destruct (enqueue_ready (wk_stream s) (wk_buffered s)) as [st bu] eqn:Hq. eexists. by eapply step_drain.
  - eexists. by apply step_decide.
  - eexists. by eapply step_fetched.
Qed.

(** It does go on. *)
Lemma catching_up_reaches m s : catching_up m s →
  ∃ n s', nsteps catch_up_step n s s' ∧ catching_up m s' ∧ wk_phase s' = Following ∧ wk_chain s' = wk_chain s.
Proof using Type*.
  remember (to_do m s) as n eqn:Hn. revert s Hn. induction (lt_wf n) as [n _ IH]. intros s -> Hcu.
  destruct (catching_up_moves m s Hcu) as [Hf|[s1 Hstep]]; [by exists 0%nat, s; split; [constructor|]|].
  destruct (catching_up_step m _ _ Hstep Hcu) as [Hcu1 Hlt]. destruct (IH _ Hlt s1 eq_refl Hcu1) as (n & s' & Hr & Hcu' & Hf & Hch).
  exists (S n), s'. split; [by eapply nsteps_l|]. split; [done|]. split; [done|]. by rewrite Hch, (catch_up_chain _ _ Hstep).
Qed.

Lemma catch_up_frame s s' : catch_up_step s s' → wk_stream s = [] → same_frame s s'.
Proof using Type.
  intros Hstep Hst. destruct Hstep as [s stream buffered Hp Hq|s Hp|s h Hp|s h b stream Hp Hst'].
  - unfold same_frame. rewrite Hst in *. by injection Hq as <- <-.
  - apply decide_next_frame.
  - destruct (block_event_at_height _ _) as [b|]; [apply process_frame|apply on_error_frame].
  - congruence.
Qed.

Lemma catch_ups_frame s s' : rtc catch_up_step s s' → wk_stream s = [] → same_frame s s'.
Proof using Type.
  induction 1 as [s|s1 s2 s3 Hstep _ IH]; intros Hst; [done|]. destruct (catch_up_frame _ _ Hstep Hst) as (Hc & Hch & Hb & Hst2).
  unfold same_frame. rewrite <- Hc, <- Hch, <- Hb, <- Hst2. apply IH. congruence.
Qed.

(** A block that was processed is refused. *)
Lemma process_again m s i b next : in_order m s → wk_chain s !! i = Some b → (i < m + length (wk_processed s))%nat →
  ∃ w e, process next b s = on_error (ProcessError e) (with_task w (wk_processed s) s).
Proof using BlockProcessorLaws0.
  intros Hio Hi Hlt. unfold process. destruct (bp_process (wk_task s) b) as [w [[]|e]] eqn:Hp; [|by eexists _, _].
  apply bp_ok in Hp as [_ Hprev]. rewrite (io_height _ _ Hio) in Hprev. rewrite (lk_height _ (io_linked _ _ Hio) _ _ Hi) in Hprev.
  destruct (m + length (wk_processed s))%nat as [|n]; [lia|]. destruct Hprev as [|[= Hprev]]; [done|lia].
Qed.

(** A worker that follows the chain has processed the blocks that were there at the beginning. *)
Lemma catching_up_done m s : catching_up m s → wk_phase s = Following →
  (length base ≤ done_blocks m s ≤ length (wk_chain s))%nat ∧ bp_height (wk_task s) = height_after (done_blocks m s) ∧
  wk_processed s = drop m (take (done_blocks m s) (wk_chain s)).
Proof using Type.
  intros [Hio _ _ _ Hp] Hf. rewrite Hf in Hp. pose proof (io_processed _ _ Hio) as Hpr.
  split; [split; [done|apply (io_length _ _ Hio)]|]. split; [apply (io_height _ _ Hio)|].
  rewrite Hpr at 1. unfold done_blocks. rewrite <- take_drop_commute. done.
Qed.
End loops.
