(* ===== verification/OffChainBlockFacts.v ===== *)
(** * What the worker writes for a block

    The transaction of the storage that [process_block] builds: the statuses of the
    transactions, the supplies of assets, the transactions of each owner, the salts of created
    contracts, the height of the block's id, the number of transactions, and the indexes of the
    ledger; and its commit to the off-chain database. *)

From stdpp Require Import prelude gmap list strings sorting.
From Stdlib Require Import ZArith Lia.
From S2P Require Import Prelude.
From S2P Require Import StorageTx.
From S2P Require Import HistoricalDb.
From S2P Require Import HistoricalDbFacts.
From S2P Require Import Database.
From S2P Require Import DatabaseFacts.
From S2P Require Import Tables.
From S2P Require Import Blocks.
From S2P Require Import BlockStore.
From S2P Require Import Producer.
From S2P Require Import Importer.
From S2P Require Import ChainFacts.
From S2P Require Import ExecTypes.
From S2P Require Import VmStorage.
From S2P Require Import Executor.
From S2P Require Import OffChain.
From S2P Require Import OffChainFacts.
From S2P Require Import OffChainWorker.
Local Open Scope Z_scope.

(** ** The keys of the off-chain tables *)

Section keys.
Context `{OC : OffChainCodecs}.

Inductive table_keys : Z → Key → Prop :=
| ok_index c k : index_keys c k → table_keys c k
| ok_status k : length k = 32%nat → table_keys TRANSACTION_STATUS_COLUMN k
| ok_owned k : length k = 38%nat → table_keys TRANSACTIONS_BY_OWNER_COLUMN k
| ok_count : table_keys STATISTIC_COLUMN (ser_name TX_COUNT)
| ok_block k : length k = 32%nat → table_keys FUEL_BLOCK_IDS_COLUMN k
| ok_contract k : length k = 32%nat → table_keys CONTRACTS_INFO_COLUMN k
| ok_asset k : length k = 32%nat → table_keys ASSETS_INFO_COLUMN k.
End keys.

Definition head_columns : list Z :=
  [TRANSACTION_STATUS_COLUMN; TRANSACTIONS_BY_OWNER_COLUMN; STATISTIC_COLUMN; FUEL_BLOCK_IDS_COLUMN; CONTRACTS_INFO_COLUMN;
   ASSETS_INFO_COLUMN].

(** Columns that are given are different. *)
Ltac columns := apply (bool_decide_unpack _); vm_compute; exact I.

Lemma index_column c (cols : list Z) : c ∈ index_columns → bool_decide (Forall (.∉ cols) index_columns) = true → c ∉ cols.
Proof. intros Hc Hall%bool_decide_eq_true. rewrite Forall_forall in Hall. by apply Hall. Qed.

Lemma other_column (cols : list Z) c (all : list Z) : c ∉ all → bool_decide (Forall (.∈ all) cols) = true → c ∉ cols.
Proof. intros Hc Hall%bool_decide_eq_true Hin. rewrite Forall_forall in Hall. by apply Hc, Hall. Qed.

Section block.
Context {Signature : Type} `{FV : FuelVm} `{OC : !OffChainCodecs} `{!OffChainCodecsLaws} `{!ChainCrypto Transaction Signature}.
Context {D : Type} `{!KeyValueInspect D} (below : D).
Abbreviation runs := (runs table_keys below).
Abbreviation T := (InMemoryTransaction D).
Implicit Types (w : View.t).

(** A loop keeps what it says of the elements it has gone through. *)
Lemma runs_for {E X} (f : X → Step T E unit) (I : list X → View.t → Prop) (l : list X) : ∀ done w,
  (∀ d x r w, l = d ++ x :: r → I (done ++ d) w → ∃ w', runs (f x) w () w' ∧ I (done ++ d ++ [x]) w') → I done w →
  ∃ w', runs (step_for f l) w () w' ∧ I (done ++ l) w'.
Proof.
  induction l as [|x l IH]; intros dn w Hf Hi; [exists w; rewrite app_nil_r; split; [apply runs_ret|done]|].
  destruct (Hf [] x l w eq_refl) as (w1 & R1 & H1); [by rewrite app_nil_r|]. simpl in H1.
  destruct (IH (dn ++ [x]) w1) as (w2 & R2 & H2); [|done|].
  { intros d y r w' -> Hd. rewrite <- app_assoc in Hd |- *. by apply (Hf (x :: d) y r). }
  exists w2. split; [by eapply runs_bind|]. by rewrite <- app_assoc in H2.
Qed.

(** ** Supplies of assets *)

Abbreviation Supply := (AssetId → Z).

(** The supply after a receipt, and the receipts that it allows. *)
Definition supply_after (s : Supply) (r : SupplyReceipt) : Supply :=
  match r with
  | ReceiptMint sub c val => λ a, if decide (a = contract_asset_id c sub) then s a + val else s a
  | ReceiptBurn sub c val => λ a, if decide (a = contract_asset_id c sub) then s a - val else s a
  | ReceiptOther => s
  end.

Definition receipt_fits (s : Supply) (r : SupplyReceipt) : Prop :=
  match r with
  | ReceiptMint sub c val => length (contract_asset_id c sub) = 32%nat ∧ 0 ≤ val ∧ s (contract_asset_id c sub) + val ≤ U128
  | ReceiptBurn sub c val => length (contract_asset_id c sub) = 32%nat ∧ 0 ≤ val ≤ s (contract_asset_id c sub)
  | ReceiptOther => True
  end.

Fixpoint receipts_fit (s : Supply) (rs : list SupplyReceipt) : Prop :=
  match rs with
  | [] => True
  | r :: rs => receipt_fits s r ∧ receipts_fit (supply_after s r) rs
  end.

(** The table of assets has the supplies. *)
Definition supplies w (s : Supply) : Prop := ∀ a, length a = 32%nat →
  in_uint U128 (s a) ∧ ∃ x, row AssetsInfo w a = Ok x ∧ default 0 (total_supply <$> x) = s a.

Lemma supplies_ext w w' s : (∀ k, w' k ASSETS_INFO_COLUMN = w k ASSETS_INFO_COLUMN) → supplies w s → supplies w' s.
Proof. intros Hw Hs a Ha. unfold row. simpl. rewrite Hw. by apply Hs. Qed.

Lemma set_supply w s a d :
  supplies w s → in_uint U128 (total_supply d) → supplies (set_row AssetsInfo a (Some d) w) (λ a', if decide (a' = a) then total_supply d else s a').
Proof using Type*.
  intros Hs Hd a' Ha'. rewrite row_set by (intros x [= <-]; by apply de_ser_asset_details). simpl.
  destruct (decide (a' = a)); [split; [done|by eexists]|by apply Hs].
Qed.

Lemma receipt_step w s r :
  supplies w s → receipt_fits s r →
  ∃ w', runs (asset_receipt r) w () w' ∧ supplies w' (supply_after s r) ∧ only_columns [ASSETS_INFO_COLUMN] w w'.
Proof using Type*.
  intros Hs Hfit.
  assert (∀ a c sub x, length a = 32%nat → in_uint U128 x → runs (current_supply r a) w x w → (∀ a', supply_after s r a' = if decide (a' = a) then x else s a') →
    ∃ w', runs (new_supply ← current_supply r a; ix (insert_row AssetsInfo a
      {| details_contract_id := c; details_sub_id := sub; total_supply := new_supply |})) w () w' ∧
      supplies w' (supply_after s r) ∧ only_columns [ASSETS_INFO_COLUMN] w w') as Hset.
  { intros a c sub x Ha Hx Hrun Hafter. eexists. split_and!.
    - eapply runs_bind; [exact Hrun|]. apply runs_map_err, runs_insert. by constructor.
    - intros a' Ha'. rewrite Hafter. by apply (set_supply w s a {| details_contract_id := c; details_sub_id := sub; total_supply := x |}).
    - apply (only_columns_set AssetsInfo). }
  destruct r as [sub c val|sub c val|]; simpl in Hfit; [| |exists w; split_and!; [apply runs_ret|done|done]];
    destruct Hfit as (Ha & Hv); destruct (Hs _ Ha) as (Hr & x & Hx & Hd); cbn [asset_receipt].
  - apply (Hset _ _ _ (s (contract_asset_id c sub) + val)); [done|int_lia| |intros a'; simpl; by case_decide; subst].
    eapply runs_bind; [apply runs_map_err, runs_get, Hx|]. rewrite Hd. rewrite decide_True by lia. apply runs_ret.
  - apply (Hset _ _ _ (s (contract_asset_id c sub) - val)); [done|int_lia| |intros a'; simpl; by case_decide; subst].
    eapply runs_bind; [apply runs_map_err, runs_get, Hx|]. rewrite Hd. rewrite decide_True by lia. apply runs_ret.
Qed.

Lemma receipts_step enabled (rs : list Receipt) : ∀ w s,
  (enabled = true → supplies w s ∧ receipts_fit s (supply_receipt <$> rs)) →
  ∃ w', runs (asset_metadata_update rs enabled) w () w' ∧ (enabled = true → supplies w' (foldl supply_after s (supply_receipt <$> rs))) ∧
    only_columns [ASSETS_INFO_COLUMN] w w'.
Proof using Type*.
  unfold asset_metadata_update. destruct enabled; cbn [negb]; [|intros w s _; exists w; split_and!; [apply runs_ret|done|done]].
  induction rs as [|r rs IH]; intros w s Hrs; destruct (Hrs eq_refl) as [Hs Hfit]; [exists w; split_and!; [apply runs_ret|done|done]|].
  destruct Hfit as [Hf Hfit]. destruct (receipt_step w s (supply_receipt r) Hs Hf) as (w1 & R1 & H1 & C1).
  destruct (IH w1 (supply_after s (supply_receipt r))) as (w2 & R2 & H2 & C2); [done|].
  exists w2. split_and!; [by eapply runs_bind|done|by eapply only_columns_trans].
Qed.

Lemma receipts_fit_app l l' : ∀ s, receipts_fit s (l ++ l') ↔ receipts_fit s l ∧ receipts_fit (foldl supply_after s l) l'.
Proof. induction l as [|r l IH]; intros s; simpl; [naive_solver|]. rewrite IH. naive_solver. Qed.

(** ** Statuses *)

Abbreviation Status := (TransactionExecutionStatus Receipt ProgramState).

Definition successful_receipts (sts : list Status) : list Receipt :=
  sts ≫= λ st, match status_result st with Success _ rs _ _ => rs | Failed _ _ _ _ => [] end.

Section statuses.
Context (b : Block Transaction) (enabled : bool).

(** The table has the statuses, and no other row has changed. *)
Record statuses_stored (sts : list Status) w w' : Prop := {
  ss_new st : st ∈ sts → w' (status_id st) TRANSACTION_STATUS_COLUMN = Ok (Some (ser_status (from_executor_to_status b (status_result st))));
  ss_old k : k ∉ status_id <$> sts → w' k TRANSACTION_STATUS_COLUMN = w k TRANSACTION_STATUS_COLUMN;
}.

Definition fresh_statuses (sts : list Status) w : Prop :=
  NoDup (status_id <$> sts) ∧ ∀ st, st ∈ sts → length (status_id st) = 32%nat ∧ w (status_id st) TRANSACTION_STATUS_COLUMN = Ok None.

Lemma status_step st w s :
  length (status_id st) = 32%nat → w (status_id st) TRANSACTION_STATUS_COLUMN = Ok None →
  (enabled = true → supplies w s ∧ receipts_fit s (supply_receipt <$> successful_receipts [st])) →
  ∃ w', runs (persist_status b enabled st) w () w' ∧ statuses_stored [st] w w' ∧
    (enabled = true → supplies w' (foldl supply_after s (supply_receipt <$> successful_receipts [st]))) ∧
    only_columns [TRANSACTION_STATUS_COLUMN; ASSETS_INFO_COLUMN] w w'.
Proof using Type*.
  intros Hlen Hnew Hs. set (status := from_executor_to_status b (status_result st)).
  set (w1 := set_row TransactionStatuses (status_id st) (Some status) w).
  assert (runs (replace_row TransactionStatuses (status_id st) status) w None w1) as R1.
  { apply runs_replace; [by constructor|]. unfold row. simpl. by rewrite Hnew. }
  assert (only_columns [TRANSACTION_STATUS_COLUMN; ASSETS_INFO_COLUMN] w w1) as C1.
  { eapply only_columns_mono, (only_columns_set TransactionStatuses). set_solver. }
  assert (∀ w2, only_columns [ASSETS_INFO_COLUMN] w1 w2 → statuses_stored [st] w w2) as Hst.
  { intros w2 C2. split.
    - intros st' ->%list_elem_of_singleton. rewrite C2 by set_solver by lia.
      exact (set_row_eq TransactionStatuses (status_id st) (Some status) w).
    - intros k Hk. rewrite C2 by set_solver by lia. apply (set_row_ne TransactionStatuses). right. simpl. set_solver. }
  unfold persist_status. unfold successful_receipts in *. simpl in Hs |- *. rewrite app_nil_r in *.
  destruct (status_result st) as [state rs gas fee|state rs gas fee].
  - destruct (receipts_step enabled rs w1 s) as (w2 & R2 & H2 & C2).
    { intros He. destruct (Hs He) as [H1 H2]. split; [|done]. eapply supplies_ext, H1. intros k. by apply set_row_ne; left. }
    exists w2. split_and!; [|by apply Hst|done|eapply only_columns_trans; [done|]; eapply only_columns_mono, C2; set_solver].
    eapply (runs_bind _ _ _ _ _ None); [exact R1|]. by apply runs_map_err.
  - exists w1. split_and!; [|by apply Hst| |done].
    + eapply (runs_bind _ _ _ _ _ None); [exact R1|apply runs_ret].
    + intros He. destruct (Hs He) as [H1 _]. eapply supplies_ext, H1. intros k. by apply set_row_ne; left.
Qed.

Lemma statuses_step sts : ∀ w s,
  fresh_statuses sts w → (enabled = true → supplies w s ∧ receipts_fit s (supply_receipt <$> successful_receipts sts)) →
  ∃ w', runs (persist_transaction_status b enabled sts) w () w' ∧ statuses_stored sts w w' ∧
    (enabled = true → supplies w' (foldl supply_after s (supply_receipt <$> successful_receipts sts))) ∧
    only_columns [TRANSACTION_STATUS_COLUMN; ASSETS_INFO_COLUMN] w w'.
Proof using Type*.
  induction sts as [|st sts IH]; intros w s [Hnd Hf] Hs; [exists w; split_and!; [apply runs_ret|by split; [set_solver|]|naive_solver|done]|].
  assert (successful_receipts (st :: sts) = successful_receipts [st] ++ successful_receipts sts) as Hrs.
  { unfold successful_receipts. simpl. by rewrite app_nil_r. }
  rewrite Hrs, fmap_app, receipts_fit_app in Hs. rewrite fmap_cons in Hnd. apply NoDup_cons in Hnd as [Hni Hnd].
  destruct (Hf st) as [Hlen Hn]; [by left|]. destruct (status_step st w s Hlen Hn) as (w1 & R1 & [S1 O1] & H1 & C1); [naive_solver|].
  destruct (IH w1 (foldl supply_after s (supply_receipt <$> successful_receipts [st]))) as (w2 & R2 & [S2 O2] & H2 & C2).
  { split; [done|]. intros st' Hst. destruct (Hf st') as [? ?]; [by right|]. split; [done|]. rewrite O1; [done|].
    intros He%list_elem_of_singleton. destruct Hni. rewrite <- He. by apply list_elem_of_fmap_2. }
  { naive_solver. }
  exists w2. split_and!; [by eapply runs_bind| |by rewrite Hrs, fmap_app, foldl_app|by eapply only_columns_trans].
  split; [intros st' [->|Hst]%elem_of_cons; [rewrite O2 by done; apply S1; by left|by apply S2]|].
  intros k Hk. rewrite O2, O1; set_solver.
Qed.
End statuses.

(** ** The transactions of an owner *)

Lemma dedup_elem (l : list Address) x : x ∈ dedup l ↔ x ∈ l.
Proof.
  induction l as [|y [|z l] IH]; [done|done|]. cbn [dedup] in *. case_decide; [subst; rewrite IH; set_solver|].
  rewrite !elem_of_cons, IH, elem_of_cons. done.
Qed.

Lemma tx_owners_elem ins outs o : o ∈ tx_owners ins outs ↔ o ∈ omap input_owner ins ++ omap output_owner outs.
Proof. unfold tx_owners. by rewrite dedup_elem, merge_sort_Permutation. Qed.

Lemma owned_tx_index_key_inj o h i o' h' i' :
  length o = 32%nat → length o' = 32%nat → in_uint U32 h → in_uint U32 h' → in_uint U16 i → in_uint U16 i' →
  owned_tx_index_key o h i = owned_tx_index_key o' h' i' → o = o' ∧ h = h' ∧ i = i'.
Proof.
  intros Ho Ho' Hh Hh' Hi Hi' He. unfold owned_tx_index_key in He. apply app_inj_1 in He as [-> He]; [|lia].
  apply app_inj_1 in He as [H1%to_be_bytes_inj H2%to_be_bytes_inj]; [done|simpl; int_lia..|by rewrite !to_be_bytes_length].
Qed.

Lemma owned_tx_index_key_length o h i : length o = 32%nat → length (owned_tx_index_key o h i) = 38%nat.
Proof. intros Ho. unfold owned_tx_index_key. by rewrite !length_app, !to_be_bytes_length, Ho. Qed.

Lemma imap_pair_at {X} (l : list X) i x : (i, x) ∈ imap pair l → l !! i = Some x.
Proof. intros [j Hj]%list_elem_of_lookup. rewrite list_lookup_imap in Hj. destruct (l !! j) eqn:He; [|done]. by simplify_eq/=. Qed.

Lemma image_dec {X} (f : X → Key) (l : list X) k : (∃ x, x ∈ l ∧ k = f x) ∨ ∀ x, x ∈ l → k ≠ f x.
Proof.
  destruct (decide (Exists (λ x, k = f x) l)) as [He|He]; [left; by apply Exists_exists in He|].
  right. intros x Hx ->. apply He, Exists_exists. by exists x.
Qed.

Section owners.
Context (b : Block Transaction) (chain_id : Z).
Abbreviation h := (Blocks.height (consensus (header b))).

Definition has_owner (c : Chargeable) (o : Address) : Prop := o ∈ omap input_owner (inputs c) ++ omap output_owner (outputs c).

(** The rows of the transactions at the given places. *)
Definition owner_row (txs : list (nat * Transaction)) (k : Key) (id : TxId) : Prop := ∃ i c o,
  (i, TxChargeable c) ∈ txs ∧ has_owner c o ∧ k = owned_tx_index_key o h (Z.of_nat i) ∧ id = tx_id chain_id (TxChargeable c).

Record owners_stored (txs : list (nat * Transaction)) w w' : Prop := {
  os_new k id : owner_row txs k id → w' k TRANSACTIONS_BY_OWNER_COLUMN = Ok (Some id);
  os_old k : (∀ id, ¬ owner_row txs k id) → w' k TRANSACTIONS_BY_OWNER_COLUMN = w k TRANSACTIONS_BY_OWNER_COLUMN;
}.

Definition wf_owners : Prop := in_uint U32 h ∧ Z.of_nat (length (transactions b)) ≤ U16 + 1 ∧
  ∀ c o, TxChargeable c ∈ transactions b → has_owner c o → length o = 32%nat.

(** The rows of one transaction. *)
Lemma owner_step ins outs id i w :
  in_uint U16 i → (∀ o, o ∈ tx_owners ins outs → length o = 32%nat) →
  ∃ w', runs (persist_owners_index h ins outs id i) w () w' ∧ only_columns [TRANSACTIONS_BY_OWNER_COLUMN] w w' ∧
    (∀ o, o ∈ tx_owners ins outs → w' (owned_tx_index_key o h i) TRANSACTIONS_BY_OWNER_COLUMN = Ok (Some id)) ∧
    (∀ k, (∀ o, o ∈ tx_owners ins outs → k ≠ owned_tx_index_key o h i) → w' k TRANSACTIONS_BY_OWNER_COLUMN = w k TRANSACTIONS_BY_OWNER_COLUMN).
Proof using Type*.
  intros Hi Hlen. unfold persist_owners_index. revert Hlen. generalize (tx_owners ins outs). intros l Hlen.
  destruct (runs_for (λ o, insert_row OwnedTransactions (o, h, i) id) (λ l w', only_columns [TRANSACTIONS_BY_OWNER_COLUMN] w w' ∧
    (∀ o, o ∈ l → w' (owned_tx_index_key o h i) TRANSACTIONS_BY_OWNER_COLUMN = Ok (Some id)) ∧
    (∀ k, (∀ o, o ∈ l → k ≠ owned_tx_index_key o h i) → w' k TRANSACTIONS_BY_OWNER_COLUMN = w k TRANSACTIONS_BY_OWNER_COLUMN)) l [] w)
    as (w' & R & Hw'); [|by split_and!; [|set_solver|]|by exists w'].
  intros d o r w1 -> (C & Hin & Hout). exists (set_row OwnedTransactions (o, h, i) (Some id) w1). simpl in *. split_and!.
  - apply runs_insert. apply ok_owned, owned_tx_index_key_length, Hlen. set_solver.
  - eapply only_columns_trans; [exact C|apply (only_columns_set OwnedTransactions)].
  - intros o' Ho'. destruct (decide (owned_tx_index_key o' h i = owned_tx_index_key o h i)) as [->|Hne].
    + apply (set_row_eq OwnedTransactions (o, h, i)).
    + rewrite set_row_ne by (by right). apply Hin. set_solver.
  - intros k Hk. rewrite set_row_ne by (right; apply Hk; set_solver). apply Hout. intros o' Ho'. apply Hk. set_solver.
Qed.

Lemma owners_step w : wf_owners → ∃ w', runs (index_tx_owners_for_block b chain_id) w () w' ∧
  owners_stored (imap pair (transactions b)) w w' ∧ only_columns [TRANSACTIONS_BY_OWNER_COLUMN] w w'.
Proof using Type*.
  intros (Hh & Hn & Hwf). unfold index_tx_owners_for_block.
  pose proof (imap_pair_at (transactions b)) as Hat.
  assert (∀ i c o, (i, TxChargeable c) ∈ imap pair (transactions b) → has_owner c o → in_uint U16 (Z.of_nat i) ∧ length o = 32%nat) as Hin.
  { intros i c o Hi%Hat Ho. split; [apply lookup_lt_Some in Hi; int_lia|]. by eapply Hwf, Ho; eapply list_elem_of_lookup_2. }
  assert (∀ i c, (i, TxChargeable c) ∈ imap pair (transactions b) → in_uint U16 (Z.of_nat i)) as Hi16.
  { intros i c Hi%Hat. apply lookup_lt_Some in Hi. int_lia. }
  destruct (runs_for (λ '(tx_idx, tx), if decide (Z.of_nat tx_idx ≤ U16) then
      match tx with
      | TxMint _ => mret ()
      | TxChargeable c => persist_owners_index h (inputs c) (outputs c) (tx_id chain_id tx) (Z.of_nat tx_idx)
      end else step_fail "The block has more than `u16::MAX` transactions")
    (λ l w', owners_stored l w w' ∧ only_columns [TRANSACTIONS_BY_OWNER_COLUMN] w w') (imap pair (transactions b)) [] w)
    as (w' & R & Hw'); [|split; [split; [|done]; intros k id (i & c & o & Hi & _); set_solver|done]|by exists w'].
  intros d [i tx] r w1 Hl [[Hnew Hold] C]. simpl in *. assert ((i, tx) ∈ imap pair (transactions b)) as Hi by (rewrite Hl; set_solver).
  rewrite decide_True by (apply Hat, lookup_lt_Some in Hi; int_lia). destruct tx as [m|c].
  { exists w1. split; [apply runs_ret|]. split; [|done]. split.
    - intros k id (j & c & o & [Hj|[=]%list_elem_of_singleton]%elem_of_app & Ho & Hk). apply Hnew. by exists j, c, o.
    - intros k Hk. apply Hold. intros id (j & c & o & Hj & Ho). apply (Hk id). exists j, c, o. split; [set_solver|done]. }
  destruct (owner_step (inputs c) (outputs c) (tx_id chain_id (TxChargeable c)) (Z.of_nat i) w1) as (w2 & R2 & C2 & Hset & Hkeep).
  { by eapply Hi16. }
  { intros o Ho%tx_owners_elem. by eapply Hin. }
  exists w2. split; [done|]. split; [|by eapply only_columns_trans].
  pose proof (image_dec (λ o, owned_tx_index_key o h (Z.of_nat i)) (tx_owners (inputs c) (outputs c))) as Hdec. split.
  - intros k id (j & c' & o & Hj & Ho & -> & ->). destruct (Hdec (owned_tx_index_key o h (Z.of_nat j))) as [(o' & Ho' & He)|Hne].
    + rewrite He, Hset by done. assert ((j, TxChargeable c') ∈ imap pair (transactions b)) as Hj' by (rewrite Hl; set_solver).
      apply tx_owners_elem in Ho'. destruct (Hin _ _ _ Hj' Ho), (Hin _ _ _ Hi Ho').
      apply owned_tx_index_key_inj in He as (_ & _ & He); [|done..]. apply Nat2Z.inj in He as ->. apply Hat in Hj', Hi. congruence.
    + rewrite Hkeep by done. apply Hnew. exists j, c', o. split; [|done]. apply elem_of_app in Hj as [Hj|Hj]; [done|].
      apply list_elem_of_singleton in Hj as [= -> ->]. by destruct (Hne o (proj2 (tx_owners_elem _ _ _) Ho)).
  - intros k Hk. rewrite Hkeep; [apply Hold|].
    + intros id (j & c' & o & Hj & Ho). apply (Hk id). exists j, c', o. split; [set_solver|done].
    + intros o Ho ->. apply (Hk (tx_id chain_id (TxChargeable c))). exists i, c, o. apply tx_owners_elem in Ho. split_and!; [set_solver|done|done|done].
Qed.
End owners.

(** ** Contracts *)

(** The contract that a transaction creates, with its salt. *)
Definition created_contract (tx : Transaction) : option (ContractId * Bytes32) :=
  match tx with
  | TxChargeable c =>
      if decide (kind c = Create) then
        match match head (omap output_contract_id (outputs c)) with Some id => Ok id | None => computed_contract_id c end with
        | Ok id => Some (id, create_salt c)
        | Err _ => None
        end
      else None
  | TxMint _ => None
  end.

Definition wf_contract (tx : Transaction) : Prop :=
  (∀ c, tx = TxChargeable c → kind c = Create → is_Some (created_contract tx)) ∧
  ∀ id salt, created_contract tx = Some (id, salt) → length id = 32%nat.

Definition contracts_stored (txs : list Transaction) w w' : Prop := ∀ k,
  w' k CONTRACTS_INFO_COLUMN = match last (filter (λ e, e.1 = k) (omap created_contract txs)) with
                               | Some e => Ok (Some (ser_salt e.2))
                               | None => w k CONTRACTS_INFO_COLUMN
                               end.

Lemma contract_step tx w : wf_contract tx →
  runs (process_transaction tx) w () (match created_contract tx with Some (id, salt) => set_row ContractsInfo id (Some salt) w | None => w end).
Proof using Type*.
  intros [Hex Hlen]. destruct tx as [m|c]; simpl; [apply runs_ret|]. specialize (Hex c eq_refl). simpl in Hex, Hlen.
  destruct (decide (kind c = Create)); [|apply runs_ret]. specialize (Hex ltac:(done)).
  case_match; [|by destruct Hex]. apply runs_insert, ok_contract. by eapply Hlen.
Qed.

Lemma contracts_step txs w : Forall wf_contract txs → ∃ w', runs (process_transactions txs) w () w' ∧
  contracts_stored txs w w' ∧ only_columns [CONTRACTS_INFO_COLUMN] w w'.
Proof using Type*.
  intros Hwf. destruct (runs_for process_transaction (λ l w', contracts_stored l w w' ∧ only_columns [CONTRACTS_INFO_COLUMN] w w')
    txs [] w) as (w' & R & Hw'); [|done|by exists w'].
  intros d tx r w1 -> [Hd C]. apply Forall_app in Hwf as [_ [Htx _]%Forall_cons]. eexists. split; [by apply contract_step|]. simpl in *.
  destruct (created_contract tx) as [[id salt]|] eqn:Hc.
  - split; [|eapply only_columns_trans; [exact C|apply (only_columns_set ContractsInfo)]].
    intros k. rewrite omap_app. simpl. rewrite Hc, filter_app. simpl. destruct (decide (id = k)) as [<-|Hne].
    + rewrite filter_cons_True by done. rewrite filter_nil, last_snoc. exact (set_row_eq ContractsInfo id (Some salt) w1).
    + rewrite filter_cons_False, filter_nil, app_nil_r by done. rewrite set_row_ne by (right; simpl; congruence). apply Hd.
  - split; [|done]. intros k. rewrite omap_app. simpl. rewrite Hc, app_nil_r. apply Hd.
Qed.

(** ** The number of transactions *)

Lemma count_step n w c : row StatisticTable w TX_COUNT = Ok c → 0 ≤ n → 0 ≤ default 0 c →
  runs (or_default (increase_tx_count n)) w (sat_add U64 (default 0 c) n)
    (set_row StatisticTable TX_COUNT (Some (sat_add U64 (default 0 c) n)) w).
Proof using Type*.
  intros Hc Hn Hc0 t Ht.
  assert (runs (increase_tx_count n) w (sat_add U64 (default 0 c) n) (set_row StatisticTable TX_COUNT (Some (sat_add U64 (default 0 c) n)) w)) as R.
  { eapply runs_bind; [eapply runs_bind; [by apply runs_get|apply runs_ret]|].
    eapply runs_bind; [apply runs_insert, ok_count|apply runs_ret]. }
  destruct (R t Ht) as (t' & He & Ht'). exists t'. unfold or_default. by rewrite He.
Qed.

(** ** The whole block *)

Abbreviation Import := (ImportResult Transaction Signature (TransactionExecutionStatus Receipt ProgramState) ExecutorEvent).

Section import.
Context (ws : WorkerSettings) (r : Import).
Abbreviation b := (entity (sealed_block r)).
Abbreviation receipts := (supply_receipt <$> successful_receipts (tx_status r)).

(** The block can be indexed on the view: its transactions are new, and the supplies allow its receipts. *)
Record block_fits w (s : Supply) : Prop := {
  bf_statuses : fresh_statuses (tx_status r) w;
  bf_receipts : ws_asset_metadata ws = true → supplies w s ∧ receipts_fit s receipts;
  bf_owners : wf_owners b;
  bf_contracts : Forall wf_contract (transactions b);
  bf_id : length (block_id b) = 32%nat;
  bf_count : ∃ c, row StatisticTable w TX_COUNT = Ok c ∧ 0 ≤ default 0 c;
}.

(** What the tables have after it. *)
Record block_indexed w (s : Supply) (L : Ledger) w' : Prop := {
  bx_statuses : statuses_stored b (tx_status r) w w';
  bx_supplies : ws_asset_metadata ws = true → supplies w' (foldl supply_after s receipts);
  bx_owners : owners_stored b (ws_chain_id ws) (imap pair (transactions b)) w w';
  bx_contracts : contracts_stored (transactions b) w w';
  bx_height k : w' k FUEL_BLOCK_IDS_COLUMN =
    if decide (k = block_id b) then Ok (Some (to_be_bytes 4 (Blocks.height (consensus (header b))))) else w k FUEL_BLOCK_IDS_COLUMN;
  bx_count c : row StatisticTable w TX_COUNT = Ok c →
    row StatisticTable w' TX_COUNT = Ok (Some (sat_add U64 (default 0 c) (Z.of_nat (length (transactions b)))));
  bx_ledger : indexed (ws_base_asset_id ws) (ws_balances ws) (ws_coins_to_spend ws) w' (foldl ledger_event L (events r));
}.

Lemma statuses_stored_ext w w1 w0 w2 :
  (∀ k, w0 k TRANSACTION_STATUS_COLUMN = w k TRANSACTION_STATUS_COLUMN) → (∀ k, w2 k TRANSACTION_STATUS_COLUMN = w1 k TRANSACTION_STATUS_COLUMN) →
  statuses_stored b (tx_status r) w0 w1 → statuses_stored b (tx_status r) w w2.
Proof. intros H0 H2 [Hn Ho]. split; intros; rewrite H2, <- ?H0; auto. Qed.

Lemma owners_stored_ext txs w w1 w0 w2 :
  (∀ k, w0 k TRANSACTIONS_BY_OWNER_COLUMN = w k TRANSACTIONS_BY_OWNER_COLUMN) →
  (∀ k, w2 k TRANSACTIONS_BY_OWNER_COLUMN = w1 k TRANSACTIONS_BY_OWNER_COLUMN) →
  owners_stored b (ws_chain_id ws) txs w0 w1 → owners_stored b (ws_chain_id ws) txs w w2.
Proof. intros H0 H2 [Hn Ho]. split; intros; rewrite H2, <- ?H0; eauto. Qed.

Lemma indexed_ext base b1 b2 w w' L : (∀ k c, c ∈ index_columns → w' k c = w k c) → indexed base b1 b2 w L → indexed base b1 b2 w' L.
Proof.
  intros Hw [[H1 H2 H3] Hb Hs]. split; [split|intros He|intros He].
  - eapply rows_ext, H1; [|done]. intros k. apply Hw. set_solver.
  - eapply rows_ext, H2; [|done]. intros k. apply Hw. set_solver.
  - eapply rows_ext, H3; [|done]. intros k. apply Hw. set_solver.
  - eapply balances_ok_ext, Hb, He; intros k; apply Hw; set_solver.
  - eapply to_spend_ok_ext, Hs, He. intros k. apply Hw. set_solver.
Qed.

Lemma block_indexed_ext w s L w1 w2 :
  (∀ k c, c ∈ head_columns ++ index_columns → w2 k c = w1 k c) → block_indexed w s L w1 → block_indexed w s L w2.
Proof.
  intros Hw [S Su O K Hh Hc I].
  assert (∀ c, bool_decide (c ∈ head_columns ++ index_columns) = true → ∀ k, w2 k c = w1 k c) as Hcol.
  { intros c Hin%bool_decide_eq_true k. by apply Hw. }
  split.
  - eapply statuses_stored_ext, S; [done|by apply Hcol; vm_compute].
  - intros He. eapply supplies_ext, Su, He. by apply Hcol; vm_compute.
  - eapply owners_stored_ext, O; [done|by apply Hcol; vm_compute].
  - intros k. rewrite Hcol by (by vm_compute). apply K.
  - intros k. rewrite Hcol by (by vm_compute). apply Hh.
  - intros c Hrow. rewrite <- (Hc c Hrow). unfold row. simpl. by rewrite Hcol by (by vm_compute).
  - eapply indexed_ext, I. intros k c Hin. apply Hw, elem_of_app. by right.
Qed.

Lemma block_step w s L :
  length (ws_base_asset_id ws) = 32%nat → block_fits w s → wf_ledger L → events_ok L (events r) →
  Z.of_nat (ledger_size L + length (events r)) ≤ U64 → indexed (ws_base_asset_id ws) (ws_balances ws) (ws_coins_to_spend ws) w L →
  ∃ n w', runs (index_block ws r) w n w' ∧ block_indexed w s L w' ∧ only_columns (head_columns ++ index_columns) w w'.
Proof using Type*.
  intros Hbase [Hst Hrs How Hco Hid (c & Hc & Hc0)] Hwf Hev Hsize Hix.
  destruct (statuses_step b (ws_asset_metadata ws) (tx_status r) w s Hst Hrs) as (w1 & R1 & S1 & Su1 & C1).
  destruct (owners_step b (ws_chain_id ws) w1 How) as (w2 & R2 & O2 & C2).
  destruct (contracts_step (transactions b) w2 Hco) as (w3 & R3 & K3 & C3).
  set (h := Blocks.height (consensus (header b))).
  set (w4 := set_row FuelBlockIdsToHeights (block_id b) (Some h) w3).
  assert (only_columns [FUEL_BLOCK_IDS_COLUMN] w3 w4) as C4 by apply (only_columns_set FuelBlockIdsToHeights).
  set (n := sat_add U64 (default 0 c) (Z.of_nat (length (transactions b)))).
  set (w5 := set_row StatisticTable TX_COUNT (Some n) w4).
  assert (only_columns [STATISTIC_COLUMN] w4 w5) as C5 by apply (only_columns_set StatisticTable).
  assert (∀ k c, c ∈ index_columns → w5 k c = w k c) as Hsame.
  { intros k x Hx. rewrite C5, C4, C3, C2, C1; [done|by apply index_column..]. }
  destruct (events_step table_keys ok_index below (ws_base_asset_id ws) Hbase (ws_balances ws) (ws_coins_to_spend ws) (events r) w5 L Hwf Hev Hsize)
    as (w6 & R6 & I6 & C6); [by eapply indexed_ext|].
  exists n, w6. split_and!.
  - unfold index_block. do 3 (eapply runs_bind; [eassumption|]).
    eapply runs_bind; [by apply runs_insert, ok_block|]. eapply runs_bind; [|eapply runs_bind; [exact R6|apply runs_ret]].
    apply count_step; [|lia|done]. rewrite <- Hc. unfold row. simpl. by rewrite C4, C3, C2, C1 by columns.
  - split.
    + eapply statuses_stored_ext, S1; [done|]. intros k. by rewrite C6, C5, C4, C3, C2 by columns.
    + intros He. eapply supplies_ext, Su1, He. intros k. by rewrite C6, C5, C4, C3, C2 by columns.
    + eapply owners_stored_ext, O2; intros k; [by rewrite C1 by columns|by rewrite C6, C5, C4, C3 by columns].
    + intros k. rewrite C6, C5, C4, K3 by columns. case_match; [done|]. by rewrite C2, C1 by columns.
    + intros k. rewrite C6, C5 by columns. case_decide as Hk.
      * rewrite Hk. exact (set_row_eq FuelBlockIdsToHeights (block_id b) (Some h) w3).
      * unfold w4. rewrite set_row_ne by auto. by rewrite C3, C2, C1 by columns.
    + intros c' Hc'. rewrite Hc in Hc'. injection Hc' as <-. transitivity (row StatisticTable w5 TX_COUNT).
      * unfold row. simpl. by rewrite C6 by columns.
      * unfold w5. rewrite row_set, decide_True by (done || intros x [= <-]; apply de_ser_count; unfold n, sat_add; int_lia). done.
    + done.
  - intros k x Hx. rewrite C6, C5, C4, C3, C2, C1; [done|by eapply other_column..].
Qed.
End import.
End block.
