(* ===== verification/OffChainCommit.v ===== *)
(** * The commit of a block to the off-chain database

    The changes of a block have one entry in the table of the ids of blocks, from which the
    database takes the new height; with it they are one version of the off-chain database. *)

From stdpp Require Import prelude gmap list strings sorting relations.
From Stdlib Require Import ZArith Lia.
From S2P Require Import Prelude.
From S2P Require Import StorageTx.
From S2P Require Import HistoricalDb.
From S2P Require Import HistoricalDbFacts.
From S2P Require Import Database.
From S2P Require Import DatabaseFacts.
From S2P Require Import Blocks.
From S2P Require Import Tables.
From S2P Require Import BlockStore.
From S2P Require Import ChainFacts.
From S2P Require Import Producer.
From S2P Require Import Importer.
From S2P Require Import ExecTypes.
From S2P Require Import VmStorage.
From S2P Require Import Executor.
From S2P Require Import OffChain.
From S2P Require Import OffChainFacts.
From S2P Require Import OffChainWorker.
From S2P Require Import OffChainWorkerFacts.
From S2P Require Import OffChainBlockFacts.
Local Open Scope Z_scope.

(** ** Keys *)

(** A coin's key does not begin with a message's: where the message's ends, the coin's has the
    first byte of a small output index. *)
Lemma message_coin_keys f o a x n o' a' x' id :
  stored_key (IndexMessage f o a x n) → stored_key (IndexCoin o' a' x' id) →
  ¬ encode_index_key (IndexMessage f o a x n) `prefix_of` encode_index_key (IndexCoin o' a' x' id).
Proof.
  intros [(Ho & Ha & _ & Hn) _] [(Ho' & Ha' & _ & Hid & Hr) Hsmall] Hp. simpl in Ho, Ha, Hn, Ho', Ha', Hid, Hr, Hsmall.
  assert (to_be_bytes 2 (output_index id) = [0; output_index id]) as Hb.
  { unfold to_be_bytes. simpl. rewrite Z.div_small, Z.mod_0_l, Z.mod_small by int_lia. done. }
  assert (encode_index_key (IndexMessage f o a x n) !! 105%nat = Some MESSAGE_TYPE) as H1.
  { unfold encode_index_key. rewrite !app_assoc, lookup_app_r by (rewrite !length_app, to_be_bytes_length; simpl; lia).
    rewrite !length_app, to_be_bytes_length, Ho, Ha, Hn. done. }
  assert (encode_index_key (IndexCoin o' a' x' id) !! 105%nat = Some 0) as H2.
  { unfold encode_index_key, utxo_key. rewrite Hb. 
    rewrite !app_assoc, <- (app_assoc _ [0; _]), lookup_app_r by (rewrite !length_app, to_be_bytes_length; simpl; lia).
    rewrite !length_app, to_be_bytes_length, Ho', Ha', Hid. done. }
  pose proof (prefix_lookup_Some _ _ _ _ H1 Hp) as H3. rewrite H2 in H3. done.
Qed.

(** ** Changes of one column *)

Section touches.
Context {D : Type} `{!KeyValueInspect D}.
Abbreviation T := (InMemoryTransaction D).

(** The computation changes no key of the column, whatever it returns. *)
Definition keeps_column (c : Z) {E A} (m : Step T E A) : Prop :=
  ∀ t t' r k, m t = (t', r) → change_at (changes t') k c = change_at (changes t) k c.

Lemma keeps_column_ret c {E A} (a : A) : keeps_column c (mret a : Step T E A).
Proof. by intros t t' r k [= <- <-]. Qed.
Lemma keeps_column_fail c {E A} (e : E) : keeps_column c (step_fail e : Step T E A).
Proof. by intros t t' r k [= <- <-]. Qed.
Lemma keeps_column_bind c {E A B} (m : Step T E A) (f : A → Step T E B) : keeps_column c m → (∀ a, keeps_column c (f a)) → keeps_column c (m ≫= f).
Proof.
  intros Hm Hf t t' r k. unfold mbind, step_bind. destruct (m t) as [t1 [a|e]] eqn:Hmt.
  - intros Hf1. rewrite (Hf _ _ _ _ k Hf1). by eapply Hm.
  - intros [= <- <-]. by eapply Hm.
Qed.
Lemma leaves_map_err c {E F A} (f : E → F) (m : Step T E A) : keeps_column c m → keeps_column c (step_map_err f m).
Proof. intros Hm t t' r k. unfold step_map_err. destruct (m t) eqn:Hmt. intros [= <- <-]. by eapply Hm. Qed.
Lemma keeps_column_for c {E X} (f : X → Step T E unit) (l : list X) : (∀ x, keeps_column c (f x)) → keeps_column c (step_for f l).
Proof. intros Hf. induction l as [|x l IH]; [apply keeps_column_ret|by apply keeps_column_bind]. Qed.

Context {K V : Type} (tb : Table K V).
Lemma leaves_get c k : keeps_column c (get_row tb k).
Proof. by intros t t' r x [= <- <-]. Qed.

Lemma change_at_other (t : T) key column op k c : c ≠ column → change_at (changes (record t key column op)) k c = change_at (changes t) k c.
Proof. intros Hc. simpl. rewrite change_at_record. by rewrite decide_False by naive_solver. Qed.
Lemma leaves_insert c k v : c ≠ t_column tb → keeps_column c (insert_row tb k v).
Proof. intros Hc t t' r x [= <- <-]. by apply change_at_other. Qed.
Lemma leaves_remove c k : c ≠ t_column tb → keeps_column c (remove_row tb k).
Proof. intros Hc t t' r x [= <- <-]. by apply change_at_other. Qed.
Lemma leaves_replace c k v : c ≠ t_column tb → keeps_column c (replace_row tb k v).
Proof.
  intros Hc t t' r x. unfold replace_row, plain_replace, and_then, replace. destruct (old_value _ _ _); intros [= <- <-]; by apply change_at_other.
Qed.
Lemma leaves_take c k : c ≠ t_column tb → keeps_column c (take_row tb k).
Proof.
  intros Hc t t' r x. unfold take_row, plain_take, and_then, take_value. destruct (old_value _ _ _); intros [= <- <-]; by apply change_at_other.
Qed.
End touches.

Ltac leaves_step :=
  first
    [ apply keeps_column_ret | apply keeps_column_fail | apply leaves_get | apply leaves_insert; done | apply leaves_remove; done
    | apply leaves_replace; done | apply leaves_take; done | apply leaves_map_err | apply keeps_column_for; intros ?
    | apply keeps_column_bind; [|intros ?] | case_match ].

(** Only the row of the block's id is written to its table. *)
Section block_ids.
Context {Signature : Type} `{FV : FuelVm} `{OC : !OffChainCodecs} `{!ChainCrypto Transaction Signature} {D : Type} `{!KeyValueInspect D}.
Abbreviation T := (InMemoryTransaction D).
Abbreviation leaves_ids := (keeps_column (D := D) FUEL_BLOCK_IDS_COLUMN).

Lemma receipts_leave rs enabled : leaves_ids (asset_metadata_update rs enabled).
Proof. unfold asset_metadata_update. case_match; [apply keeps_column_ret|]. apply keeps_column_for. intros r. unfold asset_receipt, current_supply, ix. by repeat leaves_step. Qed.

Lemma event_leaves b1 b2 base ev : leaves_ids (process_executor_event b1 b2 base ev).
Proof.
  apply keeps_column_bind; [|intros _; by repeat leaves_step].
  assert (leaves_ids (update_event_based_indexation b1 b2 base ev)) as Hu.
  { unfold update_event_based_indexation, balances_update, coins_to_spend_update, increase_message_balance, decrease_message_balance,
      increase_coin_balance, decrease_coin_balance, add_coin, remove_coin, add_message, remove_message, ix. by repeat leaves_step. }
  intros t t' r k. unfold index_event. destruct (update_event_based_indexation b1 b2 base ev t) as [t1 r1] eqn:He.
  apply (Hu _ _ _ k) in He. by repeat case_match; intros [= <- <-].
Qed.

Lemma head_leaves (ws : WorkerSettings) (b : Block Transaction) sts : leaves_ids
  (persist_transaction_status b (ws_asset_metadata ws) sts ≫= λ _, index_tx_owners_for_block b (ws_chain_id ws) ≫= λ _,
   process_transactions (transactions b)).
Proof.
  unfold persist_transaction_status, persist_status, update_receipt_based_indexation, index_tx_owners_for_block, persist_owners_index,
    process_transactions, process_transaction.
  repeat leaves_step; try done; apply receipts_leave.
Qed.

Lemma count_leaves n : leaves_ids (or_default (increase_tx_count n)).
Proof.
  assert (leaves_ids (increase_tx_count n)) as Hi by (unfold increase_tx_count, get_tx_count; by repeat leaves_step).
  intros t t' r k. unfold or_default. destruct (increase_tx_count n t) as [t1 r1] eqn:He. intros [= <- <-]. by eapply Hi.
Qed.

Abbreviation Import := (ImportResult Transaction Signature (TransactionExecutionStatus Receipt ProgramState) ExecutorEvent).

Lemma block_id_change (ws : WorkerSettings) (r : Import) t t' n k :
  let b := entity (sealed_block r) in
  index_block ws r t = (t', Ok n) →
  change_at (changes t') k FUEL_BLOCK_IDS_COLUMN =
    if decide (k = block_id b) then Some (Insert (to_be_bytes 4 (Blocks.height (consensus (header b))))) else change_at (changes t) k FUEL_BLOCK_IDS_COLUMN.
Proof.
  intros b Hr. pose proof (head_leaves ws b (tx_status r) t) as Hh. revert Hr Hh.
  unfold index_block. fold b. unfold mbind, step_bind.
  destruct (persist_transaction_status _ _ _ t) as [t1 [[]|]]; [|done].
  destruct (index_tx_owners_for_block _ _ t1) as [t2 [[]|]]; [|done].
  destruct (process_transactions _ t2) as [t3 [[]|]]; [|done]. intros Hr Hh. specialize (Hh _ _ k eq_refl). rewrite <- Hh. clear Hh.
  destruct (insert_row _ _ _ t3) as [t4 [[]|]] eqn:H4; [|done].
  destruct (or_default _ t4) as [t5 [c|]] eqn:H5; [|done]. apply (count_leaves _ _ _ _ k) in H5.
  destruct (process_executor_events _ _ _ _ t5) as [t6 [[]|]] eqn:H6; [|done]. injection Hr as <- <-.
  unfold process_executor_events in H6. apply (keeps_column_for FUEL_BLOCK_IDS_COLUMN _ _ (event_leaves _ _ _) _ _ _ k) in H6.
  rewrite H6, H5. injection H4 as <-. simpl. rewrite change_at_record. apply decide_ext. naive_solver.
Qed.
End block_ids.

Section commit.
Context {Signature : Type} `{FV : FuelVm} `{OC : !OffChainCodecs} `{!OffChainCodecsLaws} `{!ChainCrypto Transaction Signature}.
Context `{!HashOrder Z} `{!HashOrder Key} `{!Postcard} `{!PostcardLaws} `{!MetadataCodec} `{!MetadataCodecLaws}.

Lemma index_keys_format c k k' : index_keys c k → index_keys c k' → incomparable k k' ∧ (length k ≤ length k' + 8)%nat.
Proof.
  intros Hk Hk'. destruct Hk as [| | | | | |x Hx]; inversion Hk' as [| | | | | |y Hy]; subst; try (split; [apply same_length_incomparable|]; lia).
  pose proof (encode_index_key_length x (proj1 Hx)) as Lx. pose proof (encode_index_key_length y (proj1 Hy)) as Ly.
  unfold COIN_VARIANT_SIZE, MESSAGE_VARIANT_SIZE in *.
  destruct x as [|], y as [|]; try (split; [apply same_length_incomparable|]; lia); (split; [split; intros Hp|lia]).
  - apply prefix_length in Hp. lia.
  - by apply message_coin_keys in Hp.
  - by apply message_coin_keys in Hp.
  - apply prefix_length in Hp. lia.
Qed.

(** The keys of the database: those of its tables, and that of its metadata. *)
Inductive off_chain_keys : Z → Key → Prop :=
| oc_table c k : table_keys c k → off_chain_keys c k
| oc_metadata : off_chain_keys METADATA_COLUMN METADATA_KEY.

Lemma table_keys_format c k k' : table_keys c k → table_keys c k' → incomparable k k' ∧ (length k ≤ length k' + 8)%nat.
Proof.
  intros Hk Hk'. destruct Hk as [c k Hk| | | | | |]; inversion Hk' as [? ? Hx| | | | | |]; subst; try (by inversion Hk); try (by inversion Hx);
    try (split; [apply same_length_incomparable|]; lia).
  by eapply index_keys_format.
Qed.

Lemma table_column c k : table_keys c k → 2 ≤ c ≤ 26.
Proof. intros Hk. destruct Hk as [c k Hk| | | | | |]; [inversion Hk|..]; vm_compute; done. Qed.

Lemma off_chain_format : key_format off_chain_keys.
Proof.
  assert (∀ c k k', off_chain_keys c k → off_chain_keys c k' → incomparable k k' ∧ (length k ≤ length k' + 8)%nat) as Hall;
    [|split; intros c k k' Hk Hk'; by destruct (Hall c k k' Hk Hk')].
  intros c k k' Hk Hk'. destruct Hk as [c k Hk|]; inversion Hk' as [? ? Hx|]; subst.
  - by eapply table_keys_format.
  - apply table_column in Hk. unfold METADATA_COLUMN in Hk. lia.
  - apply table_column in Hx. unfold METADATA_COLUMN in Hx. lia.
  - split; [by apply same_length_incomparable|lia].
Qed.

Lemma table_original c k : table_keys c k → is_original c.
Proof. intros Hk%table_column. column_lia. Qed.

(** ** The height of a commit *)

Lemma one_height (ch : Changes) id h :
  length id = 32%nat → in_uint U32 h →
  (∀ k, change_at ch k FUEL_BLOCK_IDS_COLUMN = if decide (k = id) then Some (Insert (to_be_bytes 4 h)) else None) →
  off_chain_heights [ch] = Ok [h].
Proof.
  intros Hid Hh Hch. unfold off_chain_heights, inserted_entries. simpl. rewrite app_nil_r.
  assert (default ∅ (ch !! FUEL_BLOCK_IDS_COLUMN) = {[id := Insert (to_be_bytes 4 h)]}) as ->.
  { apply map_eq. intros k. unfold change_at in Hch. destruct (ch !! FUEL_BLOCK_IDS_COLUMN) as [m|]; simpl in Hch |- *.
    - rewrite Hch. case_decide; [subst; by rewrite lookup_singleton_eq|by rewrite lookup_singleton_ne].
    - specialize (Hch id). by rewrite decide_True in Hch. }
  rewrite map_to_list_singleton. cbn -[to_be_bytes decide]. rewrite decide_True by done.
  unfold decode_height. rewrite to_be_bytes_length, decide_True, from_to_be_bytes by (done || simpl; int_lia). done.
Qed.

Section worker.
Context (ser_import : ImportResult Transaction Signature (TransactionExecutionStatus Receipt ProgramState) ExecutorEvent → option Value).
Abbreviation Import := (ImportResult Transaction Signature (TransactionExecutionStatus Receipt ProgramState) ExecutorEvent).

(** The id of a block is a hash, and its height a [u32]. *)
Definition wf_import (r : Import) : Prop := length (block_id (entity (sealed_block r))) = 32%nat ∧ in_uint U32 (import_height r).

Lemma indexed_height (ws : WorkerSettings) (r : Import) (x : Db) t n :
  wf_import r → index_block ws r (into_transaction x) = (t, Ok n) → off_chain_heights [changes t] = Ok [import_height r].
Proof using Type*.
  intros [Hid Hh] Hr. eapply one_height; [exact Hid|done|]. intros k. rewrite (block_id_change _ _ _ _ _ k Hr).
  case_decide; [done|]. unfold change_at. simpl. by rewrite lookup_empty.
Qed.

(** The database takes a block only at the next height, and keeps_column its height otherwise. *)
Lemma commit_height (db db' : Database) ch h r :
  off_chain_heights [ch] = Ok [h] → commit_changes_with_height_update off_chain_heights db (SChanges ch) = (db', r) →
  match r with
  | Ok _ => Database.height db' = Some h ∧ (Database.height db = None ∨ Database.height db = Some (h - 1))
  | Err _ => Database.height db' = Database.height db
  end.
Proof using Type.
  intros Hh. unfold commit_changes_with_height_update. cbn [changes_list]. rewrite Hh, decide_False by (simpl; lia). simpl last.
  destruct (check_heights (Database.height db) (Some h)) as [[]|e] eqn:Hc; [|by intros [= <- <-]].
  destruct (result_bind _ _) as [sc|e]; [|by intros [= <- <-]].
  destruct (hist_commit_changes _ _ _) as [d [[]|e]]; intros [= <- <-]; [|done]. split; [done|].
  unfold check_heights, advance_height in Hc. destruct (Database.height db) as [x|]; [right|by left]. repeat case_decide; try done. f_equal. lia.
Qed.

Definition ValidImport : Type := { r : Import | wf_import r }.

Definition import_processor : BlockProcessor Task ValidImport WorkerError := {|
  bp_process := λ w r, process_block ser_import w (`r);
  bp_height := λ w, Database.height (w_database w);
  bp_block_height := λ r, import_height (`r);
|}.

(** With a serialization that does not fail, the worker's task has what its loops rely on. *)
Lemma import_processor_laws : (∀ r, is_Some (ser_import r)) → @BlockProcessorLaws Task ValidImport WorkerError import_processor.
Proof using Type*.
  intros Hser.
  assert (∀ w (r : ValidImport) w' o, process_block ser_import w (`r) = (w', o) →
    match o with
    | Ok _ => Database.height (w_database w') = Some (import_height (`r)) ∧
              (Database.height (w_database w) = None ∨ Database.height (w_database w) = Some (import_height (`r) - 1))
    | Err _ => Database.height (w_database w') = Database.height (w_database w)
    end) as Hall.
  { intros w [r Hr] w' o. simpl. unfold process_block.
    destruct (index_block _ _ _) as [t [n|e]] eqn:Hx; [|by intros [= <- <-]].
    destruct (commit_changes_with_height_update _ _ _) as [db o1] eqn:Hc.
    pose proof (commit_height _ _ _ _ _ (indexed_height _ _ _ _ _ Hr Hx) Hc) as Hh.
    destruct o1 as [[]|e]; [|by intros [= <- <-]]. destruct (notify_and_update _ _) as [woken handler].
    destruct (Hser r) as [raw ->]. by intros [= <- <-]. }
  split; [intros w r w' Hp; exact (Hall w r w' (Ok ()) Hp)|intros w r w' e Hp; exact (Hall w r w' (Err e) Hp)].
Qed.

(** ** One version of the database *)

Lemma changes_within (ch : Changes) : within table_keys ch → changes_ok off_chain_keys [ch].
Proof using Type.
  intros [Hc Hk]. split_and!; [|apply Forall_singleton; split|apply Forall_singleton].
  - by intros [|i] [|j] ch1 ch2 c Hi Hj.
  - intros c (k & Hck)%Hc. by eapply table_original.
  - intros k c Hck. by apply oc_table, Hk.
  - apply eq_None_not_Some. intros (k & Hck%table_column)%Hc. unfold METADATA_COLUMN in Hck. lia.
Qed.

Lemma column_range c : c ∈ head_columns ++ index_columns → 2 ≤ c ≤ 26.
Proof using Type.
  intros Hc. assert (Forall (λ c, 2 ≤ c ≤ 26) (head_columns ++ index_columns)) as Hall by (apply (bool_decide_unpack _); by vm_compute).
  rewrite Forall_forall in Hall. by apply Hall.
Qed.

Lemma commit_version p (db : Database) v revs ch :
  db_ok off_chain_keys p db v revs → within table_keys ch → off_chain_heights [ch] = Ok [v_latest v + 1] → v_latest v + 1 ≤ U32 →
  ∃ db' v' revs', commit_changes_with_height_update off_chain_heights db (SChanges ch) = (db', Ok ()) ∧
    db_ok off_chain_keys p db' v' revs' ∧ v_latest v' = v_latest v + 1 ∧
    ∀ k c, is_original c → c ≠ METADATA_COLUMN →
      view_of (rocks (data db')) k c = applied (change_at ch k c) (view_of (rocks (data db)) k c).
Proof using Type*.
  intros Hok Hin Hhs Hmax. unfold commit_changes_with_height_update. cbn [changes_list]. rewrite Hhs, decide_False by (simpl; lia). simpl last.
  destruct (ho_states _ _ _ _ (do_history _ _ _ _ _ Hok)) as (s & states & Hs & Hsh & _).
  rewrite (do_height _ _ _ _ _ Hok). cbn [check_heights]. unfold advance_height. rewrite decide_True, decide_True by (done || lia).
  rewrite (db_metadata_changes off_chain_keys p db v revs Hok s states _ Hs). cbn [result_bind changes_list].
  destruct (commit_push off_chain_keys oc_metadata p db v revs Hok [ch] (v_latest v + 1) s states) as (d & revs' & -> & Hok');
    [by apply changes_within|done|done|done|]. eexists _, _, _. split; [done|]. split; [exact Hok'|]. split; [done|].
  intros k c Hc Hm. destruct (ho_states _ _ _ _ (do_history _ _ _ _ _ Hok')) as (s' & states' & Hs' & Hsh' & _). injection Hs' as <- _.
  unfold view_of. simpl. rewrite Hsh', Hsh by done. unfold with_metadata. rewrite decide_False by naive_solver.
  unfold after_all. simpl. unfold after. by destruct (change_at ch k c) as [[]|].
Qed.

Definition stored (w : Task) : View.t := view_of (rocks (data (w_database w))).

Lemma process_block_ok p (w : Task) v revs (r : Import) s L raw :
  let ws := w_settings w in
  db_ok off_chain_keys p (w_database w) v revs → wf_import r → import_height r = v_latest v + 1 →
  length (ws_base_asset_id ws) = 32%nat → block_fits ws r (stored w) s → wf_ledger L → events_ok L (events r) →
  Z.of_nat (ledger_size L + length (events r)) ≤ U64 →
  indexed (ws_base_asset_id ws) (ws_balances ws) (ws_coins_to_spend ws) (stored w) L → ser_import r = Some raw →
  ∃ w' v' revs', process_block ser_import w r = (w', Ok ()) ∧ db_ok off_chain_keys p (w_database w') v' revs' ∧ v_latest v' = import_height r ∧
    w_settings w' = ws ∧ block_indexed ws r (stored w) s L (stored w') ∧ w_completed w' = w_completed w ++ completed r ∧
    w_published w' = w_published w ++ [raw].
Proof using Type*.
  intros ws Hok Hwf Hh Hbase Hfit HL Hev Hsize Hix Hser.
  destruct (block_step (rocks (data (w_database w))) ws r (stored w) s L Hbase Hfit HL Hev Hsize Hix) as (n & w1 & R & Hbx & Hoc).
  destruct (R _ (into_transaction_ok (rocks (data (w_database w))) table_keys)) as (t & Ht & [Hsh Hst Hin]).
  pose proof (indexed_height _ _ _ _ _ Hwf Ht) as Hhs. rewrite Hh in Hhs.
  destruct (commit_version p (w_database w) v revs (changes t) Hok Hin Hhs) as (db' & v' & revs' & Hc & Hok' & Hl & Hview).
  { rewrite <- Hh. by destruct Hwf as [_ [_ ?]]. }
  unfold process_block. fold ws. rewrite Ht, Hc. destruct (notify_and_update _ _) as [woken handler]. rewrite Hser.
  eexists _, v', revs'. split; [done|]. split_and!; [done|by rewrite Hh|done| |done|done].
  eapply block_indexed_ext, Hbx. intros k c Hcol. unfold stored. cbn [w_database]. rewrite Hview.
  - rewrite <- Hsh, tx_get_applied. by rewrite Hst.
  - unfold is_original. pose proof (column_range c Hcol). column_lia.
  - pose proof (column_range c Hcol). unfold METADATA_COLUMN. lia.
Qed.
End worker.
End commit.

(** * The off-chain database along a chain

    A chain of imports can be indexed from a view when its transactions are new, its receipts
    are allowed by the supplies, and its events by the ledger.  The worker then takes its blocks
    one after the other, and its tables stay the indexes of the ledger. *)

Section chain.
Context {Signature : Type} `{FV : FuelVm} `{OC : !OffChainCodecs} `{OL : !OffChainCodecsLaws} `{!ChainCrypto Transaction Signature}.
Context `{!HashOrder Z} `{!HashOrder Key} `{!Postcard} `{!PostcardLaws} `{!MetadataCodec} `{!MetadataCodecLaws}.
Abbreviation Import := (ImportResult Transaction Signature (TransactionExecutionStatus Receipt ProgramState) ExecutorEvent).
Context (ser_import : Import → option Value) (ser_ok : ∀ r, is_Some (ser_import r)).
Context (ws : WorkerSettings) (base_ok : length (ws_base_asset_id ws) = 32%nat).

Abbreviation receipts r := (supply_receipt <$> successful_receipts (tx_status r)).

Definition chain_status_ids (rs : list Import) : list TxId := rs ≫= λ r, status_id <$> tx_status r.
Definition chain_events (rs : list Import) : list ExecutorEvent := rs ≫= events.
Definition chain_receipts (rs : list Import) : list SupplyReceipt := rs ≫= λ r, receipts r.

(** What a block has by its types and by its validity, whatever the database. *)
Record sound_import (r : Import) : Prop := {
  si_wf : wf_import r;
  si_owners : wf_owners (entity (sealed_block r));
  si_contracts : Forall wf_contract (transactions (entity (sealed_block r)));
}.

(** The blocks can be indexed one after the other. *)
Record chain_fits (rs : list Import) (w : View.t) (s : AssetId → Z) (L : Ledger) : Prop := {
  cf_sound : Forall sound_import rs;
  cf_distinct : NoDup (chain_status_ids rs);
  cf_new id : id ∈ chain_status_ids rs → length id = 32%nat ∧ w id TRANSACTION_STATUS_COLUMN = Ok None;
  cf_receipts : ws_asset_metadata ws = true → supplies w s ∧ receipts_fit s (chain_receipts rs);
  cf_count : ∃ c, row StatisticTable w TX_COUNT = Ok c ∧ 0 ≤ default 0 c;
  cf_ledger : wf_ledger L;
  cf_events : events_ok L (chain_events rs);
  cf_size : Z.of_nat (ledger_size L + length (chain_events rs)) ≤ U64;
  cf_indexed : indexed (ws_base_asset_id ws) (ws_balances ws) (ws_coins_to_spend ws) w L;
}.

Lemma events_ok_app evs evs' : ∀ L, events_ok L (evs ++ evs') ↔ events_ok L evs ∧ events_ok (foldl ledger_event L evs) evs'.
Proof. induction evs as [|ev evs IH]; intros L; simpl; [naive_solver|]. rewrite IH. naive_solver. Qed.

Lemma events_size evs : ∀ L, (ledger_size (foldl ledger_event L evs) ≤ ledger_size L + length evs)%nat.
Proof.
  induction evs as [|ev evs IH]; intros L; simpl; [lia|]. pose proof (IH (ledger_event L ev)). pose proof (ledger_event_size L ev). lia.
Qed.

Lemma chain_block r rs w s L : chain_fits (r :: rs) w s L →
  block_fits ws r w s ∧ wf_ledger L ∧ events_ok L (events r) ∧ Z.of_nat (ledger_size L + length (events r)) ≤ U64.
Proof.
  intros [Hs Hd Hn Hr Hc HL He Hz Hx]. apply Forall_cons in Hs as [[[Hid _] Ho Hk] _]. unfold chain_status_ids in Hd, Hn. simpl in Hd, Hn.
  apply NoDup_app in Hd as [Hd _]. change (chain_events (r :: rs)) with (events r ++ chain_events rs) in *.
  change (chain_receipts (r :: rs)) with (receipts r ++ chain_receipts rs) in *. apply events_ok_app in He as [He _].
  rewrite length_app in Hz. split_and!; [|done|done|lia]. split; try done.
  - split; [done|]. intros st Hst. apply Hn, elem_of_app. left. by apply list_elem_of_fmap_2.
  - intros Ha. destruct (Hr Ha) as [Hsup Hfit]. apply receipts_fit_app in Hfit as [? _]. done.
Qed.

Lemma chain_one r w s L :
  wf_import r → block_fits ws r w s → wf_ledger L → events_ok L (events r) → Z.of_nat (ledger_size L + length (events r)) ≤ U64 →
  indexed (ws_base_asset_id ws) (ws_balances ws) (ws_coins_to_spend ws) w L → chain_fits [r] w s L.
Proof.
  intros Hwf [[Hd Hn] Hr Ho Hk _ Hc] HL He Hz Hx.
  assert (chain_status_ids [r] = status_id <$> tx_status r) as Hids by apply app_nil_r.
  assert (chain_events [r] = events r) as Hevs by apply app_nil_r. assert (chain_receipts [r] = receipts r) as Hrs by apply app_nil_r.
  split; rewrite ?Hids, ?Hevs, ?Hrs; try done; [by apply Forall_singleton|].
  intros id (st & -> & Hst)%list_elem_of_fmap. by apply Hn.
Qed.

Lemma chain_after r rs w s L w' : chain_fits (r :: rs) w s L → block_indexed ws r w s L w' →
  chain_fits rs w' (foldl supply_after s (receipts r)) (foldl ledger_event L (events r)).
Proof.
  intros [Hs Hd Hn Hr (c & Hc & Hc0) HL He Hz Hx] [[Snew Sold] Su _ _ _ Cn Ix]. apply Forall_cons in Hs as [_ Hs].
  unfold chain_status_ids in Hd, Hn. simpl in Hd, Hn. apply NoDup_app in Hd as (_ & Hdis & Hd).
  change (chain_events (r :: rs)) with (events r ++ chain_events rs) in *.
  change (chain_receipts (r :: rs)) with (receipts r ++ chain_receipts rs) in *. apply events_ok_app in He as [He1 He].
  rewrite length_app in Hz. split; try done.
  - intros id Hid. destruct (Hn id) as [Hl Hv]; [apply elem_of_app; by right|]. split; [done|]. rewrite Sold; [done|].
    intros Hin. by destruct (Hdis id Hin).
  - intros Ha. destruct (Hr Ha) as [_ Hfit]. apply receipts_fit_app in Hfit as [_ ?]. split; [by apply Su|done].
  - eexists. split; [by apply Cn|]. simpl. unfold sat_add. int_lia.
  - by apply events_wf.
  - pose proof (events_size (events r) L). lia.
Qed.

(** ** The worker along the chain *)

#[local] Instance processor : BlockProcessor Task (ValidImport (Signature := Signature)) WorkerError := import_processor ser_import.
Context (p : StateRewindPolicy) (g : Z) (chain : list (ValidImport (Signature := Signature))) (linked_chain : linked g chain).
Context (m : nat) (L0 : Ledger).

Definition imports (l : list (ValidImport (Signature := Signature))) : list Import := proj1_sig <$> l.

(** The ledger after the first [n] blocks, from the one after [m]. *)
Definition ledger_after (n : nat) : Ledger := foldl ledger_event L0 (chain_events (imports (drop m (take n chain)))).

(** The task has taken the first [n] blocks. *)
Definition up_to (n : nat) (w : Task) : Prop :=
  (m ≤ n)%nat ∧ w_settings w = ws ∧ ∃ v revs s, db_ok off_chain_keys p (w_database w) v revs ∧ v_latest v = g + Z.of_nat n - 1 ∧
    chain_fits (imports (drop n chain)) (stored w) s (ledger_after n).

Lemma ledger_after_next n (b : ValidImport) : (m ≤ n)%nat → chain !! n = Some b →
  ledger_after (S n) = foldl ledger_event (ledger_after n) (events (`b)).
Proof.
  intros Hm Hb. unfold ledger_after. rewrite (take_S_r _ _ _ Hb), drop_app_le by (rewrite length_take; apply lookup_lt_Some in Hb; lia).
  unfold imports, chain_events. rewrite fmap_app, bind_app, foldl_app. simpl. by rewrite app_nil_r.
Qed.

Lemma up_to_next n w b : up_to n w → chain !! n = Some b →
  ∃ w', bp_process w b = (w', Ok ()) ∧ up_to (S n) w'.
Proof using OL base_ok linked_chain ser_ok H0 H2.
  intros (Hm & Hws & v & revs & s & Hok & Hl & Hfit) Hb. pose proof (drop_S _ _ _ Hb) as Hd. rewrite Hd in Hfit.
  cbn [imports fmap list_fmap] in Hfit. pose proof (chain_block _ _ _ _ _ Hfit) as (Hbf & HL & Hev & Hz).
  destruct (ser_ok (`b)) as [raw Hraw].
  destruct (process_block_ok ser_import p w v revs (`b) s (ledger_after n) raw) as (w' & v' & revs' & Hp & Hok' & Hl' & Hws' & Hbx & _);
    rewrite ?Hws; try done.
  - by destruct b.
  - rewrite Hl. pose proof (lk_height g _ linked_chain _ _ Hb) as Hh. simpl in Hh. rewrite Hh. lia.
  - apply Hfit.
  - exists w'. split; [done|]. split; [lia|]. split; [by rewrite Hws'|]. eexists v', revs', _. split; [done|]. split.
    + rewrite Hl'. pose proof (lk_height g _ linked_chain _ _ Hb) as Hh. simpl in Hh. rewrite Hh. lia.
    + rewrite (ledger_after_next n b Hm Hb). rewrite Hws in Hbx. by eapply chain_after.
Qed.
End chain.
