(* ===== verification/CoinSelection.v ===== *)
(** * Facts about the selection of coins

    A selection takes distinct available coins, no more than the limit; it reaches the target
    whenever the largest coins within the limit do, whatever the random choices are, and its
    error otherwise tells what these sum up to. *)

From stdpp Require Import prelude gmap list strings sorting.
From Stdlib Require Import ZArith Lia.
From S2P Require Import Prelude.
From S2P Require Import StorageTx.
From S2P Require Import HistoricalDb.
From S2P Require Import Blocks.
From S2P Require Import Producer.
From S2P Require Import ExecTypes.
From S2P Require Import VmStorage.
From S2P Require Import Executor.
From S2P Require Import Iteration.
From S2P Require Import OffChain.
From S2P Require Import OffChainQuery.
Local Open Scope Z_scope.

(** ** Sums of a part of a list *)

Lemma lsum_take_drop {A} (f : A → Z) n l : lsum f l = lsum f (take n l) + lsum f (drop n l).
Proof. rewrite <- lsum_app. by rewrite take_drop. Qed.

Lemma lsum_bound {A} (f : A → Z) b l : (∀ x, x ∈ l → f x ≤ b) → lsum f l ≤ b * Z.of_nat (length l).
Proof.
  induction l as [|x l IH]; intros Hb; [rewrite lsum_nil; simpl; lia|]. rewrite lsum_cons. simpl.
  pose proof (Hb x ltac:(by left)). assert (lsum f l ≤ b * Z.of_nat (length l)) by (apply IH; set_solver). lia.
Qed.

Lemma lsum_take_mono {A} (f : A → Z) n m l : (∀ x, x ∈ l → 0 ≤ f x) → (n ≤ m)%nat → lsum f (take n l) ≤ lsum f (take m l).
Proof.
  intros Hf Hn. rewrite (lsum_take_drop f n (take m l)), take_take, Nat.min_l by done.
  assert (0 ≤ lsum f (drop n (take m l))); [|lia]. apply lsum_nonneg. intros x Hx. apply Hf.
  apply list_elem_of_lookup in Hx as [i Hi]. rewrite lookup_drop in Hi. apply lookup_take_Some in Hi as [Hi _]. by eapply list_elem_of_lookup_2.
Qed.

(** ** Selection over the index *)

Section index.
Context (e : Exclude).
Implicit Types (k : CoinsToSpendIndexKey) (l ks : list CoinsToSpendIndexKey).
Abbreviation stream := (list (result CoinsToSpendIndexKey StorageError)).
Abbreviation oks l := ((λ k, Ok k) <$> l : stream).
Abbreviation total := (lsum key_amount).

(** The coins that are not excluded. *)
Definition available ks : list CoinsToSpendIndexKey := filter (λ k, is_excluded k e = false) ks.

Lemma select_available ks max pred : ∀ t coins, select_loop (oks ks) max e pred t coins = select_loop (oks (available ks)) max e pred t coins.
Proof.
  induction ks as [|k ks IH]; intros t coins; [done|]. unfold available. rewrite filter_cons. cbn [fmap list_fmap select_loop].
  destruct (is_excluded k e) eqn:He.
  - rewrite decide_False by (by intros [=]). apply IH.
  - destruct (decide (false = false)); [|done]. cbn [fmap list_fmap select_loop]. rewrite He. repeat (case_match; [done|]). apply IH.
Qed.

Definition small_amounts l : Prop := ∀ k, k ∈ l → in_uint U64 (key_amount k).

(** How far the selection goes. *)
Lemma select_stops max pred l : ∀ t coins,
  (∀ k, k ∈ l → is_excluded k e = false) → small_amounts l → 0 ≤ t → Z.of_nat (length coins) ≤ max →
  t + U64 * (max - Z.of_nat (length coins)) ≤ U128 →
  ∃ n, (n ≤ length l)%nat ∧
    select_loop (oks l) max e pred t coins = Ok (t + total (take n l), coins ++ take n l, bool_decide (n < length l)%nat) ∧
    Z.of_nat (length coins + n) ≤ max ∧
    (∀ k, l !! n = Some k → max ≤ Z.of_nat (length coins + n) ∨ pred k (t + total (take n l)) = true) ∧
    (∀ i k, (i < n)%nat → l !! i = Some k → pred k (t + total (take i l)) = false).
Proof.
  induction l as [|k l IH]; intros t coins Hx Hs Ht Hm Hb.
  { exists 0%nat. split_and!; [done| |lia|done|intros; lia]. cbn [take]. by rewrite lsum_nil, Z.add_0_r, app_nil_r. }
  cbn [fmap list_fmap select_loop]. rewrite Hx by (by left).
  assert (in_uint U64 (key_amount k)) as Hk by (apply Hs; by left).
  case_decide as Hmax; [|destruct (pred k t) eqn:Hp].
  - exists 0%nat. cbn [take]. rewrite lsum_nil, Z.add_0_r, app_nil_r. split_and!; [lia|done|lia| |intros; lia]. intros. left. lia.
  - exists 0%nat. cbn [take]. rewrite lsum_nil, Z.add_0_r, app_nil_r. split_and!; [lia|done|lia| |intros; lia]. intros ? [= <-]. by right.
  - destruct (IH (t + key_amount k) (coins ++ [k])) as (n & Hn & He & Hlen & Hstop & Hgo);
      [intros; apply Hx; by right|intros ? ?; apply Hs; by right|int_lia|rewrite length_app; simpl; lia|rewrite length_app; simpl; int_lia|].
    rewrite length_app in Hlen, Hstop. simpl in Hlen, Hstop.
    exists (S n). cbn [take length]. rewrite lsum_cons. split_and!.
    + lia.
    + replace (sat_add U128 t (key_amount k)) with (t + key_amount k) by (unfold sat_add; int_lia). rewrite He, <- app_assoc. simpl.
      rewrite Z.add_assoc. f_equal. f_equal. apply bool_decide_ext. lia.
    + lia.
    + intros k' Hk'. simpl in Hk'. apply Hstop in Hk'. rewrite Z.add_assoc.
      replace (length coins + S n)%nat with (length coins + 1 + n)%nat by lia. done.
    + intros [|i] k' Hi Hk'; [simpl in Hk'; injection Hk' as <-; cbn [take]; rewrite lsum_nil, Z.add_0_r; done|].
      cbn [take]. rewrite lsum_cons, Z.add_assoc. apply Hgo; [lia|done].
Qed.

(** Big coins that the dust pays for are left out. *)
Lemma skip_big l : ∀ d, 0 ≤ d → small_amounts l →
  ∃ j, skip_big_coins_up_to_amount l d = drop j l ∧ (j ≤ length l)%nat ∧ total (take j l) ≤ d.
Proof.
  induction l as [|k l IH]; intros d Hd Hs; [by exists 0%nat|]. cbn [skip_big_coins_up_to_amount]. case_decide as Hk.
  - assert (in_uint U64 (key_amount k)) by (apply Hs; by left).
    destruct (IH (d - key_amount k)) as (j & -> & Hj & Ht); [lia|intros ? ?; apply Hs; by right|].
    exists (S j). cbn [take length]. rewrite lsum_cons. split_and!; [done|lia|lia].
  - exists 0%nat. split_and!; [done|lia|done].
Qed.

Lemma take_of_reverse {A} n (l : list A) : (n ≤ length l)%nat → take n (reverse l) = reverse (drop (length l - n) l).
Proof.
  intros Hn. rewrite <- (take_drop (length l - n) l) at 1. rewrite reverse_app, take_app_length'; [done|].
  rewrite length_reverse, length_drop. lia.
Qed.

Section selection.
Context (ks : list CoinsToSpendIndexKey) (ks_nodup : NoDup ks) (ks_amounts : small_amounts ks).
Context (owner : Address) (a : AssetSpendTarget) (gen_range : Z → Z) (gen_ok : ∀ b, 0 ≤ b → 0 ≤ gen_range b ≤ b).
Context (target_ok : 0 < target a ≤ U128) (max_ok : 0 < target_max a ≤ U16).

Abbreviation av := (available ks).
Abbreviation max := (Z.to_nat (target_max a)).

(** What the largest coins within the limit sum up to. *)
Definition best : Z := total (take max (reverse av)).

Lemma av_small : small_amounts av.
Proof using ks_amounts. intros k [_ Hk]%list_elem_of_filter. by apply ks_amounts. Qed.
Lemma av_free k : k ∈ av → is_excluded k e = false.
Proof. by intros [? _]%list_elem_of_filter. Qed.
Lemma av_nodup : NoDup av.
Proof using ks_nodup. by apply NoDup_filter. Qed.
Lemma av_nonneg k : k ∈ reverse av → 0 ≤ key_amount k.
Proof using ks_amounts. rewrite elem_of_reverse. intros Hk%av_small. int_lia. Qed.

Lemma big_selection : ∃ n, (n ≤ length av)%nat ∧ (n ≤ max)%nat ∧
  big_coins (oks (reverse ks)) (sat_mul U128 (target a) TOTAL_AMOUNT_ADJUSTMENT_FACTOR) (target_max a) e =
    Ok (total (take n (reverse av)), take n (reverse av), bool_decide (n < length av)%nat) ∧
  total (take n (reverse av)) ≤ best ∧
  (total (take n (reverse av)) < target a → total (take n (reverse av)) = best ∧ n = Nat.min max (length av)).
Proof using ks_amounts target_ok max_ok.
  unfold big_coins, select_coins_until. rewrite select_available. unfold available at 2. rewrite filter_reversed. fold (available ks).
  set (goal := sat_mul U128 (target a) TOTAL_AMOUNT_ADJUSTMENT_FACTOR).
  assert (target a ≤ goal) as Hgoal by (unfold goal, sat_mul, TOTAL_AMOUNT_ADJUSTMENT_FACTOR; lia).
  destruct (select_stops (target_max a) (λ _ t, bool_decide (goal ≤ t)) (reverse av) 0 []) as (n & Hn & -> & Hmax & Hstop & _).
  { intros k. rewrite elem_of_reverse. apply av_free. }
  { intros k. rewrite elem_of_reverse. apply av_small. }
  { done. }
  { simpl. lia. }
  { simpl. int_lia. }
  rewrite length_reverse in Hn |- *. simpl in Hmax, Hstop |- *. exists n. split_and!; [done|lia|done| |].
  - apply lsum_take_mono; [apply av_nonneg|lia].
  - intros Hlt. assert (n = Nat.min max (length av)) as Hmin.
    { destruct (decide (n = length av)) as [->|Hne]; [lia|].
      destruct (lookup_lt_is_Some_2 (reverse av) n) as [k Hk]; [rewrite length_reverse; lia|].
      destruct (Hstop k Hk) as [?|Hp]; [lia|]. apply bool_decide_eq_true in Hp. lia. }
    split; [|done]. unfold best. rewrite Hmin. destruct (Nat.min_spec max (length av)) as [[_ ->]|[Hle ->]]; [done|].
    rewrite !take_ge by (rewrite length_reverse; lia). done.
Qed.

(** Dust comes before the last of the big coins. *)
Lemma dust_selection n lb dust_max :
  (n ≤ length av)%nat → last (take n (reverse av)) = Some lb → 0 ≤ dust_max ≤ U16 →
  ∃ m, (m + n ≤ length av)%nat ∧ Z.of_nat m ≤ dust_max ∧
    ∃ more, dust_coins (oks ks) lb dust_max e = Ok (total (take m av), take m av, more).
Proof using ks_amounts.
  intros Hn Hlast Hd. unfold dust_coins, select_coins_until. rewrite select_available.
  destruct (select_stops dust_max (λ c _, bool_decide (c = lb)) av 0 []) as (m & Hm & -> & Hmax & _ & Hgo);
    [apply av_free|apply av_small|done|simpl; lia|simpl; int_lia|].
  exists m. simpl in Hmax |- *. split_and!; [|done|by eexists].
  rewrite take_of_reverse in Hlast by done. rewrite last_reverse in Hlast. rewrite head_lookup, lookup_drop, Nat.add_0_r in Hlast.
  destruct (decide (length av - n < m)%nat) as [Hlt|]; [|lia]. specialize (Hgo _ _ Hlt Hlast). by apply bool_decide_eq_false in Hgo.
Qed.

Record valid_selection (sel : list CoinsToSpendIndexKey) : Prop := {
  vs_available k : k ∈ sel → k ∈ av;
  vs_nodup : NoDup sel;
  vs_length : Z.of_nat (length sel) ≤ target_max a;
}.

Lemma joined_valid n m j :
  (m + n ≤ length av)%nat → Z.of_nat (m + n) ≤ target_max a → valid_selection (drop j (take n (reverse av)) ++ take m av).
Proof using ks_nodup max_ok.
  intros Hmn Hmax. rewrite take_of_reverse by lia. split.
  - intros k [Hk|Hk]%elem_of_app.
    + eapply elem_of_reverse. apply (elem_of_submseteq _ _ _ Hk). rewrite <- take_of_reverse by lia. apply sublist_submseteq.
      etrans; [apply sublist_drop|apply sublist_take].
    + apply (elem_of_submseteq _ _ _ Hk), sublist_submseteq, sublist_take.
  - apply NoDup_app. pose proof av_nodup as Hnd. rewrite <- (take_drop (length av - n) av) in Hnd. apply NoDup_app in Hnd as (H1 & Hdis & H2).
    split_and!.
    + eapply sublist_NoDup; [|apply sublist_drop]. by rewrite reverse_Permutation.
    + intros k Hk Hm. assert (k ∈ reverse (drop (length av - n) av)) as Hk' by (apply (elem_of_submseteq _ _ _ Hk), sublist_submseteq, sublist_drop).
      rewrite elem_of_reverse in Hk'. apply (Hdis k); [|done]. apply (elem_of_submseteq _ _ _ Hm), sublist_submseteq.
      replace m with (Nat.min m (length av - n)) by lia. rewrite <- take_take. apply sublist_take.
    + eapply sublist_NoDup; [apply av_nodup|apply sublist_take].
  - rewrite length_app, length_drop, length_reverse, length_drop, length_take. lia.
Qed.

Lemma select_exact :
  match select_coins_to_spend gen_range {| big_coins_iter := oks (reverse ks); dust_coins_iter := oks ks |} a e owner with
  | Ok sel => valid_selection sel ∧ Z.min (target a) best ≤ total sel ∧ (target a ≤ best ∨ allow_partial a = true ∧ 0 < best)
  | Err err => best < target a ∧ (best = 0 ∨ allow_partial a = false) ∧
      err = if decide (max < length av)%nat then MaxCoinsReached owner (target_id a) best (target_max a)
            else InsufficientCoins owner (target_id a) best
  end.
Proof using All.
  unfold select_coins_to_spend. rewrite decide_False by lia. cbn [big_coins_iter dust_coins_iter].
  destruct big_selection as (n & Hn & Hnm & -> & Hle & Hlt). cbn [result_bind]. set (big := take n (reverse av)) in *.
  assert (0 ≤ total big) as Hbig0 by (apply lsum_nonneg; intros k Hk; apply av_nonneg; by eapply elem_of_submseteq, sublist_submseteq, sublist_take).
  assert (length big = n) as Hlen by (unfold big; rewrite length_take, length_reverse; lia).
  case_decide as Herr.
  - destruct (Hlt ltac:(destruct allow_partial; lia)) as [Hb Hmin]. rewrite Hlen.
    assert (best < target a ∧ (best = 0 ∨ allow_partial a = false)) as [? ?] by (rewrite <- Hb; naive_solver lia).
    destruct (decide (max < length av)%nat) as [Hm|Hm].
    + rewrite decide_True by (split; [lia|apply bool_decide_eq_true; lia]). by rewrite Hb.
    + rewrite decide_False by (rewrite bool_decide_eq_true; lia). by rewrite Hb.
  - destruct (last big) as [lb|] eqn:Hlast.
    2: { apply last_None in Hlast. rewrite Hlast, lsum_nil in Herr. naive_solver. }
    rewrite decide_True by (rewrite Hlen; int_lia). rewrite Hlen.
    set (dmax := max_dust_count gen_range (target_max a) (Z.of_nat n) DUST_TO_BIG_COINS_FACTOR).
    assert (0 ≤ dmax ≤ target_max a - Z.of_nat n) as Hd.
    { unfold dmax, max_dust_count, DUST_TO_BIG_COINS_FACTOR, sat_mul, sat_sub. 
      pose proof (gen_ok (Z.min (Z.min U16 (Z.of_nat n * 5)) (Z.max 0 (target_max a - Z.of_nat n)))). int_lia. }
    destruct (dust_selection n lb dmax Hn Hlast ltac:(int_lia)) as (m & Hm & Hmd & more & ->). cbn [result_bind].
    destruct (skip_big big (total (take m av))) as (j & -> & Hj & Hskip).
    { apply lsum_nonneg. intros k Hk. apply av_nonneg. rewrite elem_of_reverse. by eapply elem_of_submseteq, sublist_submseteq, sublist_take. }
    { intros k Hk. apply av_small. rewrite <- elem_of_reverse. by eapply elem_of_submseteq, sublist_submseteq, sublist_take. }
    split_and!; [apply joined_valid; lia| |].
    + rewrite lsum_app. pose proof (lsum_take_drop key_amount j big). destruct (decide (total big < target a)) as [Hl|]; [|lia].
      destruct (Hlt Hl). lia.
    + destruct (decide (total big < target a)) as [Hl|]; [|left; lia]. destruct (Hlt Hl) as [Hb _]. right.
      destruct (allow_partial a); [split; [done|lia]|naive_solver].
Qed.
End selection.
End index.

(** ** Selection of the largest coins *)

(** The largest numbers of a list have the largest sum. *)
Abbreviation desc := (StronglySorted (λ x y : Z, y ≤ x)).

Lemma sum_Z_cons x (l : list Z) : sum_Z (x :: l) = x + sum_Z l.
Proof. done. Qed.

Lemma largest_sum (l : list Z) : ∀ (sub : list Z) n, desc l → Forall (λ x, 0 ≤ x) l → sub ⊆+ l → (length sub ≤ n)%nat →
  sum_Z sub ≤ sum_Z (take n l).
Proof.
  induction l as [|x l IH]; intros sub n Hs Hp Hsub Hn.
  { apply submseteq_nil_r in Hsub as ->. by rewrite take_nil. }
  apply StronglySorted_inv in Hs as [Hs Hx]. pose proof Hp as Hp'. apply Forall_cons in Hp as [Hx0 Hp].
  destruct n as [|n]; [by destruct sub; [|simpl in Hn; lia]|]. cbn [take]. rewrite sum_Z_cons.
  destruct (decide (x ∈ sub)) as [Hin|Hni].
  - apply list_elem_of_split in Hin as (l1 & l2 & ->). assert (l1 ++ x :: l2 ≡ₚ x :: l1 ++ l2) as Hperm by (symmetry; apply Permutation_middle).
    rewrite Hperm in Hsub |- *. rewrite sum_Z_cons. apply Z.add_le_mono_l, IH; [done|done|by apply (submseteq_app_inv_l _ _ [x])|].
    rewrite Hperm in Hn. simpl in Hn. lia.
  - apply submseteq_cons_r in Hsub as [Hsub|(l' & He & _)]; [|rewrite He in Hni; set_solver].
    destruct sub as [|y sub].
    { simpl. assert (0 ≤ sum_Z (take n l)); [|lia]. apply sum_Z_nonneg. by apply Forall_take. }
    rewrite sum_Z_cons. assert (y ≤ x).
    { rewrite Forall_forall in Hx. apply Hx. eapply elem_of_submseteq; [|exact Hsub]. by left. }
    assert (sum_Z sub ≤ sum_Z (take n l)); [|lia]. apply IH; [done|done| |simpl in Hn; lia].
    etrans; [|exact Hsub]. by apply submseteq_cons.
Qed.

Section largest.
Implicit Types (inputs l : list CoinType).
Abbreviation total := (lsum ct_amount).

Lemma insert_desc_perm c l : insert_desc c l ≡ₚ c :: l.
Proof. induction l as [|d l IH]; [done|]. cbn [insert_desc]. case_decide; [done|]. rewrite IH. apply Permutation_swap. Qed.

Lemma sort_desc_perm l : sort_desc l ≡ₚ l.
Proof. induction l as [|c l IH]; [done|]. cbn [sort_desc foldr]. rewrite insert_desc_perm. by f_equiv. Qed.

Lemma insert_desc_sorted c l : desc (ct_amount <$> l) → desc (ct_amount <$> insert_desc c l).
Proof.
  induction l as [|d l IH]; intros Hs; [by repeat constructor|]. pose proof Hs as Hs'. apply StronglySorted_inv in Hs' as [Hl Hd].
  cbn [insert_desc]. case_decide as Hc.
  - constructor; [done|]. constructor; [done|]. eapply Forall_impl; [exact Hd|]. simpl. lia.
  - cbn [fmap list_fmap]. constructor; [by apply IH|]. rewrite insert_desc_perm. constructor; [lia|done].
Qed.

Lemma sort_desc_sorted l : desc (ct_amount <$> sort_desc l).
Proof. induction l as [|c l IH]; [constructor|]. by apply insert_desc_sorted. Qed.

Context (owner : Address) (a : AssetSpendTarget) (target_ok : 0 ≤ target a ≤ U128) (max_ok : 0 ≤ target_max a ≤ U16).
Abbreviation max := (Z.to_nat (target_max a)).

Definition best_of inputs : Z := total (take max (sort_desc inputs)).
Definition coin_amounts inputs : Prop := ∀ c, c ∈ inputs → in_uint U64 (ct_amount c).

(** The loop takes coins from the front; it returns early at the limit. *)
Lemma largest_stops l : ∀ t coins, coin_amounts l → 0 ≤ t → Z.of_nat (length coins) ≤ target_max a →
  t + U64 * (target_max a - Z.of_nat (length coins)) ≤ U128 →
  ∃ n, (n ≤ length l)%nat ∧ Z.of_nat (length coins + n) ≤ target_max a ∧
    let coins' := coins ++ take n l in let t' := t + total (take n l) in
    (largest_loop owner a l t coins = inr (t', coins') ∧ (target a ≤ t' ∨ n = length l) ∨
     largest_loop owner a l t coins =
       inl (if allow_partial a then Ok coins' else Err (MaxCoinsReached owner (target_id a) t' (target_max a))) ∧
     t' < target a ∧ (n < length l)%nat ∧ Z.of_nat (length coins + n) = target_max a).
Proof using All.
  induction l as [|c l IH]; intros t coins Hs Ht Hm Hb.
  { exists 0%nat. split_and!; [done|lia|]. left. cbn [take]. rewrite lsum_nil, Z.add_0_r, app_nil_r. split; [done|by right]. }
  assert (in_uint U64 (ct_amount c)) as Hc by (apply Hs; by left). cbn [largest_loop]. case_decide as Hd; [|case_decide as Hmax].
  - exists 0%nat. cbn [take]. rewrite lsum_nil, Z.add_0_r, app_nil_r. split_and!; [lia|lia|]. left. split; [done|by left].
  - exists 0%nat. cbn [take]. rewrite lsum_nil, Z.add_0_r, app_nil_r. split_and!; [lia|lia|]. right. simpl. split_and!; [done|lia|lia|lia].
  - replace (sat_add U128 t (ct_amount c)) with (t + ct_amount c) by (unfold sat_add; int_lia).
    destruct (IH (t + ct_amount c) (coins ++ [c])) as (n & Hn & Hlen & Hres);
      [intros ? ?; apply Hs; by right|int_lia|rewrite length_app; simpl; lia|rewrite length_app; simpl; int_lia|].
    rewrite length_app in Hlen, Hres. simpl in Hlen, Hres. exists (S n). cbn [take length]. rewrite lsum_cons.
    rewrite <- app_assoc, <- Z.add_assoc in Hres. simpl in Hres. split_and!; [lia|lia|].
    replace (length coins + S n)%nat with (length coins + 1 + n)%nat by lia. naive_solver lia.
Qed.

(** The outcome of a selection from the inputs. *)
Definition selection_of inputs (r : result (list CoinType) CoinsQueryError) : Prop :=
  match r with
  | Ok sel => sel ⊆+ inputs ∧ Z.of_nat (length sel) ≤ target_max a ∧ Z.min (target a) (best_of inputs) ≤ total sel ∧
      (target a ≤ best_of inputs ∨ allow_partial a = true ∧ (0 < best_of inputs ∨ (max < length inputs)%nat))
  | Err err => best_of inputs < target a ∧ (allow_partial a = false ∨ best_of inputs = 0 ∧ (length inputs ≤ max)%nat) ∧
      err = if decide (max < length inputs)%nat then MaxCoinsReached owner (target_id a) (best_of inputs) (target_max a)
            else InsufficientCoins owner (target_id a) (best_of inputs)
  end.

Lemma best_from inputs n : coin_amounts inputs → (n ≤ length inputs)%nat → (n ≤ max)%nat →
  total (take n (sort_desc inputs)) ≤ best_of inputs ∧
  (n = max ∨ n = length inputs → best_of inputs = total (take n (sort_desc inputs))).
Proof using Type.
  intros Hs Hn Hm. split.
  - apply lsum_take_mono; [|done]. intros c Hc. rewrite sort_desc_perm in Hc. apply Hs in Hc. int_lia.
  - intros [->|He]; [done|]. unfold best_of. rewrite !take_ge by (rewrite sort_desc_perm; lia). done.
Qed.

Lemma largest_exact inputs : coin_amounts inputs → selection_of inputs (largest_first owner a inputs).
Proof using target_ok max_ok.
  intros Hs. unfold largest_first, selection_of.
  assert (coin_amounts (sort_desc inputs)) as Hs' by (intros c Hc; rewrite sort_desc_perm in Hc; by apply Hs).
  destruct (largest_stops (sort_desc inputs) 0 [] Hs') as (n & Hn & Hlen & Hres); [done|simpl; lia|simpl; int_lia|].
  assert (length (sort_desc inputs) = length inputs) as Hl by by rewrite sort_desc_perm. rewrite Hl in Hn, Hres.
  simpl in Hlen, Hres. rewrite !Z.add_0_l in Hres. destruct (best_from inputs n Hs Hn ltac:(lia)) as [Hle Heq].
  assert (take n (sort_desc inputs) ⊆+ inputs) as Hsub by (rewrite <- (sort_desc_perm inputs) at 2; apply sublist_submseteq, sublist_take).
  assert (Z.of_nat (length (take n (sort_desc inputs))) ≤ target_max a) as Hlen' by (rewrite length_take; lia).
  assert (0 ≤ total (take n (sort_desc inputs))) as Hpos.
  { apply lsum_nonneg. intros c Hc. assert (in_uint U64 (ct_amount c)); [|int_lia]. apply Hs. by eapply elem_of_submseteq. }
  destruct Hres as [[-> Hend]|(-> & Hlow & Hmore & Hmax)].
  - destruct (decide _) as [Hc|Hc]; [|by split_and!; [| |lia|left; lia]].
    destruct Hend as [Hend|Hend]; [lia|]. specialize (Heq (or_intror Hend)).
    destruct (allow_partial a && bool_decide (0 < total (take n (sort_desc inputs)))) eqn:Hp.
    + apply andb_true_iff in Hp as [Hp H0%bool_decide_eq_true]. split_and!; [done|done|lia|right; split; [done|left; lia]].
    + rewrite decide_False by lia. rewrite Heq. split_and!; [lia| |done].
      apply andb_false_iff in Hp as [?|Hp%bool_decide_eq_false]; [by left|right; lia].
  - specialize (Heq ltac:(left; lia)). destruct (allow_partial a) eqn:Hp.
    + split_and!; [done|done|lia|right; split; [done|right; lia]].
    + rewrite decide_True by lia. rewrite Heq. split_and!; [lia|by left|done].
Qed.

Lemma improve_takes goal l : ∀ t coins, coin_amounts l → 0 ≤ t → t + U64 * Z.of_nat (length l) ≤ U128 →
  ∃ n, (n ≤ length l)%nat ∧ improve_loop goal l t coins = (t + total (take n l), coins ++ take n l).
Proof using Type.
  induction l as [|c l IH]; intros t coins Hs Ht Hb.
  { exists 0%nat. split; [done|]. cbn [take]. by rewrite lsum_nil, Z.add_0_r, app_nil_r. }
  assert (in_uint U64 (ct_amount c)) as Hc by (apply Hs; by left). cbn [improve_loop]. case_decide.
  - exists 0%nat. split; [lia|]. cbn [take]. by rewrite lsum_nil, Z.add_0_r, app_nil_r.
  - cbn [length] in Hb. replace (sat_add U128 t (ct_amount c)) with (t + ct_amount c) by (unfold sat_add; int_lia).
    destruct (IH (t + ct_amount c) (coins ++ [c])) as (n & Hn & ->); [intros ? ?; apply Hs; by right|int_lia|int_lia|].
    exists (S n). split; [cbn [length]; lia|]. cbn [take]. rewrite lsum_cons, Z.add_assoc, <- app_assoc. done.
Qed.

(** Whatever the shuffle is. *)
Lemma random_improve_exact shuffle inputs : (∀ l, shuffle l ≡ₚ l) → coin_amounts inputs →
  selection_of inputs (random_improve_asset shuffle owner a inputs).
Proof using target_ok max_ok.
  intros Hsh Hs. unfold random_improve_asset. set (l := take max (shuffle inputs)).
  assert (l ⊆+ inputs) as Hsub by (rewrite <- (Hsh inputs); apply sublist_submseteq, sublist_take).
  assert (length l ≤ max)%nat as Hlen by (unfold l; rewrite length_take; lia).
  destruct (improve_takes (target a) l 0 []) as (n & Hn & ->); [intros c Hc; apply Hs; by eapply elem_of_submseteq|done|int_lia|].
  case_decide as Hc; [by apply largest_exact|]. simpl in Hc |- *.
  assert (take n l ⊆+ inputs) as Hsub' by (etrans; [apply sublist_submseteq, sublist_take|exact Hsub]).
  assert (total (take n l) ≤ best_of inputs).
  { unfold best_of, lsum. rewrite (fmap_take _ max). apply largest_sum; [apply sort_desc_sorted| | |rewrite length_fmap, length_take; lia].
    - rewrite sort_desc_perm. apply Forall_fmap, Forall_forall. intros c Hc'. apply Hs in Hc'. simpl. int_lia.
    - rewrite sort_desc_perm. by apply fmap_submseteq. }
  rewrite Z.add_0_l in Hc. split_and!; [done|rewrite length_take; lia|lia|left; lia].
Qed.
End largest.

#[local] Instance desc_antisymm : AntiSymm (=) (λ x y : Z, y ≤ x).
Proof. intros x y. lia. Qed.

(** The sum does not depend on the order of the coins. *)
Lemma best_amounts a inputs (l : list Z) : desc l → l ≡ₚ ct_amount <$> inputs → sum_Z (take (Z.to_nat (target_max a)) l) = best_of a inputs.
Proof.
  intros Hl Hp. unfold best_of, lsum. rewrite fmap_take. do 2 f_equal.
  apply (StronglySorted_unique (λ x y : Z, y ≤ x)); [done|apply sort_desc_sorted|by rewrite sort_desc_perm].
Qed.

Lemma best_of_perm a inputs inputs' : inputs ≡ₚ inputs' → best_of a inputs = best_of a inputs'.
Proof.
  intros Hp. rewrite <- (best_amounts a inputs' (ct_amount <$> sort_desc inputs)); [|apply sort_desc_sorted|by rewrite sort_desc_perm, Hp].
  unfold best_of, lsum. by rewrite fmap_take.
Qed.
