(* ===== verification/OffChainQueryFacts.v ===== *)
(** * What the queries of balances and coins return

    On databases whose indexes are those of the ledger, what the queries return with the
    indexes, and what they return from all coins of an owner, in terms of the ledger. *)

From stdpp Require Import prelude gmap list strings sorting.
From Stdlib Require Import ZArith Lia.
From S2P Require Import Prelude.
From S2P Require Import StorageTx.
From S2P Require Import HistoricalDb.
From S2P Require Import Database.
From S2P Require Import Tables.
From S2P Require Import Blocks.
From S2P Require Import Producer.
From S2P Require Import ChainFacts.
From S2P Require Import ExecTypes.
From S2P Require Import VmStorage.
From S2P Require Import Executor.
From S2P Require Import Iteration.
From S2P Require Import OffChain.
From S2P Require Import OffChainFacts.
From S2P Require Import OffChainQuery.
From S2P Require Import CoinSelection.
Local Open Scope Z_scope.

(** ** Iteration over a table of keys *)

Lemma collect_keys {K} (enc : K → Key) (S : K → Prop) (l : list (Key * Value)) :
  (∀ e, e ∈ l → ∃ x, S x ∧ e = (enc x, [])) → ∃ ks, l = (λ x, (enc x, [])) <$> ks ∧ ∀ x, x ∈ ks → S x.
Proof.
  induction l as [|e l IH]; intros Hl; [exists []; split; [done|set_solver]|].
  destruct (Hl e) as (x & Hx & ->); [by left|]. destruct IH as (ks & -> & Hks); [intros; apply Hl; by right|].
  exists (x :: ks). split; [done|]. intros y [->|Hy]%elem_of_cons; auto.
Qed.

Section keys.
Context {K : Type} (enc : K → Key) (S : K → Prop) (db : Db) (c : Z) (p : Key).
Context (Hrows : rows (view_of db) c (λ k, ∃ x, S x ∧ k = enc x)).
Context (Hinj : ∀ x y, S x → S y → enc x = enc y → x = y).

(** The keys with a prefix, in their order. *)
Record keys_with (ks : list K) : Prop := {
  kw_in x : x ∈ ks ↔ S x ∧ p `prefix_of` enc x;
  kw_nodup : NoDup ks;
  kw_sorted : StronglySorted (λ x y, key_le (enc x) (enc y)) ks;
}.

Lemma table_keys_with : ∃ ks, prefixed db c p = (λ x, (enc x, [])) <$> ks ∧ keys_with ks.
Proof using Hrows Hinj.
  assert (∀ k v, db_get db k c = Some v ↔ (∃ x, S x ∧ k = enc x) ∧ v = []) as Hget.
  { intros k v. destruct (Hrows k) as [[HS He]|[HS He]]; unfold view_of in He; simpl in He; injection He as ->; naive_solver. }
  destruct (collect_keys enc S (prefixed db c p)) as (ks & Hks & HS).
  { intros [k v] [_ Hin]%list_elem_of_filter. apply entries_in, Hget in Hin as [(x & Hx & ->) ->]. by exists x. }
  exists ks. split; [done|].
  assert (∀ x, S x → x ∈ ks ↔ p `prefix_of` enc x) as Hin.
  { intros x Hx. transitivity ((enc x, []) ∈ prefixed db c p).
    - rewrite Hks, list_elem_of_fmap. split; [by intros Hin; exists x|].
      intros (y & [= He] & Hy). apply Hinj in He as ->; auto.
    - unfold prefixed. rewrite list_elem_of_filter, entries_in, Hget. naive_solver. }
  split.
  - intros x. split; [intros Hx; pose proof (HS x Hx) as HSx; by split; [|apply Hin]|]. intros [Hx Hp]. by apply Hin.
  - apply (NoDup_fmap_1 enc). assert ((prefixed db c p).*1 = enc <$> ks) as <- by (rewrite Hks, <- list_fmap_compose; done).
    eapply sublist_NoDup; [apply (entries_nodup db c)|]. apply fmap_sublist, sublist_filter.
  - assert (StronglySorted entry_le (prefixed db c p)) as Hs by apply filter_sorted, entries_sorted. rewrite Hks in Hs. clear -Hs.
    induction ks as [|x ks IH]; [constructor|]. cbn [fmap list_fmap] in Hs. apply StronglySorted_inv in Hs as [Hs Hx]. constructor; [by apply IH|].
    rewrite Forall_fmap in Hx. exact Hx.
Qed.
End keys.

(** ** The coins to spend *)

Lemma prefix_app_32 (o o' s : list Z) p' : length o = 32%nat → length o' = 32%nat → (o ++ p') `prefix_of` (o' ++ s) ↔ o = o' ∧ p' `prefix_of` s.
Proof.
  intros Ho Ho'. split.
  - intros [z Hz]. rewrite <- app_assoc in Hz. apply app_inj_1 in Hz as [-> ->]; [|lia]. split; [done|by exists z].
  - intros [-> [z ->]]. exists z. by rewrite app_assoc.
Qed.

Lemma prefix_32 (o o' s : list Z) : length o = 32%nat → length o' = 32%nat → o `prefix_of` (o' ++ s) ↔ o = o'.
Proof.
  intros Ho Ho'. pose proof (prefix_app_32 o o' s [] Ho Ho') as Hp. rewrite app_nil_r in Hp. rewrite Hp. split; [by intros []|].
  intros ->. split; [done|apply prefix_nil].
Qed.

(** ** Streams without errors *)

Section streams.
Context {E : Type}.
Abbreviation oks l := ((λ x, Ok x : result _ E) <$> l).

Lemma try_collect_oks {A} (l : list A) : try_collect (oks l) = Ok l.
Proof. induction l as [|x l IH]; [done|]. rewrite fmap_cons. cbn [try_collect]. by rewrite IH. Qed.

Lemma filter_oks {A} (f : A → bool) (l : list A) : filter (is_ok_and f) (oks l) = oks (filter f l).
Proof. induction l as [|x l IH]; [done|]. rewrite fmap_cons, !filter_cons. cbn [is_ok_and]. case_decide; [rewrite fmap_cons; by f_equal|done]. Qed.

Lemma read_chunks_oks {A B} n (read : A → result B E) (l : list A) : n ≠ 0%nat → read_chunks n read (oks l) = read <$> l.
Proof.
  intros Hn. unfold read_chunks, chunks. rewrite length_fmap.
  assert (∀ fuel (l : list A), (length l ≤ fuel)%nat →
    (chunks_fuel fuel n (oks l) ≫= λ chunk, match try_collect chunk with Ok ids => read <$> ids | Err e => [Err e] end) = read <$> l) as Hall;
    [|by apply Hall].
  induction fuel as [|fuel IH]; intros l' Hl; [by destruct l'; [|simpl in Hl; lia]|]. destruct l' as [|x l']; [done|].
  rewrite fmap_cons. cbn [chunks_fuel]. rewrite bind_cons, <- fmap_cons, <- fmap_take, try_collect_oks, <- fmap_drop, IH.
  - by rewrite <- fmap_app, take_drop.
  - rewrite length_drop. simpl in *. lia.
Qed.

Lemma fmap_oks {A B} (f : A → result B E) (g : A → option B) (l : list A) :
  (∀ x, x ∈ l → ∃ y, g x = Some y ∧ f x = Ok y) → f <$> l = oks (omap g l).
Proof.
  induction l as [|x l IH]; intros Hl; [done|]. destruct (Hl x) as (y & Hg & Hf); [by left|].
  rewrite fmap_cons. simpl. rewrite Hg, Hf, IH; [done|]. intros; apply Hl. by right.
Qed.
End streams.

Lemma mapM_some {A} (l : list A) : mapM id (Some <$> l) = Some l.
Proof. induction l as [|x l IH]; [done|]. rewrite fmap_cons. cbn [mapM]. rewrite IH. done. Qed.

Lemma NoDup_omap {A B} (f : A → option B) (l : list A) :
  (∀ x y z, x ∈ l → y ∈ l → f x = Some z → f y = Some z → x = y) → NoDup l → NoDup (omap f l).
Proof.
  intros Hf Hl. induction Hl as [|x l Hx Hl IH]; [constructor|]. simpl. assert (NoDup (omap f l)) as Hnd.
  { apply IH. intros ? ? ? ? ?. apply Hf; by right. }
  destruct (f x) as [z|] eqn:Hz; [|done]. constructor; [|done].
  rewrite list_elem_of_omap. intros (y & Hy & Hfy). apply Hx. rewrite (Hf x y z); [done|by left|by right|done|done].
Qed.

Lemma submseteq_NoDup {A} (l k : list A) : l ⊆+ k → NoDup k → NoDup l.
Proof. intros (l' & Hk)%submseteq_Permutation Hnd. rewrite Hk in Hnd. by apply NoDup_app in Hnd as [? _]. Qed.

(** ** Sums over maps *)

Lemma lsum_omap {A B} (f : B → Z) (g : A → option B) (l : list A) : lsum f (omap g l) = lsum (λ x, default 0 (f <$> g x)) l.
Proof. induction l as [|x l IH]; [done|]. rewrite lsum_cons, <- IH. cbn [omap list_omap]. by destruct (g x). Qed.

Lemma map_sum_list `{Countable K} {A} (w : A → Z) (m : gmap K A) : map_sum w m = lsum (λ e, w e.2) (map_to_list m).
Proof. unfold map_sum. rewrite map_fold_foldr. induction (map_to_list m) as [|[k x] l IH]; [done|]. rewrite lsum_cons. simpl. by rewrite IH. Qed.

Lemma sat_sum (l : list CoinType) : ∀ b, 0 ≤ b → (∀ c, c ∈ l → 0 ≤ ct_amount c) → b + lsum ct_amount l ≤ U128 →
  foldl (λ b c, sat_add U128 b (ct_amount c)) b l = b + lsum ct_amount l.
Proof.
  induction l as [|c l IH]; intros b Hb Hl Hs; [by rewrite lsum_nil, Z.add_0_r|]. rewrite lsum_cons in *. cbn [foldl].
  assert (0 ≤ ct_amount c) by (apply Hl; by left).
  assert (0 ≤ lsum ct_amount l) by (apply lsum_nonneg; intros; apply Hl; by right).
  unfold sat_add at 2. rewrite Z.min_r by lia. rewrite IH; [lia|lia|intros; apply Hl; by right|lia].
Qed.

Section synced.
Context `{SC : StateCodecs} `{SL : !StateCodecsLaws} `{OC : OffChainCodecs} `{OL : !OffChainCodecsLaws}.
Context (base : AssetId) (base_ok : length base = 32%nat) (L : Ledger).

(** The coins of a ledger to spend by an owner, of an asset. *)
Definition spendable (owner : Address) (asset : AssetId) (k : CoinsToSpendIndexKey) : Prop :=
  to_spend_keys base L k ∧ key_retryable_flag k = NON_RETRYABLE_BYTE ∧ key_owner k = owner ∧ key_asset_id k = asset.

Abbreviation index_prefix owner asset := ([NON_RETRYABLE_BYTE] ++ owner ++ asset).

Lemma index_prefix_iff owner asset k : wf_index_key k → length owner = 32%nat → length asset = 32%nat →
  index_prefix owner asset `prefix_of` encode_index_key k ↔
  key_retryable_flag k = NON_RETRYABLE_BYTE ∧ key_owner k = owner ∧ key_asset_id k = asset.
Proof.
  intros (Ho & Ha & _) Hlo Hla.
  assert (∃ s, encode_index_key k = [key_retryable_flag k] ++ key_owner k ++ key_asset_id k ++ s) as [s ->] by (destruct k; by eexists).
  simpl. split.
  - intros Hp. pose proof (prefix_cons_inv_1 _ _ _ _ Hp) as <-. apply prefix_cons_inv_2 in Hp.
    apply prefix_app_32 in Hp as [<- [z Hz]]; [|done..].
    apply app_inj_1 in Hz as [<- _]; [done|lia].
  - intros (-> & <- & <-). exists s. simpl. by rewrite <- app_assoc.
Qed.

(** The index hands out the coins to spend in the order of their amounts, and backwards. *)
Lemma index_iter (db : Db) owner asset :
  wf_ledger L → to_spend_ok base (view_of db) L → length owner = 32%nat → length asset = 32%nat →
  gap_free db COINS_TO_SPEND_COLUMN (index_prefix owner asset) →
  ∃ ks, coins_to_spend_index db owner asset =
      {| big_coins_iter := (λ k, Ok k) <$> reverse ks; dust_coins_iter := (λ k, Ok k) <$> ks |} ∧
    (∀ k, k ∈ ks ↔ spendable owner asset k) ∧ NoDup ks ∧ StronglySorted (λ x y, x ≤ y) (key_amount <$> ks).
Proof using base_ok.
  intros HL Hrows Ho Ha Hgap.
  assert (∀ k, to_spend_keys base L k → wf_index_key k) as Hwf by (intros k Hk; by destruct (to_spend_wf base L k HL base_ok Hk)).
  destruct (table_keys_with encode_index_key (to_spend_keys base L) db COINS_TO_SPEND_COLUMN (index_prefix owner asset)) as (ks & Hks & [Hin Hnd Hs]).
  { eapply rows_ext, Hrows; done. }
  { intros x y Hx Hy. apply encode_index_key_inj; auto. }
  assert (∀ k, k ∈ ks ↔ spendable owner asset k) as Hspend.
  { intros k. rewrite Hin. unfold spendable. split; intros [Hk Hp]; (split; [done|]); apply index_prefix_iff in Hp || apply index_prefix_iff; auto. }
  exists ks. split_and!; [|done|done|].
  - unfold coins_to_spend_index, iter_table. rewrite reverse_prefixed, forward_prefixed, Hks by done.
    rewrite <- fmap_reverse, <- !list_fmap_compose. f_equal; apply list_fmap_ext; intros i k Hk; simpl;
      (rewrite decode_encode_index_key; [done|]); apply Hwf, Hin.
    + rewrite <- elem_of_reverse. by eapply list_elem_of_lookup_2.
    + by eapply list_elem_of_lookup_2.
  - assert (∀ k, k ∈ ks → spendable owner asset k) as Hall by (intros k; apply Hspend). clear -Hs Hall Hwf.
    induction Hs as [|k ks Hs IH Hk]; [constructor|]. cbn [fmap list_fmap]. constructor; [apply IH; intros; apply Hall; by right|].
    rewrite Forall_fmap, Forall_forall in *. intros k' Hk'. destruct (Hall k) as (H1 & H2 & H3 & H4); [by left|].
    destruct (Hall k') as (H1' & H2' & H3' & H4'); [by right|]. simpl. apply encode_index_key_le; auto; congruence.
Qed.

(** ** All coins of an owner *)

Record synced (db : ReadView) : Prop := {
  sy_ledger : wf_ledger L;
  sy_on : holds (view_of (on_chain db)) L;
  sy_off : indexed base (has_flag db Balances) (has_flag db CoinsToSpend) (view_of (off_chain db)) L;
  sy_batch : batch_size db ≠ 0%nat;
}.

Lemma owned_coins_exact db owner : synced db → length owner = 32%nat →
  ∃ ids, owned_coins_ids (off_chain db) owner None Forward = (λ id, Ok id) <$> ids ∧ NoDup ids ∧
    ∀ id, id ∈ ids ↔ ∃ c, lcoins L !! id = Some c ∧ coin_owner c = owner.
Proof using Type.
  intros [[Hwf _] _ [[Hrows _ _] _ _] _] Ho.
  assert (∀ (x : Address * UtxoId), (∃ c, lcoins L !! x.2 = Some c ∧ x.1 = coin_owner c) → length x.1 = 32%nat ∧ wf_utxo x.2) as Hx.
  { intros x (c & Hc & ->). by destruct (Hwf _ _ Hc) as ([? _] & ? & _). }
  destruct (table_keys_with (λ '(o, id), owner_coin_id_key o id) (λ x : Address * UtxoId, ∃ c, lcoins L !! x.2 = Some c ∧ x.1 = coin_owner c)
    (off_chain db) OWNED_COINS_COLUMN owner) as (ks & Hks & [Hin Hnd _]).
  { eapply rows_ext, Hrows; [done|]. intros k. unfold owned_coin_rows. split.
    - intros ([o id] & (c & Hc & Ho') & ->). simpl in *. subst o. by exists id, c.
    - intros (id & c & Hc & ->). exists (coin_owner c, id). split; [by exists c|done]. }
  { intros [o id] [o' id'] H1 H2 He. destruct (Hx _ H1) as [Ho1 Hi1], (Hx _ H2) as [Ho2 Hi2]. simpl in *.
    apply app32_inj in He as [-> He%utxo_key_inj]; congruence. }
  assert (∀ x, x ∈ ks → x.1 = owner) as Hown.
  { intros [o id] [H1 Hp]%Hin. destruct (Hx _ H1) as [Ho1 _]. simpl in *. by apply prefix_32 in Hp. }
  exists ks.*2. split_and!.
  - unfold owned_coins_ids, iter_table_keys. cbn [fmap option_fmap option_map]. rewrite forward_prefixed, Hks, <- !list_fmap_compose.
    apply list_fmap_ext. intros i [o id] Hi. apply list_elem_of_lookup_2, Hin in Hi as [H1 _]. destruct (Hx _ H1) as [Ho1 Hi1]. simpl in *.
    unfold raw_key, owner_coin_id_key. rewrite length_app, utxo_key_length, Ho1, decide_True by done. simpl.
    by rewrite drop_app_length', utxo_of_key by done.
  - apply NoDup_fmap_2_strong; [|done]. intros [o id] [o' id'] H1%Hown H2%Hown He. simpl in *. congruence.
  - intros id. rewrite list_elem_of_fmap. split.
    + intros ([o id'] & -> & Hk). pose proof (Hown _ Hk) as Hk'. apply Hin in Hk as [(c & Hc & He) _]. simpl in *. exists c. split; congruence.
    + intros (c & Hc & <-). exists (coin_owner c, id). split; [done|]. apply Hin. split; [by exists c|]. by exists (utxo_key id).
Qed.

Lemma owned_messages_exact db owner : synced db → length owner = 32%nat →
  ∃ ids, owned_message_ids (off_chain db) owner None Forward = (λ n, Ok n) <$> ids ∧ NoDup ids ∧
    ∀ n, n ∈ ids ↔ ∃ m, lmessages L !! n = Some m ∧ recipient m = owner.
Proof using Type.
  intros [[_ Hwf] _ [[_ Hrows _] _ _] _] Ho.
  assert (∀ (x : Address * Nonce), (∃ m, lmessages L !! x.2 = Some m ∧ x.1 = recipient m) → length x.1 = 32%nat ∧ length x.2 = 32%nat) as Hx.
  { intros x (m & Hm & ->). by destruct (Hwf _ _ Hm) as (? & ? & ? & _). }
  destruct (table_keys_with (λ '(o, n), o ++ n) (λ x : Address * Nonce, ∃ m, lmessages L !! x.2 = Some m ∧ x.1 = recipient m)
    (off_chain db) OWNED_MESSAGE_IDS_COLUMN owner) as (ks & Hks & [Hin Hnd _]).
  { eapply rows_ext, Hrows; [done|]. intros k. unfold owned_message_rows. split.
    - intros ([o n] & (m & Hm & Ho') & ->). simpl in *. subst o. by exists n, m.
    - intros (n & m & Hm & ->). exists (recipient m, n). split; [by exists m|done]. }
  { intros [o n] [o' n'] H1 H2 He. destruct (Hx _ H1) as [Ho1 Hi1], (Hx _ H2) as [Ho2 Hi2]. simpl in *.
    apply app32_inj in He as [-> ->]; congruence. }
  assert (∀ x, x ∈ ks → x.1 = owner) as Hown.
  { intros [o n] [H1 Hp]%Hin. destruct (Hx _ H1) as [Ho1 _]. simpl in *. by apply prefix_32 in Hp. }
  exists ks.*2. split_and!.
  - unfold owned_message_ids, iter_table_keys. cbn [fmap option_fmap option_map]. rewrite forward_prefixed, Hks, <- !list_fmap_compose.
    apply list_fmap_ext. intros i [o n] Hi. apply list_elem_of_lookup_2, Hin in Hi as [H1 _]. destruct (Hx _ H1) as [Ho1 Hi1]. simpl in *.
    unfold raw_key. rewrite length_app, Ho1, Hi1, decide_True by done. simpl. by rewrite drop_app_length' by done.
  - apply NoDup_fmap_2_strong; [|done]. intros [o n] [o' n'] H1%Hown H2%Hown He. simpl in *. congruence.
  - intros n. rewrite list_elem_of_fmap. split.
    + intros ([o n'] & -> & Hk). pose proof (Hown _ Hk) as Hk'. apply Hin in Hk as [(m & Hm & He) _]. simpl in *. exists m. split; congruence.
    + intros (m & Hm & <-). exists (recipient m, n). split; [done|]. apply Hin. split; [by exists m|]. by exists n.
Qed.

(** The coins of the ledger that an owner can spend for an asset. *)
Definition ledger_coin (owner : Address) (asset : AssetId) (c : CoinType) : Prop :=
  match c with
  | CtCoin c => lcoins L !! coin_utxo_id c = Some (compressed c) ∧ coin_owner (compressed c) = owner ∧ coin_asset_id (compressed c) = asset
  | CtMessageCoin mc => asset = base ∧ ∃ m, lmessages L !! mc_nonce mc = Some m ∧ message_coin m = Some mc ∧ recipient m = owner
  end.

Lemma read_coin_ok db id c : synced db → lcoins L !! id = Some c → read_coin db id = Ok (uncompress_coin c id).
Proof using SL.
  intros [[Hwf _] [Hc _] _ _] Hl. unfold read_coin, table_get. destruct (Hwf _ _ Hl) as ([Hid _] & _). specialize (Hc id Hid).
  unfold view_of in Hc. cbn [Coins t_encode t_column t_de]. rewrite Hc, Hl. simpl. unfold decode_value. simpl. by rewrite de_ser_coin.
Qed.

Lemma read_message_ok db n m : synced db → lmessages L !! n = Some m → read_message db n = Ok m.
Proof using SL.
  intros [[_ Hwf] [_ Hm] _ _] Hl. unfold read_message, table_get. destruct (Hwf _ _ Hl) as (_ & Hn & _). specialize (Hm n Hn).
  unfold view_of in Hm. cbn [Messages t_encode t_column t_de]. rewrite Hm, Hl. simpl. unfold decode_value. simpl. by rewrite de_ser_message.
Qed.

Abbreviation coin_at id := ((λ c, CtCoin (uncompress_coin c id)) <$> lcoins L !! id).
Abbreviation message_at n := (lmessages L !! n ≫= λ m, CtMessageCoin <$> message_coin m).

Lemma coins_iter_exact db owner asset e : synced db → length owner = 32%nat →
  ∃ cs, coins_iter db (asset_query owner asset base e) = (λ c, Ok c) <$> cs ∧ NoDup cs ∧
    ∀ c, c ∈ cs ↔ (∃ x, c = CtCoin x) ∧ ledger_coin owner asset c ∧ not_excluded e (coin_id c).
Proof using All.
  intros Hsy Ho. destruct (owned_coins_exact db owner Hsy Ho) as (ids & Hids & Hnd & Hin).
  set (ids' := filter (λ id, not_excluded e (IdUtxo id)) ids).
  set (allowed := λ c, match c with CtCoin c => allowed_asset (Some [asset]) (coin_asset_id (compressed c)) | CtMessageCoin _ => true end).
  exists (filter allowed (omap (λ id, coin_at id) ids')). split_and!.
  - unfold coins_iter. cbn [asset_query aq_owner allowed_assets aq_exclude]. rewrite Hids, filter_oks, read_chunks_oks by apply Hsy.
    fold ids'. rewrite <- list_fmap_compose, (fmap_oks _ (λ id, coin_at id)), filter_oks; [done|].
    intros id [_ Hid]%list_elem_of_filter. apply Hin in Hid as (c & Hc & _). exists (CtCoin (uncompress_coin c id)). rewrite Hc. split; [done|].
    simpl. by rewrite (read_coin_ok db id c Hsy Hc).
  - apply NoDup_filter, NoDup_omap; [|by apply NoDup_filter]. intros id id' c _ _. destruct (lcoins L !! id), (lcoins L !! id'); naive_solver.
  - intros c. unfold ids'. rewrite list_elem_of_filter, list_elem_of_omap. setoid_rewrite list_elem_of_filter. setoid_rewrite Hin. unfold allowed. split.
    + intros (Ha & id & [Hex (x & Hx & Hox)] & Hc). rewrite Hx in Hc. injection Hc as <-. simpl in *.
      apply bool_decide_spec in Ha. split; [by eexists|]. split; [|done]. split_and!; [done|done|set_solver].
    + intros ([x ->] & (Hx & Hox & Hax) & Hex). simpl in *. split; [apply bool_decide_spec; set_solver|].
      exists (coin_utxo_id x). split; [split; [done|by exists (compressed x)]|]. rewrite Hx. simpl. by destruct x.
Qed.

Lemma message_coins (ids : list Nonce) :
  ((λ r, match r with Ok m => (λ mc, Ok (CtMessageCoin mc)) <$> message_coin m | Err e => Some (Err e) end) ∘
     (λ m, Ok m : result Message StorageError)) <$> filter (λ m, negb (is_retryable_message m)) (omap (λ n, lmessages L !! n) ids) =
  (λ c, Some (Ok c)) <$> omap (λ n, message_at n) ids.
Proof.
  induction ids as [|n l IH]; [done|]. cbn [omap list_omap]. destruct (lmessages L !! n) as [m|] eqn:Hm; [|exact IH].
  cbn [mbind option_bind]. rewrite filter_cons. unfold message_coin at 2. destruct (is_retryable_message m) eqn:Hr.
  - rewrite decide_False by (by intros []). exact IH.
  - rewrite decide_True by done. rewrite fmap_cons. unfold compose at 1, message_coin at 1. rewrite Hr. cbn [fmap option_fmap option_map].
    rewrite fmap_cons. f_equal. exact IH.
Qed.

Lemma messages_iter_exact db owner e : synced db → length owner = 32%nat →
  ∃ cs, messages_iter db (asset_query owner base base e) = (λ c, Some (Ok c)) <$> cs ∧ NoDup cs ∧
    ∀ c, c ∈ cs ↔ (∃ x, c = CtMessageCoin x) ∧ ledger_coin owner base c ∧ not_excluded e (coin_id c).
Proof using All.
  intros Hsy Ho. destruct (owned_messages_exact db owner Hsy Ho) as (ids & Hids & Hnd & Hin). pose proof Hsy as [[_ Hwf] _ _ Hb].
  set (ids' := filter (λ n, not_excluded e (IdMessage n)) ids).
  assert (∀ n m, lmessages L !! n = Some m → nonce m = n) as Hnonce by (intros n m Hm; by destruct (Hwf _ _ Hm)).
  exists (omap (λ n, message_at n) ids'). split_and!.
  - unfold messages_iter. cbn [asset_query aq_owner aq_exclude]. rewrite Hids, filter_oks, read_chunks_oks by done. fold ids'.
    rewrite (fmap_oks _ (λ n, lmessages L !! n)), filter_oks, <- list_fmap_compose.
    + apply message_coins.
    + intros n [_ Hn]%list_elem_of_filter. apply Hin in Hn as (m & Hm & _). exists m. split; [done|]. by apply read_message_ok.
  - apply NoDup_omap; [|by apply NoDup_filter]. intros n n' c _ _. destruct (lmessages L !! n) as [m|] eqn:Hm; [|done].
    destruct (lmessages L !! n') as [m'|] eqn:Hm'; [|done]. simpl. unfold message_coin.
    destruct (is_retryable_message m), (is_retryable_message m'); simpl; try done. intros [= <-] [= _ _ He _ _].
    by rewrite <- (Hnonce _ _ Hm), <- (Hnonce _ _ Hm').
  - intros c. unfold ids'. rewrite list_elem_of_omap. setoid_rewrite list_elem_of_filter. setoid_rewrite Hin. split.
    + intros (n & [Hex (m & Hm & Hrm)] & Hc). rewrite Hm in Hc. simpl in Hc. destruct (message_coin m) as [mc|] eqn:Hmc; [|done]. injection Hc as <-.
      assert (mc_nonce mc = n) as Hn by (unfold message_coin in Hmc; destruct (is_retryable_message m); [done|]; injection Hmc as <-; simpl; by apply Hnonce).
      split; [by eexists|]. simpl. rewrite Hn. split; [|done]. split; [done|]. by exists m.
    + intros ([mc ->] & (_ & m & Hm & Hmc & Hrm) & Hex). simpl in *. exists (mc_nonce mc). split; [split; [done|by exists m]|].
      rewrite Hm. simpl. by rewrite Hmc.
Qed.

Lemma collect_exact db owner asset e : synced db → length owner = 32%nat →
  ∃ cs, collect_coins db (asset_query owner asset base e) = Some (Ok cs) ∧ NoDup cs ∧
    ∀ c, c ∈ cs ↔ ledger_coin owner asset c ∧ not_excluded e (coin_id c).
Proof using All.
  intros Hsy Ho. destruct (coins_iter_exact db owner asset e Hsy Ho) as (cs & Hcs & Hnd & Hin).
  unfold collect_coins, query_coins. cbn [asset_query allowed_assets aq_base_asset_id]. rewrite Hcs. simpl allowed_asset.
  case_bool_decide as Hb.
  - apply list_elem_of_singleton in Hb as <-. destruct (messages_iter_exact db owner e Hsy Ho) as (ms & Hms & Hndm & Hinm).
    rewrite Hms. exists (cs ++ ms). split_and!.
    + replace ((Some <$> ((λ c, Ok c) <$> cs)) ++ ((λ c, Some (Ok c)) <$> ms)) with (Some <$> ((λ c : CoinType, Ok c : result _ StorageError) <$> (cs ++ ms)))
        by (rewrite !fmap_app, <- !list_fmap_compose; done).
      rewrite mapM_some. simpl. by rewrite try_collect_oks.
    + apply NoDup_app. split_and!; [done| |done]. intros c [[x ->] _]%Hin [[y Hy] _]%Hinm. done.
    + intros c. rewrite elem_of_app, Hin, Hinm. split; [naive_solver|]. intros [? ?]. destruct c; naive_solver.
  - exists cs. split_and!; [|done|].
    + rewrite mapM_some. simpl. by rewrite try_collect_oks.
    + intros c. rewrite Hin. split; [naive_solver|]. intros [Hl ?]. split; [|done]. destruct c as [x|x]; [by eexists|].
      destruct Hl as [-> _]. destruct Hb. by left.
Qed.

(** ** Balances *)

Definition coins_list (owner : Address) (asset : AssetId) : list CoinType :=
  omap (λ e, if decide (coin_owner e.2 = owner ∧ coin_asset_id e.2 = asset) then Some (CtCoin (uncompress_coin e.2 e.1)) else None)
    (map_to_list (lcoins L)).
Definition messages_list (owner : Address) : list CoinType :=
  omap (λ e, if decide (recipient e.2 = owner) then CtMessageCoin <$> message_coin e.2 else None) (map_to_list (lmessages L)).

Lemma coins_list_sum owner asset : lsum ct_amount (coins_list owner asset) = coins_of L owner asset.
Proof using Type.
  unfold coins_list, coins_of. rewrite lsum_omap, map_sum_list. apply lsum_ext. intros [id c] _. unfold coin_share. simpl.
  by case_decide.
Qed.

Lemma messages_list_sum owner : lsum ct_amount (messages_list owner) = messages_of L owner false.
Proof using Type.
  unfold messages_list, messages_of. rewrite lsum_omap, map_sum_list. apply lsum_ext. intros [n m] _. unfold message_share, message_coin. simpl.
  destruct (is_retryable_message m); repeat case_decide; naive_solver.
Qed.

Lemma coins_list_elem owner asset c :
  c ∈ coins_list owner asset ↔ ∃ x, c = CtCoin x ∧ ledger_coin owner asset c.
Proof using Type.
  unfold coins_list. rewrite list_elem_of_omap. split.
  - intros ([id x] & Hx%elem_of_map_to_list & He). case_decide as Hd; [|done]. injection He as <-. eexists. split; [done|]. simpl in *. naive_solver.
  - intros (x & -> & Hx & Ho & Ha). exists (coin_utxo_id x, compressed x). rewrite elem_of_map_to_list. split; [done|]. simpl.
    rewrite decide_True by done. by destruct x.
Qed.

Lemma messages_list_elem owner c : wf_ledger L →
  c ∈ messages_list owner ↔ ∃ x, c = CtMessageCoin x ∧ ledger_coin owner base c.
Proof using Type.
  intros [_ Hwf]. unfold messages_list. rewrite list_elem_of_omap. split.
  - intros ([n m] & Hm%elem_of_map_to_list & He). case_decide as Hd; [|done]. simpl in *. destruct (message_coin m) as [mc|] eqn:Hmc; [|done].
    injection He as <-. exists mc. split; [done|]. split; [done|]. exists m. split; [|done].
    destruct (Hwf _ _ Hm) as [Hn _]. unfold message_coin in Hmc. destruct (is_retryable_message m); [done|]. injection Hmc as <-. simpl. congruence.
  - intros (mc & -> & _ & m & Hm & Hmc & Hr). exists (mc_nonce mc, m). rewrite elem_of_map_to_list. split; [done|]. simpl.
    rewrite decide_True by done. by rewrite Hmc.
Qed.

(** All coins of an owner to spend for an asset. *)
Definition ledger_list (owner : Address) (asset : AssetId) : list CoinType :=
  coins_list owner asset ++ if decide (asset = base) then messages_list owner else [].

Lemma ledger_list_elem owner asset c : wf_ledger L → c ∈ ledger_list owner asset ↔ ledger_coin owner asset c.
Proof using All.
  intros Hwf. unfold ledger_list. rewrite elem_of_app, coins_list_elem. case_decide as Hb.
  - rewrite messages_list_elem by done. subst asset. split.
    + intros [(x & _ & Hc)|(x & _ & Hc)]; done.
    + intros Hc. destruct c as [x|x]; [left|right]; by exists x.
  - split; [by intros [(x & _ & Hc)|[]%elem_of_nil]|]. intros Hc. destruct c as [x|x]; [left; by exists x|by destruct Hc].
Qed.

Lemma ledger_list_nodup owner asset : wf_ledger L → NoDup (ledger_list owner asset).
Proof using All.
  intros Hwf. pose proof Hwf as [_ Hm]. apply NoDup_app. split_and!.
  - apply NoDup_omap; [|apply NoDup_map_to_list]. intros [id c] [id' c'] z _ _. repeat case_decide; naive_solver.
  - intros c (x & -> & _)%coins_list_elem. case_decide; [|set_solver]. intros (y & Hy & _)%messages_list_elem; done.
  - case_decide; [|constructor]. apply NoDup_omap; [|apply NoDup_map_to_list].
    intros [n m] [n' m'] z Hx%elem_of_map_to_list Hy%elem_of_map_to_list. simpl. unfold message_coin.
    destruct (Hm _ _ Hx) as [Hn _], (Hm _ _ Hy) as [Hn' _].
    destruct (decide (recipient m = owner)), (decide (recipient m' = owner)), (is_retryable_message m), (is_retryable_message m'); simpl; try done.
    intros [= <-] [= _ _ He _ _]. assert (n = n') as -> by congruence. f_equal. congruence.
Qed.

Definition ledger_funds (owner : Address) (asset : AssetId) : Z :=
  coins_of L owner asset + if decide (asset = base) then messages_of L owner false else 0.

Lemma ledger_coins_sum owner asset cs : wf_ledger L → NoDup cs → (∀ c, c ∈ cs ↔ ledger_coin owner asset c) →
  lsum ct_amount cs = ledger_funds owner asset.
Proof using All.
  intros Hwf Hnd Hin. assert (cs ≡ₚ ledger_list owner asset) as ->.
  { apply NoDup_Permutation; [done|by apply ledger_list_nodup|]. intros c. by rewrite Hin, ledger_list_elem. }
  unfold ledger_list, ledger_funds. rewrite lsum_app, coins_list_sum. f_equal. case_decide; [apply messages_list_sum|done].
Qed.

Lemma ledger_coin_amount owner asset c : wf_ledger L → ledger_coin owner asset c → in_uint U64 (ct_amount c).
Proof using All.
  intros [Hc Hm]. destruct c as [x|x]; simpl.
  - intros (Hx & _). by destruct (Hc _ _ Hx) as (_ & _ & _ & ?).
  - intros (_ & m & Hl & Hmc & _). destruct (Hm _ _ Hl) as (_ & _ & _ & ?). unfold message_coin in Hmc.
    destruct (is_retryable_message m); [done|]. by injection Hmc as <-.
Qed.

Lemma ledger_funds_range owner asset : wf_ledger L → Z.of_nat (ledger_size L) ≤ U64 → 0 ≤ ledger_funds owner asset ≤ U128.
Proof using All.
  intros Hwf Hs. unfold ledger_funds. pose proof (coins_of_range L owner asset Hwf Hs). pose proof (messages_of_range L owner false Hwf Hs).
  assert (coins_of L owner asset ≤ U64 * Z.of_nat (size (lcoins L))).
  { apply map_sum_bound. intros id c (_ & _ & _ & Hc)%(wl_coins _ Hwf). unfold coin_share, in_uint, U64 in *. case_decide; lia. }
  assert (messages_of L owner false ≤ U64 * Z.of_nat (size (lmessages L))).
  { apply map_sum_bound. intros n m (_ & _ & _ & Hm)%(wl_messages _ Hwf). unfold message_share, in_uint, U64 in *. case_decide; lia. }
  unfold ledger_size, U64, U128 in *. case_decide; lia.
Qed.

Lemma balance_exact db owner asset : synced db → length owner = 32%nat → length asset = 32%nat → Z.of_nat (ledger_size L) ≤ U64 →
  balance db owner asset base = Some (Ok (ledger_funds owner asset)).
Proof using All.
  intros Hsy Ho Ha Hs. pose proof (ledger_funds_range owner asset (sy_ledger _ Hsy) Hs) as Hr. unfold balance.
  destruct (has_flag db Balances) eqn:Hf.
  - f_equal. pose proof (in_balances _ _ _ _ _ (sy_off _ Hsy)) as Hb. rewrite Hf in Hb. destruct (Hb eq_refl) as [Hc Hm].
    destruct (Hc owner asset Ho Ha) as (x & Hx & Hxd). destruct (Hm owner Ho) as (y & Hy & Hyd). unfold indexed_balance.
    change (table_get CoinBalances (off_chain db) (owner, asset)) with (row CoinBalances (view_of (off_chain db)) (owner, asset)).
    change (table_get MessageBalances (off_chain db) owner) with (row MessageBalances (view_of (off_chain db)) owner).
    rewrite Hx. cbn [result_bind]. rewrite Hxd. unfold ledger_funds in *.
    destruct (decide (base = asset)) as [->|Hne]; [|by rewrite decide_False, Z.add_0_r by congruence].
    rewrite decide_True in * by done. rewrite Hy. cbn [result_bind]. rewrite Hyd. cbn [ledger_balance non_retryable].
    by rewrite decide_True by lia.
  - destruct (collect_exact db owner asset None Hsy Ho) as (cs & -> & Hnd & Hin).
    assert (∀ c, c ∈ cs ↔ ledger_coin owner asset c) as Hin' by (intros c; rewrite Hin; naive_solver).
    pose proof (ledger_coins_sum owner asset cs (sy_ledger _ Hsy) Hnd Hin') as Hsum.
    rewrite sat_sum; [by rewrite Hsum|done| |rewrite Hsum; lia].
    intros c Hc%Hin'. apply ledger_coin_amount in Hc; [int_lia|apply Hsy].
Qed.

(** ** Coins to spend *)

(** The coins that a query can select. *)
Definition candidates (owner : Address) (asset : AssetId) (e : Exclude) : list CoinType :=
  filter (λ c, not_excluded (Some e) (coin_id c)) (ledger_list owner asset).

(** When a selection succeeds: the best coins within the limit reach the target; or, over the
    index of coins to spend, the limit is zero; or less is allowed, and the best coins have an
    amount or, without the index, there are more coins than the limit. *)
Definition spend_succeeds (indexed : bool) (inputs : list CoinType) (a : AssetSpendTarget) : Prop :=
  target a ≤ best_of a inputs ∨ indexed = true ∧ target_max a = 0 ∨
  allow_partial a = true ∧ (0 < best_of a inputs ∨ indexed = false ∧ target_max a < Z.of_nat (length inputs)).

#[global] Instance spend_succeeds_dec indexed inputs a : Decision (spend_succeeds indexed inputs a).
Proof. unfold spend_succeeds. apply _. Defined.

(** The error of a selection, if it has one. *)
Definition spend_error (indexed : bool) (owner : Address) (inputs : list CoinType) (a : AssetSpendTarget) : option CoinsQueryError :=
  if decide (spend_succeeds indexed inputs a) then None
  else Some (if decide (target_max a < Z.of_nat (length inputs)) then MaxCoinsReached owner (target_id a) (best_of a inputs) (target_max a)
             else InsufficientCoins owner (target_id a) (best_of a inputs)).

(** What a selection returns. *)
Record spend_ok (owner : Address) (e : Exclude) (inputs : list CoinType) (a : AssetSpendTarget) (sel : list CoinType) : Prop := {
  so_coins c : c ∈ sel → ledger_coin owner (target_id a) c ∧ coin_id c ∉ coin_ids e;
  so_nodup : NoDup sel;
  so_length : Z.of_nat (length sel) ≤ target_max a;
  so_amount : Z.min (target a) (best_of a inputs) ≤ lsum ct_amount sel;
}.

Definition spend_outcome (indexed : bool) (owner : Address) (e : Exclude) (inputs : list CoinType) (a : AssetSpendTarget)
    (r : result (list CoinType) CoinsQueryError) : Prop :=
  match spend_error indexed owner inputs a with
  | Some err => r = Err err
  | None => ∃ sel, r = Ok sel ∧ spend_ok owner e inputs a sel
  end.

Lemma candidates_elem owner asset e c : wf_ledger L → c ∈ candidates owner asset e ↔ ledger_coin owner asset c ∧ coin_id c ∉ coin_ids e.
Proof using All.
  intros Hwf. unfold candidates, not_excluded. rewrite list_elem_of_filter, ledger_list_elem by done.
  case_bool_decide; simpl; naive_solver.
Qed.

Lemma candidates_nodup owner asset e : wf_ledger L → NoDup (candidates owner asset e).
Proof using All. intros Hwf. by apply NoDup_filter, ledger_list_nodup. Qed.

Lemma candidates_amounts owner asset e : wf_ledger L → coin_amounts (candidates owner asset e).
Proof using All. intros Hwf c [Hc _]%candidates_elem; [|done]. by eapply ledger_coin_amount. Qed.

Section one.
Context (HL : wf_ledger L) (owner : Address) (e : Exclude) (a : AssetSpendTarget).
Context (target_range : 0 ≤ target a ≤ U128) (max_range : 0 ≤ target_max a ≤ U16).
Abbreviation inputs := (candidates owner (target_id a) e).

Lemma selection_outcome cs r : cs ≡ₚ inputs → selection_of owner a cs r → spend_outcome false owner e inputs a r.
Proof using All.
  intros Hp. unfold selection_of, spend_outcome, spend_error, spend_succeeds.
  pose proof (Permutation_length Hp) as Hl. destruct r as [sel|err]; rewrite (best_of_perm a cs inputs Hp), Hl.
  - intros (Hsub & Hlen & Hamt & Hok). rewrite Hp in Hsub. rewrite decide_True.
    + exists sel. split; [done|]. split; [|by eapply submseteq_NoDup, candidates_nodup|done|done].
      intros c Hc. apply candidates_elem; [done|]. by eapply elem_of_submseteq.
    + destruct Hok as [?|[Hpart [?|Hlt]]]; [by left|right; right; auto|right; right]. split; [done|]. right. split; [done|lia].
  - intros (Hlt & Hpart & ->). rewrite decide_False by (destruct Hpart as [->|[? ?]]; naive_solver lia). f_equal.
    destruct (decide (target_max a < Z.of_nat (length inputs))).
    + rewrite decide_True by lia. done.
    + rewrite decide_False by lia. done.
Qed.

(** The coins that are collected are the candidates. *)
Lemma collect_candidates db : synced db → length owner = 32%nat →
  ∃ cs, collect_coins db (asset_query owner (target_id a) base (Some e)) = Some (Ok cs) ∧ cs ≡ₚ inputs.
Proof using All.
  intros Hsy Ho. destruct (collect_exact db owner (target_id a) (Some e) Hsy Ho) as (cs & Hcs & Hnd & Hin). exists cs. split; [done|].
  apply NoDup_Permutation; [done|by apply candidates_nodup|]. intros c. rewrite Hin, candidates_elem by done. unfold not_excluded.
  case_bool_decide; simpl; naive_solver.
Qed.

Lemma uncached_outcome db shuffle : synced db → length owner = 32%nat → (∀ l, shuffle l ≡ₚ l) →
  ∃ cs, collect_coins db (asset_query owner (target_id a) base (Some e)) = Some (Ok cs) ∧
    spend_outcome false owner e inputs a (random_improve_asset shuffle owner a cs).
Proof using All.
  intros Hsy Ho Hsh. destruct (collect_candidates db Hsy Ho) as (cs & Hcs & Hp). exists cs. split; [done|].
  eapply selection_outcome; [done|]. apply random_improve_exact; [done|lia|done|]. intros c Hc. rewrite Hp in Hc. by eapply candidates_amounts.
Qed.

(** *** Over the index *)

(** The key of a coin in the index. *)
Definition key_of (c : CoinType) : CoinsToSpendIndexKey :=
  match c with
  | CtCoin c => from_coin c
  | CtMessageCoin mc => IndexMessage NON_RETRYABLE_BYTE (mc_recipient mc) base (mc_amount mc) (mc_nonce mc)
  end.

Lemma key_of_amount c : key_amount (key_of c) = ct_amount c.
Proof using Type. by destruct c. Qed.
Lemma key_of_id c : into_coin_id (key_of c) = coin_id c.
Proof using Type. by destruct c. Qed.

Lemma message_coin_inv m mc : message_coin m = Some mc → is_retryable_message m = false ∧
  mc_recipient mc = recipient m ∧ mc_amount mc = msg_amount m ∧ mc_nonce mc = nonce m.
Proof using Type. unfold message_coin. destruct (is_retryable_message m); [done|]. by intros [= <-]. Qed.

Lemma spendable_coin k : spendable owner (target_id a) k ↔ ∃ c, ledger_coin owner (target_id a) c ∧ k = key_of c.
Proof using HL.
  destruct HL as [_ Hm]. unfold spendable. split.
  - intros ([(id & c & Hc & ->)|(n & m & Hl & ->)] & Hf & Ho & Ha).
    + exists (CtCoin (uncompress_coin c id)). simpl in *. done.
    + unfold from_message in *. simpl in *. destruct (is_retryable_message m) eqn:Hr; [done|]. destruct (Hm _ _ Hl) as [Hn _].
      assert (message_coin m = Some {| mc_sender := sender m; mc_recipient := recipient m; mc_nonce := nonce m; mc_amount := msg_amount m;
        mc_da_height := msg_da_height m |}) as Hmc by (unfold message_coin; by rewrite Hr).
      exists (CtMessageCoin {| mc_sender := sender m; mc_recipient := recipient m; mc_nonce := nonce m; mc_amount := msg_amount m;
        mc_da_height := msg_da_height m |}). simpl. split; [|done]. split; [done|]. exists m. split_and!; [by rewrite Hn|done|done].
  - intros ([x|mc] & Hc & ->); simpl in *.
    + destruct Hc as (Hx & Ho & Ha). split_and!; [|done|done|done]. left. exists (coin_utxo_id x), (compressed x). split; [done|by destruct x].
    + destruct Hc as (Hb & m & Hl & Hmc & Hr). apply message_coin_inv in Hmc as (Hret & H1 & H2 & H3). split_and!; [|done|congruence|congruence].
      right. exists (mc_nonce mc), m. split; [done|]. unfold from_message. rewrite Hret. congruence.
Qed.

Lemma key_of_inj c c' : ledger_coin owner (target_id a) c → ledger_coin owner (target_id a) c' → key_of c = key_of c' → c = c'.
Proof using Type.
  intros Hc Hc' He. assert (coin_id c = coin_id c') as Hid by (by rewrite <- !key_of_id, He).
  destruct c as [x|x], c' as [y|y]; simpl in *; try done.
  - destruct Hc as (Hx & _), Hc' as (Hy & _). injection Hid as Hid. f_equal. destruct x, y; simpl in *. congruence.
  - destruct Hc as (_ & m & Hm & Hx & _), Hc' as (_ & m' & Hm' & Hy & _). injection Hid as Hid. f_equal. congruence.
Qed.

Lemma excluded_iff c : is_excluded (key_of c) e = false ↔ coin_id c ∉ coin_ids e.
Proof using Type. destruct c; simpl; unfold contains_coin, contains_message; by rewrite bool_decide_eq_false. Qed.

(** The available keys are those of the candidates. *)
Lemma available_perm ks : (∀ k, k ∈ ks ↔ spendable owner (target_id a) k) → NoDup ks → available e ks ≡ₚ key_of <$> inputs.
Proof using All.
  intros Hks Hnd. apply NoDup_Permutation.
  - by apply NoDup_filter.
  - apply NoDup_fmap_2_strong; [|by apply candidates_nodup].
    intros c c' [Hc _]%candidates_elem [Hc' _]%candidates_elem; [|done..]. by apply key_of_inj.
  - intros k. unfold available. rewrite list_elem_of_filter, Hks, list_elem_of_fmap, spendable_coin. split.
    + intros (Hx & c & Hc & ->). exists c. split; [done|]. apply candidates_elem; [done|]. split; [done|]. by apply excluded_iff.
    + intros (c & -> & [Hc Hx]%candidates_elem); [|done]. split; [by apply excluded_iff|by exists c].
Qed.

(** The coins of selected keys are read from the tables of the chain. *)
Lemma read_selected_ok db (cs : list CoinType) : synced db → (∀ c, c ∈ cs → ledger_coin owner (target_id a) c) →
  try_collect (read_selected db <$> (into_coin_id <$> (key_of <$> cs))) = Ok cs.
Proof using SL.
  intros Hsy Hcs. rewrite <- !list_fmap_compose. rewrite (fmap_oks _ Some), try_collect_oks.
  - f_equal. clear. induction cs as [|c cs IH]; [done|]. cbn [omap list_omap]. by f_equal.
  - intros c Hc%Hcs. exists c. split; [done|]. simpl. rewrite key_of_id. destruct c as [x|mc]; simpl in *.
    + destruct Hc as (Hx & _). rewrite (read_coin_ok db _ _ Hsy Hx). simpl. by destruct x.
    + destruct Hc as (_ & m & Hm & Hmc & _). rewrite (read_message_ok db _ _ Hsy Hm). simpl. by rewrite Hmc.
Qed.

Lemma best_index ks : (∀ k, k ∈ ks ↔ spendable owner (target_id a) k) → NoDup ks → StronglySorted (λ x y, x ≤ y) (key_amount <$> ks) →
  best e ks a = best_of a inputs ∧ length (available e ks) = length inputs.
Proof using All.
  intros Hks Hnd Hs. pose proof (available_perm ks Hks Hnd) as Hp. split; [|by rewrite Hp, length_fmap].
  rewrite <- (best_amounts a inputs (key_amount <$> reverse (available e ks))).
  - unfold best, lsum. by rewrite fmap_take.
  - rewrite fmap_reverse. apply strongly_sorted_reverse. clear -Hs. unfold available. induction ks as [|k ks IH]; [constructor|].
    rewrite fmap_cons in Hs. apply StronglySorted_inv in Hs as [Hs Hk]. rewrite filter_cons. case_decide; [|by apply IH].
    rewrite fmap_cons. constructor; [by apply IH|]. rewrite Forall_fmap in *. eapply Forall_forall. intros x [_ Hx]%list_elem_of_filter.
    rewrite Forall_forall in Hk. by apply Hk.
  - rewrite reverse_Permutation, Hp, <- list_fmap_compose.
    assert (key_amount ∘ key_of <$> inputs = ct_amount <$> inputs) as -> by (apply list_fmap_ext; intros i c _; apply key_of_amount). done.
Qed.

(** The index hands out no big coins if another key is in the way. *)
Lemma hidden_outcome gen_range db dust :
  spend_outcome true owner e [] a
    (result_bind (select_coins_to_spend gen_range {| big_coins_iter := []; dust_coins_iter := dust |} a e owner) (λ selected,
       try_collect (read_selected db <$> (into_coin_id <$> selected)))).
Proof using All.
  assert (best_of a [] = 0) as Hbest by (unfold best_of; change (sort_desc []) with (@nil CoinType); by rewrite take_nil).
  unfold spend_outcome, spend_error, spend_succeeds, select_coins_to_spend. cbn [length big_coins_iter].
  destruct (decide (target a = 0 ∨ target_max a = 0)) as [Hz|Hz].
  - rewrite decide_True by (destruct Hz; [left; lia|by auto]). exists []. split; [done|].
    split; [set_solver|constructor|simpl; lia|]. rewrite Hbest. change (lsum ct_amount []) with 0. lia.
  - rewrite decide_False by (rewrite Hbest; naive_solver lia). rewrite (decide_False (P := target_max a < Z.of_nat 0)), Hbest by lia.
    unfold big_coins, select_coins_until. cbn [select_loop result_bind]. rewrite decide_True by lia. rewrite decide_False by naive_solver lia. done.
Qed.

Lemma cached_outcome db gen_range : synced db → has_flag db CoinsToSpend = true → length owner = 32%nat → length (target_id a) = 32%nat →
  (∀ b, 0 ≤ b → 0 ≤ gen_range b ≤ b) →
  spend_outcome true owner e (if decide (gap_free (off_chain db) COINS_TO_SPEND_COLUMN (index_prefix owner (target_id a))) then inputs else []) a
    (result_bind (select_coins_to_spend gen_range (coins_to_spend_index (off_chain db) owner (target_id a)) a e owner) (λ selected,
       try_collect (read_selected db <$> (into_coin_id <$> selected)))).
Proof using All.
  intros Hsy Hf Ho Ha Hgen. case_decide as Hgap.
  2: { unfold coins_to_spend_index at 1, iter_table at 1. rewrite reverse_iteration, decide_False by done. apply hidden_outcome. }
  pose proof (in_to_spend _ _ _ _ _ (sy_off _ Hsy) Hf) as Hts.
  destruct (index_iter (off_chain db) owner (target_id a) HL Hts Ho Ha Hgap) as (ks & -> & Hks & Hnd & Hs).
  destruct (best_index ks Hks Hnd Hs) as [Hbest Hlen]. unfold spend_outcome, spend_error, spend_succeeds.
  assert (0 ≤ best_of a inputs) as Hpos.
  { apply lsum_nonneg. intros c Hc. assert (in_uint U64 (ct_amount c)); [|int_lia]. apply (candidates_amounts owner (target_id a) e HL).
    rewrite <- (sort_desc_perm inputs). by eapply elem_of_submseteq, sublist_submseteq, sublist_take. }
  destruct (decide (target a = 0 ∨ target_max a = 0)) as [Hz|Hnz].
  { rewrite decide_True by (destruct Hz; [left; lia|by auto]). unfold select_coins_to_spend. rewrite decide_True by lia. exists []. split; [done|].
    split; [set_solver|constructor|simpl; lia|].
    change (lsum ct_amount []) with 0. destruct Hz as [?|Hz]; [lia|]. unfold best_of. rewrite Hz.
    change (lsum ct_amount (take (Z.to_nat 0) _)) with 0. lia. }
  assert (small_amounts ks) as Hsmall.
  { intros k (c & Hc & ->)%Hks%spendable_coin. rewrite key_of_amount. by eapply ledger_coin_amount. }
  pose proof (select_exact e ks Hnd Hsmall owner a gen_range Hgen ltac:(lia) ltac:(lia)) as Hsel. rewrite Hbest, Hlen in Hsel.
  destruct (select_coins_to_spend _ _ _ _ _) as [sel|err]; cbn [result_bind].
  - destruct Hsel as ([Hav Hnd' Hmax] & Hamt & Hok). rewrite decide_True by naive_solver.
    assert (∃ cs, sel = key_of <$> cs ∧ ∀ c, c ∈ cs → c ∈ inputs) as (cs & -> & Hcs).
    { pose proof (available_perm ks Hks Hnd) as Hp. clear -Hav Hp. induction sel as [|k sel IH]; [exists []; split; [done|set_solver]|].
      destruct IH as (cs & -> & Hcs); [intros; apply Hav; by right|]. pose proof (Hav k ltac:(by left)) as Hk.
      rewrite Hp, list_elem_of_fmap in Hk. destruct Hk as (c & -> & Hc). exists (c :: cs). split; [done|]. set_solver. }
    rewrite read_selected_ok; [|done|intros c Hc%Hcs; by apply candidates_elem in Hc as [? _]].
    exists cs. split; [done|]. rewrite length_fmap in Hmax. split; [|by eapply NoDup_fmap_1|done|].
    + intros c Hc%Hcs. by apply candidates_elem in Hc.
    + rewrite lsum_fmap in Hamt. erewrite lsum_ext in Hamt; [exact Hamt|]. intros c _. simpl. apply key_of_amount.
  - destruct Hsel as (Hlt & Hpart & ->). rewrite decide_False by (destruct Hpart as [?| ->]; naive_solver lia). f_equal.
    destruct (decide (target_max a < Z.of_nat (length inputs))); [rewrite decide_True by lia|rewrite decide_False by lia]; done.
Qed.
End one.

(** A coin of another asset is in the way of an asset that ends in bytes 255: the asset that
    differs from it in the last byte that is not 255, by one more, and in some byte after it. *)
Lemma index_hidden db owner q b n r c :
  synced db → has_flag db CoinsToSpend = true → length owner = 32%nat → length (q ++ (b + 1) :: r) = 32%nat →
  b < U8 → length r = n → Forall (λ x, x ≤ U8) r → r ≠ replicate n U8 → ledger_coin owner (q ++ (b + 1) :: r) c →
  ¬ gap_free (off_chain db) COINS_TO_SPEND_COLUMN (index_prefix owner (q ++ b :: replicate n U8)).
Proof using base_ok.
  intros Hsy Hf Ho Hlen Hb Hn Hr Hne Hc. pose proof (sy_ledger _ Hsy) as HL.
  pose proof (in_to_spend _ _ _ _ _ (sy_off _ Hsy) Hf (encode_index_key (key_of c))) as Hrow.
  assert (spendable owner (q ++ (b + 1) :: r) (key_of c)) as (Hk & Hp).
  { apply (spendable_coin HL owner {| target_id := q ++ (b + 1) :: r; target := 0; target_max := 0; allow_partial := false |}). by exists c. }
  destruct (to_spend_wf _ _ _ HL base_ok Hk) as [Hwf _].
  assert (index_prefix owner (q ++ (b + 1) :: r) `prefix_of` encode_index_key (key_of c)) as [z Hz] by (by apply index_prefix_iff).
  destruct Hrow as [[_ Hrow]|[Hno _]]; [|destruct Hno; by exists (key_of c)]. injection Hrow as Hrow. rewrite Hz in Hrow.
  replace (index_prefix owner (q ++ b :: replicate n U8)) with (([NON_RETRYABLE_BYTE] ++ owner ++ q) ++ b :: replicate n U8)
    by (by rewrite <- !app_assoc).
  apply (full_prefix_gap _ _ _ _ _ r z []); [done..|]. rewrite <- Hrow. f_equal. by rewrite <- !app_assoc.
Qed.

(** ** The whole request *)

Section request.
Context (db : ReadView) (Hsy : synced db) (owner : Address) (owner_ok : length owner = 32%nat).
Context (max_input : Z) (max_ok : 0 ≤ max_input ≤ U16).
Context (gen_range : nat → Z → Z) (gen_ok : ∀ i b, 0 ≤ b → 0 ≤ gen_range i b ≤ b).
Context (shuffle : nat → list CoinType → list CoinType) (shuffle_ok : ∀ i l, shuffle i l ≡ₚ l).

Record query_fits (q : SpendQueryElement) : Prop := {
  qf_amount : 0 ≤ sq_amount q ≤ U128;
  qf_max m : sq_max q = Some m → 0 ≤ m ≤ U16;
  qf_asset : length (sq_asset_id q) = 32%nat;
}.

(** The coins that the request sees: the index shows none of an asset if another key is in the
    way of its iteration backward. *)
Definition visible (e : Exclude) (asset : AssetId) : list CoinType :=
  if has_flag db CoinsToSpend
  then if decide (gap_free (off_chain db) COINS_TO_SPEND_COLUMN (index_prefix owner asset)) then candidates owner asset e else []
  else candidates owner asset e.

Definition first_error (e : Exclude) (queries : list SpendQueryElement) : option CoinsQueryError :=
  head (omap (λ q, spend_error (has_flag db CoinsToSpend) owner (visible e (sq_asset_id q)) (spend_target max_input q)) queries).

(** The error of the request, if it has one. *)
Definition request_error (excluded : list CoinId) (queries : list SpendQueryElement) : option CoinsQueryError :=
  if decide (max_input < Z.of_nat (length excluded)) then Some (TooManyExcludedId (Z.of_nat (length excluded)) max_input)
  else match duplicate_asset [] queries with
       | Some a => Some (DuplicateAssets a)
       | None => first_error {| coin_ids := excluded |} (take (Z.to_nat max_input) queries)
       end.

Definition selections (e : Exclude) (queries : list SpendQueryElement) (r : result (list (list CoinType)) CoinsQueryError) : Prop :=
  match first_error e queries with
  | Some err => r = Err err
  | None => ∃ ls, r = Ok ls ∧ Forall2 (λ q sel, spend_ok owner e (visible e (sq_asset_id q)) (spend_target max_input q) sel) queries ls
  end.

Lemma spend_target_max q : query_fits q → 0 ≤ target_max (spend_target max_input q) ≤ U16.
Proof using max_ok. clear -max_ok. intros [_ Hm _]. simpl. destruct (sq_max q) as [m|]; simpl; [specialize (Hm m eq_refl)|]; lia. Qed.

(** One query after the other. *)
Lemma selections_cons e q queries (r1 : result (list CoinType) CoinsQueryError) r :
  spend_outcome (has_flag db CoinsToSpend) owner e (visible e (sq_asset_id q)) (spend_target max_input q) r1 → selections e queries r →
  selections e (q :: queries) (result_bind r1 (λ coins, result_bind r (λ l, Ok (coins :: l)))).
Proof using Type.
  intros H1 Hr. unfold selections, first_error, spend_outcome in *. cbn [omap list_omap].
  destruct (spend_error (has_flag db CoinsToSpend) owner (visible e (sq_asset_id q)) (spend_target max_input q)) as [err|]; [by rewrite H1|]. destruct H1 as (sel & -> & Hsel). cbn [result_bind].
  destruct (head _) as [err|]; [by rewrite Hr|]. destruct Hr as (ls & -> & Hls). exists (sel :: ls). split; [done|by constructor].
Qed.

Lemma with_cache_selections e queries : has_flag db CoinsToSpend = true → Forall query_fits queries →
  selections e queries (coins_to_spend_with_cache db gen_range owner max_input e queries).
Proof using All.
  intros Hf Hq. induction Hq as [|q queries Hq Hqs IH]; [exists []; split; [done|constructor]|]. cbn [coins_to_spend_with_cache].
  pose proof (cached_outcome (sy_ledger _ Hsy) owner e (spend_target max_input q) (qf_amount _ Hq) (spend_target_max q Hq) db
    (gen_range (length queries)) Hsy Hf owner_ok (qf_asset _ Hq) (gen_ok _)) as H1.
  assert (visible e (sq_asset_id q) = if decide (gap_free (off_chain db) COINS_TO_SPEND_COLUMN (index_prefix owner (sq_asset_id q)))
    then candidates owner (sq_asset_id q) e else []) as Hv by (unfold visible; by rewrite Hf).
  rewrite <- Hf in H1 at 1. cbn [spend_target target_id] in H1. rewrite <- Hv in H1. pose proof (selections_cons e q queries _ _ H1 IH) as Hs. revert Hs. cbn [spend_target target_id].
  destruct (select_coins_to_spend _ _ _ _ _); done.
Qed.

Lemma without_cache_selections e queries : has_flag db CoinsToSpend = false → Forall query_fits queries →
  ∃ r, coins_to_spend_without_cache db shuffle owner max_input base e queries = Some r ∧ selections e queries r.
Proof using All.
  intros Hf. unfold coins_to_spend_without_cache. induction 1 as [|q queries Hq Hqs IH]; [exists (Ok []); split; [done|]; exists []; split; [done|constructor]|].
  destruct IH as (r & Hr & Hs). rewrite fmap_cons. cbn [random_improve].
  destruct (uncached_outcome (sy_ledger _ Hsy) owner e (spend_target max_input q) (qf_amount _ Hq) (spend_target_max q Hq) db
    (shuffle (length queries)) Hsy owner_ok (shuffle_ok _)) as (cs & -> & H1).
  assert (visible e (sq_asset_id q) = candidates owner (sq_asset_id q) e) as Hv by (unfold visible; by rewrite Hf).
  rewrite <- Hf in H1 at 1. cbn [spend_target target_id] in H1. rewrite <- Hv in H1. rewrite length_fmap, Hr.
  pose proof (selections_cons e q queries _ _ H1 Hs) as Hc. destruct (random_improve_asset _ _ _ _) as [sel|err]; eexists; (split; [done|exact Hc]).
Qed.

Lemma request_outcome excluded queries : Forall query_fits queries →
  match request_error excluded queries with
  | Some err => coins_to_spend db gen_range shuffle owner max_input base excluded queries = Some (Err err)
  | None => ∃ ls, coins_to_spend db gen_range shuffle owner max_input base excluded queries = Some (Ok ls) ∧
      Forall2 (λ q sel, spend_ok owner {| coin_ids := excluded |} (visible {| coin_ids := excluded |} (sq_asset_id q)) (spend_target max_input q) sel) (take (Z.to_nat max_input) queries) ls
  end.
Proof using All.
  intros Hq. unfold request_error, coins_to_spend. case_decide; [done|]. destruct (duplicate_asset [] queries); [done|].
  apply (Forall_take _ (Z.to_nat max_input)) in Hq. set (e := {| coin_ids := excluded |}).
  assert (∃ r, (if has_flag db CoinsToSpend then Some (coins_to_spend_with_cache db gen_range owner max_input e (take (Z.to_nat max_input) queries))
    else coins_to_spend_without_cache db shuffle owner max_input base e (take (Z.to_nat max_input) queries)) = Some r ∧
    selections e (take (Z.to_nat max_input) queries) r) as (r & -> & Hs).
  { destruct (has_flag db CoinsToSpend) eqn:Hf; [eexists; split; [done|by apply with_cache_selections]|by apply without_cache_selections]. }
  unfold selections in Hs. destruct (first_error _ _); [by rewrite Hs|]. destruct Hs as (ls & -> & Hls). by exists ls.
Qed.
End request.
End synced.
