(* ===== verification/OffChainSample.v ===== *)
(** * Sample off-chain databases

    The off-chain database of a ledger, as it is built from a snapshot of the chain, and the
    one of the sample chain. *)

From stdpp Require Import prelude gmap list strings sorting.
From Stdlib Require Import ZArith Lia.
From S2P Require Import Prelude.
From S2P Require Import StorageTx.
From S2P Require Import HistoricalDb.
From S2P Require Import HistoricalDbFacts.
From S2P Require Import Database.
From S2P Require Import DatabaseFacts.
From S2P Require Import Tables.
From S2P Require Import Blocks.
From S2P Require Import BlockStore.
From S2P Require Import SampleChain.
From S2P Require Import Producer.
From S2P Require Import Importer.
From S2P Require Import ExecTypes.
From S2P Require Import VmStorage.
From S2P Require Import Executor.
From S2P Require Import ExecutorEffects.
From S2P Require Import SampleVm.
From S2P Require Import ExecutorSpec.
From S2P Require Import OffChain.
From S2P Require Import OffChainFacts.
From S2P Require Import OffChainQuery.
From S2P Require Import OffChainQueryFacts.
From S2P Require Import OffChainWorker.
From S2P Require Import OffChainBlockFacts.
From S2P Require Import OffChainCommit.
Local Open Scope Z_scope.

(** ** The database of a ledger *)

Definition unit_rows (l : list Key) : gmap Key Value := list_to_map ((λ k, (k, [])) <$> l).

Lemma unit_rows_lookup l k : unit_rows l !! k = if decide (k ∈ l) then Some [] else None.
Proof.
  unfold unit_rows. case_decide as Hk.
  - destruct (list_to_map _ !! k) as [v|] eqn:Hv.
    + apply elem_of_list_to_map_2, list_elem_of_fmap in Hv as (x & [= -> ->] & _). done.
    + apply not_elem_of_list_to_map_2 in Hv. destruct Hv. rewrite <- list_fmap_compose. by apply (list_elem_of_fmap_2' _ _ k).
  - apply not_elem_of_list_to_map_1. rewrite <- list_fmap_compose. intros (x & -> & Hx)%list_elem_of_fmap. done.
Qed.

(** A row per key whose value is a function of the key. *)
Definition value_rows {K} (enc : K → Key) (val : K → Value) (l : list K) : gmap Key Value := list_to_map ((λ x, (enc x, val x)) <$> l).

Lemma value_rows_lookup {K} (enc : K → Key) (val : K → Value) (l : list K) x :
  (∀ y, y ∈ l → enc y = enc x → val y = val x) →
  value_rows enc val l !! enc x = if decide (enc x ∈ enc <$> l) then Some (val x) else None.
Proof.
  intros Hval. unfold value_rows. case_decide as Hk.
  - destruct (list_to_map _ !! enc x) as [v|] eqn:Hv.
    + apply elem_of_list_to_map_2, list_elem_of_fmap in Hv as (y & [= He ->] & Hy). f_equal. by apply Hval.
    + apply not_elem_of_list_to_map_2 in Hv. destruct Hv. rewrite <- list_fmap_compose. exact Hk.
  - apply not_elem_of_list_to_map_1. rewrite <- list_fmap_compose. exact Hk.
Qed.

Section ledger_db.
Context `{OC : OffChainCodecs} `{OL : !OffChainCodecsLaws} `{!MetadataCodec} (base : AssetId) (L : Ledger).

Definition coin_pairs : list (Address * AssetId) := (λ e, (coin_owner e.2, coin_asset_id e.2)) <$> map_to_list (lcoins L).
Definition recipients : list Address := (λ e, recipient e.2) <$> map_to_list (lmessages L).

Definition ledger_db (h : Z) : Db :=
  <[METADATA_COLUMN := {[METADATA_KEY := ser_metadata (MetadataV2 DB_VERSION h all_indexation_kinds)]}]>
  (<[OWNED_COINS_COLUMN := unit_rows ((λ e, owner_coin_id_key (coin_owner e.2) e.1) <$> map_to_list (lcoins L))]>
  (<[OWNED_MESSAGE_IDS_COLUMN := unit_rows ((λ e, recipient e.2 ++ e.1) <$> map_to_list (lmessages L))]>
  (<[SPENT_MESSAGES_COLUMN := unit_rows (elements (lspent L))]>
  (<[COIN_BALANCES_COLUMN := value_rows (λ '(o, a), o ++ a) (λ '(o, a), ser_u128 (coins_of L o a)) coin_pairs]>
  (<[MESSAGE_BALANCES_COLUMN := value_rows (λ o, o) (λ o, ser_message_balance (ledger_balance L o)) recipients]>
  {[COINS_TO_SPEND_COLUMN := unit_rows (encode_index_key <$>
      (((λ e, from_coin (uncompress_coin e.2 e.1)) <$> map_to_list (lcoins L)) ++
       ((λ e, from_message e.2 base) <$> map_to_list (lmessages L))))]}))))).

Lemma rows_of_list (db : Db) c l (S : Key → Prop) : db !! c = Some (unit_rows l) → (∀ k, k ∈ l ↔ S k) → rows (view_of db) c S.
Proof.
  intros Hc HS k. unfold view_of. simpl. unfold db_get. rewrite Hc. simpl. rewrite unit_rows_lookup. case_decide as Hk; rewrite HS in Hk; auto.
Qed.

Lemma coins_of_none o a : (o, a) ∉ coin_pairs → coins_of L o a = 0.
Proof.
  intros Hn. unfold coins_of. rewrite map_sum_list. rewrite (lsum_ext _ (λ _, 0)); [apply lsum_zero|].
  intros [id c] Hc. unfold coin_share. simpl. rewrite decide_False; [done|]. intros [<- <-]. apply Hn. unfold coin_pairs.
  apply list_elem_of_fmap. by exists (id, c).
Qed.

Lemma messages_of_none o r : o ∉ recipients → messages_of L o r = 0.
Proof.
  intros Hn. unfold messages_of. rewrite map_sum_list. rewrite (lsum_ext _ (λ _, 0)); [apply lsum_zero|].
  intros [n m] Hm. unfold message_share. simpl. rewrite decide_False; [done|]. intros [<- _]. apply Hn. unfold recipients.
  apply list_elem_of_fmap. by exists (n, m).
Qed.

Lemma ledger_db_balances h : wf_ledger L → Z.of_nat (ledger_size L) ≤ U64 → balances_ok (view_of (ledger_db h)) L.
Proof using OL.
  intros Hwf Hs. split.
  - intros o a Ho Ha. unfold row, view_of. simpl. unfold db_get, ledger_db. rewrite !lookup_insert_ne by done. rewrite lookup_insert_eq. simpl.
    rewrite (value_rows_lookup (λ '(o, a), o ++ a) _ coin_pairs (o, a)).
    + case_decide as Hk; simpl.
      * pose proof (coins_of_range L o a Hwf Hs). eexists. split; [unfold decode_value; simpl; rewrite de_ser_u128; [done|unfold in_uint, U64, U128 in *; lia]|done].
      * eexists. split; [done|]. simpl. symmetry. apply coins_of_none. intros Hin. apply Hk, list_elem_of_fmap. by exists (o, a).
    + intros [o' a'] Hin He. apply list_elem_of_fmap in Hin as ([id c] & [= -> ->] & Hc%elem_of_map_to_list).
      destruct (wl_coins _ Hwf _ _ Hc) as (_ & Hco & _). simpl in *. by apply app32_inj in He as [-> ->].
  - intros o Ho. unfold row, view_of. simpl. unfold db_get, ledger_db. rewrite !lookup_insert_ne by done. rewrite lookup_insert_eq. simpl.
    rewrite (value_rows_lookup (λ o, o) _ recipients o) by (by intros y _ ->).
    case_decide as Hk; simpl.
    + pose proof (messages_of_range L o true Hwf Hs). pose proof (messages_of_range L o false Hwf Hs).
      eexists. split; [unfold decode_value; simpl; rewrite de_ser_message_balance; [done|simpl; unfold in_uint, U64, U128 in *; lia..]|done].
    + eexists. split; [done|]. simpl. rewrite list_fmap_id in Hk. unfold ledger_balance. by rewrite !messages_of_none.
Qed.

Lemma ledger_db_indexed h b1 b2 : wf_ledger L → Z.of_nat (ledger_size L) ≤ U64 → indexed base b1 b2 (view_of (ledger_db h)) L.
Proof using OL.
  intros Hwf Hs. split; [split|intros _; by apply ledger_db_balances|intros _].
  - eapply rows_of_list; [unfold ledger_db; by rewrite lookup_insert_ne, lookup_insert_eq by done|]. intros k. rewrite list_elem_of_fmap.
    unfold owned_coin_rows. split; [intros ([id c] & -> & Hc%elem_of_map_to_list); by exists id, c|intros (id & c & Hc & ->)].
    exists (id, c). by rewrite elem_of_map_to_list.
  - eapply rows_of_list; [unfold ledger_db; rewrite !lookup_insert_ne by done; by rewrite lookup_insert_eq|]. intros k. rewrite list_elem_of_fmap.
    unfold owned_message_rows. split; [intros ([n m] & -> & Hm%elem_of_map_to_list); by exists n, m|intros (n & m & Hm & ->)].
    exists (n, m). by rewrite elem_of_map_to_list.
  - eapply rows_of_list; [unfold ledger_db; rewrite !lookup_insert_ne by done; by rewrite lookup_insert_eq|]. intros k. by rewrite elem_of_elements.
  - eapply rows_of_list; [unfold ledger_db; rewrite !lookup_insert_ne by done; by rewrite lookup_singleton_eq|].
    intros k. rewrite list_elem_of_fmap. unfold to_spend_rows, to_spend_keys. setoid_rewrite elem_of_app. setoid_rewrite list_elem_of_fmap. split.
    + intros (x & -> & [([id c] & -> & Hc%elem_of_map_to_list)|([n m] & -> & Hm%elem_of_map_to_list)]); eexists; (split; [|done]); [left; by exists id, c|right; by exists n, m].
    + intros (x & [(id & c & Hc & ->)|(n & m & Hm & ->)] & ->); eexists; (split; [done|]); [left; exists (id, c)|right; exists (n, m)]; by rewrite elem_of_map_to_list.
Qed.
End ledger_db.

(** ** The sample chain *)

Module SampleOffChain.
Import SampleDb.
Import SampleChain.
Import SampleVm.
Import ExecutorExamples.
#[local] Arguments ser : simpl never.
#[local] Arguments de : simpl never.

#[global] Instance status_eq_dec : EqDecision (StoredStatus Z unit).
Proof. solve_decision. Defined.
#[global] Instance status_countable : Countable (StoredStatus Z unit).
Proof.
  refine (inj_countable' (λ s, match s with
    | StatusSubmitted t => inl (inl t)
    | StatusSuccess h t st rs g f => inl (inr (h, t, st, rs, g, f))
    | StatusSqueezedOut r => inr (inl r)
    | StatusFailed h t st rs g f => inr (inr (h, t, st, rs, g, f))
    end) (λ x, match x with
    | inl (inl t) => StatusSubmitted t
    | inl (inr (h, t, st, rs, g, f)) => StatusSuccess h t st rs g f
    | inr (inl r) => StatusSqueezedOut r
    | inr (inr (h, t, st, rs, g, f)) => StatusFailed h t st rs g f
    end) _).
  by intros [].
Defined.

(** A receipt mints as many units of the sample contract's asset as it says. *)
#[global] Instance off_chain_codecs : OffChainCodecs := {
  ser_u128 x := ser x;
  de_u128 v := de v;
  ser_count x := ser x;
  de_count v := de v;
  ser_name s := ser s;
  ser_message_balance b := ser (retryable b, non_retryable b);
  de_message_balance v := (λ '(r, n), {| retryable := r; non_retryable := n |}) <$> de v;
  ser_asset_details d := ser (details_contract_id d, details_sub_id d, total_supply d);
  de_asset_details v := (λ '(c, s, t), {| details_contract_id := c; details_sub_id := s; total_supply := t |}) <$> de v;
  ser_relayed_status '(RelayedFailed h _) := ser h;
  de_relayed_status _ := None;
  ser_status s := ser s;
  de_status v := de v;
  ser_salt s := s;
  de_salt v := Some v;
  supply_receipt r := if decide (0 < r) then ReceiptMint zeroed CONTRACT r else ReceiptOther;
  contract_asset_id c _ := c;
  create_salt _ := zeroed;
  computed_contract_id _ := Ok CONTRACT;
}.

#[global] Instance off_chain_codecs_laws : OffChainCodecsLaws.
Proof.
  split; simpl; intros; rewrite de_ser; [done|done|by destruct b|by destruct d].
Qed.

Definition settings : WorkerSettings :=
  {| ws_chain_id := 0; ws_balances := true; ws_coins_to_spend := true; ws_asset_metadata := true; ws_base_asset_id := zeroed |}.

(** The coins of the sample database. *)
Definition ledger : Ledger := {|
  lcoins := <[utxo 1 := coin]> (<[utxo 2 := coin]> {[utxo 4 := coin]});
  lmessages := ∅;
  lspent := ∅;
|}.

Lemma ledger_wf : wf_ledger ledger.
Proof.
  split; [|apply map_Forall_empty]. simpl. repeat apply map_Forall_insert_2; [..|by apply map_Forall_empty];
    (split_and!; [|by vm_compute|by vm_compute|by vm_compute]); (split; [split|]; by vm_compute).
Qed.

(** A row of the table of coins. *)
Lemma coin_row_insert (n : Z) (c : CompressedCoin) (id : UtxoId) (m : gmap Key Value) (m' : gmap UtxoId CompressedCoin) :
  wf_utxo id → m !! utxo_key id = ser_coin <$> m' !! id →
  <[utxo_key (utxo n) := ser_coin c]> m !! utxo_key id = ser_coin <$> <[utxo n := c]> m' !! id.
Proof.
  intros Hid Hm. assert (wf_utxo (utxo n)) as Hwf by (split; by vm_compute).
  destruct (decide (utxo n = id)) as [<-|Hne]; [by rewrite !lookup_insert_eq|].
  rewrite !lookup_insert_ne; [done|done|]. intros He. apply Hne. by apply utxo_key_inj.
Qed.

Lemma ledger_held : holds (view_of exec_db) ledger.
Proof.
  split.
  - intros id Hid. unfold view_of. cbn [kv_get rocks_inspect]. unfold db_get.
    unfold exec_db. rewrite !lookup_insert_ne by discriminate. rewrite lookup_singleton_eq.
    cbn [mbind option_bind]. f_equal. cbn [ledger lcoins].
    apply coin_row_insert, coin_row_insert, coin_row_insert; [done..|]. by rewrite !lookup_empty.
  - intros n Hn. unfold view_of. cbn [kv_get rocks_inspect]. unfold db_get.
    replace (exec_db !! MESSAGES_COLUMN) with (@None (gmap Key Value)) by (by vm_compute). done.
Qed.

(** *** The worker on it *)

Definition sample_result := match validate_without_commit exec_instance sample_block with Ok x => x | Err _ => ([], [], ∅) end.

Lemma sample_validates : validate_without_commit exec_instance sample_block = Ok sample_result.
Proof. pose proof sample_valid as Hv. unfold sample_result. destruct (validate_without_commit exec_instance sample_block); [reflexivity|discriminate Hv]. Qed.

Definition sample_import : ImportResult Transaction Z (TransactionExecutionStatus Z unit) ExecutorEvent := {|
  sealed_block := {| entity := sample_block; seal := CPoA 0 |};
  tx_status := sample_result.1.1;
  events := sample_result.1.2;
  source := Network;
|}.

Definition off_chain_db : Database := {|
  Database.height := Some 0;
  data := {| state_rewind_policy := RewindFullRange; rocks := ledger_db zeroed ledger 0; has_v1_history := false |};
|}.

Definition sample_task : Task := {|
  w_database := off_chain_db; w_settings := settings; w_completed := []; w_handler := Handler_new 0; w_notified := []; w_published := [];
|}.

Lemma off_chain_opened : opened RewindFullRange off_chain_db 0.
Proof.
  split; [reflexivity|reflexivity|reflexivity|by vm_compute|by vm_compute| |].
  - intros k. unfold db_get. replace (rocks (data off_chain_db) !! HISTORY_V2_COLUMN_ID) with (@None (gmap Key Value)) by (by vm_compute). reflexivity.
  - intros k c Hc. unfold db_get. cbn [off_chain_db data rocks]. unfold ledger_db.
    rewrite !lookup_insert_ne, lookup_singleton_ne; [reflexivity|..];
      unfold METADATA_COLUMN, OWNED_COINS_COLUMN, OWNED_MESSAGE_IDS_COLUMN, SPENT_MESSAGES_COLUMN, COIN_BALANCES_COLUMN, MESSAGE_BALANCES_COLUMN,
        COINS_TO_SPEND_COLUMN; column_lia.
Qed.

Lemma off_chain_db_ok : db_ok off_chain_keys RewindFullRange off_chain_db (initial off_chain_db 0) [].
Proof. apply opened_ok; [exact I|apply off_chain_opened]. Qed.

Lemma sample_indexed : indexed zeroed true true (stored sample_task) ledger.
Proof. apply ledger_db_indexed; [apply ledger_wf|by vm_compute]. Qed.

(** No other column has rows. *)
Lemma no_rows k c : c ∈ head_columns → stored sample_task k c = Ok None.
Proof.
  intros Hc. unfold stored, view_of. cbn [kv_get rocks_inspect sample_task w_database off_chain_db data rocks]. f_equal. unfold db_get.
  unfold ledger_db. assert (∀ x, bool_decide (x ∈ head_columns) = false → x ≠ c) as Hne by (intros x Hx%bool_decide_eq_false ->; auto).
  rewrite !lookup_insert_ne, lookup_singleton_ne; [reflexivity|apply Hne; reflexivity..].
Qed.

(** *** The sample block fits *)

Lemma forallb_elem {A} (f : A → bool) (l : list A) : forallb f l = true → ∀ x, x ∈ l → f x = true.
Proof. rewrite forallb_forall. intros Hl x Hx. apply Hl. by apply list_elem_of_In. Qed.

Definition bytes32 (l : list Z) : bool := bool_decide (length l = 32%nat).
Definition u64 (x : Z) : bool := bool_decide (0 ≤ x ≤ U64).

Definition event_wfb (ev : ExecutorEvent) : bool :=
  match ev with
  | CoinCreated c | CoinConsumed c =>
      bytes32 (utxo_tx_id (coin_utxo_id c)) && bool_decide (0 ≤ output_index (coin_utxo_id c) ≤ U8) &&
      bytes32 (coin_owner (compressed c)) && bytes32 (coin_asset_id (compressed c)) && u64 (coin_amount (compressed c))
  | MessageImported m | MessageConsumed m => bytes32 (nonce m) && bytes32 (recipient m) && u64 (msg_amount m)
  | ForcedTransactionFailed id _ _ => bytes32 id
  end.

Lemma event_wfb_ok ev : event_wfb ev = true → wf_event ev.
Proof.
  destruct ev as [m|m|c|c|id h f]; simpl; unfold bytes32, u64; rewrite ?andb_true_iff, ?bool_decide_eq_true; unfold wf_message, wf_coin, small_utxo, wf_utxo, in_uint;
    [intuition..| | |auto].
  - intros [[[[? ?] ?] ?] ?]. split_and!; unfold U8, U16 in *; auto; lia.
  - intros [[[[? ?] ?] ?] ?]. split_and!; unfold U8, U16 in *; auto; lia.
Qed.

Lemma sample_events : Forall wf_event (events sample_import).
Proof.
  assert (forallb event_wfb (events sample_import) = true) as Hb by (vm_compute; reflexivity).
  apply Forall_forall. intros ev Hev. exact (event_wfb_ok ev (forallb_elem _ _ Hb ev Hev)).
Qed.

(** The only message that is imported is the bridged one. *)
Fixpoint imports_newb (l : gset Nonce) (evs : list ExecutorEvent) : bool :=
  match evs with
  | [] => true
  | MessageImported m :: evs => bool_decide (nonce m ∉ l) && imports_newb ({[nonce m]} ∪ l) evs
  | _ :: evs => imports_newb l evs
  end.

Lemma imports_newb_ok evs : ∀ l L, imports_newb l evs = true → dom (lmessages L) ⊆ l → imports_new L evs.
Proof.
  induction evs as [|ev evs IH]; intros l L Hb Hl; [exact I|]. destruct ev as [m|m|c|c|id h f]; simpl in *; (split; [try exact I|]).
  - apply andb_true_iff in Hb as [Hb%bool_decide_eq_true _]. apply not_elem_of_dom. set_solver.
  - apply andb_true_iff in Hb as [_ Hb]. apply (IH _ _ Hb). simpl. set_solver.
  - apply (IH _ _ Hb). simpl. set_solver.
  - by apply (IH _ _ Hb).
  - by apply (IH _ _ Hb).
  - by apply (IH _ _ Hb).
Qed.

Lemma sample_imports : imports_new ledger (events sample_import).
Proof. apply (imports_newb_ok _ ∅); [vm_compute; reflexivity|]. simpl. set_solver. Qed.

Definition tx_wfb (tx : Transaction) : bool :=
  match tx with
  | TxChargeable c => forallb bytes32 (omap input_owner (inputs c) ++ omap output_owner (outputs c)) && bool_decide (kind c ≠ Create)
  | TxMint _ => true
  end.

Lemma sample_txs_wf : forallb tx_wfb (transactions sample_block) = true.
Proof. vm_compute. reflexivity. Qed.

Lemma sample_fits : block_fits settings sample_import (stored sample_task) (λ _, 0).
Proof.
  pose proof (forallb_elem _ _ sample_txs_wf) as Htx.
  split.
  - split; [apply (bool_decide_unpack _); vm_compute; exact I|]. intros st Hst. split; [|apply no_rows, (bool_decide_unpack _); exact I].
    assert (forallb (λ st, bytes32 (status_id st)) (tx_status sample_import) = true) as Hs by (vm_compute; reflexivity).
    exact (proj1 (bool_decide_eq_true _) (forallb_elem _ _ Hs st Hst)).
  - intros _. split.
    + intros a Ha. split; [by vm_compute|]. exists None. split; [|reflexivity]. unfold row.
      by rewrite no_rows by (apply (bool_decide_unpack _); exact I).
    + match goal with |- receipts_fit _ ?l =>
        replace l with [ReceiptMint zeroed CONTRACT 1; ReceiptMint zeroed CONTRACT 4] by (vm_compute; reflexivity)
      end. vm_compute. repeat split; intros ?; discriminate.
  - split_and!; [by vm_compute|by vm_compute|]. intros c o Hc Ho. specialize (Htx _ Hc). clear Hc. apply andb_true_iff in Htx as [Hc _].
    exact (proj1 (bool_decide_eq_true _) (forallb_elem _ _ Hc o Ho)).
  - apply Forall_forall. intros tx Hin. specialize (Htx _ Hin). clear Hin. destruct tx as [m|c]; [by split|]. rename Htx into Hin. simpl in Hin. apply andb_true_iff in Hin as [_ Hk%bool_decide_eq_true].
    split; [by intros ? [= <-] ?|]. intros id salt. simpl. by rewrite decide_False.
  - by vm_compute.
  - exists None. split; [|done]. unfold row. by rewrite no_rows by (apply (bool_decide_unpack _); exact I).
Qed.
End SampleOffChain.
