(* ===== verification/OffChainSpec.v ===== *)
(** * The off-chain database as a whole

    The indexes are those of the chain: a block that validation accepts becomes one version of
    the off-chain database, whose indexes are those of the coins and messages that the block
    leaves on chain; a worker that starts behind the chain catches up with it, in the order of
    the blocks; the query for balances answers from the indexes what it answers from the coins
    themselves, and the one for coins to spend exactly what the ledger gives on both paths. *)

From stdpp Require Import prelude gmap list strings sorting relations.
From Stdlib Require Import ZArith Lia.
From S2P Require Import Prelude.
From S2P Require Import StorageTx.
From S2P Require Import HistoricalDb.
From S2P Require Import HistoricalDbFacts.
From S2P Require Import Database.
From S2P Require Import DatabaseFacts.
From S2P Require Import Tables.
From S2P Require Import Blocks.
From S2P Require Import BlockStore.
From S2P Require Import Producer.
From S2P Require Import Importer.
From S2P Require Import ChainFacts.
From S2P Require Import ExecTypes.
From S2P Require Import VmStorage.
From S2P Require Import Executor.
From S2P Require Import ExecutorMonad.
From S2P Require Import ExecutorReplay.
From S2P Require Import ExecutorEffects.
From S2P Require Import ExecutorAccounts.
From S2P Require Import ExecutorSpec.
From S2P Require Import SampleChain.
From S2P Require Import SampleVm.
From S2P Require Import Iteration.
From S2P Require Import OffChain.
From S2P Require Import OffChainFacts.
From S2P Require Import OffChainQuery.
From S2P Require Import OffChainWorker.
From S2P Require Import OffChainWorkerFacts.
From S2P Require Import OffChainBlockFacts.
From S2P Require Import OffChainCommit.
From S2P Require Import CoinSelection.
From S2P Require Import OffChainQueryFacts.
From S2P Require Import OffChainSample.
Local Open Scope Z_scope.

(** ** From the executor to the indexes *)

Section validated.
Context {Signature : Type} `{FV : FuelVm} `{CC : !ChainCrypto Transaction Signature}.
Context `{BC : !BlockCodecs Transaction Signature} `{SC : StateCodecs} `{MT : MerkleTree}.
Context `{HZ : !HashOrder Z} `{HK : !HashOrder Key} `{FL : !FuelVmLaws Signature} `{SL : !StateCodecsLaws}.
Context {D : Type} `{KV : !KeyValueInspect D} `{KL : !KeyValueLaws D}.
Context `{OC : !OffChainCodecs} `{OL : !OffChainCodecsLaws}.
Context `{PC : !Postcard} `{PL : !PostcardLaws} `{MC : !MetadataCodec} `{ML : !MetadataCodecLaws}.
Abbreviation Import := (ImportResult Transaction Signature (TransactionExecutionStatus Receipt ProgramState) ExecutorEvent).

(** The off-chain database has the status of a transaction only if the chain has processed it. *)
Definition statuses_known (on off : View.t) : Prop :=
  ∀ id, on id PROCESSED_TRANSACTIONS_COLUMN = Ok None → off id TRANSACTION_STATUS_COLUMN = Ok None.

(** What the executor does not ensure: identifiers and owners have their widths, the supplies of
    the assets allow the mints and burns of the receipts, and the count of transactions is there. *)
Record block_typed ws (r : Import) (w : View.t) (s : AssetId → Z) : Prop := {
  bt_statuses : Forall (λ st, length (status_id st) = 32%nat) (tx_status r);
  bt_receipts : ws_asset_metadata ws = true →
    supplies w s ∧ receipts_fit s (supply_receipt <$> successful_receipts (tx_status r));
  bt_owners : wf_owners (entity (sealed_block r));
  bt_contracts : Forall wf_contract (transactions (entity (sealed_block r)));
  bt_count : ∃ c, row StatisticTable w TX_COUNT = Ok c ∧ 0 ≤ default 0 c;
}.

(** C4: when the off-chain tables are the indexes of the coins and messages on chain, and have
    statuses of processed transactions only, the next block is processed without an error if
    validation accepts it with coins that do not exist forbidden and messages stored by their
    nonces, no forced transaction failed in its execution, its imported messages are new, its
    identifiers and amounts have their widths, it can be serialised, and the supplies of the
    assets allow its receipts; the off-chain database has then one more version, at the height of the block, whose
    tables are the indexes of the coins and messages that the block leaves on chain and have
    statuses of processed transactions only, and the outcome of the block's transactions, of its
    contracts and of its assets are stored. *)
Theorem validated_block_indexed (ser_import : Import → option Value) (i : @ExecutionInstance D) ch p w v revs (r : Import) s L raw :
  forbid_fake_coins (xoptions i) = true → messages_keyed (view_of (xdatabase i)) →
  validate_without_commit i (entity (sealed_block r)) = Ok (tx_status r, events r, ch) → ¬ left_events (events r) →
  holds (view_of (xdatabase i)) L → wf_ledger L → Forall wf_event (events r) → imports_new L (events r) →
  Z.of_nat (ledger_size L + length (events r)) ≤ U64 →
  db_ok off_chain_keys p (w_database w) v revs → wf_import r → import_height r = v_latest v + 1 →
  length (ws_base_asset_id (w_settings w)) = 32%nat → block_typed (w_settings w) r (stored w) s →
  statuses_known (view_of (xdatabase i)) (stored w) →
  indexed (ws_base_asset_id (w_settings w)) (ws_balances (w_settings w)) (ws_coins_to_spend (w_settings w)) (stored w) L →
  ser_import r = Some raw →
  ∃ w' v' revs' L', process_block ser_import w r = (w', Ok ()) ∧ db_ok off_chain_keys p (w_database w') v' revs' ∧
    v_latest v' = import_height r ∧ w_settings w' = w_settings w ∧
    holds (after (xdatabase i) ch) L' ∧ wf_ledger L' ∧
    indexed (ws_base_asset_id (w_settings w)) (ws_balances (w_settings w)) (ws_coins_to_spend (w_settings w)) (stored w') L' ∧
    statuses_known (after (xdatabase i) ch) (stored w') ∧
    block_indexed (w_settings w) r (stored w) s L (stored w').
Proof using Type*.
  intros Hforbid Hkeyed Hv Hleft Hh HL Hwf Hnew Hsize Hok Hwi Hhe Hbase [Hst Hrs How Hco Hct] Hkn Hix Hser.
  pose proof (validated_replays i _ _ _ _ Hforbid Hkeyed Hv Hleft) as Hr.
  destruct (validated_ids i _ _ _ _ Hv) as (Hnd & Hids & Hpr).
  destruct (replays_follow _ _ _ L Hr Hh Hwf Hnew) as [Hev Hh'].
  assert (block_fits (w_settings w) r (stored w) s) as Hfit.
  { split; [|done..|apply Hwi|done]. split; [done|]. rewrite Forall_forall in Hst. intros st Hin. split; [by apply Hst|].
    by apply Hkn, Hids, list_elem_of_fmap_2. }
  destruct (process_block_ok ser_import p w v revs r s L raw) as (w' & v' & revs' & Hp & Hok' & Hl' & Hws & Hbx & _); try done.
  exists w', v', revs', (foldl ledger_event L (events r)). split_and!; try done; [by apply events_wf|apply Hbx|].
  intros id Hid. rewrite Hpr in Hid. case_decide as Hin; [done|]. rewrite (ss_old _ _ _ _ (bx_statuses _ _ _ _ _ _ Hbx)) by done. by apply Hkn.
Qed.
End validated.

(** ** The worker along the chain *)

Section worker.
Context {Signature : Type} `{FV : FuelVm} `{CC : !ChainCrypto Transaction Signature}.
Context `{HZ : !HashOrder Z} `{HK : !HashOrder Key} `{OC : !OffChainCodecs} `{OL : !OffChainCodecsLaws}.
Context `{PC : !Postcard} `{PL : !PostcardLaws} `{MC : !MetadataCodec} `{ML : !MetadataCodecLaws}.
Abbreviation Import := (ImportResult Transaction Signature (TransactionExecutionStatus Receipt ProgramState) ExecutorEvent).
Abbreviation Block := (ValidImport (Signature := Signature)).
Context (ser_import : Import → option Value) (ser_ok : ∀ r, is_Some (ser_import r)).
#[local] Instance block_processor : BlockProcessor Task Block WorkerError := import_processor ser_import.
#[local] Instance block_processor_laws : BlockProcessorLaws Task Block WorkerError := import_processor_laws ser_import ser_ok.
Implicit Types (s : Worker Task Block WorkerError) (chain : list Block).

Lemma up_to_height ws p g chain m L0 n (w : Task) : up_to ws p g chain m L0 n w → Database.height (w_database w) = Some (g + Z.of_nat n - 1).
Proof. intros (_ & _ & v & revs & s & Hok & <- & _). apply (do_height _ _ _ _ _ Hok). Qed.

(** The invariant of the catch-up, from any state in which it begins. *)
Lemma begins_catching_up ws p g m L0 s :
  in_order g m s → wk_phase s = Drain → up_to ws p g (wk_chain s) m L0 (m + length (wk_processed s)) (wk_task s) →
  catching_up g (up_to ws p g (wk_chain s) m L0) (wk_chain s) (wk_chain s) m s.
Proof using Type. intros Hio Hp Hup. split; [done|done|done|done|]. by rewrite Hp. Qed.

Lemma up_to_good ws p g m L0 s : length (ws_base_asset_id ws) = 32%nat → in_order g m s →
  ∀ n (w : Task) (b : Block), up_to ws p g (wk_chain s) m L0 n w → wk_chain s !! n = Some b →
  ∃ w', bp_process w b = (w', Ok ()) ∧ up_to ws p g (wk_chain s) m L0 (S n) w'.
Proof using Type*. intros Hb Hio n w b. apply (up_to_next ser_import ser_ok ws Hb p g (wk_chain s) (io_linked _ _ _ Hio) m L0). Qed.

(** C10: however the commits of blocks, their broadcasts, the polls of the worker and a stop of
    the service are interleaved, the blocks that the worker has processed are a contiguous
    segment of the chain, in order, that begins after the height at which it started, and the
    off-chain database is at the height of the last of them. *)
Theorem worker_in_order g m chain (w : Task) c k s :
  linked g chain → chain ≠ [] → (m ≤ length chain)%nat → Database.height (w_database w) = height_after g m →
  rtc worker_step (started w c chain k) s →
  linked g (wk_chain s) ∧ wk_processed s = take (length (wk_processed s)) (drop m (wk_chain s)) ∧
  Database.height (w_database (wk_task s)) = height_after g (m + length (wk_processed s)).
Proof using Type*.
  intros Hl Hne Hm Hh Hr. pose proof (started_in_order g w c chain k m Hl Hne Hm Hh) as Hio.
  destruct (reached_in_order g m _ _ Hr Hio). done.
Qed.

(** C8: a worker that begins to catch up, wherever it is, while blocks are committed and broadcast,
    with blocks that all fit the off-chain tables (new transactions, events that follow from the
    coins and messages before them, receipts that the supplies allow), takes at most four steps
    of its loop for each block of the chain that it has not processed, one for each block of the
    stream or broadcast meanwhile, and two more; a run that has not come to its end can go on; at
    its end the worker follows the chain, has processed at least the blocks that were there when
    it began, in order, and the tables are the indexes of the coins and messages after them. *)
Theorem off_chain_catches_up ws p g m L0 chain (w : Task) c k s0 n nb s :
  linked g chain → chain ≠ [] → (m ≤ length chain)%nat → Database.height (w_database w) = height_after g m →
  length (ws_base_asset_id ws) = 32%nat →
  rtc worker_step (started w c chain k) s0 → wk_phase s0 = Drain →
  catch_up_run n nb s0 s → up_to ws p g (wk_chain s) m L0 (m + length (wk_processed s0)) (wk_task s0) →
  (n ≤ 4 * (length (wk_chain s) - (m + length (wk_processed s0))) + length (wk_stream s0) + nb + 2)%nat ∧
  ((∃ s', catch_up_step s s') ∨
   wk_phase s = Following ∧ ∃ j, (length (wk_chain s0) ≤ j ≤ length (wk_chain s))%nat ∧
     wk_processed s = drop m (take j (wk_chain s)) ∧ Database.height (w_database (wk_task s)) = height_after g j ∧
     indexed (ws_base_asset_id ws) (ws_balances ws) (ws_coins_to_spend ws) (stored (wk_task s)) (ledger_after (wk_chain s) m L0 j)).
Proof using Type*.
  intros Hl Hne Hm Hh Hbase Hr Hd Hn Hup. pose proof (started_in_order g w c chain k m Hl Hne Hm Hh) as Hio.
  pose proof (reached_in_order g m _ _ Hr Hio) as Hio0. pose proof (run_reached _ _ _ _ Hn) as Hreached.
  pose proof (reached_in_order g m _ _ Hreached Hio0) as Hio1.
  assert (catching_up g (up_to ws p g (wk_chain s) m L0) (wk_chain s0) (wk_chain s) m s0) as Hcu.
  { split; [done|done|by eapply run_chain|done|by rewrite Hd]. }
  destruct (catching_up_run g _ _ _ (up_to_good _ p _ _ L0 _ Hbase Hio1) m n nb s0 s Hn eq_refl Hcu) as [Hcu' Hle]. split.
  { unfold to_do in Hle at 2. rewrite Hd in Hle. unfold done_blocks in Hle. lia. }
  destruct (catching_up_moves g _ _ _ m s Hcu') as [Hf|]; [right|by left]. split; [done|].
  destruct (catching_up_done g _ _ _ m s Hcu' Hf) as (Hj & Ht & Hpr). exists (done_blocks m s). split_and!; [lia|lia|done|done|].
  pose proof (cu_good _ _ _ _ _ _ Hcu') as (_ & _ & v & revs & x & _ & _ & Hfit). apply Hfit.
Qed.

(** C24: the importer commits a block before it broadcasts it. A worker that starts in between
    reads the block from the chain, follows the chain, and then receives the same block: it
    cannot be processed again, and without the setting to go on after errors the worker stops.
    The blocks of the chain are assumed to fit the off-chain tables. *)
Theorem late_broadcast_stops ws p g m L0 chain (w : Task) k (b : Block) :
  linked g chain → (1 ≤ m ≤ length chain)%nat → length (ws_base_asset_id ws) = 32%nat → up_to ws p g chain m L0 m w →
  chain !! k = Some b →
  ∃ s, rtc catch_up_step (started w false chain k) s ∧ wk_phase s = Following ∧ wk_processed s = drop m chain ∧
    let received := with_chain chain [b] (S k) s in
    let failed := process Following b (with_queues (wk_target s) (wk_buffered s) [] received) in
    worker_step s received ∧ worker_step received failed ∧ wk_phase failed = ShuttingDown ∧ wk_processed failed = drop m chain.
Proof using Type*.
  intros Hl Hm Hbase Hup Hk. assert (chain ≠ []) as Hne by (by destruct chain).
  assert (in_order g m (started w false chain k)) as Hio.
  { apply started_in_order; [done|done|lia|]. simpl. rewrite (up_to_height _ _ _ _ _ _ _ _ Hup). destruct m; [lia|]. simpl. f_equal. lia. }
  assert (catching_up g (up_to ws p g chain m L0) chain chain m (started w false chain k)) as Hcu.
  { apply (begins_catching_up ws p g m L0 (started w false chain k)); [done|done|]. simpl. by rewrite Nat.add_0_r. }
  destruct (catching_up_reaches g _ _ _ (up_to_good _ p _ _ L0 _ Hbase Hio) m _ Hcu) as (n & s & Hr & Hcu' & Hf & _).
  apply rtc_nsteps_2 in Hr. destruct (catching_up_done g _ _ _ m s Hcu' Hf) as (Hj & _ & Hpr).
  destruct (catch_ups_frame _ _ Hr eq_refl) as (Hc & Hch & Hb & Hst). rewrite Hch, take_ge in Hpr by (rewrite Hch in Hj; simpl in Hj; simpl; lia).
  simpl in Hc, Hch, Hb, Hst, Hpr. exists s. split; [done|]. split; [done|]. split; [done|]. cbv zeta.
  assert (worker_step s (with_chain chain [b] (S k) s)) as H1.
  { pose proof (step_broadcast s b) as Hs. rewrite Hch, Hb, Hst in Hs. by apply Hs. }
  split; [done|]. split; [by apply (step_follow (with_chain chain [b] (S k) s) b [])|].
  destruct (process_again g m (with_queues (wk_target s) (wk_buffered s) [] (with_chain chain [b] (S k) s)) k b Following) as (w' & e & ->); simpl.
  - apply (step_in_order g m) in H1; [|apply (cu_order _ _ _ _ _ _ Hcu')]. destruct H1. split; simpl in *; try done.
    intros x Hx. set_solver.
  - done.
  - rewrite Hpr, length_drop. apply lookup_lt_Some in Hk. lia.
  - unfold on_error. simpl. rewrite Hf, Hc. done.
Qed.
End worker.

(** ** Balances and coins to spend *)

Section queries.
Context `{SC : StateCodecs} `{SL : !StateCodecsLaws} `{OC : OffChainCodecs} `{OL : !OffChainCodecsLaws}.

(** C22: the balance of an owner in an asset is the sum of the coins of the owner, and for the
    base asset of the messages without data as well, whether it is read from the index of the
    balances or summed up over the coins. *)
Theorem balance_agrees base L (db : ReadView) owner asset :
  length base = 32%nat → synced base L db → length owner = 32%nat → length asset = 32%nat → Z.of_nat (ledger_size L) ≤ U64 →
  balance db owner asset base = Some (Ok (ledger_funds base L owner asset)).
Proof using Type*. intros Hb. by apply balance_exact. Qed.


Context (base : AssetId) (L : Ledger) (db : ReadView) (owner : Address) (max_input : Z).
Context (gen_range : nat → Z → Z) (shuffle : nat → list CoinType → list CoinType).
Context (base_ok : length base = 32%nat) (in_sync : synced base L db) (owner_ok : length owner = 32%nat) (max_ok : 0 < max_input ≤ U16).
Context (gen_ok : ∀ i b, 0 ≤ b → 0 ≤ gen_range i b ≤ b) (shuffle_ok : ∀ i l, shuffle i l ≡ₚ l).

(** The outcome of a request for one asset. *)
Lemma single_outcome excluded q : Z.of_nat (length excluded) ≤ max_input → query_fits q →
  let inputs := visible base L db owner {| coin_ids := excluded |} (sq_asset_id q) in
  match spend_error (has_flag db CoinsToSpend) owner inputs (spend_target max_input q) with
  | Some err => coins_to_spend db gen_range shuffle owner max_input base excluded [q] = Some (Err err)
  | None => ∃ sel, coins_to_spend db gen_range shuffle owner max_input base excluded [q] = Some (Ok [sel]) ∧
      spend_ok base L owner {| coin_ids := excluded |} inputs (spend_target max_input q) sel
  end.
Proof using Type*.
  intros Hex Hq inputs. assert (∃ n, Z.to_nat max_input = S n) as [n Hn] by (exists (Nat.pred (Z.to_nat max_input)); lia).
  pose proof (request_outcome base base_ok L db in_sync owner owner_ok max_input ltac:(lia) gen_range gen_ok shuffle shuffle_ok excluded [q])
    as Ho. specialize (Ho ltac:(by constructor)). unfold request_error, first_error in Ho. rewrite decide_False in Ho by lia.
  rewrite Hn in Ho. cbn [duplicate_asset take] in Ho. rewrite take_nil, decide_False in Ho by set_solver.
  cbn [omap list_omap] in Ho. fold inputs in Ho.
  destruct (spend_error _ _ _ _) as [err|]; [done|]. simpl in Ho. destruct Ho as (ls & Hls & Hf).
  apply Forall2_cons_inv_l in Hf as (sel & ls' & Hsel & Hnil & ->). apply Forall2_nil_inv_l in Hnil as ->. by exists sel.
Qed.

(** C28: a request for an amount that is not zero with a limit of no coins, which does not allow
    less than the amount, is answered with no coins if there is the index of coins to spend;
    without the index it is refused. *)
Theorem zero_limit_answers excluded q :
  Z.of_nat (length excluded) ≤ max_input → length (sq_asset_id q) = 32%nat → 0 < sq_amount q ≤ U128 → sq_max q = Some 0 →
  sq_allow_partial q ≠ Some true →
  coins_to_spend db gen_range shuffle owner max_input base excluded [q] = Some
    (if has_flag db CoinsToSpend then Ok [[]]
     else Err (if decide (candidates base L owner (sq_asset_id q) {| coin_ids := excluded |} = [])
               then InsufficientCoins owner (sq_asset_id q) 0 else MaxCoinsReached owner (sq_asset_id q) 0 0)).
Proof using Type*.
  intros Hex Ha Hamount Hmax Hpart.
  pose proof (single_outcome excluded q Hex) as Ho. specialize (Ho ltac:(split; [lia|rewrite Hmax; intros m [= <-]; int_lia|done])).
  cbv zeta in Ho. unfold spend_error in Ho. set (a := spend_target max_input q) in *.
  assert (target_max a = 0) as Hz by (unfold a; simpl; rewrite Hmax; simpl; lia).
  assert (allow_partial a = false) as Hp by (unfold a; simpl; destruct (sq_allow_partial q) as [[]|]; done).
  assert (∀ l, best_of a l = 0) as Hbest by (intros l; unfold best_of; by rewrite Hz).
  unfold visible, spend_succeeds in Ho. destruct (has_flag db CoinsToSpend).
  - rewrite decide_True in Ho by auto. destruct Ho as (sel & -> & Hsel). pose proof (so_length _ _ _ _ _ _ _ Hsel) as Hlen.
    destruct sel; [done|]. rewrite Hz in Hlen. simpl in Hlen. lia.
  - rewrite decide_False in Ho by (rewrite Hbest, Hp; unfold a; simpl; naive_solver lia). rewrite Ho, Hbest. do 2 f_equal.
    destruct (candidates _ _ _ _ _) as [|x l].
    + rewrite (decide_False (P := target_max a < _)), decide_True by (done || (cbn [length]; lia)). done.
    + rewrite (decide_True (P := target_max a < _)), decide_False, Hz by (done || (cbn [length]; lia)). done.
Qed.

(** C27: with the index of coins to spend, an owner cannot select coins of an asset whose id ends
    in bytes 255 as long as they own a coin of an asset close after it: one whose id is that of
    the first up to its last byte that is not 255, has there the byte that follows, and differs
    from it in a byte after that.  The request is answered as if there were no coins. *)
Theorem reverse_iteration_misses excluded q pre byte n rest other :
  Z.of_nat (length excluded) ≤ max_input → has_flag db CoinsToSpend = true →
  sq_asset_id q = pre ++ byte :: replicate n U8 → length (sq_asset_id q) = 32%nat → byte < U8 →
  length rest = n → Forall (λ x, x ≤ U8) rest → rest ≠ replicate n U8 → ledger_coin base L owner (pre ++ (byte + 1) :: rest) other →
  0 < sq_amount q ≤ U128 → (∀ m, sq_max q = Some m → 0 < m ≤ U16) →
  coins_to_spend db gen_range shuffle owner max_input base excluded [q] = Some (Err (InsufficientCoins owner (sq_asset_id q) 0)).
Proof using Type*.
  intros Hex Hf Hasset Ha Hbyte Hn Hrest Hne Hc Hamount Hmax.
  assert (¬ gap_free (off_chain db) COINS_TO_SPEND_COLUMN ([NON_RETRYABLE_BYTE] ++ owner ++ sq_asset_id q)) as Hgap.
  { rewrite Hasset. apply (index_hidden base base_ok L db owner pre byte n rest other); try done. rewrite Hasset, length_app in Ha. simpl in Ha. rewrite length_replicate in Ha.
    rewrite length_app. simpl. by rewrite Hn. }
  pose proof (single_outcome excluded q Hex) as Ho. specialize (Ho ltac:(split; [lia|intros m Hm%Hmax; lia|done])).
  cbv zeta in Ho. unfold visible, spend_error, spend_succeeds in Ho. rewrite Hf, (decide_False (P := gap_free _ _ _)) in Ho by done.
  set (a := spend_target max_input q) in *.
  assert (best_of a [] = 0) as Hbest by (unfold best_of; change (sort_desc []) with (@nil CoinType); by rewrite take_nil).
  assert (0 < target_max a) as Hm by (unfold a; simpl; destruct (sq_max q) as [m|] eqn:He; simpl; [specialize (Hmax m eq_refl)|]; lia).
  rewrite decide_False in Ho by (rewrite Hbest; unfold a in *; simpl in *; naive_solver lia).
  rewrite decide_False, Hbest in Ho by (cbn [length]; lia). exact Ho.
Qed.
End queries.

(** ** The index of coins to spend *)

(** C25: the key of a coin or a message in the index of coins to spend is decoded to what was
    encoded, no two of them have the same bytes, and among those of one owner, asset and kind
    the order of the bytes is the order of the amounts. *)
Theorem index_key_codec k k' : wf_index_key k → wf_index_key k' →
  decode_index_key (encode_index_key k) = Ok k ∧
  (encode_index_key k = encode_index_key k' → k = k') ∧
  (key_retryable_flag k = key_retryable_flag k' → key_owner k = key_owner k' → key_asset_id k = key_asset_id k' →
   key_amount k < key_amount k' → ¬ key_le (encode_index_key k') (encode_index_key k)).
Proof.
  intros Hk Hk'. split_and!; [by apply decode_encode_index_key|by apply encode_index_key_inj|].
  intros Hf Ho Ha Hlt Hle. apply encode_index_key_le in Hle; [lia|done..].
Qed.

(** C23: after the events of a block the rows of the tables of the owned coins, of the owned
    messages and of the coins to spend are exactly those of the coins and messages that the
    events lead to: each row is the encoding of the well-formed key of one of them, with its
    owner, which its decoding gives, and has an empty value. *)
Theorem index_rows_typed `{OC : OffChainCodecs} `{OL : !OffChainCodecsLaws} (base : AssetId) (balances : bool) (x : Db) L evs :
  length base = 32%nat → wf_ledger L → events_ok L evs → Z.of_nat (ledger_size L + length evs) ≤ U64 →
  indexed base balances true (view_of x) L →
  let L' := foldl ledger_event L evs in
  ∃ t, process_executor_events balances true base evs (into_transaction x) = (t, Ok ()) ∧ ∀ k v,
    (kv_get t k COINS_TO_SPEND_COLUMN = Ok (Some v) ↔
      v = [] ∧ ∃ key, to_spend_keys base L' key ∧ wf_index_key key ∧ decode_index_key k = Ok key ∧ k = encode_index_key key) ∧
    (kv_get t k OWNED_COINS_COLUMN = Ok (Some v) ↔
      v = [] ∧ ∃ id c, lcoins L' !! id = Some c ∧ length (coin_owner c) = 32%nat ∧ wf_utxo id ∧ k = owner_coin_id_key (coin_owner c) id) ∧
    (kv_get t k OWNED_MESSAGE_IDS_COLUMN = Ok (Some v) ↔
      v = [] ∧ ∃ n m, lmessages L' !! n = Some m ∧ length (recipient m) = 32%nat ∧ length n = 32%nat ∧ k = recipient m ++ n).
Proof.
  intros Hb HL Hev Hs Hix L'. destruct (events_step index_keys (λ c k H, H) x base Hb balances true evs (view_of x) L HL Hev Hs Hix) as (w & R & [[Hc Hm _] _ Hts] & _).
  destruct (R _ (into_transaction_ok x index_keys)) as (t & Ht & Hok). exists t. split; [exact Ht|]. intros k v.
  rewrite !(tx_ok_get _ _ _ _ _ _ Hok). specialize (Hts eq_refl k). specialize (Hc k). specialize (Hm k).
  pose proof (events_wf evs L HL Hev) as HL'. fold L' in Hts, Hc, Hm, HL'. split_and!; split.
  - intros Hv. destruct Hts as [[(key & Hkey & ->) He]|[_ He]]; rewrite He in Hv; [injection Hv as <-|done]. split; [done|].
    destruct (to_spend_wf _ _ _ HL' Hb Hkey) as [Hwf _]. exists key. split_and!; [done|done|by apply decode_encode_index_key|done].
  - intros (-> & key & Hkey & _ & _ & ->). destruct Hts as [[_ He]|[Hno _]]; [done|]. destruct Hno. by exists key.
  - intros Hv. destruct Hc as [[(id & c & Hc & ->) He]|[_ He]]; rewrite He in Hv; [injection Hv as <-|done]. split; [done|].
    destruct (wl_coins _ HL' _ _ Hc) as ([Hid _] & Ho & _). by exists id, c.
  - intros (-> & id & c & Hl & _ & _ & ->). destruct Hc as [[_ He]|[Hno _]]; [done|]. destruct Hno. by exists id, c.
  - intros Hv. destruct Hm as [[(n & m & Hm & ->) He]|[_ He]]; rewrite He in Hv; [injection Hv as <-|done]. split; [done|].
    destruct (wl_messages _ HL' _ _ Hm) as (_ & Hn & Hr & _). by exists n, m.
  - intros (-> & n & m & Hl & _ & _ & ->). destruct Hm as [[_ He]|[Hno _]]; [done|]. destruct Hno. by exists n, m.
Qed.

(** ** Iteration *)

(** With every combination of a prefix, a start and a direction RocksDB iterates as the store
    in memory does, provided that a start has the prefix and that nothing lies between the
    prefix of an iteration backward and its next one. *)
Lemma stores_iterate_alike (db : Db) c prefix start dir :
  (∀ p, prefix = Some p → start = None → dir = Reverse → gap_free db c p) →
  (∀ p s, prefix = Some p → start = Some s → p `prefix_of` s) →
  iter_store db c prefix start dir = memory_iterator db c prefix start dir.
Proof.
  intros Hgap Hstart. destruct prefix as [p|], start as [s|], dir; try done.
  - simpl. by rewrite decide_True by (by apply (Hstart p s)).
  - simpl. by rewrite decide_True by (by apply (Hstart p s)).
  - rewrite reverse_prefixed by (by apply Hgap). by rewrite <- forward_prefixed.
Qed.

(** C26: an iteration forward over the keys with a prefix has each of them once, with its value,
    in the order of the bytes; backward it has the same in the opposite order if no other key
    lies between the prefix and the one that [next_prefix] gives, and otherwise nothing, where a
    store in memory has the same as forward. From a start that has the prefix, and without a
    prefix, it is the iteration over the ordered map of a store in memory; from a start without
    the prefix it has nothing. *)
Theorem prefix_iteration_exact (db : Db) c p :
  let l := iter_store db c (Some p) None Forward in
  (∀ k v, (k, v) ∈ l ↔ db_get db k c = Some v ∧ p `prefix_of` k) ∧ NoDup l.*1 ∧ StronglySorted entry_le l ∧
  iter_store db c (Some p) None Reverse = (if decide (gap_free db c p) then reverse l else []) ∧
  memory_iterator db c (Some p) None Reverse = reverse l ∧
  (∀ s dir, iter_store db c (Some p) (Some s) dir =
    if decide (p `prefix_of` s) then memory_iterator db c (Some p) (Some s) dir else []) ∧
  (∀ start dir, iter_store db c None start dir = memory_iterator db c None start dir).
Proof.
  cbv zeta. split_and!.
  - intros k v. rewrite forward_prefixed. unfold prefixed. rewrite list_elem_of_filter, entries_in. naive_solver.
  - rewrite forward_prefixed. unfold prefixed. eapply sublist_NoDup; [apply entries_nodup|apply fmap_sublist, sublist_filter].
  - rewrite forward_prefixed. apply filter_sorted, entries_sorted.
  - rewrite forward_prefixed. apply reverse_iteration.
  - done.
  - intros s dir. case_decide as Hs; [|simpl; by rewrite decide_False]. apply stores_iterate_alike; [done|]. by intros ? ? [= <-] [= <-].
  - intros start dir. by apply stores_iterate_alike.
Qed.

(** ** On the sample chain *)

Module OffChainExamples.
Import SampleDb.
Import SampleChain.
Import SampleVm.
Import ExecutorExamples.
Import SampleOffChain.

Abbreviation ValidBlock := (ValidImport (Signature := Z)).

Definition publish (r : ImportResult Transaction Z (TransactionExecutionStatus Z unit) ExecutorEvent) : option Value := Some [].

Definition genesis_import : ImportResult Transaction Z (TransactionExecutionStatus Z unit) ExecutorEvent := {|
  sealed_block := {|
    entity := {| header := recalculate_metadata (header genesis_block); transactions := [] |};
    seal := CPoA 0;
  |};
  tx_status := []; events := []; source := Local;
|}.

Lemma genesis_wf : wf_import genesis_import.
Proof. split; [by vm_compute|split; by vm_compute]. Qed.
Lemma sample_wf : wf_import sample_import.
Proof. split; [vm_compute; reflexivity|split; vm_compute; discriminate]. Qed.

Definition sample_chain : list ValidBlock := [exist _ genesis_import genesis_wf; exist _ sample_import sample_wf].

Lemma sample_unfold : validate_without_commit exec_instance (entity (sealed_block sample_import)) =
  Ok (tx_status sample_import, events sample_import, sample_result.2).
Proof. refine (eq_trans sample_validates _). cbn [sample_import tx_status events]. generalize sample_result. intros [[a b] x]. reflexivity. Qed.

Lemma sample_nothing_left : ¬ left_events (events sample_import).
Proof. apply nothing_left_ok. vm_compute. reflexivity. Qed.

Lemma sample_size : Z.of_nat (ledger_size ledger + length (events sample_import)) ≤ U64.
Proof. vm_compute. discriminate. Qed.

Lemma sample_height : import_height sample_import = 1.
Proof. vm_compute. reflexivity. Qed.

Lemma sample_events_ok : events_ok ledger (events sample_import).
Proof.
  refine (proj1 (replays_follow _ _ _ ledger (validated_replays exec_instance _ _ _ _ eq_refl sample_keyed sample_unfold sample_nothing_left)
    ledger_held sample_events sample_imports)).
Qed.

Lemma sample_linked : @linked Task ValidBlock WorkerError (import_processor publish) 0 sample_chain.
Proof.
  split; [lia| |vm_compute; discriminate]. intros [|[|i]] b; [intros [= <-]; vm_compute; reflexivity|intros [= <-]|done].
  exact sample_height.
Qed.

Lemma sample_up_to : up_to settings RewindFullRange 0 sample_chain 1 ledger 1 sample_task.
Proof.
  split; [lia|]. split; [reflexivity|]. exists (initial off_chain_db 0), [], (λ _, 0).
  split; [exact off_chain_db_ok|]. split; [reflexivity|].
  exact (chain_one settings sample_import (stored sample_task) (λ _, 0) ledger sample_wf sample_fits ledger_wf sample_events_ok sample_size sample_indexed).
Qed.

Lemma publish_ok r : is_Some (publish r).
Proof. by eexists. Qed.

#[local] Instance sample_processor : BlockProcessor Task ValidBlock WorkerError := import_processor publish.
#[local] Instance sample_processor_laws : BlockProcessorLaws Task ValidBlock WorkerError := import_processor_laws publish publish_ok.

Definition sample_started : Worker Task ValidBlock WorkerError := started sample_task false sample_chain 1.
(** The worker catches up with the second block. *)
Lemma sample_catches_up : ∃ n s, nsteps catch_up_step n sample_started s ∧ wk_phase s = Following ∧ wk_chain s = sample_chain ∧
  length (wk_processed s) = 1%nat.
Proof.
  pose proof (started_in_order 0 sample_task false sample_chain 1 1 sample_linked ltac:(discriminate) ltac:(simpl; lia) eq_refl) as Hio.
  destruct (catching_up_reaches 0 _ sample_chain _ (up_to_good (FV := vm) publish publish_ok settings RewindFullRange 0 1 ledger sample_started eq_refl Hio) 1 sample_started)
    as (n & s & Hr & Hcu & Hf & Hch).
  { apply begins_catching_up; [exact Hio|reflexivity|exact sample_up_to]. }
  exists n, s. split; [exact Hr|]. split; [exact Hf|]. split; [exact Hch|].
  destruct (catching_up_done 0 _ _ _ 1 s Hcu Hf) as (Hj & _ & _). rewrite Hch in Hj. unfold done_blocks in Hj. simpl in Hj. lia.
Qed.

Lemma sample_typed : block_typed settings sample_import (stored sample_task) (λ _, 0).
Proof.
  destruct sample_fits as [[_ Hst] Hrs How Hco _ Hct]. split; [|exact Hrs|exact How|exact Hco|exact Hct].
  apply Forall_forall. intros st Hin. exact (proj1 (Hst st Hin)).
Qed.

Lemma sample_known : statuses_known (view_of exec_db) (stored sample_task).
Proof. intros id _. apply no_rows, (bool_decide_unpack _). exact I. Qed.

Lemma validated_block_indexed_witness :
  ∃ w' v' revs' L', process_block publish sample_task sample_import = (w', Ok ()) ∧
    db_ok off_chain_keys RewindFullRange (w_database w') v' revs' ∧ v_latest v' = import_height sample_import ∧ w_settings w' = settings ∧
    holds (after (xdatabase exec_instance) sample_result.2) L' ∧ wf_ledger L' ∧
    indexed (ws_base_asset_id settings) (ws_balances settings) (ws_coins_to_spend settings) (stored w') L' ∧
    statuses_known (after (xdatabase exec_instance) sample_result.2) (stored w') ∧
    block_indexed settings sample_import (stored sample_task) (λ _, 0) ledger (stored w').
Proof.
  exact (validated_block_indexed publish exec_instance sample_result.2 RewindFullRange sample_task (initial off_chain_db 0) [] sample_import
    (λ _, 0) ledger [] eq_refl sample_keyed sample_unfold sample_nothing_left ledger_held ledger_wf sample_events sample_imports sample_size
    off_chain_db_ok sample_wf sample_height eq_refl sample_typed sample_known sample_indexed eq_refl).
Defined.

Lemma worker_in_order_witness :
  ∃ s, rtc worker_step sample_started s ∧ length (wk_processed s) = 1%nat ∧
    linked 0 (wk_chain s) ∧ wk_processed s = take (length (wk_processed s)) (drop 1 (wk_chain s)) ∧
    Database.height (w_database (wk_task s)) = height_after 0 (1 + length (wk_processed s)).
Proof.
  destruct sample_catches_up as (n & s & Hr & _ & _ & Hp). pose proof (run_reached _ _ _ _ (nsteps_run _ _ _ Hr)) as Hs.
  exists s. split; [exact Hs|]. split; [exact Hp|].
  refine (worker_in_order publish publish_ok 0 1 sample_chain sample_task false 1 s sample_linked _ _ eq_refl Hs).
  - discriminate.
  - simpl. lia.
Defined.

Lemma off_chain_catches_up_witness :
  ∃ n s, catch_up_run n 0 sample_started s ∧ wk_phase s = Following ∧ length (wk_processed s) = 1%nat ∧
    (n ≤ 6)%nat ∧ ((∃ s', catch_up_step s s') ∨
     wk_phase s = Following ∧ ∃ j, (2 ≤ j ≤ 2)%nat ∧
       wk_processed s = drop 1 (take j (wk_chain s)) ∧ Database.height (w_database (wk_task s)) = height_after 0 j ∧
       indexed (ws_base_asset_id settings) (ws_balances settings) (ws_coins_to_spend settings) (stored (wk_task s))
         (ledger_after (wk_chain s) 1 ledger j)).
Proof.
  destruct sample_catches_up as (n & s & Hr & Hf & Hch & Hp). exists n, s. apply nsteps_run in Hr.
  split; [exact Hr|]. split; [exact Hf|]. split; [exact Hp|].
  pose proof (off_chain_catches_up publish publish_ok settings RewindFullRange 0 1 ledger sample_chain sample_task false 1 sample_started n 0 s
    sample_linked ltac:(discriminate) ltac:(simpl; lia) eq_refl eq_refl (rtc_refl _ _) eq_refl Hr) as Hc.
  rewrite Hch in Hc |- *. exact (Hc sample_up_to).
Defined.

Lemma late_broadcast_stops_witness :
  ∃ s, rtc catch_up_step sample_started s ∧ wk_phase s = Following ∧ wk_processed s = drop 1 sample_chain ∧
    let received := with_chain sample_chain [exist _ sample_import sample_wf] 2 s in
    let failed := process Following (exist _ sample_import sample_wf) (with_queues (wk_target s) (wk_buffered s) [] received) in
    worker_step s received ∧ worker_step received failed ∧ wk_phase failed = ShuttingDown ∧ wk_processed failed = drop 1 sample_chain.
Proof.
  refine (late_broadcast_stops publish publish_ok settings RewindFullRange 0 1 ledger sample_chain sample_task 1 _ sample_linked _ eq_refl sample_up_to eq_refl).
  simpl. lia.
Defined.

(** *** Queries *)

Definition sample_view : ReadView :=
  {| OffChainQuery.on_chain := exec_db; off_chain := ledger_db zeroed ledger 0; batch_size := 2; indexation_flags := [Balances; CoinsToSpend] |}.

Lemma sample_synced : synced zeroed ledger sample_view.
Proof. split; [apply ledger_wf|apply ledger_held|apply sample_indexed|done]. Qed.

Lemma balance_agrees_witness : balance sample_view ALICE zeroed zeroed = Some (Ok 150).
Proof.
  refine (eq_trans (balance_agrees zeroed ledger sample_view ALICE zeroed eq_refl sample_synced eq_refl eq_refl _) _);
    vm_compute; [discriminate|reflexivity].
Defined.

Definition sample_query : SpendQueryElement := {| sq_asset_id := zeroed; sq_amount := 70; sq_max := None; sq_allow_partial := None |}.


Definition zero_query : SpendQueryElement := {| sq_asset_id := zeroed; sq_amount := 5; sq_max := Some 0; sq_allow_partial := None |}.

Lemma zero_limit_answers_witness :
  coins_to_spend sample_view (λ _ b, b) (λ _ l, l) ALICE 255 zeroed [] [zero_query] = Some (Ok [[]]).
Proof.
  refine (eq_trans (zero_limit_answers zeroed ledger sample_view ALICE 255 (λ _ b, b) (λ _ l, l) eq_refl sample_synced eq_refl _ _ _
    [] zero_query _ eq_refl _ eq_refl _) eq_refl).
  - vm_compute. split; [reflexivity|discriminate].
  - intros _ b Hb. lia.
  - reflexivity.
  - vm_compute. discriminate.
  - vm_compute. split; [reflexivity|discriminate].
  - discriminate.
Defined.

(** Two assets, the first of which ends in the byte 255. *)
Definition asset_255 : AssetId := replicate 31 0 ++ [255].
Definition asset_256 : AssetId := replicate 30 0 ++ [1; 0].
Definition coin_of (a : AssetId) : CompressedCoin :=
  {| coin_owner := ALICE; coin_amount := 50; coin_asset_id := a; coin_tx_pointer := no_pointer |}.
Definition gap_ledger : Ledger :=
  {| lcoins := <[utxo 1 := coin_of asset_255]> (<[utxo 2 := coin_of asset_256]> ∅); lmessages := ∅; lspent := ∅ |}.
Definition gap_db : Db :=
  {[COINS_COLUMN := <[utxo_key (utxo 1) := ser_coin (coin_of asset_255)]> (<[utxo_key (utxo 2) := ser_coin (coin_of asset_256)]> ∅)]}.
Definition gap_view : ReadView :=
  {| OffChainQuery.on_chain := gap_db; off_chain := ledger_db zeroed gap_ledger 0; batch_size := 2; indexation_flags := [Balances; CoinsToSpend] |}.

Lemma gap_wf : wf_ledger gap_ledger.
Proof.
  split; [|apply map_Forall_empty]. simpl. repeat apply map_Forall_insert_2; [..|by apply map_Forall_empty];
    (split_and!; [|by vm_compute|by vm_compute|by vm_compute]); (split; [split|]; by vm_compute).
Qed.

Lemma gap_synced : synced zeroed gap_ledger gap_view.
Proof.
  split; [apply gap_wf| |apply ledger_db_indexed; [apply gap_wf|vm_compute; discriminate]|done]. split.
  - intros id Hid. unfold view_of. cbn [kv_get rocks_inspect gap_view OffChainQuery.on_chain]. unfold db_get, gap_db. rewrite lookup_singleton_eq.
    cbn [mbind option_bind]. f_equal. cbn [gap_ledger lcoins]. apply coin_row_insert, coin_row_insert; [done..|]. by rewrite !lookup_empty.
  - intros n Hn. unfold view_of. cbn [kv_get rocks_inspect gap_view OffChainQuery.on_chain]. unfold db_get, gap_db.
    by rewrite lookup_singleton_ne by discriminate.
Qed.

Definition gap_query : SpendQueryElement := {| sq_asset_id := asset_255; sq_amount := 5; sq_max := None; sq_allow_partial := None |}.

Lemma reverse_iteration_misses_witness :
  ledger_coin zeroed gap_ledger ALICE asset_255 (CtCoin (uncompress_coin (coin_of asset_255) (utxo 1))) ∧
  coins_to_spend gap_view (λ _ b, b) (λ _ l, l) ALICE 255 zeroed [] [gap_query] = Some (Err (InsufficientCoins ALICE asset_255 0)).
Proof.
  split; [split_and!; vm_compute; reflexivity|].
  refine (reverse_iteration_misses zeroed gap_ledger gap_view ALICE 255 (λ _ b, b) (λ _ l, l) eq_refl gap_synced eq_refl _ _ _
    [] gap_query (replicate 30 0) 0 1 [0] (CtCoin (uncompress_coin (coin_of asset_256) (utxo 2))) _ eq_refl eq_refl eq_refl eq_refl eq_refl _ _ _ _ _).
  - vm_compute. split; [reflexivity|discriminate].
  - intros _ b Hb. lia.
  - reflexivity.
  - vm_compute. discriminate.
  - apply Forall_singleton. vm_compute. discriminate.
  - vm_compute. discriminate.
  - split_and!; vm_compute; reflexivity.
  - vm_compute. split; [reflexivity|discriminate].
  - discriminate.
Defined.

Lemma index_key_codec_witness :
  decode_index_key (encode_index_key (IndexCoin ALICE zeroed 5 (utxo 1))) = Ok (IndexCoin ALICE zeroed 5 (utxo 1)) ∧
  (encode_index_key (IndexCoin ALICE zeroed 5 (utxo 1)) = encode_index_key (IndexCoin ALICE zeroed 7 (utxo 1)) →
   IndexCoin ALICE zeroed 5 (utxo 1) = IndexCoin ALICE zeroed 7 (utxo 1)) ∧
  (NON_RETRYABLE_BYTE = NON_RETRYABLE_BYTE → ALICE = ALICE → zeroed = zeroed → 5 < 7 →
   ¬ key_le (encode_index_key (IndexCoin ALICE zeroed 7 (utxo 1))) (encode_index_key (IndexCoin ALICE zeroed 5 (utxo 1)))).
Proof. apply (index_key_codec (IndexCoin ALICE zeroed 5 (utxo 1)) (IndexCoin ALICE zeroed 7 (utxo 1))); by vm_compute. Defined.

Lemma index_rows_typed_witness :
  let L' := foldl ledger_event ledger (events sample_import) in
  ∃ t, process_executor_events true true zeroed (events sample_import) (into_transaction (ledger_db zeroed ledger 0)) = (t, Ok ()) ∧ ∀ k v,
    (kv_get t k COINS_TO_SPEND_COLUMN = Ok (Some v) ↔
      v = [] ∧ ∃ key, to_spend_keys zeroed L' key ∧ wf_index_key key ∧ decode_index_key k = Ok key ∧ k = encode_index_key key) ∧
    (kv_get t k OWNED_COINS_COLUMN = Ok (Some v) ↔
      v = [] ∧ ∃ id c, lcoins L' !! id = Some c ∧ length (coin_owner c) = 32%nat ∧ wf_utxo id ∧ k = owner_coin_id_key (coin_owner c) id) ∧
    (kv_get t k OWNED_MESSAGE_IDS_COLUMN = Ok (Some v) ↔
      v = [] ∧ ∃ n m, lmessages L' !! n = Some m ∧ length (recipient m) = 32%nat ∧ length n = 32%nat ∧ k = recipient m ++ n).
Proof.
  exact (index_rows_typed zeroed true (ledger_db zeroed ledger 0) ledger (events sample_import) eq_refl ledger_wf sample_events_ok sample_size sample_indexed).
Defined.
End OffChainExamples.
